(* ===== verification/_CoqProject ===== *)
-Q . S2P
Prelude.v
LinkedList.v
Paging.v
CString.v
Spinlock.v
Printf.v
PrintfProofs.v
Clock.v
Buddy.v
BuddyProofs.v
MemInit.v
BuddySpec.v
RbTree.v
RbTreeProofs.v
Kernel.v
PageWalk.v
PageWalkProofs.v
AddrSpace.v
PageTable.v
PageTableProofs.v
PageMap.v
PageWalkAll.v
PageRead.v
PageUnmap.v
PageTableSpec.v
Slab.v
Vma.v
VmaProofs.v
SlabProofs.v
SlabFree.v
SlabSpec.v
Console.v
ConsoleProofs.v
Task.v
Sched.v
SchedProofs.v
SchedSpec.v
Devices.v
Ata.v
Ahci.v
ByteMem.v
AtaProofs.v
AtaSpec.v
Oom.v
OomSpec.v
Swap.v
SwapSpec.v
Segments.v
SegmentsSpec.v
BootLoader.v
Acpi.v
AcpiSpec.v
Monitor.v
MonitorSpec.v
MemInitExt.v
SyscallEntry.v
UserLib.v
Smp.v
Migrate.v
MemStart.v
Lab1.v
