(* ===== verification/Prelude.v ===== *)
(** * A verification of the kernel's memory management, scheduler, drivers and libraries

    This library models, from the C sources and the assembly of the system call
    path, the boot loader and the parts of the OpenLSD x86-64 kernel that manage
    memory, schedule tasks, set up the machine, start its CPUs and drive the
    console and the disks, the library code they and user programs share and the
    user library, and proves what they promise.

    ** How the code is translated

    Every C function is a Rocq function in a state-and-failure monad, defined
    below.  A run returns a value and the new state ([OK]) or stops: [Panic]
    for a failed [assert] and for [panic], [Fault] for a pointer to no object,
    NULL included, [NoFuel] for a loop that does not end, [Monitor] when the
    kernel has nothing left to do and stays in the monitor, [Leave] when it
    returns to a task.  [wp m Q s] is total correctness: [m] returns from [s],
    and result and final state satisfy [Q]; so a specification proved with it
    excludes panics, faults and endless loops.  Pointers are integers.  Objects
    that other objects embed (list nodes, tree nodes) live in stores indexed
    by address: [container_of] is a subtraction, and aliasing is equality of
    addresses.  Machine integers are [Z] with [u64], [u32], ..., [s32] where
    the C code can wrap around.  The build configuration is the repository's:
    fine-grained locking, lock debugging on, [KERNEL_VMA] at
    0xFFFF800000000000.  Calls of [cprintf] and [debug_print] that report
    progress have no effect on the state of the kernel components and are left
    out; where the output is the operation ([sys_cputs], the monitor,
    [print_vmas]) it is modelled.  The lock of the console is left out.

    Loops over lists, trees and strings run with fuel.  The fuel is the size
    of the store the loop walks through, plus one: a longer walk visits a node
    twice and never ends.  Loops bounded by the code itself (orders, page table
    entries, digits) use that bound.  The proofs show that the fuel suffices.
    Loops that wait for a device take their fuel as an argument: how long a
    device stays busy is a hypothesis on the device.

    ** The parts, bottom up

    - [Prelude]: the monad, [wp], integers, the macros of include/types.h.
    - [LinkedList] (lib/list.c, include/list.h): circular doubly linked
      intrusive lists; [dlist h head xs] represents the sequence [xs].
    - [Paging] (include/paging.h, include/x86-64/paging.h): constants, flags
      and their conversions.
    - [CString] (lib/string.c): strings and blocks in a byte memory; the
      assembly of [memset] and [memmove] with the string instructions.
    - [Spinlock] (kernel/spinlock.c): the lock with its debug fields.  [spin_step]
      is the sequence of accesses of the three operations; [spin_lock],
      [spin_trylock] and [spin_unlock] are its runs on one CPU, and [step]
      interleaves it on several.
    - [Printf], [PrintfProofs] (lib/printfmt.c, lib/printf.c, kernel/printf.c):
      the formatter over any [putch], and its users.
    - [Clock] (lib/time.c, kernel/rtc.c): calendar arithmetic and the CMOS clock.
    - [Buddy], [BuddyProofs], [BuddySpec] (kernel/mem/buddy.c): the frame
      allocator, over [struct page_info]s, free lists and the swap list;
      [buddy_inv m g] with the free blocks [g].
    - [MemInit] (kernel/mem/boot.c, kernel/mem/init.c): [boot_alloc], the
      alignment of the memory map, [page_init].  [MemInitExt] has the memory
      above the boot mapping and the stacks of the other CPUs.
    - [RbTree], [RbTreeProofs] (lib/rbtree.c): red-black trees with parent
      pointers; rotations at any depth through zippers.
    - [Kernel] (include/task.h, include/vma.h, include/cpu.h,
      kernel/vma/find.c): the state the upper components share, VMA lookup.
    - [PageWalk], [PageWalkProofs] (kernel/mem/walk.c): the four-level walk and
      its callbacks, and a rule that reduces a walk to its visits.
    - [AddrSpace]: the processor's own walk [translate], the reference for what
      a page table means, and the tables as a map from paths to frames.
    - [PageTable] (kernel/mem/ptbl.c, lookup.c, insert.c, remove.c, protect.c,
      populate.c, map.c, user.c, tlb.c): the operations; their proofs are in
      [PageTableProofs], [PageMap], [PageWalkAll] (walks over a whole address
      space), [PageRead], [PageUnmap], the properties in
      [PageTableSpec].  The invariant is [space base n root k g T].
    - [Slab] (kernel/mem/slab.c, kmem.c): the slab allocator on top of the
      frame allocator; [SlabProofs] (allocation), [SlabFree] (release, which
      looks up the frame in the kernel's page table), [SlabSpec] (the
      properties of [kmem_init], [kmalloc] and [kfree]).
    - [Vma] (kernel/vma/*.c, kernel/dev/rmap.c): areas, page faults and the
      memory system calls; [VmaProofs]: lookup and insertion.
    - [Console], [ConsoleProofs] (kernel/console.c, kernel/pic.c,
      lib/readline.c): serial and parallel port, screen, keyboard and input
      buffer, over devices that are a parameter ([Ports]).
    - [Task] (kernel/sched/task.c, task_util.c, fork.c, kernel_thread.c): the
      PID map, creating, loading, cloning and freeing tasks.
    - [Sched] (kernel/sched/sched.c, sched_util.c, wait.c, syscall.c, idt.c):
      switching, yielding, waiting, system calls and interrupts;
      [SchedProofs] (run queues, the switch), [SchedSpec] (the properties).
      [task_run], [task_destroy] and [sched_yield] are mutually recursive in C;
      here the first two take [sched_yield] as an argument and the fuel of
      [sched_yield] counts the rounds of an idle CPU, which may be endless.

    - [Devices] (include/ata.h, include/kernel/dev/disk.h, pci.h, the first half
      of kernel/dev/pci.c): the state of the drivers on top of that of the
      scheduler, port and memory-mapped I/O over the parameter [Bus], access to
      the PCI configuration space.
    - [Ata] (kernel/dev/ata.c) and [Ahci] (kernel/dev/ahci.c, disk.c, the rest
      of pci.c): the disk drivers, the dispatch of disk operations, PCI
      enumeration.  [ByteMem] (bytes of pages), [AtaProofs] (what an ATA drive
      does with the task file, [Drive]), [AtaSpec] (the properties).
    - [Oom] (kernel/dev/oom.c), [OomSpec]: the out-of-memory killer.
    - [Swap] (kernel/dev/swap.c), [SwapSpec]: swapping.
    - [Segments] (include/x86-64/gdt.h, idt.h, kernel/sched/gdt.c, idt.c),
      [SegmentsSpec]: segment, task state and interrupt descriptors, as the
      kernel writes and as the processor reads them.
    - [BootLoader] (boot/main.c): loading the kernel's ELF image.
    - [Acpi] (kernel/acpi/*.c, [pci_init]), [AcpiSpec]: the ACPI tables, the
      CPUs, PCI segments and timer they describe, the local APIC.
    - [Monitor] (kernel/monitor.c, kernel/mem/dump.c, kernel/vma/show.c),
      [MonitorSpec]: the kernel's command line.
    - [SyscallEntry] (kernel/sched/stubs.S, lib/stubs.S): the way from a user
      program to [int_handler] and back, as instruction sequences on registers
      and stacks.
    - [UserLib] (lib/syscall.c, libmain.c, exit.c, panic.c, vma.c): the user
      library.  A user program is a tree of system calls ([user]); [run_user]
      runs it on the kernel.
    - [Smp] (kernel/mp.c): [boot_cpus] and [mp_main] as steps of CPUs that
      interleave ([smp_step]).
    - [Migrate] ([buddy_migrate] of kernel/mem/buddy.c): the page array moves to
      its final address; [remapped] is the state seen through the new mapping.
    - [MemStart] ([mem_init], [pml4_setup] of kernel/mem/init.c): the composition
      of [MemInit], [Migrate] and [MemInitExt]; [mem_raw] is what the boot loader
      and the linker leave.
    - [Lab1] (kernel/tests/lab1.c): the self checks that [mem_init] runs.

    ** What the theorems show

    - Lists refine sequences; [rb_balance] restores the red-black invariant;
      two theorems exhibit valid trees on which [rb_remove] faults, or leaves
      an unbalanced tree.
    - The frame allocator never hands out a frame twice, keeps its blocks
      aligned and coalesced; [mem_init] establishes its invariant from the boot
      loader's memory map, the kernel's own checks of it pass, and moving the
      page array keeps it.
    - A critical section is exclusive however the CPUs interleave, and the lock
      names its owner when it has one.  The sections of the other components are
      runs of the same operations.
    - Each page table operation has exactly the effect on the processor's
      translation that its name says, keeps reference counts and the TLB right
      and gives back what is no longer used: the page that an insertion replaces
      loses its reference, and a removal frees exactly the tables it empties.
      The error theorems show where the code does not check what it should;
      [PageMap.reinsert_frees_page] shows what the insertion theorem excludes.
    - [kmalloc] returns memory no live object uses and [kfree] takes it back.
    - The VMA lookups agree with a linear search, and [insert_vma] keeps the
      areas of a task sorted, disjoint and equal in tree and list.
    - [sched_yield] implements an abstract turn on the run queues and changes
      nothing else of lists and CPUs; timer interrupts on a single CPU
      go on for ever and every task gets its turn within two rounds;
      balancing terminates and loses no task; a task can only kill itself and
      its children.
    - A sector written to an ATA drive and read back is the same, whatever the
      drive's latency; a read of several sectors loses all but the first.
    - The score of the out-of-memory killer is the number of pages the processor
      finds mapped, and its victim is the user task with the highest score,
      whatever the status of the tasks; the measure of free memory counts the largest blocks only.
    - The choice of the page to evict terminates, and takes the page that came
      last; the first call of [swap_out] fails and loses the page.
    - Every interrupt vector has the gate that is meant for it, and only two can
      be used by user code; the task state segment of each CPU is its own, but
      it opens I/O ports to user code.
    - A system call reaches the kernel with the arguments of the caller and
      returns to it with its registers as they were; [puts] of the user
      library shows the bytes of a readable buffer and changes nothing but the
      console, except that the kernel reads one byte too many; [print_vmas]
      lists the whole address space.
    - However fast the CPUs are, each starts on its own stack and task state
      segment, and the start-up ends, unless the ACPI numbers of the CPUs are
      not their APIC IDs: then it hangs.
    - The boot loader puts a bootable image where its headers say.
    - The search for ACPI tables agrees with a reference search, and the monitor
      splits a line into its words.
    - The screen refines a list of cells, the console input a queue; keyboard
      decoding is checked for all scan codes and shift states.
    - [memmove], [strcmp], [strlcpy], [vsnprintf], [printf] and the number
      conversions meet their usual specifications; [tm_to_time] agrees with
      the calendar.

    Hypotheses that name addresses ([Layout], [KernelEnd], [VmaNames],
    [SchedLayout], [SwapLayout], [SegLayout], [CpuLayout], [MonitorLayout],
    [Rodata]) stand for symbols the linker places.  [Ports], [Bus] and [BootDisk]
    are the hardware and the BIOS.  Variables the C code reads before it has set
    them are arguments.  Every theorem with hypotheses is followed by an instance
    at a concrete machine.

    ** Not modelled

    The order of the set-up calls in [kmain], printers that change nothing, the
    assembly outside the system call path, the self tests that change state or
    concern page tables and slabs, and the user programs.  [pml4_setup] and the
    second half of [mem_init] are modelled but not specified as a whole.  Tasks that end or wait
    ([task_destroy], [sys_waitpid] with a child) and [sys_fork] are modelled but
    not specified: they free areas with [rb_remove], whose rebalancing is wrong,
    and the list of children is corrupted by [task_clone].  The same holds for [free_vmas], merging,
    splitting and the VMA system calls.  Other CPUs appear as locks that are
    taken; only [Spinlock] and [Smp] interleave them. *)

From stdpp Require Export gmap numbers.
From stdpp Require Export list_basics list_relations list_monad list_misc list_tactics list_numbers list.

Local Open Scope Z_scope.

(** ** Outcomes of kernel code

    A kernel routine either returns ([OK]) or stops.  It stops because an
    [assert] fails or [panic] is called ([Panic]: the kernel enters the
    monitor and never resumes the caller), because it dereferences a pointer
    that is not backed by an object ([Fault], which covers NULL), because a
    loop never ends ([NoFuel]), because it has nothing left to do and stays in
    the monitor ([Monitor]), or because control leaves the C code for a task,
    through [iret64] ([Leave]).  The state at that point is kept. *)
Inductive stop := Panic | Fault | NoFuel | Monitor | Leave.

#[global] Instance stop_eq_dec : EqDecision stop.
Proof. solve_decision. Defined.

Inductive outcome (S A : Type) : Type :=
| OK (a : A) (s : S)
| Stop (r : stop) (s : S).
Arguments OK {_ _} _ _.
Arguments Stop {_ _} _ _.

(** The state-and-failure monad all components are written in. *)
Definition M (S A : Type) : Type := S → outcome S A.

#[global] Instance M_ret {S} : MRet (M S) := λ A a s, OK a s.
#[global] Instance M_bind {S} : MBind (M S) := λ A B f m s,
  match m s with
  | OK a s' => f a s'
  | Stop r s' => Stop r s'
  end.

Section primitives.
Context {S : Type}.

Definition gets {A} (f : S → A) : M S A := λ s, OK (f s) s.
Definition modify (f : S → S) : M S unit := λ s, OK tt (f s).
Definition halt {A} (r : stop) : M S A := λ s, Stop r s.

(** [assert(x)] of include/assert.h. *)
Definition assert (b : bool) : M S unit := if b then mret tt else halt Panic.

(** Reading through a pointer: the object must exist. *)
Definition deref {A} (f : S → option A) : M S A := λ s,
  match f s with Some a => OK a s | None => Stop Fault s end.

(** A part [T] of the state, seen through [g] and written back with [p]:
    the component that owns [T] is called from a component that owns [S]. *)
Definition zoom {T A} (g : S → T) (p : T → S → S) (m : M T A) : M S A := λ s,
  match m (g s) with
  | OK a t => OK a (p t s)
  | Stop r t => Stop r (p t s)
  end.
End primitives.

(** ** Total-correctness specifications

    [wp m Q s]: run from [s], [m] returns (it does not panic, fault or spin)
    and its result and final state satisfy [Q]. *)
Definition wp {S A} (m : M S A) (Q : A → S → Prop) (s : S) : Prop :=
  match m s with
  | OK a s' => Q a s'
  | Stop _ _ => False
  end.

Section wp.
Context {S : Type}.
Implicit Types s : S.

Lemma wp_ret {A} (a : A) (Q : A → S → Prop) s : Q a s → wp (mret a) Q s.
Proof. done. Qed.

Lemma wp_bind {A B} (m : M S A) (f : A → M S B) Q s :
  wp m (λ a, wp (f a) Q) s → wp (m ≫= f) Q s.
Proof. unfold wp, mbind, M_bind. by destruct (m s). Qed.

Lemma wp_bind_inv {A B} (m : M S A) (f : A → M S B) Q s :
  wp (m ≫= f) Q s → wp m (λ a, wp (f a) Q) s.
Proof. unfold wp, mbind, M_bind. by destruct (m s). Qed.

Lemma wp_gets {A} (f : S → A) (Q : A → S → Prop) s : Q (f s) s → wp (gets f) Q s.
Proof. done. Qed.

Lemma wp_modify f (Q : unit → S → Prop) s : Q tt (f s) → wp (modify f) Q s.
Proof. done. Qed.

Lemma wp_assert (b : bool) (Q : unit → S → Prop) s :
  b = true → Q tt s → wp (assert b) Q s.
Proof. by intros ->. Qed.

Lemma wp_deref {A} (f : S → option A) (Q : A → S → Prop) s a :
  f s = Some a → Q a s → wp (deref f) Q s.
Proof. unfold wp, deref. by intros ->. Qed.

Lemma wp_zoom {T A} (g : S → T) (p : T → S → S) (m : M T A) Q s :
  wp m (λ a t, Q a (p t s)) (g s) → wp (zoom g p m) Q s.
Proof. unfold wp, zoom. by destruct (m (g s)). Qed.

Lemma wp_mono {A} (m : M S A) (P Q : A → S → Prop) s :
  wp m P s → (∀ a s', P a s' → Q a s') → wp m Q s.
Proof. unfold wp. destruct (m s); naive_solver. Qed.

Lemma wp_OK {A} (m : M S A) (Q : A → S → Prop) s a s' :
  m s = OK a s' → Q a s' → wp m Q s.
Proof. unfold wp. by intros ->. Qed.

Lemma wp_elim {A} (m : M S A) (Q : A → S → Prop) s :
  wp m Q s → ∃ a s', m s = OK a s' ∧ Q a s'.
Proof. unfold wp. destruct (m s); naive_solver. Qed.

Lemma wp_deref_inv {A} (f : S → option A) (Q : A → S → Prop) s a : f s = Some a → wp (deref f) Q s → Q a s.
Proof. unfold wp, deref. by intros ->. Qed.

Lemma wp_zoom_inv {T A} (g : S → T) (p : T → S → S) (m : M T A) Q s :
  wp (zoom g p m) Q s → wp m (λ a t, Q a (p t s)) (g s).
Proof. unfold wp, zoom. by destruct (m (g s)). Qed.

Lemma wp_assert_replay (b : bool) (P Q : unit → S → Prop) s t :
  wp (assert b) P s → (P tt s → Q tt t) → wp (assert b) Q t.
Proof. destruct b; simpl; [|done]. unfold wp. simpl. auto. Qed.

(** A run that is fully determined. *)
Lemma wp_run {A} (m : M S A) s a s' : wp m (λ b t, b = a ∧ t = s') s → m s = OK a s'.
Proof. unfold wp. destruct (m s); [intros [-> ->]|]; done. Qed.
End wp.

(** Peel one primitive off a [wp] goal. *)
Ltac wp_step :=
  lazymatch goal with
  | |- wp (mbind _ _) _ _ => apply wp_bind
  | |- wp (mret _) _ _ => apply wp_ret
  | |- wp (gets _) _ _ => apply wp_gets
  | |- wp (modify _) _ _ => apply wp_modify
  | |- wp (zoom _ _ _) _ _ => apply wp_zoom
  | |- wp (deref _) _ _ => eapply wp_deref; [eassumption|]
  | |- wp (if ?b then _ else _) _ _ => fail "branch"
  end; cbv beta.
Ltac wp_steps := repeat (wp_step; simpl).

(** Case split on the condition the code tests next. *)
Tactic Notation "wp_if" ident(E) :=
  lazymatch goal with |- wp (if ?b then _ else _) _ _ => destruct b eqn:E end.

(** ** Machine integers *)

Definition u64 (x : Z) : Z := x `mod` 2 ^ 64.
Definition u32 (x : Z) : Z := x `mod` 2 ^ 32.
Definition u16 (x : Z) : Z := x `mod` 2 ^ 16.
Definition u8 (x : Z) : Z := x `mod` 2 ^ 8.
(** Conversion to [int]: two's complement. *)
Definition s32 (x : Z) : Z := (x + 2 ^ 31) `mod` 2 ^ 32 - 2 ^ 31.
Definition s64 (x : Z) : Z := (x + 2 ^ 63) `mod` 2 ^ 64 - 2 ^ 63.

(** Linear arithmetic with division and remainder by constants. *)
Ltac mlia := Z.to_euclidean_division_equations; lia.

Lemma s32_succ x : s32 (s32 x + 1) = s32 (x + 1).
Proof. unfold s32. mlia. Qed.

(** [x & f], as a C condition. *)
Definition has (x f : Z) : bool := negb (Z.land x f =? 0).

(** The [ROUNDDOWN] and [ROUNDUP] macros of include/types.h. *)
Definition ROUNDDOWN (a n : Z) : Z := u64 a - u64 a `mod` n.
Definition ROUNDUP (a n : Z) : Z := ROUNDDOWN (u64 (a + n - 1)) n.

(** [container_of(ptr, type, member)] with the member's offset. *)
Definition container_of (ptr off : Z) : Z := ptr - off.
