(* ===== verification/LinkedList.v ===== *)
(** * Intrusive doubly linked lists (lib/list.c, include/list.h)

    The kernel links [struct list] nodes that are embedded in other objects
    ([pp_node], [swap_node], [vm_mmap], [task_node], ...).  The store maps the
    address of every such node to its two pointers; an address that is not in
    the store is not a node and dereferencing it faults.  [dlist h head xs] is
    the representation predicate: [head] is the anchor of a circular list
    whose elements are [xs], in [next] order. *)

From S2P Require Import Prelude.

Local Open Scope Z_scope.

(** ** Data *)

Definition NULL : Z := 0.

Record node := Node { next : Z; prev : Z }.

#[global] Instance node_eq_dec : EqDecision node.
Proof. solve_decision. Defined.

(** All [struct list] objects of the kernel, by address. *)
Abbreviation lheap := (gmap Z node).

(** ** Operations *)

Definition load (a : Z) : M lheap node := deref (lookup a).
Definition get_next (a : Z) : M lheap Z := n ← load a; mret (next n).
Definition get_prev (a : Z) : M lheap Z := n ← load a; mret (prev n).
Definition set_next (a v : Z) : M lheap unit :=
  n ← load a; modify (insert a (Node v (prev n))).
Definition set_prev (a v : Z) : M lheap unit :=
  n ← load a; modify (insert a (Node (next n) v)).

Definition list_init (head : Z) : M lheap unit :=
  set_next head head;; set_prev head head.

Definition list_insert_after (after new : Z) : M lheap unit :=
  set_prev new after;;
  an ← get_next after;
  set_next new an;;
  an ← get_next after;
  set_prev an new;;
  set_next after new.

Definition list_insert_before (before new : Z) : M lheap unit :=
  set_next new before;;
  bp ← get_prev before;
  set_prev new bp;;
  bp ← get_prev before;
  set_next bp new;;
  set_prev before new.

Definition list_del (x : Z) : M lheap unit :=
  xn ← get_next x; assert (negb (xn =? NULL));;
  xp ← get_prev x; assert (negb (xp =? NULL));;
  set_next xp xn;;
  xn ← get_next x;
  xp ← get_prev x;
  set_prev xn xp;;
  set_next x x;;
  set_prev x x.

Definition list_add (head new : Z) : M lheap unit := list_insert_after head new.
Definition list_add_tail (head new : Z) : M lheap unit := list_insert_before head new.

Definition list_pop (head : Z) : M lheap Z :=
  hp ← get_prev head;
  if hp =? head then mret NULL
  else list_del hp;; mret hp.

Definition list_pop_tail (head : Z) : M lheap Z :=
  hn ← get_next head;
  if hn =? head then mret NULL
  else list_del hn;; mret hn.

Definition list_is_empty (head : Z) : M lheap bool :=
  hn ← get_next head; mret (hn =? head).

Definition list_head (head : Z) : M lheap Z :=
  hn ← get_next head; mret (if hn =? head then NULL else hn).

Definition list_tail (head : Z) : M lheap Z :=
  hp ← get_prev head; mret (if hp =? head then NULL else hp).

Definition list_next (head x : Z) : M lheap Z :=
  xn ← get_next x; mret (if xn =? head then NULL else xn).

Definition list_prev (head x : Z) : M lheap Z :=
  xp ← get_prev x; mret (if xp =? head then NULL else xp).

(** [list_foreach]: the addresses the loop visits.  One more step than there
    are nodes suffices to come back to [head] or never: if it has not come
    back by then, some node has been visited twice and the loop cycles. *)
Fixpoint foreach_from (fuel : nat) (head x : Z) : M lheap (list Z) :=
  match fuel with
  | O => halt NoFuel
  | S fuel =>
      if x =? head then mret []
      else xn ← get_next x; xs ← foreach_from fuel head xn; mret (x :: xs)
  end.

Definition list_foreach (head : Z) : M lheap (list Z) :=
  n ← gets size;
  x ← get_next head;
  foreach_from (S n) head x.

(** ** Representation *)

(** [a] and [b] are neighbours: [a->next == b] and [b->prev == a]. *)
Definition linked (h : lheap) (a b : Z) : Prop :=
  next <$> h !! a = Some b ∧ prev <$> h !! b = Some a.

(** Every two consecutive addresses of [l] are neighbours. *)
Fixpoint chain (h : lheap) (l : list Z) : Prop :=
  match l with
  | x :: (y :: _) as l' => linked h x y ∧ chain h l'
  | _ => True
  end.

Record dlist (h : lheap) (head : Z) (xs : list Z) : Prop := {
  dlist_nodup : NoDup (head :: xs);
  dlist_nonnull : NULL ∉ head :: xs;
  dlist_chain : chain h (head :: xs ++ [head]);
}.

(** A node that is in no list: [list_init] and [list_del] leave it so. *)
Abbreviation detached h x := (dlist h x []).

(** ** Pointer views and their updates *)

Definition nx (h : lheap) (a : Z) : option Z := next <$> h !! a.
Definition pv (h : lheap) (a : Z) : option Z := prev <$> h !! a.
Definition upd_next (a v : Z) (h : lheap) : lheap := alter (λ n, Node v (prev n)) a h.
Definition upd_prev (a v : Z) (h : lheap) : lheap := alter (λ n, Node (next n) v) a h.

Section views.
Implicit Types (h : lheap) (a b v : Z).

Lemma nx_upd_next h a v b : b ∈ dom h → nx (upd_next a v h) b = if decide (a = b) then Some v else nx h b.
Proof.
  intros [n Hn]%elem_of_dom. unfold nx, upd_next. rewrite lookup_alter.
  case_decide; subst; [by rewrite Hn|done].
Qed.
Lemma pv_upd_next h a v b : pv (upd_next a v h) b = pv h b.
Proof.
  unfold pv, upd_next. rewrite lookup_alter. case_decide; subst; [|done].
  by destruct (h !! b).
Qed.
Lemma nx_upd_prev h a v b : nx (upd_prev a v h) b = nx h b.
Proof.
  unfold nx, upd_prev. rewrite lookup_alter. case_decide; subst; [|done].
  by destruct (h !! b).
Qed.
Lemma pv_upd_prev h a v b : b ∈ dom h → pv (upd_prev a v h) b = if decide (a = b) then Some v else pv h b.
Proof.
  intros [n Hn]%elem_of_dom. unfold pv, upd_prev. rewrite lookup_alter.
  case_decide; subst; [by rewrite Hn|done].
Qed.
Lemma dom_upd_next h a v : dom (upd_next a v h) = dom h.
Proof. apply dom_alter_L. Qed.
Lemma dom_upd_prev h a v : dom (upd_prev a v h) = dom h.
Proof. apply dom_alter_L. Qed.
Lemma upd_next_ne h a v b : a ≠ b → upd_next a v h !! b = h !! b.
Proof. intros. by apply lookup_alter_ne. Qed.
Lemma upd_prev_ne h a v b : a ≠ b → upd_prev a v h !! b = h !! b.
Proof. intros. by apply lookup_alter_ne. Qed.
Lemma nx_dom h a b : nx h a = Some b → a ∈ dom h.
Proof. unfold nx. rewrite elem_of_dom. destruct (h !! a); naive_solver. Qed.
Lemma pv_dom h a b : pv h a = Some b → a ∈ dom h.
Proof. unfold pv. rewrite elem_of_dom. destruct (h !! a); naive_solver. Qed.

Lemma wp_get_next h a v (Q : Z → lheap → Prop) : nx h a = Some v → Q v h → wp (get_next a) Q h.
Proof.
  unfold nx. intros Hn HQ. destruct (h !! a) as [n|] eqn:E; [|done]. simplify_eq/=.
  unfold get_next, load. wp_step. eapply wp_deref; [exact E|]. done.
Qed.
Lemma wp_get_prev h a v (Q : Z → lheap → Prop) : pv h a = Some v → Q v h → wp (get_prev a) Q h.
Proof.
  unfold pv. intros Hn HQ. destruct (h !! a) as [n|] eqn:E; [|done]. simplify_eq/=.
  unfold get_prev, load. wp_step. eapply wp_deref; [exact E|]. done.
Qed.
Lemma wp_set_next h a v (Q : unit → lheap → Prop) : a ∈ dom h → Q tt (upd_next a v h) → wp (set_next a v) Q h.
Proof.
  intros [n Hn]%elem_of_dom HQ. unfold set_next, load. wp_step.
  eapply wp_deref; [exact Hn|]. wp_step.
  replace (<[a:=Node v (prev n)]> h) with (upd_next a v h); [done|].
  apply map_eq; intros b. unfold upd_next. rewrite lookup_alter, lookup_insert.
  repeat case_decide; subst; by rewrite ?Hn.
Qed.
Lemma wp_set_prev h a v (Q : unit → lheap → Prop) : a ∈ dom h → Q tt (upd_prev a v h) → wp (set_prev a v) Q h.
Proof.
  intros [n Hn]%elem_of_dom HQ. unfold set_prev, load. wp_step.
  eapply wp_deref; [exact Hn|]. wp_step.
  replace (<[a:=Node (next n) v]> h) with (upd_prev a v h); [done|].
  apply map_eq; intros b. unfold upd_prev. rewrite lookup_alter, lookup_insert.
  repeat case_decide; subst; by rewrite ?Hn.
Qed.
End views.

Create HintDb lists.
Create Rewrite HintDb lists.
#[export] Hint Rewrite pv_upd_next nx_upd_prev dom_upd_next dom_upd_prev : lists.
#[export] Hint Resolve nx_dom pv_dom : lists.

(** Discharge address-in-store side conditions. *)
Ltac in_dom := autorewrite with lists; eauto with lists.

(** Read a pointer view of an updated store. *)
Ltac view :=
  repeat first
    [ rewrite pv_upd_next | rewrite nx_upd_prev
    | rewrite nx_upd_next by in_dom | rewrite pv_upd_prev by in_dom ].

(** ** Chains *)

Section chains.
Implicit Types (h : lheap) (l : list Z).

Lemma linked_views h a b : linked h a b ↔ nx h a = Some b ∧ pv h b = Some a.
Proof. done. Qed.

Lemma chain_app h l1 x l2 : chain h (l1 ++ x :: l2) ↔ chain h (l1 ++ [x]) ∧ chain h (x :: l2).
Proof.
  induction l1 as [|y l1 IH]; simpl; [tauto|].
  destruct l1 as [|z l1]; simpl in *; [tauto|]. rewrite IH. tauto.
Qed.

(** Only the [next] pointers of the non-last and the [prev] pointers of the
    non-first addresses matter. *)
Lemma chain_ext h h' l1 x :
  (∀ y, y ∈ l1 → nx h' y = nx h y) →
  (∀ y, y ∈ tail (l1 ++ [x]) → pv h' y = pv h y) →
  chain h (l1 ++ [x]) → chain h' (l1 ++ [x]).
Proof.
  revert h h'. induction l1 as [|y l1 IH]; intros h h' Hn Hp; [done|].
  assert (∃ z l2, l1 ++ [x] = z :: l2) as (z & l2 & E).
  { destruct l1; simpl; eauto. }
  simpl. rewrite E. intros [[Hl1 Hl2] Hc].
  change (chain h (z :: l2)) in Hc. change (chain h' (z :: l2)) with (chain h' (z :: l2)).
  split.
  - split; [fold (nx h' y); rewrite Hn by set_solver; done|].
    fold (pv h' z). rewrite Hp; [done|]. simpl. rewrite E. set_solver.
  - rewrite <-E in *. apply (IH h); [set_solver| |done].
    intros w Hw. apply Hp. simpl. rewrite E in *. simpl in Hw. set_solver.
Qed.

Lemma chain_dom h l1 x y : chain h (l1 ++ [x]) → y ∈ l1 → y ∈ dom h.
Proof.
  induction l1 as [|z l1 IH]; [set_solver|]. intros Hc [->|Hy]%elem_of_cons.
  - destruct l1; destruct Hc as [[Hn _] _]; by eapply nx_dom.
  - apply IH; [|done]. destruct l1; [done|]. by destruct Hc.
Qed.
End chains.

(** ** The ring around one link

    Every operation cuts or joins a list at one place: between [xs] and [ys].
    [before head xs] is the address left of the cut, [after head ys] the one
    right of it (the head itself when [xs], or [ys], is empty). *)

Definition before (head : Z) (xs : list Z) : Z := List.last (head :: xs) head.
Definition after (head : Z) (ys : list Z) : Z := hd head ys.

Section ring.
Implicit Types (h : lheap) (head : Z) (xs ys : list Z).

Lemma before_split head xs : head :: xs = removelast (head :: xs) ++ [before head xs].
Proof. apply app_removelast_last. done. Qed.

Lemma after_split head ys : ys ++ [head] = after head ys :: tail (ys ++ [head]).
Proof. by destruct ys. Qed.

Lemma before_elem head xs : before head xs ∈ head :: xs.
Proof. rewrite (before_split head xs). set_solver. Qed.

Lemma after_elem head ys : after head ys ∈ head :: ys.
Proof. destruct ys; set_solver. Qed.

Lemma ring_chain h head xs ys : chain h (head :: (xs ++ ys) ++ [head]) ↔
  chain h (head :: xs) ∧ linked h (before head xs) (after head ys) ∧ chain h (ys ++ [head]).
Proof.
  rewrite (after_split head ys).
  assert (head :: (xs ++ ys) ++ [head] = removelast (head :: xs) ++
    before head xs :: after head ys :: tail (ys ++ [head])) as ->.
  { rewrite <-after_split. change (?a :: ?b :: ?c) with ([a; b] ++ c).
    change (before head xs :: ys ++ [head]) with ([before head xs] ++ ys ++ [head]).
    by rewrite app_assoc, <-before_split, <-app_assoc. }
  rewrite chain_app, <-before_split. simpl. tauto.
Qed.

(** Pointers of the two halves survive if only the link in between changed. *)
Lemma halves_ext h h' head xs ys :
  NoDup (head :: xs ++ ys) →
  (∀ y, y ∈ head :: xs ++ ys → y ≠ before head xs → nx h' y = nx h y) →
  (∀ y, y ∈ head :: xs ++ ys → y ≠ after head ys → pv h' y = pv h y) →
  chain h (head :: xs) → chain h (ys ++ [head]) →
  chain h' (head :: xs) ∧ chain h' (ys ++ [head]).
Proof.
  intros Hnd Hn Hp H1 H2.
  pose proof (before_split head xs) as Eb. pose proof (before_elem head xs) as Hb.
  assert (NoDup (head :: xs)) as Hnd' by (by apply (NoDup_app (head :: xs) ys)).
  apply NoDup_cons in Hnd as [Hh (Hx & Hxy & Hy)%NoDup_app].
  split.
  - rewrite Eb in *. apply (chain_ext h); [| |done].
    + intros y Hy'. apply Hn.
      * assert (y ∈ head :: xs) by (rewrite Eb; set_solver). set_solver.
      * intros ->. apply NoDup_app in Hnd' as (_ & Hd & _). set_solver.
    + rewrite <-Eb. simpl. intros y Hy'. apply Hp; [set_solver|].
      intros ->. destruct ys; set_solver.
  - clear Eb H1. apply (chain_ext h); [| |done].
    + intros y Hy'. apply Hn; [set_solver|]. intros ->.
      apply elem_of_cons in Hb as [Hb|Hb]; [rewrite Hb in Hy'|]; set_solver.
    + destruct ys as [|z zs]; [intros y []%not_elem_of_nil|]. simpl.
      intros y Hy'. apply Hp; [set_solver|]. intros ->. unfold after in Hy'. simpl in Hy'.
      apply NoDup_cons in Hy as [Hz _]. apply elem_of_app in Hy' as [?|?]; set_solver.
Qed.

Lemma dlist_ring h head xs ys :
  dlist h head (xs ++ ys) ↔ NoDup (head :: xs ++ ys) ∧ NULL ∉ head :: xs ++ ys ∧
    chain h (head :: xs) ∧ linked h (before head xs) (after head ys) ∧ chain h (ys ++ [head]).
Proof.
  split; [intros [? ? Hc]|intros (?&?&?)].
  - by rewrite ring_chain in Hc.
  - split; [done..|]. by apply ring_chain.
Qed.
End ring.

(** ** Specifications of the operations *)

(** Everything outside [dirty] is untouched, and no node appears or vanishes. *)
Definition frame (dirty : list Z) (h h' : lheap) : Prop :=
  dom h' = dom h ∧ ∀ a, a ∉ dirty → h' !! a = h !! a.

Lemma frame_refl l h : frame l h h.
Proof. done. Qed.

Lemma frame_trans l l' h1 h2 h3 : frame l h1 h2 → frame l' h2 h3 → frame (l ++ l') h1 h3.
Proof. intros [D1 F1] [D2 F2]. split; [congruence|]. intros a Ha. rewrite F2, F1; set_solver. Qed.

Lemma frame_weaken l l' h h' : frame l h h' → l ⊆ l' → frame l' h h'.
Proof. intros [D F] Hs. split; [done|]. intros a Ha. apply F. set_solver. Qed.

(** A list that shares no node with the dirty ones is still the same list. *)
Lemma dlist_frame h h' dirty head xs :
  frame dirty h h' → (∀ a, a ∈ head :: xs → a ∉ dirty) → dlist h head xs → dlist h' head xs.
Proof.
  intros [_ F] Hd [Hnd Hnn Hc]. split; [done..|].
  change (head :: xs ++ [head]) with ((head :: xs) ++ [head]) in *.
  apply (chain_ext h); [| |done].
  - intros y Hy. unfold nx. by rewrite F by (by apply Hd).
  - intros y Hy. unfold pv. rewrite F; [done|]. apply Hd. simpl in Hy. set_solver.
Qed.

Lemma dlist_dom h head xs a : dlist h head xs → a ∈ head :: xs → a ∈ dom h.
Proof.
  intros [_ _ Hc] Ha. by eapply (chain_dom h (head :: xs) head).
Qed.

Section specs.
Implicit Types (h : lheap) (head new x : Z) (xs ys : list Z).

Lemma list_init_spec h head :
  head ∈ dom h → head ≠ NULL →
  wp (list_init head) (λ _ h', dlist h' head [] ∧ frame [head] h h') h.
Proof.
  intros Hd Hz. unfold list_init. wp_step. apply wp_set_next; [done|]. simpl.
  apply wp_set_prev; [in_dom|]. split.
  - split; [apply NoDup_singleton|set_solver|]. simpl. split; [|done]. apply linked_views.
    view. by rewrite !decide_True by done.
  - split; [by autorewrite with lists|]. intros a Ha.
    by rewrite upd_prev_ne, upd_next_ne by set_solver.
Qed.

(** If [new] has been spliced in at the cut, the list has grown by [new]. *)
Lemma dlist_splice h h' head xs ys new :
  dlist h head (xs ++ ys) → new ∈ dom h → new ≠ NULL → new ∉ head :: xs ++ ys →
  (∀ y, y ∈ dom h → nx h' y = if decide (before head xs = y) then Some new
    else if decide (new = y) then Some (after head ys) else nx h y) →
  (∀ y, y ∈ dom h → pv h' y = if decide (after head ys = y) then Some new
    else if decide (new = y) then Some (before head xs) else pv h y) →
  dlist h' head (xs ++ new :: ys).
Proof.
  intros Hl Hd Hz Hnew Hnx Hpv.
  assert (∀ y, y ∈ head :: xs ++ ys → y ∈ dom h) as Hdom by (intros; by eapply dlist_dom).
  pose proof (before_elem head xs) as Ha. pose proof (after_elem head ys) as Hb.
  apply dlist_ring in Hl as (Hnd & Hnn & Hc1 & _ & Hc2).
  destruct (halves_ext h h' head xs ys) as [Hc1' Hc2']; try done.
  { intros y Hy Hne. rewrite Hnx by auto. rewrite !decide_False by set_solver. done. }
  { intros y Hy Hne. rewrite Hpv by auto. rewrite !decide_False by set_solver. done. }
  assert (before head xs ∈ dom h) by (apply Hdom; set_solver).
  assert (after head ys ∈ dom h) by (apply Hdom; set_solver).
  assert (before head xs ≠ new) by set_solver. assert (after head ys ≠ new) by set_solver.
  apply dlist_ring. split_and!; [|set_solver|done| |].
  - apply NoDup_cons in Hnd as [? (?&?&?)%NoDup_app].
    apply NoDup_cons; split; [set_solver|]. apply NoDup_app; split; [done|].
    split; [set_solver|]. apply NoDup_cons; split; [set_solver|done].
  - apply linked_views. simpl. rewrite Hnx, Hpv by done.
    by rewrite decide_True, decide_False, decide_True by done.
  - simpl. rewrite after_split in *. split; [|done].
    apply linked_views. rewrite Hnx, Hpv by done.
    by rewrite decide_False, decide_True, decide_True by done.
Qed.

(** [list_insert_after] at the end of [xs]: the list grows there by [new]. *)
Lemma list_insert_after_spec h head xs ys new :
  dlist h head (xs ++ ys) → new ∈ dom h → new ≠ NULL → new ∉ head :: xs ++ ys →
  wp (list_insert_after (before head xs) new)
    (λ _ h', dlist h' head (xs ++ new :: ys) ∧
             frame [new; before head xs; after head ys] h h') h.
Proof.
  intros Hl Hd Hz Hnew. set (a := before head xs). set (b := after head ys).
  assert (a ∈ head :: xs) as Ha by apply before_elem.
  assert (b ∈ head :: ys) as Hb by apply after_elem.
  assert (a ∈ dom h) by (eapply dlist_dom; [done|set_solver]).
  assert (b ∈ dom h) by (eapply dlist_dom; [done|set_solver]).
  assert (new ≠ a) by set_solver. assert (new ≠ b) by set_solver.
  apply dlist_ring in Hl as (Hnd & Hnn & Hc1 & [Hn Hp] & Hc2). fold a b in Hn, Hp.
  unfold list_insert_after. wp_step. apply wp_set_prev; [done|].
  wp_step. apply (wp_get_next _ _ b); [by view|].
  wp_step. apply wp_set_next; [in_dom|].
  wp_step. apply (wp_get_next _ _ b); [view; by rewrite decide_False|].
  wp_step. apply wp_set_prev; [in_dom|]. apply wp_set_next; [in_dom|].
  split.
  - apply (dlist_splice h); [by apply dlist_ring|done..| |]; intros y Hy; by view.
  - split; [by autorewrite with lists|]. intros y Hy.
    by rewrite upd_next_ne, upd_prev_ne, upd_next_ne, upd_prev_ne by set_solver.
Qed.

(** [list_insert_before] in front of [ys]. *)
Lemma list_insert_before_spec h head xs ys new :
  dlist h head (xs ++ ys) → new ∈ dom h → new ≠ NULL → new ∉ head :: xs ++ ys →
  wp (list_insert_before (after head ys) new)
    (λ _ h', dlist h' head (xs ++ new :: ys) ∧
             frame [new; before head xs; after head ys] h h') h.
Proof.
  intros Hl Hd Hz Hnew. set (a := before head xs). set (b := after head ys).
  assert (a ∈ head :: xs) as Ha by apply before_elem.
  assert (b ∈ head :: ys) as Hb by apply after_elem.
  assert (a ∈ dom h) by (eapply dlist_dom; [done|set_solver]).
  assert (b ∈ dom h) by (eapply dlist_dom; [done|set_solver]).
  assert (new ≠ a) by set_solver. assert (new ≠ b) by set_solver.
  apply dlist_ring in Hl as (Hnd & Hnn & Hc1 & [Hn Hp] & Hc2). fold a b in Hn, Hp.
  unfold list_insert_before. wp_step. apply wp_set_next; [done|].
  wp_step. apply (wp_get_prev _ _ a); [by view|].
  wp_step. apply wp_set_prev; [in_dom|].
  wp_step. apply (wp_get_prev _ _ a); [view; by rewrite decide_False|].
  wp_step. apply wp_set_next; [in_dom|]. apply wp_set_prev; [in_dom|].
  split.
  - apply (dlist_splice h); [by apply dlist_ring|done..| |]; intros y Hy; by view.
  - split; [by autorewrite with lists|]. intros y Hy.
    by rewrite upd_prev_ne, upd_next_ne, upd_prev_ne, upd_next_ne by set_solver.
Qed.

(** [list_del] takes a node out of its list and leaves it detached. *)
Lemma list_del_spec h head xs x ys :
  dlist h head (xs ++ x :: ys) →
  wp (list_del x)
    (λ _ h', dlist h' head (xs ++ ys) ∧ detached h' x ∧
             frame [x; before head xs; after head ys] h h') h.
Proof.
  intros Hl. set (a := before head xs). set (b := after head ys).
  assert (a ∈ head :: xs) as Ha by apply before_elem.
  assert (b ∈ head :: ys) as Hb by apply after_elem.
  assert (∀ y, y ∈ head :: xs ++ x :: ys → y ∈ dom h) as Hdom by (intros; by eapply dlist_dom).
  assert (a ∈ dom h) by (apply Hdom; set_solver).
  assert (b ∈ dom h) by (apply Hdom; set_solver).
  assert (x ∈ dom h) by (apply Hdom; set_solver).
  apply dlist_ring in Hl as (Hnd & Hnn & Hc1 & [Hn Hp] & Hc2). fold a in Hn, Hp.
  simpl in Hn, Hp, Hc2. rewrite (after_split head ys) in Hc2.
  destruct Hc2 as [[Hn' Hp'] Hc2]. fold b in Hn', Hp'.
  change (chain h (after head ys :: tail (ys ++ [head]))) in Hc2. rewrite <-(after_split head ys) in Hc2.
  assert (x ≠ a ∧ x ≠ b) as [Hxa Hxb].
  { clear -Ha Hb Hnd. clearbody a b.
    apply NoDup_cons in Hnd as [? (?&?&[? ?]%NoDup_cons)%NoDup_app]. set_solver. }
  assert (a ≠ NULL) by (clear -Ha Hnn; clearbody a; set_solver).
  assert (b ≠ NULL) by (clear -Hb Hnn; clearbody b; set_solver).
  change (nx h x = Some b) in Hn'. change (pv h x = Some a) in Hp.
  unfold list_del. wp_step. apply (wp_get_next _ _ b); [done|].
  wp_step. apply wp_assert; [unfold NULL in *; lia|].
  wp_step. apply (wp_get_prev _ _ a); [done|].
  wp_step. apply wp_assert; [unfold NULL in *; lia|].
  wp_step. apply wp_set_next; [done|].
  wp_step. apply (wp_get_next _ _ b); [view; by rewrite decide_False|].
  wp_step. apply (wp_get_prev _ _ a); [by view|].
  wp_step. apply wp_set_prev; [in_dom|].
  wp_step. apply wp_set_next; [in_dom|]. apply wp_set_prev; [in_dom|].
  set (h' := upd_prev _ _ _).
  assert (∀ y, y ∈ dom h → nx h' y = if decide (x = y) then Some x
    else if decide (a = y) then Some b else nx h y) as Hnx by (intros y Hy; unfold h'; by view).
  assert (∀ y, y ∈ dom h → pv h' y = if decide (x = y) then Some x
    else if decide (b = y) then Some a else pv h y) as Hpv by (intros y Hy; unfold h'; by view).
  assert (NoDup (head :: xs ++ ys)) as Hnd'.
  { eapply sublist_NoDup; [exact Hnd|].
    apply sublist_skip, sublist_app; [done|]. by apply sublist_cons. }
  assert (x ∉ head :: xs ++ ys) as Hx.
  { apply NoDup_cons in Hnd as [? (?&?&[? ?]%NoDup_cons)%NoDup_app]. set_solver. }
  split_and!.
  - destruct (halves_ext h h' head xs ys) as [Hc1' Hc2']; try done.
    { intros y Hy Hne. rewrite Hnx by (apply Hdom; set_solver). rewrite !decide_False by set_solver. done. }
    { intros y Hy Hne. rewrite Hpv by (apply Hdom; set_solver). rewrite !decide_False by set_solver. done. }
    apply dlist_ring. split_and!; [done|set_solver|done| |done].
    apply linked_views. fold a b. rewrite Hnx, Hpv by done.
    by repeat case_decide.
  - split; [apply NoDup_singleton|set_solver|]. simpl. split; [|done]. apply linked_views.
    rewrite Hnx, Hpv by done. by rewrite !decide_True.
  - split; [unfold h'; by autorewrite with lists|]. intros y Hy. unfold h'.
    by rewrite upd_prev_ne, upd_next_ne, upd_prev_ne, upd_next_ne by set_solver.
Qed.

(** [list_del] of a detached node changes nothing. *)
Lemma list_del_detached h x : detached h x → list_del x h = OK tt h.
Proof.
  intros Hl. pose proof (dlist_dom _ _ _ x Hl) as [n Hx]%elem_of_dom; [|set_solver].
  destruct Hl as [_ Hnn [[Hn Hp] _]]. rewrite Hx in Hn, Hp. simpl in Hn, Hp.
  destruct n as [n p]; simplify_eq/=. unfold list_del, get_next, get_prev, set_next, set_prev, load.
  unfold mbind, M_bind, deref, mret, M_ret, modify, assert. rewrite !Hx. simpl.
  assert (x ≠ NULL) as Hz%Z.eqb_neq by set_solver.
  repeat (first [rewrite Hz | rewrite Hx | rewrite insert_id by done]; simpl). done.
Qed.

(** The ends of a list, as [head->next] and [head->prev]. *)
Lemma dlist_ends h head xs : dlist h head xs →
  nx h head = Some (after head xs) ∧ pv h head = Some (before head xs).
Proof.
  intros Hl. split.
  - pose proof (proj1 (dlist_ring h head [] xs) Hl) as (_ & _ & _ & [Hn _] & _). done.
  - rewrite <-(app_nil_r xs) in Hl. by apply dlist_ring in Hl as (_ & _ & _ & [_ Hp] & _).
Qed.

Lemma before_snoc head xs x : before head (xs ++ [x]) = x.
Proof. unfold before. by rewrite app_comm_cons, List.last_last. Qed.

Lemma before_is_head h head xs : dlist h head xs → before head xs = head ↔ xs = [].
Proof.
  intros [Hnd _ _]. split; [|by intros ->]. destruct xs as [|x xs' _] using rev_ind; [done|].
  rewrite before_snoc. intros ->. apply NoDup_cons in Hnd. set_solver.
Qed.

Lemma after_is_head h head xs : dlist h head xs → after head xs = head ↔ xs = [].
Proof.
  intros [Hnd _ _]. split; [|by intros ->]. destruct xs; [done|]. unfold after; simpl.
  intros ->. apply NoDup_cons in Hnd. set_solver.
Qed.

Lemma list_is_empty_spec h head xs :
  dlist h head xs → list_is_empty head h = OK (bool_decide (xs = [])) h.
Proof.
  intros Hl. pose proof (dlist_ends _ _ _ Hl) as [Hn _].
  assert (wp (list_is_empty head) (λ b h', b = bool_decide (xs = []) ∧ h' = h) h) as
    (? & ? & -> & -> & ->)%wp_elim; [|done].
  unfold list_is_empty. wp_step. eapply wp_get_next; [done|]. apply wp_ret. split; [|done].
  apply eq_bool_prop_intro. rewrite bool_decide_spec, Is_true_true, Z.eqb_eq.
  by eapply after_is_head.
Qed.

(** [list_pop] takes the last element ([head->prev]), [list_pop_tail] the
    first one ([head->next]); both return NULL on an empty list. *)
Lemma list_pop_empty h head : dlist h head [] → list_pop head h = OK NULL h.
Proof.
  intros Hl. pose proof (dlist_ends _ _ _ Hl) as [_ Hp].
  assert (wp (list_pop head) (λ r h', r = NULL ∧ h' = h) h) as (? & ? & -> & -> & ->)%wp_elim; [|done].
  unfold list_pop. wp_step. eapply wp_get_prev; [done|]. unfold before; simpl.
  by rewrite Z.eqb_refl.
Qed.

Lemma list_pop_spec h head xs x :
  dlist h head (xs ++ [x]) →
  wp (list_pop head)
    (λ r h', r = x ∧ dlist h' head xs ∧ detached h' x ∧ frame [x; before head xs; head] h h') h.
Proof.
  intros Hl. pose proof (dlist_ends _ _ _ Hl) as [_ Hp]. rewrite before_snoc in Hp.
  unfold list_pop. wp_step. eapply wp_get_prev; [done|].
  rewrite (proj2 (Z.eqb_neq x head)).
  - wp_step. eapply wp_mono; [by apply list_del_spec|]. simpl. intros _ h'.
    rewrite app_nil_r. unfold after; simpl. done.
  - intros ->. destruct Hl as [Hnd _ _]. apply NoDup_cons in Hnd. set_solver.
Qed.

Lemma list_pop_tail_empty h head : dlist h head [] → list_pop_tail head h = OK NULL h.
Proof.
  intros Hl. pose proof (dlist_ends _ _ _ Hl) as [Hn _].
  assert (wp (list_pop_tail head) (λ r h', r = NULL ∧ h' = h) h) as (? & ? & -> & -> & ->)%wp_elim; [|done].
  unfold list_pop_tail. wp_step. eapply wp_get_next; [done|]. unfold after; simpl.
  by rewrite Z.eqb_refl.
Qed.

Lemma list_pop_tail_spec h head x xs :
  dlist h head (x :: xs) →
  wp (list_pop_tail head)
    (λ r h', r = x ∧ dlist h' head xs ∧ detached h' x ∧ frame [x; head; after head xs] h h') h.
Proof.
  intros Hl. pose proof (dlist_ends _ _ _ Hl) as [Hn _]. unfold after in Hn; simpl in Hn.
  unfold list_pop_tail. wp_step. eapply wp_get_next; [done|].
  rewrite (proj2 (Z.eqb_neq x head)).
  - wp_step. eapply wp_mono; [by apply (list_del_spec h head [] x xs)|]. simpl. done.
  - intros ->. destruct Hl as [Hnd _ _]. apply NoDup_cons in Hnd. set_solver.
Qed.

Lemma list_add_spec h head xs new :
  dlist h head xs → new ∈ dom h → new ≠ NULL → new ∉ head :: xs →
  wp (list_add head new)
    (λ _ h', dlist h' head (new :: xs) ∧ frame [new; head; after head xs] h h') h.
Proof. intros. by apply (list_insert_after_spec h head [] xs new). Qed.

Lemma list_add_tail_spec h head xs new :
  dlist h head xs → new ∈ dom h → new ≠ NULL → new ∉ head :: xs →
  wp (list_add_tail head new)
    (λ _ h', dlist h' head (xs ++ [new]) ∧ frame [new; before head xs; head] h h') h.
Proof.
  intros. apply (list_insert_before_spec h head xs [] new); by rewrite ?app_nil_r.
Qed.

(** A circular list read from one of its elements. *)
Lemma dlist_rotate h head xs x ys :
  dlist h head (xs ++ x :: ys) → dlist h x (ys ++ head :: xs).
Proof.
  intros [Hnd Hnn Hc]. split.
  - eapply NoDup_Permutation_proper; [|exact Hnd]. solve_Permutation.
  - set_solver.
  - rewrite <-app_assoc, <-app_comm_cons in Hc |- *.
    change (chain h ((head :: xs) ++ x :: (ys ++ [head]))) in Hc. apply chain_app in Hc as [H1 H2].
    change (chain h ((x :: ys) ++ head :: (xs ++ [x]))). by apply chain_app.
Qed.

(** [list_foreach] visits exactly the elements, in order, and terminates. *)
Lemma foreach_from_spec h head xs ys fuel :
  dlist h head (xs ++ ys) → (length ys < fuel)%nat →
  foreach_from fuel head (after head ys) h = OK ys h.
Proof.
  revert xs fuel. induction ys as [|y ys IH]; intros xs fuel Hl Hf; (destruct fuel as [|fuel]; [simpl in Hf; lia|]); simpl.
  - by rewrite Z.eqb_refl.
  - rewrite (proj2 (Z.eqb_neq y head)).
    2:{ intros ->. destruct Hl as [Hnd _ _]. apply NoDup_cons in Hnd. set_solver. }
    rewrite cons_middle, app_assoc in Hl. pose proof Hl as (_ & _ & _ & [Hn _] & _)%dlist_ring.
    rewrite before_snoc in Hn. fold (nx h y) in Hn.
    destruct (h !! y) as [n|] eqn:E; [|unfold nx in Hn; rewrite E in Hn; done].
    unfold nx in Hn. rewrite E in Hn. injection Hn as Hn.
    unfold get_next, load, deref, mbind, M_bind, mret, M_ret. rewrite E. rewrite Hn.
    simpl in Hf. by rewrite (IH (xs ++ [y]) fuel) by (done || lia).
Qed.

Lemma dlist_length h head xs : dlist h head xs → (length xs < size h)%nat.
Proof.
  intros Hl. pose proof (dlist_nodup _ _ _ Hl) as Hnd.
  assert (list_to_set (head :: xs) ⊆ dom h) as Hs.
  { intros a Ha%elem_of_list_to_set. by eapply dlist_dom. }
  apply subseteq_size in Hs. rewrite size_list_to_set in Hs by done.
  rewrite size_dom in Hs. simpl in Hs. lia.
Qed.

Lemma list_foreach_spec h head xs : dlist h head xs → list_foreach head h = OK xs h.
Proof.
  intros Hl. pose proof (dlist_ends _ _ _ Hl) as [Hn _]. pose proof (dlist_length _ _ _ Hl).
  destruct (h !! head) as [n|] eqn:E; [|unfold nx in Hn; rewrite E in Hn; done].
  unfold nx in Hn. rewrite E in Hn. injection Hn as Hn.
  unfold list_foreach, gets, get_next, load, deref, mbind, M_bind, mret, M_ret. rewrite E, Hn.
  apply (foreach_from_spec h head [] xs); [done|lia].
Qed.
End specs.

(** ** Refinement: a list head implements a sequence

    The abstract list is a sequence without repetitions; [None] marks calls
    the C code does not support (linking a node that is already linked,
    unlinking one that is not). *)
Inductive lop := Add (x : Z) | AddTail (x : Z) | Del (x : Z) | Pop | PopTail.

Definition abs_step (o : lop) (xs : list Z) : option (Z * list Z) :=
  match o with
  | Add x => if decide (x ∈ xs) then None else Some (NULL, x :: xs)
  | AddTail x => if decide (x ∈ xs) then None else Some (NULL, xs ++ [x])
  | Del x => if decide (x ∈ xs) then Some (NULL, filter (x ≠.) xs) else None
  | Pop => match last xs with None => Some (NULL, xs) | Some x => Some (x, removelast xs) end
  | PopTail => match xs with [] => Some (NULL, []) | x :: xs => Some (x, xs) end
  end.

Definition con_step (head : Z) (o : lop) : M lheap Z :=
  match o with
  | Add x => list_add head x;; mret NULL
  | AddTail x => list_add_tail head x;; mret NULL
  | Del x => list_del x;; mret NULL
  | Pop => list_pop head
  | PopTail => list_pop_tail head
  end.

Fixpoint abs_run (os : list lop) (xs : list Z) : option (list Z * list Z) :=
  match os with
  | [] => Some ([], xs)
  | o :: os => '(r, xs) ← abs_step o xs; '(rs, xs) ← abs_run os xs; Some (r :: rs, xs)
  end.

Fixpoint con_run (head : Z) (os : list lop) : M lheap (list Z) :=
  match os with
  | [] => mret []
  | o :: os => r ← con_step head o; rs ← con_run head os; mret (r :: rs)
  end.

(** The nodes an operation may link: objects of the store, and not the head. *)
Definition lop_ok (h : lheap) (head : Z) (o : lop) : Prop :=
  match o with
  | Add x | AddTail x => x ∈ dom h ∧ x ≠ NULL ∧ x ≠ head
  | _ => True
  end.

Lemma filter_ne_middle (x : Z) xs ys : NoDup (xs ++ x :: ys) → filter (x ≠.) (xs ++ x :: ys) = xs ++ ys.
Proof.
  intros (_ & Hxy & [Hy _]%NoDup_cons)%NoDup_app.
  assert (∀ l : list Z, x ∉ l → filter (x ≠.) l = l) as Hl.
  { induction l as [|y l IH]; intros Hn; [done|].
    rewrite filter_cons_True by set_solver. f_equal. apply IH. set_solver. }
  rewrite filter_app, filter_cons_False by auto. rewrite !Hl; [done|done|].
  intros Hx. apply (Hxy x Hx). set_solver.
Qed.

Lemma con_step_spec h head xs o r xs' :
  dlist h head xs → lop_ok h head o → abs_step o xs = Some (r, xs') →
  wp (con_step head o) (λ r' h', r' = r ∧ dlist h' head xs' ∧ dom h' = dom h) h.
Proof.
  intros Hl Hok Hs. destruct o as [x|x|x| |]; simpl in *.
  - case_decide; simplify_eq. wp_step.
    eapply wp_mono; [apply list_add_spec; [done|tauto..|set_solver]|]. by intros _ h' [? [? _]].
  - case_decide; simplify_eq. wp_step.
    eapply wp_mono; [apply list_add_tail_spec; [done|tauto..|set_solver]|]. by intros _ h' [? [? _]].
  - case_decide as Hx; simplify_eq. apply list_elem_of_split in Hx as (l1 & l2 & ->). wp_step.
    eapply wp_mono; [by apply list_del_spec|]. intros _ h' (? & _ & [? _]).
    rewrite filter_ne_middle; [done|]. by destruct Hl as [[_ ?]%NoDup_cons _ _].
  - destruct xs as [|x xs _] using rev_ind.
    + simplify_eq/=. by eapply wp_OK; [apply list_pop_empty|].
    + rewrite last_snoc in Hs; simplify_eq. rewrite removelast_last.
      eapply wp_mono; [by apply list_pop_spec|]. by intros ? h' (-> & ? & _ & [? _]).
  - destruct xs as [|x xs]; simplify_eq.
    + by eapply wp_OK; [apply list_pop_tail_empty|].
    + eapply wp_mono; [by apply list_pop_tail_spec|]. by intros ? h' (-> & ? & _ & [? _]).
Qed.

(** C4 (refinement).  For every sequence of list operations the abstract list
    supports, the pointer code terminates without fault or panic, returns
    the same results, and the store represents the abstract list again. *)
Theorem list_refines_sequence h head xs os rs xs' :
  dlist h head xs → Forall (lop_ok h head) os → abs_run os xs = Some (rs, xs') →
  ∃ h', con_run head os h = OK rs h' ∧ dlist h' head xs'.
Proof.
  intros Hl Hok Hr.
  enough (wp (con_run head os) (λ rs' h', rs' = rs ∧ dlist h' head xs') h) as
    (? & h' & ? & -> & ?)%wp_elim by eauto.
  revert h xs rs Hl Hok Hr. induction os as [|o os IH]; intros h xs rs Hl Hok Hr; simplify_eq/=; [done|].
  apply Forall_cons in Hok as [Ho Hos].
  destruct (abs_step o xs) as [[r ys]|] eqn:Es; simplify_eq/=.
  destruct (abs_run os ys) as [[rs2 ys2]|] eqn:Er; simplify_eq/=.
  wp_step. eapply wp_mono; [by eapply con_step_spec|]. intros r' h1 (-> & Hl1 & Hd). wp_step.
  eapply wp_mono; [eapply IH; [done| |done]|].
  - eapply Forall_impl; [exact Hos|]. intros [| | | |]; simpl; by rewrite ?Hd.
  - intros ? h2 [-> ?]. by wp_step.
Qed.

(** Three detached nodes and a head at concrete addresses. *)
Definition demo_heap : lheap :=
  {[ 16 := Node 16 16; 32 := Node 32 32; 48 := Node 48 48; 64 := Node 64 64 ]}.

Lemma list_refines_sequence_witness :
  dlist demo_heap 16 [] ∧
  ∃ h', con_run 16 [Add 32; AddTail 48; Add 64; Del 32; Pop; PopTail; Pop] demo_heap
        = OK [0; 0; 0; 0; 48; 64; 0] h' ∧ dlist h' 16 [].
Proof.
  assert (dlist demo_heap 16 []) as Hl.
  { split; [apply NoDup_singleton|set_solver|]. vm_compute. done. }
  split; [exact Hl|].
  apply (list_refines_sequence demo_heap 16 [] _ _ []); [exact Hl| |vm_compute; done].
  repeat constructor; try (apply elem_of_dom; vm_compute; eexists; done); done.
Defined.
