(* ===== verification/Paging.v ===== *)
(** * Paging constants and page-table entries

    The constants and index macros of include/x86-64/paging.h and
    include/x86-64/memory.h, the permission bits of include/vma.h and the
    three flag conversions of kernel/mem/map.c, with the arithmetic the page
    walk and the page-table operations rest on. *)

From S2P Require Import Prelude.

Local Open Scope Z_scope.

(** ** Constants *)

Definition PAGE_SIZE : Z := 4096.

Definition PAGE_PRESENT : Z := 1.
Definition PAGE_WRITE : Z := 2.
Definition PAGE_USER : Z := 4.
Definition PAGE_WRITE_THROUGH : Z := 8.
Definition PAGE_NO_CACHE : Z := 16.
Definition PAGE_ACCESSED : Z := 32.
Definition PAGE_DIRTY : Z := 64.
Definition PAGE_HUGE : Z := 128.
Definition PAGE_GLOBAL : Z := 256.
Definition PAGE_NO_EXEC : Z := 0x8000000000000000.

Definition PAGE_TABLE_SHIFT : Z := 12.
Definition PAGE_DIR_SHIFT : Z := 21.
Definition PDPT_SHIFT : Z := 30.
Definition PML4_SHIFT : Z := 39.

Definition PAGE_TABLE_SPAN : Z := Z.shiftl 1 PAGE_DIR_SHIFT.
Definition PAGE_DIR_SPAN : Z := Z.shiftl 1 PDPT_SHIFT.
Definition PDPT_SPAN : Z := Z.shiftl 1 PML4_SHIFT.

Definition PAGE_INDEX (x : Z) : Z := Z.shiftr x PAGE_TABLE_SHIFT.
Definition PAGE_TABLE_INDEX (x : Z) : Z := Z.land (Z.shiftr x PAGE_TABLE_SHIFT) 511.
Definition PAGE_DIR_INDEX (x : Z) : Z := Z.land (Z.shiftr x PAGE_DIR_SHIFT) 511.
Definition PDPT_INDEX (x : Z) : Z := Z.land (Z.shiftr x PDPT_SHIFT) 511.
Definition PML4_INDEX (x : Z) : Z := Z.land (Z.shiftr x PML4_SHIFT) 511.

Definition PAGE_MASK : Z := 0xFFFF000000000FFF.
(** [~PAGE_MASK] at 64 bits. *)
Definition PAGE_ADDR (x : Z) : Z := Z.land x (Z.lxor PAGE_MASK (2 ^ 64 - 1)).

Definition page_aligned (p : Z) : bool := Z.land p (PAGE_SIZE - 1) =? 0.

Definition KERNEL_VMA : Z := 0xFFFF800000000000.
Definition KERNEL_LMA : Z := 0x100000.
Definition KERNEL_LIM : Z := 0xffffffffffffffff.
Definition KPAGES : Z := 0xFFFFFF8000000000.
Definition MMIO_LIM : Z := KPAGES.
Definition MMIO_BASE : Z := MMIO_LIM - PDPT_SPAN.
Definition PIDMAP_LIM : Z := MMIO_BASE.
Definition PIDMAP_BASE : Z := PIDMAP_LIM - PDPT_SPAN.
Definition KSTACK_TOP : Z := PIDMAP_BASE.
Definition KSTACK_SIZE : Z := 31 * PAGE_SIZE.
Definition KSTACK_GAP : Z := PAGE_SIZE.
Definition USER_LIM : Z := 0x800000000000.
Definition USTACK_TOP : Z := USER_LIM - 2 * PAGE_SIZE.
Definition BOOT_MAP_LIM : Z := 8 * 1024 * 1024.

Definition VM_READ : Z := 1.
Definition VM_WRITE : Z := 2.
Definition VM_EXEC : Z := 4.
Definition VM_DIRTY : Z := 16.

Definition ELF_PROG_FLAG_EXEC : Z := 1.
Definition ELF_PROG_FLAG_WRITE : Z := 2.

(** ** Permission conversions (kernel/mem/map.c) *)

Definition convert_flags_from_pages_to_vma (page_flags : Z) : Z :=
  let v := 0 in
  let v := if has page_flags PAGE_PRESENT then Z.lor v VM_READ else v in
  let v := if has page_flags PAGE_WRITE then Z.lor v VM_WRITE else v in
  if negb (has page_flags PAGE_NO_EXEC) then Z.lor v VM_EXEC else v.

Definition convert_flags_from_vma_to_pages (vma_flags : Z) : Z :=
  let p := 0 in
  let p := if has vma_flags VM_READ then Z.lor p PAGE_PRESENT else p in
  let p := if has vma_flags VM_WRITE then Z.lor p PAGE_WRITE else p in
  if negb (has vma_flags VM_EXEC) then Z.lor p PAGE_NO_EXEC else p.

Definition convert_flags_from_elf_to_pages (p_flags : Z) : Z :=
  let p := PAGE_PRESENT in
  let p := if has p_flags ELF_PROG_FLAG_WRITE then Z.lor p PAGE_WRITE else p in
  if negb (has p_flags ELF_PROG_FLAG_EXEC) then Z.lor p PAGE_NO_EXEC else p.

(** ** Bits *)

Lemma has_lor x y f : has (Z.lor x y) f = has x f || has y f.
Proof.
  unfold has. rewrite Z.land_lor_distr_l.
  destruct (Z.land x f =? 0) eqn:E1, (Z.land y f =? 0) eqn:E2; simpl;
    rewrite ?negb_true_iff, ?negb_false_iff, ?Z.eqb_eq, ?Z.eqb_neq, Z.lor_eq_0_iff in *; tauto.
Qed.

Lemma has_land x m f : Z.land m f = f → has (Z.land x m) f = has x f.
Proof. unfold has. rewrite <-Z.land_assoc. by intros ->. Qed.

Lemma land_ones_mod x n : 0 ≤ n → Z.land x (2 ^ n - 1) = x `mod` 2 ^ n.
Proof. intros. rewrite <-Z.land_ones by done. by rewrite Z.ones_equiv, Z.sub_1_r. Qed.

Lemma land_511 x : Z.land x 511 = x `mod` 512.
Proof. apply (land_ones_mod x 9). lia. Qed.

(** The index macros as arithmetic. *)
Lemma PAGE_INDEX_div x : PAGE_INDEX x = x `div` 4096.
Proof. apply (Z.shiftr_div_pow2 x 12). lia. Qed.
Lemma PAGE_TABLE_INDEX_mod x : PAGE_TABLE_INDEX x = (x `div` 4096) `mod` 512.
Proof. unfold PAGE_TABLE_INDEX, PAGE_TABLE_SHIFT. by rewrite land_511, (Z.shiftr_div_pow2 x 12). Qed.
Lemma PAGE_DIR_INDEX_mod x : PAGE_DIR_INDEX x = (x `div` 2097152) `mod` 512.
Proof. unfold PAGE_DIR_INDEX, PAGE_DIR_SHIFT. by rewrite land_511, (Z.shiftr_div_pow2 x 21). Qed.
Lemma PDPT_INDEX_mod x : PDPT_INDEX x = (x `div` 1073741824) `mod` 512.
Proof. unfold PDPT_INDEX, PDPT_SHIFT. by rewrite land_511, (Z.shiftr_div_pow2 x 30). Qed.
Lemma PML4_INDEX_mod x : PML4_INDEX x = (x `div` 549755813888) `mod` 512.
Proof. unfold PML4_INDEX, PML4_SHIFT. by rewrite land_511, (Z.shiftr_div_pow2 x 39). Qed.

(** [PAGE_ADDR] clears the flag bits of an entry and keeps a frame address. *)
Lemma PAGE_ADDR_frame pfn : 0 ≤ pfn < 2 ^ 36 → PAGE_ADDR (pfn * 4096) = pfn * 4096.
Proof.
  intros. unfold PAGE_ADDR.
  change (Z.lxor PAGE_MASK (2 ^ 64 - 1)) with (Z.shiftl (2 ^ 36 - 1) 12).
  replace (pfn * 4096) with (Z.shiftl pfn 12) by (rewrite Z.shiftl_mul_pow2; lia).
  rewrite <-Z.shiftl_land, land_ones_mod, Z.mod_small by lia. done.
Qed.

Lemma PAGE_ADDR_lor x y : PAGE_ADDR (Z.lor x y) = Z.lor (PAGE_ADDR x) (PAGE_ADDR y).
Proof. apply Z.land_lor_distr_l. Qed.

(** An entry built from a frame and flags gives both back. *)
Lemma PAGE_ADDR_entry pfn flags :
  0 ≤ pfn < 2 ^ 36 → PAGE_ADDR flags = 0 → PAGE_ADDR (Z.lor (pfn * 4096) flags) = pfn * 4096.
Proof. intros ? Hf. by rewrite PAGE_ADDR_lor, PAGE_ADDR_frame, Hf, Z.lor_0_r. Qed.

Lemma frame_no_flag pfn f : 0 ≤ pfn → 0 ≤ f < 4096 → has (pfn * 4096) f = false.
Proof.
  intros Hp Hf. unfold has. apply negb_false_iff, Z.eqb_eq, Z.bits_inj'. intros n Hn.
  rewrite Z.land_spec, Z.bits_0. apply andb_false_iff.
  destruct (decide (n < 12)).
  - left. replace (pfn * 4096) with (Z.shiftl pfn 12) by (rewrite Z.shiftl_mul_pow2; lia).
    by apply Z.shiftl_spec_low.
  - right. destruct (decide (f = 0)) as [->|]; [by rewrite Z.bits_0|].
    apply Z.bits_above_log2; [lia|]. apply Z.log2_lt_pow2; [lia|].
    assert (2 ^ 12 ≤ 2 ^ n) by (apply Z.pow_le_mono_r; lia). lia.
Qed.

Lemma has_true_nonzero x f : has x f = true → x ≠ 0.
Proof. by intros ? ->. Qed.

(** The permission bits of a VMA survive the conversion to
    page-table flags and back; the page flags grant writing exactly when the
    VMA does and forbid execution exactly when the VMA does. *)
Theorem vma_flags_roundtrip flags :
  convert_flags_from_pages_to_vma (convert_flags_from_vma_to_pages flags) = Z.land flags 7 ∧
  has (convert_flags_from_vma_to_pages flags) PAGE_WRITE = has flags VM_WRITE ∧
  has (convert_flags_from_vma_to_pages flags) PAGE_NO_EXEC = negb (has flags VM_EXEC).
Proof.
  assert (∀ f, Z.land 7 f = f → has flags f = has (Z.land flags 7) f) as Hl
    by (intros; by rewrite has_land).
  unfold convert_flags_from_vma_to_pages.
  rewrite (Hl VM_READ), (Hl VM_WRITE), (Hl VM_EXEC) by done.
  change 7 with (2 ^ 3 - 1). rewrite (land_ones_mod flags 3) by lia. change (2 ^ 3) with 8.
  assert (0 ≤ flags `mod` 8 < 8) as Hb by (apply Z.mod_pos_bound; lia).
  revert Hb. generalize (flags `mod` 8). intros m Hm.
  assert (m = 0 ∨ m = 1 ∨ m = 2 ∨ m = 3 ∨ m = 4 ∨ m = 5 ∨ m = 6 ∨ m = 7) as Hc by lia.
  by repeat destruct Hc as [->|Hc]; subst.
Qed.
