(* ===== verification/CString.v ===== *)
(** * Strings and memory blocks (lib/string.c)

    Memory is a store of bytes; reading or writing an address that is not in
    the store faults.  [char] is signed on x86-64: [schar] is the value a
    [char] has once promoted to [int].  The string instructions of the inline
    assembly ([rep stos], [rep movs]) are modelled with their operand width
    and the direction flag. *)

From S2P Require Import Prelude.

Local Open Scope Z_scope.

(** ** Memory *)

(** Bytes by address, each between 0 and 255. *)
Abbreviation cmem := (gmap Z Z).

Definition load (a : Z) : M cmem Z := deref (λ m, m !! a).
Definition store (a v : Z) : M cmem unit := _ ← load a; modify (λ m, <[a := u8 v]> m).

(** The value of a [char]. *)
Definition schar (b : Z) : Z := if b <? 128 then b else b - 256.

(** Consecutive bytes. *)
Fixpoint load_n (w : nat) (a : Z) : M cmem (list Z) :=
  match w with
  | O => mret []
  | S w => b ← load a; bs ← load_n w (a + 1); mret (b :: bs)
  end.
Fixpoint store_n (a : Z) (bs : list Z) : M cmem unit :=
  match bs with
  | [] => mret tt
  | b :: bs => store a b;; store_n (a + 1) bs
  end.

(** The string loops advance through memory by one byte per round, so no loop
    makes more rounds than there are bytes. *)
Definition rounds : M cmem nat := gets (λ m, S (base.size m)).

(** ** Strings *)

Fixpoint strlen_loop (fuel : nat) (s n : Z) : M cmem Z :=
  match fuel with
  | O => halt NoFuel
  | S fuel =>
      c ← load s;
      if c =? 0 then mret n else strlen_loop fuel (s + 1) (s32 (n + 1))
  end.
Definition strlen (s : Z) : M cmem Z := fuel ← rounds; strlen_loop fuel s 0.

Fixpoint strnlen_loop (fuel : nat) (s size n : Z) : M cmem Z :=
  match fuel with
  | O => halt NoFuel
  | S fuel =>
      if 0 <? size then
        c ← load s;
        if c =? 0 then mret n else strnlen_loop fuel (s + 1) (size - 1) (s32 (n + 1))
      else mret n
  end.
Definition strnlen (s size : Z) : M cmem Z := fuel ← rounds; strnlen_loop fuel s size 0.

Fixpoint strcpy_loop (fuel : nat) (dst src : Z) : M cmem unit :=
  match fuel with
  | O => halt NoFuel
  | S fuel =>
      c ← load src;
      store dst c;;
      if c =? 0 then mret tt else strcpy_loop fuel (dst + 1) (src + 1)
  end.
Definition strcpy (dst src : Z) : M cmem Z := fuel ← rounds; strcpy_loop fuel dst src;; mret dst.

Definition strcat (dst src : Z) : M cmem Z :=
  len ← strlen dst; strcpy (dst + len) src;; mret dst.

(** [k] of the [size] rounds are left. *)
Fixpoint strncpy_loop (fuel : nat) (k dst src : Z) : M cmem unit :=
  match fuel with
  | O => halt NoFuel
  | S fuel =>
      if 0 <? k then
        c ← load src;
        store dst c;;
        c ← load src;
        strncpy_loop fuel (k - 1) (dst + 1) (if c =? 0 then src else src + 1)
      else mret tt
  end.
Definition strncpy (dst src size : Z) : M cmem Z :=
  fuel ← rounds; strncpy_loop fuel size dst src;; mret dst.

(** The [while] loop of [strlcpy]; the result is [dst] after it. *)
Fixpoint strlcpy_loop (fuel : nat) (size dst src : Z) : M cmem Z :=
  match fuel with
  | O => halt NoFuel
  | S fuel =>
      let size := u64 (size - 1) in
      if 0 <? size then
        c ← load src;
        if c =? 0 then mret dst else store dst c;; strlcpy_loop fuel size (dst + 1) (src + 1)
      else mret dst
  end.
Definition strlcpy (dst src size : Z) : M cmem Z :=
  if 0 <? size then
    fuel ← rounds;
    d ← strlcpy_loop fuel size dst src;
    store d 0;;
    mret (d - dst)
  else mret 0.

Fixpoint strcmp_loop (fuel : nat) (p q : Z) : M cmem Z :=
  match fuel with
  | O => halt NoFuel
  | S fuel =>
      a ← load p;
      if a =? 0 then b ← load q; mret (a - b)
      else
        b ← load q;
        if a =? b then strcmp_loop fuel (p + 1) (q + 1) else mret (a - b)
  end.
Definition strcmp (p q : Z) : M cmem Z := fuel ← rounds; strcmp_loop fuel p q.

Fixpoint strncmp_loop (fuel : nat) (p q n : Z) : M cmem Z :=
  match fuel with
  | O => halt NoFuel
  | S fuel =>
      if 0 <? n then
        a ← load p;
        if a =? 0 then b ← load q; mret (a - b)
        else
          b ← load q;
          if a =? b then strncmp_loop fuel (p + 1) (q + 1) (n - 1) else mret (a - b)
      else mret 0
  end.
Definition strncmp (p q n : Z) : M cmem Z := fuel ← rounds; strncmp_loop fuel p q n.

(** [c] is the value of a [char] argument. *)
Fixpoint strchr_loop (fuel : nat) (s c : Z) : M cmem Z :=
  match fuel with
  | O => halt NoFuel
  | S fuel =>
      b ← load s;
      if b =? 0 then mret 0
      else if schar b =? c then mret s else strchr_loop fuel (s + 1) c
  end.
Definition strchr (s c : Z) : M cmem Z := fuel ← rounds; strchr_loop fuel s c.

Fixpoint strfind_loop (fuel : nat) (s c : Z) : M cmem Z :=
  match fuel with
  | O => halt NoFuel
  | S fuel =>
      b ← load s;
      if b =? 0 then mret s
      else if schar b =? c then mret s else strfind_loop fuel (s + 1) c
  end.
Definition strfind (s c : Z) : M cmem Z := fuel ← rounds; strfind_loop fuel s c.

(** ** Blocks *)

(** The [w] low bytes of [v], the order they have in memory. *)
Fixpoint le_bytes (w : nat) (v : Z) : list Z :=
  match w with
  | O => []
  | S w => u8 v :: le_bytes w (Z.shiftr v 8)
  end.

(** [rep stos] with the direction flag clear: [n] operands of [w] bytes. *)
Fixpoint rep_stos (w n : nat) (edi eax : Z) : M cmem unit :=
  match n with
  | O => mret tt
  | S n => store_n edi (le_bytes w eax);; rep_stos w n (edi + Z.of_nat w) eax
  end.

(** [rep movs]: [std] tells whether the direction flag is set. *)
Fixpoint rep_movs (std : bool) (w n : nat) (edi esi : Z) : M cmem unit :=
  match n with
  | O => mret tt
  | S n =>
      bs ← load_n w esi;
      store_n edi bs;;
      let step := if std then - Z.of_nat w else Z.of_nat w in
      rep_movs std w n (edi + step) (esi + step)
  end.

Definition memset (v c n : Z) : M cmem Z :=
  if n =? 0 then mret v
  else
    (if (v `mod` 4 =? 0) && (n `mod` 4 =? 0) then
       let c := Z.land c 0xFF in
       let c := Z.lor (Z.lor (Z.lor (Z.shiftl c 24) (Z.shiftl c 16)) (Z.shiftl c 8)) c in
       rep_stos 4 (Z.to_nat (n / 4)) v c
     else rep_stos 1 (Z.to_nat n) v c);;
    mret v.

Definition memmove (dst src n : Z) : M cmem Z :=
  (if (src <? dst) && (dst <? src + n) then
     let s := src + n in
     let d := dst + n in
     if (s `mod` 4 =? 0) && (d `mod` 4 =? 0) && (n `mod` 4 =? 0)
     then rep_movs true 4 (Z.to_nat (n / 4)) (d - 4) (s - 4)
     else rep_movs true 1 (Z.to_nat n) (d - 1) (s - 1)
   else
     if (src `mod` 4 =? 0) && (dst `mod` 4 =? 0) && (n `mod` 4 =? 0)
     then rep_movs false 4 (Z.to_nat (n / 4)) dst src
     else rep_movs false 1 (Z.to_nat n) dst src);;
  mret dst.

Definition memcpy (dst src n : Z) : M cmem Z := memmove dst src n.

Fixpoint memcmp_loop (fuel : nat) (s1 s2 n : Z) : M cmem Z :=
  match fuel with
  | O => halt NoFuel
  | S fuel =>
      if 0 <? n then
        a ← load s1;
        b ← load s2;
        if negb (a =? b) then mret (a - b) else memcmp_loop fuel (s1 + 1) (s2 + 1) (n - 1)
      else mret 0
  end.
Definition memcmp (v1 v2 n : Z) : M cmem Z := fuel ← rounds; memcmp_loop fuel v1 v2 n.

Fixpoint memfind_loop (fuel : nat) (s ends c : Z) : M cmem Z :=
  match fuel with
  | O => halt NoFuel
  | S fuel =>
      if s <? ends then
        b ← load s;
        if b =? u8 c then mret s else memfind_loop fuel (s + 1) ends c
      else mret s
  end.
Definition memfind (s c n : Z) : M cmem Z := fuel ← rounds; memfind_loop fuel s (s + n) c.

(** ** Numbers *)

Definition char_0 : Z := 48.
Definition char_9 : Z := 57.
Definition char_a : Z := 97.
Definition char_z : Z := 122.
Definition char_A : Z := 65.
Definition char_Z : Z := 90.

(** The loop over initial whitespace. *)
Fixpoint skip_blanks (fuel : nat) (s : Z) : M cmem Z :=
  match fuel with
  | O => halt NoFuel
  | S fuel =>
      c ← load s;
      if (c =? 32) || (c =? 9) then skip_blanks fuel (s + 1) else mret s
  end.

(** The value of a digit of [strtol], if the character is one. *)
Definition digit_of (c : Z) : option Z :=
  if (char_0 <=? c) && (c <=? char_9) then Some (c - char_0)
  else if (char_a <=? c) && (c <=? char_z) then Some (c - char_a + 10)
  else if (char_A <=? c) && (c <=? char_Z) then Some (c - char_A + 10)
  else None.

(** The [while (1)] loop; the result is the end pointer and the value. *)
Fixpoint strtol_digits (fuel : nat) (s base val : Z) : M cmem (Z * Z) :=
  match fuel with
  | O => halt NoFuel
  | S fuel =>
      c ← load s;
      match digit_of (schar c) with
      | None => mret (s, val)
      | Some dig =>
          if base <=? dig then mret (s, val)
          else strtol_digits fuel (s + 1) base (s64 (val * base + dig))
      end
  end.

(** The value and [*endptr]. *)
Definition strtol (s base : Z) : M cmem (Z * Z) :=
  fuel ← rounds;
  s ← skip_blanks fuel s;
  c ← load s;
  '(s, neg) ← (if c =? 43 then mret (s + 1, false) else if c =? 45 then mret (s + 1, true) else mret (s, false));
  c0 ← load s;
  hex ← (if ((base =? 0) || (base =? 16)) && (c0 =? char_0) then c1 ← load (s + 1); mret (c1 =? 120) else mret false);
  let '(s, base) :=
    if (hex : bool) then (s + 2, 16)
    else if (base =? 0) && (c0 =? char_0) then (s + 1, 8)
    else if base =? 0 then (s, 10) else (s, base) in
  '(s, val) ← strtol_digits fuel s base 0;
  mret (if (neg : bool) then s64 (- val) else val, s).

(** ** Memory blocks: proofs *)

Definition bytes_ok (m : cmem) : Prop := ∀ a b, m !! a = Some b → 0 ≤ b < 256.

(** The [n] bytes from [a] on exist. *)
Definition block (m : cmem) (a n : Z) : Prop := ∀ x, a ≤ x < a + n → is_Some (m !! x).

(** The memory [m] with [f] in place of the [n] bytes from [a] on. *)
Definition overwritten (m : cmem) (a n : Z) (f : Z → option Z) (m' : cmem) : Prop :=
  ∀ x, m' !! x = if decide (a ≤ x < a + n) then f x else m !! x.

Lemma wp_load a b m (Q : Z → cmem → Prop) : m !! a = Some b → Q b m → wp (load a) Q m.
Proof. intros. by eapply wp_deref. Qed.

Lemma wp_store a v m (Q : unit → cmem → Prop) : is_Some (m !! a) → Q tt (<[a := u8 v]> m) → wp (store a v) Q m.
Proof. intros [b Hb] HQ. unfold store. wp_step. eapply wp_load; [exact Hb|]. by wp_step. Qed.

Lemma load_n_spec w a m : block m a (Z.of_nat w) →
  wp (load_n w a) (λ bs m', m' = m ∧ length bs = w ∧ ∀ x, a ≤ x < a + Z.of_nat w → bs !! Z.to_nat (x - a) = m !! x) m.
Proof.
  revert a. induction w as [|w IH]; intros a Hb; simpl.
  { wp_step. split; [done|]. split; [done|]. intros. lia. }
  destruct (Hb a ltac:(lia)) as [b Hab]. wp_step. eapply wp_load; [exact Hab|]. wp_step.
  eapply wp_mono; [apply IH; intros x Hx; apply Hb; lia|]. intros bs m' (-> & Hl & Hbs). wp_step.
  split; [done|]. split; [simpl; lia|]. intros x Hx. destruct (decide (x = a)) as [->|Hne].
  - by rewrite Z.sub_diag, Hab.
  - replace (Z.to_nat (x - a)) with (S (Z.to_nat (x - (a + 1)))) by lia. simpl. apply Hbs. lia.
Qed.

Lemma store_n_spec bs a m : block m a (Z.of_nat (length bs)) → wp (store_n a bs)
  (λ _ m', overwritten m a (Z.of_nat (length bs)) (λ x, u8 <$> bs !! Z.to_nat (x - a)) m') m.
Proof.
  revert a m. induction bs as [|b bs IH]; intros a m Hb; simpl.
  { wp_step. intros x. by rewrite decide_False by (simpl; lia). }
  simpl length in Hb. wp_step. apply wp_store; [apply Hb; lia|].
  eapply wp_mono; [apply IH|].
  { intros x Hx. rewrite lookup_insert_ne by lia. apply Hb. lia. }
  intros [] m' Hm' x. rewrite Hm'. simpl length. repeat case_decide; try lia.
  - replace (Z.to_nat (x - a)) with (S (Z.to_nat (x - (a + 1)))) by lia. done.
  - assert (x = a) by lia. subst x. by rewrite Z.sub_diag, lookup_insert_eq.
  - by rewrite lookup_insert_ne by lia.
Qed.

Lemma overwritten_block m a n f m' b k : overwritten m a n f m' → (∀ x, a ≤ x < a + n → is_Some (f x)) →
  block m b k → block m' b k.
Proof. intros Hm Hf Hb x Hx. rewrite Hm. case_decide; [by apply Hf|by apply Hb]. Qed.

(** Copying [w] bytes at once. *)
Lemma wp_movs {A} w d s (c : M cmem A) Q m : bytes_ok m → block m d (Z.of_nat w) → block m s (Z.of_nat w) →
  (∀ m1, overwritten m d (Z.of_nat w) (λ x, m !! (s + (x - d))) m1 → bytes_ok m1 →
    (∀ b k, block m b k → block m1 b k) → wp c Q m1) →
  wp (bs ← load_n w s; store_n d bs;; c) Q m.
Proof.
  intros Hok Hd Hs HQ. wp_step. eapply wp_mono; [by apply load_n_spec|]. intros bs m' (-> & Hl & Hbs). wp_step.
  eapply wp_mono; [apply store_n_spec; by rewrite Hl|]. intros [] m1 Hm1.
  assert (overwritten m d (Z.of_nat w) (λ x, m !! (s + (x - d))) m1) as Hm.
  { intros x. rewrite Hm1, Hl. case_decide; [|done].
    replace (x - d) with (s + (x - d) - s) at 1 by lia. rewrite Hbs by lia.
    destruct (m !! (s + (x - d))) as [b|] eqn:Hb; [|done]. simpl. f_equal. apply Z.mod_small. by apply (Hok _ _ Hb). }
  apply HQ; [done| |].
  - intros a b. rewrite Hm. case_decide; apply Hok.
  - intros b k. apply (overwritten_block _ _ _ _ _ _ _ Hm). intros x Hx. apply Hs. lia.
Qed.

(** Forward copies are right when no byte is overwritten before it is read,
    that is, when the destination is not inside the source. *)
Lemma rep_movs_forward w n d s m : bytes_ok m → let N := Z.of_nat n * Z.of_nat w in
  block m d N → block m s N → d ≤ s ∨ s + N ≤ d →
  wp (rep_movs false w n d s) (λ _ m', overwritten m d N (λ x, m !! (s + (x - d))) m') m.
Proof.
  revert d s m. induction n as [|n IH]; intros d s m Hok N Hd Hs Ho; unfold N in *; simpl rep_movs.
  { wp_step. intros x. by rewrite decide_False by lia. }
  rewrite Nat2Z.inj_succ, Z.mul_succ_l in *. set (W := Z.of_nat w) in *. assert (0 ≤ Z.of_nat n * W) as HN by lia.
  apply wp_movs; [done|intros x Hx; apply Hd; lia|intros x Hx; apply Hs; lia|]. fold W. intros m1 Hm1 Hok1 Hbl.
  eapply wp_mono; [apply IH; [done|apply Hbl; intros x Hx; apply Hd; lia|apply Hbl; intros x Hx; apply Hs; lia|lia]|].
  intros [] m' Hm' x. rewrite Hm', !Hm1. repeat case_decide; try lia; f_equal; lia.
Qed.

(** Backward copies are right when the source is not above the destination. *)
Lemma rep_movs_backward w n d s m : bytes_ok m → let N := Z.of_nat n * Z.of_nat w in
  block m d N → block m s N → s ≤ d →
  wp (rep_movs true w n (d + N - Z.of_nat w) (s + N - Z.of_nat w))
    (λ _ m', overwritten m d N (λ x, m !! (s + (x - d))) m') m.
Proof.
  revert m. induction n as [|n IH]; intros m Hok N Hd Hs Ho; unfold N in *; simpl rep_movs.
  { wp_step. intros x. by rewrite decide_False by lia. }
  rewrite Nat2Z.inj_succ, Z.mul_succ_l in *. set (W := Z.of_nat w) in *. assert (0 ≤ Z.of_nat n * W) as HN by lia.
  apply wp_movs; [done|intros x Hx; apply Hd; lia|intros x Hx; apply Hs; lia|]. fold W. intros m1 Hm1 Hok1 Hbl.
  replace (d + (Z.of_nat n * W + W) - W + - W) with (d + Z.of_nat n * W - W) by lia.
  replace (s + (Z.of_nat n * W + W) - W + - W) with (s + Z.of_nat n * W - W) by lia.
  eapply wp_mono; [apply IH; [done|apply Hbl; intros x Hx; apply Hd; lia|apply Hbl; intros x Hx; apply Hs; lia|lia]|].
  intros [] m' Hm' x. rewrite Hm', !Hm1. repeat case_decide; try lia; f_equal; lia.
Qed.

(** C22 (functional).  [memmove] returns [dst] and makes its [n] bytes what the
    [n] bytes at [src] were before the call, however the two blocks overlap and
    are aligned; no other byte changes.  ([memcpy] is the same function.) *)
Theorem memmove_correct m dst src n : bytes_ok m → 0 ≤ n → block m dst n → block m src n →
  ∃ m', memmove dst src n m = OK dst m' ∧ ∀ x, m' !! x = if decide (dst ≤ x < dst + n) then m !! (src + (x - dst)) else m !! x.
Proof.
  intros Hok Hn Hd Hs.
  assert (wp (memmove dst src n) (λ r m', r = dst ∧ overwritten m dst n (λ x, m !! (src + (x - dst))) m') m) as Hw;
    [|destruct (wp_elim _ _ _ Hw) as (r & m' & E & -> & Hm'); by exists m'].
  assert (n `mod` 4 = 0 → n = Z.of_nat (Z.to_nat (n / 4)) * Z.of_nat 4) as H4 by (intros; rewrite Z2Nat.id; mlia).
  assert (n = Z.of_nat (Z.to_nat n) * Z.of_nat 1) as H1 by lia.
  unfold memmove. wp_step. destruct ((src <? dst) && (dst <? src + n)) eqn:Eo; cbv zeta.
  - apply andb_true_iff in Eo as [E1%Z.ltb_lt E2%Z.ltb_lt].
    wp_if Ea.
    + apply andb_true_iff in Ea as [_ E4%Z.eqb_eq]. apply H4 in E4.
      pose proof (rep_movs_backward 4 (Z.to_nat (n / 4)) dst src m Hok) as Hb. cbv zeta in Hb. rewrite <-E4 in Hb.
      eapply wp_mono; [apply Hb; [done|done|lia]|]. intros [] m' Hm'. by wp_step.
    + pose proof (rep_movs_backward 1 (Z.to_nat n) dst src m Hok) as Hb. cbv zeta in Hb. rewrite <-H1 in Hb.
      eapply wp_mono; [apply Hb; [done|done|lia]|]. intros [] m' Hm'. by wp_step.
  - assert (dst ≤ src ∨ src + n ≤ dst) as Ho.
    { apply andb_false_iff in Eo as [?%Z.ltb_ge|?%Z.ltb_ge]; lia. }
    wp_if Ea.
    + apply andb_true_iff in Ea as [_ E4%Z.eqb_eq]. apply H4 in E4.
      pose proof (rep_movs_forward 4 (Z.to_nat (n / 4)) dst src m Hok) as Hb. cbv zeta in Hb. rewrite <-E4 in Hb.
      eapply wp_mono; [by apply Hb|]. intros [] m' Hm'. by wp_step.
    + pose proof (rep_movs_forward 1 (Z.to_nat n) dst src m Hok) as Hb. cbv zeta in Hb. rewrite <-H1 in Hb.
      eapply wp_mono; [by apply Hb|]. intros [] m' Hm'. by wp_step.
Qed.

Lemma memmove_correct_witness : ∃ m', memmove 2 0 4 (list_to_map (zip (seqZ 0 8) [10; 11; 12; 13; 14; 15; 16; 17])) = OK 2 m' ∧
  m' !! 2 = Some 10 ∧ m' !! 4 = Some 12 ∧ m' !! 5 = Some 13 ∧ m' !! 6 = Some 16.
Proof.
  set (m := list_to_map (zip (seqZ 0 8) [10; 11; 12; 13; 14; 15; 16; 17]) : cmem).
  assert (∀ x, 0 ≤ x < 8 → m !! x = Some (10 + x)) as Hm.
  { intros x Hx. assert (x = 0 ∨ x = 1 ∨ x = 2 ∨ x = 3 ∨ x = 4 ∨ x = 5 ∨ x = 6 ∨ x = 7) as Hc by lia.
    destruct Hc as [->|[->|[->|[->|[->|[->|[->| ->]]]]]]]; reflexivity. }
  destruct (memmove_correct m 2 0 4) as (m' & E & Hm').
  - intros a b Hab. apply elem_of_list_to_map_2 in Hab. apply elem_of_zip_r in Hab.
    rewrite !elem_of_cons, elem_of_nil in Hab. lia.
  - lia.
  - intros x Hx. rewrite Hm by lia. eauto.
  - intros x Hx. rewrite Hm by lia. eauto.
  - exists m'. split; [exact E|]. rewrite !Hm'. split_and!; reflexivity.
Defined.

(** [rep stos]: [n] operands whose [w] bytes are all [b]. *)
Lemma rep_stos_spec w n d v b m : le_bytes w v = replicate w b → 0 ≤ b < 256 →
  block m d (Z.of_nat n * Z.of_nat w) →
  wp (rep_stos w n d v) (λ _ m', overwritten m d (Z.of_nat n * Z.of_nat w) (λ _, Some b) m') m.
Proof.
  intros Hv Hb. revert d m. induction n as [|n IH]; intros d m Hd; simpl rep_stos.
  { wp_step. intros x. by rewrite decide_False by lia. }
  rewrite Nat2Z.inj_succ, Z.mul_succ_l in *. set (W := Z.of_nat w) in *. assert (0 ≤ Z.of_nat n * W) as HN by lia.
  assert (length (replicate w b) = w) as Hl by apply length_replicate. wp_step. rewrite Hv.
  eapply wp_mono; [apply store_n_spec; rewrite Hl; intros x Hx; apply Hd; lia|]. intros [] m1 Hm1. rewrite Hl in Hm1.
  assert (overwritten m d W (λ _, Some b) m1) as Hm.
  { intros x. rewrite Hm1. fold W. case_decide; [|done]. rewrite lookup_replicate_2 by lia. simpl. f_equal. by apply Z.mod_small. }
  eapply wp_mono; [apply IH|].
  - eapply overwritten_block; [exact Hm|eauto|]. intros x Hx. apply Hd. lia.
  - intros [] m' Hm' x. rewrite Hm', Hm. repeat case_decide; done || lia.
Qed.

(** The word [memset] builds from a byte: checked for each of the bytes. *)
Lemma spread_byte b : 0 ≤ b < 256 →
  le_bytes 4 (Z.lor (Z.lor (Z.lor (Z.shiftl b 24) (Z.shiftl b 16)) (Z.shiftl b 8)) b) = replicate 4 b.
Proof.
  intros Hb. assert (Forall (λ b, le_bytes 4 (Z.lor (Z.lor (Z.lor (Z.shiftl b 24) (Z.shiftl b 16)) (Z.shiftl b 8)) b) =
    replicate 4 b) (seqZ 0 256)) as Hall by (apply (bool_decide_unpack _); by vm_compute).
  rewrite Forall_forall in Hall. apply Hall, elem_of_seqZ. lia.
Qed.

Lemma memset_spec m v c n : 0 ≤ n → block m v n →
  wp (memset v c n) (λ r m', r = v ∧ overwritten m v n (λ _, Some (u8 c)) m') m.
Proof.
  intros Hn Hb. unfold memset. destruct (n =? 0) eqn:E0.
  { apply Z.eqb_eq in E0. wp_step. split; [done|]. intros x. by rewrite decide_False by lia. }
  assert (0 ≤ u8 c < 256) as Hc by (apply Z.mod_pos_bound; lia). wp_step. wp_if Ea.
  - apply andb_true_iff in Ea as [_ E4%Z.eqb_eq]. cbv zeta.
    assert (n = Z.of_nat (Z.to_nat (n / 4)) * Z.of_nat 4) as H4 by (rewrite Z2Nat.id; mlia).
    assert (Z.land c 0xFF = u8 c) as -> by (change 0xFF with (Z.ones 8); by rewrite Z.land_ones).
    eapply wp_mono; [apply (rep_stos_spec 4 _ v _ (u8 c)); [by apply spread_byte|done|by rewrite <-H4]|].
    intros [] m' Hm'. rewrite <-H4 in Hm'. by wp_step.
  - assert (n = Z.of_nat (Z.to_nat n) * Z.of_nat 1) as H1 by lia.
    eapply wp_mono; [apply (rep_stos_spec 1 _ v _ (u8 c)); [done|done|by rewrite <-H1]|].
    intros [] m' Hm'. rewrite <-H1 in Hm'. by wp_step.
Qed.

(** ** C strings: proofs *)

(** The string of the bytes [bs] is at [a]. *)
Fixpoint cstr (m : cmem) (a : Z) (bs : list Z) : Prop :=
  match bs with
  | [] => m !! a = Some 0
  | b :: bs => m !! a = Some b ∧ b ≠ 0 ∧ cstr m (a + 1) bs
  end.

Lemma cstr_lookup m a bs i : cstr m a bs → (i ≤ length bs)%nat → is_Some (m !! (a + Z.of_nat i)).
Proof.
  revert a i. induction bs as [|b bs IH]; intros a i Hs Hi; simpl in *.
  - replace (a + Z.of_nat i) with a by lia. eauto.
  - destruct Hs as (Hb & _ & Hs). destruct i as [|i]; [rewrite Z.add_0_r; eauto|].
    replace (a + Z.of_nat (S i)) with (a + 1 + Z.of_nat i) by lia. apply IH; [done|lia].
Qed.

(** Consecutive bytes are distinct: a block is no longer than the memory. *)
Lemma block_size (m : cmem) a (n : nat) : (∀ i, (i < n)%nat → is_Some (m !! (a + Z.of_nat i))) → (n ≤ base.size m)%nat.
Proof.
  intros Hb. rewrite <-(size_dom m).
  assert (n = size (list_to_set (seqZ a (Z.of_nat n)) : gset Z)) as ->.
  { rewrite size_list_to_set by apply NoDup_seqZ. rewrite length_seqZ. lia. }
  apply subseteq_size. intros x Hx%elem_of_list_to_set%elem_of_seqZ. apply elem_of_dom.
  replace x with (a + Z.of_nat (Z.to_nat (x - a))) by lia. apply Hb. lia.
Qed.

Lemma cstr_size m a bs : cstr m a bs → (length bs < base.size m)%nat.
Proof. intros Hs. apply (block_size m a (S (length bs))). intros i Hi. eapply cstr_lookup; [done|lia]. Qed.

Lemma strlen_loop_spec fuel m s n bs : cstr m s bs → (length bs < fuel)%nat → 0 ≤ n →
  n + Z.of_nat (length bs) < 2 ^ 31 → strlen_loop fuel s n m = OK (n + Z.of_nat (length bs)) m.
Proof.
  revert fuel s n. induction bs as [|b bs IH]; intros fuel s n Hs Hf Hn Hlt; (destruct fuel as [|fuel]; [lia|]); simpl in *;
    unfold mbind, M_bind, load, deref.
  - rewrite Hs. simpl. by rewrite Z.add_0_r.
  - destruct Hs as (-> & Hb & Hs). rewrite (proj2 (Z.eqb_neq _ _) Hb).
    assert (s32 (n + 1) = n + 1) as -> by (unfold s32; rewrite Z.mod_small; lia).
    rewrite IH; [f_equal; lia|done|lia..].
Qed.

Lemma strlen_spec m s bs : cstr m s bs → Z.of_nat (length bs) < 2 ^ 31 → strlen s m = OK (Z.of_nat (length bs)) m.
Proof.
  intros Hs Hlt. unfold strlen, rounds, gets, mbind, M_bind.
  rewrite (strlen_loop_spec _ m s 0 bs); [done|done| |lia|lia]. pose proof (cstr_size _ _ _ Hs). lia.
Qed.

(** The order of [strcmp]: the difference of the first bytes that differ. *)
Fixpoint compare_bytes (xs ys : list Z) : Z :=
  match xs, ys with
  | [], [] => 0
  | [], y :: _ => - y
  | x :: _, [] => x
  | x :: xs, y :: ys => if x =? y then compare_bytes xs ys else x - y
  end.

Lemma strcmp_loop_spec fuel m p q xs ys : cstr m p xs → cstr m q ys → (length xs < fuel)%nat →
  strcmp_loop fuel p q m = OK (compare_bytes xs ys) m.
Proof.
  revert fuel p q ys. induction xs as [|x xs IH]; intros fuel p q ys Hx Hy Hf; (destruct fuel as [|fuel]; [lia|]); simpl in *;
    unfold mbind, M_bind, load, deref.
  - rewrite Hx. simpl. destruct ys as [|y ys]; [by rewrite Hy|]. by destruct Hy as (-> & _ & _).
  - destruct Hx as (-> & Hx0 & Hx). rewrite (proj2 (Z.eqb_neq _ _) Hx0). destruct ys as [|y ys]; simpl in Hy.
    + rewrite Hy, (proj2 (Z.eqb_neq _ _) Hx0). unfold mret, M_ret. f_equal. lia.
    + destruct Hy as (-> & Hy0 & Hy). destruct (x =? y); [|done]. apply IH; [done..|lia].
Qed.

(** Bytewise lexicographic order. *)
Fixpoint lex_lt (xs ys : list Z) : Prop :=
  match xs, ys with
  | _, [] => False
  | [], _ :: _ => True
  | x :: xs, y :: ys => x < y ∨ (x = y ∧ lex_lt xs ys)
  end.

Lemma compare_bytes_lex m p xs q ys : bytes_ok m → cstr m p xs → cstr m q ys →
  (compare_bytes xs ys < 0 ↔ lex_lt xs ys) ∧ (compare_bytes xs ys = 0 ↔ xs = ys).
Proof.
  intros Hok. revert p q ys. induction xs as [|x xs IH]; intros p q ys Hx Hy; destruct ys as [|y ys]; simpl in *.
  - done.
  - destruct Hy as (Hy & Hy0 & _). pose proof (Hok _ _ Hy). split; split; intros; done || lia.
  - destruct Hx as (Hx & Hx0 & _). pose proof (Hok _ _ Hx). split; split; intros; done || lia.
  - destruct Hx as (_ & _ & Hx), Hy as (_ & _ & Hy). destruct (IH _ _ _ Hx Hy) as [H1 H2].
    destruct (Z.eqb_spec x y) as [->|Hne].
    + rewrite H1, H2. split; split; intros H; try (right; done); try done; [destruct H as [?|[_ ?]]; [lia|done]|by subst|congruence].
    + split; split; intros H; [left; lia|destruct H as [?|[? _]]; lia|lia|congruence].
Qed.

(** On two C strings [strcmp] terminates without touching
    memory; its result is negative exactly when the first string precedes the
    second in the lexicographic order of unsigned bytes, and zero exactly when
    they are equal. *)
Theorem strcmp_correct m p q xs ys : bytes_ok m → cstr m p xs → cstr m q ys →
  ∃ r, strcmp p q m = OK r m ∧ (r < 0 ↔ lex_lt xs ys) ∧ (r = 0 ↔ xs = ys).
Proof.
  intros Hok Hx Hy. exists (compare_bytes xs ys). split; [|by eapply compare_bytes_lex].
  unfold strcmp, rounds, gets, mbind, M_bind. apply strcmp_loop_spec; [done..|].
  pose proof (cstr_size _ _ _ Hx). lia.
Qed.

Definition demo_strings : cmem := list_to_map (zip (seqZ 100 8) [97; 98; 0; 97; 200; 0; 7; 7]).

Lemma demo_bytes (l : list Z) a : Forall (λ b, 0 ≤ b < 256) l →
  bytes_ok (list_to_map (zip (seqZ a (Z.of_nat (length l))) l)).
Proof.
  intros Hl x b Hx%elem_of_list_to_map_2%elem_of_zip_r. rewrite Forall_forall in Hl. by apply Hl.
Qed.

Lemma strcmp_correct_witness : ∃ r, strcmp 100 103 demo_strings = OK r demo_strings ∧ r < 0.
Proof.
  destruct (strcmp_correct demo_strings 100 103 [97; 98] [97; 200]) as (r & E & Hlt & _).
  - apply (demo_bytes [97; 98; 0; 97; 200; 0; 7; 7] 100). repeat constructor; lia.
  - by vm_compute.
  - by vm_compute.
  - exists r. split; [exact E|]. apply Hlt. simpl. lia.
Defined.

(** The loop of [strlcpy] copies at most [size - 1] bytes. *)
Lemma strlcpy_loop_spec fuel m size dst src bs : bytes_ok m → cstr m src bs → 0 < size < 2 ^ 64 →
  let k := Nat.min (length bs) (Z.to_nat (size - 1)) in
  (k < fuel)%nat → block m dst (Z.of_nat k) → (∀ x, dst ≤ x < dst + Z.of_nat k → ¬ src ≤ x ≤ src + Z.of_nat (length bs)) →
  wp (strlcpy_loop fuel size dst src) (λ d m', d = dst + Z.of_nat k ∧
    overwritten m dst (Z.of_nat k) (λ x, bs !! Z.to_nat (x - dst)) m') m.
Proof.
  intros Hok Hs Hsz k. subst k. revert fuel m size dst src Hok Hs Hsz.
  induction bs as [|b bs IH]; intros fuel m size dst src Hok Hs Hsz Hf Hb Hd; (destruct fuel as [|fuel]; [lia|]);
    cbn [strlcpy_loop length]; cbv zeta;
    assert (u64 (size - 1) = size - 1) as -> by (apply Z.mod_small; lia); simpl in Hs.
  - replace (Nat.min 0 (Z.to_nat (size - 1))) with O by lia.
    assert (overwritten m dst (Z.of_nat 0) (λ x, [] !! Z.to_nat (x - dst)) m) as Ho.
    { intros x. by rewrite decide_False by lia. }
    wp_if E; [|wp_step; split; [lia|done]]. wp_step. eapply wp_load; [exact Hs|]. simpl. wp_step. split; [lia|done].
  - destruct Hs as (Hb0 & Hnz & Hs). wp_if E; [apply Z.ltb_lt in E|apply Z.ltb_ge in E].
    2: { wp_step. replace (Nat.min _ _) with O by lia. split; [lia|]. intros x. by rewrite decide_False by lia. }
    cbn [length] in *. replace (Nat.min (S (length bs)) (Z.to_nat (size - 1)))
      with (S (Nat.min (length bs) (Z.to_nat (size - 1 - 1)))) in * by lia.
    set (k := Nat.min (length bs) (Z.to_nat (size - 1 - 1))) in *.
    wp_step. eapply wp_load; [exact Hb0|]. rewrite (proj2 (Z.eqb_neq _ _) Hnz). wp_step. apply wp_store; [apply Hb; lia|].
    assert (u8 b = b) as -> by (apply Z.mod_small; by apply (Hok src b Hb0)).
    assert (∀ x, src ≤ x ≤ src + 1 + Z.of_nat (length bs) → x ≠ dst) as Hdx by (intros x Hx ->; apply (Hd dst); lia).
    eapply wp_mono; [apply (IH fuel)|].
    + intros a v. rewrite lookup_insert. case_decide; [intros [= <-]; by apply (Hok _ _ Hb0)|apply Hok].
    + clear -Hs Hdx. assert (∀ x, src + 1 ≤ x ≤ src + 1 + Z.of_nat (length bs) → x ≠ dst) as H' by (intros x Hx; apply Hdx; lia).
      clear Hdx. revert Hs H'. generalize (src + 1). clear src. induction bs as [|c bs IH]; intros a; simpl.
      * intros Ha Hx. rewrite lookup_insert_ne; [done|]. specialize (Hx a). lia.
      * intros (Ha & Hc & Hs) Hx. split; [rewrite lookup_insert_ne; [done|]; specialize (Hx a); lia|]. split; [done|].
        apply IH; [done|]. intros x Hxa. apply Hx. lia.
    + lia.
    + unfold k in *. lia.
    + intros x Hx. rewrite lookup_insert_ne by lia. apply Hb. lia.
    + intros x Hx. specialize (Hd x). lia.
    + fold k. intros d m' [-> Hm']. split; [lia|]. intros x. rewrite Hm'. repeat case_decide; try lia.
      * replace (Z.to_nat (x - dst)) with (S (Z.to_nat (x - (dst + 1)))) by lia. done.
      * assert (x = dst) by lia. subst x. by rewrite Z.sub_diag, lookup_insert_eq.
      * by rewrite lookup_insert_ne by lia.
Qed.

(** C23 (bounds).  [strlcpy] of a string into a buffer of [size > 0] bytes that
    it does not overlap writes the longest prefix that fits and a NUL, nothing
    outside the first [size] bytes of the buffer, and returns the number of
    bytes copied. *)
Theorem strlcpy_correct m dst src bs size : bytes_ok m → cstr m src bs → 0 < size < 2 ^ 64 → block m dst size →
  (∀ x, dst ≤ x < dst + size → ¬ src ≤ x ≤ src + Z.of_nat (length bs)) →
  let k := Z.of_nat (Nat.min (length bs) (Z.to_nat (size - 1))) in
  ∃ m', strlcpy dst src size m = OK k m' ∧ k < size ∧
    ∀ x, m' !! x = if decide (dst ≤ x < dst + k) then bs !! Z.to_nat (x - dst)
      else if decide (x = dst + k) then Some 0 else m !! x.
Proof.
  intros Hok Hs Hsz Hb Hd k.
  assert (wp (strlcpy dst src size) (λ r m', r = k ∧ ∀ x, m' !! x = if decide (dst ≤ x < dst + k) then bs !! Z.to_nat (x - dst)
      else if decide (x = dst + k) then Some 0 else m !! x) m) as Hw.
  2: { destruct (wp_elim _ _ _ Hw) as (r & m' & E & -> & Hm'). exists m'. split; [done|]. split; [unfold k; lia|done]. }
  unfold strlcpy. rewrite (proj2 (Z.ltb_lt _ _)) by lia. wp_step. apply wp_gets. wp_step.
  eapply wp_mono; [apply (strlcpy_loop_spec _ m size dst src bs); try done|].
  - pose proof (cstr_size _ _ _ Hs). lia.
  - intros x Hx. apply Hb. lia.
  - intros x Hx. apply Hd. lia.
  - fold k. intros d m' [-> Hm']. wp_step. apply wp_store.
    { rewrite Hm', decide_False by lia. apply Hb. unfold k. lia. }
    wp_step. split; [lia|]. intros x. rewrite lookup_insert. repeat case_decide; try lia; try done; rewrite Hm'.
    + by rewrite decide_True.
    + by rewrite decide_False.
Qed.

Lemma strlcpy_correct_witness : ∃ m', strlcpy 106 100 2 demo_strings = OK 1 m' ∧
  m' !! 106 = Some 97 ∧ m' !! 107 = Some 0 ∧ m' !! 103 = Some 97.
Proof.
  destruct (strlcpy_correct demo_strings 106 100 [97; 98] 2) as (m' & E & _ & Hm').
  - apply (demo_bytes [97; 98; 0; 97; 200; 0; 7; 7] 100). repeat constructor; lia.
  - by vm_compute.
  - lia.
  - intros x Hx. assert (x = 106 ∨ x = 107) as [-> | ->] by lia; vm_compute; eauto.
  - intros x Hx. simpl. lia.
  - exists m'. split; [exact E|]. rewrite !Hm'. split_and!; reflexivity.
Defined.
