(* ===== verification/Spinlock.v ===== *)
(** * Spinlocks (kernel/spinlock.c, include/spinlock.h)

    [DEBUG_SPINLOCK] is defined in the header, so the owner checks are part of
    the code.  A CPU is the address of its [struct cpuinfo]; the caller passes
    it as [me], for [this_cpu].

    The three operations are written once, as the sequence of their accesses
    to the lock ([point], [spin_step]).  [spin_lock], [spin_trylock] and
    [spin_unlock], which the other components call, run that sequence with no
    other CPU in between; the second half of the file runs the same sequence
    on any number of CPUs, one access at a time in any order.  Memory is
    sequentially consistent: the stores of a CPU on x86 become visible in
    program order, and the barriers of the source separate the owner fields
    from the lock word.  The messages of [panic] and [debug_print] are left
    out. *)

From S2P Require Import Prelude LinkedList.

Local Open Scope Z_scope.

Record spinlock := SpinLock {
  locked : Z;
  lock_name : Z;
  lock_cpu : Z;
  lock_file : Z;
  lock_line : Z;
}.

#[global] Instance spinlock_eq_dec : EqDecision spinlock.
Proof. solve_decision. Defined.

Definition holding (l : spinlock) (me : Z) : bool :=
  negb (locked l =? 0) && (lock_cpu l =? me).

Definition spin_init (name : Z) (l : spinlock) : spinlock :=
  SpinLock 0 name NULL (lock_file l) (lock_line l).

(** [atomic_cmpxchg(&lock->locked, 0, 1)]. *)
Definition cmpxchg_locked (l : spinlock) : bool * spinlock :=
  if locked l =? 0 then (true, SpinLock 1 (lock_name l) (lock_cpu l) (lock_file l) (lock_line l))
  else (false, l).

Definition set_locked (v : Z) (l : spinlock) : spinlock :=
  SpinLock v (lock_name l) (lock_cpu l) (lock_file l) (lock_line l).
Definition set_lock_cpu (v : Z) (l : spinlock) : spinlock :=
  SpinLock (locked l) (lock_name l) v (lock_file l) (lock_line l).
Definition set_lock_file (v : Z) (l : spinlock) : spinlock :=
  SpinLock (locked l) (lock_name l) (lock_cpu l) v (lock_line l).
Definition set_lock_line (v : Z) (l : spinlock) : spinlock :=
  SpinLock (locked l) (lock_name l) (lock_cpu l) (lock_file l) v.

(** The two ways to acquire. *)
Inductive acquire := Lock | TryLock.

#[global] Instance acquire_eq_dec : EqDecision acquire.
Proof. solve_decision. Defined.

(** The accesses of [__spin_lock] and [__spin_trylock], then those of
    [__spin_unlock]: the point names the access that comes next. *)
Inductive point :=
| HoldLocked (a : acquire)   (* holding: lock->locked *)
| HoldCpu (a : acquire)      (* holding: lock->cpu == this_cpu *)
| Cas (a : acquire)          (* atomic_cmpxchg(&lock->locked, 0, 1) *)
| SetCpu (a : acquire)       (* lock->cpu = this_cpu *)
| SetFile (a : acquire)      (* lock->file = file *)
| SetLine (a : acquire)      (* lock->line = line *)
| IfLocked                   (* if (!lock->locked) *)
| OwnLocked                  (* holding: lock->locked *)
| OwnCpu                     (* holding: lock->cpu == this_cpu *)
| ClearCpu                   (* lock->cpu = NULL *)
| ClearFile                  (* lock->file = NULL *)
| ClearLine                  (* lock->line = 0 *)
| ClearLocked.                   (* lock->locked = 0 *)

#[global] Instance point_eq_dec : EqDecision point.
Proof. solve_decision. Defined.

(** What an access leads to: the next one, the return of the call with a
    value, or the call to [panic]. *)
Inductive reached := Goto (p : point) (l : spinlock) | Return (v : Z) (l : spinlock) | Panics.

Definition spin_step (me file line : Z) (p : point) (l : spinlock) : reached :=
  match p with
  | HoldLocked a => if locked l =? 0 then Goto (Cas a) l else Goto (HoldCpu a) l
  | HoldCpu a => if lock_cpu l =? me then Panics else Goto (Cas a) l
  | Cas a =>
      match cmpxchg_locked l, a with
      | (true, l'), _ => Goto (SetCpu a) l'
      | (false, l'), Lock => Goto (Cas Lock) l'
      | (false, l'), TryLock => Return 0 l'
      end
  | SetCpu a => Goto (SetFile a) (set_lock_cpu me l)
  | SetFile a => Goto (SetLine a) (set_lock_file file l)
  | SetLine a => Return 1 (set_lock_line line l)
  | IfLocked => if locked l =? 0 then Panics else Goto OwnLocked l
  | OwnLocked => if locked l =? 0 then Panics else Goto OwnCpu l
  | OwnCpu => if lock_cpu l =? me then Goto ClearCpu l else Panics
  | ClearCpu => Goto ClearFile (set_lock_cpu NULL l)
  | ClearFile => Goto ClearLine (set_lock_file NULL l)
  | ClearLine => Goto ClearLocked (set_lock_line 0 l)
  | ClearLocked => Return 1 (set_locked 0 l)
  end.

(** ** One CPU alone

    With no other CPU running, a lock that another CPU has taken is never
    released and the loop of [__spin_lock] spins forever: no amount of fuel is
    enough ([spin_waits]).  Every other call makes at most seven accesses. *)
Fixpoint spin_run (fuel : nat) (me file line : Z) (p : point) : M spinlock Z := λ l,
  match fuel with
  | O => Stop NoFuel l
  | S fuel =>
      match spin_step me file line p l with
      | Goto p' l' => spin_run fuel me file line p' l'
      | Return v l' => OK v l'
      | Panics => Stop Panic l
      end
  end.

Definition spin_fuel : nat := 7.

Definition spin_lock (me file line : Z) : M spinlock unit :=
  spin_run spin_fuel me file line (HoldLocked Lock);; mret tt.

Definition spin_trylock (me file line : Z) : M spinlock Z :=
  spin_run spin_fuel me file line (HoldLocked TryLock).

Definition spin_unlock (me : Z) : M spinlock unit :=
  spin_run spin_fuel me NULL 0 IfLocked;; mret tt.

(** A lock nobody holds. *)
Definition is_free (l : spinlock) : Prop := locked l = 0.
(** A lock [me] holds. *)
Definition held_by (me : Z) (l : spinlock) : Prop := locked l = 1 ∧ lock_cpu l = me.

(** A taken lock keeps a blocking acquisition at the exchange for ever. *)
Lemma spin_waits fuel me f n l : locked l ≠ 0 → spin_run fuel me f n (Cas Lock) l = Stop NoFuel l.
Proof.
  intros Hl%Z.eqb_neq. induction fuel as [|fuel IH]; [done|].
  cbn [spin_run spin_step]. unfold cmpxchg_locked. by rewrite Hl.
Qed.

(** Running a call to its end, by the lock word and the owner. *)
Ltac spin_alone :=
  unfold spin_lock, spin_trylock, spin_unlock, spin_fuel, holding, mbind, M_bind, mret, M_ret;
  unfold spin_run, spin_step, cmpxchg_locked; cbn -[Z.eqb];
  repeat (match goal with |- context [?a =? ?b] => destruct (a =? b) eqn:?; cbn -[Z.eqb] end);
  first [reflexivity | congruence].

(** The calls in closed form. *)
Lemma spin_lock_eq me f n l :
  spin_lock me f n l =
    if holding l me then Stop Panic l
    else if locked l =? 0 then OK tt (SpinLock 1 (lock_name l) me f n) else Stop NoFuel l.
Proof. spin_alone. Qed.

Lemma spin_trylock_eq me f n l :
  spin_trylock me f n l =
    if holding l me then Stop Panic l
    else if locked l =? 0 then OK 1 (SpinLock 1 (lock_name l) me f n) else OK 0 l.
Proof. spin_alone. Qed.

Lemma spin_unlock_eq me l :
  spin_unlock me l =
    if holding l me then OK tt (SpinLock 0 (lock_name l) NULL NULL 0) else Stop Panic l.
Proof. spin_alone. Qed.

Lemma holding_held l me : held_by me l → holding l me = true.
Proof. intros [Hl Hc]. unfold holding. by rewrite Hl, Hc, Z.eqb_refl. Qed.

Lemma holding_free l me : is_free l → holding l me = false.
Proof. intros Hf. unfold holding. by rewrite Hf. Qed.

Lemma spin_lock_spec me f n l : is_free l →
  wp (spin_lock me f n) (λ _ l', held_by me l') l.
Proof. intros Hf. unfold wp. by rewrite spin_lock_eq, holding_free, Hf. Qed.

Lemma spin_unlock_spec me l : held_by me l →
  wp (spin_unlock me) (λ _ l', is_free l') l.
Proof. intros Hh. unfold wp. by rewrite spin_unlock_eq, holding_held. Qed.

Lemma spin_lock_twice me f n l : held_by me l → spin_lock me f n l = Stop Panic l.
Proof. intros Hh. by rewrite spin_lock_eq, holding_held. Qed.

Lemma spin_unlock_other me l : lock_cpu l ≠ me → spin_unlock me l = Stop Panic l.
Proof. intros Hc%Z.eqb_neq. rewrite spin_unlock_eq. unfold holding. by rewrite Hc, andb_false_r. Qed.

(** ** Several CPUs

    Where a CPU is: outside the lock, at a point of a call made at [file],
    [line], between an acquisition at [file], [line] and its release, or
    stopped by [panic]. *)
Inductive cpu_at :=
| Outside
| Running (file line : Z) (p : point)
| Critical (file line : Z)
| Panicked.

#[global] Instance cpu_at_eq_dec : EqDecision cpu_at.
Proof. solve_decision. Defined.

Record sys := Sys { lk : spinlock; at_ : Z → cpu_at }.

Definition move (cpu : Z) (a : cpu_at) (f : Z → cpu_at) : Z → cpu_at :=
  λ c, if decide (c = cpu) then a else f c.

(** Where the return of a call leaves the CPU: a release outside, an
    acquisition inside unless [spin_trylock] gave up. *)
Definition after_return (file line : Z) (p : point) (v : Z) : cpu_at :=
  match p with
  | ClearLocked => Outside
  | _ => if v =? 1 then Critical file line else Outside
  end.

(** One access of CPU [c]; [None] when [c] has no call in progress. *)
Definition run_cpu (c : Z) (s : sys) : option sys :=
  match at_ s c with
  | Running file line p =>
      Some match spin_step c file line p (lk s) with
           | Goto p' l' => Sys l' (move c (Running file line p') (at_ s))
           | Return v l' => Sys l' (move c (after_return file line p v) (at_ s))
           | Panics => Sys (lk s) (move c Panicked (at_ s))
           end
  | _ => None
  end.

(** A CPU calls [spin_lock] or [spin_trylock] when it is outside and
    [spin_unlock] when it is inside; a call in progress makes its next
    access. *)
Inductive step (c : Z) : sys → sys → Prop :=
| step_acquire a file line s : at_ s c = Outside →
    step c s (Sys (lk s) (move c (Running file line (HoldLocked a)) (at_ s)))
| step_release f n file line s : at_ s c = Critical f n →
    step c s (Sys (lk s) (move c (Running file line IfLocked) (at_ s)))
| step_run s s' : run_cpu c s = Some s' → step c s s'.

(** Any CPU moves next; a CPU is a real object, so its address is not NULL. *)
Definition sys_step (s s' : sys) : Prop := ∃ c, c ≠ NULL ∧ step c s s'.

(** All CPUs outside, the lock just initialised. *)
Definition initial (s : sys) : Prop :=
  locked (lk s) = 0 ∧ lock_cpu (lk s) = NULL ∧ ∀ c, at_ s c = Outside.

(** The points from the successful exchange up to the store that releases. *)
Definition inside (a : cpu_at) : bool :=
  match a with
  | Critical _ _ => true
  | Running _ _ (HoldLocked _ | HoldCpu _ | Cas _) => false
  | Running _ _ _ => true
  | _ => false
  end.

(** What the lock says at each point of the CPU that is inside. *)
Definition owner_view (c : Z) (a : cpu_at) (l : spinlock) : Prop :=
  locked l = 1 ∧
  match a with
  | Critical f n => lock_cpu l = c ∧ lock_file l = f ∧ lock_line l = n
  | Running _ _ (SetCpu _ | ClearFile | ClearLine | ClearLocked) => lock_cpu l = NULL
  | Running f _ (SetLine _) => lock_cpu l = c ∧ lock_file l = f
  | _ => lock_cpu l = c
  end.

Record lock_inv (nm : Z) (o : option Z) (s : sys) : Prop := {
  inv_name : lock_name (lk s) = nm;
  inv_owner d : inside (at_ s d) = true → o = Some d;
  inv_view : match o with
             | None => locked (lk s) = 0 ∧ lock_cpu (lk s) = NULL
             | Some c => c ≠ NULL ∧ inside (at_ s c) = true ∧ owner_view c (at_ s c) (lk s)
             end;
  inv_live c : at_ s c ≠ Panicked;
}.

Lemma initial_inv s : initial s → lock_inv (lock_name (lk s)) None s.
Proof.
  intros (Hl & Hc & Ho). split; [done| |done|].
  - intros d. by rewrite Ho.
  - intros c. by rewrite Ho.
Qed.

(** A CPU other than the owner moves between points outside the lock. *)
Lemma inv_outside nm o c a s : lock_inv nm o s → o ≠ Some c → inside a = false → a ≠ Panicked →
  lock_inv nm o (Sys (lk s) (move c a (at_ s))).
Proof.
  intros [Hn Ho Hv Hp] Hc Ha Hap. split; [done| | |]; simpl; unfold move.
  - intros d. case_decide; [by rewrite Ha|apply Ho].
  - destruct o as [d|]; [|done]. rewrite decide_False; [done|congruence].
  - intros d. by case_decide.
Qed.

(** The owner moves to a point where it is still inside. *)
Lemma inv_inside nm o c a l s : lock_inv nm o s → o = None ∨ o = Some c → c ≠ NULL →
  lock_name l = nm → inside a = true → owner_view c a l →
  lock_inv nm (Some c) (Sys l (move c a (at_ s))).
Proof.
  intros [Hn Ho Hv Hp] Hc Hnull Hl Ha Hw. split; [done| | |]; simpl; unfold move.
  - intros d. case_decide; [congruence|]. intros Hd. specialize (Ho d Hd). destruct Hc; congruence.
  - by rewrite decide_True.
  - intros d. case_decide; [by intros ->|apply Hp].
Qed.

(** The owner leaves. *)
Lemma inv_leave nm c l s : lock_inv nm (Some c) s → lock_name l = nm → locked l = 0 → lock_cpu l = NULL →
  lock_inv nm None (Sys l (move c Outside (at_ s))).
Proof.
  intros [Hn Ho Hv Hp] Hl Hf Hc. split; [done| |done|]; simpl; unfold move.
  - intros d. case_decide; [done|]. intros Hd. specialize (Ho d Hd). congruence.
  - intros d. by case_decide.
Qed.

(** The access of a CPU that is not inside: it takes the lock only when nobody
    is, and its check does not panic, since the lock does not name it. *)
Lemma run_outside nm o c s s' : c ≠ NULL → lock_inv nm o s → o ≠ Some c → run_cpu c s = Some s' →
  ∃ o', lock_inv nm o' s'.
Proof.
  intros Hc Hinv Ho Hr. unfold run_cpu in Hr. destruct (at_ s c) as [|f n p| |] eqn:Ea; try done.
  assert (inside (Running f n p) = false) as Hp.
  { destruct (inside (Running f n p)) eqn:E; [|done]. destruct Ho. apply (inv_owner _ _ _ Hinv). by rewrite Ea. }
  assert (∀ a, inside a = false → a ≠ Panicked → lock_inv nm o (Sys (lk s) (move c a (at_ s)))) as Hout
    by (intros; by apply inv_outside).
  destruct p as [a|a|a|a|a|a| | | | | | |]; try done; simpl in Hr.
  - destruct (locked (lk s) =? 0); simplify_eq/=; exists o; by apply Hout.
  - destruct (lock_cpu (lk s) =? c) eqn:E; simplify_eq/=; [|exists o; by apply Hout].
    apply Z.eqb_eq in E. exfalso. pose proof (inv_view _ _ _ Hinv) as H. destruct o as [d|]; [|naive_solver].
    destruct H as (Hd & Hi & Hl & Hv). assert (d ≠ c) by congruence.
    destruct (at_ s d) as [|? ? []| |]; naive_solver.
  - pose proof (inv_view _ _ _ Hinv) as H. unfold cmpxchg_locked in Hr. destruct o as [d|].
    + destruct H as (Hd & Hi & Hl & Hv). rewrite Hl in Hr. simpl in Hr.
      destruct a; simplify_eq/=; exists (Some d); by apply Hout.
    + destruct H as [Hl Hv]. rewrite Hl in Hr. simplify_eq/=. exists (Some c).
      eapply inv_inside; try done; [by left|by apply (inv_name _ _ _ Hinv)].
Qed.

(** The access of the CPU that is inside: its own checks find its own name. *)
Lemma run_inside nm c s s' : lock_inv nm (Some c) s → run_cpu c s = Some s' → ∃ o', lock_inv nm o' s'.
Proof.
  intros Hinv Hr. destruct (inv_view _ _ _ Hinv) as (Hc & Hi & Hl & Hv).
  unfold run_cpu in Hr. destruct (at_ s c) as [|f n p| |] eqn:Ea; try done.
  assert (∀ a l, lock_name l = nm → inside a = true → owner_view c a l →
    lock_inv nm (Some c) (Sys l (move c a (at_ s)))) as Hin
    by (intros a l Hn Ha Hw; apply (inv_inside nm (Some c)); auto).
  pose proof (inv_name _ _ _ Hinv) as Hn.
  destruct p as [a|a|a|a|a|a| | | | | | |]; try done; cbn in Hr; rewrite ?Hl, ?Hv, ?Z.eqb_refl in Hr;
    injection Hr as <-;
    try (exists (Some c); apply Hin; [done|done|]; unfold owner_view; cbn in *; intuition congruence).
  exists None. by apply inv_leave.
Qed.

Lemma step_inv nm o s s' : lock_inv nm o s → sys_step s s' → ∃ o', lock_inv nm o' s'.
Proof.
  intros Hinv (c & Hc & Hs). destruct Hs as [a f n s Ha|f0 n0 f n s Ha|s s' Hr].
  - exists o. apply inv_outside; try done. intros ->. destruct (inv_view _ _ _ Hinv) as (_ & Hi & _).
    by rewrite Ha in Hi.
  - assert (o = Some c) as -> by (apply (inv_owner _ _ _ Hinv); by rewrite Ha).
    destruct (inv_view _ _ _ Hinv) as (_ & _ & Hl & Hv). rewrite Ha in Hv.
    exists (Some c). apply (inv_inside nm (Some c)); try done; [by right|by apply (inv_name _ _ _ Hinv)|].
    split; [done|apply Hv].
  - destruct (decide (o = Some c)) as [->|Ho]; [by eapply run_inside|by eapply run_outside].
Qed.

Lemma reachable_inv nm o s s' : lock_inv nm o s → rtc sys_step s s' → ∃ o', lock_inv nm o' s'.
Proof.
  intros Hi Hr. revert o Hi. induction Hr as [s|s s1 s' Hs _ IH]; intros o Hi; [eauto|].
  destruct (step_inv _ _ _ _ Hi Hs) as [o1 Hi1]. eauto.
Qed.

(** What the invariant says to a caller: the lock as the CPU in its critical
    section sees it, ... *)
Lemma inv_critical nm o s c f n : lock_inv nm o s → at_ s c = Critical f n →
  lk s = SpinLock 1 nm c f n.
Proof.
  intros Hinv Ha. assert (o = Some c) as -> by (apply (inv_owner _ _ _ Hinv); by rewrite Ha).
  destruct (inv_view _ _ _ Hinv) as (_ & _ & Hl & Hv). rewrite Ha in Hv. destruct Hv as (H1 & H2 & H3).
  pose proof (inv_name _ _ _ Hinv). destruct (lk s). simpl in *. by subst.
Qed.

(** ... and as one outside sees it. *)
Lemma inv_not_holding nm o s c : c ≠ NULL → lock_inv nm o s → inside (at_ s c) = false →
  holding (lk s) c = false.
Proof.
  intros Hc Hinv Ha. pose proof (inv_view _ _ _ Hinv) as H. unfold holding. apply andb_false_iff.
  destruct o as [d|]; [|left; by rewrite (proj1 H)]. right. apply Z.eqb_neq. intros E.
  destruct H as (Hd & Hi & Hl & Hv). destruct (decide (d = c)) as [->|Hne]; [congruence|].
  destruct (at_ s d) as [|? ? []| |]; naive_solver.
Qed.

(** C16 (safety).  However the accesses of the CPUs interleave, from a freshly
    initialised lock: at most one CPU is between its successful exchange and
    its releasing store, and the lock word is set exactly when one is; none of
    the ownership checks panics on CPUs that pair lock and unlock; a CPU in
    its critical section is recorded in the lock as the owner, with the place
    of its call, and its [spin_unlock] would succeed and leave the lock free
    and unowned; a CPU outside would get the lock from [spin_lock] and
    [spin_trylock], with its own name in it, when nobody is inside, and would
    wait, or be turned away with the lock unchanged, when somebody is. *)
Theorem spinlock_mutual_exclusion s s' :
  initial s → rtc sys_step s s' →
  (∀ c d, inside (at_ s' c) = true → inside (at_ s' d) = true → c = d) ∧
  ((∃ c, inside (at_ s' c) = true) → locked (lk s') = 1) ∧
  ((∀ c, inside (at_ s' c) = false) → locked (lk s') = 0) ∧
  (∀ c, at_ s' c ≠ Panicked) ∧
  (∀ c f n, at_ s' c = Critical f n →
    lk s' = SpinLock 1 (lock_name (lk s)) c f n ∧ holding (lk s') c = true ∧
    spin_unlock c (lk s') = OK tt (SpinLock 0 (lock_name (lk s)) NULL NULL 0)) ∧
  (∀ c f n, c ≠ NULL → inside (at_ s' c) = false →
    if locked (lk s') =? 0
    then spin_lock c f n (lk s') = OK tt (SpinLock 1 (lock_name (lk s)) c f n) ∧
         spin_trylock c f n (lk s') = OK 1 (SpinLock 1 (lock_name (lk s)) c f n)
    else spin_lock c f n (lk s') = Stop NoFuel (lk s') ∧
         spin_trylock c f n (lk s') = OK 0 (lk s')).
Proof.
  intros Hi Hr. destruct (reachable_inv _ _ s s' (initial_inv s Hi) Hr) as [o Hinv].
  pose proof Hinv as [Hn Ho Hv Hp]. split_and!.
  - intros c d Hc%Ho Hd%Ho. congruence.
  - intros [c Hc]. rewrite (Ho c Hc) in Hv. apply Hv.
  - intros Hnone. destruct o as [c|]; [|apply Hv]. destruct Hv as (_ & Hc & _). by rewrite Hnone in Hc.
  - done.
  - intros c f n Ha. rewrite (inv_critical _ _ _ _ _ _ Hinv Ha), spin_unlock_eq, holding_held by done. done.
  - intros c f n Hc Ha. pose proof (inv_not_holding _ _ _ _ Hc Hinv Ha) as Hh.
    rewrite spin_lock_eq, spin_trylock_eq, Hh, Hn. by destruct (locked (lk s') =? 0).
Qed.

(** Two CPUs race: 100 wins the exchange and enters at file 7, line 7; 200 has
    lost its exchange once and is at it again. *)
Lemma spinlock_mutual_exclusion_witness :
  ∃ s s', initial s ∧ rtc sys_step s s' ∧ at_ s' 100 = Critical 7 7 ∧ at_ s' 200 = Running 8 8 (Cas Lock) ∧
    lk s' = SpinLock 1 (lock_name (lk s)) 100 7 7 ∧ spin_trylock 300 9 9 (lk s') = OK 0 (lk s').
Proof.
  pose (s := Sys (SpinLock 0 5 0 0 0) (λ _, Outside)).
  pose (go := λ c s, default s (run_cpu c s)).
  pose (call := λ c f n s, Sys (lk s) (move c (Running f n (HoldLocked Lock)) (at_ s))).
  pose (s' := go 100 (go 100 (go 100 (go 200 (go 100 (go 200 (go 100 (call 200 8 8 (call 100 7 7 s))))))))).
  assert (rtc sys_step s s') as Hr.
  { assert (∀ c f n s, c ≠ NULL → at_ s c = Outside → sys_step s (call c f n s)) as Hcall.
    { intros c f n t Hc Ha. exists c. split; [done|]. by apply step_acquire. }
    assert (∀ c s, c ≠ NULL → is_Some (run_cpu c s) → sys_step s (go c s)) as Hgo.
    { intros c t Hc [t' Ht]. exists c. split; [done|]. apply step_run. unfold go. by rewrite Ht. }
    eapply rtc_l; [by apply (Hcall 100 7 7)|]. eapply rtc_l; [by apply (Hcall 200 8 8)|].
    do 2 (eapply rtc_l; [by apply (Hgo 100); [|eexists]|]; eapply rtc_l; [by apply (Hgo 200); [|eexists]|]).
    do 3 (eapply rtc_l; [by apply (Hgo 100); [|eexists]|]). apply rtc_refl. }
  assert (initial s) as Hi by done.
  destruct (spinlock_mutual_exclusion s s' Hi Hr) as (_ & _ & _ & _ & Hcrit & Hout).
  exists s, s'. split; [exact Hi|]. split; [exact Hr|]. split; [done|]. split; [done|].
  split; [apply (Hcrit 100 7 7); done|]. destruct (Hout 300 9 9 ltac:(done) ltac:(done)) as [_ E]. exact E.
Defined.
