(* ===== verification/Printf.v ===== *)
(** * Formatted output (lib/printfmt.c, lib/printf.c, kernel/printf.c)

    [vprintfmt] is parameterised by the character sink, as in the code: the
    state is any type with a memory to read the format and the arguments'
    strings from, [putch] any command on it.  The sinks of [vsnprintf], of the
    user-level [printf] and of the kernel's [cprintf] instantiate it.  String
    literals are data in memory, at the addresses of [Rodata]. *)

From S2P Require Import Prelude LinkedList Spinlock CString.

Local Open Scope Z_scope.

(** Addresses of the string literals of lib/printfmt.c; [error_string err] is
    the table of messages, NULL where it has none. *)
Class Rodata := {
  lit_null : Z;  (** ["(null)"] *)
  lit_error : Z;  (** ["error %d"] *)
  lit_s : Z;  (** ["%s"] *)
  error_string : Z → Z;
}.

(** [length_of(error_string)]: the last index is [EPERM]. *)
Definition error_count : Z := 9.
Definition EINVAL : Z := 5.

(** A conversion specification between [%] and its letter. *)
Record fspec := Fspec { padc : Z; width : Z; precision : Z; lflag : Z; altflag : bool }.
Definition spec0 : fspec := Fspec 32 (-1) (-1) 0 false.
Definition set_padc (c : Z) (f : fspec) : fspec := Fspec c (width f) (precision f) (lflag f) (altflag f).
Definition set_width (w : Z) (f : fspec) : fspec := Fspec (padc f) w (precision f) (lflag f) (altflag f).
Definition set_precision (p : Z) (f : fspec) : fspec := Fspec (padc f) (width f) p (lflag f) (altflag f).
Definition set_lflag (l : Z) (f : fspec) : fspec := Fspec (padc f) (width f) (precision f) l (altflag f).
Definition set_altflag (f : fspec) : fspec := Fspec (padc f) (width f) (precision f) (lflag f) true.

(** The character of a digit: ["0123456789abcdef"[d]]. *)
Definition digit_char (d : Z) : Z := if d <? 10 then 48 + d else 87 + d.

Section printfmt.
Context {W : Type} `{Rodata} (rd : W → cmem) (putch : Z → M W unit).

Definition peek (a : Z) : M W Z := deref (λ s, rd s !! a).
Definition reads {A} (c : M cmem A) : M W A := zoom rd (λ _ s, s) c.

(** [va_arg]: the next argument word and the rest. *)
Definition va_arg (ap : list Z) : M W (Z * list Z) :=
  match ap with
  | [] => halt Fault
  | a :: ap => mret (a, ap)
  end.

Fixpoint pad (n : nat) (c : Z) : M W unit :=
  match n with
  | O => mret tt
  | S n => putch c;; pad n c
  end.

Fixpoint printnum (fuel : nat) (num base width padc : Z) : M W unit :=
  match fuel with
  | O => halt NoFuel
  | S fuel =>
      (if base <=? num then printnum fuel (num / base) base (s32 (width - 1)) padc
       else pad (Z.to_nat (s32 (width - 1))) padc);;
      putch (digit_char (num `mod` base))
  end.

(** A 64-bit number has at most 64 digits. *)
Definition num_fuel : nat := 65.

Definition getuint (ap : list Z) (lflag : Z) : M W (Z * list Z) :=
  '(a, ap) ← va_arg ap;
  mret (if 2 <=? lflag then u64 a else if negb (lflag =? 0) then u64 a else u32 a, ap).

Definition getint (ap : list Z) (lflag : Z) : M W (Z * list Z) :=
  '(a, ap) ← va_arg ap;
  mret (if 2 <=? lflag then s64 a else if negb (lflag =? 0) then s64 a else s32 a, ap).

(** The digits of a width; the result is [fmt] after them and [precision]. *)
Fixpoint scan_width (fuel : nat) (fmt ch precision : Z) : M W (Z * Z) :=
  match fuel with
  | O => halt NoFuel
  | S fuel =>
      let precision := s32 (precision * 10 + ch - 48) in
      c ← peek fmt;
      let ch := schar c in
      if (ch <? 48) || (57 <? ch) then mret (fmt, precision) else scan_width fuel (fmt + 1) ch precision
  end.

(** [process_precision:] *)
Definition process_precision (f : fspec) : fspec :=
  if width f <? 0 then set_precision (-1) (set_width (precision f) f) else f.

(** From [reswitch:] to the letter of the conversion: the letter, [fmt] after
    it, the remaining arguments and the specification. *)
Fixpoint reswitch (fuel : nat) (fmt : Z) (ap : list Z) (f : fspec) : M W (Z * Z * list Z * fspec) :=
  match fuel with
  | O => halt NoFuel
  | S fuel =>
      ch ← peek fmt;
      let fmt := fmt + 1 in
      if ch =? 45 then reswitch fuel fmt ap (set_padc 45 f)
      else if ch =? 48 then reswitch fuel fmt ap (set_padc 48 f)
      else if (49 <=? ch) && (ch <=? 57) then
        '(fmt, p) ← scan_width fuel fmt ch 0;
        reswitch fuel fmt ap (process_precision (set_precision p f))
      else if ch =? 42 then
        '(a, ap) ← va_arg ap;
        reswitch fuel fmt ap (process_precision (set_precision (s32 a) f))
      else if ch =? 46 then reswitch fuel fmt ap (if width f <? 0 then set_width 0 f else f)
      else if ch =? 35 then reswitch fuel fmt ap (set_altflag f)
      else if ch =? 108 then reswitch fuel fmt ap (set_lflag (s32 (lflag f + 1)) f)
      else mret (ch, fmt, ap, f)
  end.

(** The loop that prints a string; the result is [width]. *)
Fixpoint put_string (fuel : nat) (p : Z) (f : fspec) : M W Z :=
  match fuel with
  | O => halt NoFuel
  | S fuel =>
      c ← peek p;
      let ch := schar c in
      if ch =? 0 then mret (width f)
      else if negb ((precision f <? 0) || (0 <=? s32 (precision f - 1))) then mret (width f)
      else
        let f := if precision f <? 0 then f else set_precision (s32 (precision f - 1)) f in
        putch (if altflag f && ((ch <? 32) || (126 <? ch)) then 63 else ch);;
        put_string fuel (p + 1) (set_width (s32 (width f - 1)) f)
  end.

Definition print_s (fuel : nat) (p : Z) (f : fspec) : M W unit :=
  let p := if p =? NULL then lit_null else p in
  width ← (if (0 <? width f) && negb (padc f =? 45) then
             len ← reads (strnlen p (u64 (precision f)));
             let w := s32 (width f - len) in
             pad (Z.to_nat w) (padc f);;
             mret (if 0 <? w then 0 else w)
           else mret (width f));
  width ← put_string fuel p (set_width width f);
  pad (Z.to_nat width) 32.

(** [for (fmt--; fmt[-1] != '%'; fmt--)] *)
Fixpoint back_to_percent (fuel : nat) (fmt : Z) : M W Z :=
  match fuel with
  | O => halt NoFuel
  | S fuel =>
      c ← peek (fmt - 1);
      if schar c =? 37 then mret fmt else back_to_percent fuel (fmt - 1)
  end.

(** The main loop: [inner] bounds the loops inside a specification, [fuel]
    the characters of the format and the nested call for an error number. *)
Fixpoint vprintfmt_loop (inner fuel : nat) (fmt : Z) (ap : list Z) : M W unit :=
  match fuel with
  | O => halt NoFuel
  | S fuel =>
      ch ← peek fmt;
      if ch =? 0 then mret tt
      else if negb (ch =? 37) then putch ch;; vprintfmt_loop inner fuel (fmt + 1) ap
      else
        '(ch, fmt, ap, f) ← reswitch inner (fmt + 1) ap spec0;
        let number (num base : Z) (ap : list Z) :=
          printnum num_fuel num base (width f) (padc f);; vprintfmt_loop inner fuel fmt ap in
        if ch =? 99 then  (* c *)
          '(a, ap) ← va_arg ap; putch (s32 a);; vprintfmt_loop inner fuel fmt ap
        else if ch =? 101 then  (* e *)
          '(a, ap) ← va_arg ap;
          let err := s32 a in
          let err := if err <? 0 then s32 (- err) else err in
          (if (error_count <=? u64 err) || (error_string err =? NULL)
           then vprintfmt_loop inner fuel lit_error [err]
           else vprintfmt_loop inner fuel lit_s [error_string err]);;
          vprintfmt_loop inner fuel fmt ap
        else if ch =? 115 then  (* s *)
          '(a, ap) ← va_arg ap; print_s inner (u64 a) f;; vprintfmt_loop inner fuel fmt ap
        else if ch =? 100 then  (* d *)
          '(num, ap) ← getint ap (lflag f);
          if num <? 0 then putch 45;; number (u64 (- num)) 10 ap else number num 10 ap
        else if ch =? 117 then  (* u *)
          '(num, ap) ← getuint ap (lflag f); number num 10 ap
        else if ch =? 111 then  (* o *)
          '(num, ap) ← getuint ap (lflag f); number num 8 ap
        else if ch =? 112 then  (* p *)
          putch 48;; putch 120;; '(a, ap) ← va_arg ap; number (u64 a) 16 ap
        else if ch =? 120 then  (* x *)
          '(num, ap) ← getuint ap (lflag f); number num 16 ap
        else if ch =? 37 then putch ch;; vprintfmt_loop inner fuel fmt ap
        else
          putch 37;;
          fmt ← back_to_percent inner (fmt - 1);
          vprintfmt_loop inner fuel fmt ap
  end.

(** The loops advance through the format by at least a byte per round; the
    format of a nested call has at most as many bytes as there are. *)
Definition vprintfmt (fmt : Z) (ap : list Z) : M W unit :=
  n ← gets (λ s, S (base.size (rd s)));
  vprintfmt_loop n (2 * n) fmt ap.

Definition printfmt (fmt : Z) (ap : list Z) : M W unit := vprintfmt fmt ap.
End printfmt.

(** ** Printing into a buffer *)

Record sprintbuf := Sprintbuf { sb_buf : Z; sb_ebuf : Z; sb_cnt : Z }.

Definition sprintputch (ch : Z) : M (cmem * sprintbuf) unit :=
  modify (λ '(m, b), (m, Sprintbuf (sb_buf b) (sb_ebuf b) (s32 (sb_cnt b + 1))));;
  b ← gets snd;
  if sb_buf b <? sb_ebuf b then
    zoom fst (λ m s, (m, s.2)) (store (sb_buf b) ch);;
    modify (λ '(m, b), (m, Sprintbuf (sb_buf b + 1) (sb_ebuf b) (sb_cnt b)))
  else mret tt.

Definition vsnprintf `{Rodata} (buf n fmt : Z) (ap : list Z) : M cmem Z :=
  if (buf =? NULL) || (n <? 1) then mret (- EINVAL)
  else λ m,
    (match (vprintfmt fst sprintputch fmt ap;;
            b ← gets snd;
            zoom fst (λ m s, (m, s.2)) (store (sb_buf b) 0);;
            b ← gets snd;
            mret (sb_cnt b)) (m, Sprintbuf buf (buf + n - 1) 0) with
     | OK r (m', _) => OK r m'
     | Stop e (m', _) => Stop e m'
     end).

Definition snprintf `{Rodata} (buf n fmt : Z) (ap : list Z) : M cmem Z := vsnprintf buf n fmt ap.

(** ** The user-level [printf] *)

(** [struct printbuf], with the [puts] calls made so far: what each printed. *)
Record printbuf := Printbuf { pb_idx : Z; pb_cnt : Z; pb_buf : list Z; pb_out : list (list Z) }.

(** [puts(b->buf, b->idx)] *)
Definition puts_buf : M (cmem * printbuf) unit :=
  modify (λ '(m, b), (m, Printbuf (pb_idx b) (pb_cnt b) (pb_buf b)
    (pb_out b ++ [take (Z.to_nat (pb_idx b)) (pb_buf b)]))).

Definition user_putch (ch : Z) : M (cmem * printbuf) unit :=
  b ← gets snd;
  (if (0 <=? pb_idx b) && (pb_idx b <? 256) then
     modify (λ '(m, b), (m, Printbuf (pb_idx b + 1) (pb_cnt b) (<[Z.to_nat (pb_idx b) := u8 ch]> (pb_buf b)) (pb_out b)))
   else halt Fault);;
  b ← gets snd;
  (if pb_idx b =? 256 - 1 then
     puts_buf;;
     modify (λ '(m, b), (m, Printbuf 0 (pb_cnt b) (pb_buf b) (pb_out b)))
   else mret tt);;
  modify (λ '(m, b), (m, Printbuf (pb_idx b) (s32 (pb_cnt b + 1)) (pb_buf b) (pb_out b))).

(** [buf] is the uninitialised array; the first component of the state is
    memory, the second what the earlier [puts] printed.  *)
Definition vprintf `{Rodata} (buf : list Z) (fmt : Z) (ap : list Z) : M (cmem * list (list Z)) Z := λ '(m, out),
  match (vprintfmt fst user_putch fmt ap;; puts_buf;; b ← gets snd; mret (pb_cnt b)) (m, Printbuf 0 0 buf out) with
  | OK r (m', b) => OK r (m', pb_out b)
  | Stop e (m', b) => Stop e (m', pb_out b)
  end.

Definition printf `{Rodata} (buf : list Z) (fmt : Z) (ap : list Z) : M (cmem * list (list Z)) Z := vprintf buf fmt ap.

(** ** The kernel's [cprintf] *)

(** What the console has shown, its lock and the CPU that prints. *)
Record kconsole := KConsole { kc_mem : cmem; kc_out : list Z; console_lock : spinlock; kc_cpu : Z }.

Definition set_console_lock (l : spinlock) (c : kconsole) : kconsole := KConsole (kc_mem c) (kc_out c) l (kc_cpu c).

(** [cputchar(ch); *cnt++;]: the increment moves the local pointer. *)
Definition kernel_putch (ch : Z) : M kconsole unit :=
  modify (λ c, KConsole (kc_mem c) (kc_out c ++ [ch]) (console_lock c) (kc_cpu c)).

(** [file] is the name of kernel/printf.c. *)
Definition vcprintf `{Rodata} (file fmt : Z) (ap : list Z) : M kconsole Z :=
  c ← gets id;
  already_locked ← (if negb (lock_cpu (console_lock c) =? kc_cpu c)
    then zoom console_lock set_console_lock (spin_lock (kc_cpu c) file 27);; mret false
    else mret true);
  vprintfmt kc_mem kernel_putch fmt ap;;
  (if (already_locked : bool) then mret tt
   else zoom console_lock set_console_lock (spin_unlock (kc_cpu c)));;
  mret 0.

Definition cprintf `{Rodata} (file fmt : Z) (ap : list Z) : M kconsole Z := vcprintf file fmt ap.
