(* ===== verification/PrintfProofs.v ===== *)
(** * Formatted output: proofs

    The reference sink [trace_putch] records the characters printed.  A
    simulation relates every other sink to it, so what a format prints is
    stated once ([formatted]) and the sinks differ only in what they do with
    the characters. *)

From S2P Require Import Prelude LinkedList Spinlock CString Printf.

Local Open Scope Z_scope.

(** The memory, which printing does not change, and the characters printed. *)
Abbreviation trace := (cmem * list Z)%type.

Definition trace_putch (ch : Z) : M trace unit := modify (λ '(m, out), (m, out ++ [ch])).

(** The format at [fmt] prints [out] with the arguments [ap]. *)
Definition formatted `{Rodata} (m : cmem) (fmt : Z) (ap : list Z) (out : list Z) : Prop :=
  vprintfmt fst trace_putch fmt ap (m, []) = OK tt (m, out).

(** ** Simulation *)

Section simulation.
Context {W : Type} `{Rodata} (rd : W → cmem) (putch : Z → M W unit) (R : W → trace → Prop).

(** Whenever the reference run returns, the other one returns the same value
    in a related state. *)
Definition sim {A} (c : M W A) (d : M trace A) : Prop :=
  ∀ s t a t', R s t → d t = OK a t' → ∃ s', c s = OK a s' ∧ R s' t'.

Hypothesis R_mem : ∀ s t, R s t → t.1 ⊆ rd s.
Hypothesis R_put : ∀ s m out ch, R s (m, out) → ∃ s', putch ch s = OK tt s' ∧ R s' (m, out ++ [ch]).

Lemma sim_ret {A} (a : A) : sim (mret a) (mret a).
Proof. intros s t a' t' HR [= <- <-]. by exists s. Qed.

Lemma sim_halt {A} (c : M W A) e : sim c (halt e).
Proof. intros s t a' t' HR [=]. Qed.

Lemma sim_bind {A B} (c : M W A) d (f : A → M W B) g : sim c d → (∀ a, sim (f a) (g a)) → sim (c ≫= f) (d ≫= g).
Proof.
  intros Hc Hf s t b t' HR. unfold mbind, M_bind. destruct (d t) as [a t1|] eqn:E; [|done]. intros Eg.
  destruct (Hc s t a t1 HR E) as (s1 & -> & HR1). by apply (Hf a s1 t1).
Qed.

Lemma sim_putch ch : sim (putch ch) (trace_putch ch).
Proof.
  intros s [m out] [] t' HR [= <-]. destruct (R_put s m out ch HR) as (s' & E & HR'). by exists s'.
Qed.

Lemma sim_peek a : sim (peek rd a) (peek fst a).
Proof.
  intros s t b t' HR. unfold peek, deref. destruct (t.1 !! a) as [c|] eqn:E; [|done]. intros [= <- <-].
  rewrite (lookup_weaken _ _ _ _ E (R_mem s t HR)). by exists s.
Qed.

(** Loops that only read run the same way in a larger memory. *)
Lemma strnlen_loop_mono fuel fuel' m m' s size n r : m ⊆ m' → (fuel ≤ fuel')%nat →
  strnlen_loop fuel s size n m = OK r m → strnlen_loop fuel' s size n m' = OK r m'.
Proof.
  intros Hm. revert fuel' s size n. induction fuel as [|fuel IH]; intros fuel' s size n Hf; [done|].
  destruct fuel' as [|fuel']; [lia|]. simpl. destruct (0 <? size); [|by intros [= <-]].
  unfold mbind, M_bind, load, deref. destruct (m !! s) as [c|] eqn:E; [|done].
  rewrite (lookup_weaken _ _ _ _ E Hm). destruct (c =? 0); [by intros [= <-]|]. apply IH. lia.
Qed.

Lemma strnlen_loop_state fuel m s size n r m' : strnlen_loop fuel s size n m = OK r m' → m' = m.
Proof.
  revert s size n. induction fuel as [|fuel IH]; intros s size n; [done|]. simpl.
  destruct (0 <? size); [|by intros [= _ <-]]. unfold mbind, M_bind, load, deref. destruct (m !! s) as [c|]; [|done].
  destruct (c =? 0); [by intros [= _ <-]|]. apply IH.
Qed.

Lemma sim_strnlen p n : sim (reads rd (strnlen p n)) (reads fst (strnlen p n)).
Proof.
  intros s t b t' HR. unfold reads, zoom, strnlen, rounds, gets, mbind, M_bind.
  destruct (strnlen_loop _ p n 0 t.1) as [r m1|] eqn:E; [|done]. intros [= <- <-].
  pose proof (strnlen_loop_state _ _ _ _ _ _ _ E); subst m1. pose proof (R_mem s t HR) as Hm.
  assert (base.size t.1 ≤ base.size (rd s))%nat as Hsz by (by apply map_subseteq_size).
  rewrite (strnlen_loop_mono _ (S (base.size (rd s))) t.1 (rd s) p n 0 r Hm (le_n_S _ _ Hsz) E).
  by exists s.
Qed.

Lemma sim_pad n c : sim (pad putch n c) (pad trace_putch n c).
Proof. induction n as [|n IH]; simpl; [apply sim_ret|]. apply sim_bind; [apply sim_putch|done]. Qed.

Lemma sim_printnum fuel num base w p : sim (printnum putch fuel num base w p) (printnum trace_putch fuel num base w p).
Proof.
  revert num w. induction fuel as [|fuel IH]; intros num w; simpl; [apply sim_halt|].
  apply sim_bind; [|intros _; apply sim_putch]. destruct (base <=? num); [apply IH|apply sim_pad].
Qed.

Lemma sim_va_arg ap : sim (va_arg ap) (va_arg ap).
Proof. destruct ap; [apply sim_halt|apply sim_ret]. Qed.

Lemma sim_scan_width fuel fuel' fmt ch p : (fuel ≤ fuel')%nat → sim (scan_width rd fuel' fmt ch p) (scan_width fst fuel fmt ch p).
Proof.
  revert fuel' fmt ch p. induction fuel as [|fuel IH]; intros fuel' fmt ch p Hf; [apply sim_halt|].
  destruct fuel' as [|fuel']; [lia|]. cbn [scan_width]. apply sim_bind; [apply sim_peek|]. intros c.
  destruct (_ || _); [apply sim_ret|apply IH; lia].
Qed.

Lemma sim_reswitch fuel fuel' fmt ap f : (fuel ≤ fuel')%nat → sim (reswitch rd fuel' fmt ap f) (reswitch fst fuel fmt ap f).
Proof.
  revert fuel' fmt ap f. induction fuel as [|fuel IH]; intros fuel' fmt ap f Hf; [apply sim_halt|].
  destruct fuel' as [|fuel']; [lia|]. cbn [reswitch]. apply sim_bind; [apply sim_peek|]. intros c. cbv zeta.
  repeat match goal with |- sim (if ?b then _ else _) _ => destruct b end;
    first [apply sim_ret|apply IH; lia|apply sim_bind; [|intros [? ?]; apply IH; lia]].
  - apply sim_scan_width. lia.
  - apply sim_va_arg.
Qed.

Lemma sim_put_string fuel fuel' p f : (fuel ≤ fuel')%nat → sim (put_string rd putch fuel' p f) (put_string fst trace_putch fuel p f).
Proof.
  revert fuel' p f. induction fuel as [|fuel IH]; intros fuel' p f Hf; [apply sim_halt|].
  destruct fuel' as [|fuel']; [lia|]. cbn [put_string]. apply sim_bind; [apply sim_peek|]. intros c. cbv zeta.
  destruct (_ =? 0); [apply sim_ret|]. destruct (negb _); [apply sim_ret|].
  apply sim_bind; [apply sim_putch|]. intros _. apply IH. lia.
Qed.

Lemma sim_print_s fuel fuel' p f : (fuel ≤ fuel')%nat → sim (print_s rd putch fuel' p f) (print_s fst trace_putch fuel p f).
Proof.
  intros Hf. unfold print_s. apply sim_bind.
  - destruct (_ && _); [|apply sim_ret]. apply sim_bind; [apply sim_strnlen|]. intros len.
    apply sim_bind; [apply sim_pad|]. intros _. apply sim_ret.
  - intros w. apply sim_bind; [by apply sim_put_string|]. intros w'. apply sim_pad.
Qed.

Lemma sim_back fuel fuel' fmt : (fuel ≤ fuel')%nat → sim (back_to_percent rd fuel' fmt) (back_to_percent fst fuel fmt).
Proof.
  revert fuel' fmt. induction fuel as [|fuel IH]; intros fuel' fmt Hf; [apply sim_halt|].
  destruct fuel' as [|fuel']; [lia|]. cbn [back_to_percent]. apply sim_bind; [apply sim_peek|]. intros c.
  destruct (_ =? 37); [apply sim_ret|apply IH; lia].
Qed.

Lemma sim_vprintfmt_loop inner inner' fuel fuel' fmt ap : (inner ≤ inner')%nat → (fuel ≤ fuel')%nat →
  sim (vprintfmt_loop rd putch inner' fuel' fmt ap) (vprintfmt_loop fst trace_putch inner fuel fmt ap).
Proof.
  intros Hi. revert fuel' fmt ap. induction fuel as [|fuel IH]; intros fuel' fmt ap Hf; [apply sim_halt|].
  destruct fuel' as [|fuel']; [lia|]. assert (fuel ≤ fuel')%nat as Hf' by lia.
  assert (∀ num base w p fmt ap, sim (printnum putch num_fuel num base w p;; vprintfmt_loop rd putch inner' fuel' fmt ap)
    (printnum trace_putch num_fuel num base w p;; vprintfmt_loop fst trace_putch inner fuel fmt ap)) as Hnum.
  { intros. apply sim_bind; [apply sim_printnum|]. intros _. by apply IH. }
  assert (∀ ch fmt ap, sim (putch ch;; vprintfmt_loop rd putch inner' fuel' fmt ap)
    (trace_putch ch;; vprintfmt_loop fst trace_putch inner fuel fmt ap)) as Hput.
  { intros. apply sim_bind; [apply sim_putch|]. intros _. by apply IH. }
  assert (∀ ap l, sim (getuint ap l) (getuint ap l)) as Huint.
  { intros. apply sim_bind; [apply sim_va_arg|]. intros []. apply sim_ret. }
  cbn [vprintfmt_loop]. apply sim_bind; [apply sim_peek|]. intros c.
  destruct (c =? 0); [apply sim_ret|]. destruct (negb _); [apply Hput|].
  apply sim_bind; [by apply sim_reswitch|]. intros [[[ch fmt'] ap'] f]. cbv zeta.
  destruct (ch =? 99); [apply sim_bind; [apply sim_va_arg|]; intros []; apply Hput|].
  destruct (ch =? 101).
  { apply sim_bind; [apply sim_va_arg|]. intros [a ap'']. apply sim_bind; [destruct (_ || _); by apply IH|].
    intros _. by apply IH. }
  destruct (ch =? 115).
  { apply sim_bind; [apply sim_va_arg|]. intros []. apply sim_bind; [by apply sim_print_s|]. intros _. by apply IH. }
  destruct (ch =? 100).
  { apply sim_bind; [apply sim_bind; [apply sim_va_arg|]; intros []; apply sim_ret|]. intros [num ap''].
    destruct (num <? 0); [apply sim_bind; [apply sim_putch|]; intros _|]; apply Hnum. }
  destruct (ch =? 117); [apply sim_bind; [apply Huint|]; intros []; apply Hnum|].
  destruct (ch =? 111); [apply sim_bind; [apply Huint|]; intros []; apply Hnum|].
  destruct (ch =? 112).
  { apply sim_bind; [apply sim_putch|]. intros _. apply sim_bind; [apply sim_putch|]. intros _.
    apply sim_bind; [apply sim_va_arg|]. intros []. apply Hnum. }
  destruct (ch =? 120); [apply sim_bind; [apply Huint|]; intros []; apply Hnum|].
  destruct (ch =? 37); [apply Hput|].
  apply sim_bind; [apply sim_putch|]. intros _. apply sim_bind; [by apply sim_back|]. intros fmt''. by apply IH.
Qed.

Lemma sim_vprintfmt s m fmt ap out : R s (m, []) → formatted m fmt ap out →
  ∃ s', vprintfmt rd putch fmt ap s = OK tt s' ∧ R s' (m, out).
Proof.
  intros HR Hf. assert (base.size m ≤ base.size (rd s))%nat as Hsz by (apply map_subseteq_size, (R_mem _ _ HR)).
  exact (sim_vprintfmt_loop _ _ _ _ fmt ap (le_n_S _ _ Hsz) (Nat.mul_le_mono_l _ _ 2 (le_n_S _ _ Hsz)) s (m, []) tt (m, out) HR Hf).
Qed.
End simulation.

(** ** The sinks *)

Section sinks.
Context `{Rodata}.

(** The memory without the buffer, which a format must not refer to. *)
Definition outside_buffer (m : cmem) (buf n : Z) : cmem := filter (λ x, ¬ (buf ≤ x.1 < buf + n)) m.

(** [vsnprintf] after printing [out]. *)
Record sprinted (m : cmem) (buf n : Z) (s : cmem * sprintbuf) (out : list Z) : Prop := {
  spr_buf : sb_buf s.2 = buf + Z.of_nat (Nat.min (length out) (Z.to_nat (n - 1)));
  spr_ebuf : sb_ebuf s.2 = buf + n - 1;
  spr_cnt : sb_cnt s.2 = s32 (Z.of_nat (length out));
  spr_mem x : s.1 !! x = if decide (buf ≤ x < buf + Z.of_nat (Nat.min (length out) (Z.to_nat (n - 1))))
    then u8 <$> out !! Z.to_nat (x - buf) else m !! x;
}.

Lemma sprintputch_spec m buf n s out ch : 1 ≤ n → block m buf n → sprinted m buf n s out →
  ∃ s', sprintputch ch s = OK tt s' ∧ sprinted m buf n s' (out ++ [ch]).
Proof.
  intros Hn Hb [Hbuf He Hc Hm]. destruct s as [mm [b e c]]. simpl in *. subst b e c.
  unfold sprintputch, mbind, M_bind, modify, gets. cbn [snd sb_buf sb_ebuf sb_cnt].
  rewrite s32_succ. destruct (_ <? _) eqn:E; [apply Z.ltb_lt in E|apply Z.ltb_ge in E].
  - set (k := Nat.min (length out) (Z.to_nat (n - 1))) in *. assert (k = length out ∧ Z.of_nat k < n - 1) as [Hk Hkn] by lia.
    destruct (Hm (buf + Z.of_nat k)). unfold zoom, store, load, deref, mbind, M_bind, modify. cbn [fst].
    destruct (mm !! (buf + Z.of_nat k)) as [v|] eqn:Ev.
    2: { rewrite Hm, decide_False in Ev by lia. destruct (Hb (buf + Z.of_nat k) ltac:(lia)) as [w Hw]. congruence. }
    eexists. split; [done|]. assert (Nat.min (length (out ++ [ch])) (Z.to_nat (n - 1)) = S k) as Ek by (rewrite length_app; simpl; lia).
    split; cbn [fst snd sb_buf sb_ebuf sb_cnt]; rewrite ?Ek; [lia|done|rewrite length_app; simpl; f_equal; lia|].
    intros x. rewrite lookup_insert. case_decide as Ex.
    + subst x. rewrite decide_True by lia. rewrite lookup_app_r by lia.
      replace (Z.to_nat (buf + Z.of_nat k - buf) - length out)%nat with O by lia. done.
    + rewrite Hm. repeat case_decide; try lia; [|done]. by rewrite lookup_app_l by lia.
  - eexists. split; [done|]. assert (Nat.min (length (out ++ [ch])) (Z.to_nat (n - 1)) = Nat.min (length out) (Z.to_nat (n - 1))) as Ek
      by (rewrite length_app; simpl; lia).
    split; cbn [fst snd sb_buf sb_ebuf sb_cnt]; rewrite ?Ek; [done|done|rewrite length_app; simpl; f_equal; lia|].
    intros x. rewrite Hm. case_decide; [|done]. by rewrite lookup_app_l by lia.
Qed.

(** C24 (functional).  [vsnprintf] into a buffer of [n > 0] bytes stores the
    first [n - 1] characters of what the format prints, or all of them, and a
    NUL; it writes nothing else, and returns the number of characters the
    whole output has. *)
Theorem vsnprintf_correct m buf n fmt ap out : buf ≠ NULL → 1 ≤ n → block m buf n →
  formatted (outside_buffer m buf n) fmt ap out → Z.of_nat (length out) < 2 ^ 31 →
  let k := Z.of_nat (Nat.min (length out) (Z.to_nat (n - 1))) in
  ∃ m', vsnprintf buf n fmt ap m = OK (Z.of_nat (length out)) m' ∧
    ∀ x, m' !! x = if decide (buf ≤ x < buf + k) then u8 <$> out !! Z.to_nat (x - buf)
      else if decide (x = buf + k) then Some 0 else m !! x.
Proof.
  intros Hbuf Hn Hb Hf Hlen k.
  destruct (sim_vprintfmt fst sprintputch (λ s t, t.1 = outside_buffer m buf n ∧ sprinted m buf n s t.2)) with
    (s := (m, Sprintbuf buf (buf + n - 1) 0)) (m := (outside_buffer m buf n)) (fmt := fmt) (ap := ap) (out := out) as (s' & E & _ & Hs').
  - intros s [m0 o] [Em Hs]. simpl in Em. subst m0. apply map_subseteq_spec. intros a b [Ha Hab]%map_lookup_filter_Some.
    rewrite (spr_mem _ _ _ _ _ Hs), decide_False; [done|]. simpl in Hab. lia.
  - intros s m0 o ch [Em Hs]. destruct (sprintputch_spec m buf n s o ch Hn Hb Hs) as (s' & E & Hs'). by exists s'.
  - split; [done|]. split; simpl; [lia|done|done|]. intros x. by rewrite decide_False by lia.
  - done.
  - unfold vsnprintf. rewrite (proj2 (Z.eqb_neq _ _) Hbuf), (proj2 (Z.ltb_ge _ _)) by lia. cbn [orb].
    unfold mbind, M_bind, gets in *. rewrite E. destruct Hs' as [Hsb _ Hc Hm]. destruct s' as [mm b]. cbn [fst snd] in *. fold k in Hsb, Hm.
    unfold zoom, store, load, deref, mbind, M_bind, modify. cbn [fst snd]. rewrite Hsb.
    destruct (mm !! (buf + k)) as [v|] eqn:Ev.
    2: { rewrite Hm, decide_False in Ev by lia. destruct (Hb (buf + k)) as [w Hw]; [unfold k; lia|]. congruence. }
    cbn [snd mret M_ret]. exists (<[buf + k := u8 0]> mm). split; [rewrite Hc; f_equal; unfold s32; rewrite Z.mod_small; lia|].
    intros x. rewrite lookup_insert. repeat case_decide; try lia; try done; rewrite Hm.
    + by rewrite decide_True.
    + by rewrite decide_False.
Qed.

(** The user-level buffer after printing [out]: the characters are in the
    system calls made and in the buffer. *)
Record buffered (prev : list (list Z)) (b : printbuf) (out : list Z) : Prop := {
  bu_len : length (pb_buf b) = 256%nat;
  bu_idx : 0 ≤ pb_idx b < 255;
  bu_cnt : pb_cnt b = s32 (Z.of_nat (length out));
  bu_out : ∃ chunks, pb_out b = prev ++ chunks ∧ Forall (λ c, (length c ≤ 255)%nat) chunks ∧
    concat chunks ++ take (Z.to_nat (pb_idx b)) (pb_buf b) = u8 <$> out;
}.

Lemma user_putch_spec m prev b out ch : buffered prev b out →
  ∃ b', user_putch ch (m, b) = OK tt (m, b') ∧ buffered prev b' (out ++ [ch]).
Proof.
  intros [Hl Hi Hc (chunks & Ho & Hch & Hcat)]. destruct b as [i c bf o]. simpl in *.
  unfold user_putch, puts_buf, mbind, M_bind, gets, modify. cbn [snd pb_idx pb_cnt pb_buf pb_out].
  rewrite (proj2 (Z.leb_le _ _)), (proj2 (Z.ltb_lt _ _)) by lia. cbn [andb snd pb_idx].
  set (bf' := <[Z.to_nat i:=u8 ch]> bf).
  assert (take (Z.to_nat (i + 1)) bf' = take (Z.to_nat i) bf ++ [u8 ch]) as Ht.
  { replace (Z.to_nat (i + 1)) with (S (Z.to_nat i)) by lia. unfold bf'.
    rewrite (take_S_r _ _ (u8 ch)) by (apply list_lookup_insert_eq; lia). by rewrite take_insert_ge by lia. }
  assert (u8 <$> (out ++ [ch]) = (u8 <$> out) ++ [u8 ch]) as Eo by (by rewrite fmap_app).
  assert (length bf' = 256%nat) as Hl' by (unfold bf'; by rewrite length_insert).
  assert (s32 (c + 1) = s32 (Z.of_nat (length (out ++ [ch])))) as Ec.
  { rewrite length_app, Hc, s32_succ. simpl. f_equal. lia. }
  destruct (i + 1 =? 256 - 1) eqn:E.
  - apply Z.eqb_eq in E. eexists. split; [done|]. split; cbn [pb_buf pb_idx pb_cnt pb_out]; [done|lia|done|].
    exists (chunks ++ [take (Z.to_nat (i + 1)) bf']). split; [by rewrite Ho, app_assoc|].
    split; [apply Forall_app; split; [done|]; constructor; [rewrite length_take; lia|done]|].
    change (take (Z.to_nat 0) bf') with (@nil Z). rewrite concat_app, app_nil_r, Ht. cbn [concat].
    by rewrite app_nil_r, app_assoc, Hcat, Eo.
  - apply Z.eqb_neq in E. eexists. split; [done|]. split; cbn [pb_buf pb_idx pb_cnt pb_out]; [done|lia|done|].
    exists chunks. split; [done|]. split; [done|]. fold bf'. by rewrite Ht, app_assoc, Hcat, Eo.
Qed.

(** The buffering of the user-level [printf] is invisible:
    the system calls print, one after the other, exactly the characters of the
    format, none prints more than 255 of them, and the result is their
    number. *)
Theorem printf_correct m prev buf fmt ap out : length buf = 256%nat → formatted m fmt ap out →
  Z.of_nat (length out) < 2 ^ 31 →
  ∃ chunks, printf buf fmt ap (m, prev) = OK (Z.of_nat (length out)) (m, prev ++ chunks) ∧
    concat chunks = u8 <$> out ∧ Forall (λ c, (length c ≤ 255)%nat) chunks.
Proof.
  intros Hl Hf Hlen.
  destruct (sim_vprintfmt fst user_putch (λ s t, t.1 = s.1 ∧ s.1 = m ∧ buffered prev s.2 t.2)) with
    (s := (m, Printbuf 0 0 buf prev)) (m := m) (fmt := fmt) (ap := ap) (out := out) as ([m' b] & E & _ & Em & Hb).
  - intros s t (-> & _ & _). done.
  - intros [m1 b] m0 o ch (Em0 & Em1 & Hb). simpl in *. subst m0 m1.
    destruct (user_putch_spec m prev b o ch Hb) as (b' & E & Hb'). exists (m, b'). done.
  - split; [done|]. split; [done|]. split; simpl; [done|lia|done|]. exists []. by rewrite app_nil_r.
  - done.
  - simpl in Em. subst m'. destruct Hb as [Hl' Hi Hc (chunks & Ho & Hch & Hcat)]. simpl in *.
    unfold printf, vprintf, puts_buf, mbind, M_bind, gets, modify in *. rewrite E. cbn [snd pb_out pb_cnt mret M_ret].
    exists (chunks ++ [take (Z.to_nat (pb_idx b)) (pb_buf b)]). split; [|split].
    + rewrite Ho, app_assoc, Hc. f_equal. unfold s32. rewrite Z.mod_small; lia.
    + rewrite concat_app. simpl. by rewrite app_nil_r.
    + apply Forall_app. split; [done|]. constructor; [rewrite length_take; lia|done].
Qed.

(** The kernel's [cprintf] shows the characters of the format and
    releases the console lock, but its result is 0 whatever it prints. *)
Theorem cprintf_returns_zero c file fmt ap out : is_free (console_lock c) → lock_cpu (console_lock c) ≠ kc_cpu c →
  formatted (kc_mem c) fmt ap out →
  ∃ c', cprintf file fmt ap c = OK 0 c' ∧ kc_out c' = kc_out c ++ out ∧ is_free (console_lock c').
Proof.
  intros Hfree Hcpu Hf. destruct c as [m o l me]. simpl in *.
  destruct (wp_elim _ _ _ (spin_lock_spec me file 27 l Hfree)) as ([] & l1 & El & Hheld).
  destruct (wp_elim _ _ _ (spin_unlock_spec me l1 Hheld)) as ([] & l2 & Eu & Hfree2).
  destruct (sim_vprintfmt kc_mem kernel_putch (λ s t, s = KConsole t.1 (o ++ t.2) l1 me)) with
    (s := (KConsole m o l1 me)) (m := m) (fmt := fmt) (ap := ap) (out := out) as (s & E & ->).
  - by intros s t ->.
  - intros s m0 o' ch ->. eexists. split; [done|]. simpl. by rewrite app_assoc.
  - simpl. by rewrite app_nil_r.
  - done.
  - assert (wp (cprintf file fmt ap) (λ r c', r = 0 ∧ c' = KConsole m (o ++ out) l2 me) (KConsole m o l me)) as Hw.
    + unfold cprintf, vcprintf. wp_step. apply wp_gets. cbn [id console_lock kc_cpu]. rewrite (proj2 (Z.eqb_neq _ _) Hcpu).
      cbn [negb]. wp_step. wp_step. apply wp_zoom. eapply wp_OK; [exact El|]. wp_step. wp_step.
      eapply wp_OK; [exact E|]. wp_step. apply wp_zoom. eapply wp_OK; [exact Eu|]. by wp_step.
    + destruct (wp_elim _ _ _ Hw) as (r & c' & E' & -> & ->). by exists (KConsole m (o ++ out) l2 me).
Qed.
End sinks.

(** ** Numbers *)

(** The digits of [num], the most significant first. *)
Fixpoint digits (fuel : nat) (base num : Z) : list Z :=
  match fuel with
  | O => []
  | S fuel => (if base <=? num then digits fuel base (num / base) else []) ++ [num `mod` base]
  end.

Definition value (base : Z) (v : Z) (ds : list Z) : Z := foldl (λ v d, v * base + d) v ds.

Section numbers.
Context `{Rodata} (base : Z) (Hbase : 2 ≤ base ≤ 16).

Lemma digits_range fuel num : Forall (λ d, 0 ≤ d < base) (digits fuel base num).
Proof.
  revert num. induction fuel as [|fuel IH]; intros num; simpl; [done|]. apply Forall_app. split.
  - case_match; [apply IH|done].
  - constructor; [apply Z.mod_pos_bound; lia|done].
Qed.

Lemma digits_fuel fuel num : 0 ≤ num < base ^ Z.of_nat (S fuel) → base ≤ num → 0 ≤ num / base < base ^ Z.of_nat fuel.
Proof.
  rewrite Nat2Z.inj_succ, Z.pow_succ_r by lia. intros Hn Hb. split; [apply Z.div_pos; lia|].
  apply Z.div_lt_upper_bound; lia.
Qed.

Lemma digits_value fuel num : 0 ≤ num < base ^ Z.of_nat fuel → value base 0 (digits fuel base num) = num.
Proof.
  revert num. induction fuel as [|fuel IH]; intros num Hn; [change (base ^ Z.of_nat 0) with 1 in Hn; simpl; lia|].
  cbn [digits]. unfold value in *. rewrite foldl_app. simpl. destruct (base <=? num) eqn:E.
  - apply Z.leb_le in E. rewrite IH by (by apply digits_fuel). pose proof (Z.div_mod num base). lia.
  - apply Z.leb_gt in E. simpl. rewrite Z.mod_small; lia.
Qed.

Lemma pad_trace n c m out : pad trace_putch n c (m, out) = OK tt (m, out ++ replicate n c).
Proof.
  revert out. induction n as [|n IH]; intros out; simpl; [by rewrite app_nil_r|].
  unfold mbind, M_bind, trace_putch at 1, modify. rewrite IH. by rewrite <-app_assoc.
Qed.

(** [printnum] prints the digits, padded on the left to the width. *)
Lemma printnum_trace fuel num w p m out : 0 ≤ num < base ^ Z.of_nat fuel → - 2 ^ 31 + Z.of_nat fuel ≤ w < 2 ^ 31 →
  (0 < fuel)%nat → let ds := digits fuel base num in
  printnum trace_putch fuel num base w p (m, out) =
    OK tt (m, out ++ replicate (Z.to_nat (w - Z.of_nat (length ds))) p ++ (digit_char <$> ds)).
Proof.
  revert num w. induction fuel as [|fuel IH]; intros num w Hn Hw Hf; [lia|]. cbv zeta. cbn [printnum digits].
  assert (s32 (w - 1) = w - 1) as -> by (unfold s32; rewrite Z.mod_small; lia).
  unfold mbind, M_bind. destruct (base <=? num) eqn:E.
  - apply Z.leb_le in E. pose proof (digits_fuel fuel num Hn E) as Hn'.
    assert (0 < fuel)%nat as Hf'. { destruct fuel; [|lia]. change (base ^ Z.of_nat 1) with (base ^ 1) in Hn. lia. }
    rewrite IH by (done || lia). unfold trace_putch, modify. rewrite length_app, fmap_app. simpl.
    rewrite <-!app_assoc. do 5 f_equal. lia.
  - apply Z.leb_gt in E. rewrite pad_trace. unfold trace_putch, modify. simpl. rewrite <-!app_assoc. done.
Qed.

Lemma digit_char_ok d : 0 ≤ d < 16 → digit_of (schar (digit_char d)) = Some d ∧ 48 ≤ digit_char d < 128.
Proof.
  intros Hd. assert (Forall (λ d, digit_of (schar (digit_char d)) = Some d ∧ 48 ≤ digit_char d < 128) (seqZ 0 16)) as Hall
    by (apply (bool_decide_unpack _); by vm_compute).
  rewrite Forall_forall in Hall. apply Hall, elem_of_seqZ. lia.
Qed.

Lemma s64_digit v d : s64 (s64 v * base + d) = s64 (v * base + d).
Proof.
  unfold s64. assert (∃ q, (v + 2 ^ 63) `mod` 2 ^ 64 - 2 ^ 63 = v - 2 ^ 64 * q) as [q ->].
  { exists ((v + 2 ^ 63) / 2 ^ 64). pose proof (Z.div_mod (v + 2 ^ 63) (2 ^ 64)). lia. }
  f_equal. replace ((v - 2 ^ 64 * q) * base + d + 2 ^ 63) with (v * base + d + 2 ^ 63 + (- (q * base)) * 2 ^ 64) by lia.
  by rewrite Z.mod_add.
Qed.

(** [strtol] reads the digits back, modulo 2^64. *)
Lemma strtol_digits_spec fuel m a v ds : cstr m a (digit_char <$> ds) → Forall (λ d, 0 ≤ d < base) ds →
  (length ds < fuel)%nat → strtol_digits fuel a base (s64 v) m = OK (a + Z.of_nat (length ds), s64 (value base v ds)) m.
Proof.
  revert fuel a v. induction ds as [|d ds IH]; intros fuel a v Hs Hr Hf; (destruct fuel as [|fuel]; [lia|]); simpl in *;
    unfold mbind, M_bind, load, deref.
  - rewrite Hs. simpl. by rewrite Z.add_0_r.
  - destruct Hs as (-> & _ & Hs). apply Forall_cons in Hr as [Hd Hr]. destruct (digit_char_ok d ltac:(lia)) as [-> _].
    rewrite (proj2 (Z.leb_gt _ _)) by lia. rewrite s64_digit, IH by (done || lia). unfold value. simpl. do 2 f_equal. lia.
Qed.
End numbers.

Section roundtrip.
Context `{Rodata}.

(** The output of [%ld]. *)
Definition decimal (x : Z) : list Z :=
  if x <? 0 then 45 :: (digit_char <$> digits num_fuel 10 (- x)) else digit_char <$> digits num_fuel 10 x.

Lemma wp_peek a b m o (Q : Z → trace → Prop) : m !! a = Some b → Q b (m, o) → wp (peek fst a) Q (m, o).
Proof. intros. by eapply wp_deref. Qed.

(** Evaluate the comparisons of a character. *)
Ltac eval_char := cbv [Z.eqb Pos.eqb negb Z.leb Z.compare Pos.compare Pos.compare_cont andb orb].

Lemma formatted_ld m fmt x : cstr m fmt [37; 108; 100] → - 2 ^ 63 ≤ x < 2 ^ 63 → formatted m fmt [x] (decimal x).
Proof.
  intros (H0 & _ & H1 & _ & H2 & _ & H3) Hx.
  assert (∃ k, S (base.size m) = S (S (S k))) as [k Ek].
  { assert (3 ≤ base.size m)%nat; [|exists (base.size m - 2)%nat; lia].
    apply (block_size m fmt). intros i Hi. assert (i = 0 ∨ i = 1 ∨ i = 2)%nat as [->|[->| ->]] by lia.
    - rewrite Z.add_0_r. eauto.
    - eauto.
    - replace (fmt + Z.of_nat 2) with (fmt + 1 + 1) by lia. eauto. }
  assert (∀ num o (Q : unit → trace → Prop), 0 ≤ num < 2 ^ 64 → Q tt (m, o ++ (digit_char <$> digits num_fuel 10 num)) →
    wp (printnum trace_putch num_fuel num 10 (-1) 32) Q (m, o)) as Hnum.
  { intros num o Q Hn HQ. eapply wp_OK; [apply (printnum_trace 10 ltac:(lia))|].
    - change (10 ^ Z.of_nat num_fuel) with (10 ^ 65). lia.
    - change (Z.of_nat num_fuel) with 65. lia.
    - unfold num_fuel. lia.
    - replace (Z.to_nat (-1 - _)) with O by lia. done. }
  apply (wp_run _ _ tt). unfold vprintfmt. wp_step. apply wp_gets. cbn [fst]. rewrite Ek.
  replace (2 * S (S (S k)))%nat with (S (S (k + k + 4)))%nat by lia.
  assert (∀ o, wp (vprintfmt_loop fst trace_putch (S (S (S k))) (S (k + k + 4)) (fmt + 1 + 1 + 1) [])
    (λ _ t, t = (m, o)) (m, o)) as Hend.
  { intros o. cbn [vprintfmt_loop]. wp_step. eapply wp_peek; [exact H3|]. eval_char. by wp_step. }
  remember (S (k + k + 4)) as k' eqn:Ek'. cbn [vprintfmt_loop]. wp_step. eapply wp_peek; [exact H0|]. eval_char.
  wp_step. cbn [reswitch]. wp_step. eapply wp_peek; [exact H1|]. eval_char. fold (@reswitch trace). cbn [reswitch].
  wp_step. eapply wp_peek; [exact H2|]. eval_char. wp_step. cbv iota beta. eval_char. wp_step. unfold getint. wp_step.
  cbn [va_arg]. wp_step. wp_step. cbn [lflag set_lflag spec0].
  assert ((if 2 <=? s32 (0 + 1) then s64 x else if negb (s32 (0 + 1) =? 0) then s64 x else s32 x) = x) as ->.
  { change (s64 x = x). unfold s64. rewrite Z.mod_small; lia. }
  cbn [width padc spec0 set_lflag]. unfold decimal. destruct (x <? 0) eqn:E.
  - apply Z.ltb_lt in E. wp_step. eapply wp_OK; [done|]. wp_step.
    assert (u64 (- x) = - x) as -> by (apply Z.mod_small; lia). apply Hnum; [lia|].
    eapply wp_mono; [apply Hend|]. by intros [] t ->.
  - apply Z.ltb_ge in E. wp_step. apply Hnum; [lia|]. eapply wp_mono; [apply Hend|]. by intros [] t ->.
Qed.

(** A printed number starts with a digit. *)
Lemma digits_head m a fuel num : cstr m a (digit_char <$> digits (S fuel) 10 num) → ∃ c, m !! a = Some c ∧ 48 ≤ c < 128.
Proof.
  intros Hs. pose proof (digits_range 10 ltac:(lia) (S fuel) num) as Hr.
  destruct (digits (S fuel) 10 num) as [|d ds] eqn:E.
  { cbn [digits] in E. by apply app_eq_nil in E as [_ ?]. }
  apply Forall_cons in Hr as [Hd _]. destruct Hs as (Hs & _ & _). eexists. split; [exact Hs|]. apply digit_char_ok. lia.
Qed.

(** From the sign on, [strtol] reads back what was printed. *)
Lemma strtol_tail fuel m a num : cstr m a (digit_char <$> digits num_fuel 10 num) → 0 ≤ num < 10 ^ 65 →
  (base.size m < fuel)%nat →
  strtol_digits fuel a 10 0 m = OK (a + Z.of_nat (length (digits num_fuel 10 num)), s64 num) m.
Proof.
  intros Hs Hn Hf. change 0 with (s64 0) at 1. rewrite (strtol_digits_spec 10 ltac:(lia)) with (ds := digits num_fuel 10 num).
  - by rewrite (digits_value 10 ltac:(lia)).
  - done.
  - apply digits_range. lia.
  - pose proof (cstr_size _ _ _ Hs) as Hsz. rewrite length_fmap in Hsz. lia.
Qed.

Lemma strtol_decimal m a x : cstr m a (decimal x) → - 2 ^ 63 ≤ x < 2 ^ 63 →
  strtol a 10 m = OK (x, a + Z.of_nat (length (decimal x))) m.
Proof.
  intros Hs Hx. apply wp_run. unfold strtol. wp_step. apply wp_gets. wp_step. cbn [skip_blanks].
  assert (s64 x = x) as Esx by (unfold s64; rewrite Z.mod_small; lia).
  unfold decimal in *. destruct (x <? 0) eqn:E; [apply Z.ltb_lt in E|apply Z.ltb_ge in E].
  - destruct Hs as (H0 & _ & Hs). destruct (digits_head m (a + 1) 64 (- x) Hs) as (c & Hc & Hcr).
    wp_step. eapply wp_load; [exact H0|]. eval_char. wp_step. wp_step. eapply wp_load; [exact H0|]. eval_char.
    wp_step. wp_step. wp_step. eapply wp_load; [exact Hc|]. eval_char. wp_step. wp_step. cbv zeta iota. wp_step.
    eapply wp_OK; [apply strtol_tail; [exact Hs|lia|lia]|]. cbv iota. wp_step. split; [|done]. f_equal.
    + rewrite <-Esx at 2. unfold s64. mlia.
    + cbn [length]. rewrite length_fmap. lia.
  - destruct (digits_head m a 64 x Hs) as (c & Hc & Hcr).
    wp_step. eapply wp_load; [exact Hc|]. rewrite !(proj2 (Z.eqb_neq c _)) by lia. cbn [orb].
    wp_step. wp_step. eapply wp_load; [exact Hc|]. rewrite !(proj2 (Z.eqb_neq c _)) by lia.
    wp_step. wp_step. wp_step. eapply wp_load; [exact Hc|]. eval_char. wp_step. wp_step. cbv zeta iota. wp_step.
    eapply wp_OK; [apply strtol_tail; [exact Hs|lia|lia]|]. cbv iota. wp_step. split; [|done]. by rewrite length_fmap, Esx.
Qed.

(** C25 (roundtrip).  Printing any 64-bit integer with [%ld] and reading the
    result with [strtol] in base 10 gives the integer back, with the end pointer
    after its last digit. *)
Theorem print_strtol_roundtrip m fmt x : cstr m fmt [37; 108; 100] → - 2 ^ 63 ≤ x < 2 ^ 63 →
  ∃ out, formatted m fmt [x] out ∧ ∀ m' a, cstr m' a out → strtol a 10 m' = OK (x, a + Z.of_nat (length out)) m'.
Proof.
  intros Hs Hx. exists (decimal x). split; [by apply formatted_ld|]. intros m' a Ha. by apply strtol_decimal.
Qed.
End roundtrip.

(** ** The properties on concrete formats *)

(** The literals from 500 on, the format ["%s=%5d|"] at 100, the string
    ["ab"] at 120, ["%ld"] at 130 and a buffer at 200. *)
#[local] Instance demo_rodata : Rodata := {| lit_null := 500; lit_error := 510; lit_s := 520; error_string := λ _, NULL |}.

Definition put_bytes (a : Z) (bs : list Z) (m : cmem) : cmem := list_to_map (zip (seqZ a (Z.of_nat (length bs))) bs) ∪ m.

Definition demo_format : cmem :=
  put_bytes 100 [37; 115; 61; 37; 53; 100; 124; 0] (put_bytes 120 [97; 98; 0] (put_bytes 130 [37; 108; 100; 0]
    (put_bytes 200 (replicate 8 7) ∅))).

(** ["ab=-   42|"]: the sign comes before the padding and is not counted in
    the width. *)
Definition demo_output : list Z := [97; 98; 61; 45; 32; 32; 32; 52; 50; 124].

Lemma vsnprintf_correct_witness : ∃ m', vsnprintf 200 8 100 [120; 2 ^ 64 - 42] demo_format = OK 10 m' ∧
  m' !! 206 = Some 32 ∧ m' !! 207 = Some 0.
Proof.
  destruct (vsnprintf_correct demo_format 200 8 100 [120; 2 ^ 64 - 42] demo_output) as (m' & E & Hm').
  - done.
  - lia.
  - intros x Hx. assert (x ∈ seqZ 200 8) as Hin by (apply elem_of_seqZ; lia).
    assert (Forall (λ x, is_Some (demo_format !! x)) (seqZ 200 8)) as Hall.
    { apply (bool_decide_unpack _). by vm_compute. }
    rewrite Forall_forall in Hall. by apply Hall.
  - by vm_compute.
  - by vm_compute.
  - exists m'. split; [exact E|]. rewrite !Hm'. split; reflexivity.
Defined.

Lemma printf_correct_witness : ∃ chunks, printf (replicate 256 0) 100 [120; 2 ^ 64 - 42] (demo_format, []) =
  OK 10 (demo_format, chunks) ∧ concat chunks = demo_output.
Proof.
  destruct (printf_correct demo_format [] (replicate 256 0) 100 [120; 2 ^ 64 - 42] demo_output) as (chunks & E & Hc & _).
  - reflexivity.
  - by vm_compute.
  - by vm_compute.
  - exists chunks. split; [exact E|exact Hc].
Defined.

Lemma cprintf_returns_zero_witness : ∃ c', cprintf 0 100 [120; 2 ^ 64 - 42] (KConsole demo_format [] (SpinLock 0 0 0 0 0) 5) = OK 0 c' ∧
  kc_out c' = demo_output.
Proof.
  destruct (cprintf_returns_zero (KConsole demo_format [] (SpinLock 0 0 0 0 0) 5) 0 100 [120; 2 ^ 64 - 42] demo_output)
    as (c' & E & Ho & _).
  - reflexivity.
  - done.
  - by vm_compute.
  - exists c'. split; [exact E|exact Ho].
Defined.

Lemma print_strtol_roundtrip_witness : ∃ out, formatted demo_format 130 [- 2 ^ 63] out ∧
  ∀ m' a, cstr m' a out → strtol a 10 m' = OK (- 2 ^ 63, a + Z.of_nat (length out)) m'.
Proof. apply print_strtol_roundtrip; [by vm_compute|lia]. Defined.
