(* ===== verification/Clock.v ===== *)
(** * Calendar time and the real-time clock (lib/time.c, kernel/rtc.c)

    [tm_to_time] is compared with a calendar defined by counting days; the
    clock is the CMOS with its address and data ports. *)

From S2P Require Import Prelude.

Local Open Scope Z_scope.

(** [struct tm] *)
Record tm := Tm { tm_sec : Z; tm_min : Z; tm_hour : Z; tm_mday : Z; tm_mon : Z; tm_year : Z }.

(** ** lib/time.c *)

Definition Q (a b : Z) : Z := if 0 <? a then Z.quot a b else - Z.quot (b - a - 1) b.

Definition days_at_month : list Z := [0; 31; 59; 90; 120; 151; 181; 212; 243; 273; 304; 334].

Definition b2z (b : bool) : Z := if b then 1 else 0.

(** The result, [None] when the month indexes past the table.  [day] is an
    [int]; the products with [tm_hour] and [tm_min] are computed as [int]. *)
Definition tm_to_time (t : tm) : option Z :=
  let year := s32 (tm_year t + -100) in
  let month := tm_mon t in
  let day := tm_mday t in
  let '(year, month) :=
    if 12 <=? month then (year + Z.quot month 12, Z.rem month 12)
    else if month <? 0 then
      let year := year + Z.quot month 12 in
      let month := Z.rem month 12 in
      if negb (month =? 0) then (year - 1, month + 12) else (year, month)
    else (year, month) in
  let z4 := s32 (Q (year - b2z (month <? 2)) 4) in
  let z100 := s32 (Q z4 25) in
  let z400 := s32 (Q z100 4) in
  before ← days_at_month !! Z.to_nat month;
  let day := s32 (day + (year * 365 + z4 - z100 + z400 + before)) in
  Some (day * 86400 + s32 (tm_hour t * 3600) + s32 (tm_min t * 60) + tm_sec t - -946684800).

(** ** kernel/rtc.c *)

(** The CMOS: the selected register, the registers, and how often register
    10 still reports an update in progress. *)
Record cmos := Cmos { selected : Z; regs : Z → Z; busy : nat }.

Definition CMOS_ADDR : Z := 0x70.
Definition CMOS_DATA : Z := 0x71.

Definition outb (port v : Z) : M cmos unit :=
  if port =? CMOS_ADDR then modify (λ c, Cmos (u8 v) (regs c) (busy c)) else mret tt.

(** Reading the data port returns the selected register. *)
Definition inb (port : Z) : M cmos Z :=
  if port =? CMOS_DATA then
    c ← gets id;
    if selected c =? 0x0a then
      match busy c with
      | O => mret (u8 (Z.land (regs c 0x0a) 0x7f))
      | S b => modify (λ c, Cmos (selected c) (regs c) b);; mret (u8 (Z.lor (regs c 0x0a) 0x80))
      end
    else mret (u8 (regs c (selected c)))
  else mret 0.

Definition rtc_busy : M cmos bool :=
  outb CMOS_ADDR 0x0a;;
  v ← inb CMOS_DATA;
  mret (has v 0x80).

Definition rtc_read_reg (reg : Z) : M cmos Z := outb CMOS_ADDR reg;; inb CMOS_DATA.

Definition bcd_to_int (val : Z) : Z := u8 (Z.land val 0x0f + (val / 16) * 10).

Fixpoint rtc_wait (fuel : nat) : M cmos unit :=
  match fuel with
  | O => halt NoFuel
  | S fuel => b ← rtc_busy; if (b : bool) then rtc_wait fuel else mret tt
  end.

(** The update ends after [busy] polls. *)
Definition rtc_get_time : M cmos tm :=
  fuel ← gets (λ c, S (busy c));
  rtc_wait fuel;;
  sec ← rtc_read_reg 0x00;
  min ← rtc_read_reg 0x02;
  hour ← rtc_read_reg 0x04;
  day ← rtc_read_reg 0x07;
  mon ← rtc_read_reg 0x08;
  year ← rtc_read_reg 0x09;
  reg_b ← rtc_read_reg 0x0b;
  let conv (v : Z) : Z := if negb (has reg_b 0x04) then bcd_to_int v else v in
  let hour := conv hour in
  let hour := if negb (has reg_b 0x02) && has hour 0x80
    then u8 (Z.rem (Z.land hour 0x7f + 12) 24) else hour in
  mret (Tm (conv sec) (conv min) hour (conv day) (conv mon - 1) (100 + conv year)).

(** ** The calendar *)

Definition leap (y : Z) : bool := (y `mod` 4 =? 0) && (negb (y `mod` 100 =? 0) || (y `mod` 400 =? 0)).
Definition year_days (y : Z) : Z := 365 + b2z (leap y).

(** The days of the [n] years from [y] on. *)
Fixpoint years_days (y : Z) (n : nat) : Z :=
  match n with
  | O => 0
  | S n => year_days y + years_days (y + 1) n
  end.

Definition month_lengths (y : Z) : list Z := [31; 28 + b2z (leap y); 31; 30; 31; 30; 31; 31; 30; 31; 30; 31].

(** The days from 1 January 2000 to day [d] of month [m] (from 0) of year
    [y]. *)
Definition civil_days (y m d : Z) : Z :=
  (if 2000 <=? y then years_days 2000 (Z.to_nat (y - 2000)) else - years_days y (Z.to_nat (2000 - y))) +
  foldr Z.add 0 (take (Z.to_nat m) (month_lengths y)) + (d - 1).

(** The seconds from 1970 to 2000: thirty years, seven of them leap years. *)
Definition epoch_2000 : Z := 86400 * years_days 1970 30.

(** Leap days before year [y], counted from year 1 on. *)
Definition leaps_before (y : Z) : Z := (y - 1) `div` 4 - (y - 1) `div` 100 + (y - 1) `div` 400.

Lemma leap_step y : b2z (leap y) = leaps_before (y + 1) - leaps_before y.
Proof.
  unfold leaps_before, leap. replace (y + 1 - 1) with y by lia.
  assert (∀ n, 0 < n → y `div` n - (y - 1) `div` n = b2z (y `mod` n =? 0)) as Hs.
  { intros n Hn. destruct (Z.eqb_spec (y `mod` n) 0) as [E|E]; simpl.
    - rewrite <-(Z.div_unique (y - 1) n (y `div` n - 1) (n - 1)); pose proof (Z.div_mod y n); lia.
    - pose proof (Z.mod_pos_bound y n Hn).
      rewrite <-(Z.div_unique (y - 1) n (y `div` n) (y `mod` n - 1)); pose proof (Z.div_mod y n); lia. }
  pose proof (Hs 4). pose proof (Hs 100). pose proof (Hs 400).
  destruct (Z.eqb_spec (y `mod` 4) 0), (Z.eqb_spec (y `mod` 100) 0), (Z.eqb_spec (y `mod` 400) 0); simpl in *; try lia;
    exfalso; mlia.
Qed.

Lemma years_days_closed y n : years_days y n = 365 * Z.of_nat n + leaps_before (y + Z.of_nat n) - leaps_before y.
Proof.
  revert y. induction n as [|n IH]; intros y; cbn [years_days]; [rewrite Z.add_0_r; lia|].
  rewrite IH. unfold year_days. rewrite leap_step. replace (y + 1 + Z.of_nat n) with (y + Z.of_nat (S n)) by lia. lia.
Qed.

Lemma civil_days_closed y m d : civil_days y m d =
  365 * (y - 2000) + leaps_before y - leaps_before 2000 + foldr Z.add 0 (take (Z.to_nat m) (month_lengths y)) + (d - 1).
Proof.
  unfold civil_days. destruct (Z.leb_spec 2000 y); rewrite years_days_closed, Z2Nat.id by lia;
    replace (2000 + (y - 2000)) with y by lia; replace (y + (2000 - y)) with 2000 by lia; lia.
Qed.

Lemma Q_div a b : 0 < b → Q a b = a `div` b.
Proof.
  intros Hb. unfold Q. destruct (Z.ltb_spec 0 a).
  - apply Z.quot_div_nonneg; lia.
  - rewrite Z.quot_div_nonneg by lia. replace (b - a - 1) with ((b - 1) - a) by lia.
    pose proof (Z.mod_pos_bound a b Hb).
    rewrite <-(Z.div_unique (b - 1 - a) b (- (a `div` b)) (b - 1 - a `mod` b)); pose proof (Z.div_mod a b); lia.
Qed.

(** The days before a month, from the table of the code. *)
Lemma month_table y m : 0 ≤ m < 12 → ∃ b, days_at_month !! Z.to_nat m = Some b ∧
  foldr Z.add 0 (take (Z.to_nat m) (month_lengths y)) = b + (if 2 <=? m then b2z (leap y) else 0).
Proof.
  intros Hm. unfold month_lengths.
  assert (m = 0 ∨ m = 1 ∨ m = 2 ∨ m = 3 ∨ m = 4 ∨ m = 5 ∨ m = 6 ∨ m = 7 ∨ m = 8 ∨ m = 9 ∨ m = 10 ∨ m = 11) as Hc by lia.
  destruct Hc as [->|[->|[->|[->|[->|[->|[->|[->|[->|[->|[->| ->]]]]]]]]]]]; eexists; (split; [reflexivity|]);
    destruct (leap y); reflexivity.
Qed.

Lemma s32_id x : - 2 ^ 31 ≤ x < 2 ^ 31 → s32 x = x.
Proof. intros. unfold s32. rewrite Z.mod_small; lia. Qed.

Lemma tm_to_time_spec t : -1000000 ≤ tm_year t ≤ 1000000 → -1000000 ≤ tm_mon t ≤ 1000000 →
  -1000000 ≤ tm_mday t ≤ 1000000 → -100000 ≤ tm_hour t ≤ 100000 → -1000000 ≤ tm_min t ≤ 1000000 →
  tm_to_time t = Some (epoch_2000 + 86400 * civil_days (1900 + tm_year t + tm_mon t `div` 12) (tm_mon t `mod` 12) (tm_mday t) +
    3600 * tm_hour t + 60 * tm_min t + tm_sec t).
Proof.
  intros Hy Hmo Hd Hh Hmi. unfold tm_to_time. rewrite (s32_id (tm_year t + -100)) by lia.
  set (Y := tm_year t - 100 + tm_mon t `div` 12). set (m := tm_mon t `mod` 12).
  assert ((if 12 <=? tm_mon t then (tm_year t + -100 + Z.quot (tm_mon t) 12, Z.rem (tm_mon t) 12)
    else if tm_mon t <? 0 then
      if negb (Z.rem (tm_mon t) 12 =? 0) then (tm_year t + -100 + Z.quot (tm_mon t) 12 - 1, Z.rem (tm_mon t) 12 + 12)
      else (tm_year t + -100 + Z.quot (tm_mon t) 12, Z.rem (tm_mon t) 12)
    else (tm_year t + -100, tm_mon t)) = (Y, m)) as E.
  { unfold Y, m. destruct (Z.leb_spec 12 (tm_mon t)); [f_equal; mlia|]. destruct (Z.ltb_spec (tm_mon t) 0); [|f_equal; mlia].
    destruct (Z.eqb_spec (Z.rem (tm_mon t) 12) 0); simpl; f_equal; mlia. }
  cbv zeta. rewrite E. clear E. assert (0 ≤ m < 12) as Hm by (apply Z.mod_pos_bound; lia).
  assert (-1100000 ≤ Y ≤ 1100000) as HY by (unfold Y; mlia).
  destruct (month_table (2000 + Y) m Hm) as (b & Hb & Hsum). rewrite Hb. cbn [mbind option_bind].
  replace (1900 + tm_year t + tm_mon t `div` 12) with (2000 + Y) by (unfold Y; lia). rewrite civil_days_closed, Hsum.
  clearbody Y m. clear Hsum.
  assert (0 ≤ b ≤ 334) as Hbr.
  { apply list_elem_of_lookup_2 in Hb. unfold days_at_month in Hb. rewrite !elem_of_cons, elem_of_nil in Hb. lia. }
  clear Hb. rewrite !Q_div by lia. set (A := Y - b2z (m <? 2)).
  assert (Y - 1 ≤ A ≤ Y) as HA by (unfold A, b2z; case_match; lia).
  rewrite (s32_id (A `div` 4)) by mlia. rewrite (s32_id (A `div` 4 `div` 25)) by mlia.
  rewrite (s32_id (A `div` 4 `div` 25 `div` 4)) by mlia.
  rewrite (s32_id (tm_hour t * 3600)), (s32_id (tm_min t * 60)) by lia.
  assert (A `div` 4 - A `div` 4 `div` 25 + A `div` 4 `div` 25 `div` 4 =
    leaps_before (2000 + Y) - leaps_before 2000 - 1 + (if 2 <=? m then b2z (leap (2000 + Y)) else 0)) as Hl.
  { rewrite leap_step. unfold leaps_before. rewrite !Z.div_div by lia. unfold A, b2z.
    destruct (Z.ltb_spec m 2), (Z.leb_spec 2 m); try lia; mlia. }
  rewrite s32_id by mlia. f_equal. unfold epoch_2000. change (years_days 1970 30) with 10957. lia.
Qed.

(** For any date within two million years and any month
    number, also negative or above 11, [tm_to_time] is the number of seconds
    from 1970 on that counting the days of the Gregorian calendar gives. *)
Theorem tm_to_time_correct t : -1000000 ≤ tm_year t ≤ 1000000 → -1000000 ≤ tm_mon t ≤ 1000000 →
  -1000000 ≤ tm_mday t ≤ 1000000 → -100000 ≤ tm_hour t ≤ 100000 → -1000000 ≤ tm_min t ≤ 1000000 →
  tm_to_time t = Some (epoch_2000 + 86400 * civil_days (1900 + tm_year t + tm_mon t `div` 12) (tm_mon t `mod` 12) (tm_mday t) +
    3600 * tm_hour t + 60 * tm_min t + tm_sec t).
Proof. exact (tm_to_time_spec t). Qed.

(** Leap day 2024, 12:00:00, given as month -11 of 2025. *)
Lemma tm_to_time_correct_witness : tm_to_time (Tm 0 0 12 29 (-11) 125) = Some 1709208000.
Proof. rewrite tm_to_time_correct by (simpl; lia). by vm_compute. Defined.

(** ** The clock *)

(** How the clock stores a value below 100. *)
Definition encoded (bcd : bool) (v : Z) : Z := if bcd then v `div` 10 * 16 + v `mod` 10 else v.

Lemma bcd_roundtrip v : 0 ≤ v < 100 → bcd_to_int (encoded true v) = v.
Proof.
  intros Hv. assert (Forall (λ v, bcd_to_int (encoded true v) = v) (seqZ 0 100)) as Hall
    by (apply (bool_decide_unpack _); by vm_compute).
  rewrite Forall_forall in Hall. apply Hall, elem_of_seqZ. lia.
Qed.

Lemma u8_encoded b v : 0 ≤ v < 100 → u8 (encoded b v) = encoded b v.
Proof. intros Hv. unfold encoded. apply Z.mod_small. destruct b; mlia. Qed.

(** The clock waits for the update to end and selects registers. *)
Lemma rtc_wait_spec fuel c : (busy c < fuel)%nat → wp (rtc_wait fuel) (λ _ c', regs c' = regs c ∧ busy c' = O) c.
Proof.
  revert c. induction fuel as [|fuel IH]; intros c Hf; [lia|]. cbn [rtc_wait]. wp_step. unfold rtc_busy, outb, inb.
  rewrite !Z.eqb_refl. do 3 wp_step. wp_step. apply wp_gets. cbn [id selected busy regs].
  change (u8 10 =? 10) with true. cbv iota. destruct (busy c) as [|b] eqn:Eb.
  - wp_step. wp_step. assert (has (u8 (Z.land (regs c 10) 127)) 128 = false) as ->.
    { unfold has, u8. rewrite <-Z.land_ones, <-!Z.land_assoc by lia.
      change (Z.land 127 (Z.land (Z.ones 8) 128)) with 0.
      by rewrite Z.land_0_r. }
    by wp_step.
  - wp_step. wp_step. wp_step. assert (has (u8 (Z.lor (regs c 10) 128)) 128 = true) as ->.
    { unfold has, u8. rewrite <-Z.land_ones by lia. rewrite <-Z.land_assoc, Z.land_lor_distr_l.
      change (Z.land (Z.ones 8) 128) with 128. change (Z.land 128 128) with 128.
      apply negb_true_iff, Z.eqb_neq. intros Hz. apply Z.lor_eq_0_iff in Hz. lia. }
    wp_step. eapply wp_mono; [apply IH; simpl; lia|]. done.
Qed.

Lemma rtc_read_spec r c (Q : Z → cmos → Prop) : 0 ≤ r < 256 → r ≠ 10 →
  (∀ c', regs c' = regs c → busy c' = busy c → Q (u8 (regs c r)) c') → wp (rtc_read_reg r) Q c.
Proof.
  intros Hr Hn HQ. unfold rtc_read_reg, outb, inb. rewrite !Z.eqb_refl. wp_step. wp_step. wp_step. apply wp_gets.
  cbn [id selected regs]. assert (u8 r = r) as Er by (by apply Z.mod_small).
  rewrite Er, (proj2 (Z.eqb_neq _ _) Hn). wp_step. by apply HQ.
Qed.

(** The clock shows a time: 24-hour mode, binary or BCD. *)
Record shows (c : cmos) (sec min hour day mon year : Z) : Prop := {
  sh_mode : has (u8 (regs c 0x0b)) 0x02 = true;
  sh_regs : let bcd := negb (has (u8 (regs c 0x0b)) 0x04) in
    regs c 0x00 = encoded bcd sec ∧ regs c 0x02 = encoded bcd min ∧ regs c 0x04 = encoded bcd hour ∧
    regs c 0x07 = encoded bcd day ∧ regs c 0x08 = encoded bcd mon ∧ regs c 0x09 = encoded bcd year;
  sh_range : 0 ≤ sec < 60 ∧ 0 ≤ min < 60 ∧ 0 ≤ hour < 24 ∧ 1 ≤ day ≤ 31 ∧ 1 ≤ mon ≤ 12 ∧ 0 ≤ year < 100;
}.

Lemma conv_encoded (b : bool) v : 0 ≤ v < 100 →
  (if negb b then bcd_to_int (encoded (negb b) v) else encoded (negb b) v) = v.
Proof. intros Hv. destruct b; simpl; [done|]. by apply bcd_roundtrip. Qed.

Lemma rtc_get_time_spec c sec min hour day mon year : shows c sec min hour day mon year →
  wp rtc_get_time (λ t _, t = Tm sec min hour day (mon - 1) (100 + year)) c.
Proof.
  intros [Hmode (H0 & H2 & H4 & H7 & H8 & H9) (Rs & Rm & Rh & Rd & Rmo & Ry)]. unfold rtc_get_time. wp_step. apply wp_gets.
  wp_step. eapply wp_mono; [apply rtc_wait_spec; lia|]. intros [] c0 [E0 _].
  assert (∀ r c1 (Q : Z → cmos → Prop), regs c1 = regs c → 0 ≤ r < 256 → r ≠ 10 →
    (∀ c2, regs c2 = regs c → Q (u8 (regs c r)) c2) → wp (rtc_read_reg r) Q c1) as Hrd.
  { intros r c1 Q E Hr Hn HQ. apply rtc_read_spec; [done|done|]. intros c2 E2 _. rewrite E. apply HQ. congruence. }
  wp_step. apply Hrd; [done|lia|lia|]. intros c1 E1. wp_step. apply Hrd; [done|lia|lia|]. intros c2 E2.
  wp_step. apply Hrd; [done|lia|lia|]. intros c3 E3. wp_step. apply Hrd; [done|lia|lia|]. intros c4 E4.
  wp_step. apply Hrd; [done|lia|lia|]. intros c5 E5. wp_step. apply Hrd; [done|lia|lia|]. intros c6 E6.
  wp_step. apply Hrd; [done|lia|lia|]. intros c7 E7. cbv zeta. wp_step.
  rewrite Hmode, H0, H2, H4, H7, H8, H9, !u8_encoded by lia. cbn [negb andb]. rewrite !conv_encoded by lia. done.
Qed.

(** When the clock is in 24-hour mode, [rtc_get_time] waits for
    an update in progress to end and returns the time the registers show, in
    binary or BCD, and [tm_to_time] turns it into the seconds since 1970 of
    that date. *)
Theorem rtc_get_time_correct c sec min hour day mon year : shows c sec min hour day mon year →
  ∃ t c', rtc_get_time c = OK t c' ∧ tm_to_time t =
    Some (epoch_2000 + 86400 * civil_days (2000 + year) (mon - 1) day + 3600 * hour + 60 * min + sec).
Proof.
  intros Hs. destruct (wp_elim _ _ _ (rtc_get_time_spec c _ _ _ _ _ _ Hs)) as (t & c' & E & ->).
  destruct Hs as [_ _ (Rs & Rm & Rh & Rd & Rmo & Ry)]. eexists. exists c'. split; [done|].
  rewrite tm_to_time_spec by (simpl; lia). simpl tm_year. simpl tm_mon. cbn [tm_sec tm_min tm_hour tm_mday].
  rewrite (Z.div_small (mon - 1) 12), (Z.mod_small (mon - 1) 12) by lia.
  replace (1900 + (100 + year) + 0) with (2000 + year) by lia. done.
Qed.

(** In 12-hour BCD mode the conversion from BCD destroys the PM bit before it
    is tested: hour [h] in the afternoon is read as [80 + h]. *)
Lemma rtc_pm_lost h : 1 ≤ h ≤ 12 → let hour := bcd_to_int (Z.lor 0x80 (encoded true h)) in
  hour = 80 + h ∧ has hour 0x80 = false.
Proof.
  intros Hh. assert (Forall (λ h, bcd_to_int (Z.lor 128 (encoded true h)) = 80 + h ∧
    has (bcd_to_int (Z.lor 128 (encoded true h))) 128 = false) (seqZ 1 12)) as Hall
    by (apply (bool_decide_unpack _); by vm_compute).
  rewrite Forall_forall in Hall. apply Hall, elem_of_seqZ. lia.
Qed.

Definition demo_clock : cmos := Cmos 0 (λ r, if r =? 0x0b then 2 else if r =? 7 then 0x29 else if r =? 8 then 2
  else if r =? 9 then 0x24 else if r =? 4 then 0x23 else 0x59) 3.

Lemma rtc_get_time_correct_witness : ∃ t c', rtc_get_time demo_clock = OK t c' ∧ tm_to_time t = Some 1709251199.
Proof.
  destruct (rtc_get_time_correct demo_clock 59 59 23 29 2 24) as (t & c' & E & Ht).
  - split; [by vm_compute|by vm_compute|lia].
  - exists t, c'. split; [exact E|]. rewrite Ht. by vm_compute.
Defined.
