(* ===== verification/Buddy.v ===== *)
(** * The buddy allocator (kernel/mem/buddy.c, include/kernel/mem/buddy.h)

    Physical page frames are described by an array of [struct page_info] at
    [pages]; a free block of order [o] (2^o frames, aligned to its size) is
    represented by the [page_info] of its first frame, linked through
    [pp_node] into [buddy_free_list[o]].  The file holds the allocator's state,
    its operations and the swap-list operations of kernel/dev/swap_util.c that
    [page_free] calls; BuddyProofs.v has the invariant and the theorems. *)

From S2P Require Import Prelude LinkedList Paging Spinlock.

Local Open Scope Z_scope.

(** ** Data *)

(** [struct page_info] without its three embedded list nodes, which live in
    the list store.  [pp_order] and [pp_free] are bit fields of 7 and 1 bits. *)
Record page_info := PageInfo {
  pp_ref : Z;
  pp_order : Z;
  pp_free : Z;
  pp_zero : Z;
  rmap : Z;
}.

#[global] Instance page_info_eq_dec : EqDecision page_info.
Proof. solve_decision. Defined.

Definition sizeof_page_info : Z := 72.
Definition off_swap_node : Z := 16.
Definition off_pp_zero_node : Z := 40.

Definition set_ref (v : Z) (p : page_info) : page_info :=
  PageInfo (u16 v) (pp_order p) (pp_free p) (pp_zero p) (rmap p).
Definition set_order (v : Z) (p : page_info) : page_info :=
  PageInfo (pp_ref p) (v `mod` 2 ^ 7) (pp_free p) (pp_zero p) (rmap p).
Definition set_free (v : Z) (p : page_info) : page_info :=
  PageInfo (pp_ref p) (pp_order p) (v `mod` 2) (pp_zero p) (rmap p).
Definition set_zero (v : Z) (p : page_info) : page_info :=
  PageInfo (pp_ref p) (pp_order p) (pp_free p) (u64 v) (rmap p).
Definition set_rmap (v : Z) (p : page_info) : page_info :=
  PageInfo (pp_ref p) (pp_order p) (pp_free p) (pp_zero p) (u64 v).

(** Where the linker put the static objects the allocator uses. *)
Class Layout := {
  buddy_free_list : Z;
  zero_list : Z;
  swap_pages : Z;
  buddy_c : Z;  (** the string ["kernel/mem/buddy.c"], for the lock's debug fields *)
}.

(** A physical frame is 512 words of 64 bits; a missing word is zero. *)
Abbreviation frame_words := (gmap Z Z).

(** The memory state.  [phys] maps a frame number to its contents, which the
    kernel reaches through the direct map at [KERNEL_VMA]. *)
Record mem := Mem {
  heap : lheap;
  infos : gmap Z page_info;
  pages : Z;
  npages : Z;
  buddy_lock : spinlock;
  phys : gmap Z frame_words;
  this_cpu : Z;
}.

Definition set_heap (h : lheap) (m : mem) : mem :=
  Mem h (infos m) (pages m) (npages m) (buddy_lock m) (phys m) (this_cpu m).
Definition set_infos (i : gmap Z page_info) (m : mem) : mem :=
  Mem (heap m) i (pages m) (npages m) (buddy_lock m) (phys m) (this_cpu m).
Definition set_lock (l : spinlock) (m : mem) : mem :=
  Mem (heap m) (infos m) (pages m) (npages m) l (phys m) (this_cpu m).
Definition set_phys (p : gmap Z frame_words) (m : mem) : mem :=
  Mem (heap m) (infos m) (pages m) (npages m) (buddy_lock m) p (this_cpu m).
Definition set_pages (p : Z) (m : mem) : mem :=
  Mem (heap m) (infos m) p (npages m) (buddy_lock m) (phys m) (this_cpu m).
Definition set_npages (n : Z) (m : mem) : mem :=
  Mem (heap m) (infos m) (pages m) n (buddy_lock m) (phys m) (this_cpu m).

(** A list operation run on the list store of the memory state. *)
Definition on_heap {A} (c : M lheap A) : M mem A := zoom heap set_heap c.

(** Reading and updating a [struct page_info]. *)
Definition page_get (p : Z) : M mem page_info := deref (λ m, infos m !! p).
Definition page_upd (p : Z) (f : page_info → page_info) : M mem unit :=
  i ← page_get p; modify (λ m, set_infos (<[p := f i]> (infos m)) m).

(** ** include/kernel/mem/buddy.h *)

Definition BUDDY_4K_PAGE : Z := 0.
Definition BUDDY_2M_PAGE : Z := 9.
Definition BUDDY_MAX_ORDER : Z := BUDDY_2M_PAGE + 1.

Definition ALLOC_ZERO : Z := 1.
Definition ALLOC_HUGE : Z := 2.
Definition ALLOC_PREMAPPED : Z := 4.

Definition PADDR (kva : Z) : M mem Z :=
  if kva <? KERNEL_VMA then halt Panic else mret (kva - KERNEL_VMA).

Definition KADDR (pa : Z) : M mem Z :=
  n ← gets npages;
  if n <=? PAGE_INDEX pa then halt Panic else mret (u64 (pa + KERNEL_VMA)).

(** [pp - pages] divides by the element size. *)
Definition page2pa (pp : Z) : M mem Z :=
  b ← gets pages;
  mret (u64 (Z.shiftl ((pp - b) `div` sizeof_page_info) PAGE_TABLE_SHIFT)).

(** [pages + i]. *)
Definition page_at (i : Z) : M mem Z :=
  b ← gets pages; mret (b + i * sizeof_page_info).

Definition pa2page (pa : Z) : M mem Z :=
  n ← gets npages;
  if n <=? PAGE_INDEX pa then halt Panic else page_at (PAGE_INDEX pa).

Definition page2kva (pp : Z) : M mem Z := pa ← page2pa pp; KADDR pa.

(** ** Physical memory through the direct map *)

(** [memset((void * ) kva, 0, PAGE_SIZE)] of a page-aligned direct-map address. *)
Definition zero_frame (kva : Z) : M mem unit :=
  modify (λ m, set_phys (delete (PAGE_INDEX (kva - KERNEL_VMA)) (phys m)) m).

(** The 64-bit word [idx] of the frame at physical address [pa]. *)
Definition word_at (ph : gmap Z frame_words) (pa idx : Z) : Z :=
  default 0 (ph !! PAGE_INDEX pa ≫= lookup idx).

Definition set_word (pa idx v : Z) (ph : gmap Z frame_words) : gmap Z frame_words :=
  <[PAGE_INDEX pa := <[idx := v]> (default ∅ (ph !! PAGE_INDEX pa))]> ph.

Section buddy.
Context `{Layout}.

Definition free_list (order : Z) : Z := buddy_free_list + 16 * order.

(** ** Locking *)

Definition lock_buddy : M mem unit :=
  me ← gets this_cpu; zoom buddy_lock set_lock (spin_lock me buddy_c 45).

Definition unlock_buddy : M mem unit :=
  me ← gets this_cpu; zoom buddy_lock set_lock (spin_unlock me).

(** ** The swap list (kernel/dev/swap_util.c) *)

Definition remove_swap_page (page : Z) : M mem unit :=
  e ← on_heap (list_is_empty (page + off_swap_node));
  if negb e then on_heap (list_del (page + off_swap_node)) else mret tt.

Definition add_swap_page (page : Z) : M mem unit :=
  e ← on_heap (list_is_empty (page + off_swap_node));
  if negb e then mret tt
  else on_heap (list_add swap_pages (page + off_swap_node)).

Definition mru_swap_page (page : Z) : M mem unit :=
  if page =? NULL then mret tt
  else remove_swap_page page;; add_swap_page page.

(** ** Counting *)

Definition count_free_pages (order : Z) : M mem Z :=
  if BUDDY_MAX_ORDER <=? order then mret 0
  else l ← on_heap (list_foreach (free_list order)); mret (Z.of_nat (length l)).

Fixpoint count_total_from (n : nat) (order nfree : Z) : M mem Z :=
  match n with
  | O => mret nfree
  | S n =>
      nfree_pages ← count_free_pages order;
      count_total_from n (order + 1) (u64 (nfree + nfree_pages * Z.shiftl 1 order))
  end.

(** The loop runs once per order. *)
Definition count_total_free_pages : M mem Z :=
  count_total_from (Z.to_nat BUDDY_MAX_ORDER) 0 0.

(** ** Splitting and merging

    Each recursive call of [buddy_split] decrements, and each one of
    [buddy_merge] increments, a 7-bit order: 128 calls are more than either
    can make before it stops. *)

Definition order_fuel : nat := 128.

Fixpoint buddy_split_rec (fuel : nat) (lhs req_order : Z) : M mem Z :=
  match fuel with
  | O => halt NoFuel
  | S fuel =>
      l ← page_get lhs;
      if pp_order l =? req_order then mret lhs
      else
        let block_size := Z.shiftl 1 (pp_order l) in
        pa ← page2pa lhs;
        let page_index := s32 (pa `div` PAGE_SIZE) in
        let buddy_index := s32 (page_index + block_size `div` 2) in
        buddy ← page_at buddy_index;
        on_heap (list_del lhs);;
        page_upd lhs (λ l, set_order (pp_order l - 1) l);;
        l ← page_get lhs;
        page_upd buddy (set_order (pp_order l));;
        page_upd buddy (set_free 1);;
        l ← page_get lhs;
        let head := free_list (pp_order l) in
        on_heap (list_add head lhs);;
        on_heap (list_add head buddy);;
        buddy_split_rec fuel lhs req_order
  end.

Definition buddy_split (lhs req_order : Z) : M mem Z :=
  buddy_split_rec order_fuel lhs req_order.

Fixpoint buddy_merge_rec (fuel : nat) (page : Z) : M mem Z :=
  match fuel with
  | O => halt NoFuel
  | S fuel =>
      p ← page_get page;
      let block_size := Z.shiftl 1 (pp_order p) in
      pa ← page2pa page;
      let page_index := s32 (pa `div` PAGE_SIZE) in
      if pp_order p =? BUDDY_MAX_ORDER - 1 then mret NULL
      else
        let head := free_list (pp_order p) in
        empty ← on_heap (list_is_empty head);
        if (empty : bool) then mret page
        else
          let right := u64 page_index `mod` (block_size * 2) =? 0 in
          buddy ← page_at (if right then page_index + block_size else page_index - block_size);
          let lhs := if right then page else buddy in
          p ← page_get page;
          b ← page_get buddy;
          if negb (pp_free p =? 0) && negb (pp_free b =? 0) && (pp_order p =? pp_order b) then
            on_heap (list_del buddy);;
            on_heap (list_del page);;
            (if buddy =? lhs then page_upd page (set_free 0) else page_upd buddy (set_free 0));;
            page_upd lhs (λ l, set_order (pp_order l + 1) l);;
            l ← page_get lhs;
            on_heap (list_add (free_list (pp_order l)) lhs);;
            buddy_merge_rec fuel lhs;;
            mret NULL
          else mret page
  end.

Definition buddy_merge (page : Z) : M mem Z := buddy_merge_rec order_fuel page.

(** ** Allocation *)

(** The [for] loop of [buddy_find], [n] orders before [BUDDY_MAX_ORDER]. *)
Fixpoint buddy_find_above (n : nat) (order req_order : Z) : M mem Z :=
  match n with
  | O => mret NULL
  | S n =>
      empty ← on_heap (list_is_empty (free_list order));
      if (empty : bool) then buddy_find_above n (order + 1) req_order
      else
        page ← on_heap (list_pop (free_list order));
        buddy_split page req_order
  end.

Definition buddy_find (req_order : Z) : M mem Z :=
  empty ← on_heap (list_is_empty (free_list req_order));
  if negb empty then on_heap (list_pop (free_list req_order))
  else
    buddy_find_above (Z.to_nat (BUDDY_MAX_ORDER - (req_order + 1))) (req_order + 1) req_order.

Definition page_alloc (alloc_flags : Z) : M mem Z :=
  lock_buddy;;
  page ← buddy_find 0;
  assert (negb (page =? NULL));;
  if page =? NULL then unlock_buddy;; mret NULL
  else
    p ← page_get page;
    assert (pp_free p =? 1);;
    addr ← page2kva page;
    (if has alloc_flags ALLOC_ZERO then
       p ← page_get page;
       if pp_zero p =? 0 then zero_frame addr else mret tt
     else mret tt);;
    page_upd page (set_free 0);;
    on_heap (list_del page);;
    unlock_buddy;;
    mret page.

Definition page_free (pp : Z) : M mem unit :=
  p ← page_get pp;
  assert (pp_ref p =? 0);;
  lock_buddy;;
  remove_swap_page pp;;
  page_upd pp (set_free 1);;
  p ← page_get pp;
  pp ← (if negb (pp_order p =? BUDDY_MAX_ORDER - 1) then buddy_merge pp else mret pp);
  if pp =? NULL then unlock_buddy
  else
    p ← page_get pp;
    on_heap (list_add (free_list (pp_order p)) pp);;
    page_upd pp (set_zero 0);;
    on_heap (list_add zero_list (pp + off_pp_zero_node));;
    unlock_buddy.

(** [--pp->pp_ref == 0] compares the decremented 16-bit counter. *)
Definition page_decref (pp : Z) : M mem unit :=
  page_upd pp (λ p, set_ref (pp_ref p - 1) p);;
  p ← page_get pp;
  if pp_ref p =? 0 then page_free pp else mret tt.
End buddy.
