(* ===== verification/BuddyProofs.v ===== *)
(** * Correctness of the buddy allocator

    The abstract state is the map [g] from the first frame of every free block
    to the block's order.  [geometry] collects the facts about such maps; the
    invariant [buddy_inv] ties the map to the [page_info] array and to the
    pointer lists; the specifications of [page_alloc] and [page_free] are
    stated on the set of free frames. *)

From S2P Require Import Prelude LinkedList Paging Spinlock Buddy.

Local Open Scope Z_scope.

(** ** Geometry of the free blocks *)

Abbreviation blocks := (gmap Z Z).

(** Frame [k] lies in a free block. *)
Definition free_frame (g : blocks) (k : Z) : Prop :=
  ∃ i o, g !! i = Some o ∧ i ≤ k < i + 2 ^ o.

(** The other half of the block of order [o + 1] that [i] belongs to. *)
Definition buddy_of (i o : Z) : Z :=
  if i `mod` 2 ^ (o + 1) =? 0 then i + 2 ^ o else i - 2 ^ o.

Record shape_ok (n : Z) (g : blocks) : Prop := {
  shape_order i o : g !! i = Some o → 0 ≤ o < BUDDY_MAX_ORDER;
  shape_range i o : g !! i = Some o → 0 ≤ i ∧ i + 2 ^ o ≤ n;
  shape_align i o : g !! i = Some o → i `mod` 2 ^ o = 0;
  shape_disjoint i o j p : g !! i = Some o → g !! j = Some p → i ≠ j →
    i + 2 ^ o ≤ j ∨ j + 2 ^ p ≤ i;
}.

(** No two buddies of the same order are both free, except pairs with [x]. *)
Definition coalesced_except (x : Z) (g : blocks) : Prop :=
  ∀ i o, g !! i = Some o → o < BUDDY_MAX_ORDER - 1 → i ≠ x → buddy_of i o ≠ x →
    g !! buddy_of i o ≠ Some o.

Definition coalesced (g : blocks) : Prop :=
  ∀ i o, g !! i = Some o → o < BUDDY_MAX_ORDER - 1 → g !! buddy_of i o ≠ Some o.

Lemma pow2_pos o : 0 ≤ o → 1 ≤ 2 ^ o.
Proof. intros. pose proof (Z.pow_pos_nonneg 2 o). lia. Qed.

Lemma pow2_half o : 0 < o → 2 ^ o = 2 * 2 ^ (o - 1).
Proof. intros. rewrite <-Z.pow_succ_r by lia. f_equal. lia. Qed.

(** Halving an aligned block. *)
Lemma align_halves i h : 0 < h → i `mod` (2 * h) = 0 → i `mod` h = 0 ∧ (i + h) `mod` h = 0.
Proof.
  intros Hh Hi. apply Z.mod_divide in Hi as [q Hq]; [|lia]. subst i.
  split; apply Z.mod_divide; [lia|exists (2 * q); lia|lia|exists (2 * q + 1); lia].
Qed.

(** An aligned block is the left or the right half of the next larger one. *)
Lemma align_double i h : 0 < h → i `mod` h = 0 →
  i `mod` (2 * h) = 0 ∨ (i `mod` (2 * h) = h ∧ (i - h) `mod` (2 * h) = 0).
Proof.
  intros Hh Hi. apply Z.mod_divide in Hi as [q Hq]; [|lia]. subst i.
  destruct (Z.Even_or_Odd q) as [[r ->]|[r ->]].
  - left. apply Z.mod_divide; [lia|]. exists r. lia.
  - right. split.
    + symmetry. apply (Z.mod_unique _ _ r); lia.
    + apply Z.mod_divide; [lia|]. exists r. lia.
Qed.

Section geometry.
Context (n : Z).
Implicit Types (g : blocks) (i j k o p : Z).

Lemma shape_pow g i o : shape_ok n g → g !! i = Some o → 1 ≤ 2 ^ o.
Proof. intros Hs Hi. apply pow2_pos. apply (shape_order _ _ Hs) in Hi. lia. Qed.

(** A free frame belongs to one block only. *)
Lemma block_unique g i o j p k : shape_ok n g → g !! i = Some o → g !! j = Some p →
  i ≤ k < i + 2 ^ o → j ≤ k < j + 2 ^ p → i = j ∧ o = p.
Proof.
  intros Hs Hi Hj Hk Hk'. destruct (decide (i = j)) as [->|Hne]; [naive_solver|].
  destruct (shape_disjoint _ _ Hs i o j p Hi Hj Hne); lia.
Qed.

Lemma free_frame_start g i o : shape_ok n g → g !! i = Some o → free_frame g i.
Proof. intros Hs Hi. exists i, o. pose proof (shape_pow _ _ _ Hs Hi). split; [done|lia]. Qed.

Lemma free_frame_range g k : shape_ok n g → free_frame g k → 0 ≤ k < n.
Proof. intros Hs (i & o & Hi & Hk). apply (shape_range _ _ Hs) in Hi. lia. Qed.

Lemma shape_delete g i : shape_ok n g → shape_ok n (delete i g).
Proof.
  intros Hs. split; intros *; rewrite !lookup_delete_Some; intros; destruct_and?;
    eauto using shape_order, shape_range, shape_align, shape_disjoint.
Qed.

Lemma free_frame_delete g i o k : shape_ok n g → g !! i = Some o →
  free_frame (delete i g) k ↔ free_frame g k ∧ ¬ (i ≤ k < i + 2 ^ o).
Proof.
  intros Hs Hi. split.
  - intros (j & p & [Hne Hj]%lookup_delete_Some & Hk). split; [by exists j, p|]. intros Hk'.
    by destruct (block_unique g i o j p k Hs Hi Hj Hk' Hk).
  - intros [(j & p & Hj & Hk) Hn]. exists j, p. split; [|done].
    apply lookup_delete_Some. split; [|done]. intros ->. naive_solver.
Qed.

(** Adding a block that is aligned, in range and apart from the others. *)
Lemma shape_insert g i o : shape_ok n g → g !! i = None →
  0 ≤ o < BUDDY_MAX_ORDER → 0 ≤ i → i + 2 ^ o ≤ n → i `mod` 2 ^ o = 0 →
  (∀ k, i ≤ k < i + 2 ^ o → ¬ free_frame g k) → shape_ok n (<[i := o]> g).
Proof.
  intros Hs Hi Ho H0 Hn Hal Hd. pose proof (pow2_pos o ltac:(lia)).
  assert (∀ j p, g !! j = Some p → i + 2 ^ o ≤ j ∨ j + 2 ^ p ≤ i) as Hd'.
  { intros j p Hj. pose proof (shape_pow _ _ _ Hs Hj).
    destruct (decide (i + 2 ^ o ≤ j ∨ j + 2 ^ p ≤ i)) as [|Hov]; [done|exfalso].
    apply (Hd (Z.max i j)); [lia|]. exists j, p. split; [done|lia]. }
  split; intros *; rewrite !lookup_insert_Some.
  - intros [[-> ->]|[_ Hj]]; [done|by eapply shape_order].
  - intros [[-> ->]|[_ Hj]]; [done|by eapply shape_range].
  - intros [[-> ->]|[_ Hj]]; [done|by eapply shape_align].
  - intros [[-> ->]|[_ Hj]] [[-> ->]|[_ Hj']] Hne; [done|by apply Hd'| |by eapply shape_disjoint].
    apply or_comm. by apply Hd'.
Qed.

Lemma free_frame_insert g i o k : g !! i = None →
  free_frame (<[i := o]> g) k ↔ free_frame g k ∨ i ≤ k < i + 2 ^ o.
Proof.
  intros Hi. split.
  - intros (j & p & Hj & Hk). apply lookup_insert_Some in Hj as [[-> ->]|[_ Hj]]; [by right|].
    left. by exists j, p.
  - intros [(j & p & Hj & Hk)|Hk].
    + exists j, p. split; [|done]. apply lookup_insert_Some. right. split; [congruence|done].
    + exists i, o. split; [by apply lookup_insert_eq|done].
Qed.

Lemma insert_as_delete g i o : <[i := o]> g = <[i := o]> (delete i g).
Proof. by rewrite insert_delete_eq. Qed.

(** Splitting a block of order [o] into its two halves. *)
Definition split_block i o g : blocks := <[i + 2 ^ (o - 1) := o - 1]> (<[i := o - 1]> g).

Lemma buddy_absent g i o : shape_ok n g → g !! i = Some o → 0 < o → g !! (i + 2 ^ (o - 1)) = None.
Proof.
  intros Hs Hi Ho. pose proof (pow2_half o Ho). pose proof (pow2_pos (o - 1) ltac:(lia)).
  destruct (g !! (i + 2 ^ (o - 1))) as [p|] eqn:E; [exfalso|done].
  pose proof (shape_pow _ _ _ Hs E).
  destruct (shape_disjoint _ _ Hs _ _ _ _ Hi E); lia.
Qed.

Lemma split_shape g i o : shape_ok n g → g !! i = Some o → 0 < o →
  shape_ok n (split_block i o g) ∧ (∀ k, free_frame (split_block i o g) k ↔ free_frame g k).
Proof.
  intros Hs Hi Ho. pose proof (pow2_half o Ho) as Hp. pose proof (pow2_pos (o - 1) ltac:(lia)) as Hp1.
  pose proof (buddy_absent g i o Hs Hi Ho) as Hb.
  destruct (shape_range _ _ Hs _ _ Hi). pose proof (shape_order _ _ Hs _ _ Hi).
  pose proof (shape_align _ _ Hs _ _ Hi) as Hal. rewrite Hp in Hal.
  apply align_halves in Hal as [Hal1 Hal2]; [|lia].
  pose proof (shape_delete g i Hs) as Hs0.
  assert (∀ k, free_frame (delete i g) k ↔ free_frame g k ∧ ¬ (i ≤ k < i + 2 ^ o)) as Hf0
    by (intros; by apply free_frame_delete).
  assert (shape_ok n (<[i := o - 1]> (delete i g))) as Hs1.
  { apply shape_insert; [done|apply lookup_delete_eq|lia..|done|]. intros k Hk. rewrite Hf0. lia. }
  assert (∀ k, free_frame (<[i := o - 1]> (delete i g)) k ↔ free_frame (delete i g) k ∨ i ≤ k < i + 2 ^ (o - 1)) as Hf1
    by (intros; apply free_frame_insert, lookup_delete_eq).
  assert (<[i := o - 1]> (delete i g) !! (i + 2 ^ (o - 1)) = None) as Hb1.
  { rewrite lookup_insert_ne, lookup_delete_ne by lia. done. }
  unfold split_block. rewrite (insert_as_delete g). split.
  - apply shape_insert; [done|done|lia..|done|]. intros k Hk. rewrite Hf1, Hf0. lia.
  - intros k. rewrite free_frame_insert, Hf1, Hf0 by done.
    assert (i ≤ k < i + 2 ^ o → free_frame g k) by (intros; by exists i, o).
    destruct (decide (i ≤ k < i + 2 ^ o)); [|intuition lia].
    split; [tauto|]. intros _. lia.
Qed.

(** ** Buddies *)

Lemma buddy_cases i o : 0 ≤ o → i `mod` 2 ^ o = 0 →
  (i `mod` 2 ^ (o + 1) = 0 ∧ buddy_of i o = i + 2 ^ o) ∨
  (i `mod` 2 ^ (o + 1) = 2 ^ o ∧ (i - 2 ^ o) `mod` 2 ^ (o + 1) = 0 ∧ buddy_of i o = i - 2 ^ o).
Proof.
  intros Ho Hal. unfold buddy_of. pose proof (pow2_pos o Ho).
  assert (2 ^ (o + 1) = 2 * 2 ^ o) as Hp by (rewrite <-Z.pow_succ_r by lia; f_equal; lia).
  rewrite Hp. destruct (align_double i (2 ^ o) ltac:(lia) Hal) as [H0|[H0 H1]]; rewrite H0.
  - left. by rewrite Z.eqb_refl.
  - right. rewrite (proj2 (Z.eqb_neq (2 ^ o) 0)) by lia. done.
Qed.

Lemma buddy_mod i o : 0 ≤ o → (i `mod` 2 ^ (o + 1) = 0 → i `mod` 2 ^ o = 0).
Proof.
  intros Ho Hi. apply Z.mod_divide in Hi as [q Hq]; [|apply Z.pow_nonzero; lia].
  apply Z.mod_divide; [apply Z.pow_nonzero; lia|]. exists (q * 2). subst i.
  rewrite Z.pow_add_r by lia. lia.
Qed.

Lemma buddy_align i o : 0 ≤ o → i `mod` 2 ^ o = 0 → buddy_of i o `mod` 2 ^ o = 0.
Proof.
  intros Ho Hal. pose proof (pow2_pos o Ho).
  destruct (buddy_cases i o Ho Hal) as [[_ ->]|(_ & _ & ->)].
  - rewrite Z.add_mod, Hal, Z_mod_same_full, Z.mod_0_l by lia. done.
  - rewrite Zminus_mod, Hal, Z_mod_same_full; done.
Qed.

Lemma buddy_involutive i o : 0 ≤ o → i `mod` 2 ^ o = 0 → buddy_of (buddy_of i o) o = i.
Proof.
  intros Ho Hal. pose proof (pow2_pos o Ho). pose proof (buddy_align i o Ho Hal) as Hal'.
  assert (2 ^ (o + 1) = 2 * 2 ^ o) as Hp by (rewrite <-Z.pow_succ_r by lia; f_equal; lia).
  destruct (buddy_cases i o Ho Hal) as [[Hm Hb]|(Hm & Hm' & Hb)]; rewrite Hb in *;
    destruct (buddy_cases _ o Ho Hal') as [[Hm2 Hb2]|(Hm2 & Hm2' & Hb2)]; rewrite Hb2; try lia.
  exfalso. rewrite Hp in *.
  rewrite Z.add_mod, Hm, Z.add_0_l, Zmod_mod, Z.mod_small in Hm2 by lia. lia.
Qed.

(** The buddy of a block below the top order is in range. *)
Lemma buddy_range i o : n `mod` 512 = 0 → 0 ≤ o < BUDDY_MAX_ORDER - 1 →
  0 ≤ i → i + 2 ^ o ≤ n → i `mod` 2 ^ o = 0 → 0 ≤ buddy_of i o ∧ buddy_of i o + 2 ^ o ≤ n.
Proof.
  intros Hn Ho Hi Hin Hal. pose proof (pow2_pos o ltac:(lia)).
  assert (2 ^ (o + 1) = 2 * 2 ^ o) as Hp by (rewrite <-Z.pow_succ_r by lia; f_equal; lia).
  destruct (buddy_cases i o ltac:(lia) Hal) as [[Hm ->]|(Hm & Hm' & ->)].
  - split; [lia|].
    assert (n `mod` 2 ^ (o + 1) = 0) as Hn'.
    { apply Z.mod_divide; [lia|]. apply Z.mod_divide in Hn; [|lia].
      transitivity 512; [|done]. exists (2 ^ (9 - (o + 1))). unfold BUDDY_MAX_ORDER, BUDDY_2M_PAGE in Ho.
      rewrite <-Z.pow_add_r by lia. replace (9 - (o + 1) + (o + 1)) with 9 by lia. done. }
    apply Z.mod_divide in Hm as [a ->]; [|lia]. apply Z.mod_divide in Hn' as [b Hb]; [|lia].
    rewrite Hp in Hin, Hb |- *. assert (a < b) by nia. nia.
  - assert (2 ^ o ≤ i) by (pose proof (Z.mod_le i (2 ^ (o + 1)) ltac:(lia) ltac:(lia)); lia). lia.
Qed.

(** Merging a block with its free buddy. *)
Definition merge_block i o g : blocks :=
  let b := buddy_of i o in <[Z.min i b := o + 1]> (delete (Z.max i b) g).

Lemma merge_shape g i o : shape_ok n g → g !! i = Some o → g !! buddy_of i o = Some o →
  o < BUDDY_MAX_ORDER - 1 →
  shape_ok n (merge_block i o g) ∧ (∀ k, free_frame (merge_block i o g) k ↔ free_frame g k).
Proof.
  intros Hs Hi Hb Ho9. pose proof (shape_order _ _ Hs _ _ Hi).
  pose proof (pow2_pos o ltac:(lia)). pose proof (shape_align _ _ Hs _ _ Hi) as Hal.
  assert (2 ^ (o + 1) = 2 * 2 ^ o) as Hp by (rewrite <-Z.pow_succ_r by lia; f_equal; lia).
  unfold merge_block. cbv zeta. set (b := buddy_of i o) in *. set (l := Z.min i b). set (r := Z.max i b).
  assert (r = l + 2 ^ o ∧ l `mod` 2 ^ (o + 1) = 0 ∧ g !! l = Some o ∧ g !! r = Some o) as (Hr & Hal' & Hl & Hrr).
  { unfold l, r. destruct (buddy_cases i o ltac:(lia) Hal) as [[Hm E]|(Hm & Hm' & E)]; fold b in E;
      [rewrite Z.min_l, Z.max_r by lia|rewrite Z.min_r, Z.max_l by lia]; repeat split; try done; try lia.
    by rewrite E. }
  clearbody l r. clear Hi Hb Hal. clear b i.
  destruct (shape_range _ _ Hs _ _ Hl). destruct (shape_range _ _ Hs _ _ Hrr).
  pose proof (shape_delete g r Hs) as Hs1.
  assert (delete r g !! l = Some o) as Hl1 by (rewrite lookup_delete_ne by lia; done).
  assert (∀ k, free_frame (delete l (delete r g)) k ↔ free_frame g k ∧ ¬ (l ≤ k < l + 2 ^ (o + 1))) as Hf.
  { intros k. rewrite (free_frame_delete _ _ o), (free_frame_delete g r o) by done.
    rewrite Hp, Hr. intuition lia. }
  rewrite insert_as_delete. split.
  - apply shape_insert; [by apply shape_delete|apply lookup_delete_eq|lia|lia|lia|done|].
    intros k Hk. rewrite Hf. tauto.
  - intros k. rewrite free_frame_insert, Hf by apply lookup_delete_eq.
    assert (l ≤ k < l + 2 ^ o → free_frame g k) by (intros; by exists l, o).
    assert (r ≤ k < r + 2 ^ o → free_frame g k) by (intros; by exists r, o).
    destruct (decide (l ≤ k < l + 2 ^ (o + 1))); [|tauto]. split; [|tauto]. intros _.
    destruct (decide (k < r)); [auto with lia|]. auto with lia.
Qed.

(** ** Coalescing *)

Lemma split_coalesced g i o : shape_ok n g → g !! i = Some o → 0 < o →
  coalesced_except i g → coalesced_except i (split_block i o g).
Proof.
  intros Hs Hi Ho Hc j p Hj Hp9 Hji Hbi. unfold split_block in *.
  pose proof (shape_align _ _ Hs _ _ Hi) as Hal.
  assert (buddy_of i (o - 1) = i + 2 ^ (o - 1)) as Eb.
  { unfold buddy_of. replace (o - 1 + 1) with o by lia. by rewrite Hal. }
  assert (i `mod` 2 ^ (o - 1) = 0) as Hal'.
  { apply buddy_mod; [lia|]. by replace (o - 1 + 1) with o by lia. }
  assert (buddy_of (i + 2 ^ (o - 1)) (o - 1) = i) as Eb'.
  { rewrite <-Eb. by apply buddy_involutive; [lia|]. }
  apply lookup_insert_Some in Hj as [[<- <-]|[Hne Hj]]; [done|].
  rewrite lookup_insert_ne in Hj by done.
  intros [[E1 E2]|[Hne' Hb]]%lookup_insert_Some.
  - subst p. pose proof (buddy_involutive j (o - 1) ltac:(lia) (shape_align _ _ Hs _ _ Hj)) as Hv.
    rewrite <-E1, Eb' in Hv. done.
  - rewrite lookup_insert_ne in Hb by done. by apply (Hc j p).
Qed.

Lemma merge_coalesced g i o : coalesced_except i g →
  coalesced_except (Z.min i (buddy_of i o)) (merge_block i o g).
Proof.
  intros Hc j p Hj Hp9 Hjl Hbl. unfold merge_block in *. cbv zeta in *.
  rewrite lookup_insert_ne in Hj |- * by done.
  apply lookup_delete_Some in Hj as [Hjr Hj]. intros [Hbr Hb]%lookup_delete_Some.
  by apply (Hc j p Hj Hp9); [lia|lia|].
Qed.

Lemma insert_coalesced g i o : coalesced g → coalesced_except i (<[i := o]> g).
Proof.
  intros Hc j p Hj Hp9 Hji Hbi. rewrite lookup_insert_ne in Hj |- * by done. by apply Hc.
Qed.

Lemma delete_coalesced g i : coalesced_except i g → coalesced (delete i g).
Proof.
  intros Hc j p [Hj Hg]%lookup_delete_Some Hp9 [Hb Hb']%lookup_delete_Some. by apply (Hc j p).
Qed.

Lemma coalesced_weaken g i : coalesced g → coalesced_except i g.
Proof. intros Hc j p Hj Hp9 _ _. by apply Hc. Qed.

Lemma coalesced_complete g i o : shape_ok n g → coalesced_except i g → g !! i = Some o →
  (o < BUDDY_MAX_ORDER - 1 → g !! buddy_of i o ≠ Some o) → coalesced g.
Proof.
  intros Hs Hc Hi Hb j p Hj Hp9 Hjb. destruct (decide (j = i)) as [->|Hji]; [naive_solver|].
  destruct (decide (buddy_of j p = i)) as [E|Hbi]; [|by apply (Hc j p)].
  rewrite E, Hi in Hjb. injection Hjb as <-. apply Hb; [done|].
  pose proof (shape_order _ _ Hs _ _ Hj).
  rewrite <-E, buddy_involutive; [done|lia|by eapply shape_align].
Qed.
End geometry.

(** ** Representation

    [base] and [n] are the values of [pages] and [npages]. *)

Section representation.
Context `{Layout} (base n : Z).

(** Addresses of the embedded list nodes of page [i]. *)
Definition pg (i : Z) : Z := base + i * sizeof_page_info.
Definition swap_node_of (i : Z) : Z := pg i + off_swap_node.
Definition zero_node_of (i : Z) : Z := pg i + off_pp_zero_node.

Definition outside (a : Z) : Prop := 0 < a ∧ (a < base ∨ pg n ≤ a).

(** The static objects and the page array do not overlap. *)
Record layout_ok : Prop := {
  layout_base : 0 < base;
  layout_npages : 0 ≤ n < 2 ^ 31;
  layout_chunks : n `mod` 512 = 0;
  layout_heads o : 0 ≤ o < BUDDY_MAX_ORDER → outside (free_list o);
  layout_swap : outside swap_pages;
  layout_zero : outside zero_list;
  layout_distinct : swap_pages ≠ zero_list ∧
    ∀ o, 0 ≤ o < BUDDY_MAX_ORDER → free_list o ≠ swap_pages ∧ free_list o ≠ zero_list;
}.

Definition free_addr (a : Z) : Prop :=
  (∃ o, 0 ≤ o < BUDDY_MAX_ORDER ∧ a = free_list o) ∨ (∃ i, 0 ≤ i < n ∧ a = pg i).
Definition swap_addr (a : Z) : Prop :=
  a = swap_pages ∨ (∃ i, 0 ≤ i < n ∧ a = swap_node_of i).
Definition zero_addr (a : Z) : Prop :=
  a = zero_list ∨ a = NULL ∨ (∃ i, 0 ≤ i < n ∧ a = zero_node_of i).

(** [h'] differs from [h] in nodes of [C] only. *)
Definition only (C : Z → Prop) (h h' : lheap) : Prop :=
  dom h' = dom h ∧ ∀ a, ¬ C a → h' !! a = h !! a.

Lemma only_refl C h : only C h h.
Proof. done. Qed.
Lemma only_trans C h1 h2 h3 : only C h1 h2 → only C h2 h3 → only C h1 h3.
Proof. intros [D1 F1] [D2 F2]. split; [congruence|]. intros a Ha. by rewrite F2, F1. Qed.
Lemma only_frame C l h h' : frame l h h' → (∀ a, a ∈ l → C a) → only C h h'.
Proof. intros [D F] HC. split; [done|]. intros a Ha. apply F. naive_solver. Qed.

(** A list none of whose nodes is in [C] survives. *)
Lemma only_dlist C h h' head xs :
  only C h h' → (∀ a, a ∈ head :: xs → ¬ C a) → dlist h head xs → dlist h' head xs.
Proof.
  intros [D F] HC Hl. apply (dlist_frame h h' (filter (λ a, h' !! a ≠ h !! a) (elements (dom h)))); [| |done].
  - split; [done|]. intros a Ha. destruct (decide (h' !! a = h !! a)) as [|Hne]; [done|].
    destruct (decide (a ∈ dom h)) as [Hd|Hd].
    + exfalso. apply Ha, list_elem_of_filter. split; [done|]. by apply elem_of_elements.
    + rewrite (not_elem_of_dom_1 h) by done. rewrite (not_elem_of_dom_1 h'); [done|by rewrite D].
  - intros a Ha [Hne _]%list_elem_of_filter. by apply Hne, F, HC.
Qed.

Lemma pg_inj i j : pg i = pg j → i = j.
Proof. unfold pg, sizeof_page_info. lia. Qed.

Lemma pg_NoDup l : NoDup l → NoDup (pg <$> l).
Proof. apply NoDup_fmap_2. exact pg_inj. Qed.

Section addresses.
Context (L : layout_ok).

Lemma pg_pos i : 0 ≤ i → 0 < pg i.
Proof. destruct L. unfold pg, sizeof_page_info. lia. Qed.

Lemma head_not_pg o i : 0 ≤ o < BUDDY_MAX_ORDER → 0 ≤ i < n → free_list o ≠ pg i.
Proof.
  intros Ho Hi. destruct (layout_heads L o Ho) as [? ?]. unfold pg, sizeof_page_info in *. lia.
Qed.

Lemma swap_not_free a : swap_addr a → ¬ free_addr a.
Proof.
  destruct L as [? ? ? Hh Hs Hz [? Hd]]. unfold swap_addr, free_addr, outside, swap_node_of, pg, sizeof_page_info, off_swap_node in *.
  intros [->|(i & Hi & ->)] [(o & Ho & E)|(j & Hj & E)]; try lia; specialize (Hh o Ho); specialize (Hd o Ho); lia.
Qed.

Lemma zero_not_free a : zero_addr a → ¬ free_addr a.
Proof.
  destruct L as [? ? ? Hh Hs Hz [? Hd]]. unfold zero_addr, free_addr, outside, zero_node_of, pg, sizeof_page_info, off_pp_zero_node, NULL in *.
  intros [->|[->|(i & Hi & ->)]] [(o & Ho & E)|(j & Hj & E)]; try lia; specialize (Hh o Ho); specialize (Hd o Ho); lia.
Qed.

Lemma zero_not_swap a : zero_addr a → ¬ swap_addr a.
Proof.
  destruct L as [? ? ? Hh Hs Hz [? Hd]].
  unfold zero_addr, swap_addr, outside, swap_node_of, zero_node_of, pg, sizeof_page_info, off_pp_zero_node, off_swap_node, NULL in *.
  intros [->|[->|(i & Hi & ->)]] [E|(j & Hj & E)]; lia.
Qed.
End addresses.

(** The free lists hold exactly the blocks of [g], less those of [X]: blocks
    the allocator is working on.  The node of any other page is detached. *)
Definition lists_by (fl : Z → list Z) (h : lheap) (g : blocks) (X : gset Z) : Prop :=
  (∀ o, 0 ≤ o < BUDDY_MAX_ORDER → dlist h (free_list o) (pg <$> fl o)) ∧
  (∀ i o, 0 ≤ o < BUDDY_MAX_ORDER → i ∈ fl o ↔ g !! i = Some o ∧ i ∉ X) ∧
  (∀ i, 0 ≤ i < n → g !! i = None ∨ i ∈ X → detached h (pg i)).

Definition lists (h : lheap) (g : blocks) (X : gset Z) : Prop := ∃ fl, lists_by fl h g X.

Section list_ops.
Context (L : layout_ok).
Implicit Types (g : blocks) (X : gset Z) (h : lheap).

Lemma fmap_pg_elem i (l : list Z) : pg i ∈ pg <$> l ↔ i ∈ l.
Proof.
  rewrite list_elem_of_fmap. split; [intros (j & ->%pg_inj & ?); done|]. intros. by exists i.
Qed.

(** One list changes, by one page. *)
Lemma lists_step fl h h' g X X' i o l' dirty :
  shape_ok n g → lists_by fl h g X → 0 ≤ o < BUDDY_MAX_ORDER → g !! i = Some o →
  frame dirty h h' → (∀ a, a ∈ dirty → a = pg i ∨ a ∈ free_list o :: (pg <$> fl o)) →
  (∀ j, j ≠ i → j ∈ X' ↔ j ∈ X) →
  dlist h' (free_list o) (pg <$> l') → (∀ j, j ∈ l' ↔ g !! j = Some o ∧ j ∉ X') →
  (i ∈ X' → detached h' (pg i)) →
  lists h' g X' ∧ only free_addr h h'.
Proof.
  intros Hs (Hl & Hm & Hd) Ho Hi Hf Hdirty HX Hl' Hm' Hdi.
  assert (∀ j p, g !! j = Some p → 0 ≤ j < n) as Hr.
  { intros j p Hj. pose proof (shape_pow _ _ _ _ Hs Hj). apply (shape_range _ _ Hs) in Hj. lia. }
  assert (∀ j, 0 ≤ j < n → j ≠ i → (g !! j ≠ Some o ∨ j ∈ X) → pg j ∉ dirty) as Hclean.
  { intros j Hj Hji Hjo [E%pg_inj|[E|E]%elem_of_cons]%Hdirty; [done|by apply (head_not_pg L o j)|].
    rewrite fmap_pg_elem, Hm in E by done. naive_solver. }
  split.
  - exists (λ p, if decide (p = o) then l' else fl p). split_and!.
    + intros p Hp. case_decide as E; [by subst|].
      apply (dlist_frame _ _ _ _ _ Hf); [|by apply Hl].
      intros a [->|Ha]%elem_of_cons.
      * intros [Hh|[Hh|Hh]%elem_of_cons]%Hdirty.
        -- apply (head_not_pg L p i); eauto.
        -- unfold free_list in Hh. lia.
        -- apply list_elem_of_fmap in Hh as (j & Hh & Hj). apply Hm in Hj as [Hj _]; [|done].
           apply (head_not_pg L p j); eauto.
      * apply list_elem_of_fmap in Ha as (j & -> & [Hj HjX]%Hm); [|done].
        apply Hclean; [eauto|congruence|left; congruence].
    + intros j p Hp. case_decide as E; [by subst|]. rewrite Hm by done.
      destruct (decide (j = i)) as [->|Hji]; [|by rewrite HX].
      split; intros [? ?]; congruence.
    + intros j Hj Hor. destruct (decide (j = i)) as [->|Hji].
      { destruct Hor as [Hn|HiX]; [congruence|auto]. }
      rewrite HX in Hor by done. apply (dlist_frame _ _ _ _ _ Hf); [|by apply Hd].
      intros a ->%list_elem_of_singleton. apply Hclean; [done|done|].
      destruct Hor; [left; congruence|by right].
  - apply (only_frame _ dirty); [done|]. intros a [->|[->|Ha]%elem_of_cons]%Hdirty.
    + right. eauto.
    + left. eauto.
    + apply list_elem_of_fmap in Ha as (j & -> & [Hj _]%Hm); [|done]. right. eauto.
Qed.

Lemma before_in head xs a : a = before head xs → a ∈ head :: xs.
Proof. intros ->. apply before_elem. Qed.
Lemma after_in head xs a : a = after head xs → a ∈ head :: xs.
Proof. intros ->. apply after_elem. Qed.

Lemma lists_NoDup fl h g X o : lists_by fl h g X → 0 ≤ o < BUDDY_MAX_ORDER → NoDup (fl o).
Proof.
  intros (Hl & _ & _) Ho. destruct (Hl o Ho) as [Hnd _ _]. apply NoDup_cons in Hnd as [_ Hnd].
  by apply NoDup_fmap_1 in Hnd.
Qed.

Lemma lists_del h g X i o : shape_ok n g → lists h g X → g !! i = Some o → i ∉ X →
  wp (list_del (pg i)) (λ _ h', lists h' g ({[i]} ∪ X) ∧ only free_addr h h') h.
Proof.
  intros Hs [fl Hfl] Hi HiX. pose proof (shape_order _ _ Hs _ _ Hi) as Ho.
  pose proof (lists_NoDup _ _ _ _ o Hfl Ho) as Hnd.
  pose proof Hfl as (Hl & Hm & Hd).
  assert (i ∈ fl o) as Hin by (apply Hm; done).
  apply list_elem_of_split in Hin as (l1 & l2 & E). specialize (Hl o Ho).
  rewrite E, fmap_app, fmap_cons in Hl. rewrite E in Hnd.
  eapply wp_mono; [by apply list_del_spec|]. cbv beta. intros _ h' (Hl' & Hdet & Hf).
  rewrite <-fmap_app in Hl'.
  eapply (lists_step fl h h' g X _ i o); try done.
  - intros a Ha. rewrite E, fmap_app, fmap_cons. set_unfold.
    destruct Ha as [->|[Ha|[Ha|[]]]]; [by left|right..].
    + apply before_in in Ha. set_solver.
    + apply after_in in Ha. set_solver.
  - set_solver.
  - intros j. specialize (Hm j o Ho). rewrite E in Hm.
    apply NoDup_app in Hnd as (? & ? & [? ?]%NoDup_cons). set_solver.
Qed.

Lemma lists_add h g X i o : shape_ok n g → lists h g X → g !! i = Some o → i ∈ X →
  wp (list_add (free_list o) (pg i)) (λ _ h', lists h' g (X ∖ {[i]}) ∧ only free_addr h h') h.
Proof.
  intros Hs [fl Hfl] Hi HiX. pose proof (shape_order _ _ Hs _ _ Hi) as Ho.
  pose proof Hfl as (Hl & Hm & Hd).
  assert (0 ≤ i < n) as Hr.
  { pose proof (shape_pow _ _ _ _ Hs Hi). apply (shape_range _ _ Hs) in Hi. lia. }
  eapply wp_mono; [apply list_add_spec; [by apply Hl| | |]|].
  - apply (dlist_dom _ _ _ _ (Hd i Hr (or_intror HiX))). set_solver.
  - pose proof (pg_pos L i). unfold NULL. lia.
  - rewrite elem_of_cons, fmap_pg_elem, Hm by done. pose proof (head_not_pg L o i Ho Hr). naive_solver.
  - cbv beta. intros _ h' [Hl' Hf].
    eapply (lists_step fl h h' g X _ i o (i :: fl o)); try done.
    + intros a Ha. rewrite !elem_of_cons in Ha. destruct Ha as [->|[->|[Ha|[]%elem_of_nil]]];
        [by left|right; set_solver|right; by apply after_in].
    + set_solver.
    + intros j. rewrite elem_of_cons, Hm, elem_of_difference, elem_of_singleton by done.
      destruct (decide (j = i)) as [->|]; tauto.
    + set_solver.
Qed.

Lemma lists_pop h g X i0 o : shape_ok n g → lists h g X → g !! i0 = Some o → i0 ∉ X →
  wp (list_pop (free_list o)) (λ r h', ∃ i, r = pg i ∧ g !! i = Some o ∧ i ∉ X ∧
    lists h' g ({[i]} ∪ X) ∧ only free_addr h h') h.
Proof.
  intros Hs [fl Hfl] Hi0 Hi0X. pose proof (shape_order _ _ Hs _ _ Hi0) as Ho.
  pose proof (lists_NoDup _ _ _ _ o Hfl Ho) as Hnd. pose proof Hfl as (Hl & Hm & Hd).
  assert (i0 ∈ fl o) as Hin by (apply Hm; done).
  destruct (fl o) as [|i l _] eqn:E using rev_ind; [set_solver|]. specialize (Hl o Ho).
  rewrite E, fmap_app in Hl.
  assert (g !! i = Some o ∧ i ∉ X) as [Hi HiX] by (apply Hm; [done|]; rewrite E; set_solver).
  eapply wp_mono; [by apply list_pop_spec|]. cbv beta. intros r h' (-> & Hl' & Hdet & Hf).
  exists i. do 3 (split; [done|]). eapply (lists_step fl h h' g X _ i o l); try done.
  - intros a Ha. rewrite E, fmap_app. set_unfold. destruct Ha as [->|[Ha|[->|[]]]]; [by left|right..].
    + apply before_in in Ha. set_solver.
    + by left.
  - set_solver.
  - intros j. specialize (Hm j o Ho). rewrite E in Hm.
    apply NoDup_app in Hnd as (? & ? & ?). set_solver.
Qed.

Lemma lists_empty h g X o : lists h g X → 0 ≤ o < BUDDY_MAX_ORDER →
  ∃ b, list_is_empty (free_list o) h = OK b h ∧
    if b then ∀ i, g !! i = Some o → i ∈ X else ∃ i, g !! i = Some o ∧ i ∉ X.
Proof.
  intros (fl & Hl & Hm & _) Ho. eexists. split; [by apply list_is_empty_spec, Hl|].
  case_bool_decide as E.
  - apply fmap_nil_inv in E. intros i Hi. destruct (decide (i ∈ X)) as [|HX]; [done|].
    assert (i ∈ fl o) as Hin by (by apply Hm). rewrite E in Hin. set_solver.
  - destruct (fl o) as [|i l] eqn:El; [done|]. exists i. apply Hm; [done|]. rewrite El. set_solver.
Qed.

(** The lists only depend on the blocks that are not being worked on. *)
Lemma lists_ghost h g X g' X' :
  (∀ j o, g' !! j = Some o ∧ j ∉ X' ↔ g !! j = Some o ∧ j ∉ X) → lists h g X → lists h g' X'.
Proof.
  intros Hgg (fl & Hl & Hm & Hd). exists fl. split_and!; [done| |].
  - intros i o Ho. by rewrite Hm, Hgg.
  - intros i Hi Hor. apply Hd; [done|]. destruct (g !! i) as [o|] eqn:E; [right|by left].
    destruct (decide (i ∈ X)) as [|HX]; [done|]. specialize (Hgg i o). naive_solver.
Qed.
End list_ops.

(** The [page_info] array describes the blocks of [g]. *)
Definition describes (p : page_info) (b : option Z) : Prop :=
  0 ≤ pp_order p < BUDDY_MAX_ORDER ∧
  match b with Some o => pp_free p = 1 ∧ pp_order p = o | None => pp_free p = 0 end.

Definition rep (I : gmap Z page_info) (g : blocks) : Prop :=
  ∀ i, 0 ≤ i < n → ∃ p, I !! pg i = Some p ∧ describes p (g !! i).

Lemma rep_insert I g g' i p' : rep I g → describes p' (g' !! i) →
  (∀ j, j ≠ i → g' !! j = g !! j) → rep (<[pg i := p']> I) g'.
Proof.
  intros Hr Hp Hg j Hj. destruct (decide (j = i)) as [->|Hne].
  - exists p'. split; [apply lookup_insert_eq|done].
  - rewrite lookup_insert_ne, Hg by (try intros ?%pg_inj; congruence). by apply Hr.
Qed.

(** The allocator's state, its locks aside, while it works on the blocks [X]. *)
Record core (m : mem) (g : blocks) (X : gset Z) : Prop := {
  core_pages : pages m = base;
  core_npages : npages m = n;
  core_shape : shape_ok n g;
  core_rep : rep (infos m) g;
  core_lists : lists (heap m) g X;
}.

(** What splitting and merging leave alone: the nodes of other lists, the
    pages in use, the fields owned by the clients, the locks and the memory
    itself. *)
Definition client (p : page_info) : Z * Z * Z := (pp_ref p, pp_zero p, rmap p).

Lemma client_ref (x y : option page_info) : client <$> x = client <$> y → pp_ref <$> x = pp_ref <$> y.
Proof. destruct x, y; simpl; unfold client; intros; congruence. Qed.

Record keeps (g : blocks) (m m' : mem) : Prop := {
  keeps_heap : only free_addr (heap m) (heap m');
  keeps_used a : (∀ k, 0 ≤ k < n → free_frame g k → a ≠ pg k) → infos m' !! a = infos m !! a;
  keeps_client a : client <$> infos m' !! a = client <$> infos m !! a;
  keeps_rest : m' = set_infos (infos m') (set_heap (heap m') m);
}.

Lemma keeps_refl g m : keeps g m m.
Proof. split; try done. by destruct m. Qed.

Lemma keeps_weaken g g' m m' : (∀ k, free_frame g' k → free_frame g k) → keeps g' m m' → keeps g m m'.
Proof. intros Hg [H1 U1 R1 E1]. split; [done| |done|done]. intros a Ha. apply U1. naive_solver. Qed.

Lemma keeps_trans g m1 m2 m3 : keeps g m1 m2 → keeps g m2 m3 → keeps g m1 m3.
Proof.
  intros [H1 U1 R1 E1] [H2 U2 R2 E2]. split.
  - by eapply only_trans.
  - intros a Ha. rewrite U2, U1; done.
  - intros a. by rewrite R2, R1.
  - rewrite E2, E1. done.
Qed.

Lemma keeps_set_heap g m h : only free_addr (heap m) h → keeps g m (set_heap h m).
Proof. intros. by split. Qed.

Lemma keeps_page_upd g m i p f : infos m !! pg i = Some p → 0 ≤ i < n → free_frame g i →
  client (f p) = client p → keeps g m (set_infos (<[pg i := f p]> (infos m)) m).
Proof.
  intros Hp Hi Hg Hf. split; [done| | |done]; simpl.
  - intros a Ha. apply lookup_insert_ne. intros <-. by apply (Ha i).
  - intros a. rewrite lookup_insert. case_decide; [subst|done]. rewrite Hp. simpl. by rewrite Hf.
Qed.

(** ** Steps of the code on a represented state *)

Lemma wp_page_get a m p (Q : page_info → mem → Prop) :
  infos m !! a = Some p → Q p m → wp (page_get a) Q m.
Proof. intros Hp HQ. by eapply wp_deref. Qed.

Lemma wp_page_get_inv a m p (Q : page_info → mem → Prop) :
  infos m !! a = Some p → wp (page_get a) Q m → Q p m.
Proof. intros Hp. by apply (wp_deref_inv (λ m, infos m !! a)). Qed.

Lemma wp_page_upd a f m p (Q : unit → mem → Prop) :
  infos m !! a = Some p → Q tt (set_infos (<[a := f p]> (infos m)) m) → wp (page_upd a f) Q m.
Proof. intros Hp HQ. unfold page_upd. wp_step. by eapply wp_page_get. Qed.

Lemma page_index_of i : 0 ≤ i < 2 ^ 31 →
  u64 (Z.shiftl ((pg i - base) `div` sizeof_page_info) PAGE_TABLE_SHIFT) = i * PAGE_SIZE.
Proof.
  intros Hi. unfold pg, u64, PAGE_TABLE_SHIFT, PAGE_SIZE. rewrite Z.shiftl_mul_pow2 by lia.
  replace (base + i * sizeof_page_info - base) with (i * sizeof_page_info) by lia.
  rewrite Z.div_mul by done. change (2 ^ 12) with 4096. apply Z.mod_small. lia.
Qed.

Lemma shift_half o : 0 < o → Z.shiftl 1 o `div` 2 = 2 ^ (o - 1).
Proof. intros Ho. by rewrite Z.shiftl_1_l, (pow2_half o Ho), Z.mul_comm, Z.div_mul. Qed.

Lemma s32_small x : 0 ≤ x < 2 ^ 31 → s32 x = x.
Proof. intros. unfold s32. rewrite Z.mod_small; lia. Qed.

Lemma wp_page2pa i m (Q : Z → mem → Prop) : pages m = base → 0 ≤ i < 2 ^ 31 →
  Q (i * PAGE_SIZE) m → wp (page2pa (pg i)) Q m.
Proof.
  intros Hb Hi HQ. unfold page2pa. wp_step. wp_step. rewrite Hb, page_index_of by done. done.
Qed.

Lemma wp_page_at i m (Q : Z → mem → Prop) : pages m = base → Q (pg i) m → wp (page_at i) Q m.
Proof. intros Hb HQ. unfold page_at. wp_steps. by rewrite Hb. Qed.

Section steps.
Context (L : layout_ok).
Implicit Types (m : mem) (g : blocks) (X : gset Z).

Lemma core_info m g X i o : core m g X → g !! i = Some o →
  0 ≤ i < n ∧ 0 ≤ i < 2 ^ 31 ∧ 0 ≤ o < BUDDY_MAX_ORDER ∧ i `mod` 2 ^ o = 0 ∧ i + 2 ^ o ≤ n ∧
  ∃ p, infos m !! pg i = Some p ∧ pp_free p = 1 ∧ pp_order p = o.
Proof.
  intros [_ _ Hs Hr _] Hi. pose proof (shape_pow _ _ _ _ Hs Hi).
  pose proof (shape_order _ _ Hs _ _ Hi). pose proof (shape_align _ _ Hs _ _ Hi).
  destruct (shape_range _ _ Hs _ _ Hi). destruct L as [_ ? _ _ _ _ _].
  destruct (Hr i ltac:(lia)) as (p & Hp & _ & Hd). rewrite Hi in Hd.
  split_and!; try lia. by exists p.
Qed.

(** [list_del] makes a block one that is worked on, whether it was linked or not. *)
Lemma lists_unlink h g X i o : shape_ok n g → lists h g X → g !! i = Some o →
  wp (list_del (pg i)) (λ _ h', lists h' g ({[i]} ∪ X) ∧ only free_addr h h') h.
Proof.
  intros Hs Hl Hi. destruct (decide (i ∈ X)) as [HX|HX]; [|by eapply lists_del].
  eapply wp_OK; [apply list_del_detached|].
  - destruct Hl as (fl & _ & _ & Hd). apply Hd; [|by right].
    pose proof (shape_pow _ _ _ _ Hs Hi). destruct (shape_range _ _ Hs _ _ Hi). lia.
  - by replace ({[i]} ∪ X) with X by set_solver.
Qed.

Lemma core_unlink m g X i o : core m g X → g !! i = Some o →
  wp (on_heap (list_del (pg i))) (λ _ m', core m' g ({[i]} ∪ X) ∧ keeps g m m' ∧ infos m' = infos m) m.
Proof.
  intros [Hb Hn Hs Hr Hl] Hi. apply wp_zoom.
  eapply wp_mono; [by eapply lists_unlink|]. intros _ h' [Hl' Ho]. split; [by split|].
  split; [by apply keeps_set_heap|done].
Qed.

Lemma core_link m g X i o : core m g X → g !! i = Some o → i ∈ X →
  wp (on_heap (list_add (free_list o) (pg i)))
    (λ _ m', core m' g (X ∖ {[i]}) ∧ keeps g m m' ∧ infos m' = infos m) m.
Proof.
  intros Hc Hi HX. pose proof Hc as [Hb Hn Hs Hr Hl]. apply wp_zoom.
  eapply wp_mono; [by eapply lists_add|]. intros _ h' [Hl' Ho]. split; [by split|].
  split; [by apply keeps_set_heap|done].
Qed.

Lemma core_empty m g X o (Q : bool → mem → Prop) : core m g X → 0 ≤ o < BUDDY_MAX_ORDER →
  (∀ b : bool, (if b then ∀ i, g !! i = Some o → i ∈ X else ∃ i, g !! i = Some o ∧ i ∉ X) → Q b m) →
  wp (on_heap (list_is_empty (free_list o))) Q m.
Proof.
  intros Hc Ho HQ. apply wp_zoom.
  destruct (lists_empty L (heap m) g X o (core_lists _ _ _ Hc) Ho) as (b & Hb & Hcase).
  eapply wp_OK; [done|]. replace (set_heap (heap m) m) with m by (by destruct m). by apply HQ.
Qed.

Lemma core_pop m g X i0 o : core m g X → g !! i0 = Some o → i0 ∉ X →
  wp (on_heap (list_pop (free_list o))) (λ r m', ∃ i, r = pg i ∧ g !! i = Some o ∧ i ∉ X ∧
    core m' g ({[i]} ∪ X) ∧ keeps g m m') m.
Proof.
  intros [Hb Hn Hs Hr Hl] Hi HX. apply wp_zoom.
  eapply wp_mono; [by eapply lists_pop|]. intros r h' (i & -> & Hi' & HiX & Hl' & Ho).
  exists i. do 3 (split; [done|]). split; [by split|by apply keeps_set_heap].
Qed.

Lemma held_absorb i X : X ⊆ {[i]} → {[i]} ∪ X = {[i]}.
Proof. set_solver. Qed.

Lemma held_empty i b : i ≠ b → ({[i; b]} ∖ {[i]} ∖ {[b]} : gset Z) = ∅.
Proof. set_solver. Qed.

(** Updating the two [page_info]s of a split. *)
Lemma split_infos m g i o p q : core m g {[i]} → g !! i = Some o → 0 < o →
  let b := i + 2 ^ (o - 1) in
  infos m !! pg i = Some p → infos m !! pg b = Some q →
  let p' := set_order (pp_order p - 1) p in
  let q' := set_free 1 (set_order (pp_order p') q) in
  let m' := set_infos (<[pg b := q']> (<[pg i := p']> (infos m))) m in
  core m' (split_block i o g) {[i; b]} ∧ keeps g m m' ∧ pp_order p' = o - 1.
Proof.
  intros Hc Hi Ho b Hp Hq p' q' m'.
  destruct (core_info _ _ _ _ _ Hc Hi) as (Hr & _ & Ho' & _ & Hin & p0 & Hp0 & Hpf & Hpo).
  assert (p0 = p) as -> by congruence. pose proof Hc as [Hb Hn Hs Hrep Hl].
  pose proof (pow2_half o Ho). pose proof (pow2_pos (o - 1) ltac:(lia)).
  destruct (split_shape n g i o Hs Hi Ho) as [Hs' Hff].
  assert (pp_order p' = o - 1) as Ep.
  { unfold p'; simpl. rewrite Hpo. unfold BUDDY_MAX_ORDER, BUDDY_2M_PAGE in *. apply Z.mod_small. lia. }
  assert (pp_order q' = o - 1) as Eq.
  { change (pp_order q') with (pp_order p' `mod` 2 ^ 7). rewrite Ep. unfold BUDDY_MAX_ORDER, BUDDY_2M_PAGE in *. apply Z.mod_small. lia. }
  assert (free_frame g b) as Hfb by (exists i, o; unfold b; split; [done|lia]).
  assert (free_frame g i) as Hfi by (exists i, o; split; [done|lia]).
  assert (pg b ≠ pg i) as Hne by (intros ?%pg_inj; unfold b in *; lia).
  split_and!; [|split|done].
  - split; [done|done|done| |].
    + apply (rep_insert _ (<[i := o - 1]> g)).
      * apply (rep_insert _ g); [done| |intros; by rewrite lookup_insert_ne by done].
        rewrite lookup_insert_eq. split; [rewrite Ep; lia|]. by rewrite Ep.
      * unfold split_block. fold b. rewrite lookup_insert_eq. split; [rewrite Eq; lia|]. by rewrite Eq.
      * intros j Hj. unfold split_block. fold b. by rewrite lookup_insert_ne by done.
    + apply (lists_ghost _ g {[i]}); [|done]. intros j p1. unfold split_block. fold b.
      rewrite !lookup_insert. pose proof (buddy_absent n g i o Hs Hi Ho) as Hbn. fold b in Hbn.
      repeat case_decide; subst; set_solver.
  - done.
  - intros a Ha. simpl. rewrite !lookup_insert_ne; [done| |].
    + intros <-. by apply (Ha i).
    + intros <-. apply (Ha b); [|done|done]. unfold b. lia.
  - intros a. simpl. rewrite !lookup_insert. repeat case_decide; subst; rewrite ?Hp, ?Hq; done.
  - done.
Qed.

Lemma buddy_split_spec fuel m g X i o req :
  core m g X → X ⊆ {[i]} → g !! i = Some o → 0 ≤ req ≤ o → (Z.to_nat (o - req) < fuel)%nat →
  wp (buddy_split_rec fuel (pg i) req) (λ r m', r = pg i ∧ ∃ g' X', core m' g' X' ∧ X' ⊆ {[i]} ∧
    g' !! i = Some req ∧ (∀ k, free_frame g' k ↔ free_frame g k) ∧ keeps g m m' ∧
    (coalesced_except i g → coalesced_except i g')) m.
Proof.
  revert m g X o. induction fuel as [|fuel IH]; intros m g X o Hc HX Hi Hreq Hfuel; [lia|]. simpl.
  destruct (core_info _ _ _ _ _ Hc Hi) as (Hr & Hr31 & Ho' & Hal & Hin & p & Hp & Hpf & Hpo).
  wp_step. eapply wp_page_get; [done|]. rewrite Hpo. wp_if E.
  { apply Z.eqb_eq in E as ->. wp_step. split; [done|]. exists g, X. split_and!; try done. apply keeps_refl. }
  apply Z.eqb_neq in E. assert (0 < o) as Ho by lia.
  pose proof (pow2_half o Ho) as Hhalf. pose proof (pow2_pos (o - 1) ltac:(lia)).
  pose proof (layout_npages L) as HnL.
  wp_step. apply wp_page2pa; [apply Hc|done|]. rewrite Z.div_mul by done. cbv zeta.
  rewrite shift_half, (s32_small i), (s32_small (i + 2 ^ (o - 1))) by lia.
  wp_step. apply wp_page_at; [apply Hc|]. set (b := i + 2 ^ (o - 1)).
  wp_step. eapply wp_mono; [by eapply core_unlink|]. intros _ m1 (Hc1 & Hk1 & Hi1).
  rewrite held_absorb in Hc1 by done.
  rewrite <-Hi1 in Hp. destruct (core_rep _ _ _ Hc1 b ltac:(lia)) as (q & Hq & _).
  assert (pg b ≠ pg i) as Hne by (intros ?%pg_inj; unfold b in *; lia).
  pose proof (split_infos m1 g i o p q Hc1 Hi Ho Hp Hq) as (Hc2 & Hk2 & Ep).
  wp_step. eapply wp_page_upd; [done|].
  wp_step. eapply wp_page_get; [simpl; apply lookup_insert_eq|].
  wp_step. eapply wp_page_upd; [simpl; rewrite lookup_insert_ne by done; done|]. simpl.
  wp_step. eapply wp_page_upd; [simpl; apply lookup_insert_eq|]. simpl. rewrite insert_insert_eq.
  wp_step. eapply wp_page_get; [simpl; rewrite lookup_insert_ne by done; apply lookup_insert_eq|].
  fold b in Hc2, Hk2.
  match type of Hc2 with core ?s _ _ => set (m2 := s) in * end.
  match goal with |- wp _ _ ?s => change s with m2 end. rewrite Ep.
  set (g2 := split_block i o g) in *.
  assert (g2 !! b = Some (o - 1)) as Hb2 by apply lookup_insert_eq.
  assert (g2 !! i = Some (o - 1)) as Hi2.
  { unfold g2, split_block. fold b. rewrite lookup_insert_ne by congruence. apply lookup_insert_eq. }
  destruct (split_shape n g i o (core_shape _ _ _ Hc) Hi Ho) as [_ Hff]. fold g2 in Hff.
  wp_step. eapply wp_mono; [eapply (core_link m2); [done|done|clear; set_solver]|].
  intros _ m3 (Hc3 & Hk3 & _).
  assert (i ≠ b) as Hib by congruence.
  wp_step. eapply wp_mono; [eapply (core_link m3); [done|done|clear -Hib; set_solver]|].
  intros _ m4 (Hc4 & Hk4 & _). rewrite held_empty in Hc4 by done.
  eapply wp_mono; [eapply (IH m4 g2 ∅ (o - 1)); [done|clear; set_solver|done|lia|lia]|].
  cbv beta. intros r m5 (-> & g' & X' & Hc5 & HX' & Hi5 & Hff5 & Hk5 & Hco). split; [done|].
  exists g', X'. split_and!; try done.
  - intros k. by rewrite Hff5, Hff.
  - assert (∀ m m', keeps g2 m m' → keeps g m m') as Hw
      by (intros m' m''; apply keeps_weaken; intros k; by rewrite Hff).
    eauto 6 using keeps_trans.
  - intros Hcg. apply Hco. by eapply split_coalesced; [apply Hc|..].
Qed.

(** Updating the two [page_info]s of a merge of [l] and its right buddy [r]. *)
Lemma merge_infos m g l r o pl pr :
  let g' := <[l := o + 1]> (delete r g) in
  core m g {[l; r]} → l ≠ r → g !! l = Some o → g !! r = Some o → o < BUDDY_MAX_ORDER - 1 →
  shape_ok n g' → infos m !! pg l = Some pl → infos m !! pg r = Some pr →
  let pl' := set_order (pp_order pl + 1) pl in
  let m' := set_infos (<[pg l := pl']> (<[pg r := set_free 0 pr]> (infos m))) m in
  core m' g' {[l]} ∧ keeps g m m' ∧ pp_order pl' = o + 1.
Proof.
  intros g' Hc Hlr Hl Hr Ho Hs' Hpl Hpr pl' m'.
  destruct (core_info _ _ _ _ _ Hc Hl) as (? & _ & ? & _ & _ & ? & ? & Hlf & Hlo).
  destruct (core_info _ _ _ _ _ Hc Hr) as (? & _ & ? & _ & _ & ? & ? & Hrf & Hro). simplify_eq.
  pose proof Hc as [Hb Hn Hs Hrep Hls].
  assert (pp_order pl' = pp_order pl + 1) as Ep.
  { unfold pl'; simpl. unfold BUDDY_MAX_ORDER, BUDDY_2M_PAGE in *. apply Z.mod_small. lia. }
  split_and!; [|split|done].
  - split; [done|done|done| |].
    + apply (rep_insert _ (delete r g)).
      * apply (rep_insert _ g); [done| |intros; by rewrite lookup_delete_ne by done].
        rewrite lookup_delete_eq. split; [simpl; lia|done].
      * unfold g'. rewrite lookup_insert_eq. split; [rewrite Ep; lia|]. by rewrite Ep.
      * intros j Hj. unfold g'. by rewrite lookup_insert_ne by done.
    + apply (lists_ghost _ g {[l; r]}); [|done]. intros j p1. unfold g'.
      rewrite lookup_insert, lookup_delete. clear -Hlr.
      repeat case_decide; subst; set_solver.
  - done.
  - intros a Ha. simpl. rewrite !lookup_insert_ne; [done| |].
    + intros <-. apply (Ha r); [done|by eapply free_frame_start|done].
    + intros <-. apply (Ha l); [done|by eapply free_frame_start|done].
  - intros a. simpl. rewrite !lookup_insert. repeat case_decide; simplify_eq/=; rewrite ?Hpl, ?Hpr; done.
  - done.
Qed.

(** What [buddy_merge] promises: either it has linked the page, merged or
    not ([NULL]), or there is nothing to merge and the caller links it. *)
Definition merge_post (g : blocks) (X : gset Z) (m : mem) (i r : Z) (m' : mem) : Prop :=
  ∃ g', (∀ k, free_frame g' k ↔ free_frame g k) ∧ keeps g m m' ∧
    (coalesced_except i g → coalesced g') ∧
    ((r = NULL ∧ core m' g' ∅) ∨ (r = pg i ∧ g' = g ∧ m' = m)).

Lemma merge_stop g X m i o r : core m g X → g !! i = Some o →
  (o < BUDDY_MAX_ORDER - 1 → g !! buddy_of i o ≠ Some o) →
  (r = NULL ∧ X = ∅) ∨ r = pg i → merge_post g X m i r m.
Proof.
  intros Hc Hi Hb Hr. exists g. split; [done|]. split; [apply keeps_refl|]. split.
  - intros Hco. eapply coalesced_complete; [apply Hc|done..].
  - destruct Hr as [[-> ->]| ->]; [left|right]; done.
Qed.

(** The part of [buddy_merge] after the buddy has been found free. *)
Definition join (fuel : nat) (page buddy l r : Z) : M mem Z :=
  on_heap (list_del buddy);;
  on_heap (list_del page);;
  page_upd r (set_free 0);;
  page_upd l (λ l, set_order (pp_order l + 1) l);;
  p ← page_get l;
  on_heap (list_add (free_list (pp_order p)) l);;
  buddy_merge_rec fuel l;;
  mret NULL.

Lemma join_spec fuel m g X i o :
  core m g X → X ⊆ {[i]} → g !! i = Some o → o < BUDDY_MAX_ORDER - 1 →
  g !! buddy_of i o = Some o →
  let l := Z.min i (buddy_of i o) in let r := Z.max i (buddy_of i o) in
  (∀ m1 g1, core m1 g1 ∅ → g1 !! l = Some (o + 1) →
    wp (buddy_merge_rec fuel (pg l)) (merge_post g1 ∅ m1 l) m1) →
  wp (join fuel (pg i) (pg (buddy_of i o)) (pg l) (pg r)) (merge_post g X m i) m.
Proof.
  intros Hc HX Hi Ho Hb l r IH.
  pose proof (core_shape _ _ _ Hc) as Hs.
  destruct (merge_shape n g i o Hs Hi Hb Ho) as [Hs' Hff].
  pose proof (merge_coalesced g i o) as Hco.
  assert (buddy_of i o ≠ i) as Hbi.
  { pose proof (shape_order _ _ Hs _ _ Hi). pose proof (pow2_pos o ltac:(lia)).
    destruct (buddy_cases i o ltac:(lia) (shape_align _ _ Hs _ _ Hi)) as [[_ ->]|(_&_&->)]; lia. }
  unfold merge_block in *. cbv zeta in *. fold l r in Hs', Hff, Hco. set (b := buddy_of i o) in *.
  assert (l ≠ r ∧ g !! l = Some o ∧ g !! r = Some o ∧ {[i]} ∪ ({[b]} ∪ X) = {[l; r]}) as (Hlr & Hl & Hr & HXlr).
  { unfold l, r. clear -HX Hbi Hi Hb. clearbody b.
    destruct (Z.min_spec i b) as [[? ->]|[? ->]], (Z.max_spec i b) as [[? ->]|[? ->]];
      try lia; split_and!; try done; set_solver. }
  clearbody b l r. unfold join.
  wp_step. eapply wp_mono; [by eapply core_unlink|]. intros _ m1 (Hc1 & Hk1 & _).
  wp_step. eapply wp_mono; [by eapply core_unlink|]. intros _ m2 (Hc2 & Hk2 & _). rewrite HXlr in Hc2.
  destruct (core_info _ _ _ _ _ Hc2 Hl) as (_ & _ & _ & _ & _ & pl & Hpl & _).
  destruct (core_info _ _ _ _ _ Hc2 Hr) as (_ & _ & _ & _ & _ & pr & Hpr & _).
  destruct (merge_infos m2 g l r o pl pr Hc2) as (Hc3 & Hk3 & Ep); try done.
  assert (pg r ≠ pg l) as Hne by (intros ?%pg_inj; congruence).
  wp_step. eapply wp_page_upd; [done|].
  wp_step. eapply wp_page_upd; [simpl; rewrite lookup_insert_ne by done; done|].
  wp_step. eapply wp_page_get; [simpl; apply lookup_insert_eq|]. rewrite Ep.
  match type of Hc3 with core ?s _ _ => set (m3 := s) in * end.
  match goal with |- wp _ _ ?s => change s with m3 end.
  wp_step. eapply wp_mono; [eapply (core_link m3); [done|apply lookup_insert_eq|clear; set_solver]|].
  intros _ m4 (Hc4 & Hk4 & _). rewrite difference_diag_L in Hc4.
  wp_step. eapply wp_mono; [eapply IH; [done|apply lookup_insert_eq]|].
  intros r' m5 (g5 & Hff5 & Hk5 & Hco5 & Hres). wp_step.
  exists g5. split_and!.
  - intros k. by rewrite Hff5, Hff.
  - assert (∀ m m', keeps (<[l:=o + 1]> (delete r g)) m m' → keeps g m m') as Hw
      by (intros m' m''; apply keeps_weaken; intros k; by rewrite Hff).
    eauto 6 using keeps_trans.
  - intros Hcg. by apply Hco5, Hco.
  - left. split; [done|]. destruct Hres as [[_ ?]|(_ & -> & ->)]; done.
Qed.

Lemma buddy_merge_spec fuel m g X i o :
  core m g X → X ⊆ {[i]} → g !! i = Some o → (o < BUDDY_MAX_ORDER - 1 ∨ X = ∅) →
  (Z.to_nat (BUDDY_MAX_ORDER - 1 - o) < fuel)%nat →
  wp (buddy_merge_rec fuel (pg i)) (merge_post g X m i) m.
Proof.
  revert m g X i o. induction fuel as [|fuel IH]; intros m g X i o Hc HX Hi Ho9 Hfuel; [lia|]. simpl.
  destruct (core_info _ _ _ _ _ Hc Hi) as (Hr & Hr31 & Ho & Hal & Hin & p & Hp & Hpf & Hpo).
  wp_step. eapply wp_page_get; [done|]. rewrite Hpo.
  wp_step. apply wp_page2pa; [apply Hc|done|]. rewrite Z.div_mul by done. rewrite (s32_small i) by done.
  wp_if E.
  { apply Z.eqb_eq in E. wp_step. apply (merge_stop _ _ _ _ o); [done|done|lia|].
    destruct Ho9 as [| ->]; [lia|by left]. }
  apply Z.eqb_neq in E. assert (o < BUDDY_MAX_ORDER - 1) as Ho' by lia.
  assert (buddy_of i o ≠ i ∧ 0 ≤ buddy_of i o < n) as [Hbi Hbr].
  { pose proof (pow2_pos o ltac:(lia)). split.
    - destruct (buddy_cases i o ltac:(lia) Hal) as [[_ ->]|(_&_&->)]; lia.
    - pose proof (buddy_range n i o (layout_chunks L) ltac:(lia) ltac:(lia) Hin Hal). lia. }
  wp_step. eapply core_empty; [done|lia|]. intros [] He.
  { wp_step. apply (merge_stop _ _ _ _ o); [done|done| |by right]. intros _ Hb%He. set_solver. }
  clear He. rewrite Z.shiftl_1_l.
  assert (u64 i `mod` (2 ^ o * 2) = i `mod` 2 ^ (o + 1)) as ->.
  { unfold u64. rewrite (Z.mod_small i) by lia. by rewrite Z.pow_add_r by lia. }
  fold (buddy_of i o).
  wp_step. apply wp_page_at; [apply Hc|]. fold (buddy_of i o).
  wp_step. eapply wp_page_get; [done|].
  destruct (core_rep _ _ _ Hc _ Hbr) as (q & Hq & Hqo & Hqd).
  wp_step. eapply wp_page_get; [done|].
  rewrite Hpf, Hpo. wp_if Ec.
  2:{ wp_step. apply (merge_stop _ _ _ _ o); [done|done| |by right]. intros _ Hb. rewrite Hb in Hqd.
      destruct Hqd as [Hqf Hqo']. rewrite Hqf, Hqo', Z.eqb_refl in Ec. done. }
  assert (g !! buddy_of i o = Some o) as Hb.
  { apply andb_true_iff in Ec as [Ec1 Ec2%Z.eqb_eq].
    destruct (g !! buddy_of i o) as [o'|]; [|by rewrite Hqd in Ec1]. f_equal. destruct Hqd. congruence. }
  assert (∀ m1 g1, core m1 g1 ∅ → g1 !! Z.min i (buddy_of i o) = Some (o + 1) →
    wp (buddy_merge_rec fuel (pg (Z.min i (buddy_of i o)))) (merge_post g1 ∅ m1 (Z.min i (buddy_of i o))) m1) as IH'.
  { intros m1 g1 Hc1 Hg1. apply (IH m1 g1 ∅ _ (o + 1)); [done|set_solver|done|by right|lia]. }
  pose proof (join_spec fuel m g X i o Hc HX Hi Ho' Hb IH') as Hj. unfold join in Hj.
  assert (pg (buddy_of i o) ≠ pg i) as Hne by (by intros ?%pg_inj).
  assert (0 < 2 ^ o) by (pose proof (pow2_pos o); lia).
  destruct (buddy_cases i o ltac:(lia) Hal) as [[Hm Eb]|(Hm & _ & Eb)]; rewrite Hm; simpl.
  - rewrite (proj2 (Z.eqb_neq _ _) Hne). rewrite Z.min_l, Z.max_r in Hj by lia. exact Hj.
  - rewrite (proj2 (Z.eqb_neq (2 ^ o) 0)) by lia. rewrite Z.eqb_refl.
    rewrite Z.min_r, Z.max_l in Hj by lia. exact Hj.
Qed.

(** [buddy_find]: the page found is of the requested order, possibly
    still linked; nothing is found only if no block is large enough. *)
Definition find_post (g : blocks) (m : mem) (req r : Z) (m' : mem) : Prop :=
  (r = NULL ∧ m' = m ∧ ∀ i o, g !! i = Some o → o < req) ∨
  (∃ i g' X', r = pg i ∧ core m' g' X' ∧ X' ⊆ {[i]} ∧ g' !! i = Some req ∧
    (∀ k, free_frame g' k ↔ free_frame g k) ∧ keeps g m m' ∧
    (coalesced_except i g → coalesced_except i g')).

Lemma buddy_find_above_spec k m g o req :
  core m g ∅ → 0 ≤ req ≤ o → o + Z.of_nat k = BUDDY_MAX_ORDER →
  (∀ i p, g !! i = Some p → p < req ∨ o ≤ p) →
  wp (buddy_find_above k o req) (find_post g m req) m.
Proof.
  revert o. induction k as [|k IH]; intros o Hc Hreq Hk Hlow; simpl.
  - wp_step. left. split_and!; [done|done|]. intros i p Hi.
    pose proof (shape_order _ _ (core_shape _ _ _ Hc) _ _ Hi). destruct (Hlow i p Hi); lia.
  - wp_step. eapply core_empty; [done|lia|]. intros [] He.
    + apply IH; [done|lia|lia|]. intros i p Hi. destruct (decide (p = o)) as [->|].
      * apply He in Hi. set_solver.
      * destruct (Hlow i p Hi); lia.
    + destruct He as (i0 & Hi0 & _). wp_step.
      eapply wp_mono; [eapply core_pop; [done|done|set_solver]|].
      intros r m1 (i & -> & Hi & _ & Hc1 & Hk1). rewrite union_empty_r_L in Hc1.
      eapply wp_mono; [eapply buddy_split_spec; [done|done|done|lia|]|].
      { pose proof (shape_order _ _ (core_shape _ _ _ Hc) _ _ Hi).
        unfold order_fuel, BUDDY_MAX_ORDER, BUDDY_2M_PAGE in *. lia. }
      intros r m2 (-> & g' & X' & ? & ? & ? & ? & ? & ?). right. exists i, g', X'.
      split_and!; try done. by eapply keeps_trans.
Qed.

Lemma buddy_find_spec m g req : core m g ∅ → 0 ≤ req < BUDDY_MAX_ORDER →
  wp (buddy_find req) (find_post g m req) m.
Proof.
  intros Hc Hreq. unfold buddy_find. wp_step. eapply core_empty; [done|lia|]. intros [] He; simpl.
  - apply buddy_find_above_spec; [done|lia|lia|]. intros i p Hi.
    destruct (decide (p = req)) as [->|]; [apply He in Hi; set_solver|lia].
  - destruct He as (i0 & Hi0 & _).
    eapply wp_mono; [eapply core_pop; [done|done|set_solver]|].
    intros r m1 (i & -> & Hi & _ & Hc1 & Hk1). rewrite union_empty_r_L in Hc1.
    right. by exists i, g, {[i]}.
Qed.
End steps.

(** ** The other lists *)

(** The pages on the swap list; its head is initialised after the allocator,
    so an empty list need not have one. *)
Definition swap_list (init : bool) (h : lheap) : Prop := ∃ sl,
  ((init = false ∧ sl = []) ∨ dlist h swap_pages (swap_node_of <$> sl)) ∧ (∀ i, i ∈ sl → 0 ≤ i < n) ∧
  (∀ i, 0 ≤ i < n → i ∉ sl → detached h (swap_node_of i)).
Definition swap_ok : lheap → Prop := swap_list false.

(** The zero list is only promised to be closed: its first node is a node.
    (It is never initialised, and [page_free] may link a page twice.)  Its head
    is zero at first, so the first [list_add] of [page_free] stores through the
    NULL pointer, which is a node here: page 0 is mapped while [page_init] runs,
    and after this first call the pointer is not NULL any more. *)
Definition zero_ok (h : lheap) : Prop :=
  (∃ a, nx h zero_list = Some a ∧ zero_addr a ∧ a ∈ dom h) ∧
  (∀ i, 0 ≤ i < n → zero_node_of i ∈ dom h).

Lemma lists_only C h h' g X : only C h h' → (∀ a, free_addr a → ¬ C a) → shape_ok n g →
  lists h g X → lists h' g X.
Proof.
  intros Ho HC Hs (fl & Hl & Hm & Hd). exists fl. split_and!; [|done|].
  - intros o Hor. apply (only_dlist C h); [done| |by apply Hl].
    intros a [->|Ha]%elem_of_cons; apply HC; [left; eauto|].
    apply list_elem_of_fmap in Ha as (j & -> & [Hj _]%Hm); [|done]. right. exists j. split; [|done].
    pose proof (shape_pow _ _ _ _ Hs Hj). apply (shape_range _ _ Hs) in Hj. lia.
  - intros i Hi Hor. apply (only_dlist C h); [done| |by apply Hd].
    intros a ->%list_elem_of_singleton. apply HC. right. eauto.
Qed.

Lemma swap_only C b h h' : only C h h' → (∀ a, swap_addr a → ¬ C a) → swap_list b h → swap_list b h'.
Proof.
  intros Ho HC (sl & Hl & Hr & Hd). exists sl. split_and!; [|done|].
  - destruct Hl as [|Hl]; [by left|right].
    apply (only_dlist C h); [done| |done]. intros a [->|Ha]%elem_of_cons; apply HC; [by left|].
    apply list_elem_of_fmap in Ha as (j & -> & Hj). right. eauto.
  - intros i Hi Hn. apply (only_dlist C h); [done| |by apply Hd].
    intros a ->%list_elem_of_singleton. apply HC. right. eauto.
Qed.

Lemma zero_only C h h' : only C h h' → (∀ a, zero_addr a → ¬ C a) → zero_ok h → zero_ok h'.
Proof.
  intros [D F] HC [(a & Ha & Hz & Hd) Hn]. unfold zero_ok. rewrite D. split; [|done].
  exists a. split; [|done]. unfold nx. rewrite F; [done|]. apply HC. by left.
Qed.

Section free.
Context (L : layout_ok).
Implicit Types (m : mem) (g : blocks).

Lemma swap_node_inj i j : swap_node_of i = swap_node_of j → i = j.
Proof. unfold swap_node_of, pg, sizeof_page_info. lia. Qed.

(** [remove_swap_page] unlinks the page from the swap list if it is there. *)
Lemma remove_swap_page_spec m i : 0 ≤ i < n → swap_ok (heap m) →
  wp (remove_swap_page (pg i)) (λ _ m', ∃ h', m' = set_heap h' m ∧
    only swap_addr (heap m) h' ∧ (∀ b, swap_list b (heap m) → swap_list b h') ∧ detached h' (swap_node_of i)) m.
Proof.
  intros Hi (sl & Hl & Hr & Hd). unfold remove_swap_page. fold (swap_node_of i).
  assert (set_heap (heap m) m = m) as Em by (by destruct m).
  destruct (decide (i ∈ sl)) as [Hin|Hin].
  - destruct Hl as [[_ ->]|Hl]; [set_solver|].
    pose proof Hin as (l1 & l2 & ->)%list_elem_of_split. rewrite fmap_app, fmap_cons in Hl.
    wp_step. apply wp_zoom. eapply wp_OK; [eapply list_is_empty_spec; by eapply dlist_rotate|].
    rewrite bool_decide_eq_false_2 by (by destruct l2). simpl. rewrite Em.
    apply wp_zoom. eapply wp_mono; [by apply list_del_spec|]. cbv beta.
    intros _ h' (Hl' & Hdet & Hf).
    assert (∀ j, j ∈ l1 ++ i :: l2 → swap_addr (swap_node_of j)) as Hsw by (intros j Hj; right; eauto).
    pose proof (dlist_nodup _ _ _ Hl) as Hnd. apply NoDup_cons in Hnd as [Hhead Hnd].
    rewrite <-fmap_cons, <-fmap_app in Hnd. apply NoDup_fmap_1 in Hnd.
    assert (∀ a, a ∈ swap_pages :: (swap_node_of <$> l1 ++ i :: l2) → swap_addr a) as Hall.
    { intros a [->|(j & -> & Hj)%list_elem_of_fmap]%elem_of_cons; [by left|auto]. }
    assert (∀ a, a ∈ [swap_node_of i; before swap_pages (swap_node_of <$> l1); after swap_pages (swap_node_of <$> l2)] →
      a ∈ swap_pages :: (swap_node_of <$> l1 ++ i :: l2)) as Hdirty.
    { rewrite fmap_app, fmap_cons. intros a Ha. rewrite !elem_of_cons in Ha.
      destruct Ha as [->|[Ha|[Ha|[]%elem_of_nil]]]; [set_solver|apply before_in in Ha|apply after_in in Ha]; set_solver. }
    exists h'. split; [done|]. split; [|split; [|done]].
    + eapply only_frame; [done|]. eauto.
    + intros b _. exists (l1 ++ l2). rewrite fmap_app. split_and!; [by right|set_solver|].
      intros j Hj Hjn. destruct (decide (j = i)) as [->|Hji]; [done|].
      assert (j ∉ l1 ++ i :: l2) as Hjn' by set_solver.
      apply (dlist_frame _ _ _ _ _ Hf); [|by apply Hd].
      intros a ->%list_elem_of_singleton [E|(j' & ->%swap_node_inj & Hj')%list_elem_of_fmap]%Hdirty%elem_of_cons; [|done].
      pose proof (layout_swap L) as Ho. unfold outside in Ho. rewrite <-E in Ho.
      unfold swap_node_of, pg, sizeof_page_info, off_swap_node in Ho. lia.
  - wp_step. apply wp_zoom. eapply wp_OK; [by eapply list_is_empty_spec, Hd|].
    rewrite bool_decide_eq_true_2 by done. simpl. wp_step. exists (heap m).
    split; [done|]. split; [done|]. split; [done|]. by apply Hd.
Qed.

(** [list_add] to the zero list, which need not be a proper list. *)
Lemma zero_add_spec h i : 0 ≤ i < n → zero_ok h →
  wp (list_add zero_list (zero_node_of i)) (λ _ h', only zero_addr h h' ∧ zero_ok h') h.
Proof.
  intros Hi [(a & Ha & Hz & Hd) Hn]. pose proof (Hn i Hi) as Hni.
  assert (zero_node_of i ≠ zero_list) as Hne.
  { destruct (layout_zero L) as [_ ?]. unfold zero_node_of, pg, sizeof_page_info, off_pp_zero_node in *. lia. }
  assert (zero_list ∈ dom h) by (by eapply nx_dom).
  unfold list_add, list_insert_after. wp_step. apply wp_set_prev; [done|].
  wp_step. apply (wp_get_next _ _ a); [by view|].
  wp_step. apply wp_set_next; [in_dom|].
  wp_step. apply (wp_get_next _ _ a); [view; by rewrite decide_False|].
  wp_step. apply wp_set_prev; [in_dom|]. apply wp_set_next; [in_dom|].
  assert (zero_addr (zero_node_of i)) by (right; right; eauto).
  split; [|split].
  - split; [by autorewrite with lists|]. intros x Hx. assert (zero_addr zero_list) by (by left).
    rewrite upd_next_ne, upd_prev_ne, upd_next_ne, upd_prev_ne; [done|naive_solver..].
  - exists (zero_node_of i). split; [view; by rewrite decide_True|].
    split; [done|by autorewrite with lists].
  - autorewrite with lists. done.
Qed.
End free.

(** ** The allocator's invariant *)

Record buddy_inv (m : mem) (g : blocks) : Prop := {
  inv_core : core m g ∅;
  inv_swap : swap_ok (heap m);
  inv_zero : zero_ok (heap m);
  inv_lock : is_free (buddy_lock m);
  (** a free frame has no references *)
  inv_free_refs k p : free_frame g k → infos m !! pg k = Some p → pp_ref p = 0;
  (** a page in use is a single frame *)
  inv_used_order k p : 0 ≤ k < n → ¬ free_frame g k → infos m !! pg k = Some p → pp_order p = 0;
  inv_coalesced : coalesced g;
}.

(** The list nodes the allocator owns. *)
Definition buddy_addr (a : Z) : Prop := free_addr a ∨ swap_addr a ∨ zero_addr a.

(** What an operation on frame [k] leaves alone: the [page_info] and the
    contents of the other pages in use, every list of other components, the
    CPU; and it marks no page as zeroed. *)
Record others_kept (g : blocks) (k : Z) (m m' : mem) : Prop := {
  kept_infos j : 0 ≤ j < n → ¬ free_frame g j → j ≠ k → infos m' !! pg j = infos m !! pg j;
  kept_phys j : j ≠ k → phys m' !! j = phys m !! j;
  kept_heap : only buddy_addr (heap m) (heap m');
  kept_zero a p' : infos m' !! a = Some p' → pp_zero p' = 0 ∨ pp_zero <$> infos m !! a = Some (pp_zero p');
  kept_swap b : swap_list b (heap m) → swap_list b (heap m');
  kept_cpu : this_cpu m' = this_cpu m;
}.

Lemma client_zero (x : option page_info) p : client <$> Some p = client <$> x →
  pp_zero p = 0 ∨ pp_zero <$> x = Some (pp_zero p).
Proof. destruct x; simpl; unfold client; intros; right; congruence. Qed.

Lemma only_weaken (C D : Z → Prop) h h' : only C h h' → (∀ a, C a → D a) → only D h h'.
Proof. intros [? HC] HD. split; [done|]. naive_solver. Qed.

Lemma wp_lock_buddy m (Q : unit → mem → Prop) : is_free (buddy_lock m) →
  (∀ l, held_by (this_cpu m) l → Q tt (set_lock l m)) → wp lock_buddy Q m.
Proof.
  intros Hf HQ. unfold lock_buddy. wp_step. wp_step. apply wp_zoom.
  eapply wp_mono; [by apply spin_lock_spec|]. intros [] l Hl. by apply HQ.
Qed.

Lemma wp_unlock_buddy m (Q : unit → mem → Prop) : held_by (this_cpu m) (buddy_lock m) →
  (∀ l, is_free l → Q tt (set_lock l m)) → wp unlock_buddy Q m.
Proof.
  intros Hf HQ. unfold unlock_buddy. wp_step. wp_step. apply wp_zoom.
  eapply wp_mono; [by apply spin_unlock_spec|]. intros [] l Hl. by apply HQ.
Qed.

Lemma core_ext m m' g X : heap m' = heap m → infos m' = infos m → pages m' = pages m →
  npages m' = npages m → core m g X → core m' g X.
Proof. intros Eh Ei Ep En [? ? ? ? ?]. split; by rewrite ?Eh, ?Ei, ?Ep, ?En. Qed.

Lemma page_index_mul k : PAGE_INDEX (k * PAGE_SIZE) = k.
Proof.
  unfold PAGE_INDEX, PAGE_TABLE_SHIFT, PAGE_SIZE. rewrite Z.shiftr_div_pow2 by lia.
  change (2 ^ 12) with 4096. by rewrite Z.div_mul.
Qed.

Lemma wp_page2kva k m (Q : Z → mem → Prop) : pages m = base → npages m = n → 0 ≤ k < n → n < 2 ^ 31 →
  Q (k * PAGE_SIZE + KERNEL_VMA) m → wp (page2kva (pg k)) Q m.
Proof.
  intros Hb Hn Hk Hn31 HQ. unfold page2kva. wp_step. apply wp_page2pa; [done|lia|].
  unfold KADDR. wp_step. wp_step. rewrite page_index_mul, Hn.
  rewrite (proj2 (Z.leb_gt _ _)) by lia. wp_step.
  unfold u64. rewrite Z.mod_small; [done|]. unfold PAGE_SIZE, KERNEL_VMA. lia.
Qed.

(** The page frame handed out, or kept, is all zeroes. *)
Definition zeroed (m : mem) (k : Z) : Prop := phys m !! k = None.

Section alloc.
Context (L : layout_ok).
Implicit Types (m : mem) (g : blocks).

(** Taking the found block out: clear [pp_free], unlink it. *)
Lemma take_spec m g X i p : core m g X → X ⊆ {[i]} → g !! i = Some 0 →
  infos m !! pg i = Some p →
  wp (page_upd (pg i) (set_free 0);; on_heap (list_del (pg i))) (λ _ m',
    core m' (delete i g) ∅ ∧ only free_addr (heap m) (heap m') ∧
    infos m' = <[pg i := set_free 0 p]> (infos m) ∧
    m' = set_infos (infos m') (set_heap (heap m') m)) m.
Proof.
  intros Hc HX Hi Hp.
  destruct (core_info L _ _ _ _ _ Hc Hi) as (Hr & _ & Ho & _ & _ & p' & Hp' & Hpf & Hpo).
  assert (p' = p) as -> by congruence. destruct Hc as [Hb Hn Hs Hrep Hl].
  wp_step. eapply wp_page_upd; [done|]. apply wp_zoom. simpl.
  eapply wp_mono; [by eapply lists_unlink|]. intros _ h' [Hl' Hon]. split; [|done].
  rewrite held_absorb in Hl' by done. split; [done|done|by apply shape_delete| |].
  - simpl. apply (rep_insert _ g); [done| |intros; by rewrite lookup_delete_ne by done].
    rewrite lookup_delete_eq. split; [simpl; lia|done].
  - simpl. apply (lists_ghost h' g {[i]}); [|done]. intros j o.
    rewrite lookup_delete. case_decide; set_solver.
Qed.

Lemma shape_empty_frames g : shape_ok n g → g ≠ ∅ → ∃ i o, g !! i = Some o ∧ 0 ≤ o.
Proof.
  intros Hs Hg. apply map_choose in Hg as (i & o & Hi). exists i, o. split; [done|].
  apply (shape_order _ _ Hs) in Hi. lia.
Qed.

(** The invariant after one frame has been taken. *)
Lemma alloc_inv m g m' g' i p : buddy_inv m g → core m' (delete i g') ∅ → g' !! i = Some 0 →
  shape_ok n g' → coalesced_except i g' → (∀ k, free_frame g' k ↔ free_frame g k) →
  only free_addr (heap m) (heap m') → is_free (buddy_lock m') →
  infos m' !! pg i = Some p → pp_order p = 0 →
  (∀ a, a ≠ pg i → client <$> infos m' !! a = client <$> infos m !! a) →
  (∀ j, 0 ≤ j < n → ¬ free_frame g j → infos m' !! pg j = infos m !! pg j) →
  buddy_inv m' (delete i g') ∧ (∀ k, free_frame (delete i g') k ↔ free_frame g k ∧ k ≠ i).
Proof.
  intros [Hc Hsw Hz Hlk Hfr Huo Hco] Hc' Hi Hs Hco' Hff Hon Hlk' Hp Hpo Hcl Hus.
  assert (∀ k, free_frame (delete i g') k ↔ free_frame g k ∧ k ≠ i) as Hff'.
  { intros k. rewrite (free_frame_delete n g' i 0), Hff by done. change (2 ^ 0) with 1. intuition lia. }
  split; [|done]. split.
  - done.
  - eapply swap_only; [done|by apply swap_not_free|done].
  - eapply zero_only; [done|by apply zero_not_free|done].
  - done.
  - intros k q [Hk Hki]%Hff' Hq. assert (pg k ≠ pg i) as Hne by (by intros ?%pg_inj).
    specialize (Hcl _ Hne). rewrite Hq in Hcl. destruct (infos m !! pg k) as [q'|] eqn:E; [|done].
    injection Hcl as -> _ _. by eapply Hfr.
  - intros k q Hk Hn Hq. destruct (decide (k = i)) as [->|Hki]; [congruence|].
    assert (¬ free_frame g k) as Hn' by (intros ?; by apply Hn, Hff').
    rewrite Hus in Hq by done. by eapply Huo.
  - by apply delete_coalesced.
Qed.

Lemma page_alloc_spec m g f : buddy_inv m g → g ≠ ∅ →
  wp (page_alloc f) (λ r m', ∃ k g', r = pg k ∧ free_frame g k ∧ buddy_inv m' g' ∧
    (∀ j, free_frame g' j ↔ free_frame g j ∧ j ≠ k) ∧ others_kept g k m m' ∧
    client <$> infos m' !! pg k = client <$> infos m !! pg k ∧
    (if has f ALLOC_ZERO
     then ∀ p, infos m !! pg k = Some p → pp_zero p = 0 → zeroed m' k
     else phys m' = phys m)) m.
Proof.
  intros Hinv Hg. pose proof Hinv as [Hc Hsw Hz Hlk Hfr Huo Hco].
  pose proof (layout_npages L) as Hn31. unfold page_alloc.
  wp_step. apply wp_lock_buddy; [done|]. intros l Hl.
  assert (core (set_lock l m) g ∅) as Hcl by (by apply (core_ext m)).
  wp_step. eapply wp_mono; [apply buddy_find_spec; [done|done|]|].
  { unfold BUDDY_MAX_ORDER, BUDDY_2M_PAGE. lia. }
  intros r m2 [(_ & _ & Hnone)|(i & g' & X' & -> & Hc2 & HX & Hi & Hff & Hk2 & Hcoi)].
  { destruct (shape_empty_frames g (core_shape _ _ _ Hc) Hg) as (j & o & Hj & ?).
    apply Hnone in Hj. lia. }
  destruct (core_info L _ _ _ _ _ Hc2 Hi) as (Hr & Hr31 & _ & _ & _ & p & Hp & Hpf & Hpo).
  pose proof (pg_pos L i ltac:(lia)) as Hpos.
  wp_step. apply wp_assert; [unfold NULL; lia|]. rewrite (proj2 (Z.eqb_neq (pg i) NULL)) by (unfold NULL; lia).
  wp_step. eapply wp_page_get; [done|]. wp_step. apply wp_assert; [by rewrite Hpf|].
  wp_step. apply wp_page2kva; [apply Hc2|apply Hc2|done|lia|].
  pose proof Hk2 as [Hk2h Hk2u Hk2c Hk2r]. simpl in Hk2h, Hk2u, Hk2c.
  assert (free_frame g i) as Hfi by (apply Hff; by eapply free_frame_start; [apply Hc2|]).
  (* zeroing *)
  wp_step.
  match goal with |- wp ?c _ _ => assert (wp c (λ _ m3, ∃ ph, m3 = set_phys ph m2 ∧
    (∀ j, j ≠ i → ph !! j = phys m !! j) ∧
    if has f ALLOC_ZERO then pp_zero p = 0 → ph !! i = None else ph = phys m) m2) as Hzero end.
  { assert (phys m2 = phys m) as Eph by (by rewrite Hk2r).
    assert (set_phys (phys m) m2 = m2) as Em2 by (rewrite <-Eph; by destruct m2).
    destruct (has f ALLOC_ZERO); [|wp_step; by exists (phys m)].
    wp_step. eapply wp_page_get; [done|]. wp_if Ez.
    - unfold zero_frame. wp_step. eexists. split; [done|].
      replace (i * PAGE_SIZE + KERNEL_VMA - KERNEL_VMA) with (i * PAGE_SIZE) by lia.
      rewrite page_index_mul, Eph. split; [|intros _; apply lookup_delete_eq].
      intros j Hj. by apply lookup_delete_ne.
    - wp_step. exists (phys m). apply Z.eqb_neq in Ez. done. }
  eapply wp_mono; [exact Hzero|]. clear Hzero. intros _ m3 (ph & -> & Hph & Hzero).
  assert (core (set_phys ph m2) g' X') as Hc3 by (by apply (core_ext m2)).
  match goal with |- wp (mbind ?k (page_upd ?a ?b)) ?Q ?s =>
    change (wp (page_upd a b;; (on_heap (list_del (pg i));; (unlock_buddy;; mret (pg i)))) Q s) end.
  pose proof (take_spec _ _ _ _ _ Hc3 HX Hi Hp) as Ht. apply wp_bind_inv in Ht.
  wp_step. eapply wp_mono; [exact Ht|]. cbv beta. clear Ht. intros _ m4 Ht.
  wp_step. eapply wp_mono; [exact Ht|]. cbv beta. clear Ht m4. intros _ m4 (Hc4 & Ho4 & Hi4 & Er4).
  wp_step. apply wp_unlock_buddy.
  { rewrite Er4, Hk2r. done. }
  intros l' Hl'. wp_step. exists i, (delete i g').
  destruct (alloc_inv m g (set_lock l' m4) g' i (set_free 0 p)) as [Hinv' Hff']; try done.
  - by apply (core_ext m4).
  - apply Hc2.
  - apply Hcoi. by apply coalesced_weaken.
  - simpl. by eapply only_trans.
  - simpl. rewrite Hi4. apply lookup_insert_eq.
  - intros a Ha. simpl. rewrite Hi4, lookup_insert_ne by done. apply Hk2c.
  - intros j Hj Hnf. simpl. rewrite Hi4, lookup_insert_ne by (intros <-%pg_inj; done).
    apply Hk2u. intros k Hk Hfk E%pg_inj. congruence.
  - do 4 (split; [done|]). split; [|split].
    + split.
      * intros j Hj Hnf Hji. simpl. rewrite Hi4, lookup_insert_ne by (intros ->%pg_inj; done).
        apply Hk2u. intros k Hk Hfk E%pg_inj. congruence.
      * intros j Hj. rewrite Er4. by apply Hph.
      * simpl. eapply only_weaken; [by eapply only_trans|by left].
      * intros a q. simpl. rewrite Hi4, lookup_insert. case_decide; subst; intros Hq; apply client_zero.
        -- rewrite <-Hk2c, Hp. injection Hq as <-. done.
        -- simpl in Hq. by rewrite <-Hk2c, Hq.
      * intros b. simpl. eapply swap_only; [by eapply only_trans|by apply swap_not_free].
      * by rewrite Er4, Hk2r.
    + simpl. rewrite Hi4, lookup_insert_eq. rewrite <-Hk2c, Hp. done.
    + destruct (has f ALLOC_ZERO).
      * intros q Hq Hqz. unfold zeroed. rewrite Er4. apply Hzero.
        specialize (Hk2c (pg i)). simpl in Hp. rewrite Hp, Hq in Hk2c. by injection Hk2c as _ -> _.
      * by rewrite Er4.
Qed.
End alloc.

Section release.
Context (L : layout_ok).
Implicit Types (m : mem) (g : blocks).

(** Marking a page in use free makes it a block that is worked on. *)
Lemma core_mark m g k p : core m g ∅ → 0 ≤ k < n → ¬ free_frame g k →
  infos m !! pg k = Some p → pp_order p = 0 →
  let m' := set_infos (<[pg k := set_free 1 p]> (infos m)) m in
  core m' (<[k := 0]> g) {[k]} ∧ (∀ j, free_frame (<[k := 0]> g) j ↔ free_frame g j ∨ j = k).
Proof.
  intros [Hb Hn Hs Hrep Hl] Hk Hnf Hp Hpo m'.
  assert (g !! k = None) as Hgk.
  { destruct (g !! k) as [o|] eqn:E; [|done]. exfalso. by eapply Hnf, free_frame_start. }
  split.
  - split; [done|done| | |].
    + apply shape_insert; [done|done|unfold BUDDY_MAX_ORDER, BUDDY_2M_PAGE; lia|lia| |apply Z.mod_1_r|].
      * change (2 ^ 0) with 1. lia.
      * change (2 ^ 0) with 1. intros j Hj. by replace j with k by lia.
    + simpl. apply (rep_insert _ g); [done| |intros; by rewrite lookup_insert_ne by done].
      rewrite lookup_insert_eq. split; [simpl|done].
      unfold BUDDY_MAX_ORDER, BUDDY_2M_PAGE. lia.
    + apply (lists_ghost _ g ∅); [|done]. intros j o. rewrite lookup_insert.
      case_decide; subst; set_solver.
  - intros j. rewrite free_frame_insert by done. change (2 ^ 0) with 1. intuition lia.
Qed.

(** The invariant after one frame has been given back. *)
Lemma release_inv m g m' g' k p : buddy_inv m g → core m' g' ∅ → coalesced g' →
  swap_ok (heap m') → zero_ok (heap m') → is_free (buddy_lock m') →
  (∀ j, free_frame g' j ↔ free_frame g j ∨ j = k) →
  infos m !! pg k = Some p → pp_ref p = 0 →
  (∀ a, pp_ref <$> infos m' !! a = pp_ref <$> infos m !! a) →
  (∀ j, 0 ≤ j < n → ¬ free_frame g j → j ≠ k → infos m' !! pg j = infos m !! pg j) →
  buddy_inv m' g'.
Proof.
  intros [Hc Hsw Hz Hlk Hfr Huo Hco] Hc' Hco' Hsw' Hz' Hlk' Hff Hp Hp0 Href Hus.
  split; try done.
  - intros j q Hj Hq. specialize (Href (pg j)). rewrite Hq in Href.
    destruct (infos m !! pg j) as [q'|] eqn:E; [|done]. injection Href as ->.
    apply Hff in Hj as [Hj| ->]; [by eapply Hfr|congruence].
  - intros j q Hj Hnf Hq. rewrite Hff in Hnf. rewrite Hus in Hq by tauto. eapply Huo; tauto || done.
Qed.

(** Linking the page that [buddy_merge] did not link. *)
Lemma insert_spec m g k : core m g {[k]} → g !! k = Some 0 → swap_ok (heap m) → zero_ok (heap m) →
  wp (p ← page_get (pg k);
      on_heap (list_add (free_list (pp_order p)) (pg k));;
      page_upd (pg k) (set_zero 0);;
      on_heap (list_add zero_list (pg k + off_pp_zero_node)))
    (λ _ m', core m' g ∅ ∧ (∀ b, swap_list b (heap m) → swap_list b (heap m')) ∧ zero_ok (heap m') ∧
      (∀ a, pp_ref <$> infos m' !! a = pp_ref <$> infos m !! a) ∧
      (∀ a, a ≠ pg k → infos m' !! a = infos m !! a) ∧
      only buddy_addr (heap m) (heap m') ∧ (∀ p, infos m' !! pg k = Some p → pp_zero p = 0) ∧
      m' = set_infos (infos m') (set_heap (heap m') m)) m.
Proof.
  intros Hc Hk Hsw Hz.
  destruct (core_info L _ _ _ _ _ Hc Hk) as (Hr & _ & Ho & _ & _ & p & Hp & Hpf & Hpo).
  wp_step. eapply wp_page_get; [done|]. rewrite Hpo.
  wp_step. eapply wp_mono; [eapply (core_link L); [done|done|set_solver]|].
  intros _ m1 (Hc1 & [Hk1 _ _ Hr1] & Hi1). rewrite difference_diag_L in Hc1.
  wp_step. eapply wp_page_upd; [by rewrite Hi1|]. fold (zero_node_of k).
  apply wp_zoom. simpl. eapply wp_mono; [apply zero_add_spec; [done|done|]|].
  { eapply zero_only; [exact Hk1|by apply zero_not_free|done]. }
  intros _ h2 [Hon2 Hz2]. destruct Hc1 as [? ? Hs1 Hrep1 Hl1]. split_and!; try done; simpl.
  - split; [done|done|done| |].
    + simpl. eapply rep_insert; [done| |done]. rewrite Hk. split; simpl; [lia|done].
    + eapply lists_only; [exact Hon2| |done|done]. intros a Ha Hza. by apply (zero_not_free L a).
  - intros b Hb. eapply swap_only; [exact Hon2|intros a Ha Hza; by apply (zero_not_swap L a)|].
    eapply swap_only; [exact Hk1|by apply swap_not_free|done].
  - intros a. rewrite Hi1, lookup_insert. case_decide; subst; [by rewrite Hp|done].
  - intros a Ha. by rewrite Hi1, lookup_insert_ne by done.
  - eapply only_trans; (eapply only_weaken; [eassumption|]); unfold buddy_addr; tauto.
  - intros q. rewrite lookup_insert_eq. intros Hq. injection Hq as <-. done.
  - by rewrite Hr1.
Qed.

Lemma page_free_spec m g k p : buddy_inv m g → 0 ≤ k < n → ¬ free_frame g k →
  infos m !! pg k = Some p → pp_ref p = 0 →
  wp (page_free (pg k)) (λ _ m', ∃ g', buddy_inv m' g' ∧
    (∀ j, free_frame g' j ↔ free_frame g j ∨ j = k) ∧ others_kept g k m m' ∧ phys m' = phys m) m.
Proof.
  intros Hinv Hk Hnf Hp Hp0. pose proof Hinv as [Hc Hsw Hz Hlk Hfr Huo Hco].
  pose proof (Huo k p Hk Hnf Hp) as Hpo. pose proof (pg_pos L k ltac:(lia)) as Hpos.
  assert (pg k ≠ NULL) as Hnn by (unfold NULL; lia).
  unfold page_free. wp_step. eapply wp_page_get; [done|]. wp_step. apply wp_assert; [by rewrite Hp0|].
  wp_step. apply wp_lock_buddy; [done|]. intros l Hl.
  wp_step. eapply wp_mono; [by apply remove_swap_page_spec|]. intros _ m1 (h1 & -> & Hon1 & Hsw1 & _).
  simpl in Hon1. set (m1 := set_heap h1 (set_lock l m)).
  assert (core m1 g ∅) as Hc1.
  { destruct Hc as [? ? Hs ? Hls]. split; try done. eapply lists_only; [exact Hon1| |done|done].
    intros a Ha Hza. by apply (swap_not_free L a). }
  assert (zero_ok (heap m1)) as Hz1.
  { eapply zero_only; [exact Hon1|by apply zero_not_swap|done]. }
  destruct (core_mark m1 g k p Hc1 Hk Hnf Hp Hpo) as [Hc2 Hff2].
  wp_step. eapply wp_page_upd; [done|]. wp_step. eapply wp_page_get; [simpl; apply lookup_insert_eq|].
  set (m2 := set_infos _ _) in *. simpl. rewrite Hpo. simpl.
  assert (<[k:=0]> g !! k = Some 0) as Hgk by apply lookup_insert_eq.
  wp_step. eapply wp_mono; [eapply buddy_merge_spec; [done|done|done|done|left|]|].
  1-2: unfold order_fuel, BUDDY_MAX_ORDER, BUDDY_2M_PAGE; lia.
  intros r m3 (g' & Hff3 & [Hk3h Hk3u Hk3c Hk3r] & Hco3 & Hres).
  assert (coalesced g') as Hco' by (by apply Hco3, insert_coalesced).
  assert (∀ j, free_frame g' j ↔ free_frame g j ∨ j = k) as Hff by (intros j; by rewrite Hff3, Hff2).
  assert (∀ a, client <$> infos m3 !! a = client <$> infos m !! a) as Hcli.
  { intros a. rewrite Hk3c. unfold m2; simpl. rewrite lookup_insert. case_decide; subst; [by rewrite Hp|done]. }
  assert (∀ a, pp_ref <$> infos m3 !! a = pp_ref <$> infos m !! a) as Href by (intros a; by apply client_ref).
  assert (only buddy_addr (heap m) h1) as Hb1 by (eapply only_weaken; [exact Hon1|unfold buddy_addr; tauto]).
  assert (∀ j, 0 ≤ j < n → ¬ free_frame g j → j ≠ k → infos m3 !! pg j = infos m !! pg j) as Hus.
  { intros j Hj Hjf Hjk. transitivity (infos m2 !! pg j).
    - apply Hk3u. intros i Hi [Hif|Hif]%Hff2 E%pg_inj; congruence.
    - unfold m2; simpl. apply lookup_insert_ne. intros ->%pg_inj. done. }
  destruct Hres as [[-> Hc3]|(-> & -> & ->)].
  - simpl. apply wp_unlock_buddy; [by rewrite Hk3r|]. intros l' Hl'. exists g'.
    assert (only buddy_addr (heap m) (heap m3)) as Hbo by (eapply only_trans; [exact Hb1|eapply only_weaken; [exact Hk3h|by left]]).
    assert (∀ b, swap_list b (heap m) → swap_list b (heap m3)) as Hsw3.
    { intros b Hb. eapply swap_only; [exact Hk3h|by apply swap_not_free|by apply Hsw1]. }
    split; [|split; [done|split; [split; [done| | | |done|]|]; simpl; try by rewrite Hk3r]].
    2: intros a q Hq; apply client_zero; by rewrite <-Hcli, Hq.
    eapply (release_inv m g); try done; [by apply (core_ext m3)| |]; simpl.
    + by apply Hsw3.
    + eapply zero_only; [exact Hk3h|by apply zero_not_free|done].
  - rewrite (proj2 (Z.eqb_neq _ _) Hnn).
    pose proof (insert_spec m2 _ k Hc2 Hgk (Hsw1 _ Hsw) Hz1) as Hins.
    apply wp_bind_inv in Hins. wp_step. eapply wp_mono; [exact Hins|]. cbv beta. clear Hins. intros q m4 Hins.
    apply wp_bind_inv in Hins. wp_step. eapply wp_mono; [exact Hins|]. cbv beta. clear Hins m4. intros _ m4 Hins.
    apply wp_bind_inv in Hins. wp_step. eapply wp_mono; [exact Hins|]. cbv beta. clear Hins m4. intros _ m4 Hins.
    wp_step. eapply wp_mono; [exact Hins|]. cbv beta. clear Hins m4. intros _ m4 (Hc4 & Hsw4 & Hz4 & Href4 & Hus4 & Hb4 & Hze4 & Hr4).
    apply wp_unlock_buddy; [by rewrite Hr4|]. intros l' Hl'. exists (<[k:=0]> g).
    assert (∀ j, 0 ≤ j < n → ¬ free_frame g j → j ≠ k → infos m4 !! pg j = infos m !! pg j) as Hus'.
    { intros j Hj Hjf Hjk. rewrite Hus4 by (by intros ?%pg_inj). by apply Hus. }
    split; [|split; [done|split; [split; [done| | | | |]|]; simpl; try by rewrite Hr4]].
    4: intros b Hb; by apply Hsw4, Hsw1.
    2: by eapply only_trans.
    2: { intros a q' Hq. destruct (decide (a = pg k)) as [->|Ha]; [left; by apply Hze4|].
         rewrite Hus4 in Hq by done. apply client_zero. by rewrite <-Hcli, Hq. }
    eapply (release_inv m g); try done; [by apply (core_ext m4)|by apply Hsw4, Hsw1|].
    intros a. simpl. by rewrite Href4, Href.
Qed.
End release.

(** ** Pages in the hands of clients *)

Section clients.
Context (L : layout_ok).
Implicit Types (m : mem) (g : blocks).

(** A client may change the fields of a page in use that the allocator does
    not look at. *)
Lemma buddy_inv_upd m g k p p' : buddy_inv m g → 0 ≤ k < n → ¬ free_frame g k →
  infos m !! pg k = Some p → pp_order p' = pp_order p → pp_free p' = pp_free p →
  buddy_inv (set_infos (<[pg k := p']> (infos m)) m) g.
Proof.
  intros [[? ? Hs Hr ?] ? ? ? Hfr Huo ?] Hk Hnf Hp Eo Ef. split; try done.
  - split; try done. simpl. apply (rep_insert _ g); [done| |done].
    destruct (Hr k Hk) as (q & Hq & Hd). assert (q = p) as -> by congruence.
    unfold describes in *. by rewrite Eo, Ef.
  - intros j q Hj Hq. simpl in Hq. rewrite lookup_insert_ne in Hq; [by eapply Hfr|]. intros ->%pg_inj. done.
  - intros j q Hj Hjn. simpl. rewrite lookup_insert. case_decide as E; [|by apply Huo].
    apply pg_inj in E as ->. intros Hq. injection Hq as <-. rewrite Eo. by eapply Huo.
Qed.

Lemma buddy_inv_phys m g ph : buddy_inv m g → buddy_inv (set_phys ph m) g.
Proof. intros [? ? ? ? ? ? ?]. split; try done. by apply (core_ext m). Qed.

Lemma others_kept_upd g k m m' p p' : others_kept g k (set_infos (<[pg k := p']> (infos m)) m) m' →
  infos m !! pg k = Some p → pp_zero p' = pp_zero p → others_kept g k m m'.
Proof.
  intros [Hi Hph Hh Hz Hc] Hp Ez. split; try done.
  - intros j Hj Hnf Hjk. rewrite Hi by done. simpl. apply lookup_insert_ne. by intros ->%pg_inj.
  - intros a q Hq. destruct (Hz a q Hq) as [?|Hq']; [by left|right]. simpl in Hq'.
    rewrite lookup_insert in Hq'. case_decide; [subst; rewrite Hp; simpl in *; congruence|done].
Qed.

Lemma others_kept_self g k m p' : (∀ p, infos m !! pg k = Some p → pp_zero p' = pp_zero p) → is_Some (infos m !! pg k) →
  others_kept g k m (set_infos (<[pg k := p']> (infos m)) m).
Proof.
  intros Hz [p Hp]. split; try done.
  - intros j Hj Hnf Hjk. simpl. apply lookup_insert_ne. by intros ->%pg_inj.
  - intros a q. simpl. rewrite lookup_insert. case_decide; subst.
    + intros [= <-]. right. rewrite Hp. simpl. by rewrite (Hz p).
    + intros ->. by right.
Qed.

Lemma used_info m g k : buddy_inv m g → 0 ≤ k < n → is_Some (infos m !! pg k).
Proof. intros [[? ? ? Hr ?] ? ? ? ? ? ?] Hk. destruct (Hr k Hk) as (p & -> & _). done. Qed.

(** Putting a page in use on the initialised swap list. *)
Lemma swap_list_ok b h : swap_list b h → swap_ok h.
Proof. intros (sl & Hl & ? & ?). exists sl. split_and!; [|done|done]. destruct Hl as [[_ ?]|?]; [by left|by right]. Qed.

Lemma add_swap_page_spec m i : 0 ≤ i < n → swap_list true (heap m) →
  wp (add_swap_page (pg i)) (λ _ m', ∃ h', m' = set_heap h' m ∧
    only swap_addr (heap m) h' ∧ swap_list true h') m.
Proof.
  intros Hi (sl & [[? _]|Hl] & Hr & Hd); [done|]. unfold add_swap_page. fold (swap_node_of i).
  assert (set_heap (heap m) m = m) as Em by (by destruct m). wp_step. apply wp_zoom.
  destruct (decide (i ∈ sl)) as [Hin|Hin].
  - pose proof Hin as (l1 & l2 & ->)%list_elem_of_split. rewrite fmap_app, fmap_cons in Hl.
    eapply wp_OK; [eapply list_is_empty_spec; by eapply dlist_rotate|].
    rewrite bool_decide_eq_false_2 by (by destruct l2). simpl. wp_step. exists (heap m). split_and!; [done..|].
    exists (l1 ++ i :: l2). rewrite fmap_app, fmap_cons. split_and!; [by right|done|done].
  - eapply wp_OK; [by eapply list_is_empty_spec, Hd|]. rewrite bool_decide_eq_true_2 by done. simpl. rewrite Em.
    pose proof (layout_swap L) as Hsw. pose proof (pg_pos L i ltac:(lia)) as Hpg.
    assert (swap_node_of i ∉ swap_pages :: (swap_node_of <$> sl)) as Hfresh.
    { intros [E|(j & E%swap_node_inj & Hj)%list_elem_of_fmap]%elem_of_cons; [|congruence].
      unfold outside in Hsw. rewrite <-E in Hsw. unfold swap_node_of, pg, sizeof_page_info, off_swap_node in Hsw. lia. }
    apply wp_zoom. eapply wp_mono; [apply list_add_spec; [exact Hl| | |exact Hfresh]|].
    + eapply dlist_dom; [by apply Hd|left].
    + unfold NULL, swap_node_of, off_swap_node. lia.
    + cbv beta. intros _ h' [Hl' Hf].
      assert (∀ a, a ∈ [swap_node_of i; swap_pages; after swap_pages (swap_node_of <$> sl)] →
        a ∈ swap_pages :: (swap_node_of <$> i :: sl)) as Hdirty.
      { intros a Ha. rewrite fmap_cons. rewrite !elem_of_cons in Ha.
        destruct Ha as [->|[->|[Ha|[]%elem_of_nil]]]; [set_solver|set_solver|apply after_in in Ha; set_solver]. }
      exists h'. split; [done|]. split.
      * eapply only_frame; [exact Hf|]. intros a Ha%Hdirty.
        apply elem_of_cons in Ha as [->|(j & -> & Hj)%list_elem_of_fmap]; [by left|right].
        exists j. split; [|done]. apply elem_of_cons in Hj as [->|?]; [done|by apply Hr].
      * exists (i :: sl). split_and!; [by right|set_solver|]. intros j Hj Hjn.
        apply (dlist_frame _ _ _ _ _ Hf); [|apply Hd; set_solver].
        intros a ->%list_elem_of_singleton Ha%Hdirty.
        apply elem_of_cons in Ha as [E|(j' & E%swap_node_inj & Hj')%list_elem_of_fmap]; [|congruence].
        unfold outside in Hsw. rewrite <-E in Hsw. unfold swap_node_of, pg, sizeof_page_info, off_swap_node in Hsw. lia.
Qed.

Lemma buddy_inv_swap m g h' : buddy_inv m g → only swap_addr (heap m) h' → swap_ok h' →
  buddy_inv (set_heap h' m) g.
Proof.
  intros [[? ? Hs ? Hls] ? Hz ? ? ? ?] Hon Hsw. split; try done.
  - split; try done. eapply lists_only; [exact Hon| |done|done]. intros a Ha Hza. by apply (swap_not_free L a).
  - eapply zero_only; [exact Hon|by apply zero_not_swap|done].
Qed.

(** [page_decref] gives the page back when the last reference goes. *)
Lemma page_decref_spec m g k p : buddy_inv m g → 0 ≤ k < n → ¬ free_frame g k →
  infos m !! pg k = Some p → 1 ≤ pp_ref p < 65536 →
  wp (page_decref (pg k)) (λ _ m', ∃ g', buddy_inv m' g' ∧ others_kept g k m m' ∧ phys m' = phys m ∧
    (∀ j, free_frame g' j ↔ free_frame g j ∨ (j = k ∧ pp_ref p = 1)) ∧
    (pp_ref p ≠ 1 → infos m' !! pg k = Some (set_ref (pp_ref p - 1) p))) m.
Proof.
  intros Hinv Hk Hnf Hp Hr. unfold page_decref. wp_step. eapply wp_page_upd; [done|].
  assert (pp_ref (set_ref (pp_ref p - 1) p) = pp_ref p - 1) as Er.
  { simpl. unfold u16. apply Z.mod_small. lia. }
  set (p' := set_ref (pp_ref p - 1) p) in *. set (m1 := set_infos _ m).
  assert (buddy_inv m1 g) as Hinv1 by (eapply buddy_inv_upd; done).
  assert (infos m1 !! pg k = Some p') as Hp' by apply lookup_insert_eq.
  wp_step. eapply wp_page_get; [done|]. rewrite Er. wp_if E.
  - apply Z.eqb_eq in E. eapply wp_mono; [eapply page_free_spec; [done|exact Hinv1|done|done|exact Hp'|lia]|].
    intros _ m' (g' & Hinv' & Hff & Hk' & Hph). exists g'.
    split; [done|]. split; [by eapply others_kept_upd|]. split; [done|]. split; [|lia].
    intros j. rewrite Hff. intuition lia.
  - apply Z.eqb_neq in E. wp_step. exists g. split; [done|].
    split; [by apply others_kept_self; naive_solver|]. split; [done|]. split; [|done]. intros j. intuition lia.
Qed.

(** [ptbl_free] marks the page free before it calls [page_free], which does
    so again. *)
Lemma page_free_marked m k p Q : infos m !! pg k = Some p → wp (page_free (pg k)) Q m →
  wp (page_free (pg k)) Q (set_infos (<[pg k := set_free 1 p]> (infos m)) m).
Proof.
  intros Hp Hw. unfold page_free in *. set (m1 := set_infos _ m).
  assert (infos m1 !! pg k = Some (set_free 1 p)) as Hp1 by apply lookup_insert_eq.
  apply wp_bind_inv, (wp_page_get_inv _ _ _ _ Hp) in Hw. wp_step. eapply wp_page_get; [exact Hp1|].
  simpl pp_ref. apply wp_bind_inv in Hw. wp_step. eapply wp_assert_replay; [exact Hw|]. clear Hw. intros Hw.
  unfold lock_buddy in *. apply wp_bind_inv, wp_bind_inv, wp_zoom_inv in Hw. do 2 wp_step. apply wp_gets, wp_zoom.
  eapply wp_mono; [exact Hw|]. cbv beta. clear Hw. intros [] l Hw.
  unfold remove_swap_page, on_heap in *.
  apply wp_bind_inv, wp_bind_inv, wp_zoom_inv in Hw. wp_step. wp_step. apply wp_zoom.
  eapply wp_mono; [exact Hw|]. cbv beta. clear Hw. intros e h1 Hw.
  assert (∀ h R, wp (page_upd (pg k) (set_free 1)) R (set_heap h (set_lock l m)) →
    wp (page_upd (pg k) (set_free 1)) R (set_heap h (set_lock l m1))) as Hupd.
  { intros h R Hu. unfold page_upd in *. apply wp_bind_inv, (wp_page_get_inv _ _ p) in Hu; [|done].
    wp_step. eapply wp_page_get; [exact Hp1|]. wp_step. unfold wp, modify in Hu. simpl in Hu |- *.
    by rewrite insert_insert_eq. }
  destruct (negb e).
  - apply wp_zoom_inv in Hw. apply wp_zoom. eapply wp_mono; [exact Hw|]. cbv beta. clear Hw. intros [] h2 Hw.
    apply wp_bind_inv in Hw. wp_step. by apply (Hupd h2).
  - unfold wp at 1 in Hw. simpl in Hw. apply wp_ret. apply wp_bind_inv in Hw. wp_step. by apply (Hupd h1).
Qed.
End clients.
End representation.
