(* ===== verification/MemInit.v ===== *)
(** * Boot-time memory set-up (kernel/mem/boot.c, kernel/mem/init.c)

    [boot_alloc], [align_boot_info] and [page_init]: the memory map handed over
    by the boot loader is aligned to pages and every usable frame is given to
    the buddy allocator.  The main result is that [page_init] establishes the
    allocator's invariant, with exactly the usable frames free. *)

From S2P Require Import Prelude LinkedList Paging Spinlock Buddy BuddyProofs.

Local Open Scope Z_scope.

(** ** Data (include/boot.h) *)

Record mmap_entry := MmapEntry { addr : Z; len : Z; type : Z; flags : Z }.

Definition MMAP_FREE : Z := 1.

(** [mmap] is the array at [mmap_addr]; [bi_self] the address of the struct. *)
Record boot_info := BootInfo {
  bi_self : Z;
  mmap_addr : Z;
  mmap : list mmap_entry;
  elf_hdr : Z;
}.

(** The linker symbol [end]. *)
Class KernelEnd := kernel_end : Z.

(** The memory state with the static variable of [boot_alloc]. *)
Record boot := Boot { bmem : mem; next_free : Z }.

Definition set_bmem (m : mem) (b : boot) : boot := Boot m (next_free b).
Definition set_next_free (v : Z) (b : boot) : boot := Boot (bmem b) v.
Definition on_mem {A} (c : M mem A) : M boot A := zoom bmem set_bmem c.

(** ** kernel/mem/boot.c *)

Definition boot_alloc `{KernelEnd} (n : Z) : M boot Z :=
  nf ← gets next_free;
  (if nf =? NULL then modify (set_next_free (ROUNDUP kernel_end PAGE_SIZE)) else mret tt);;
  result ← gets next_free;
  (if 0 <? n then modify (set_next_free (u64 (result + u32 (ROUNDUP n PAGE_SIZE)))) else mret tt);;
  nf ← gets next_free;
  if BOOT_MAP_LIM <? s64 nf then halt Panic else mret result.

Definition align_entry (e : mmap_entry) : mmap_entry :=
  let '(base, end_) :=
    if type e =? MMAP_FREE then
      let base := ROUNDUP (addr e) PAGE_SIZE in
      let end_ := u64 (len e - (base - addr e)) in
      (base, ROUNDDOWN (u64 (base + end_)) PAGE_SIZE)
    else
      let base := ROUNDDOWN (addr e) PAGE_SIZE in
      let end_ := u64 (len e + (addr e - base)) in
      (base, ROUNDUP (u64 (base + end_)) PAGE_SIZE) in
  MmapEntry base (u64 (end_ - base)) (type e) (flags e).

Definition align_boot_info (b : boot_info) : boot_info :=
  BootInfo (bi_self b) (mmap_addr b) (align_entry <$> mmap b) (elf_hdr b).

(** ** kernel/mem/init.c *)

(** The number of pages [mem_init] allocates [page_info]s for: the end of the
    last free region, limited to the boot mapping. *)
Definition highest_addr (b : boot_info) : Z :=
  foldl (λ h e, if negb (type e =? MMAP_FREE) then h else u64 (addr e + len e)) 0 (mmap b).

Definition boot_npages (b : boot_info) : Z := Z.min BOOT_MAP_LIM (highest_addr b) `div` PAGE_SIZE.

Section init.
Context `{Layout, KernelEnd}.

(** First loop of [page_init], from page [i] on. *)
Fixpoint page_init_infos (k : nat) (i : Z) : M mem unit :=
  match k with
  | O => mret tt
  | S k =>
      page ← page_at i;
      on_heap (list_init page);;
      on_heap (list_init (page + off_swap_node));;
      page_upd page (set_ref 0);;
      page_upd page (set_free 0);;
      page_upd page (set_order 0);;
      page_init_infos k (i + 1)
  end.

(** The two halves of the condition; [PADDR(boot_info)] is evaluated in
    between, and only if the first half holds. *)
Definition in_boot_map (j : Z) : bool := (j <? BOOT_MAP_LIM) && negb (j =? 0).

Definition not_reserved (b : boot_info) (self_pa end_ j : Z) : bool :=
  negb (j =? PAGE_ADDR self_pa) && negb (j =? elf_hdr b) && ((j <? KERNEL_LMA) || (end_ <=? j)).

(** The loop over the pages of one region.  It makes one step per page
    unless [j] wraps around, which [k] steps bound. *)
Fixpoint free_region (k : nat) (b : boot_info) (end_ j p_end : Z) : M mem unit :=
  match k with
  | O => if j <? p_end then halt NoFuel else mret tt
  | S k =>
      if j <? p_end then
        (if in_boot_map j then
           self_pa ← PADDR (bi_self b);
           if not_reserved b self_pa end_ j then
             page ← page_at (PAGE_INDEX j);
             page_free page
           else mret tt
         else mret tt);;
        free_region k b end_ (u64 (j + PAGE_SIZE)) p_end
      else mret tt
  end.

Fixpoint free_regions (es : list mmap_entry) (b : boot_info) (end_ : Z) : M mem unit :=
  match es with
  | [] => mret tt
  | e :: es =>
      (if type e =? MMAP_FREE then
         let p_start := addr e in
         let p_end := u64 (p_start + len e) in
         free_region (Z.to_nat ((p_end - p_start) `div` PAGE_SIZE + 1)) b end_ p_start p_end
       else mret tt);;
      free_regions es b end_
  end.

Definition page_init (b : boot_info) : M boot unit :=
  n ← gets (λ s, npages (bmem s));
  on_mem (page_init_infos (Z.to_nat n) 0);;
  _ ← on_mem (KADDR (mmap_addr b));
  a ← boot_alloc 0;
  end_ ← on_mem (PADDR a);
  on_mem (free_regions (mmap b) b end_).
End init.

(** ** Rounding *)

Lemma rounddown_spec a : 0 ≤ a < 2 ^ 64 →
  ROUNDDOWN a PAGE_SIZE `mod` PAGE_SIZE = 0 ∧ ROUNDDOWN a PAGE_SIZE ≤ a < ROUNDDOWN a PAGE_SIZE + PAGE_SIZE ∧
  0 ≤ ROUNDDOWN a PAGE_SIZE.
Proof.
  intros Ha. unfold ROUNDDOWN, u64, PAGE_SIZE. rewrite (Z.mod_small a (2 ^ 64)) by lia. mlia.
Qed.

Lemma roundup_spec a : 0 ≤ a < 2 ^ 64 - PAGE_SIZE →
  ROUNDUP a PAGE_SIZE `mod` PAGE_SIZE = 0 ∧ a ≤ ROUNDUP a PAGE_SIZE < a + PAGE_SIZE.
Proof.
  intros Ha. unfold ROUNDUP, PAGE_SIZE in *. unfold u64.
  rewrite (Z.mod_small (a + 4096 - 1)) by lia.
  destruct (rounddown_spec (a + 4096 - 1)) as (? & ? & ?); [lia|]. unfold PAGE_SIZE in *. lia.
Qed.

(** ** [boot_alloc] *)

Section boot_alloc.
Context `{KernelEnd}.

(** The allocation pointer before and after initialisation. *)
Definition next_of (s : boot) : Z :=
  if next_free s =? NULL then ROUNDUP kernel_end PAGE_SIZE else next_free s.

(** In the kernel half of the address space the out-of-memory test, which
    compares a virtual address as a signed number, never fires: the call
    returns whatever the request, and bumps the pointer by whole pages. *)
Lemma boot_alloc_run n s : 0 ≤ n < 2 ^ 32 - PAGE_SIZE → KERNEL_VMA ≤ next_of s < 2 ^ 64 - 2 ^ 32 →
  boot_alloc n s = OK (next_of s) (Boot (bmem s) (next_of s + ROUNDUP n PAGE_SIZE)).
Proof.
  intros Hn Hnf. unfold boot_alloc, next_of, gets, modify, mbind, M_bind, mret, M_ret in *.
  assert (0 ≤ ROUNDUP n PAGE_SIZE < 2 ^ 32) as Hr.
  { pose proof (roundup_spec n). unfold PAGE_SIZE in *. lia. }
  assert (∀ x, KERNEL_VMA ≤ x < 2 ^ 64 → (BOOT_MAP_LIM <? s64 x) = false) as Hlim.
  { intros x Hx. apply Z.ltb_ge. unfold s64, BOOT_MAP_LIM, KERNEL_VMA in *.
    replace (x + 2 ^ 63) with (x - 2 ^ 63 + 1 * 2 ^ 64) by lia. rewrite Z.mod_add, Z.mod_small by lia. lia. }
  assert (∀ x, KERNEL_VMA ≤ x < 2 ^ 64 - 2 ^ 32 → u64 (x + u32 (ROUNDUP n PAGE_SIZE)) = x + ROUNDUP n PAGE_SIZE) as Hu.
  { intros x Hx. unfold u64, u32. rewrite (Z.mod_small _ (2 ^ 32)) by lia.
    unfold KERNEL_VMA in *. apply Z.mod_small. lia. }
  assert ((0 <? n) = false → ROUNDUP n PAGE_SIZE = 0) as H0.
  { intros ?%Z.ltb_ge. by replace n with 0 by lia. }
  destruct (next_free s =? NULL); simpl; destruct (0 <? n); simpl;
    rewrite ?Hu, ?H0, ?Hlim, ?Z.add_0_r by (done || lia); by destruct s.
Qed.
End boot_alloc.

(** ** [align_boot_info] *)

(** The pages of an aligned entry: [addr/PAGE_SIZE] up to its end. *)
Definition entry_end (e : mmap_entry) : Z := u64 (addr e + len e).

(** [e'] is [e] aligned: inward for free memory, keeping every whole page, and
    outward for anything else. *)
Definition aligned_entry (e e' : mmap_entry) : Prop :=
  type e' = type e ∧ addr e' `mod` PAGE_SIZE = 0 ∧ entry_end e' `mod` PAGE_SIZE = 0 ∧
  if type e =? MMAP_FREE then
    addr e ≤ addr e' ∧ entry_end e' ≤ addr e + len e ∧
    ∀ k, addr e ≤ k * PAGE_SIZE → (k + 1) * PAGE_SIZE ≤ addr e + len e →
         addr e' ≤ k * PAGE_SIZE ∧ (k + 1) * PAGE_SIZE ≤ entry_end e'
  else addr e' ≤ addr e ∧ addr e + len e ≤ entry_end e'.

Lemma u64_small x : 0 ≤ x < 2 ^ 64 → u64 x = x.
Proof. apply Z.mod_small. Qed.

Lemma u64_add_sub b x : 0 ≤ b < 2 ^ 64 → 0 ≤ x < 2 ^ 64 → u64 (b + u64 (x - b)) = x.
Proof.
  intros Hb Hx. unfold u64. rewrite Zplus_mod_idemp_r.
  replace (b + (x - b)) with x by lia. by apply Z.mod_small.
Qed.

Lemma align_entry_spec e : 0 ≤ addr e → 0 ≤ len e → addr e + len e < 2 ^ 64 - PAGE_SIZE →
  aligned_entry e (align_entry e).
Proof.
  intros Ha Hl Hs. unfold aligned_entry, align_entry, entry_end.
  pose proof (rounddown_spec (addr e)) as Hd. pose proof (roundup_spec (addr e)) as Hu.
  pose proof (rounddown_spec (addr e + len e)) as Hd'. pose proof (roundup_spec (addr e + len e)) as Hu'.
  destruct (type e =? MMAP_FREE); cbn [addr len type].
  - replace (len e - (ROUNDUP (addr e) PAGE_SIZE - addr e)) with (addr e + len e - ROUNDUP (addr e) PAGE_SIZE) by lia.
    rewrite !u64_add_sub by (rewrite ?u64_add_sub; unfold PAGE_SIZE in *; lia).
    unfold PAGE_SIZE in *. split_and!; [done|lia..|]. intros k H1 H2. clear -H1 H2 Hu Hd' Ha Hl Hs.
    destruct Hu as [Hum ?]; [lia|]. destruct Hd' as (Hdm & ? & ?); [lia|].
    generalize dependent (ROUNDUP (addr e) 4096); generalize dependent (ROUNDDOWN (addr e + len e) 4096); intros. mlia.
  - replace (len e + (addr e - ROUNDDOWN (addr e) PAGE_SIZE)) with (addr e + len e - ROUNDDOWN (addr e) PAGE_SIZE) by lia.
    rewrite !u64_add_sub by (rewrite ?u64_add_sub; unfold PAGE_SIZE in *; lia).
    unfold PAGE_SIZE in *. split_and!; [done|lia..].
Qed.

(** ** [page_init] establishes the allocator's invariant *)

Section page_init.
Context `{Layout, KernelEnd} (base n : Z) (L : layout_ok base n).
Abbreviation pg := (pg base).
Abbreviation swap_node_of := (swap_node_of base).
Abbreviation zero_node_of := (zero_node_of base).
Implicit Types (m : mem) (g : blocks).

(** The [page_info]s and their nodes exist. *)
Definition raw m : Prop := ∀ j, 0 ≤ j < n →
  pg j ∈ dom (infos m) ∧ pg j ∈ dom (heap m) ∧ swap_node_of j ∈ dom (heap m).

(** The first [i] pages have been initialised. *)
Definition fresh_until (i : Z) m : Prop := ∀ j, 0 ≤ j < i →
  detached (heap m) (pg j) ∧ detached (heap m) (swap_node_of j) ∧
  ∃ p, infos m !! pg j = Some p ∧ pp_ref p = 0 ∧ pp_free p = 0 ∧ pp_order p = 0.

(** Physical memory is zero and no page is marked as zeroed. *)
Definition pristine m : Prop := phys m = ∅ ∧ ∀ a p, infos m !! a = Some p → pp_zero p = 0.

Definition page_addr (a : Z) : Prop := ∃ j, 0 ≤ j < n ∧ (a = pg j ∨ a = swap_node_of j).

Lemma page_init_infos_spec k i m : raw m → fresh_until i m → 0 ≤ i → pages m = base →
  i + Z.of_nat k = n →
  wp (page_init_infos k i) (λ _ m', fresh_until n m' ∧ only page_addr (heap m) (heap m') ∧
    m' = set_infos (infos m') (set_heap (heap m') m) ∧ (pristine m → pristine m')) m.
Proof.
  revert i m. induction k as [|k IH]; intros i m Hraw Hfr Hi Hb Hk; simpl.
  { wp_step. replace n with i by lia. split; [done|]. split; [done|]. split; [by destruct m|done]. }
  assert (0 ≤ i < n) as Hin by lia. destruct (Hraw i Hin) as ([p Hp]%elem_of_dom & Hd1 & Hd2).
  pose proof (pg_pos base n L i ltac:(lia)) as Hpos.
  assert (pg i ≠ NULL ∧ swap_node_of i ≠ NULL) as [Hn1 Hn2]
    by (unfold NULL, BuddyProofs.swap_node_of, off_swap_node in *; lia).
  wp_step. apply (wp_page_at base); [done|].
  wp_step. apply wp_zoom. eapply wp_mono; [by apply list_init_spec|]. intros _ h1 [Hl1 Hf1].
  wp_step. apply wp_zoom. simpl. fold (swap_node_of i). pose proof Hf1 as [Ed1 _].
  eapply wp_mono; [apply list_init_spec; [by rewrite Ed1|done]|]. intros _ h2 [Hl2 Hf2].
  pose proof Hf2 as [Ed2 _].
  do 3 (wp_step; eapply wp_page_upd; [simpl; by rewrite ?lookup_insert_eq|]; simpl; rewrite ?insert_insert_eq).
  match goal with |- wp _ _ ?s => set (m1 := s) end.
  assert (∀ a, a ∉ [pg i; swap_node_of i] → h2 !! a = heap m !! a) as Hh2.
  { intros a Ha. destruct Hf1 as [_ F1], Hf2 as [_ F2]. rewrite F2, F1 by set_solver. done. }
  assert (∀ j, j ≠ i → 0 ≤ j → pg j ∉ [pg i; swap_node_of i] ∧ swap_node_of j ∉ [pg i; swap_node_of i]) as Hother.
  { intros j Hj Hj0. unfold BuddyProofs.swap_node_of, BuddyProofs.pg, sizeof_page_info, off_swap_node.
    rewrite !elem_of_cons, !elem_of_nil. lia. }
  assert (only page_addr (heap m) h2) as Honly.
  { split; [congruence|]. intros a Ha. apply Hh2. rewrite !elem_of_cons, elem_of_nil.
    intros [->|[->|[]]]; apply Ha; exists i; auto. }
  eapply wp_mono; [apply (IH (i + 1) m1)|]; [| |lia|done|lia|].
  - intros j Hj. destruct (Hraw j Hj) as (? & ? & ?). unfold m1; simpl.
    rewrite dom_insert_L, Ed2, Ed1. set_solver.
  - intros j Hj. destruct (decide (j = i)) as [->|Hji].
    + split_and!; unfold m1; simpl; [|done|by rewrite lookup_insert_eq; eauto].
      apply (dlist_frame _ _ _ _ _ Hf2); [|done]. intros a ->%list_elem_of_singleton.
      unfold BuddyProofs.swap_node_of, off_swap_node. rewrite elem_of_cons, elem_of_nil. lia.
    + destruct (Hfr j ltac:(lia)) as (Hd & Hds & q & Hq & ?). destruct (Hother j) as [Ho1 Ho2]; [done|lia|].
      assert (frame [pg i; swap_node_of i] (heap m) h2) as Hf by (split; [congruence|done]).
      split_and!; unfold m1; simpl.
      * apply (dlist_frame _ _ _ _ _ Hf); [|done]. by intros a ->%list_elem_of_singleton.
      * apply (dlist_frame _ _ _ _ _ Hf); [|done]. by intros a ->%list_elem_of_singleton.
      * exists q. rewrite lookup_insert_ne; [done|]. intros ?%pg_inj. congruence.
  - intros _ m2 (Hfr2 & Hon2 & Er2 & Hpr2). split; [done|]. split; [by eapply only_trans|].
    split; [by rewrite Er2|]. intros [Ep Hz]. apply Hpr2. split; [done|]. intros a q. unfold m1; simpl.
    rewrite lookup_insert. case_decide; [|apply Hz]. intros [= <-]. simpl. by eapply Hz.
Qed.

(** The frames of a region that [page_init] hands to the allocator. *)
Definition usable (b : boot_info) (end_ k : Z) : bool :=
  in_boot_map (k * PAGE_SIZE) && not_reserved b (bi_self b - KERNEL_VMA) end_ (k * PAGE_SIZE).

Definition region_frames (b : boot_info) (end_ : Z) (e : mmap_entry) : list Z :=
  if type e =? MMAP_FREE
  then filter (usable b end_) (seqZ (addr e `div` PAGE_SIZE) (len e `div` PAGE_SIZE)) else [].

Definition usable_frames (b : boot_info) (end_ : Z) : list Z :=
  mmap b ≫= region_frames b end_.

(** Freeing the frames [ks], none of which is free yet, one after the other. *)
Definition unreferenced g m : Prop := ∀ j p, 0 ≤ j < n → ¬ free_frame g j →
  infos m !! pg j = Some p → pp_ref p = 0.

(** The allocator has been set up from [m0] and the frames of [F] have been
    freed. *)
Definition freed (m0 : mem) (F : list Z) m : Prop := pages m = base ∧ (pristine m0 → pristine m) ∧
  (dlist (heap m0) swap_pages [] → swap_list base n true (heap m)) ∧
  ∃ g, buddy_inv base n m g ∧ unreferenced g m ∧ ∀ k, free_frame g k ↔ k ∈ F.

Lemma free_one m0 F m k : freed m0 F m → 0 ≤ k < n → k ∉ F →
  wp (page ← page_at k; page_free page) (λ _ m', freed m0 (F ++ [k]) m') m.
Proof.
  intros (Hb & Hpr & Hsw & g & Hinv & Hun & HF) Hk HkF. wp_step. apply (wp_page_at base); [done|].
  destruct (core_rep _ _ _ _ _ (inv_core _ _ _ _ Hinv) k Hk) as (p & Hp & _).
  rewrite <-HF in HkF.
  eapply wp_mono; [eapply (page_free_spec base n L); [done|done|done|done|by eapply Hun]|].
  intros _ m' (g' & Hinv' & Hff & [Hus _ _ Hz Hks] & Hph). split; [by destruct (inv_core _ _ _ _ Hinv')|]. split.
  { intros [Ep Hz0]%Hpr. split; [by rewrite Hph|]. intros a q Hq. destruct (Hz a q Hq) as [?|Hq']; [done|].
    destruct (infos m !! a) as [p'|] eqn:E; [|done]. simpl in Hq'. injection Hq' as <-. by eapply Hz0. }
  split; [intros Hd; by apply Hks, Hsw|].
  exists g'. split; [done|]. split.
  - intros j q Hj Hnf Hq. rewrite Hff in Hnf. rewrite Hus in Hq by tauto. eapply (Hun j); tauto.
  - intros j. rewrite Hff, HF. set_solver.
Qed.

(** One region, from frame [f] on, [c] frames. *)
Lemma free_region_spec (k : nat) b end_ f (c : nat) m0 F m :
  freed m0 F m → KERNEL_VMA ≤ bi_self b → (c < k)%nat → 0 ≤ f → f + Z.of_nat c < 2 ^ 50 →
  NoDup (F ++ filter (usable b end_) (seqZ f (Z.of_nat c))) →
  (∀ j, j ∈ filter (usable b end_) (seqZ f (Z.of_nat c)) → j < n) →
  wp (free_region k b end_ (f * PAGE_SIZE) ((f + Z.of_nat c) * PAGE_SIZE))
    (λ _ m', freed m0 (F ++ filter (usable b end_) (seqZ f (Z.of_nat c))) m') m.
Proof.
  intros HF Hself. revert k f F m HF.
  induction c as [|c IH]; intros k f F m HF Hk Hf Hf50 Hnd Hn; (destruct k as [|k]; [lia|]); simpl.
  { rewrite Z.add_0_r, Z.ltb_irrefl. wp_step. by rewrite seqZ_nil, app_nil_r. }
  rewrite (proj2 (Z.ltb_lt _ _)) by (unfold PAGE_SIZE; lia).
  assert (seqZ f (Z.of_nat (S c)) = f :: seqZ (f + 1) (Z.of_nat c)) as Eseq.
  { rewrite seqZ_cons by lia. unfold Z.succ, Z.pred. do 2 f_equal; lia. }
  rewrite Eseq in Hnd, Hn |- *.
  assert (u64 (f * PAGE_SIZE + PAGE_SIZE) = (f + 1) * PAGE_SIZE) as Ej.
  { unfold u64, PAGE_SIZE. rewrite Z.mod_small; lia. }
  assert ((f + Z.of_nat (S c)) * PAGE_SIZE = (f + 1 + Z.of_nat c) * PAGE_SIZE) as Ee by lia.
  wp_step. rewrite Ej, Ee.
  destruct (usable b end_ f) eqn:Eu.
  - rewrite filter_cons_True in Hnd, Hn |- * by (by rewrite Eu).
    apply andb_true_iff in Eu as [-> Eu2].
    unfold PADDR. rewrite (proj2 (Z.ltb_ge _ _)) by done. wp_step. wp_step. rewrite Eu2, page_index_mul.
    eapply wp_mono; [eapply (free_one m0 F); [done| |]|].
    + split; [done|]. apply Hn. set_solver.
    + apply NoDup_app in Hnd as (_ & Hnd & _). intros Hin. apply (Hnd f); [done|set_solver].
    + cbv beta. intros [] m1 HF1.
      eapply wp_mono; [apply (IH k (f + 1) (F ++ [f])); [done|lia|lia|lia| |]|].
      * by rewrite <-app_assoc.
      * intros j Hj. apply Hn. set_solver.
      * cbv beta. intros _ m2. by rewrite <-app_assoc.
  - rewrite filter_cons_False in Hnd, Hn |- * by (rewrite Eu; by intros []).
    apply wp_mono with (P := λ _ m', m' = m).
    + apply andb_false_iff in Eu as [-> | Eu]; [done|]. destruct (in_boot_map _); [|done].
      unfold PADDR. rewrite (proj2 (Z.ltb_ge _ _)) by done. wp_step. wp_step. by rewrite Eu.
    + intros _ m1 ->. by apply IH; [|lia..| |].
Qed.

(** Free regions are page aligned and end below 2^62. *)
Definition region_ok (e : mmap_entry) : Prop := type e = MMAP_FREE →
  0 ≤ addr e ∧ 0 ≤ len e ∧ addr e + len e < 2 ^ 62 ∧ addr e `mod` PAGE_SIZE = 0 ∧ len e `mod` PAGE_SIZE = 0.

Lemma free_regions_spec es b end_ m0 F m :
  freed m0 F m → KERNEL_VMA ≤ bi_self b → Forall region_ok es →
  NoDup (F ++ (es ≫= region_frames b end_)) → (∀ j, j ∈ es ≫= region_frames b end_ → j < n) →
  wp (free_regions es b end_) (λ _ m', freed m0 (F ++ (es ≫= region_frames b end_)) m') m.
Proof.
  intros HF Hself Hes. revert F m HF. induction Hes as [|e es He Hes IH]; intros F m HF Hnd Hn; simpl.
  { wp_step. by rewrite app_nil_r. }
  simpl in Hnd, Hn. rewrite app_assoc in Hnd |- *. wp_step.
  eapply wp_mono with (P := λ _ m', freed m0 (F ++ region_frames b end_ e) m').
  2:{ intros _ m1 HF1. apply IH; [done|done|]. set_solver. }
  unfold region_frames in *. destruct (type e =? MMAP_FREE) eqn:Et; [|wp_step; by rewrite app_nil_r].
  apply Z.eqb_eq in Et. destruct (He Et) as (Ha & Hl & Hs & Hma & Hml).
  set (f := addr e `div` PAGE_SIZE) in *. set (c := len e `div` PAGE_SIZE) in *.
  assert (addr e = f * PAGE_SIZE ∧ len e = c * PAGE_SIZE) as [Ea El]
    by (unfold f, c, PAGE_SIZE in *; clear -Hma Hml; mlia).
  assert (0 ≤ f ∧ 0 ≤ c ∧ f + c < 2 ^ 50) as (? & ? & ?) by (unfold PAGE_SIZE in *; lia).
  rewrite u64_small by lia.
  assert ((addr e + len e - addr e) `div` PAGE_SIZE = c) as ->.
  { replace (addr e + len e - addr e) with (len e) by lia. done. }
  rewrite Ea, El. replace (f * PAGE_SIZE + c * PAGE_SIZE) with ((f + Z.of_nat (Z.to_nat c)) * PAGE_SIZE)
    by (rewrite Z2Nat.id; lia).
  pose proof (free_region_spec (Z.to_nat (c + 1)) b end_ f (Z.to_nat c) m0 F m HF Hself) as Hr.
  rewrite Z2Nat.id in Hr |- * by lia. apply Hr; [lia|lia|lia| |set_solver].
  by apply NoDup_app in Hnd as [? _].
Qed.

(** The state [mem_init] calls [page_init] in. *)
Record boot_ready (s : boot) (b : boot_info) : Prop := {
  ready_pages : pages (bmem s) = base;
  ready_npages : npages (bmem s) = n;
  ready_raw : raw (bmem s);
  ready_heads o : 0 ≤ o < BUDDY_MAX_ORDER → dlist (heap (bmem s)) (free_list o) [];
  ready_zero : zero_ok base n (heap (bmem s));
  ready_lock : is_free (buddy_lock (bmem s));
  ready_self : KERNEL_VMA ≤ bi_self b;
  ready_mmap : PAGE_INDEX (mmap_addr b) < n;
  ready_regions : Forall region_ok (mmap b);
  ready_next : KERNEL_VMA ≤ next_of s < 2 ^ 64 - 2 ^ 32;
}.

Lemma fresh_inv m m' : fresh_until n m' → only page_addr (heap m) (heap m') →
  m' = set_infos (infos m') (set_heap (heap m') m) → pages m = base → npages m = n →
  (∀ o, 0 ≤ o < BUDDY_MAX_ORDER → dlist (heap m) (free_list o) []) →
  zero_ok base n (heap m) → is_free (buddy_lock m) → (pristine m → pristine m') → freed m [] m'.
Proof.
  intros Hfr Hon Er Hb Hn Hheads Hz Hlk Hpr.
  assert (∀ k, ¬ free_frame ∅ k) as Hff by (intros k (i & o & Hi & _); by rewrite lookup_empty in Hi).
  assert (∀ a, page_addr a → ¬ outside base n a) as Hpo.
  { intros a (j & Hj & Ha) [_ Ho]. unfold BuddyProofs.swap_node_of, BuddyProofs.pg, sizeof_page_info, off_swap_node in *. lia. }
  assert (∀ a, zero_addr base n a → ¬ page_addr a) as Hzp.
  { intros a Ha (j & Hj & [-> | ->]).
    - apply (zero_not_free base n L _ Ha). right. eauto.
    - apply (zero_not_swap base n L _ Ha). right. eauto. }
  split; [by rewrite Er|]. split; [done|]. split.
  { intros Hd. exists []. split; [right|split; [intros ? []%elem_of_nil|intros i Hi _; by apply Hfr]]. simpl.
    eapply only_dlist; [exact Hon| |done]. intros a ->%list_elem_of_singleton Ha%Hpo. by apply Ha, (layout_swap base n L). }
  exists ∅. split; [|split; [|intros k; split; [intros []%Hff|intros []%elem_of_nil]]].
  - split.
    + split; [by rewrite Er|by rewrite Er| | |].
      * split; intros *; by rewrite lookup_empty.
      * intros i Hi. destruct (Hfr i Hi) as (_ & _ & p & Hp & _ & Hpf & Hpo'). exists p. split; [done|].
        rewrite lookup_empty. split; [|done]. rewrite Hpo'. done.
      * exists (λ _, []). split_and!.
        -- intros o Ho. eapply only_dlist; [exact Hon| |by apply Hheads].
           intros a ->%list_elem_of_singleton Ha%Hpo. by apply Ha, (layout_heads base n L).
        -- intros i o Ho. rewrite lookup_empty. set_solver.
        -- intros i Hi _. by apply Hfr.
    + exists []. split; [by left|]. split; [set_solver|]. intros i Hi _. by apply Hfr.
    + by eapply zero_only.
    + by rewrite Er.
    + intros k p []%Hff.
    + intros k p Hk _ Hp. destruct (Hfr k Hk) as (_ & _ & q & Hq & _ & _ & ?). congruence.
    + intros i o Hi. by rewrite lookup_empty in Hi.
  - intros j p Hj _ Hp. destruct (Hfr j Hj) as (_ & _ & q & Hq & ? & _). congruence.
Qed.

(** [page_init] gives the usable frames, and only those, to the allocator. *)
Lemma page_init_run s b : boot_ready s b →
  let end_ := next_of s - KERNEL_VMA in
  NoDup (usable_frames b end_) → (∀ k, k ∈ usable_frames b end_ → k < n) →
  wp (page_init b) (λ _ s', freed (bmem s) (usable_frames b end_) (bmem s')) s.
Proof.
  intros [Hb Hn Hraw Hheads Hz Hlk Hself Hmm Hreg Hnx] end_ Hnd Hlt.
  unfold page_init. wp_step. wp_step. wp_step. apply wp_zoom. rewrite Hn.
  eapply wp_mono; [apply (page_init_infos_spec _ 0); [done| |lia|done|]|].
  { intros j Hj. lia. }
  { pose proof (layout_npages base n L). lia. }
  intros _ m1 (Hfr & Hon & Er & Hpr). pose proof (fresh_inv _ _ Hfr Hon Er Hb Hn Hheads Hz Hlk Hpr) as HF.
  wp_step. apply wp_zoom. simpl. unfold KADDR. wp_step. wp_step.
  assert (npages m1 = n) as -> by (by rewrite Er). rewrite (proj2 (Z.leb_gt _ _)) by done. wp_step.
  wp_step. eapply wp_OK.
  { apply boot_alloc_run; [unfold PAGE_SIZE; lia|]. destruct s; exact Hnx. }
  wp_step. apply wp_zoom. simpl. unfold PADDR.
  assert (∀ m, next_of (set_bmem m (set_bmem m1 s)) = next_of s) as En by (by destruct s).
  rewrite En, (proj2 (Z.ltb_ge _ _)) by lia. wp_step. apply wp_zoom. simpl.
  eapply wp_mono; [eapply (free_regions_spec _ _ _ _ []); done|]. done.
Qed.
End page_init.
