(* ===== verification/BuddySpec.v ===== *)
(** * What the buddy allocator promises

    Properties of [page_alloc], [page_free] and [count_total_free_pages] stated
    on the set of free frames, of whole histories of allocations and releases,
    and of [page_init], which establishes the allocator's invariant. *)

From S2P Require Import Prelude LinkedList Paging Spinlock Buddy BuddyProofs MemInit.

Local Open Scope Z_scope.

Section promises.
Context `{Layout} (base n : Z) (L : layout_ok base n).
Abbreviation pg := (pg base).
Abbreviation buddy_inv := (buddy_inv base n).
Implicit Types (m : mem) (g : blocks).

(** ** Out of memory *)

Lemma page_alloc_empty m f : buddy_inv m ∅ → ∃ m', page_alloc f m = Stop Panic m'.
Proof.
  intros [Hc _ _ Hlk _ _ _].
  assert (wp lock_buddy (λ _ m', ∃ l, m' = set_lock l m) m) as ([] & ? & Elk & l & ->)%wp_elim
    by (apply wp_lock_buddy; eauto).
  assert (core base n (set_lock l m) ∅ ∅) as Hcl by (by apply (core_ext _ _ m)).
  destruct (wp_elim _ _ _ (buddy_find_spec base n L _ _ 0 Hcl ltac:(done))) as (r & m2 & Ef & Hpost).
  destruct Hpost as [(-> & _)|(i & g' & X' & _ & Hc2 & _ & Hi & Hff & _)].
  - exists m2. unfold page_alloc, mbind, M_bind. by rewrite Elk, Ef.
  - assert (free_frame ∅ i) as (j & o & Hj & _).
    { apply Hff. by eapply free_frame_start; [apply Hc2|]. }
    by rewrite lookup_empty in Hj.
Qed.

(** ** Counting *)

(** The frames of the free lists, block by block. *)
Definition block_frames (o i : Z) : list Z := seqZ i (2 ^ o).
Definition list_frames (fl : Z → list Z) (o : Z) : list Z := fl o ≫= block_frames o.

Lemma length_list_frames fl o : Z.of_nat (length (list_frames fl o)) = Z.of_nat (length (fl o)) * 2 ^ o.
Proof.
  unfold list_frames. induction (fl o) as [|i l IH]; [done|].
  rewrite bind_cons, length_app, Nat2Z.inj_add, IH. unfold block_frames. rewrite length_seqZ. simpl length.
  pose proof (Z.pow_nonneg 2 o). lia.
Qed.

Definition orders_from (o : Z) (k : nat) : list Z := seqZ o (Z.of_nat k).

Lemma count_total_from_run fl m g k o acc :
  lists_by base n fl (heap m) g ∅ → 0 ≤ o → 0 ≤ acc → o + Z.of_nat k = BUDDY_MAX_ORDER →
  acc + Z.of_nat (length (orders_from o k ≫= list_frames fl)) < 2 ^ 64 →
  count_total_from k o acc m = OK (acc + Z.of_nat (length (orders_from o k ≫= list_frames fl))) m.
Proof.
  intros (Hl & _ & _). revert o acc. induction k as [|k IH]; intros o acc Ho Ha Hk Hs.
  { unfold orders_from. rewrite seqZ_nil by lia. simpl. by rewrite Z.add_0_r. }
  assert (orders_from o (S k) = o :: orders_from (o + 1) k) as Eo.
  { unfold orders_from. rewrite seqZ_cons by lia. unfold Z.succ, Z.pred. do 2 f_equal; lia. }
  rewrite Eo, bind_cons, length_app, Nat2Z.inj_add in *. simpl count_total_from.
  specialize (IH (o + 1)). set (T := Z.of_nat (length (orders_from (o + 1) k ≫= _))) in *.
  assert (0 ≤ T) by (unfold T; lia). clearbody T.
  unfold count_free_pages, on_heap, zoom, mbind, M_bind, mret, M_ret.
  rewrite (proj2 (Z.leb_gt _ _)) by lia.
  rewrite (list_foreach_spec _ _ _ (Hl o ltac:(lia))). replace (set_heap (heap m) m) with m by (by destruct m).
  rewrite length_fmap, Z.shiftl_1_l, <-length_list_frames.
  unfold u64. rewrite Z.mod_small by lia. rewrite IH by lia. f_equal. lia.
Qed.

Lemma all_frames_elem fl h g k : shape_ok n g → lists_by base n fl h g ∅ →
  k ∈ seqZ 0 BUDDY_MAX_ORDER ≫= list_frames fl ↔ free_frame g k.
Proof.
  intros Hs (_ & Hm & _). rewrite list_elem_of_bind. split.
  - intros (o & Hk & Ho%elem_of_seqZ). apply list_elem_of_bind in Hk as (i & Hk%elem_of_seqZ & Hi).
    apply Hm in Hi as [Hi _]; [|lia]. exists i, o. split; [done|lia].
  - intros (i & o & Hi & Hk). pose proof (shape_order _ _ Hs _ _ Hi). exists o.
    split; [|apply elem_of_seqZ; lia]. apply list_elem_of_bind. exists i.
    split; [apply elem_of_seqZ; lia|]. apply Hm; [lia|]. split; [done|set_solver].
Qed.

Lemma NoDup_bind_disjoint {A} (f : A → list Z) (l : list A) : NoDup l →
  (∀ x, x ∈ l → NoDup (f x)) → (∀ x y k, x ∈ l → y ∈ l → k ∈ f x → k ∈ f y → x = y) → NoDup (l ≫= f).
Proof.
  induction 1 as [|x l Hx Hl IH]; intros Hf Hd; simpl; [constructor|].
  apply NoDup_app. split_and!; [apply Hf; set_solver| |apply IH; set_solver].
  intros k Hk (y & Hy & Hyl)%list_elem_of_bind. assert (x = y) as -> by (apply (Hd x y k); set_solver). done.
Qed.

Lemma all_frames_NoDup fl h g : shape_ok n g → lists_by base n fl h g ∅ →
  NoDup (seqZ 0 BUDDY_MAX_ORDER ≫= list_frames fl).
Proof.
  intros Hs Hl. pose proof Hl as (_ & Hm & _).
  assert (∀ o i, o ∈ seqZ 0 BUDDY_MAX_ORDER → i ∈ fl o → g !! i = Some o) as Hg.
  { intros o i Ho%elem_of_seqZ Hi. apply Hm in Hi as [? _]; [done|lia]. }
  apply NoDup_bind_disjoint; [apply NoDup_seqZ| |].
  - intros o Ho. apply NoDup_bind_disjoint.
    + apply elem_of_seqZ in Ho. eapply (lists_NoDup base n); [done|lia].
    + intros i Hi. apply NoDup_seqZ.
    + intros i j k Hi Hj Hki%elem_of_seqZ Hkj%elem_of_seqZ.
      by destruct (block_unique n g i o j o k Hs (Hg o i Ho Hi) (Hg o j Ho Hj)); [lia|lia|].
  - intros o p k Ho Hp (i & Hki%elem_of_seqZ & Hi)%list_elem_of_bind (j & Hkj%elem_of_seqZ & Hj)%list_elem_of_bind.
    by destruct (block_unique n g i o j p k Hs (Hg o i Ho Hi) (Hg p j Hp Hj)); [lia|lia|].
Qed.

Lemma count_total_run m g (F : gset Z) : buddy_inv m g → (∀ k, free_frame g k ↔ k ∈ F) →
  count_total_free_pages m = OK (Z.of_nat (size F)) m.
Proof.
  intros Hinv HF. pose proof (inv_core _ _ _ _ Hinv) as Hc.
  pose proof (core_shape _ _ _ _ _ Hc) as Hs. destruct (core_lists _ _ _ _ _ Hc) as [fl Hfl].
  pose proof (all_frames_NoDup fl _ g Hs Hfl) as Hnd.
  assert (F = list_to_set (seqZ 0 BUDDY_MAX_ORDER ≫= list_frames fl)) as ->.
  { apply set_eq. intros k. rewrite elem_of_list_to_set, (all_frames_elem fl _ g k Hs Hfl). by rewrite HF. }
  rewrite size_list_to_set by done.
  assert (length (seqZ 0 BUDDY_MAX_ORDER ≫= list_frames fl) ≤ length (seqZ 0 n))%nat as Hle.
  { apply submseteq_length, NoDup_submseteq; [done|]. intros k Hk.
    apply (all_frames_elem fl _ g k Hs Hfl), (free_frame_range n) in Hk; [|done]. apply elem_of_seqZ. lia. }
  rewrite length_seqZ in Hle. pose proof (layout_npages base n L) as Hn.
  unfold count_total_free_pages. rewrite (count_total_from_run fl m g); [done|done|lia|lia|done|].
  unfold orders_from. change (Z.of_nat (Z.to_nat BUDDY_MAX_ORDER)) with BUDDY_MAX_ORDER. lia.
Qed.

(** ** Histories

    A client that allocates pages and releases pages it holds, in any order. *)
Inductive aop := Alloc (flags : Z) | Release (i : nat).

Fixpoint history (ops : list aop) (live : list Z) : M mem (list Z) :=
  match ops with
  | [] => mret live
  | Alloc f :: ops => p ← page_alloc f; history ops (p :: live)
  | Release i :: ops =>
      match live !! i with
      | Some p => page_free p;; history ops (delete i live)
      | None => history ops live
      end
  end.

Definition is_alloc (o : aop) : bool := match o with Alloc _ => true | Release _ => false end.

(** An allocation asks for a page of the normal size. *)
Definition single_page (o : aop) : Prop := match o with Alloc f => has f ALLOC_HUGE = false | Release _ => True end.

Definition allocs (ops : list aop) : nat := length (filter is_alloc ops).

(** The client holds the pages [pg <$> ks]; the others of [F] are free. *)
Record holds (F : gset Z) (ks : list Z) m g : Prop := {
  holds_inv : buddy_inv m g;
  holds_nodup : NoDup ks;
  holds_from k : k ∈ ks → k ∈ F;
  holds_free k : free_frame g k ↔ k ∈ F ∧ k ∉ ks;
  holds_range k : k ∈ F → 0 ≤ k < n;
  holds_refs k p : k ∈ ks → infos m !! pg k = Some p → pp_ref p = 0;
}.

Lemma holds_alloc F ks m g f : holds F ks m g → (length ks < size F)%nat →
  wp (page_alloc f) (λ r m', ∃ k g', r = pg k ∧ holds F (k :: ks) m' g') m.
Proof.
  intros [Hinv Hnd Hfrom Hfree Hrange Hrefs] Hlt.
  assert (g ≠ ∅) as Hg.
  { intros ->. assert (F ⊆ list_to_set ks) as Hsub.
    { intros k Hk. apply elem_of_list_to_set. destruct (decide (k ∈ ks)) as [|Hn]; [done|].
      destruct (proj2 (Hfree k) (conj Hk Hn)) as (i & o & Hi & _). by rewrite lookup_empty in Hi. }
    apply subseteq_size in Hsub. rewrite size_list_to_set in Hsub by done. lia. }
  eapply wp_mono; [by apply (page_alloc_spec base n L)|].
  intros r m' (k & g' & -> & Hk & Hinv' & Hff & [Hus _] & Hcl & _). exists k, g'. split; [done|].
  apply Hfree in Hk as Hk'. destruct Hk' as [HkF Hkn]. split; try done.
  - by constructor.
  - intros j [->|Hj]%elem_of_cons; auto.
  - intros j. rewrite Hff, Hfree. set_solver.
  - intros j p [->|Hj]%elem_of_cons Hp.
    + apply client_ref in Hcl. rewrite Hp in Hcl.
      destruct (infos m !! pg k) as [q|] eqn:Eq; [|done]. injection Hcl as ->. by eapply (inv_free_refs base n m g).
    + rewrite Hus in Hp; [by eapply Hrefs|auto| |congruence]. rewrite Hfree. tauto.
Qed.

Lemma holds_release F ks1 k ks2 m g : holds F (ks1 ++ k :: ks2) m g →
  wp (page_free (pg k)) (λ _ m', ∃ g', holds F (ks1 ++ ks2) m' g') m.
Proof.
  intros [Hinv Hnd Hfrom Hfree Hrange Hrefs].
  assert (k ∈ ks1 ++ k :: ks2) as Hk by set_solver.
  assert (0 ≤ k < n) as Hr by auto.
  assert (¬ free_frame g k) as Hnf by (rewrite Hfree; tauto).
  destruct (core_rep _ _ _ _ _ (inv_core _ _ _ _ Hinv) k Hr) as (p & Hp & _).
  apply NoDup_app in Hnd as (Hnd1 & Hd & [Hk2 Hnd2]%NoDup_cons).
  eapply wp_mono; [eapply (page_free_spec base n L); [done|done|done|done|by eapply Hrefs]|].
  intros _ m' (g' & Hinv' & Hff & [Hus _] & _). exists g'. split; try done.
  - apply NoDup_app. split_and!; [done|set_solver|done].
  - intros j Hj. apply Hfrom. set_solver.
  - intros j. rewrite Hff, Hfree. specialize (Hfrom k Hk). specialize (Hd k).
    destruct (decide (j = k)); set_solver.
  - intros j q Hj Hq. assert (j ∈ ks1 ++ k :: ks2) as Hj' by set_solver.
    assert (j ≠ k) by set_solver. rewrite Hus in Hq; [by eapply Hrefs|auto| |done]. rewrite Hfree. tauto.
Qed.

Lemma history_run ops ks F m g : holds F ks m g → (length ks + allocs ops ≤ size F)%nat →
  wp (history ops (pg <$> ks)) (λ live m', ∃ ks' g', live = pg <$> ks' ∧ holds F ks' m' g') m.
Proof.
  revert ks m g. induction ops as [|[f|i] ops IH]; intros ks m g Hh Hs; simpl.
  - wp_step. eauto.
  - unfold allocs in Hs. rewrite filter_cons_True in Hs by done. simpl in Hs. wp_step.
    eapply wp_mono; [eapply holds_alloc; [done|lia]|]. intros r m' (k & g' & -> & Hh').
    apply (IH (k :: ks) m' g'); [done|]. simpl. unfold allocs. lia.
  - unfold allocs in Hs. rewrite filter_cons_False in Hs by (by intros []). rewrite list_lookup_fmap.
    destruct (ks !! i) as [k|] eqn:Ek; simpl; [|by eapply IH].
    rewrite <-list_fmap_delete, delete_take_drop.
    rewrite <-(take_drop_middle _ _ _ Ek) in Hh, Hs. rewrite length_app in Hs. simpl length in Hs.
    wp_step. eapply wp_mono; [by eapply holds_release|]. intros _ m' (g' & Hh').
    eapply IH; [done|]. rewrite length_app. unfold allocs. lia.
Qed.
End promises.

(** ** The properties *)

Section properties.
Context `{Layout} (base n : Z).

(** [ALLOC_HUGE] has no effect: the request gets the page it would get without
    the flag, one frame, where the comment promises a page of 2M. *)
Lemma page_alloc_ignores_huge f m : page_alloc (Z.lor f ALLOC_HUGE) m = page_alloc f m.
Proof.
  assert (has (Z.lor f ALLOC_HUGE) ALLOC_ZERO = has f ALLOC_ZERO) as E.
  { unfold has. rewrite Z.land_lor_distr_l. change (Z.land ALLOC_HUGE ALLOC_ZERO) with 0. by rewrite Z.lor_0_r. }
  unfold page_alloc. by rewrite E.
Qed.

(** C1 (functional).  While some frame is free, [page_alloc], asked for a page
    of the normal size, returns the [page_info] of a free frame, takes exactly
    that frame out of the free set, re-establishes the invariant (free lists,
    alignment, coalescing, lock released), leaves every page in use and every
    other frame's contents alone, and zeroes the frame when asked to and not
    yet done.  The comment of the function also promises a page of 2M for
    [ALLOC_HUGE]; the code does not do that, so such requests are not part of
    the contract: the last conjunct shows that they get the same single frame
    as without the flag. *)
Theorem page_alloc_correct m g f : layout_ok base n → buddy_inv base n m g → g ≠ ∅ → has f ALLOC_HUGE = false →
  (∃ k m' g', page_alloc f m = OK (pg base k) m' ∧ free_frame g k ∧ buddy_inv base n m' g' ∧
    (∀ j, free_frame g' j ↔ free_frame g j ∧ j ≠ k) ∧ others_kept base n g k m m' ∧
    (if has f ALLOC_ZERO
     then ∀ p, infos m !! pg base k = Some p → pp_zero p = 0 → phys m' !! k = None
     else phys m' = phys m)) ∧
  page_alloc (Z.lor f ALLOC_HUGE) m = page_alloc f m.
Proof.
  intros L Hinv Hg _. split; [|by apply page_alloc_ignores_huge].
  destruct (wp_elim _ _ _ (page_alloc_spec base n L m g f Hinv Hg))
    as (r & m' & E & k & g' & -> & ? & ? & ? & ? & ? & ?). by exists k, m', g'.
Qed.

(** With no free frame [page_alloc] does not return NULL, as its
    comment says, but panics in [assert(page)]. *)
Theorem page_alloc_panics_when_empty m f : layout_ok base n → buddy_inv base n m ∅ →
  ∃ m', page_alloc f m = Stop Panic m'.
Proof. intros L. by apply (page_alloc_empty base n L). Qed.

(** C2 (functional).  Freeing a page in use whose reference count is zero
    adds exactly that frame to the free set and re-establishes the invariant;
    in particular the free blocks are maximally coalesced again.  Memory
    contents and the [page_info] of all other pages in use stay the same. *)
Theorem page_free_correct m g k p : layout_ok base n → buddy_inv base n m g → 0 ≤ k < n →
  ¬ free_frame g k → infos m !! pg base k = Some p → pp_ref p = 0 →
  ∃ m' g', page_free (pg base k) m = OK tt m' ∧ buddy_inv base n m' g' ∧ coalesced g' ∧
    (∀ j, free_frame g' j ↔ free_frame g j ∨ j = k) ∧ others_kept base n g k m m' ∧ phys m' = phys m.
Proof.
  intros L Hinv Hk Hnf Hp Hp0. destruct (wp_elim _ _ _ (page_free_spec base n L m g k p Hinv Hk Hnf Hp Hp0))
    as ([] & m' & E & g' & Hinv' & ? & ? & ?). exists m', g'. split_and!; try done. apply Hinv'.
Qed.

(** C5 (safety).  Whatever sequence of allocations of single pages and of
    releases a client makes, as long as it never asks for more pages than the
    frames of the initial free set [F]: every call returns, no page is ever
    handed out twice, and the free set is [F] less the pages the client holds.
    Requests with [ALLOC_HUGE], which the code does not serve as its comment
    says, are left out. *)
Theorem allocations_never_overlap m g (F : gset Z) ops : layout_ok base n → buddy_inv base n m g →
  (∀ k, free_frame g k ↔ k ∈ F) → (allocs ops ≤ size F)%nat → Forall single_page ops →
  ∃ live m' g', history ops [] m = OK live m' ∧ NoDup live ∧ buddy_inv base n m' g' ∧
    ∀ k, free_frame g' k ↔ k ∈ F ∧ pg base k ∉ live.
Proof.
  intros L Hinv HF Hs _. assert (holds base n F [] m g) as Hh.
  { split; [done|constructor|set_solver|set_solver| |set_solver]. intros k Hk%HF.
    eapply free_frame_range; [apply Hinv|done]. }
  destruct (wp_elim _ _ _ (history_run base n L ops [] F m g Hh Hs)) as (r & m' & E & ks & g' & -> & [? ? ? Hfree ? ?]).
  exists (pg base <$> ks), m', g'. split_and!; [done|by apply pg_NoDup|done|].
  intros k. by rewrite Hfree, fmap_pg_elem.
Qed.

(** [count_total_free_pages], which walks the free lists,
    returns the number of free frames and changes nothing. *)
Theorem count_total_free_pages_correct m g (F : gset Z) : layout_ok base n → buddy_inv base n m g →
  (∀ k, free_frame g k ↔ k ∈ F) → count_total_free_pages m = OK (Z.of_nat (size F)) m.
Proof. intros L. by apply (count_total_run base n L). Qed.

(** [page_init] terminates and establishes the allocator's
    invariant, and the free frames are exactly the usable ones: the pages of
    the free regions of the memory map that lie in the boot mapping and hold
    neither the kernel, the ELF header nor the boot information. *)
Theorem page_init_establishes_invariant `{KernelEnd} s b : layout_ok base n → boot_ready base n s b →
  let end_ := next_of s - KERNEL_VMA in
  NoDup (usable_frames b end_) → (∀ k, k ∈ usable_frames b end_ → k < n) →
  ∃ s' g, page_init b s = OK tt s' ∧ buddy_inv base n (bmem s') g ∧
    ∀ k, free_frame g k ↔ k ∈ usable_frames b end_.
Proof.
  intros L Hs end_ Hnd Hlt. destruct (wp_elim _ _ _ (page_init_run base n L s b Hs Hnd Hlt))
    as ([] & s' & E & _ & _ & _ & g & ? & _ & ?). by exists s', g.
Qed.
End properties.

(** [boot_alloc] hands out page-aligned, consecutive regions of
    kernel memory: the result is the old allocation pointer, the new one lies
    the request, rounded up to whole pages, behind it.  It returns for every
    request: its out-of-memory test never fires. *)
Theorem boot_alloc_bumps `{KernelEnd} k s :
  0 ≤ k < 2 ^ 32 - PAGE_SIZE → KERNEL_VMA ≤ next_of s < 2 ^ 64 - 2 ^ 32 → next_of s `mod` PAGE_SIZE = 0 →
  ∃ s', boot_alloc k s = OK (next_of s) s' ∧ next_of s' `mod` PAGE_SIZE = 0 ∧
    next_of s + k ≤ next_of s' < next_of s + k + PAGE_SIZE ∧ bmem s' = bmem s.
Proof.
  intros Hk Hn Hal. eexists. split; [by apply boot_alloc_run|].
  destruct (roundup_spec k) as [Hm Hr]; [unfold PAGE_SIZE in *; lia|].
  set (r := ROUNDUP k PAGE_SIZE) in *. clearbody r.
  assert (next_of (Boot (bmem s) (next_of s + r)) = next_of s + r) as ->.
  { unfold next_of at 1; simpl. rewrite (proj2 (Z.eqb_neq _ _)); [done|]. unfold NULL, KERNEL_VMA in *. lia. }
  split; [|split; [lia|done]]. rewrite Z.add_mod, Hal, Hm by done. done.
Qed.

(** [align_boot_info] keeps the types and makes every region
    page aligned; a free region shrinks but keeps all its whole pages, any
    other region grows to cover the pages it touches. *)
Theorem align_boot_info_correct b :
  Forall (λ e, 0 ≤ addr e ∧ 0 ≤ len e ∧ addr e + len e < 2 ^ 64 - PAGE_SIZE) (mmap b) →
  Forall2 aligned_entry (mmap b) (mmap (align_boot_info b)).
Proof.
  intros Hall. simpl. apply Forall2_fmap_r, Forall_Forall2_diag. eapply Forall_impl; [exact Hall|].
  intros e (? & ? & ?). by apply align_entry_spec.
Qed.

(** ** A concrete booted machine

    512 frames, the page array at 2^20, the static objects below it.  Used to
    instantiate the properties. *)

#[local] Instance demo_layout : Layout := {|
  buddy_free_list := 0x1000; zero_list := 0x2000; swap_pages := 0x3000; buddy_c := 0x4000 |}.
#[local] Instance demo_end : KernelEnd := KERNEL_VMA + 0x180000.

Definition demo_base : Z := 0x100000.
Definition demo_n : Z := 512.

Definition page_nodes (i : Z) : list Z :=
  [pg demo_base i; swap_node_of demo_base i; zero_node_of demo_base i].
Definition demo_heads : gset Z := list_to_set ((free_list <$> seqZ 0 10) ++ [swap_pages]).
Definition demo_nodes : gset Z :=
  {[NULL; zero_list; swap_pages]} ∪ demo_heads ∪ list_to_set (seqZ 0 demo_n ≫= page_nodes).

(** Before [page_init]: nothing but the list heads has been written. *)
Definition demo_heap : lheap :=
  map_imap (λ a _, Some (if bool_decide (a ∈ demo_heads) then Node a a else Node 0 0))
    (gset_to_gmap tt demo_nodes).

Definition demo_mem : mem := Mem demo_heap
  (gset_to_gmap (PageInfo 0 0 0 0 0) (list_to_set (pg demo_base <$> seqZ 0 demo_n)))
  demo_base demo_n (SpinLock 0 0 0 0 0) ∅ 0x5000.

Definition demo_boot : boot := Boot demo_mem 0.

(** One free region, frames 8 to 160, of which frame 16 holds the ELF header
    and frame 20 the boot information. *)
Definition demo_info : boot_info :=
  BootInfo (KERNEL_VMA + 20 * 4096) (20 * 4096) [MmapEntry (8 * 4096) (152 * 4096) 1 0] (16 * 4096).

Lemma demo_layout_ok : layout_ok demo_base demo_n.
Proof.
  unfold demo_base, demo_n. split; try done.
  - intros o Ho. unfold outside, free_list, pg, sizeof_page_info, BUDDY_MAX_ORDER, BUDDY_2M_PAGE in *. simpl. lia.
  - unfold outside, pg, sizeof_page_info. simpl. lia.
  - unfold outside, pg, sizeof_page_info. simpl. lia.
  - split; [done|]. intros o Ho. unfold free_list, BUDDY_MAX_ORDER, BUDDY_2M_PAGE in *. simpl. lia.
Qed.

Lemma demo_heap_lookup a : a ∈ demo_nodes →
  demo_heap !! a = Some (if bool_decide (a ∈ demo_heads) then Node a a else Node 0 0).
Proof.
  intros Ha. unfold demo_heap. rewrite map_lookup_imap, lookup_gset_to_gmap, option_guard_True by done. done.
Qed.

Lemma demo_page_nodes j a : 0 ≤ j < demo_n → a ∈ page_nodes j → a ∈ demo_nodes.
Proof.
  intros Hj Ha. apply elem_of_union_r, elem_of_list_to_set, list_elem_of_bind. exists j.
  split; [done|]. apply elem_of_seqZ. lia.
Qed.

Lemma demo_head_nodes o : 0 ≤ o < BUDDY_MAX_ORDER → free_list o ∈ demo_heads.
Proof.
  intros Ho. unfold BUDDY_MAX_ORDER, BUDDY_2M_PAGE in Ho. apply elem_of_list_to_set, elem_of_app. left.
  apply list_elem_of_fmap. exists o. split; [done|]. apply elem_of_seqZ. lia.
Qed.

Lemma demo_heads_nodes a : a ∈ demo_heads → a ∈ demo_nodes.
Proof. intros Ha. unfold demo_nodes. apply elem_of_union_l, elem_of_union_r, Ha. Qed.

Lemma demo_heap_dom a : a ∈ demo_nodes → a ∈ dom demo_heap.
Proof. intros Ha. apply elem_of_dom. rewrite demo_heap_lookup by done. eauto. Qed.

Lemma demo_static : zero_list ∈ demo_nodes ∧ NULL ∈ demo_nodes ∧ zero_list ∉ demo_heads.
Proof.
  split; [apply elem_of_union_l, elem_of_union_l; set_solver|].
  split; [apply elem_of_union_l, elem_of_union_l; set_solver|].
  unfold demo_heads. rewrite elem_of_list_to_set, elem_of_app, list_elem_of_fmap, list_elem_of_singleton.
  intros [(o & E & Ho%elem_of_seqZ)|E]; [unfold free_list in E; simpl in E; lia|done].
Qed.

Lemma page_nodes_elem i : pg demo_base i ∈ page_nodes i ∧ swap_node_of demo_base i ∈ page_nodes i ∧
  zero_node_of demo_base i ∈ page_nodes i.
Proof. unfold page_nodes. set_solver. Qed.

Lemma demo_swap : dlist demo_heap swap_pages [].
Proof.
  assert (swap_pages ∈ demo_heads) as Hin.
  { apply elem_of_list_to_set, elem_of_app. right. by apply list_elem_of_singleton. }
  assert (demo_heap !! swap_pages = Some (Node swap_pages swap_pages)) as Hlk.
  { rewrite (demo_heap_lookup _ (demo_heads_nodes _ Hin)), (bool_decide_eq_true_2 _ Hin). reflexivity. }
  assert (swap_pages ≠ NULL) as Hn by (vm_compute; discriminate).
  clear Hin. revert Hlk Hn. generalize demo_heap, swap_pages. intros h a Hlk Hn.
  split; [apply NoDup_singleton| |].
  - by intros ?%list_elem_of_singleton.
  - simpl. unfold linked. rewrite Hlk. split; [split; reflexivity|exact I].
Qed.

Lemma demo_page_dom j a : 0 ≤ j < demo_n → a ∈ page_nodes j → a ∈ dom demo_heap.
Proof. intros Hj Ha. exact (demo_heap_dom a (demo_page_nodes j a Hj Ha)). Qed.

#[local] Opaque demo_heap demo_nodes demo_heads.

Lemma demo_raw : raw demo_base demo_n demo_mem.
Proof.
  intros j Hj. split; [|split].
  - unfold demo_mem; cbn [infos]. rewrite dom_gset_to_gmap. apply elem_of_list_to_set, list_elem_of_fmap.
    exists j. split; [done|]. apply elem_of_seqZ. lia.
  - exact (demo_page_dom j _ Hj (proj1 (page_nodes_elem j))).
  - exact (demo_page_dom j _ Hj (proj1 (proj2 (page_nodes_elem j)))).
Qed.

Lemma demo_zero : zero_ok demo_base demo_n demo_heap.
Proof.
  destruct demo_static as (Hz & H0 & Hh). split.
  - exists NULL. split; [|split; [right; left; reflexivity|exact (demo_heap_dom _ H0)]].
    unfold nx. rewrite (demo_heap_lookup _ Hz), (bool_decide_eq_false_2 _ Hh). reflexivity.
  - intros i Hi. exact (demo_page_dom i _ Hi (proj2 (proj2 (page_nodes_elem i)))).
Qed.

Lemma demo_head_list o : 0 ≤ o < BUDDY_MAX_ORDER → dlist demo_heap (free_list o) [].
Proof.
  intros Ho. pose proof (demo_head_nodes o Ho) as Hin.
  pose proof (demo_heads_nodes _ Hin) as Hn.
  split; [apply NoDup_singleton| |].
  - unfold free_list, BUDDY_MAX_ORDER, BUDDY_2M_PAGE in *; simpl.
    rewrite elem_of_cons, elem_of_nil. unfold NULL. lia.
  - simpl. unfold linked. rewrite (demo_heap_lookup _ Hn), (bool_decide_eq_true_2 _ Hin).
    split; [split; reflexivity|exact I].
Qed.

Lemma demo_ready : boot_ready demo_base demo_n demo_boot demo_info.
Proof.
  split; [reflexivity|reflexivity|exact demo_raw|exact demo_head_list|exact demo_zero|reflexivity|..].
  - by vm_compute.
  - by vm_compute.
  - repeat constructor; by vm_compute.
  - by vm_compute.
Qed.

(** ** The properties on the concrete machine *)

#[local] Abbreviation demo_end_pa := (next_of demo_boot - KERNEL_VMA).

Lemma demo_usable : usable_frames demo_info demo_end_pa = filter (λ k, k ≠ 16 ∧ k ≠ 20) (seqZ 8 152).
Proof. by vm_compute. Qed.

Lemma demo_usable_ok : NoDup (usable_frames demo_info demo_end_pa) ∧
  ∀ k, k ∈ usable_frames demo_info demo_end_pa → k < demo_n.
Proof.
  rewrite demo_usable. split; [apply NoDup_filter, NoDup_seqZ|].
  intros k [_ Hk%elem_of_seqZ]%list_elem_of_filter. unfold demo_n. lia.
Qed.

Lemma page_init_establishes_invariant_witness :
  ∃ s' g, page_init demo_info demo_boot = OK tt s' ∧ buddy_inv demo_base demo_n (bmem s') g ∧
    free_frame g 8 ∧ ¬ free_frame g 16.
Proof.
  destruct demo_usable_ok as [Hnd Hlt].
  destruct (page_init_establishes_invariant demo_base demo_n demo_boot demo_info demo_layout_ok demo_ready Hnd Hlt)
    as (s' & g & E & Hinv & HF).
  exists s', g. split; [exact E|]. split; [exact Hinv|].
  rewrite !HF, demo_usable, !list_elem_of_filter, !elem_of_seqZ. lia.
Defined.

Lemma demo_pristine : pristine demo_mem.
Proof.
  split; [reflexivity|]. intros a p. unfold demo_mem; cbn [infos]. intros [_ <-]%lookup_gset_to_gmap_Some. reflexivity.
Qed.

(** The machine after [page_init]: frames 8 to 159 but 16 and 20 are free. *)
Lemma demo_booted : ∃ s' g, page_init demo_info demo_boot = OK tt s' ∧
  buddy_inv demo_base demo_n (bmem s') g ∧ unreferenced demo_base demo_n g (bmem s') ∧ pristine (bmem s') ∧
  swap_list demo_base demo_n true (heap (bmem s')) ∧
  ∀ k, free_frame g k ↔ 8 ≤ k < 160 ∧ k ≠ 16 ∧ k ≠ 20.
Proof.
  destruct demo_usable_ok as [Hnd Hlt].
  destruct (wp_elim _ _ _ (page_init_run demo_base demo_n demo_layout_ok demo_boot demo_info demo_ready Hnd Hlt))
    as ([] & s' & E & _ & Hpr & Hsw & g & Hinv & Hun & HF).
  exists s', g. split; [exact E|]. split; [exact Hinv|]. split; [exact Hun|].
  split; [exact (Hpr demo_pristine)|]. split; [exact (Hsw demo_swap)|]. intros k. rewrite HF, demo_usable, list_elem_of_filter, elem_of_seqZ. lia.
Qed.

Lemma page_alloc_correct_witness : ∃ s' g k m' g', page_init demo_info demo_boot = OK tt s' ∧
  page_alloc ALLOC_ZERO (bmem s') = OK (pg demo_base k) m' ∧ free_frame g k ∧ buddy_inv demo_base demo_n m' g'.
Proof.
  destruct demo_booted as (s' & g & E & Hinv & _ & _ & _ & HF).
  assert (g ≠ ∅) as Hg.
  { intros ->. destruct (proj2 (HF 8)) as (i & o & Hi & _); [lia|]. by rewrite lookup_empty in Hi. }
  destruct (page_alloc_correct demo_base demo_n (bmem s') g ALLOC_ZERO demo_layout_ok Hinv Hg eq_refl)
    as [(k & m' & g' & Ea & Hk & Hinv' & _) _].
  exists s', g, k, m', g'. split; [exact E|]. split; [exact Ea|]. split; [exact Hk|exact Hinv'].
Defined.

Lemma page_free_correct_witness : ∃ s' g m' g', page_init demo_info demo_boot = OK tt s' ∧
  ¬ free_frame g 16 ∧ page_free (pg demo_base 16) (bmem s') = OK tt m' ∧
  buddy_inv demo_base demo_n m' g' ∧ free_frame g' 16.
Proof.
  destruct demo_booted as (s' & g & E & Hinv & Hun & _ & _ & HF).
  assert (0 ≤ 16 < demo_n) as Hr by (unfold demo_n; lia).
  assert (¬ free_frame g 16) as Hnf by (rewrite HF; lia).
  destruct (core_rep _ _ _ _ _ (inv_core _ _ _ _ Hinv) 16 Hr) as (p & Hp & _).
  destruct (page_free_correct demo_base demo_n (bmem s') g 16 p demo_layout_ok Hinv Hr Hnf Hp (Hun _ _ Hr Hnf Hp))
    as (m' & g' & Ef & Hinv' & _ & Hff & _).
  exists s', g, m', g'. split; [exact E|]. split; [exact Hnf|]. split; [exact Ef|]. split; [exact Hinv'|].
  apply Hff. right. reflexivity.
Defined.

(** The frames the allocator of the concrete machine starts with. *)
Definition demo_free : gset Z := list_to_set (filter (λ k, k ≠ 16 ∧ k ≠ 20) (seqZ 8 152)).

Lemma demo_free_spec k : k ∈ demo_free ↔ 8 ≤ k < 160 ∧ k ≠ 16 ∧ k ≠ 20.
Proof.
  unfold demo_free. rewrite elem_of_list_to_set, list_elem_of_filter, elem_of_seqZ. lia.
Qed.

Lemma demo_free_size : size demo_free = 150%nat.
Proof.
  unfold demo_free. rewrite size_list_to_set by (apply NoDup_filter, NoDup_seqZ). by vm_compute.
Qed.

Lemma allocations_never_overlap_witness : ∃ s' live m', page_init demo_info demo_boot = OK tt s' ∧
  history [Alloc 0; Alloc ALLOC_ZERO; Release 0; Alloc 0; Release 5] [] (bmem s') = OK live m' ∧ NoDup live.
Proof.
  destruct demo_booted as (s' & g & E & Hinv & _ & _ & _ & HF).
  assert (∀ k, free_frame g k ↔ k ∈ demo_free) as HF' by (intros k; rewrite HF, demo_free_spec; reflexivity).
  destruct (allocations_never_overlap demo_base demo_n (bmem s') g demo_free
    [Alloc 0; Alloc ALLOC_ZERO; Release 0; Alloc 0; Release 5] demo_layout_ok Hinv HF') as (live & m' & g' & Eh & Hnd & _).
  { rewrite demo_free_size. vm_compute. lia. }
  { by repeat constructor. }
  exists s', live, m'. split; [exact E|]. split; [exact Eh|exact Hnd].
Defined.

Lemma count_total_free_pages_correct_witness : ∃ s', page_init demo_info demo_boot = OK tt s' ∧
  count_total_free_pages (bmem s') = OK 150 (bmem s').
Proof.
  destruct demo_booted as (s' & g & E & Hinv & _ & _ & _ & HF). exists s'. split; [exact E|].
  assert (∀ k, free_frame g k ↔ k ∈ demo_free) as HF' by (intros k; rewrite HF, demo_free_spec; reflexivity).
  pose proof (count_total_free_pages_correct demo_base demo_n (bmem s') g demo_free demo_layout_ok Hinv HF') as Hc.
  rewrite demo_free_size in Hc. exact Hc.
Defined.

(** A machine whose memory map has no free region. *)
Definition full_info : boot_info := BootInfo (KERNEL_VMA + 20 * 4096) (20 * 4096) [] 0.

Lemma full_ready : boot_ready demo_base demo_n demo_boot full_info.
Proof. destruct demo_ready. split; try assumption. constructor. Qed.

Lemma page_alloc_panics_when_empty_witness : ∃ s' m', page_init full_info demo_boot = OK tt s' ∧
  page_alloc 0 (bmem s') = Stop Panic m'.
Proof.
  assert (NoDup (usable_frames full_info demo_end_pa)) as Hnd by constructor.
  assert (∀ k, k ∈ usable_frames full_info demo_end_pa → k < demo_n) as Hlt by (intros k []%elem_of_nil).
  destruct (wp_elim _ _ _ (page_init_run demo_base demo_n demo_layout_ok demo_boot full_info full_ready Hnd Hlt))
    as ([] & s' & E & _ & _ & _ & g & Hinv & _ & HF).
  assert (g = ∅) as Eg.
  { apply map_empty. intros i. destruct (g !! i) as [o|] eqn:Ei; [|reflexivity]. exfalso.
    apply (not_elem_of_nil i), HF. eapply free_frame_start; [apply Hinv|exact Ei]. }
  rewrite Eg in Hinv.
  destruct (page_alloc_panics_when_empty demo_base demo_n (bmem s') 0 demo_layout_ok Hinv) as [m' Ea].
  exists s', m'. split; [exact E|exact Ea].
Defined.

Lemma boot_alloc_bumps_witness : ∃ s', boot_alloc 5000 demo_boot = OK (KERNEL_VMA + 0x180000) s' ∧
  next_of s' = KERNEL_VMA + 0x182000.
Proof.
  destruct (boot_alloc_bumps 5000 demo_boot) as (s' & E & Hm & Hr & _);
    [by vm_compute|by vm_compute|by vm_compute|].
  assert (next_of demo_boot = KERNEL_VMA + 0x180000) as En by (by vm_compute).
  rewrite En in E, Hr. exists s'. split; [exact E|]. unfold PAGE_SIZE in *. clear E En.
  assert (KERNEL_VMA `mod` 4096 = 0) by (by vm_compute). mlia.
Defined.

Lemma align_boot_info_correct_witness :
  Forall2 aligned_entry [MmapEntry 0x1001 0x3000 1 0; MmapEntry 0x9fc00 0x400 2 0]
    [MmapEntry 0x2000 0x2000 1 0; MmapEntry 0x9f000 0x1000 2 0].
Proof.
  apply (align_boot_info_correct (BootInfo 0 0 [MmapEntry 0x1001 0x3000 1 0; MmapEntry 0x9fc00 0x400 2 0] 0)).
  repeat constructor; by vm_compute.
Defined.
