(* ===== verification/RbTree.v ===== *)
(** * Red-black trees (lib/rbtree.c, include/rbtree.h)

    Intrusive trees with parent pointers: every VMA embeds a [struct rb_node],
    every task a [struct rb_tree].  The store maps the addresses of both kinds
    of objects to their contents. *)

From S2P Require Import Prelude LinkedList.

Local Open Scope Z_scope.

(** ** Data *)

Inductive rb_color := RB_BLACK | RB_RED.

#[global] Instance rb_color_eq_dec : EqDecision rb_color.
Proof. solve_decision. Defined.

(** [enum rb_dir]: [RB_LEFT] is 0 and [RB_RIGHT] is 1. *)
Abbreviation RB_LEFT := false.
Abbreviation RB_RIGHT := true.

Record rb_node := RbNode { parent : Z; left : Z; right : Z; color : rb_color }.

#[global] Instance rb_node_eq_dec : EqDecision rb_node.
Proof. solve_decision. Defined.

(** [node->child[dir]] *)
Definition child (d : bool) (n : rb_node) : Z := if d then right n else left n.

Definition with_child (d : bool) (v : Z) (n : rb_node) : rb_node :=
  if d then RbNode (parent n) (left n) v (color n) else RbNode (parent n) v (right n) (color n).
Definition with_parent (v : Z) (n : rb_node) : rb_node := RbNode v (left n) (right n) (color n).
Definition with_color (c : rb_color) (n : rb_node) : rb_node := RbNode (parent n) (left n) (right n) c.

(** All [struct rb_node]s and [struct rb_tree]s, by address. *)
Record rbs := Rbs { nodes : gmap Z rb_node; roots : gmap Z Z }.

Definition set_nodes (n : gmap Z rb_node) (s : rbs) : rbs := Rbs n (roots s).
Definition set_roots (r : gmap Z Z) (s : rbs) : rbs := Rbs (nodes s) r.

Definition rb_get (a : Z) : M rbs rb_node := deref (λ s, nodes s !! a).
Definition rb_upd (a : Z) (f : rb_node → rb_node) : M rbs unit :=
  n ← rb_get a; modify (λ s, set_nodes (<[a := f n]> (nodes s)) s).
Definition get_root (t : Z) : M rbs Z := deref (λ s, roots s !! t).
Definition set_root (t v : Z) : M rbs unit :=
  _ ← get_root t; modify (λ s, set_roots (<[t := v]> (roots s)) s).

(** ** Operations *)

Definition rb_init (tree : Z) : M rbs unit := set_root tree NULL.

(** [memset(node, 0, sizeof *node)] *)
Definition rb_node_init (node : Z) : M rbs unit :=
  rb_upd node (λ _, RbNode NULL NULL NULL RB_BLACK).

Definition rotate_node (tree node : Z) (dir : bool) : M rbs unit :=
  n ← rb_get node;
  let p := parent n in
  let c := child (negb dir) n in
  cn ← rb_get c;
  rb_upd node (with_child (negb dir) (child dir cn));;
  (if negb (child dir cn =? NULL) then rb_upd (child dir cn) (with_parent node) else mret tt);;
  rb_upd c (with_child dir node);;
  rb_upd c (with_parent p);;
  (if negb (p =? NULL) then
     pn ← rb_get p; rb_upd p (with_child (child RB_RIGHT pn =? node) c)
   else set_root tree c);;
  rb_upd node (with_parent c).

(** Loops follow child or parent pointers: more steps than there are nodes
    mean a cycle. *)
Fixpoint outermost_from (fuel : nat) (node : Z) (dir : bool) : M rbs Z :=
  match fuel with
  | O => halt NoFuel
  | S fuel =>
      n ← rb_get node;
      if negb (child dir n =? NULL) then outermost_from fuel (child dir n) dir else mret node
  end.

Definition get_outermost (node : Z) (dir : bool) : M rbs Z :=
  if node =? NULL then mret NULL
  else k ← gets (λ s, size (nodes s)); outermost_from (S k) node dir.

Fixpoint climb (fuel : nat) (node : Z) (dir : bool) : M rbs Z :=
  match fuel with
  | O => halt NoFuel
  | S fuel =>
      n ← rb_get node;
      if parent n =? NULL then mret NULL
      else
        p ← rb_get (parent n);
        if child dir p =? node then climb fuel (parent n) dir else mret (parent n)
  end.

Definition get_closest (node : Z) (dir : bool) : M rbs Z :=
  if node =? NULL then mret NULL
  else
    n ← rb_get node;
    if negb (child dir n =? NULL) then get_outermost (child dir n) (negb dir)
    else k ← gets (λ s, size (nodes s)); climb (S k) node dir.

Definition rb_first (tree : Z) : M rbs Z := r ← get_root tree; get_outermost r RB_LEFT.
Definition rb_last (tree : Z) : M rbs Z := r ← get_root tree; get_outermost r RB_RIGHT.
Definition rb_next (node : Z) : M rbs Z := get_closest node RB_RIGHT.
Definition rb_prev (node : Z) : M rbs Z := get_closest node RB_LEFT.

(** The loop of [rb_balance].  Every iteration moves [node] up or restores the
    invariant at the grandparent, after which the loop ends. *)
Fixpoint balance_loop (fuel : nat) (tree node : Z) : M rbs unit :=
  match fuel with
  | O => halt NoFuel
  | S fuel =>
      n ← rb_get node;
      let p := parent n in
      if p =? NULL then mret tt
      else
        pn ← rb_get p;
        if bool_decide (color pn = RB_RED) then
          let g := parent pn in
          gn ← rb_get g;
          let dir := child RB_LEFT gn =? p in
          let uncle := child dir gn in
          red_uncle ← (if uncle =? NULL then mret false
                       else un ← rb_get uncle; mret (bool_decide (color un = RB_RED)));
          if (red_uncle : bool) then
            rb_upd p (with_color RB_BLACK);;
            rb_upd uncle (with_color RB_BLACK);;
            rb_upd g (with_color RB_RED);;
            balance_loop fuel tree g
          else
            '(node, p) ← (if child dir pn =? node then
                            rotate_node tree p (negb dir);;
                            n' ← rb_get p; mret (p, parent n')
                          else mret (node, p));
            rb_upd p (with_color RB_BLACK);;
            rb_upd g (with_color RB_RED);;
            rotate_node tree g dir;;
            balance_loop fuel tree node
        else mret tt
  end.

Definition rb_balance (tree node : Z) : M rbs Z :=
  if (tree =? NULL) || (node =? NULL) then mret (-1)
  else
    rb_upd node (with_color RB_RED);;
    k ← gets (λ s, size (nodes s));
    balance_loop (S k) tree node;;
    r ← get_root tree;
    rb_upd r (with_color RB_BLACK);;
    mret 0.

(** The recursive call is on a node without right child and does not recurse. *)
Fixpoint do_remove_rec (fuel : nat) (tree node : Z) : M rbs Z :=
  match fuel with
  | O => halt NoFuel
  | S fuel =>
      if (tree =? NULL) || (node =? NULL) then mret (-1)
      else
        n ← rb_get node;
        let p := parent n in
        c ← (if negb (left n =? NULL) && negb (right n =? NULL) then
               c ← get_outermost (left n) RB_RIGHT;
               do_remove_rec fuel tree c;;
               n ← rb_get node;
               rb_upd c (with_child RB_LEFT (left n));;
               (if negb (left n =? NULL) then rb_upd (left n) (with_parent c) else mret tt);;
               n ← rb_get node;
               rb_upd c (with_child RB_RIGHT (right n));;
               (if negb (right n =? NULL) then rb_upd (right n) (with_parent c) else mret tt);;
               mret c
             else mret (child (left n =? NULL) n));
        (if negb (p =? NULL) then
           pn ← rb_get p; rb_upd p (with_child (right pn =? node) c)
         else set_root tree c);;
        (if negb (c =? NULL) then rb_upd c (with_parent p) else mret tt);;
        rb_node_init node;;
        mret 0
  end.

Definition do_remove (tree node : Z) : M rbs Z := do_remove_rec 3 tree node.

(** [!p || p->color == RB_BLACK] *)
Definition is_black (p : Z) : M rbs bool :=
  if p =? NULL then mret true else n ← rb_get p; mret (bool_decide (color n = RB_BLACK)).

Fixpoint remove_loop (fuel : nat) (tree node : Z) : M rbs Z :=
  match fuel with
  | O => halt NoFuel
  | S fuel =>
      n ← rb_get node;
      if parent n =? NULL then mret node
      else
        pn ← rb_get (parent n);
        let dir := left pn =? node in
        let sibling := child dir pn in
        if sibling =? NULL then mret node
        else
          sn ← rb_get sibling;
          sibling ←
            (if bool_decide (color sn = RB_RED) then
               rb_upd (parent n) (with_color RB_RED);;
               rb_upd sibling (with_color RB_BLACK);;
               rotate_node tree (parent n) (negb dir);;
               n ← rb_get node; pn ← rb_get (parent n); mret (child dir pn)
             else mret sibling);
          sn ← rb_get sibling;
          b1 ← is_black (child (negb dir) sn);
          b2 ← is_black (child dir sn);
          if (b1 : bool) && (b2 : bool) then
            rb_upd sibling (with_color RB_RED);;
            n ← rb_get node;
            remove_loop fuel tree (parent n)
          else
            sibling ←
              (if b2 then
                 rb_upd sibling (with_color RB_RED);;
                 sn ← rb_get sibling;
                 rb_upd (child (negb dir) sn) (with_color RB_BLACK);;
                 n ← rb_get node;
                 rotate_node tree (parent n) dir;;
                 n ← rb_get node; pn ← rb_get (parent n); mret (child dir pn)
               else mret sibling);
            n ← rb_get node;
            pn ← rb_get (parent n);
            rb_upd sibling (with_color (color pn));;
            rb_upd (parent n) (with_color RB_BLACK);;
            sn ← rb_get sibling;
            rb_upd (child dir sn) (with_color RB_BLACK);;
            n ← rb_get node;
            rotate_node tree (parent n) (negb dir);;
            r ← get_root tree;
            remove_loop fuel tree r
  end.

Definition rb_remove (tree node : Z) : M rbs Z :=
  if (tree =? NULL) || (node =? NULL) then mret (-1)
  else
    n ← rb_get node;
    let child_dir := left n =? NULL in
    let c := child child_dir n in
    let other := child (negb child_dir) n in
    do_remove tree node;;
    if (c =? NULL) && (other =? NULL) then mret 0
    else
      n ← rb_get node;
      if bool_decide (color n = RB_RED) then mret 0
      else
        cn ← rb_get c;
        if bool_decide (color cn = RB_RED) then rb_upd c (with_color RB_BLACK);; mret 0
        else
          k ← gets (λ s, size (nodes s));
          node ← remove_loop (2 * S k) tree c;
          (if negb (node =? NULL) then rb_upd node (with_color RB_BLACK) else mret tt);;
          mret 0.

Definition rb_replace (tree node new_node : Z) : M rbs Z :=
  if (node =? NULL) || (new_node =? NULL) then mret (-1)
  else
    n ← rb_get node;
    (if negb (parent n =? NULL) then
       pn ← rb_get (parent n); rb_upd (parent n) (with_child (right pn =? node) new_node)
     else set_root tree new_node);;
    (if negb (left n =? NULL) then rb_upd (left n) (with_parent new_node) else mret tt);;
    (if negb (right n =? NULL) then rb_upd (right n) (with_parent new_node) else mret tt);;
    n ← rb_get node;
    rb_upd new_node (λ _, n);;
    mret 0.
