(* ===== verification/RbTreeProofs.v ===== *)
(** * Correctness of the red-black tree code

    [rb_tree_at s tree t] says that the store [s] holds at [tree] the binary
    tree [t], parent pointers included.  Rotations are specified at any depth
    with a zipper; [rb_balance] keeps the in-order sequence and restores the
    red-black invariant; [do_remove] deletes one element. *)

From S2P Require Import Prelude LinkedList RbTree.

Local Open Scope Z_scope.

(** ** Trees and zippers *)

Inductive tree := Leaf | Br (c : rb_color) (l : tree) (x : Z) (r : tree).

#[global] Instance tree_eq_dec : EqDecision tree.
Proof. solve_decision. Defined.

Definition root_of (t : tree) : Z := match t with Leaf => NULL | Br _ _ x _ => x end.

Fixpoint elems (t : tree) : list Z :=
  match t with Leaf => [] | Br _ l x r => elems l ++ x :: elems r end.

(** A branch described from child [d]: [a] is its child [d], [b] the other. *)
Definition mk (d : bool) (c : rb_color) (a : tree) (x : Z) (b : tree) : tree :=
  if d then Br c b x a else Br c a x b.

(** One step up: the hole is child [d] of the node [a]; [s] is its sibling. *)
Record step_up := Step { sd : bool; sc : rb_color; sa : Z; ss : tree }.
Abbreviation zip := (list step_up).

Fixpoint plug (z : zip) (t : tree) : tree :=
  match z with [] => t | f :: z => plug z (mk (sd f) (sc f) t (sa f) (ss f)) end.

Definition up (z : zip) : Z := match z with [] => NULL | f :: _ => sa f end.

Fixpoint zelems (z : zip) : list Z :=
  match z with [] => [] | f :: z => sa f :: elems (ss f) ++ zelems z end.

Lemma elems_mk d c a x b : elems (mk d c a x b) ≡ₚ x :: elems a ++ elems b.
Proof. destruct d; simpl; solve_Permutation. Qed.

Lemma elems_plug z t : elems (plug z t) ≡ₚ elems t ++ zelems z.
Proof.
  revert t. induction z as [|f z IH]; intros t; simpl; [by rewrite app_nil_r|].
  rewrite IH, elems_mk. simpl. solve_Permutation.
Qed.

(** In-order sequences of the shapes around a rotation. *)
Ltac elems_eq d := destruct d; simpl; repeat (rewrite <-app_assoc; simpl); reflexivity.

(** The in-order sequence of a tree depends on a subtree through its own. *)
Lemma elems_mk_eq d c c' a x b a' : elems a = elems a' → elems (mk d c a x b) = elems (mk d c' a' x b).
Proof. intros E. destruct d; simpl; by rewrite E. Qed.

Lemma elems_plug_eq z t t' : elems t = elems t' → elems (plug z t) = elems (plug z t').
Proof. revert t t'. induction z as [|f z IH]; intros t t' E; [done|]. by apply IH, elems_mk_eq. Qed.

Lemma root_mk d c a x b : root_of (mk d c a x b) = x.
Proof. by destruct d. Qed.

(** ** Representation *)

Definition node_of (p : Z) (d : bool) (cd co : Z) (c : rb_color) : rb_node :=
  if d then RbNode p co cd c else RbNode p cd co c.

Fixpoint rep (h : gmap Z rb_node) (p : Z) (t : tree) : Prop :=
  match t with
  | Leaf => True
  | Br c l x r => h !! x = Some (RbNode p (root_of l) (root_of r) c) ∧ rep h x l ∧ rep h x r
  end.

Fixpoint rep_zip (h : gmap Z rb_node) (rt : Z) (z : zip) (hole : Z) : Prop :=
  match z with
  | [] => rt = hole
  | f :: z => h !! sa f = Some (node_of (up z) (sd f) hole (root_of (ss f)) (sc f)) ∧
      rep h (sa f) (ss f) ∧ rep_zip h rt z (sa f)
  end.

Lemma rep_mk h p d c a x b :
  rep h p (mk d c a x b) ↔ h !! x = Some (node_of p d (root_of a) (root_of b) c) ∧ rep h x a ∧ rep h x b.
Proof. destruct d; simpl; tauto. Qed.

Lemma rep_plug h rt z t :
  rep h NULL (plug z t) ∧ rt = root_of (plug z t) ↔ rep_zip h rt z (root_of t) ∧ rep h (up z) t.
Proof.
  revert t. induction z as [|f z IH]; intros t; simpl; [tauto|].
  rewrite IH, root_mk, rep_mk. tauto.
Qed.

Record rb_tree_at (s : rbs) (tree_ : Z) (t : tree) : Prop := {
  at_root : roots s !! tree_ = Some (root_of t);
  at_rep : rep (nodes s) NULL t;
  at_nodup : NoDup (elems t);
  at_nonnull : NULL ∉ elems t;
}.

(** Nothing but the nodes of [l] and the root pointer of [tree_] changed. *)
Record rb_frame (l : list Z) (tree_ : Z) (s s' : rbs) : Prop := {
  rbf_nodes a : a ∉ l → nodes s' !! a = nodes s !! a;
  rbf_dom : dom (nodes s') = dom (nodes s);
  rbf_roots b : b ≠ tree_ → roots s' !! b = roots s !! b;
}.

Lemma rb_frame_refl l tr s : rb_frame l tr s s.
Proof. done. Qed.

Lemma rb_frame_trans l l' tr s1 s2 s3 : (∀ a, a ∈ l' → a ∈ l) →
  rb_frame l tr s1 s2 → rb_frame l' tr s2 s3 → rb_frame l tr s1 s3.
Proof.
  intros Hl [N1 D1 R1] [N2 D2 R2]. split.
  - intros a Ha. rewrite N2, N1 by auto. done.
  - congruence.
  - intros b Hb. rewrite R2, R1 by auto. done.
Qed.

Lemma rep_ext h h' p t : (∀ a, a ∈ elems t → h' !! a = h !! a) → rep h p t → rep h' p t.
Proof.
  revert p. induction t as [|c l IHl x r IHr]; intros p He; simpl in *; [done|].
  intros (Hx & Hl & Hr). rewrite He by set_solver. split; [done|].
  split; [apply IHl|apply IHr]; set_solver.
Qed.

(** Moving a subtree under another parent. *)
Lemma rep_reparent h h' p p' t : NoDup (elems t) →
  (∀ a, a ∈ elems t → a ≠ root_of t → h' !! a = h !! a) →
  h' !! root_of t = with_parent p' <$> h !! root_of t → rep h p t → rep h' p' t.
Proof.
  destruct t as [|c l x r]; simpl; [done|]. intros Hnd He Hx (Hh & Hl & Hr).
  rewrite Hx, Hh. split; [done|]. apply NoDup_app in Hnd as (_ & Hd & [Hxr _]%NoDup_cons).
  split; [apply (rep_ext h)|apply (rep_ext h)]; try done; intros a Ha; apply He; set_solver.
Qed.

Lemma rep_dom h p t a : rep h p t → a ∈ elems t → a ∈ dom h.
Proof.
  revert p. induction t as [|c l IHl x r IHr]; intros p; simpl; [set_solver|].
  intros (Hx & Hl & Hr) [Ha|[->|Ha]%elem_of_cons]%elem_of_app; eauto. by eapply elem_of_dom_2.
Qed.

Lemma rep_zip_ext h h' rt z hole : (∀ a, a ∈ zelems z → h' !! a = h !! a) →
  rep_zip h rt z hole → rep_zip h' rt z hole.
Proof.
  revert hole. induction z as [|f z IH]; intros hole He; simpl; [done|]. intros (Ha & Hs & Hz).
  simpl in He. rewrite He by set_solver. split; [done|]. split; [apply (rep_ext h); set_solver|].
  apply IH; set_solver.
Qed.

Lemma rep_zip_cons h rt f z hole : rep_zip h rt (f :: z) hole ↔
  h !! sa f = Some (node_of (up z) (sd f) hole (root_of (ss f)) (sc f)) ∧
  rep h (sa f) (ss f) ∧ rep_zip h rt z (sa f).
Proof. done. Qed.

#[global] Arguments rep : simpl never.
#[global] Arguments rep_zip : simpl never.

(** ** Steps of the code *)

Section steps.
Implicit Types (s : rbs) (a x y : Z).

Lemma wp_rb_get s a n (Q : rb_node → rbs → Prop) : nodes s !! a = Some n → Q n s → wp (rb_get a) Q s.
Proof. intros Ha HQ. by eapply wp_deref. Qed.

Lemma wp_rb_upd s a f (Q : unit → rbs → Prop) : a ∈ dom (nodes s) →
  Q tt (set_nodes (alter f a (nodes s)) s) → wp (rb_upd a f) Q s.
Proof.
  intros [n Hn]%elem_of_dom HQ. unfold rb_upd. wp_step. eapply wp_rb_get; [done|]. wp_step.
  replace (<[a:=f n]> (nodes s)) with (alter f a (nodes s)); [done|].
  apply map_eq; intros b. rewrite lookup_alter, lookup_insert. case_decide; [subst|done]. by rewrite Hn.
Qed.

Lemma wp_set_root s t v w (Q : unit → rbs → Prop) : roots s !! t = Some w →
  Q tt (set_roots (<[t := v]> (roots s)) s) → wp (set_root t v) Q s.
Proof. intros Ht HQ. unfold set_root. wp_step. by eapply wp_deref. Qed.
End steps.

Lemma with_child_node p d a b c v d' : with_child d' v (node_of p d a b c) =
  if bool_decide (d = d') then node_of p d v b c else node_of p d a v c.
Proof. by destruct d, d'. Qed.
Lemma child_node p d a b c d' : child d' (node_of p d a b c) = if bool_decide (d = d') then a else b.
Proof. by destruct d, d'. Qed.
Lemma node_flip p d a b c : node_of p (negb d) a b c = node_of p d b a c.
Proof. by destruct d. Qed.
Lemma mk_flip d c a x b : mk (negb d) c a x b = mk d c b x a.
Proof. by destruct d. Qed.
Lemma parent_node p d a b c : parent (node_of p d a b c) = p.
Proof. by destruct d. Qed.
Lemma color_node p d a b c : color (node_of p d a b c) = c.
Proof. by destruct d. Qed.
Lemma with_parent_node p d a b c v : with_parent v (node_of p d a b c) = node_of v d a b c.
Proof. by destruct d. Qed.
Lemma with_color_node p d a b c v : with_color v (node_of p d a b c) = node_of p d a b v.
Proof. by destruct d. Qed.

(** ** Relinking and rotating *)

(** The idiom that makes [y] the child its parent [p] had [x] for. *)
Definition relink (tree_ p x y : Z) : M rbs unit :=
  if negb (p =? NULL) then pn ← rb_get p; rb_upd p (with_child (child RB_RIGHT pn =? x) y)
  else set_root tree_ y.

Section rotate.
Implicit Types (s : rbs) (z : zip) (x y : Z).

Lemma root_elem t : root_of t = NULL ∨ root_of t ∈ elems t.
Proof. destruct t; simpl; [by left|right; set_solver]. Qed.

Lemma root_notin t x : x ∉ elems t → x ≠ NULL → root_of t ≠ x.
Proof. intros Hx Hz. destruct (root_elem t); congruence. Qed.

Lemma relink_spec s tree_ rt z x y : roots s !! tree_ = Some rt → rep_zip (nodes s) rt z x →
  NoDup (zelems z) → NULL ∉ zelems z → x ∉ zelems z → x ≠ NULL →
  wp (relink tree_ (up z) x y) (λ _ s', ∃ rt', roots s' !! tree_ = Some rt' ∧
    rep_zip (nodes s') rt' z y ∧ rb_frame (zelems z) tree_ s s') s.
Proof.
  intros Hrt Hz Hnd Hnn Hx Hxn. unfold relink. destruct z as [|f z]; cbn [up zelems rep_zip] in *.
  - eapply wp_set_root; [done|]. exists y. simpl. rewrite lookup_insert_eq. split_and!; [done|done|].
    split; [done|done|]. intros b Hb. by apply lookup_insert_ne.
  - destruct Hz as (Ha & Hs & Hz). apply NoDup_cons in Hnd as [Haz Hnd].
    assert (sa f ≠ NULL) as Hfn by set_solver. rewrite (proj2 (Z.eqb_neq _ _) Hfn). cbn [negb].
    wp_step. eapply wp_rb_get; [done|].
    assert ((child RB_RIGHT (node_of (up z) (sd f) x (root_of (ss f)) (sc f)) =? x) = sd f) as ->.
    { rewrite child_node. destruct (sd f); simpl; [apply Z.eqb_refl|apply Z.eqb_neq].
      apply root_notin; set_solver. }
    apply wp_rb_upd; [by eapply elem_of_dom_2|]. exists rt. simpl.
    assert (∀ b, b ≠ sa f → alter (with_child (sd f) y) (sa f) (nodes s) !! b = nodes s !! b) as Hne
      by (intros b Hb; by apply lookup_alter_ne).
    rewrite rep_zip_cons. split; [done|]. split; [split; [|split]|].
    + rewrite lookup_alter_eq, Ha. simpl. by rewrite with_child_node, bool_decide_eq_true_2.
    + apply (rep_ext (nodes s)); [|done]. intros b Hb. apply Hne. set_solver.
    + apply (rep_zip_ext (nodes s)); [|done]. intros b Hb. apply Hne. set_solver.
    + split; simpl; [intros b Hb; apply Hne; set_solver|apply dom_alter_L|done].
Qed.

Lemma wp_if_upd (b : bool) a f s (Q : unit → rbs → Prop) : (b = true → a ∈ dom (nodes s)) →
  Q tt (if b then set_nodes (alter f a (nodes s)) s else s) →
  wp (if b then rb_upd a f else mret tt) Q s.
Proof. intros Hd HQ. destruct b; [apply wp_rb_upd; auto|done]. Qed.

(** Making [x] the parent of a subtree, if there is one. *)
Lemma adopt_spec s p x t : rep (nodes s) p t → NoDup (elems t) → NULL ∉ elems t →
  wp (if negb (root_of t =? NULL) then rb_upd (root_of t) (with_parent x) else mret tt)
    (λ _ s', rep (nodes s') x t ∧ roots s' = roots s ∧ dom (nodes s') = dom (nodes s) ∧
      ∀ a, a ∉ elems t → nodes s' !! a = nodes s !! a) s.
Proof.
  intros Hr Hnd Hnn. destruct t as [|c l a r]; simpl root_of.
  { rewrite Z.eqb_refl. simpl. by wp_step. }
  assert (a ≠ NULL) as Ha by (simpl in Hnn; set_solver). rewrite (proj2 (Z.eqb_neq _ _) Ha). simpl.
  apply wp_rb_upd; [eapply (rep_dom _ _ (Br c l a r)); [done|]; simpl; set_solver|]. simpl nodes.
  split; [|split; [done|split; [by apply dom_alter_L|]]].
  - apply (rep_reparent (nodes s) _ p); [done| | |done].
    + intros b _ Hb. by apply lookup_alter_ne.
    + by rewrite lookup_alter_eq.
  - intros b Hb. apply lookup_alter_ne. simpl in Hb. set_solver.
Qed.

Lemma NoDup_rotate d c l x c' m y r z :
  NoDup (elems (plug z (mk d c l x (mk d c' m y r)))) →
  NoDup (x :: y :: elems l ++ elems m ++ elems r ++ zelems z).
Proof.
  intros Hnd. eapply NoDup_Permutation_proper; [|exact Hnd].
  rewrite elems_plug, elems_mk, elems_mk. simpl. solve_Permutation.
Qed.

Lemma elems_rotate d c l x c' m y r z a : a ∈ elems (plug z (mk d c l x (mk d c' m y r))) ↔
  a ∈ x :: y :: elems l ++ elems m ++ elems r ++ zelems z.
Proof. rewrite elems_plug, elems_mk, elems_mk. simpl. set_solver. Qed.

Lemma elems_rotate_eq d c l x c' m y r :
  elems (mk d c l x (mk d c' m y r)) = elems (mk d c' (mk d c l x m) y r).
Proof. elems_eq d. Qed.

Lemma up_elem z : up z = NULL ∨ up z ∈ zelems z.
Proof. destruct z; simpl; [by left|right; set_solver]. Qed.

(** The nodes involved in a rotation are pairwise distinct. *)
Record apart (x y : Z) (L M R Z_ : list Z) : Prop := {
  ap_xy : x ≠ y;
  ap_null : x ≠ NULL ∧ y ≠ NULL ∧ NULL ∉ L ∧ NULL ∉ M ∧ NULL ∉ R ∧ NULL ∉ Z_;
  ap_x : x ∉ L ∧ x ∉ M ∧ x ∉ R ∧ x ∉ Z_;
  ap_y : y ∉ L ∧ y ∉ M ∧ y ∉ R ∧ y ∉ Z_;
  ap_m a : a ∈ M → a ∉ L ∧ a ∉ R ∧ a ∉ Z_;
  ap_z a : a ∈ Z_ → a ∉ L ∧ a ∉ M ∧ a ∉ R;
  ap_nd : NoDup M ∧ NoDup Z_;
}.

Lemma apart_intro x y L M R Z_ : NoDup (x :: y :: L ++ M ++ R ++ Z_) →
  NULL ∉ x :: y :: L ++ M ++ R ++ Z_ → apart x y L M R Z_.
Proof.
  intros [Hx (Hy & (_ & HL & (HndM & HM & (_ & HR & HndZ)%NoDup_app)%NoDup_app)%NoDup_app)%NoDup_cons]%NoDup_cons Hn.
  split; [set_solver..|done].
Qed.

Lemma rotate_spec s tree_ z d c l x c' m y r :
  rb_tree_at s tree_ (plug z (mk d c l x (mk d c' m y r))) →
  wp (rotate_node tree_ x d) (λ _ s', rb_tree_at s' tree_ (plug z (mk d c' (mk d c l x m) y r)) ∧
    rb_frame (elems (plug z (mk d c l x (mk d c' m y r)))) tree_ s s') s.
Proof.
  intros [Hrt Hrep Hnd Hnn].
  pose proof (proj1 (rep_plug _ _ z _) (conj Hrep eq_refl)) as [Hz Ht].
  rewrite root_mk in Hz. rewrite !rep_mk, root_mk in Ht. destruct Ht as (Hx & Hl & Hy & Hm & Hr).
  assert (apart x y (elems l) (elems m) (elems r) (zelems z)) as Hap.
  { apply apart_intro; [by eapply NoDup_rotate|]. by rewrite <-elems_rotate. }
  pose proof Hap as [Hxy (Hxn & Hyn & HnL & HnM & HnR & HnZ) (HxL & HxM & HxR & HxZ) (HyL & HyM & HyR & HyZ) HM HZ [HndM HndZ]].
  unfold rotate_node. wp_step. eapply wp_rb_get; [done|]. rewrite parent_node, !child_node.
  rewrite bool_decide_eq_false_2 by (by destruct d).
  wp_step. eapply wp_rb_get; [done|]. rewrite child_node, bool_decide_eq_true_2 by done.
  wp_step. apply wp_rb_upd; [by eapply elem_of_dom_2|].
  set (s1 := set_nodes (alter (with_child (negb d) (root_of m)) x (nodes s)) s).
  assert (∀ a, a ≠ x → nodes s1 !! a = nodes s !! a) as E1 by (intros; by apply lookup_alter_ne).
  wp_step. eapply wp_mono; [apply (adopt_spec s1 y x m); [|done|done]|].
  { apply (rep_ext (nodes s)); [|done]. intros a Ha. apply E1. by intros ->. }
  intros _ s2 (Hm2 & Hr2 & Hd2 & E2).
  assert (dom (nodes s2) = dom (nodes s)) as Hd2' by (rewrite Hd2; apply dom_alter_L).
  wp_step. apply wp_rb_upd; [rewrite Hd2'; by eapply elem_of_dom_2|].
  wp_step. apply wp_rb_upd; [simpl; rewrite dom_alter_L, Hd2'; by eapply elem_of_dom_2|]. simpl.
  set (s4 := set_nodes (alter _ y (alter _ y (nodes s2))) _).
  assert (∀ a, a ≠ y → nodes s4 !! a = nodes s2 !! a) as E4
    by (intros; unfold s4; simpl; by rewrite !lookup_alter_ne by done).
  assert (nodes s4 !! y = Some (node_of (up z) d x (root_of r) c')) as Hy4.
  { unfold s4; simpl. rewrite !lookup_alter_eq, E2, E1, Hy by congruence. simpl.
    by rewrite with_child_node, bool_decide_eq_true_2, with_parent_node. }
  assert (∀ a, a ≠ x → a ≠ y → a ∉ elems m → nodes s4 !! a = nodes s !! a) as Eo.
  { intros a ???. by rewrite E4, E2, E1. }
  wp_step. change (if negb _ then _ else _) with (relink tree_ (up z) x y).
  eapply wp_mono; [eapply (relink_spec s4 tree_ (root_of (plug z (mk d c l x (mk d c' m y r)))) z x y)|]; try done.
  { unfold s4; simpl. by rewrite Hr2. }
  { apply (rep_zip_ext (nodes s)); [|done]. intros a Ha. destruct (HZ a Ha) as (? & ? & ?).
    apply Eo; congruence. }
  intros _ s5 (rt' & Hrt5 & Hz5 & [N5 D5 R5]).
  rename N5 into E5.
  assert (nodes s5 !! x = Some (node_of (up z) d (root_of l) (root_of m) c)) as Hx5.
  { rewrite E5, E4, E2 by done. unfold s1; simpl. rewrite lookup_alter_eq, Hx. simpl.
    by rewrite with_child_node, bool_decide_eq_false_2 by (by destruct d). }
  apply wp_rb_upd; [by eapply elem_of_dom_2|].
  set (s6 := set_nodes _ s5).
  assert (∀ a, a ≠ x → nodes s6 !! a = nodes s5 !! a) as E6 by (intros; by apply lookup_alter_ne).
  assert (∀ a, a ∉ zelems z → a ≠ x → a ≠ y → a ∉ elems m → nodes s6 !! a = nodes s !! a) as Eall.
  { intros a ????. by rewrite E6, E5, Eo. }
  pose proof (proj2 (rep_plug (nodes s6) rt' z (mk d c' (mk d c l x m) y r))) as Hp.
  destruct Hp as [Hrep' Hrt'].
  { rewrite !root_mk, !rep_mk, root_mk. split; [|split; [|split; [split; [|split]|]]].
    - apply (rep_zip_ext (nodes s5)); [|done]. intros a Ha. apply E6. by intros ->.
    - by rewrite E6, E5.
    - unfold s6; simpl. rewrite lookup_alter_eq, Hx5. simpl. by rewrite with_parent_node.
    - apply (rep_ext (nodes s)); [|done]. intros a Ha. apply Eall; try congruence; by intros ?%HZ || intros ?%HM; naive_solver.
    - apply (rep_ext (nodes s2)); [|done]. intros a Ha. destruct (HM a Ha) as (? & ? & ?).
      by rewrite E6, E5, E4 by congruence.
    - apply (rep_ext (nodes s)); [|done]. intros a Ha. apply Eall; try congruence; by intros ?%HZ || intros ?%HM; naive_solver. }
  assert (elems (plug z (mk d c l x (mk d c' m y r))) = elems (plug z (mk d c' (mk d c l x m) y r))) as Eel
    by apply elems_plug_eq, elems_rotate_eq.
  split.
  - split; [by rewrite <-Hrt'|done|by rewrite <-Eel|by rewrite <-Eel].
  - split.
    + intros a Ha. rewrite elems_rotate, !elem_of_cons, !elem_of_app in Ha.
      apply Eall; tauto.
    + unfold s6; simpl. rewrite dom_alter_L, D5. unfold s4; simpl. by rewrite !dom_alter_L.
    + intros b Hb. unfold s6; simpl. rewrite R5 by done. unfold s4; simpl. by rewrite Hr2.
Qed.
End rotate.

(** ** The red-black invariant *)

(** [rb_ok t c n]: no red node has a red child, every path has [n] black
    nodes, and the root has colour [c] (a leaf counts as black). *)
Inductive rb_ok : tree → rb_color → nat → Prop :=
| ok_leaf : rb_ok Leaf RB_BLACK 0
| ok_red l x r n : rb_ok l RB_BLACK n → rb_ok r RB_BLACK n → rb_ok (Br RB_RED l x r) RB_RED n
| ok_black l x r cl cr n : rb_ok l cl n → rb_ok r cr n → rb_ok (Br RB_BLACK l x r) RB_BLACK (S n).

(** [zip_ok z c n]: the context [z] accepts a subtree of black height [n]; [c]
    is the colour of the node above the hole.  A red node is never the root. *)
Inductive zip_ok : zip → rb_color → nat → Prop :=
| zok_nil n : zip_ok [] RB_BLACK n
| zok_black f z cs c n : sc f = RB_BLACK → rb_ok (ss f) cs n → zip_ok z c (S n) → zip_ok (f :: z) RB_BLACK n
| zok_red f f' z n : sc f = RB_RED → rb_ok (ss f) RB_BLACK n → zip_ok (f' :: z) RB_BLACK n →
    zip_ok (f :: f' :: z) RB_RED n.

Create HintDb rb.
#[export] Hint Constructors rb_ok zip_ok : rb.

Lemma mk_red d a x b n : rb_ok a RB_BLACK n → rb_ok b RB_BLACK n → rb_ok (mk d RB_RED a x b) RB_RED n.
Proof. destruct d; eauto with rb. Qed.
Lemma mk_black d a x b ca cb n : rb_ok a ca n → rb_ok b cb n → rb_ok (mk d RB_BLACK a x b) RB_BLACK (S n).
Proof. destruct d; eauto with rb. Qed.
#[export] Hint Resolve mk_red mk_black : rb.

Lemma mk_inv d c a x b c' n : rb_ok (mk d c a x b) c' n →
  c' = c ∧ match c with
  | RB_RED => rb_ok a RB_BLACK n ∧ rb_ok b RB_BLACK n
  | RB_BLACK => ∃ m ca cb, n = S m ∧ rb_ok a ca m ∧ rb_ok b cb m
  end.
Proof. destruct d; intros Ht; inversion Ht; subst; simpl; eauto 10. Qed.

Lemma plug_ok z c n t ct : zip_ok z c n → rb_ok t ct n → (c = RB_BLACK ∨ ct = RB_BLACK) →
  ∃ c' k, rb_ok (plug z t) c' k.
Proof.
  intros Hz. revert t ct. induction Hz as [n|f z cs c n Ec Hs Hz IH|f f' z n Ec Hs Hz IH]; intros t ct Ht Hor.
  - eauto.
  - cbn [plug]. rewrite Ec. eapply IH; [by eauto with rb|by right].
  - destruct Hor as [|Hor]; [done|subst ct]. cbn [plug] in *. rewrite Ec. eapply IH; [by eauto with rb|by left].
Qed.

Lemma unplug_ok z t k : rb_ok (plug z t) RB_BLACK k →
  ∃ c ct n, zip_ok z c n ∧ rb_ok t ct n ∧ (c = RB_BLACK ∨ ct = RB_BLACK) ∧ (z = [] → ct = RB_BLACK).
Proof.
  revert t. induction z as [|f z IH]; intros t; cbn [plug].
  { intros Ht. exists RB_BLACK, RB_BLACK, k. auto with rb. }
  intros (c & ct & n & Hz & Ht & Hor & Hnil)%IH. apply mk_inv in Ht as [-> Ht]. destruct (sc f) eqn:Ec.
  - destruct Ht as (m & ca & cb & -> & Ha & Hb). exists RB_BLACK, ca, m.
    split; [by eauto with rb|]. split; [done|]. split; [by left|done].
  - destruct Ht as [Ha Hb]. destruct Hor as [->|]; [|done]. exists RB_RED, RB_BLACK, n.
    split; [|split; [done|split; [by right|done]]]. destruct z as [|f' z]; [by specialize (Hnil eq_refl)|]. eauto with rb.
Qed.

(** ** [rb_balance] *)

Section balance.
Implicit Types (s : rbs) (z : zip) (x p g : Z).

Lemma at_color s tree_ z d c a x b : rb_tree_at s tree_ (plug z (mk d c a x b)) →
  nodes s !! x = Some (node_of (up z) d (root_of a) (root_of b) c) ∧ rep_zip (nodes s) (root_of (plug z (mk d c a x b))) z x.
Proof.
  intros [Hrt Hrep Hnd Hnn]. pose proof (proj1 (rep_plug _ _ z _) (conj Hrep eq_refl)) as [Hz Ht].
  rewrite root_mk in Hz. rewrite rep_mk in Ht. tauto.
Qed.

Lemma recolor_spec s tree_ z d c c' a x b : rb_tree_at s tree_ (plug z (mk d c a x b)) →
  wp (rb_upd x (with_color c')) (λ _ s', rb_tree_at s' tree_ (plug z (mk d c' a x b)) ∧
    rb_frame (elems (plug z (mk d c a x b))) tree_ s s') s.
Proof.
  intros Hat. destruct (at_color _ _ _ _ _ _ _ _ Hat) as [Hx Hz]. destruct Hat as [Hrt Hrep Hnd Hnn].
  pose proof (proj1 (rep_plug _ _ z _) (conj Hrep eq_refl)) as [_ Ht]. rewrite rep_mk in Ht. destruct Ht as (_ & Ha & Hb).
  assert (elems (plug z (mk d c a x b)) = elems (plug z (mk d c' a x b))) as Eel by (by apply elems_plug_eq, elems_mk_eq).
  assert (NoDup (x :: elems a ++ elems b ++ zelems z)) as Hnd'.
  { eapply NoDup_Permutation_proper; [|exact Hnd]. rewrite elems_plug, elems_mk. simpl. solve_Permutation. }
  apply NoDup_cons in Hnd' as [HxN _]. rewrite !elem_of_app in HxN.
  apply wp_rb_upd; [by eapply elem_of_dom_2|].
  assert (∀ y, y ≠ x → alter (with_color c') x (nodes s) !! y = nodes s !! y) as Ey by (intros; by apply lookup_alter_ne).
  assert (x ∈ elems (plug z (mk d c a x b))) as Hxin by (rewrite elems_plug, elems_mk; set_solver).
  destruct (proj2 (rep_plug (alter (with_color c') x (nodes s)) (root_of (plug z (mk d c a x b))) z (mk d c' a x b)))
    as [Hrep' Hrt'].
  { rewrite root_mk, rep_mk. split; [|split; [|split]].
    - apply (rep_zip_ext (nodes s)); [|done]. intros y Hy. apply Ey. intros ->. tauto.
    - rewrite lookup_alter_eq, Hx. simpl. by rewrite with_color_node.
    - apply (rep_ext (nodes s)); [|done]. intros y Hy. apply Ey. intros ->. tauto.
    - apply (rep_ext (nodes s)); [|done]. intros y Hy. apply Ey. intros ->. tauto. }
  split.
  - split; simpl; [by rewrite <-Hrt'|done|by rewrite <-Eel|by rewrite <-Eel].
  - split; simpl; [intros y Hy; apply Ey; by intros ->|apply dom_alter_L|done].
Qed.

(** The loop ends at the root and below a black node. *)
Lemma balance_stop fuel s tree_ z d c a x b : (0 < fuel)%nat → rb_tree_at s tree_ (plug z (mk d c a x b)) →
  (∀ f z', z = f :: z' → sc f = RB_BLACK) → balance_loop fuel tree_ x s = OK tt s.
Proof.
  intros Hf Hat Hb. destruct fuel as [|fuel]; [lia|]. destruct (at_color _ _ _ _ _ _ _ _ Hat) as [Hx Hz].
  assert (wp (balance_loop (S fuel) tree_ x) (λ _ s', s' = s) s) as ([] & s' & -> & ->)%wp_elim; [|done].
  simpl. wp_step. eapply wp_rb_get; [done|]. rewrite parent_node. destruct z as [|f z]; [done|]. cbn [up].
  rewrite rep_zip_cons in Hz. destruct Hz as (Hf' & _).
  assert (sa f ≠ NULL) as Hn.
  { intros E. apply (at_nonnull _ _ _ Hat). rewrite elems_plug. simpl. set_solver. }
  rewrite (proj2 (Z.eqb_neq _ _) Hn). wp_step. eapply wp_rb_get; [done|].
  rewrite color_node, (Hb f z eq_refl), bool_decide_eq_false_2 by done. by wp_step.
Qed.

(** The part of an iteration after the uncle has been found black. *)
Definition turn (fuel : nat) (tree_ x p g : Z) (inner dir : bool) : M rbs unit :=
  '(node, p) ← (if inner then rotate_node tree_ p (negb dir);; n' ← rb_get p; mret (p, parent n')
                else mret (x, p));
  rb_upd p (with_color RB_BLACK);;
  rb_upd g (with_color RB_RED);;
  rotate_node tree_ g dir;;
  balance_loop fuel tree_ node.

Definition is_red (t : tree) : bool := match t with Br RB_RED _ _ _ => true | _ => false end.

(** One iteration below a red parent [p] and a grandparent [g]: [x] is child
    [e] of [p], [p] child [d] of [g]. *)
Lemma balance_step fuel s tree_ z d e c a x b p sp g u cg dx (Q : unit → rbs → Prop) :
  rb_tree_at s tree_ (plug (Step e RB_RED p sp :: Step d cg g u :: z) (mk dx c a x b)) →
  (if is_red u
   then wp (rb_upd p (with_color RB_BLACK);; rb_upd (root_of u) (with_color RB_BLACK);;
            rb_upd g (with_color RB_RED);; balance_loop fuel tree_ g) Q s
   else wp (turn fuel tree_ x p g (bool_decide (e ≠ d)) (negb d)) Q s) →
  wp (balance_loop (S fuel) tree_ x) Q s.
Proof.
  intros Hat HQ. destruct (at_color _ _ _ _ _ _ _ _ Hat) as [Hx Hz]. rewrite !rep_zip_cons in Hz.
  cbn [up sd sc sa ss] in Hx, Hz. destruct Hz as (Hp & _ & Hg & Hu & _).
  pose proof (at_nonnull _ _ _ Hat) as Hnn. pose proof (at_nodup _ _ _ Hat) as Hnd.
  assert (NoDup (x :: p :: g :: elems a ++ elems b ++ elems sp ++ elems u ++ zelems z)) as Hnd'.
  { eapply NoDup_Permutation_proper; [|exact Hnd]. rewrite elems_plug, elems_mk. simpl. solve_Permutation. }
  assert (NULL ∉ x :: p :: g :: elems a ++ elems b ++ elems sp ++ elems u ++ zelems z) as Hnn'.
  { intros Hin. apply Hnn. rewrite elems_plug, elems_mk. simpl. set_solver. }
  assert (p ≠ NULL ∧ g ≠ NULL ∧ root_of u ≠ p ∧ root_of sp ≠ x) as (Hpn & Hgn & Hup & Hsx).
  { apply NoDup_cons in Hnd' as [Hx' [Hp' _]%NoDup_cons].
    split_and!; [set_solver|set_solver|apply root_notin; set_solver|apply root_notin; set_solver]. }
  simpl. wp_step. eapply wp_rb_get; [done|]. rewrite parent_node, (proj2 (Z.eqb_neq _ _) Hpn).
  wp_step. eapply wp_rb_get; [done|]. rewrite color_node, bool_decide_eq_true_2, parent_node by done.
  wp_step. eapply wp_rb_get; [done|].
  assert ((left (node_of (up z) d p (root_of u) cg) =? p) = negb d) as ->.
  { destruct d; simpl; [by apply Z.eqb_neq|apply Z.eqb_refl]. }
  assert (child (negb d) (node_of (up z) d p (root_of u) cg) = root_of u) as -> by (by destruct d).
  wp_step. apply wp_mono with (P := λ r s', r = is_red u ∧ s' = s).
  { destruct u as [|cu ul uu ur]; simpl; [by wp_step|].
    assert (uu ≠ NULL) as Hun by (simpl in Hnn'; set_solver). rewrite (proj2 (Z.eqb_neq _ _) Hun).
    destruct Hu as [Huu _]. wp_step. eapply wp_rb_get; [done|]. wp_step. by destruct cu. }
  intros r s' [-> ->]. destruct (is_red u); [done|].
  assert ((child (negb d) (node_of g e x (root_of sp) RB_RED) =? x) = bool_decide (e ≠ d)) as ->.
  { destruct e, d; simpl; first [apply Z.eqb_refl|by apply Z.eqb_neq]. }
  exact HQ.
Qed.

(** The outer case: recolour and rotate the grandparent. *)
Lemma outer_spec fuel s tree_ z d X p sp g u : (0 < fuel)%nat → X ≠ Leaf →
  rb_tree_at s tree_ (plug z (mk d RB_BLACK (mk d RB_RED X p sp) g u)) →
  wp (rb_upd p (with_color RB_BLACK);; rb_upd g (with_color RB_RED);;
      rotate_node tree_ g (negb d);; balance_loop fuel tree_ (root_of X))
    (λ _ s', rb_tree_at s' tree_ (plug z (mk d RB_BLACK X p (mk d RB_RED sp g u))) ∧
      rb_frame (elems (plug z (mk d RB_BLACK (mk d RB_RED X p sp) g u))) tree_ s s') s.
Proof.
  intros Hf HX Hat. set (l := elems _).
  wp_step. eapply wp_mono; [apply (recolor_spec s tree_ (Step d RB_BLACK g u :: z) d _ _ X p sp Hat)|].
  intros _ s1 [Hat1 Hf1]. cbn [plug sd sc sa ss] in *.
  wp_step. eapply wp_mono; [by apply (recolor_spec s1 tree_ z d RB_BLACK RB_RED)|]. intros _ s2 [Hat2 Hf2].
  rewrite <-(mk_flip d RB_RED u g), <-(mk_flip d RB_BLACK sp p X) in Hat2.
  wp_step. eapply wp_mono; [by apply rotate_spec|]. intros _ s3 [Hat3 Hf3].
  rewrite !mk_flip in Hat3.
  destruct X as [|cx a x b]; [done|].
  eapply wp_OK.
  { apply (balance_stop fuel s3 tree_ (Step d RB_BLACK p (mk d RB_RED sp g u) :: z) false cx a x b); [done|exact Hat3|].
    by intros f z' [= <- _]. }
  split; [done|].
  assert (∀ t, elems t = elems (mk d RB_BLACK (mk d RB_RED (Br cx a x b) p sp) g u) → elems (plug z t) = l) as El
    by (intros t Et; by apply elems_plug_eq).
  rewrite El in Hf1, Hf2 by (destruct d; reflexivity). rewrite El in Hf3 by (elems_eq d).
  by eapply rb_frame_trans; [|eapply rb_frame_trans; [|exact Hf1|exact Hf2]|exact Hf3].
Qed.

(** What an operation on the tree at [tree_] leaves: another tree with the
    same elements. *)
Definition same_elems (tree_ : Z) (s : rbs) (t : tree) (s' : rbs) (t' : tree) : Prop :=
  rb_tree_at s' tree_ t' ∧ elems t' = elems t ∧ rb_frame (elems t) tree_ s s'.

Lemma same_trans tree_ s s1 s2 t t1 t2 :
  same_elems tree_ s t s1 t1 → same_elems tree_ s1 t1 s2 t2 → same_elems tree_ s t s2 t2.
Proof.
  intros (_ & E1 & F1) (H2 & E2 & F2). split; [done|]. split; [congruence|].
  rewrite E1 in F2. by eapply rb_frame_trans.
Qed.

Lemma turn_spec fuel s tree_ z d e l x r p sp g u n : (0 < fuel)%nat →
  rb_ok l RB_BLACK n → rb_ok r RB_BLACK n → rb_ok sp RB_BLACK n → rb_ok u RB_BLACK n →
  rb_tree_at s tree_ (plug (Step e RB_RED p sp :: Step d RB_BLACK g u :: z) (Br RB_RED l x r)) →
  wp (turn fuel tree_ x p g (bool_decide (e ≠ d)) (negb d)) (λ _ s', ∃ T, rb_ok T RB_BLACK (S n) ∧
    same_elems tree_ s (plug (Step e RB_RED p sp :: Step d RB_BLACK g u :: z) (Br RB_RED l x r)) s' (plug z T)) s.
Proof.
  intros Hf Hl Hr Hsp Hu Hat. unfold turn. cbn [plug sd sc sa ss] in *.
  destruct (decide (e = d)) as [->|Hne].
  - rewrite bool_decide_eq_false_2 by (intros []; done). wp_step. wp_step.
    eapply wp_mono; [by apply (outer_spec fuel s tree_ z d (Br RB_RED l x r))|].
    intros _ s1 [Hat1 Hf1]. exists (mk d RB_BLACK (Br RB_RED l x r) p (mk d RB_RED sp g u)).
    split; [by eauto with rb|]. split; [done|]. split; [|done].
    apply elems_plug_eq. elems_eq d.
  - assert (e = negb d) as -> by (by destruct e, d). rewrite bool_decide_eq_true_2, negb_involutive by done.
    set (A := if d then r else l). set (B := if d then l else r).
    assert (Br RB_RED l x r = mk d RB_RED A x B) as EX by (by destruct d).
    assert (rb_ok A RB_BLACK n ∧ rb_ok B RB_BLACK n) as [HA HB] by (by destruct d).
    rewrite EX, mk_flip in *.
    wp_step. wp_step. eapply wp_mono; [apply (rotate_spec s tree_ (Step d RB_BLACK g u :: z) d); exact Hat|].
    cbn [plug sd sc sa ss]. intros _ s1 [Hat1 Hf1].
    destruct (at_color s1 tree_ (Step d RB_RED x B :: Step d RB_BLACK g u :: z) d RB_RED sp p A Hat1) as [Hp _].
    wp_step. eapply wp_rb_get; [done|]. rewrite parent_node. cbn [up sa]. wp_step.
    pose proof (outer_spec fuel s1 tree_ z d (mk d RB_RED sp p A) x B g u Hf ltac:(by destruct d) Hat1) as Ho.
    rewrite root_mk in Ho. eapply wp_mono; [exact Ho|]. intros _ s2 [Hat2 Hf2].
    exists (mk d RB_BLACK (mk d RB_RED sp p A) x (mk d RB_RED B g u)). split; [by eauto with rb|].
    assert (elems (plug z (mk d RB_BLACK (mk d RB_RED (mk d RB_RED sp p A) x B) g u)) =
      elems (plug z (mk d RB_BLACK (mk d RB_RED sp p (mk d RB_RED A x B)) g u))) as E1
      by (apply elems_plug_eq; elems_eq d).
    split; [done|]. split.
    + rewrite <-E1. apply elems_plug_eq. elems_eq d.
    + rewrite E1 in Hf2. by eapply rb_frame_trans.
Qed.

(** Red uncle: push the blackness of the grandparent down. *)
Lemma recolor3_spec s tree_ z d e X p sp g ul u ur :
  rb_tree_at s tree_ (plug (Step e RB_RED p sp :: Step d RB_BLACK g (Br RB_RED ul u ur) :: z) X) →
  wp (rb_upd p (with_color RB_BLACK);; rb_upd u (with_color RB_BLACK);; rb_upd g (with_color RB_RED))
    (λ _ s', same_elems tree_ s (plug (Step e RB_RED p sp :: Step d RB_BLACK g (Br RB_RED ul u ur) :: z) X) s'
      (plug z (mk d RB_RED (mk e RB_BLACK X p sp) g (Br RB_BLACK ul u ur)))) s.
Proof.
  intros Hat. cbn [plug sd sc sa ss] in *. set (l := elems (plug z (mk d RB_BLACK (mk e RB_RED X p sp) g (Br RB_RED ul u ur)))).
  assert (∀ c1 c2 c3, elems (plug z (mk d c3 (mk e c1 X p sp) g (Br c2 ul u ur))) = l) as El.
  { intros c1 c2 c3. apply elems_plug_eq. by destruct d, e. }
  wp_step. eapply wp_mono; [apply (recolor_spec s tree_ (Step d RB_BLACK g (Br RB_RED ul u ur) :: z) e _ _ X p sp Hat)|].
  intros _ s1 [Hat1 Hf1]. cbn [plug sd sc sa ss] in *.
  rewrite <-mk_flip in Hat1.
  wp_step. eapply wp_mono; [apply (recolor_spec s1 tree_ (Step (negb d) RB_BLACK g (mk e RB_BLACK X p sp) :: z) false RB_RED RB_BLACK ul u ur Hat1)|].
  intros _ s2 [Hat2 Hf2]. cbn [plug sd sc sa ss] in *. rewrite mk_flip in *.
  change (mk false RB_BLACK ul u ur) with (Br RB_BLACK ul u ur) in *. change (mk false RB_RED ul u ur) with (Br RB_RED ul u ur) in *.
  eapply wp_mono; [by apply (recolor_spec s2 tree_ z d RB_BLACK RB_RED)|]. intros _ s3 [Hat3 Hf3].
  rewrite El in Hf1, Hf2, Hf3. split; [done|]. split; [apply El|].
  by eapply rb_frame_trans; [|eapply rb_frame_trans; [|exact Hf1|exact Hf2]|exact Hf3].
Qed.

Lemma balance_loop_spec fuel s tree_ z c n l x r : zip_ok z c n → rb_ok l RB_BLACK n → rb_ok r RB_BLACK n →
  rb_tree_at s tree_ (plug z (Br RB_RED l x r)) → (length z + 1 < 2 * fuel)%nat →
  wp (balance_loop fuel tree_ x) (λ _ s', ∃ T c' k, rb_ok T c' k ∧
    same_elems tree_ s (plug z (Br RB_RED l x r)) s' T) s.
Proof.
  revert s z c n l x r. induction fuel as [|fuel IH]; intros s z c n l x r Hz Hl Hr Hat Hlen; [lia|].
  assert (∀ f z', c = RB_BLACK → z = f :: z' → sc f = RB_BLACK) as Htop.
  { intros f z' -> ->. by inversion Hz. }
  destruct c.
  - eapply wp_OK; [by apply (balance_stop (S fuel) s tree_ z false RB_RED l x r); [lia| |eauto]|].
    destruct (plug_ok z RB_BLACK n (Br RB_RED l x r) RB_RED) as (c' & k & Hok); eauto with rb.
    exists (plug z (Br RB_RED l x r)), c', k. split; [done|]. split; [done|]. split; [done|apply rb_frame_refl].
  - inversion Hz as [| |f f' z' n' Ec Hs Hz']; subst. clear Hz Htop. inversion Hz' as [|f'' z'' cs c'' n'' Ec' Hs' Hz''|]; subst.
    destruct f as [e ? p sp], f' as [d ? g u]. cbn [sc ss] in *. subst.
    apply (balance_step fuel s tree_ z' d e RB_RED l x r p sp g u RB_BLACK false); [exact Hat|].
    destruct (is_red u) eqn:Eu.
    + destruct u as [|[] ul uu ur]; try done. inversion Hs' as [|l0 x0 r0 n0 Hul Hur|]; subst.
      pose proof (recolor3_spec _ _ _ _ _ _ _ _ _ _ _ _ Hat) as Hrec.
      apply wp_bind_inv in Hrec. wp_step. eapply wp_mono; [exact Hrec|]. cbv beta. intros _ s1 H1.
      apply wp_bind_inv in H1. wp_step. eapply wp_mono; [exact H1|]. cbv beta. intros _ s2 H2.
      wp_step. eapply wp_mono; [exact H2|]. cbv beta. intros _ s3 H3.
      set (P := mk e RB_BLACK (Br RB_RED l x r) p sp) in *.
      assert (rb_ok P RB_BLACK (S n)) as HP by (unfold P; eauto with rb).
      assert (rb_ok (Br RB_BLACK ul uu ur) RB_BLACK (S n)) as HU by eauto with rb.
      set (L := if d then Br RB_BLACK ul uu ur else P). set (R := if d then P else Br RB_BLACK ul uu ur).
      assert (mk d RB_RED P g (Br RB_BLACK ul uu ur) = Br RB_RED L g R) as Eg by (by destruct d).
      rewrite Eg in H3. simpl in Hlen.
      eapply wp_mono; [apply (IH s3 z' c'' (S n) L g R); [done|by destruct d|by destruct d|by destruct H3|lia]|].
      cbv beta. intros _ s4 (T & c' & k & Hok & Hsame). exists T, c', k. split; [done|]. by eapply same_trans.
    + assert (cs = RB_BLACK) as -> by (destruct u as [|[] ? ? ?]; [by inversion Hs'|by inversion Hs'|done]).
      simpl in Hlen. eapply wp_mono; [eapply (turn_spec fuel s tree_ z' d e l x r p sp g u n); try done; lia|].
      cbv beta. intros _ s1 (T & HT & Hsame). destruct (plug_ok z' c'' (S n) T RB_BLACK) as (c' & k & Hok); eauto.
Qed.
End balance.

(** Inserting a node: [rb_balance] on a node that has just been linked as a
    leaf of a red-black tree. *)
Section insert.
Implicit Types (s : rbs) (z : zip) (x : Z).

Lemma at_size s tree_ t : rb_tree_at s tree_ t → (length (elems t) ≤ size (nodes s))%nat.
Proof.
  intros [_ Hrep Hnd _]. rewrite <-size_dom, <-(size_list_to_set (C := gset Z) (elems t)) by done.
  apply subseteq_size. intros a Ha%elem_of_list_to_set. by eapply rep_dom.
Qed.

Lemma zip_length z : (length z ≤ length (zelems z))%nat.
Proof. induction z as [|f z IH]; simpl; [lia|]. rewrite length_app. lia. Qed.

Lemma rb_balance_spec s tree_ z c x k : rb_tree_at s tree_ (plug z (Br c Leaf x Leaf)) → tree_ ≠ NULL →
  rb_ok (plug z Leaf) RB_BLACK k →
  wp (rb_balance tree_ x) (λ r s', r = 0 ∧ ∃ T k', rb_ok T RB_BLACK k' ∧
    same_elems tree_ s (plug z (Br c Leaf x Leaf)) s' T) s.
Proof.
  intros Hat Htr Hok. destruct (unplug_ok z Leaf k Hok) as (cz & ct & n & Hz & Hleaf & _ & _).
  inversion Hleaf; subst.
  assert (x ∈ elems (plug z (Br c Leaf x Leaf))) as Hxin by (rewrite elems_plug; set_solver).
  assert (x ≠ NULL) as Hxn by (intros ->; by apply (at_nonnull _ _ _ Hat)).
  unfold rb_balance. rewrite (proj2 (Z.eqb_neq _ _) Htr), (proj2 (Z.eqb_neq _ _) Hxn). cbn [orb].
  wp_step. eapply wp_mono; [apply (recolor_spec s tree_ z false c RB_RED Leaf x Leaf Hat)|].
  intros _ s1 [Hat1 Hf1].
  assert (same_elems tree_ s (plug z (Br c Leaf x Leaf)) s1 (plug z (Br RB_RED Leaf x Leaf))) as Hs1.
  { split; [done|]. split; [|done]. by apply elems_plug_eq. }
  wp_step. wp_step.
  wp_step. eapply wp_mono; [eapply (balance_loop_spec _ s1 tree_ z cz 0 Leaf x Leaf); [done|constructor|constructor|done|]|].
  { pose proof (at_size _ _ _ Hat1) as Hsz. rewrite elems_plug, length_app in Hsz. pose proof (zip_length z).
    change (length (elems (mk false RB_RED Leaf x Leaf))) with 1%nat in Hsz. lia. }
  cbv beta. intros _ s2 (T & c' & k' & HT & Hs2). pose proof (same_trans _ _ _ _ _ _ _ Hs1 Hs2) as (Hat2 & E2 & Hf2).
  wp_step. eapply wp_deref; [apply Hat2|].
  destruct T as [|cT l y r]; [rewrite <-E2 in Hxin; set_solver|]. simpl.
  wp_step. eapply wp_mono; [apply (recolor_spec s2 tree_ [] false cT RB_BLACK l y r Hat2)|].
  intros _ s3 [Hat3 Hf3]. wp_step. split; [done|].
  assert (∃ k3, rb_ok (Br RB_BLACK l y r) RB_BLACK k3) as [k3 Hk3].
  { inversion HT; subst; eauto with rb. }
  exists (Br RB_BLACK l y r), k3. split; [done|]. apply (same_trans _ s s2 s3 _ (Br cT l y r));
    [split; [exact Hat2|split; [exact E2|exact Hf2]]|].
  split; [done|]. split; done.
Qed.
End insert.

(** ** Iteration *)

Section iteration.
Implicit Types (s : rbs) (z : zip) (x : Z) (t : tree).

(** The first element ([d] = left) or the last one ([d] = right). *)
Definition end_of (d : bool) (l : list Z) : option Z := if d then last l else head l.

Lemma end_of_mk d c a x b : end_of d (elems (mk d c a x b)) =
  match end_of d (elems a) with Some y => Some y | None => Some x end.
Proof.
  destruct d; simpl.
  - rewrite last_app, last_cons. by destruct (last (elems a)).
  - rewrite head_app. by destruct (head (elems a)).
Qed.

Lemma end_of_none d t : end_of d (elems t) = None → t = Leaf.
Proof.
  destruct t as [|c l x r]; [done|]. destruct d; simpl.
  - rewrite last_app, last_cons. by destruct (last (elems r)).
  - rewrite head_app. by destruct (head (elems l)).
Qed.

Lemma outermost_spec fuel s p t d : rep (nodes s) p t → NULL ∉ elems t → t ≠ Leaf →
  (length (elems t) < fuel)%nat → outermost_from fuel (root_of t) d s = OK (default NULL (end_of d (elems t))) s.
Proof.
  revert p t. induction fuel as [|fuel IH]; intros p t Hr Hn Ht Hf; [lia|].
  destruct t as [|c l x r]; [done|].
  set (a := if d then r else l). set (b := if d then l else r).
  assert (Br c l x r = mk d c a x b) as E by (by destruct d). rewrite E in *. clear E.
  clearbody a b. clear l r.
  rewrite rep_mk in Hr. destruct Hr as (Hx & Ha & Hb). rewrite root_mk, end_of_mk.
  rewrite elems_mk in Hn. pose proof (Permutation_length (elems_mk d c a x b)) as Hlen. simpl in Hlen. rewrite length_app in Hlen.
  simpl. unfold rb_get, deref, mbind, M_bind, mret, M_ret. rewrite Hx, child_node, bool_decide_eq_true_2 by done.
  destruct a as [|ca al ax ar]; [by destruct d|].
  assert (ax ≠ NULL) as Hax by (simpl in Hn; set_solver).
  change (root_of (Br ca al ax ar)) with ax at 1. rewrite (proj2 (Z.eqb_neq _ _) Hax). cbn [negb].
  rewrite (IH x (Br ca al ax ar)); [|done|set_solver|done|simpl in *; lia].
  destruct (end_of d (elems (Br ca al ax ar))) eqn:Ee; [done|]. by apply end_of_none in Ee.
Qed.

Lemma rep_size s p t : rep (nodes s) p t → NoDup (elems t) → (length (elems t) ≤ size (nodes s))%nat.
Proof.
  intros Hrep Hnd. rewrite <-size_dom, <-(size_list_to_set (C := gset Z) (elems t)) by done.
  apply subseteq_size. intros a Ha%elem_of_list_to_set. by eapply rep_dom.
Qed.

Lemma get_outermost_spec s p t d : rep (nodes s) p t → NULL ∉ elems t → NoDup (elems t) →
  get_outermost (root_of t) d s = OK (default NULL (end_of d (elems t))) s.
Proof.
  intros Hr Hn Hnd. unfold get_outermost. destruct t as [|c l x r]; [by destruct d|].
  assert (x ≠ NULL) as Hx by (simpl in Hn; set_solver).
  change (root_of (Br c l x r)) with x at 1. rewrite (proj2 (Z.eqb_neq _ _) Hx).
  unfold gets, mbind, M_bind. apply (outermost_spec _ s p (Br c l x r)); [done..|].
  pose proof (rep_size _ _ _ Hr Hnd). lia.
Qed.

(** The elements after (or, for [d] = left, before) the hole of a zipper,
    nearest first. *)
Fixpoint beyond (d : bool) (z : zip) : list Z :=
  match z with
  | [] => []
  | f :: z => if bool_decide (sd f = d) then beyond d z
              else sa f :: (if d then elems (ss f) else reverse (elems (ss f))) ++ beyond d z
  end.

Lemma beyond_split z t : elems (plug z t) = reverse (beyond RB_LEFT z) ++ elems t ++ beyond RB_RIGHT z.
Proof.
  revert t. induction z as [|[d c a b] z IH]; intros t; simpl; [by rewrite app_nil_r|].
  rewrite IH. destruct d; simpl; rewrite ?reverse_cons, ?reverse_app, ?reverse_involutive, <-?app_assoc; simpl;
    rewrite <-?app_assoc; done.
Qed.

Lemma climb_spec fuel s z rt x d : rep_zip (nodes s) rt z x → NULL ∉ zelems z → NoDup (x :: zelems z) →
  (∃ n, nodes s !! x = Some n ∧ parent n = up z) → x ≠ NULL → (length z < fuel)%nat →
  climb fuel x d s = OK (default NULL (head (beyond d z))) s.
Proof.
  revert x z. induction fuel as [|fuel IH]; intros x z Hz Hn Hnd (n & Hx & Hp) Hxn Hf; [lia|].
  apply wp_run. simpl. wp_step. eapply wp_rb_get; [done|]. rewrite Hp. destruct z as [|f z]; [done|].
  rewrite rep_zip_cons in Hz. destruct Hz as (Ha & Hs & Hz). cbn [up].
  assert (sa f ≠ NULL) as Hfn by (simpl in Hn; set_solver). rewrite (proj2 (Z.eqb_neq _ _) Hfn).
  wp_step. eapply wp_rb_get; [done|]. rewrite child_node.
  apply NoDup_cons in Hnd as [Hxz Hnd]. simpl in Hxz, Hnd. simpl beyond.
  destruct (decide (sd f = d)) as [Ed|Ed].
  - rewrite !bool_decide_eq_true_2, Z.eqb_refl by done.
    eapply wp_OK; [apply (IH (sa f) z)|done]; [done|simpl in Hn; set_solver| | |done|simpl in Hf; lia].
    + apply NoDup_cons in Hnd as [Haz Hnd]. apply NoDup_cons. split; [set_solver|].
      by apply NoDup_app in Hnd as (_ & _ & ?).
    + exists (node_of (up z) (sd f) x (root_of (ss f)) (sc f)). by rewrite parent_node.
  - rewrite !bool_decide_eq_false_2 by done.
    rewrite (proj2 (Z.eqb_neq _ _)); [done|]. apply root_notin; [set_solver|done].
Qed.

(** [rb_next] and [rb_prev]: the neighbour in the in-order sequence. *)
Lemma get_closest_spec s tree_ z c l x r d : rb_tree_at s tree_ (plug z (Br c l x r)) →
  get_closest x d s = OK (default NULL (head ((if d then elems r else reverse (elems l)) ++ beyond d z))) s.
Proof.
  intros Hat. destruct (at_color s tree_ z false c l x r Hat) as [Hx Hz].
  destruct Hat as [Hrt Hrep Hnd Hnn]. pose proof (proj1 (rep_plug _ _ z _) (conj Hrep eq_refl)) as [_ (_ & Hl & Hr)].
  assert (NoDup (x :: elems l ++ elems r ++ zelems z)) as Hnd'.
  { eapply NoDup_Permutation_proper; [|exact Hnd]. rewrite elems_plug. simpl. solve_Permutation. }
  assert (NULL ∉ x :: elems l ++ elems r ++ zelems z) as Hnn'.
  { intros Hin. apply Hnn. rewrite elems_plug. simpl. set_solver. }
  apply NoDup_cons in Hnd' as [HxN (HndL & HdL & (HndR & HdR & HndZ)%NoDup_app)%NoDup_app].
  rewrite elem_of_cons, !elem_of_app in Hnn'. rewrite !elem_of_app in HxN.
  assert (x ≠ NULL) as Hxn by (intros ->; tauto).
  unfold get_closest. rewrite (proj2 (Z.eqb_neq _ _) Hxn).
  apply wp_run. wp_step. eapply wp_rb_get; [done|]. rewrite child_node.
  set (t := if d then r else l).
  assert ((if bool_decide (false = d) then root_of l else root_of r) = root_of t) as -> by (by destruct d).
  assert (rep (nodes s) x t ∧ NULL ∉ elems t ∧ NoDup (elems t)) as (Ht & Htn & Htnd) by (destruct d; tauto).
  assert ((if d then elems r else reverse (elems l)) = if d then elems t else reverse (elems t)) as -> by (by destruct d).
  clearbody t.
  destruct (root_of t =? NULL) eqn:E.
  - assert (t = Leaf) as -> by (destruct t; [done|]; apply Z.eqb_eq in E; simpl in *; set_solver).
    cbn [negb]. wp_step. wp_step.
    replace (if d then elems Leaf else reverse (elems Leaf)) with (@nil Z) by (by destruct d).
    eapply wp_OK; [|done]. eapply climb_spec; [done|tauto|apply NoDup_cons; tauto|by exists (node_of (up z) false (root_of l) (root_of r) c)|done|].
    pose proof (at_size s tree_ _ (Build_rb_tree_at _ _ _ Hrt Hrep Hnd Hnn)) as Hsz.
    rewrite elems_plug, length_app in Hsz. pose proof (zip_length z). lia.
  - cbn [negb]. eapply wp_OK; [by apply (get_outermost_spec s x t)|]. split; [|done].
    f_equal. destruct d; simpl.
    + rewrite head_app. destruct (head (elems t)) eqn:Eh; [done|]. apply (end_of_none false) in Eh. by subst.
    + rewrite head_app, head_reverse. destruct (last (elems t)) eqn:El; [done|].
      apply (end_of_none true) in El. by subst.
Qed.
End iteration.

(** ** [do_remove] *)

Section remove.
Implicit Types (s : rbs) (z : zip) (x y : Z) (t : tree).

Definition zero_node : rb_node := RbNode NULL NULL NULL RB_BLACK.

(** The tail of [do_remove]: link [t] in place of [x] and clear [x]. *)
Definition unlink (tree_ p x c : Z) : M rbs unit :=
  relink tree_ p x c;;
  (if negb (c =? NULL) then rb_upd c (with_parent p) else mret tt);;
  rb_node_init x.

Lemma unlink_spec s tree_ rt z x q t : roots s !! tree_ = Some rt → rep_zip (nodes s) rt z x →
  rep (nodes s) q t → x ∈ dom (nodes s) → NoDup (x :: elems t ++ zelems z) → NULL ∉ x :: elems t ++ zelems z →
  wp (unlink tree_ (up z) x (root_of t)) (λ _ s', rb_tree_at s' tree_ (plug z t) ∧
    nodes s' !! x = Some zero_node ∧ rb_frame (x :: elems t ++ zelems z) tree_ s s') s.
Proof.
  intros Hrt Hz Ht Hx Hnd Hnn. pose proof Hnd as [Hxn (HndT & HdT & HndZ)%NoDup_app]%NoDup_cons.
  rewrite elem_of_app in Hxn. rewrite elem_of_cons, elem_of_app in Hnn.
  assert (∀ a, a ∈ elems t → a ∉ zelems z) as Htz by (intros a Ha; exact (HdT a Ha)).
  unfold unlink. wp_step. eapply wp_mono; [apply (relink_spec s tree_ rt z x (root_of t)); [done|done|done|tauto|tauto|intros ->; tauto]|].
  intros _ s1 (rt1 & Hrt1 & Hz1 & [N1 D1 R1]).
  assert (rep (nodes s1) q t) as Ht1 by (apply (rep_ext (nodes s)); [|done]; intros a Ha; apply N1; auto).
  wp_step. eapply wp_mono; [apply (adopt_spec s1 q (up z) t); [done|done|tauto]|].
  intros _ s2 (Ht2 & R2 & D2 & N2).
  apply wp_rb_upd; [by rewrite D2, D1|]. set (s3 := set_nodes _ s2).
  assert (∀ a, a ≠ x → nodes s3 !! a = nodes s2 !! a) as N3 by (intros; by apply lookup_alter_ne).
  destruct (proj2 (rep_plug (nodes s3) rt1 z t)) as [Hrep3 Hrt3].
  { split.
    - apply (rep_zip_ext (nodes s1)); [|done]. intros a Ha. rewrite N3 by (intros ->; tauto).
      apply N2. intros Ha'. by apply (Htz a).
    - apply (rep_ext (nodes s2)); [|done]. intros a Ha. apply N3. intros ->. tauto. }
  split; [|split].
  - split; [unfold s3; simpl; by rewrite R2, Hrt1, Hrt3|done| |].
    + rewrite elems_plug. by apply NoDup_cons in Hnd as [_ ?].
    + rewrite elems_plug, elem_of_app. tauto.
  - unfold s3; simpl. rewrite lookup_alter_eq, N2 by tauto.
    apply elem_of_dom in Hx as [n Hn]. rewrite N1, Hn by tauto. done.
  - split.
    + intros a Ha. rewrite elem_of_cons, elem_of_app in Ha. rewrite N3, N2, N1; tauto.
    + unfold s3; simpl. rewrite dom_alter_L. congruence.
    + intros b Hb. unfold s3; simpl. by rewrite R2, R1.
Qed.

Lemma at_facts s tree_ z c l x r : rb_tree_at s tree_ (plug z (Br c l x r)) →
  nodes s !! x = Some (RbNode (up z) (root_of l) (root_of r) c) ∧ rep (nodes s) x l ∧ rep (nodes s) x r ∧
  rep_zip (nodes s) (root_of (plug z (Br c l x r))) z x ∧
  NoDup (x :: elems l ++ elems r ++ zelems z) ∧ NULL ∉ x :: elems l ++ elems r ++ zelems z.
Proof.
  intros [Hrt Hrep Hnd Hnn]. pose proof (proj1 (rep_plug _ _ z _) (conj Hrep eq_refl)) as [Hz (Hx & Hl & Hr)].
  assert (elems (plug z (Br c l x r)) ≡ₚ x :: elems l ++ elems r ++ zelems z) as HP.
  { rewrite elems_plug. simpl. solve_Permutation. }
  rewrite HP in Hnd, Hnn. done.
Qed.

(** At most one child: the child takes the place of the node. *)
Lemma remove_one_spec fuel s tree_ z c l x r : tree_ ≠ NULL → l = Leaf ∨ r = Leaf →
  rb_tree_at s tree_ (plug z (Br c l x r)) →
  let t := match l with Leaf => r | _ => l end in
  wp (do_remove_rec (S fuel) tree_ x) (λ _ s', rb_tree_at s' tree_ (plug z t) ∧
    nodes s' !! x = Some zero_node ∧ rb_frame (elems (plug z (Br c l x r))) tree_ s s') s.
Proof.
  intros Htr Hor Hat t. destruct (at_facts _ _ _ _ _ _ _ Hat) as (Hx & Hl & Hr & Hz & Hnd & Hnn).
  assert (x ≠ NULL) as Hxn by set_solver.
  assert (∀ u, u = l ∨ u = r → root_of u = NULL → u = Leaf) as Hleaf.
  { intros [|cu ul uu ur] Hu E; [done|]. simpl in E. subst uu. destruct Hu as [<-|<-]; simpl in Hnn; set_solver. }
  assert (rep (nodes s) x t ∧ root_of t = child (root_of l =? NULL) (RbNode (up z) (root_of l) (root_of r) c) ∧
    x :: elems t ++ zelems z ≡ₚ x :: elems l ++ elems r ++ zelems z ∧
    (negb (root_of l =? NULL) && negb (root_of r =? NULL)) = false) as (Ht & Et & HP & Eb).
  { unfold t. destruct l as [|cl ll y lr]; simpl.
    - split; [done|]. split; [done|]. split; [done|]. done.
    - destruct Hor as [| ->]; [done|]. assert (y ≠ NULL) as Hy by (simpl in Hnn; set_solver).
      rewrite (proj2 (Z.eqb_neq _ _) Hy). done. }
  simpl. rewrite (proj2 (Z.eqb_neq _ _) Htr), (proj2 (Z.eqb_neq _ _) Hxn). cbn [orb].
  wp_step. eapply wp_rb_get; [done|]. cbn [left right parent]. rewrite Eb.
  wp_step. wp_step. rewrite <-Et.
  pose proof (unlink_spec s tree_ _ z x x t (at_root _ _ _ Hat) Hz Ht) as Hu.
  unfold unlink in Hu. rewrite HP in Hu. specialize (Hu ltac:(by eapply elem_of_dom_2) Hnd Hnn).
  change (if negb (up z =? NULL) then _ else _) with (relink tree_ (up z) x (root_of t)).
  apply wp_bind_inv in Hu. wp_step. eapply wp_mono; [exact Hu|]. cbv beta. clear Hu. intros _ s1 Hu.
  apply wp_bind_inv in Hu. wp_step. eapply wp_mono; [exact Hu|]. cbv beta. clear Hu. intros _ s2 Hu.
  wp_step. eapply wp_mono; [exact Hu|]. cbv beta. intros _ s3 (? & ? & [N D R]). wp_step.
  split; [done|]. split; [done|]. split; [|done|done]. intros a Ha. apply N.
  rewrite elems_plug in Ha. simpl in Ha. rewrite HP || idtac. set_solver.
Qed.

Lemma plug_app z1 z2 t : plug (z1 ++ z2) t = plug z2 (plug z1 t).
Proof. revert t. induction z1 as [|f z1 IH]; intros t; [done|]. apply IH. Qed.

(** The rightmost node of a tree. *)
Lemma rightmost l : l ≠ Leaf → ∃ zr cy ly y A, l = plug zr (Br cy ly y Leaf) ∧
  ∀ t, elems (plug zr t) = A ++ elems t.
Proof.
  induction l as [|c l IHl x r IHr]; [done|]. intros _. destruct r as [|cr rl rx rr].
  - by exists [], c, l, x, [].
  - destruct IHr as (zr & cy & ly & y & A & E & HA); [done|].
    exists (zr ++ [Step true c x l]), cy, ly, y, (elems l ++ x :: A). rewrite plug_app, <-E. split; [done|].
    intros t. rewrite plug_app. simpl. by rewrite HA, <-app_assoc.
Qed.

(** Putting the detached node [y] in the place of [x], which has two children. *)
Definition substitute (tree_ x y p : Z) : M rbs unit :=
  n ← rb_get x;
  rb_upd y (with_child RB_LEFT (left n));;
  (if negb (left n =? NULL) then rb_upd (left n) (with_parent y) else mret tt);;
  n ← rb_get x;
  rb_upd y (with_child RB_RIGHT (right n));;
  (if negb (right n =? NULL) then rb_upd (right n) (with_parent y) else mret tt);;
  unlink tree_ p x y.

Lemma substitute_spec s tree_ z c l x r y : rb_tree_at s tree_ (plug z (Br c l x r)) →
  nodes s !! y = Some zero_node → y ∉ elems (plug z (Br c l x r)) → y ≠ NULL →
  wp (substitute tree_ x y (up z)) (λ _ s', rb_tree_at s' tree_ (plug z (Br RB_BLACK l y r)) ∧
    nodes s' !! x = Some zero_node ∧ rb_frame (y :: elems (plug z (Br c l x r))) tree_ s s') s.
Proof.
  intros Hat Hy HyN Hyn. destruct (at_facts _ _ _ _ _ _ _ Hat) as (Hx & Hl & Hr & Hz & Hnd & Hnn).
  assert (elems (plug z (Br c l x r)) ≡ₚ x :: elems l ++ elems r ++ zelems z) as HP.
  { rewrite elems_plug. simpl. solve_Permutation. }
  rewrite HP in HyN.
  assert (apart x y (elems r) (elems l) [] (zelems z)) as [Hxy (_ & _ & HnR & HnL & _ & HnZ) (HxR & HxL & _ & HxZ) (HyR & HyL & _ & HyZ) HL HZ [HndL HndZ]].
  { apply apart_intro.
    - eapply NoDup_Permutation_proper; [|apply NoDup_cons; exact (conj HyN Hnd)]. simpl. solve_Permutation.
    - clear -Hnn Hyn. set_solver. }
  assert (NoDup (elems r)) as HndR by (apply NoDup_cons in Hnd as [_ (_ & _ & (? & _)%NoDup_app)%NoDup_app]; done).
  unfold substitute. wp_step. eapply wp_rb_get; [done|]. cbn [left right].
  wp_step. apply wp_rb_upd; [by eapply elem_of_dom_2|]. set (s1 := set_nodes _ s).
  assert (∀ a, a ≠ y → nodes s1 !! a = nodes s !! a) as N1 by (intros; by apply lookup_alter_ne).
  wp_step. eapply wp_mono; [apply (adopt_spec s1 x y l); [|done|done]|].
  { apply (rep_ext (nodes s)); [|done]. intros a Ha. apply N1. by intros ->. }
  intros _ s2 (Hl2 & R2 & D2 & N2).
  assert (nodes s2 !! x = Some (RbNode (up z) (root_of l) (root_of r) c)) as Hx2 by (by rewrite N2, N1).
  assert (nodes s2 !! y = Some (RbNode NULL (root_of l) NULL RB_BLACK)) as Hy2.
  { rewrite N2 by done. unfold s1; simpl. by rewrite lookup_alter_eq, Hy. }
  wp_step. eapply wp_rb_get; [done|]. cbn [left right].
  wp_step. apply wp_rb_upd; [by eapply elem_of_dom_2|]. set (s3 := set_nodes _ s2).
  assert (∀ a, a ≠ y → nodes s3 !! a = nodes s2 !! a) as N3 by (intros; by apply lookup_alter_ne).
  wp_step. eapply wp_mono; [apply (adopt_spec s3 x y r); [|done|done]|].
  { apply (rep_ext (nodes s)); [|done]. intros a Ha. rewrite N3, N2, N1; [done|..]; try (by intros ->).
    intros Ha'. by destruct (HL a Ha'). }
  intros _ s4 (Hr4 & R4 & D4 & N4).
  assert (nodes s4 !! y = Some (RbNode NULL (root_of l) (root_of r) RB_BLACK)) as Hy4.
  { rewrite N4 by done. unfold s3; simpl. by rewrite lookup_alter_eq, Hy2. }
  assert (rep (nodes s4) NULL (Br RB_BLACK l y r)) as Ht4.
  { split; [done|]. split; [|done]. apply (rep_ext (nodes s2)); [|done].
    intros a Ha. destruct (HL a Ha) as (? & _ & _). rewrite N4, N3; [done| |done]. by intros ->. }
  change y with (root_of (Br RB_BLACK l y r)) at 1.
  assert (∀ a, a ≠ y → a ∉ elems l → a ∉ elems r → nodes s4 !! a = nodes s !! a) as Nall.
  { intros a ???. by rewrite N4, N3, N2, N1. }
  eapply wp_mono; [eapply (unlink_spec s4 tree_ _ z x NULL (Br RB_BLACK l y r)); [| |exact Ht4| | |]|].
  - rewrite R4. unfold s3; simpl. rewrite R2. apply Hat.
  - apply (rep_zip_ext (nodes s)); [|done]. intros a Ha. destruct (HZ a Ha) as (? & ? & _).
    apply Nall; [by intros ->|done|done].
  - rewrite elem_of_dom, Nall by done. by rewrite Hx.
  - eapply NoDup_Permutation_proper; [|apply NoDup_cons; exact (conj HyN Hnd)]. simpl. solve_Permutation.
  - clear -Hnn Hyn. simpl. set_solver.
  - cbv beta. intros _ s5 (Hat5 & Hx5 & [N5 D5 R5]). split; [done|]. split; [done|]. split.
    + intros a Ha. rewrite HP, !elem_of_cons, !elem_of_app in Ha.
      rewrite N5, Nall by (simpl; rewrite ?elem_of_cons, ?elem_of_app, ?elem_of_cons; tauto). done.
    + rewrite D5, D4. unfold s3; simpl. rewrite dom_alter_L, D2. unfold s1; simpl. apply dom_alter_L.
    + intros b Hb. rewrite R5, R4 by done. unfold s3; simpl. by rewrite R2.
Qed.

(** [do_remove] takes the node out of the in-order sequence and clears it. *)
Lemma do_remove_spec s tree_ z c l x r : tree_ ≠ NULL → rb_tree_at s tree_ (plug z (Br c l x r)) →
  wp (do_remove tree_ x) (λ _ s', ∃ T, rb_tree_at s' tree_ T ∧
    elems T = reverse (beyond RB_LEFT z) ++ (elems l ++ elems r) ++ beyond RB_RIGHT z ∧
    nodes s' !! x = Some zero_node ∧ rb_frame (elems (plug z (Br c l x r))) tree_ s s') s.
Proof.
  intros Htr Hat. unfold do_remove.
  destruct (decide (l = Leaf ∨ r = Leaf)) as [Hor|Hboth].
  { eapply wp_mono; [by apply (remove_one_spec 2 s tree_ z c l x r)|]. cbv beta.
    intros _ s1 (Hat1 & Hx1 & Hf1). eexists. split; [exact Hat1|]. split; [|done].
    rewrite beyond_split. destruct l; [done|]. destruct Hor as [|Hr]; [done|subst r]. by rewrite app_nil_r. }
  assert (l ≠ Leaf ∧ r ≠ Leaf) as [Hln Hrn] by (split; intros ->; apply Hboth; auto).
  destruct (at_facts _ _ _ _ _ _ _ Hat) as (Hx & Hl & Hr & Hz & Hnd & Hnn).
  destruct (rightmost l Hln) as (zr & cy & ly & y & A & El & HA).
  assert (∀ u, u = l ∨ u = r → u ≠ Leaf → root_of u ≠ NULL) as Hleaf.
  { intros [|cu ul uu ur] Hu E; [done|]. simpl. intros ->. destruct Hu as [<-|<-]; simpl in Hnn; set_solver. }
  assert (x ≠ NULL) as Hxn by set_solver.
  pose (k := 2%nat). change (do_remove_rec 3) with (do_remove_rec (S k)).
  assert (k = S 1) as Ek by done. clearbody k.
  cbn [do_remove_rec]. rewrite (proj2 (Z.eqb_neq _ _) Htr), (proj2 (Z.eqb_neq _ _) Hxn). cbn [orb].
  wp_step. eapply wp_rb_get; [done|]. cbn [left right parent].
  rewrite (proj2 (Z.eqb_neq _ _) (Hleaf l (or_introl eq_refl) Hln)), (proj2 (Z.eqb_neq _ _) (Hleaf r (or_intror eq_refl) Hrn)). cbn [negb andb].
  wp_step. wp_step. eapply wp_OK.
  { apply (get_outermost_spec s x l RB_RIGHT); [done|set_solver|]. apply NoDup_cons in Hnd as [_ [? _]%NoDup_app]. done. }
  assert (elems l = (A ++ elems ly) ++ [y]) as Eel by (rewrite El, HA; simpl; by rewrite app_assoc).
  simpl end_of. rewrite Eel, last_snoc. simpl default.
  assert (y ∈ elems l) as Hyl by (rewrite Eel; set_solver).
  assert (plug z (Br c l x r) = plug (zr ++ Step false c x r :: z) (Br cy ly y Leaf)) as Epl.
  { rewrite plug_app, <-El. done. }
  rewrite Epl in Hat. wp_step. rewrite Ek.
  eapply wp_mono; [apply (remove_one_spec 1 s tree_ (zr ++ Step false c x r :: z) cy ly y Leaf); [done|by right|exact Hat]|].
  cbv beta. intros _ s1 (Hat1 & Hy1 & Hf1).
  set (l' := plug zr ly).
  assert (rb_tree_at s1 tree_ (plug z (Br c l' x r))) as Hat1'.
  { unfold l'. rewrite plug_app in Hat1. destruct ly; exact Hat1. }
  assert (elems l = elems l' ++ [y]) as Eel' by (unfold l'; by rewrite HA).
  assert (y ≠ NULL ∧ y ∉ elems (plug z (Br c l' x r))) as [Hyn HyN].
  { split; [clear -Hnn Hyl; set_solver|]. rewrite elems_plug. simpl. rewrite Eel' in Hnd. clear -Hnd.
    apply NoDup_cons in Hnd as [Hx (Hnd & Hd & _)%NoDup_app]. apply NoDup_app in Hnd as (_ & Hd' & _). set_solver. }
  pose proof (substitute_spec s1 tree_ z c l' x r y Hat1' Hy1 HyN Hyn) as Hsub. unfold substitute, unlink in Hsub.
  assert ((y =? NULL) = false) as Hyb by (by apply Z.eqb_neq).
  do 6 (apply wp_bind_inv in Hsub; wp_step; eapply wp_mono; [exact Hsub|]; cbv beta; clear Hsub; intros ? ? Hsub).
  wp_step. rewrite Hyb. cbn [negb].
  change (if negb (up z =? NULL) then _ else _) with (relink tree_ (up z) x y).
  apply wp_bind_inv in Hsub. wp_step. eapply wp_mono; [exact Hsub|]. cbv beta. clear Hsub. intros ? ? Hsub.
  rewrite Hyb in Hsub. cbn [negb] in Hsub.
  apply wp_bind_inv in Hsub. wp_step. eapply wp_mono; [exact Hsub|]. cbv beta. clear Hsub. intros ? ? Hsub.
  wp_step. eapply wp_mono; [exact Hsub|]. cbv beta. clear Hsub. intros ? s5 (Hat5 & Hx5 & Hf5).
  wp_step. exists (plug z (Br RB_BLACK l' y r)). split; [done|]. split; [|split; [done|]].
  - rewrite beyond_split, <-Eel, Eel'. simpl. do 2 f_equal. by rewrite <-app_assoc.
  - rewrite <-Epl in Hf1. eapply rb_frame_trans; [|exact Hf1|exact Hf5].
    intros w. rewrite elems_plug, (elems_plug z (Br c l x r)). simpl. rewrite Eel'. clear. set_solver.
Qed.
End remove.

(** ** The properties *)

(** The store that holds the tree [t] at [tree_]. *)
Fixpoint store_nodes (p : Z) (t : tree) : gmap Z rb_node :=
  match t with
  | Leaf => ∅
  | Br c l x r => <[x := RbNode p (root_of l) (root_of r) c]> (store_nodes x l ∪ store_nodes x r)
  end.

Definition store (tree_ : Z) (t : tree) : rbs := Rbs (store_nodes NULL t) {[ tree_ := root_of t ]}.

(** Decide [rb_tree_at] on a concrete store. *)
Ltac concrete_tree :=
  split; [vm_compute; reflexivity
         |cbn; repeat split; vm_compute; reflexivity
         |apply (bool_decide_unpack _); vm_compute; exact I
         |apply (bool_decide_unpack _); vm_compute; exact I].

(** C3 (invariant).  Balancing a red-black tree after a node has been linked
    as a leaf: [rb_balance] terminates with 0, the in-order sequence is
    unchanged, the red-black invariant holds again with a black root, and no
    node outside the tree is touched. *)
Theorem rb_balance_correct s tree_ z c x k :
  rb_tree_at s tree_ (plug z (Br c Leaf x Leaf)) → tree_ ≠ NULL → rb_ok (plug z Leaf) RB_BLACK k →
  ∃ s' T k', rb_balance tree_ x s = OK 0 s' ∧ rb_tree_at s' tree_ T ∧ rb_ok T RB_BLACK k' ∧
    elems T = elems (plug z (Br c Leaf x Leaf)) ∧ rb_frame (elems T) tree_ s s'.
Proof.
  intros Hat Htr Hok. destruct (wp_elim _ _ _ (rb_balance_spec s tree_ z c x k Hat Htr Hok))
    as (r & s' & E & -> & T & k' & HT & Hat' & Eel & Hf).
  exists s', T, k'. split_and!; try done. by rewrite Eel.
Qed.

(** Inserting 25 between 20 and 30 recolours and rotates up to the root. *)
Definition demo_zip : zip :=
  [Step true RB_RED 20 Leaf; Step false RB_BLACK 30 Leaf; Step true RB_BLACK 10 (Br RB_BLACK Leaf 5 Leaf)].

Lemma rb_balance_correct_witness : ∃ s' T k',
  rb_balance 1000 25 (store 1000 (plug demo_zip (Br RB_BLACK Leaf 25 Leaf))) = OK 0 s' ∧
  rb_ok T RB_BLACK k' ∧ elems T = [5; 10; 20; 25; 30].
Proof.
  destruct (rb_balance_correct (store 1000 (plug demo_zip (Br RB_BLACK Leaf 25 Leaf))) 1000 demo_zip RB_BLACK 25 2)
    as (s' & T & k' & E & _ & HT & Eel & _).
  - concrete_tree.
  - discriminate.
  - simpl. repeat econstructor.
  - exists s', T, k'. split; [exact E|]. split; [exact HT|exact Eel].
Defined.

(** [do_remove] takes exactly the given node out of the
    in-order sequence, keeps the parent pointers consistent, clears the node
    and touches nothing outside the tree. *)
Theorem do_remove_correct s tree_ z c l x r : tree_ ≠ NULL → rb_tree_at s tree_ (plug z (Br c l x r)) →
  ∃ v s' T A B, do_remove tree_ x s = OK v s' ∧ rb_tree_at s' tree_ T ∧
    elems (plug z (Br c l x r)) = A ++ x :: B ∧ elems T = A ++ B ∧ nodes s' !! x = Some zero_node ∧
    rb_frame (elems (plug z (Br c l x r))) tree_ s s'.
Proof.
  intros Htr Hat. destruct (wp_elim _ _ _ (do_remove_spec s tree_ z c l x r Htr Hat))
    as (v & s' & E & T & HT & Eel & Hx & Hf).
  exists v, s', T, (reverse (beyond RB_LEFT z) ++ elems l), (elems r ++ beyond RB_RIGHT z).
  split; [exact E|]. split; [exact HT|]. split; [rewrite beyond_split; simpl; by rewrite <-!app_assoc|].
  split; [by rewrite Eel, <-!app_assoc|]. split; [exact Hx|exact Hf].
Qed.

Lemma do_remove_correct_witness : ∃ v s' T A B,
  do_remove 1000 10 (store 1000 (plug demo_zip Leaf)) = OK v s' ∧ rb_tree_at s' 1000 T ∧
  [5; 10; 20; 30] = A ++ 10 :: B ∧ elems T = A ++ B.
Proof.
  destruct (do_remove_correct (store 1000 (plug demo_zip Leaf)) 1000 [] RB_BLACK (Br RB_BLACK Leaf 5 Leaf) 10
    (Br RB_BLACK (Br RB_RED Leaf 20 Leaf) 30 Leaf)) as (v & s' & T & A & B & E & HT & E1 & E2 & _).
  - discriminate.
  - concrete_tree.
  - exists v, s', T, A, B. split; [exact E|]. split; [exact HT|]. split; [exact E1|exact E2].
Defined.

(** [rb_next] and [rb_prev] return the neighbours in the
    in-order sequence, NULL at its ends, and change nothing. *)
Theorem rb_next_prev_correct s tree_ z c l x r : rb_tree_at s tree_ (plug z (Br c l x r)) →
  ∃ A B, elems (plug z (Br c l x r)) = A ++ x :: B ∧
    rb_next x s = OK (default NULL (head B)) s ∧ rb_prev x s = OK (default NULL (last A)) s.
Proof.
  intros Hat. exists (reverse (beyond RB_LEFT z) ++ elems l), (elems r ++ beyond RB_RIGHT z). split_and!.
  - rewrite beyond_split. simpl. by rewrite <-!app_assoc.
  - by apply (get_closest_spec s tree_ z c l x r true).
  - unfold rb_prev. rewrite (get_closest_spec s tree_ z c l x r false Hat). do 2 f_equal.
    rewrite head_app, head_reverse, last_app, last_reverse. done.
Qed.

Lemma rb_next_prev_correct_witness : ∃ A B, [5; 10; 20; 30] = A ++ 20 :: B ∧
  rb_next 20 (store 1000 (plug demo_zip Leaf)) = OK (default NULL (head B)) (store 1000 (plug demo_zip Leaf)).
Proof.
  destruct (rb_next_prev_correct (store 1000 (plug demo_zip Leaf)) 1000 (tail demo_zip) RB_RED Leaf 20 Leaf)
    as (A & B & E & Hn & _); [concrete_tree|].
  exists A, B. split; [exact E|exact Hn].
Defined.

(** A valid red-black tree: 10 is the root, its left child 5 is black with a
    red right child 7, its right child 20 black with a red left child 15. *)
Definition bad_tree : tree :=
  Br RB_BLACK (Br RB_BLACK Leaf 5 (Br RB_RED Leaf 7 Leaf)) 10 (Br RB_BLACK (Br RB_RED Leaf 15 Leaf) 20 Leaf).

(** C17 (error).  [rb_remove] is not safe: on a valid red-black tree, removing
    the root dereferences NULL.  The case "sibling black with red inner child"
    rotates the parent instead of the sibling. *)
Theorem rb_remove_faults : ∃ s, rb_tree_at s 1000 bad_tree ∧ rb_ok bad_tree RB_BLACK 2 ∧
  ∃ s', rb_remove 1000 10 s = Stop Fault s'.
Proof.
  exists (store 1000 bad_tree). split; [concrete_tree|]. split; [repeat econstructor|].
  eexists. vm_compute. reflexivity.
Qed.

(** [rb_remove] does not keep the trees balanced: removing a black
    leaf returns at once, and the result is not a red-black tree. *)
Theorem rb_remove_unbalances : ∃ s s' T T', rb_tree_at s 1000 T ∧ rb_ok T RB_BLACK 2 ∧
  rb_remove 1000 5 s = OK 0 s' ∧ rb_tree_at s' 1000 T' ∧ ∀ c k, ¬ rb_ok T' c k.
Proof.
  exists (store 1000 (Br RB_BLACK (Br RB_BLACK Leaf 5 Leaf) 10 (Br RB_BLACK Leaf 20 Leaf))).
  eexists. exists (Br RB_BLACK (Br RB_BLACK Leaf 5 Leaf) 10 (Br RB_BLACK Leaf 20 Leaf)),
    (Br RB_BLACK Leaf 10 (Br RB_BLACK Leaf 20 Leaf)).
  split; [concrete_tree|]. split; [repeat econstructor|]. split; [vm_compute; reflexivity|].
  split; [concrete_tree|]. intros c k Hok.
  inversion Hok as [| |? ? ? cl cr n Hl Hr]; subst. inversion Hl; subst. inversion Hr.
Qed.
