(* ===== verification/Kernel.v ===== *)
(** * The kernel's global state (include/{vma,task,cpu}.h, kernel/vma/find.c)

    The components above the frame allocator share objects that contain each
    other: a [struct vma] embeds a tree node and two list nodes, a task embeds
    the root of its tree and the heads of its lists.  Embedded nodes live in
    the stores of RbTree.v and LinkedList.v at the address of the object plus
    the offset of the member; the other fields are records in stores of their
    own.  The lookups of kernel/vma/find.c are here because the page table
    code calls them. *)

From S2P Require Import Prelude LinkedList Paging Spinlock Buddy RbTree.

Local Open Scope Z_scope.

(** ** Objects *)

(** [struct vma] without [vm_rb], [vm_mmap] and [rmap_node]. *)
Record vma := Vma {
  vm_name : Z;
  vm_task : Z;
  vm_rmap : Z;
  vm_base : Z;
  vm_end : Z;
  vm_src : Z;
  vm_len : Z;
  vm_flags : Z;
}.

#[global] Instance vma_eq_dec : EqDecision vma.
Proof. solve_decision. Defined.

Definition off_vm_rb : Z := 8.
Definition off_vm_mmap : Z := 40.
Definition off_rmap_node : Z := 72.
Definition sizeof_vma : Z := 128.
Definition sizeof_rmap : Z := 56.

Definition set_vm_name (x : Z) (v : vma) : vma :=
  Vma x (vm_task v) (vm_rmap v) (vm_base v) (vm_end v) (vm_src v) (vm_len v) (vm_flags v).
Definition set_vm_task (x : Z) (v : vma) : vma :=
  Vma (vm_name v) x (vm_rmap v) (vm_base v) (vm_end v) (vm_src v) (vm_len v) (vm_flags v).
Definition set_vm_rmap (x : Z) (v : vma) : vma :=
  Vma (vm_name v) (vm_task v) x (vm_base v) (vm_end v) (vm_src v) (vm_len v) (vm_flags v).
Definition set_vm_base (x : Z) (v : vma) : vma :=
  Vma (vm_name v) (vm_task v) (vm_rmap v) x (vm_end v) (vm_src v) (vm_len v) (vm_flags v).
Definition set_vm_end (x : Z) (v : vma) : vma :=
  Vma (vm_name v) (vm_task v) (vm_rmap v) (vm_base v) x (vm_src v) (vm_len v) (vm_flags v).
Definition set_vm_src (x : Z) (v : vma) : vma :=
  Vma (vm_name v) (vm_task v) (vm_rmap v) (vm_base v) (vm_end v) x (vm_len v) (vm_flags v).
Definition set_vm_len (x : Z) (v : vma) : vma :=
  Vma (vm_name v) (vm_task v) (vm_rmap v) (vm_base v) (vm_end v) (vm_src v) x (vm_flags v).
Definition set_vm_flags (x : Z) (v : vma) : vma :=
  Vma (vm_name v) (vm_task v) (vm_rmap v) (vm_base v) (vm_end v) (vm_src v) (vm_len v) x.

(** [struct int_frame] *)
Record int_frame := IntFrame {
  ds : Z;
  r15 : Z;
  r14 : Z;
  r13 : Z;
  r12 : Z;
  r11 : Z;
  r10 : Z;
  r9 : Z;
  r8 : Z;
  rdi : Z;
  rsi : Z;
  rbp : Z;
  rbx : Z;
  rdx : Z;
  rcx : Z;
  rax : Z;
  int_no : Z;
  err_code : Z;
  rip : Z;
  cs : Z;
  rflags : Z;
  rsp : Z;
  ss : Z;
}.

#[global] Instance int_frame_eq_dec : EqDecision int_frame.
Proof. solve_decision. Defined.

(** All registers zero. *)
Definition frame0 : int_frame :=
  IntFrame 0 0 0 0 0 0 0 0 0 0 0 0 0 0 0 0 0 0 0 0 0 0 0.

Definition set_ds (x : Z) (f : int_frame) : int_frame :=
  IntFrame x (r15 f) (r14 f) (r13 f) (r12 f) (r11 f) (r10 f) (r9 f) (r8 f) (rdi f) (rsi f) (rbp f) (rbx f) (rdx f) (rcx f) (rax f) (int_no f) (err_code f) (rip f) (cs f) (rflags f) (rsp f) (ss f).
Definition set_rax (x : Z) (f : int_frame) : int_frame :=
  IntFrame (ds f) (r15 f) (r14 f) (r13 f) (r12 f) (r11 f) (r10 f) (r9 f) (r8 f) (rdi f) (rsi f) (rbp f) (rbx f) (rdx f) (rcx f) x (int_no f) (err_code f) (rip f) (cs f) (rflags f) (rsp f) (ss f).
Definition set_rip (x : Z) (f : int_frame) : int_frame :=
  IntFrame (ds f) (r15 f) (r14 f) (r13 f) (r12 f) (r11 f) (r10 f) (r9 f) (r8 f) (rdi f) (rsi f) (rbp f) (rbx f) (rdx f) (rcx f) (rax f) (int_no f) (err_code f) x (cs f) (rflags f) (rsp f) (ss f).
Definition set_cs (x : Z) (f : int_frame) : int_frame :=
  IntFrame (ds f) (r15 f) (r14 f) (r13 f) (r12 f) (r11 f) (r10 f) (r9 f) (r8 f) (rdi f) (rsi f) (rbp f) (rbx f) (rdx f) (rcx f) (rax f) (int_no f) (err_code f) (rip f) x (rflags f) (rsp f) (ss f).
Definition set_rflags (x : Z) (f : int_frame) : int_frame :=
  IntFrame (ds f) (r15 f) (r14 f) (r13 f) (r12 f) (r11 f) (r10 f) (r9 f) (r8 f) (rdi f) (rsi f) (rbp f) (rbx f) (rdx f) (rcx f) (rax f) (int_no f) (err_code f) (rip f) (cs f) x (rsp f) (ss f).
Definition set_rsp (x : Z) (f : int_frame) : int_frame :=
  IntFrame (ds f) (r15 f) (r14 f) (r13 f) (r12 f) (r11 f) (r10 f) (r9 f) (r8 f) (rdi f) (rsi f) (rbp f) (rbx f) (rdx f) (rcx f) (rax f) (int_no f) (err_code f) (rip f) (cs f) (rflags f) x (ss f).
Definition set_ss (x : Z) (f : int_frame) : int_frame :=
  IntFrame (ds f) (r15 f) (r14 f) (r13 f) (r12 f) (r11 f) (r10 f) (r9 f) (r8 f) (rdi f) (rsi f) (rbp f) (rbx f) (rdx f) (rcx f) (rax f) (int_no f) (err_code f) (rip f) (cs f) (rflags f) (rsp f) x.

(** [struct task] without the tree root and the list nodes it embeds. *)
Record task := Task {
  task_frame : int_frame;
  task_wait : Z;
  task_pid : Z;
  task_ppid : Z;
  jiffies : Z;
  task_type : Z;
  task_status : Z;
  task_runs : Z;
  task_cpunum : Z;
  task_pml4 : Z;
  task_lock : spinlock;
}.

#[global] Instance task_eq_dec : EqDecision task.
Proof. solve_decision. Defined.

(** A zeroed task. *)
Definition task0 : task := Task frame0 NULL 0 0 0 0 0 0 0 NULL (SpinLock 0 NULL NULL NULL 0).

Definition set_task_frame (x : int_frame) (t : task) : task :=
  Task x (task_wait t) (task_pid t) (task_ppid t) (jiffies t) (task_type t) (task_status t) (task_runs t) (task_cpunum t) (task_pml4 t) (task_lock t).
Definition set_task_wait (x : Z) (t : task) : task :=
  Task (task_frame t) x (task_pid t) (task_ppid t) (jiffies t) (task_type t) (task_status t) (task_runs t) (task_cpunum t) (task_pml4 t) (task_lock t).
Definition set_task_pid (x : Z) (t : task) : task :=
  Task (task_frame t) (task_wait t) x (task_ppid t) (jiffies t) (task_type t) (task_status t) (task_runs t) (task_cpunum t) (task_pml4 t) (task_lock t).
Definition set_task_ppid (x : Z) (t : task) : task :=
  Task (task_frame t) (task_wait t) (task_pid t) x (jiffies t) (task_type t) (task_status t) (task_runs t) (task_cpunum t) (task_pml4 t) (task_lock t).
Definition set_jiffies (x : Z) (t : task) : task :=
  Task (task_frame t) (task_wait t) (task_pid t) (task_ppid t) x (task_type t) (task_status t) (task_runs t) (task_cpunum t) (task_pml4 t) (task_lock t).
Definition set_task_type (x : Z) (t : task) : task :=
  Task (task_frame t) (task_wait t) (task_pid t) (task_ppid t) (jiffies t) x (task_status t) (task_runs t) (task_cpunum t) (task_pml4 t) (task_lock t).
Definition set_task_status (x : Z) (t : task) : task :=
  Task (task_frame t) (task_wait t) (task_pid t) (task_ppid t) (jiffies t) (task_type t) x (task_runs t) (task_cpunum t) (task_pml4 t) (task_lock t).
Definition set_task_runs (x : Z) (t : task) : task :=
  Task (task_frame t) (task_wait t) (task_pid t) (task_ppid t) (jiffies t) (task_type t) (task_status t) x (task_cpunum t) (task_pml4 t) (task_lock t).
Definition set_task_pml4 (x : Z) (t : task) : task :=
  Task (task_frame t) (task_wait t) (task_pid t) (task_ppid t) (jiffies t) (task_type t) (task_status t) (task_runs t) (task_cpunum t) x (task_lock t).
Definition set_task_lock (x : spinlock) (t : task) : task :=
  Task (task_frame t) (task_wait t) (task_pid t) (task_ppid t) (jiffies t) (task_type t) (task_status t) (task_runs t) (task_cpunum t) (task_pml4 t) x.

Definition off_task_rb : Z := 232.
Definition off_task_mmap : Z := 240.
Definition off_task_children : Z := 256.
Definition off_task_child : Z := 272.
Definition off_task_zombies : Z := 288.
Definition off_task_node : Z := 304.
Definition sizeof_task : Z := 360.

(** [struct cpuinfo], with the address of its [kmem._slabs] array, without its
    task state segment and the heads of its queues. *)
Record cpuinfo := Cpu {
  cpu_task : Z;
  kmem_slabs : Z;
  kmem_nslabs : Z;
  cpu_id : Z;
  runq_len : Z;
}.

#[global] Instance cpuinfo_eq_dec : EqDecision cpuinfo.
Proof. solve_decision. Defined.

Definition set_cpu_task (x : Z) (c : cpuinfo) : cpuinfo :=
  Cpu x (kmem_slabs c) (kmem_nslabs c) (cpu_id c) (runq_len c).
Definition set_kmem_nslabs (x : Z) (c : cpuinfo) : cpuinfo :=
  Cpu (cpu_task c) (kmem_slabs c) x (cpu_id c) (runq_len c).
Definition set_runq_len (x : Z) (c : cpuinfo) : cpuinfo :=
  Cpu (cpu_task c) (kmem_slabs c) (kmem_nslabs c) (cpu_id c) x.

Definition off_runq : Z := 1920.
Definition off_nextq : Z := 1936.

(** [struct slab] without its two list heads, [struct slab_info] without its
    list nodes. *)
Record slab := Slab { info_off : Z; obj_size : Z; count : Z }.
Record slab_info := SlabInfo { si_slab : Z; free_count : Z }.

Record kernel := Kernel {
  km : mem;  (** the allocator's memory state, the list store and physical memory *)
  krb : rbs;  (** the red-black tree nodes embedded in other objects *)
  kvmas : gmap Z vma;  (** [struct vma] *)
  ktasks : gmap Z task;  (** [struct task] *)
  krmaps : gmap Z spinlock;  (** the lock of each [struct rmap] *)
  kcpus : gmap Z cpuinfo;  (** [struct cpuinfo] *)
  kslabs : gmap Z slab;  (** [struct slab] *)
  kslab_infos : gmap Z slab_info;  (** [struct slab_info] footers *)
  kslab_objs : gmap Z Z;  (** [info] of each [struct slab_obj] header *)
  swap_lock : spinlock;  (** [swap.lock] *)
  cr3 : Z;  (** the page table base register of this CPU *)
  tlb : gmap Z Z;  (** translations this CPU may have cached, by page number *)
  kernel_pml4 : Z;  (** [kernel_pml4] of kernel/mem/init.c *)
  mmio_base : Z;  (** [base] of [mmio_map_region] *)
}.

Definition set_km (v : mem) (k : kernel) : kernel :=
  Kernel v (krb k) (kvmas k) (ktasks k) (krmaps k) (kcpus k) (kslabs k) (kslab_infos k) (kslab_objs k) (swap_lock k) (cr3 k) (tlb k) (kernel_pml4 k) (mmio_base k).
Definition set_krb (v : rbs) (k : kernel) : kernel :=
  Kernel (km k) v (kvmas k) (ktasks k) (krmaps k) (kcpus k) (kslabs k) (kslab_infos k) (kslab_objs k) (swap_lock k) (cr3 k) (tlb k) (kernel_pml4 k) (mmio_base k).
Definition set_kvmas (v : gmap Z vma) (k : kernel) : kernel :=
  Kernel (km k) (krb k) v (ktasks k) (krmaps k) (kcpus k) (kslabs k) (kslab_infos k) (kslab_objs k) (swap_lock k) (cr3 k) (tlb k) (kernel_pml4 k) (mmio_base k).
Definition set_ktasks (v : gmap Z task) (k : kernel) : kernel :=
  Kernel (km k) (krb k) (kvmas k) v (krmaps k) (kcpus k) (kslabs k) (kslab_infos k) (kslab_objs k) (swap_lock k) (cr3 k) (tlb k) (kernel_pml4 k) (mmio_base k).
Definition set_krmaps (v : gmap Z spinlock) (k : kernel) : kernel :=
  Kernel (km k) (krb k) (kvmas k) (ktasks k) v (kcpus k) (kslabs k) (kslab_infos k) (kslab_objs k) (swap_lock k) (cr3 k) (tlb k) (kernel_pml4 k) (mmio_base k).
Definition set_kcpus (v : gmap Z cpuinfo) (k : kernel) : kernel :=
  Kernel (km k) (krb k) (kvmas k) (ktasks k) (krmaps k) v (kslabs k) (kslab_infos k) (kslab_objs k) (swap_lock k) (cr3 k) (tlb k) (kernel_pml4 k) (mmio_base k).
Definition set_kslabs (v : gmap Z slab) (k : kernel) : kernel :=
  Kernel (km k) (krb k) (kvmas k) (ktasks k) (krmaps k) (kcpus k) v (kslab_infos k) (kslab_objs k) (swap_lock k) (cr3 k) (tlb k) (kernel_pml4 k) (mmio_base k).
Definition set_kslab_infos (v : gmap Z slab_info) (k : kernel) : kernel :=
  Kernel (km k) (krb k) (kvmas k) (ktasks k) (krmaps k) (kcpus k) (kslabs k) v (kslab_objs k) (swap_lock k) (cr3 k) (tlb k) (kernel_pml4 k) (mmio_base k).
Definition set_kslab_objs (v : gmap Z Z) (k : kernel) : kernel :=
  Kernel (km k) (krb k) (kvmas k) (ktasks k) (krmaps k) (kcpus k) (kslabs k) (kslab_infos k) v (swap_lock k) (cr3 k) (tlb k) (kernel_pml4 k) (mmio_base k).
Definition set_swap_lock (v : spinlock) (k : kernel) : kernel :=
  Kernel (km k) (krb k) (kvmas k) (ktasks k) (krmaps k) (kcpus k) (kslabs k) (kslab_infos k) (kslab_objs k) v (cr3 k) (tlb k) (kernel_pml4 k) (mmio_base k).
Definition set_cr3 (v : Z) (k : kernel) : kernel :=
  Kernel (km k) (krb k) (kvmas k) (ktasks k) (krmaps k) (kcpus k) (kslabs k) (kslab_infos k) (kslab_objs k) (swap_lock k) v (tlb k) (kernel_pml4 k) (mmio_base k).
Definition set_tlb (v : gmap Z Z) (k : kernel) : kernel :=
  Kernel (km k) (krb k) (kvmas k) (ktasks k) (krmaps k) (kcpus k) (kslabs k) (kslab_infos k) (kslab_objs k) (swap_lock k) (cr3 k) v (kernel_pml4 k) (mmio_base k).
Definition set_kernel_pml4 (v : Z) (k : kernel) : kernel :=
  Kernel (km k) (krb k) (kvmas k) (ktasks k) (krmaps k) (kcpus k) (kslabs k) (kslab_infos k) (kslab_objs k) (swap_lock k) (cr3 k) (tlb k) v (mmio_base k).
Definition set_mmio_base (v : Z) (k : kernel) : kernel :=
  Kernel (km k) (krb k) (kvmas k) (ktasks k) (krmaps k) (kcpus k) (kslabs k) (kslab_infos k) (kslab_objs k) (swap_lock k) (cr3 k) (tlb k) (kernel_pml4 k) v.

(** Running a component on its part of the state. *)
Definition on_km {A} (c : M mem A) : M kernel A := zoom km set_km c.
Definition on_list {A} (c : M lheap A) : M kernel A := on_km (on_heap c).
Definition on_rb {A} (c : M rbs A) : M kernel A := zoom krb set_krb c.

Definition vma_get (p : Z) : M kernel vma := deref (λ k, kvmas k !! p).
Definition vma_upd (p : Z) (f : vma → vma) : M kernel unit :=
  v ← vma_get p; modify (λ k, set_kvmas (<[p := f v]> (kvmas k)) k).
Definition task_get (p : Z) : M kernel task := deref (λ k, ktasks k !! p).
Definition task_upd (p : Z) (f : task → task) : M kernel unit :=
  t ← task_get p; modify (λ k, set_ktasks (<[p := f t]> (ktasks k)) k).

(** [this_cpu] and the [cur_task] macro. *)
Definition cpu_get : M kernel cpuinfo := deref (λ k, kcpus k !! this_cpu (km k)).
Definition cpu_upd (f : cpuinfo → cpuinfo) : M kernel unit :=
  c ← cpu_get;
  me ← gets (λ k, this_cpu (km k));
  modify (λ k, set_kcpus (<[me := f c]> (kcpus k)) k).
Definition cur_task : M kernel Z := c ← cpu_get; mret (cpu_task c).

(** ** kernel/vma/find.c *)

(** The loop of [find_vma]; the result is [(vma, parent, dir)]. *)
Fixpoint find_loop (fuel : nat) (addr node vma parent : Z) (dir : bool) : M kernel (Z * Z * bool) :=
  match fuel with
  | O => halt NoFuel
  | S fuel =>
      if node =? NULL then mret (vma, parent, dir)
      else
        let vma_tmp := container_of node off_vm_rb in
        v ← vma_get vma_tmp;
        let dir := vm_end v <=? addr in
        if negb dir && (vm_base v <=? addr) then mret (vma_tmp, node, dir)
        else
          n ← on_rb (rb_get node);
          find_loop fuel addr (child dir n) (if dir then vma else vma_tmp) node dir
  end.

(** A path of the tree visits a node at most once. *)
Definition find_vma (tree addr : Z) : M kernel (Z * Z * bool) :=
  root ← on_rb (get_root tree);
  fuel ← gets (λ k, S (size (nodes (krb k))));
  find_loop fuel addr root NULL NULL false.

Definition task_find_vma (task addr : Z) : M kernel Z :=
  '(vma, _, _) ← find_vma (task + off_task_rb) addr;
  if vma =? NULL then mret NULL
  else
    v ← vma_get vma;
    if addr <? vm_base v then mret NULL else mret vma.

Lemma find_loop_state fuel addr node vma parent dir k r k1 :
  find_loop fuel addr node vma parent dir k = OK r k1 → k1 = k.
Proof.
  revert node vma parent dir. induction fuel as [|fuel IH]; intros node vma parent dir; [done|].
  cbn [find_loop]. destruct (node =? NULL); [by intros [= _ <-]|].
  unfold vma_get, on_rb, rb_get, mbind, M_bind, deref, zoom.
  destruct (kvmas k !! container_of node off_vm_rb) as [v|]; [|done].
  destruct (negb (vm_end v <=? addr) && (vm_base v <=? addr)); [by intros [= _ <-]|].
  destruct (nodes (krb k) !! node) as [nd|]; [|done].
  replace (set_krb (krb k) k) with k by (by destruct k). apply IH.
Qed.

(** The lookup only reads, and only the tree and the VMAs. *)
Lemma find_loop_pure fuel addr node vma parent dir k r :
  find_loop fuel addr node vma parent dir k = OK r k →
  ∀ k', krb k' = krb k → kvmas k' = kvmas k → find_loop fuel addr node vma parent dir k' = OK r k'.
Proof.
  revert node vma parent dir. induction fuel as [|fuel IH]; intros node vma parent dir; [done|].
  cbn [find_loop]. intros Hr k' Eb Ev. destruct (node =? NULL); [by injection Hr as <-|].
  revert Hr. unfold vma_get, on_rb, rb_get, mbind, M_bind, deref, zoom. rewrite Ev.
  destruct (kvmas k !! container_of node off_vm_rb) as [v|]; [|done].
  destruct (negb (vm_end v <=? addr) && (vm_base v <=? addr)); [by intros [= <-]|].
  rewrite Eb. destruct (nodes (krb k) !! node) as [nd|]; [|done].
  replace (set_krb (krb k) k) with k by (by destruct k).
  replace (set_krb (krb k) k') with k' by (rewrite <-Eb; by destruct k'). intros Hr. by apply IH.
Qed.

Lemma task_find_vma_pure task addr k r : task_find_vma task addr k = OK r k →
  ∀ k', krb k' = krb k → kvmas k' = kvmas k → task_find_vma task addr k' = OK r k'.
Proof.
  unfold task_find_vma, find_vma, on_rb, get_root, gets, mbind, M_bind, deref, zoom.
  intros Hr k' Eb Ev. revert Hr. rewrite Eb. destruct (roots (krb k) !! (task + off_task_rb)) as [root|]; [|done].
  replace (set_krb (krb k) k) with k by (by destruct k).
  replace (set_krb (krb k) k') with k' by (rewrite <-Eb; by destruct k').
  rewrite Eb. destruct (find_loop _ _ _ _ _ _ k) as [[[v p] d] k1|] eqn:E; [|done].
  pose proof (find_loop_state _ _ _ _ _ _ _ _ _ E); subst k1.
  rewrite (find_loop_pure _ _ _ _ _ _ _ _ E k' Eb Ev).
  destruct (v =? NULL); [by intros [= <-]|]. unfold vma_get, deref. rewrite Ev.
  destruct (kvmas k !! v) as [w|]; [|done]. destruct (addr <? vm_base w); by intros [= <-].
Qed.
