(* ===== verification/PageWalk.v ===== *)
(** * The page walker (kernel/mem/walk.c) and page table entries

    [walk_page_range] walks the four levels of a page table over a range of
    addresses and calls the functions of a [struct page_walker] for every
    entry it meets.  The walker's [udata] is a value that lives next to the
    kernel state while the walk runs. *)

From S2P Require Import Prelude LinkedList Paging Spinlock Buddy RbTree Kernel.

Local Open Scope Z_scope.

(** ** Entries in memory

    A [physaddr_t *] into a page table is a direct-map address; it is backed
    when its frame exists. *)

Definition backed (m : mem) (a : Z) : bool :=
  (KERNEL_VMA <=? a) && (a <? KERNEL_VMA + npages m * PAGE_SIZE).

Definition word_of (a : Z) : Z := a `mod` PAGE_SIZE `div` 8.

Definition read_word (a : Z) : M mem Z :=
  ok ← gets (λ m, backed m a);
  if (ok : bool) then gets (λ m, word_at (phys m) (a - KERNEL_VMA) (word_of a)) else halt Fault.

Definition write_word (a v : Z) : M mem unit :=
  ok ← gets (λ m, backed m a);
  if (ok : bool) then modify (λ m, set_phys (set_word (a - KERNEL_VMA) (word_of a) (u64 v) (phys m)) m)
  else halt Fault.

(** [&table->entries[idx]]. *)
Definition entry_ptr (table idx : Z) : Z := table + 8 * idx.

(** ** struct page_walker *)

Section walk.
Context {U : Type}.

Abbreviation W := (kernel * U)%type.
Abbreviation callback := (Z → Z → Z → M W Z).

Record page_walker := Walker {
  pte_callback : option callback;
  pde_callback : option callback;
  pdpte_callback : option callback;
  pml4e_callback : option callback;
  pte_unmap : option callback;
  pde_unmap : option callback;
  pdpte_unmap : option callback;
  pml4e_unmap : option callback;
  pt_hole_callback : option (Z → Z → M W Z);
}.

(** Running kernel code and accessing [udata] from a callback. *)
Definition kcall {A} (c : M kernel A) : M W A := zoom fst (λ k w, (k, w.2)) c.
Definition mcall {A} (c : M mem A) : M W A := kcall (on_km c).
Definition udata : M W U := gets snd.
Definition set_udata (u : U) : M W unit := modify (λ w, (w.1, u)).

(** [ret = ...; if (ret < 0) return ret;] *)
Definition try_ (m k : M W Z) : M W Z :=
  ret ← m; if ret <? 0 then mret ret else k.

Definition call (f : option callback) (entry base end_ : Z) : M W Z :=
  match f with Some f => f entry base end_ | None => mret 0 end.
Definition call_hole (w : page_walker) (base end_ : Z) : M W Z :=
  match pt_hole_callback w with Some f => f base end_ | None => mret 0 end.

(** ** Boundaries *)

Definition sign_extend (addr : Z) : Z :=
  if addr <? USER_LIM then addr else Z.lor 0xffff000000000000 addr.

Definition ptbl_end (addr : Z) : Z := Z.lor addr (PAGE_SIZE - 1).
Definition pdir_end (addr : Z) : Z := Z.lor addr (PAGE_TABLE_SPAN - 1).
Definition pdpt_end (addr : Z) : Z := Z.lor addr (PAGE_DIR_SPAN - 1).
Definition pml4_end (addr : Z) : Z := Z.lor addr (PDPT_SPAN - 1).

(** The [for] loop the four walking functions share: [bound] is their
    [*_end] function, [visit addr next] their loop body. *)
Fixpoint walk_loop (fuel : nat) (bound : Z → Z) (visit : Z → Z → M W Z) (end_ addr next : Z) : M W Z :=
  match fuel with
  | O => halt NoFuel
  | S fuel =>
      if next <? end_ then
        let next := sign_extend (u64 (bound addr + 1)) in
        let next := if (end_ <? next) || (next <? addr) then end_ else next in
        try_ (visit addr next) (walk_loop fuel bound visit end_ next next)
      else mret 0
  end.

(** A table has 512 entries, so no loop runs more often; the last round
    tests the condition. *)
Definition walk_fuel : nat := 513.

Definition ptbl_visit (ptbl : Z) (w : page_walker) (addr next : Z) : M W Z :=
  let entry := entry_ptr ptbl (PAGE_TABLE_INDEX addr) in
  try_ (call (pte_callback w) entry addr (u64 (next - 1))) (
  e ← mcall (read_word entry);
  if has e PAGE_PRESENT then
    try_ (call (pte_unmap w) entry addr (u64 (next - 1))) (mret 0)
  else
    try_ (call_hole w addr (u64 (next - 1))) (mret 0)).

Definition ptbl_walk_range (ptbl base end_ : Z) (w : page_walker) : M W Z :=
  walk_loop walk_fuel ptbl_end (ptbl_visit ptbl w) end_ (sign_extend base) base.

Definition pdir_visit (pdir : Z) (w : page_walker) (addr next : Z) : M W Z :=
  let entry := entry_ptr pdir (PAGE_DIR_INDEX addr) in
  try_ (call (pde_callback w) entry addr (u64 (next - 1))) (
  e ← mcall (read_word entry);
  if has e PAGE_PRESENT then
    if negb (has e PAGE_HUGE) then
      try_ (ptbl ← mcall (KADDR (PAGE_ADDR e)); ptbl_walk_range ptbl addr (u64 (next - 1)) w) (
      try_ (call (pde_unmap w) entry addr (u64 (next - 1))) (mret 0))
    else mret 0
  else
    try_ (call_hole w addr (u64 (next - 1))) (mret 0)).

Definition pdir_walk_range (pdir base end_ : Z) (w : page_walker) : M W Z :=
  walk_loop walk_fuel pdir_end (pdir_visit pdir w) end_ (sign_extend base) base.

Definition pdpt_visit (pdpt : Z) (w : page_walker) (addr next : Z) : M W Z :=
  let entry := entry_ptr pdpt (PDPT_INDEX addr) in
  try_ (call (pdpte_callback w) entry addr (u64 (next - 1))) (
  e ← mcall (read_word entry);
  if has e PAGE_PRESENT then
    if negb (has e PAGE_HUGE) then
      try_ (pdir ← mcall (KADDR (PAGE_ADDR e)); pdir_walk_range pdir addr (u64 (next - 1)) w) (
      try_ (call (pdpte_unmap w) entry addr (u64 (next - 1))) (mret 0))
    else mret 0
  else
    try_ (call_hole w addr (u64 (next - 1))) (mret 0)).

Definition pdpt_walk_range (pdpt base end_ : Z) (w : page_walker) : M W Z :=
  walk_loop walk_fuel pdpt_end (pdpt_visit pdpt w) end_ (sign_extend base) base.

(** The PML4 has no huge pages: [pml4_walk_range] does not test for them. *)
Definition pml4_visit (pml4 : Z) (w : page_walker) (addr next : Z) : M W Z :=
  let entry := entry_ptr pml4 (PML4_INDEX addr) in
  try_ (call (pml4e_callback w) entry addr (u64 (next - 1))) (
  e ← mcall (read_word entry);
  if has e PAGE_PRESENT then
    try_ (pdpt ← mcall (KADDR (PAGE_ADDR e)); pdpt_walk_range pdpt addr (u64 (next - 1)) w) (
    try_ (call (pml4e_unmap w) entry addr (u64 (next - 1))) (mret 0))
  else
    try_ (call_hole w addr (u64 (next - 1))) (mret 0)).

Definition pml4_walk_range (pml4 base end_ : Z) (w : page_walker) : M W Z :=
  walk_loop walk_fuel pml4_end (pml4_visit pml4 w) end_ (sign_extend base) base.

(** ** Entry points *)

Definition walk_page_range (pml4 base end_ : Z) (w : page_walker) : M W Z :=
  pml4_walk_range pml4 (ROUNDDOWN base PAGE_SIZE) (u64 (ROUNDUP end_ PAGE_SIZE - 1)) w.

Definition walk_all_pages (pml4 : Z) (w : page_walker) : M W Z :=
  pml4_walk_range pml4 0 KERNEL_LIM w.

Definition walk_user_pages (pml4 : Z) (w : page_walker) : M W Z :=
  pml4_walk_range pml4 0 USER_LIM w.

Definition walk_kernel_pages (pml4 : Z) (w : page_walker) : M W Z :=
  pml4_walk_range pml4 KERNEL_VMA KERNEL_LIM w.
End walk.
Arguments page_walker : clear implicits.

(** Running a walk with [udata] initialised to [u]: the result of the walk
    and the final [udata]. *)
Definition with_udata {U A} (u : U) (c : M (kernel * U) A) : M kernel (A * U) := λ k,
  match c (k, u) with
  | OK a (k', u') => OK (a, u') k'
  | Stop r (k', _) => Stop r k'
  end.
