(* ===== verification/PageWalkProofs.v ===== *)
(** * Reasoning about page walks

    Page numbers instead of addresses: the loops of the walker advance from
    page number to page number.  The rules at the end reduce a walk over a
    range to what happens at one entry; they need no assumption about the
    callbacks. *)

From Stdlib Require Import Zbitwise.
From S2P Require Import Prelude LinkedList Paging Spinlock Buddy BuddyProofs RbTree Kernel PageWalk.

Local Open Scope Z_scope.

(** ** Canonical ranges *)

(** The pages [p..q-1] lie in one half of the address space. *)
Definition one_half (p q : Z) : Prop :=
  (0 ≤ p ∧ q ≤ 2 ^ 35) ∨ (2 ^ 52 - 2 ^ 35 ≤ p ∧ q ≤ 2 ^ 52).

Definition canonical (j : Z) : Prop := 0 ≤ j < 2 ^ 35 ∨ 2 ^ 52 - 2 ^ 35 ≤ j < 2 ^ 52.

Lemma one_half_in p q j : one_half p q → p ≤ j < q → canonical j.
Proof. unfold one_half, canonical. lia. Qed.

Lemma one_half_sub p q p' q' : one_half p q → p ≤ p' → q' ≤ q → one_half p' q'.
Proof. unfold one_half. lia. Qed.

Lemma lor_high x : 2 ^ 64 - 2 ^ 47 ≤ x < 2 ^ 64 → Z.lor 0xffff000000000000 x = x.
Proof.
  intros Hx. pose proof (Z.add_lor_land 0xffff000000000000 x) as E.
  assert (Z.land 0xffff000000000000 x = 0xffff000000000000) as E2; [|lia].
  change 0xffff000000000000 with (Z.shiftl 0xffff 48) at 1.
  assert (Z.shiftr x 48 = 0xffff) as Hs.
  { rewrite Z.shiftr_div_pow2 by lia. change (2 ^ 48) with 281474976710656. mlia. }
  replace (Z.land (Z.shiftl 65535 48) x) with (Z.shiftl (Z.land 65535 (Z.shiftr x 48)) 48); [by rewrite Hs|].
  apply Z.bits_inj'. intros i Hi. rewrite Z.land_spec. destruct (decide (i < 48)).
  - by rewrite !Z.shiftl_spec_low by lia.
  - rewrite !Z.shiftl_spec by lia. rewrite Z.land_spec, Z.shiftr_spec by lia. do 2 f_equal. lia.
Qed.

(** The four boundary functions round up to the last byte of a span. *)
Lemma lor_span x k : 0 ≤ k → Z.lor x (2 ^ k - 1) = (x `div` 2 ^ k + 1) * 2 ^ k - 1.
Proof.
  intros Hk. pose proof (Z.add_lor_land x (2 ^ k - 1)) as E. rewrite land_ones_mod in E by done.
  pose proof (Z.div_mod x (2 ^ k)) as E2. lia.
Qed.

(** [bound] is the boundary function of spans of [C] pages. *)
Definition bounds (C : Z) (bound : Z → Z) : Prop :=
  0 < C ∧ 2 ^ 35 `mod` C = 0 ∧ ∀ x, bound x = (x `div` (4096 * C) + 1) * (4096 * C) - 1.

Lemma ptbl_bounds : bounds 1 ptbl_end.
Proof. split_and!; [done..|]. intros x. apply (lor_span x 12). lia. Qed.
Lemma pdir_bounds : bounds 512 pdir_end.
Proof. split_and!; [done..|]. intros x. apply (lor_span x 21). lia. Qed.
Lemma pdpt_bounds : bounds (512 * 512) pdpt_end.
Proof. split_and!; [done..|]. intros x. apply (lor_span x 30). lia. Qed.
Lemma pml4_bounds : bounds (512 * 512 * 512) pml4_end.
Proof. split_and!; [done..|]. intros x. apply (lor_span x 39). lia. Qed.

Lemma sign_extend_canonical j : canonical j → sign_extend (4096 * j) = 4096 * j.
Proof.
  intros Hj. unfold sign_extend, USER_LIM. destruct (Z.ltb_spec (4096 * j) 0x800000000000); [done|].
  apply lor_high. unfold canonical in Hj. lia.
Qed.

(** The next page number the loop over spans of [C] pages goes to. *)
Definition chunk_end (C j q : Z) : Z := Z.min q ((j `div` C + 1) * C).

(** [x] is up to [d] bytes short of the end of the pages before [q]. *)
Definition near (d q x : Z) : Prop := 4096 * q - d ≤ x ≤ 4096 * q.

Lemma chunk_end_gt C j q : 0 < C → j < q → j < chunk_end C j q ≤ q.
Proof. intros HC Hj. unfold chunk_end. pose proof (Z.mul_succ_div_gt j C HC). lia. Qed.

Lemma chunk_next C bound j q d e : bounds C bound → one_half j q → j < q → near d q e → e < 4096 * q → d ≤ 4 →
  let next := sign_extend (u64 (bound (4096 * j) + 1)) in
  (if (e <? next) || (next <? 4096 * j) then e else next) = Z.min e (4096 * chunk_end C j q).
Proof.
  intros (HC & HCm & HB) Hh Hj Hn He Hd next.
  assert (bound (4096 * j) + 1 = 4096 * ((j `div` C + 1) * C)) as Eb.
  { rewrite HB, Z.div_mul_cancel_l by lia. lia. }
  set (up := (j `div` C + 1) * C) in *. assert (chunk_end C j q = Z.min q up) as -> by done.
  assert (j < up) as Hup by (unfold up; pose proof (Z.mul_succ_div_gt j C HC); lia).
  assert (∀ b, b `mod` C = 0 → j < b → up ≤ b) as Hle.
  { intros b Hb Hjb. apply Z.div_exact in Hb; [|lia]. unfold up. rewrite Hb.
    assert (j `div` C < b `div` C); [|nia]. apply Z.div_lt_upper_bound; lia. }
  unfold near, one_half in *.
  assert (2 ^ 52 `mod` C = 0) as HC52.
  { change (2 ^ 52) with (2 ^ 17 * 2 ^ 35). rewrite Z.mul_mod, HCm, Z.mul_0_r by lia. done. }
  pose proof (Hle _ HCm). pose proof (Hle _ HC52). clearbody up. unfold next. rewrite Eb. clear next Eb Hle HB HCm HC52.
  unfold u64.
  assert (up = 2 ^ 52 ∨ up < 2 ^ 52) as [->|Hlt] by lia.
  { change ((4096 * 2 ^ 52) `mod` 2 ^ 64) with 0. change (sign_extend 0) with 0.
    rewrite (proj2 (Z.ltb_lt 0 (4096 * j))), orb_true_r by lia. lia. }
  rewrite Z.mod_small by lia. destruct (decide (up = 2 ^ 35)) as [->|Hne].
  { change (sign_extend (4096 * 2 ^ 35)) with 0xffff800000000000.
    rewrite (proj2 (Z.ltb_lt e _)) by lia. simpl. lia. }
  rewrite sign_extend_canonical by (unfold canonical; lia).
  rewrite (proj2 (Z.ltb_ge (4096 * up) _)), orb_false_r by lia.
  destruct (Z.ltb_spec e (4096 * up)); lia.
Qed.

Lemma rounddown_page p : 0 ≤ p < 2 ^ 52 → ROUNDDOWN (4096 * p) PAGE_SIZE = 4096 * p.
Proof. intros. unfold ROUNDDOWN, u64, PAGE_SIZE. mlia. Qed.
Lemma roundup_page q : 0 ≤ q < 2 ^ 52 - 1 → ROUNDUP (4096 * q) PAGE_SIZE = 4096 * q.
Proof. intros. unfold ROUNDUP, ROUNDDOWN, u64, PAGE_SIZE. mlia. Qed.

(** ** The loop rule *)

Section rules.
Context {U : Type}.
Implicit Types (w : page_walker U) (s : kernel * U) (I : Z → kernel * U → Prop).

Lemma wp_try (m k : M (kernel * U) Z) Q s :
  wp m (λ r t, if r <? 0 then Q r t else wp k Q t) s → wp (try_ m k) Q s.
Proof.
  intros H. unfold try_. wp_step. eapply wp_mono; [exact H|]. cbv beta. intros r t Hr.
  by destruct (r <? 0).
Qed.

(** What one round at page [j] has to do, for loops over spans of [C] pages. *)
Definition visit_ok (C d : Z) (visit : Z → Z → M (kernel * U) Z) I (Q : Z → kernel * U → Prop) (p q : Z) : Prop :=
  ∀ j next s, p ≤ j < q → I j s → near d (chunk_end C j q) next →
    wp (visit (4096 * j) next) (λ r t, if r <? 0 then Q r t else I (chunk_end C j q) t) s.

Lemma walk_loop_rule C d bound visit I Q p q e fuel s : bounds C bound → one_half p q → p < q →
  near d q e → e < 4096 * q → 0 ≤ d ≤ 4 → visit_ok C d visit I Q p q →
  (∀ t, I q t → Q 0 t) → I p s → ((q - 1) `div` C - p `div` C + 2 ≤ Z.of_nat fuel) →
  wp (walk_loop fuel bound visit e (4096 * p) (4096 * p)) Q s.
Proof.
  intros HB Hh Hpq Hn He Hd HV HQ. pose proof HB as [HC _]. revert p s Hh Hpq HV.
  induction fuel as [|fuel IH]; intros p s Hh Hpq HV HI Hf.
  { pose proof (Z.div_le_mono p (q - 1) C HC). lia. }
  cbn [walk_loop]. rewrite (proj2 (Z.ltb_lt (4096 * p) e)) by (unfold near in Hn; lia).
  cbv zeta. rewrite (chunk_next C bound p q d e HB Hh Hpq Hn He) by lia.
  pose proof (chunk_end_gt C p q HC Hpq) as Hc.
  apply wp_try. eapply wp_mono; [apply HV; [lia|done|]|].
  { unfold near in *. lia. }
  cbv beta. intros r t Ht. destruct (r <? 0) eqn:Er; [done|].
  destruct (decide (chunk_end C p q = q)) as [Eq|Hne].
  - rewrite Eq in *. replace (Z.min e (4096 * q)) with e by lia.
    destruct fuel as [|fuel]. { pose proof (Z.div_le_mono p (q - 1) C HC). lia. }
    cbn [walk_loop]. rewrite Z.ltb_irrefl. apply wp_ret. by apply HQ.
  - replace (Z.min e (4096 * chunk_end C p q)) with (4096 * chunk_end C p q) by (unfold near in Hn; lia).
    assert (chunk_end C p q `div` C = p `div` C + 1) as Ed.
    { unfold chunk_end in *. rewrite Z.min_r by lia. apply Z.div_mul. lia. }
    apply IH; [eapply one_half_sub; [exact Hh|lia|lia]|lia| |done|].
    + intros j next s' Hj. apply HV. lia.
    + rewrite Ed. lia.
Qed.

(** ** The four levels

    A walk over the pages [p..q-1] at one level, from what a round does at an
    entry of that level. *)

Ltac level_rule B :=
  intros; rewrite sign_extend_canonical by (eapply one_half_in; [eassumption|lia]);
  eapply walk_loop_rule; [exact B|eassumption|lia|eassumption|eassumption|lia|eassumption|eassumption|eassumption|];
  unfold walk_fuel.

Lemma ptbl_walk_rule ptbl w I Q p q e s : one_half p q → p < q → (q - 1) `div` 512 = p `div` 512 →
  near 4 q e → e < 4096 * q → visit_ok 1 4 (ptbl_visit ptbl w) I Q p q →
  (∀ t, I q t → Q 0 t) → I p s → wp (ptbl_walk_range ptbl (4096 * p) e w) Q s.
Proof. unfold ptbl_walk_range. level_rule ptbl_bounds. mlia. Qed.

Lemma pdir_walk_rule pdir w I Q p q e s : one_half p q → p < q →
  (q - 1) `div` (512 * 512) = p `div` (512 * 512) →
  near 3 q e → e < 4096 * q → visit_ok 512 3 (pdir_visit pdir w) I Q p q →
  (∀ t, I q t → Q 0 t) → I p s → wp (pdir_walk_range pdir (4096 * p) e w) Q s.
Proof. unfold pdir_walk_range. level_rule pdir_bounds. mlia. Qed.

Lemma pdpt_walk_rule pdpt w I Q p q e s : one_half p q → p < q →
  (q - 1) `div` (512 * 512 * 512) = p `div` (512 * 512 * 512) →
  near 2 q e → e < 4096 * q → visit_ok (512 * 512) 2 (pdpt_visit pdpt w) I Q p q →
  (∀ t, I q t → Q 0 t) → I p s → wp (pdpt_walk_range pdpt (4096 * p) e w) Q s.
Proof. unfold pdpt_walk_range. level_rule pdpt_bounds. mlia. Qed.

Lemma pml4_walk_rule pml4 w I Q p q e s : one_half p q → p < q →
  near 1 q e → e < 4096 * q → visit_ok (512 * 512 * 512) 1 (pml4_visit pml4 w) I Q p q →
  (∀ t, I q t → Q 0 t) → I p s → wp (pml4_walk_range pml4 (4096 * p) e w) Q s.
Proof. unfold pml4_walk_range. level_rule pml4_bounds. unfold one_half in *. mlia. Qed.

(** [walk_page_range] over whole pages. *)
Lemma walk_page_range_rule pml4 w I Q p q s : one_half p q → p < q → q < 2 ^ 52 - 1 →
  visit_ok (512 * 512 * 512) 1 (pml4_visit pml4 w) I Q p q →
  (∀ t, I q t → Q 0 t) → I p s → wp (walk_page_range pml4 (4096 * p) (4096 * q) w) Q s.
Proof.
  intros Hh Hpq Hq HV HQ HI. unfold walk_page_range.
  assert (0 ≤ p) by (unfold one_half in Hh; lia). rewrite rounddown_page, roundup_page by lia.
  assert (u64 (4096 * q - 1) = 4096 * q - 1) as -> by (unfold u64; mlia).
  eapply pml4_walk_rule; try eassumption; unfold near; lia.
Qed.
End rules.
