(* ===== verification/AddrSpace.v ===== *)
(** * Address spaces: what the hardware sees of a page table

    [translate] is the processor's four-level walk.  A page table is
    described by the map [T] from index paths to the frames of its tables:
    the empty path is the root, a path of three indices names a page table
    whose entries map pages.  [pt_ok] relates [T] to physical memory; the
    lemmas say how writing an entry, adding a table and dropping a table
    change [T] and the translation. *)

From S2P Require Import Prelude LinkedList Paging Spinlock Buddy BuddyProofs RbTree Kernel PageWalk PageWalkProofs.

Local Open Scope Z_scope.

(** ** Entries *)

Abbreviation physmem := (gmap Z frame_words).
Abbreviation tmap := (gmap (list Z) Z).

Definition entry (ph : physmem) (f i : Z) : Z := default 0 (ph !! f ≫= lookup i).
Definition set_entry (f i v : Z) (ph : physmem) : physmem :=
  <[f := <[i := v]> (default ∅ (ph !! f))]> ph.

(** The frame number an entry points to. *)
Definition frame_of (e : Z) : Z := PAGE_INDEX (PAGE_ADDR e).

Lemma entry_set f i v ph f' i' :
  entry (set_entry f i v ph) f' i' = if decide (f = f' ∧ i = i') then v else entry ph f' i'.
Proof.
  unfold entry, set_entry. rewrite lookup_insert. case_decide as Ef; subst.
  - simpl. rewrite lookup_insert. repeat case_decide; try tauto.
    by destruct (ph !! f').
  - case_decide; [tauto|done].
Qed.

Lemma entry_zero ph f i : ph !! f = None → entry ph f i = 0.
Proof. unfold entry. by intros ->. Qed.

Lemma entry_ext ph ph' f i : ph' !! f = ph !! f → entry ph' f i = entry ph f i.
Proof. unfold entry. by intros ->. Qed.

(** The indices of a page number. *)
Definition i0 (j : Z) : Z := j `mod` 512.
Definition i1 (j : Z) : Z := j `div` 512 `mod` 512.
Definition i2 (j : Z) : Z := j `div` 262144 `mod` 512.
Definition i3 (j : Z) : Z := j `div` 134217728 `mod` 512.

Lemma index_bounds j : 0 ≤ i0 j < 512 ∧ 0 ≤ i1 j < 512 ∧ 0 ≤ i2 j < 512 ∧ 0 ≤ i3 j < 512.
Proof. unfold i0, i1, i2, i3. repeat split; apply Z.mod_pos_bound; lia. Qed.

Lemma index_inj j k : canonical j → canonical k →
  i3 j = i3 k → i2 j = i2 k → i1 j = i1 k → i0 j = i0 k → j = k.
Proof. unfold canonical, i0, i1, i2, i3. intros. mlia. Qed.

Lemma PT_index j : PAGE_TABLE_INDEX (4096 * j) = i0 j.
Proof. rewrite PAGE_TABLE_INDEX_mod. unfold i0. by rewrite Z.mul_comm, Z.div_mul. Qed.
Lemma PD_index j : PAGE_DIR_INDEX (4096 * j) = i1 j.
Proof. rewrite PAGE_DIR_INDEX_mod. unfold i1. change 2097152 with (4096 * 512). by rewrite Z.div_mul_cancel_l. Qed.
Lemma PDPT_index j : PDPT_INDEX (4096 * j) = i2 j.
Proof. rewrite PDPT_INDEX_mod. unfold i2. change 1073741824 with (4096 * 262144). by rewrite Z.div_mul_cancel_l. Qed.
Lemma PML4_index j : PML4_INDEX (4096 * j) = i3 j.
Proof. rewrite PML4_INDEX_mod. unfold i3. change 549755813888 with (4096 * 134217728). by rewrite Z.div_mul_cancel_l. Qed.

(** ** The processor's walk *)

(** The entry that maps page [j]: the level-0 entry, or a huge entry. *)
Definition translate (ph : physmem) (root j : Z) : option Z :=
  let e3 := entry ph root (i3 j) in
  if negb (has e3 PAGE_PRESENT) then None
  else
    let e2 := entry ph (frame_of e3) (i2 j) in
    if negb (has e2 PAGE_PRESENT) then None
    else if has e2 PAGE_HUGE then Some e2
    else
      let e1 := entry ph (frame_of e2) (i1 j) in
      if negb (has e1 PAGE_PRESENT) then None
      else if has e1 PAGE_HUGE then Some e1
      else
        let e0 := entry ph (frame_of e1) (i0 j) in
        if has e0 PAGE_PRESENT then Some e0 else None.

(** The page directory entry above page [j]. *)
Definition directory (ph : physmem) (root j : Z) : option Z :=
  let e3 := entry ph root (i3 j) in
  if negb (has e3 PAGE_PRESENT) then None
  else
    let e2 := entry ph (frame_of e3) (i2 j) in
    if negb (has e2 PAGE_PRESENT) || has e2 PAGE_HUGE then None
    else Some (entry ph (frame_of e2) (i1 j)).

(** ** The tables of an address space *)

Definition child_ok (e : Z) (c : option Z) : Prop :=
  if has e PAGE_PRESENT then has e PAGE_HUGE = false ∧ c = Some (frame_of e) else c = None.

Record pt_ok (n : Z) (T : tmap) (ph : physmem) (root : Z) : Prop := {
  pt_root : T !! [] = Some root;
  pt_range p f : T !! p = Some f → 0 ≤ f < n;
  pt_depth p f : T !! p = Some f → (length p ≤ 3)%nat;
  pt_parent p i f : T !! (p ++ [i]) = Some f → is_Some (T !! p) ∧ 0 ≤ i < 512;
  pt_child p f i : T !! p = Some f → (length p < 3)%nat → 0 ≤ i < 512 →
    child_ok (entry ph f i) (T !! (p ++ [i]));
  pt_inj p q f : T !! p = Some f → T !! q = Some f → p = q;
}.

(** The paths of the tables above page [j]. *)
Definition path3 (j : Z) : list Z := [i3 j].
Definition path2 (j : Z) : list Z := path3 j ++ [i2 j].
Definition path1 (j : Z) : list Z := path2 j ++ [i1 j].

(** The mapping of page [j] in terms of [T]. *)
Definition view (T : tmap) (ph : physmem) (j : Z) : option Z :=
  f ← T !! path1 j;
  let e := entry ph f (i0 j) in if has e PAGE_PRESENT then Some e else None.

Section pt.
Context (n root : Z).
Implicit Types (T : tmap) (ph : physmem).

Lemma pt_child_Some T ph p f i c : pt_ok n T ph root → T !! p = Some f → (length p < 3)%nat →
  0 ≤ i < 512 → T !! (p ++ [i]) = Some c →
  has (entry ph f i) PAGE_PRESENT = true ∧ has (entry ph f i) PAGE_HUGE = false ∧ frame_of (entry ph f i) = c.
Proof.
  intros Hok Hp Hl Hi Hc. pose proof (pt_child _ _ _ _ Hok p f i Hp Hl Hi) as H.
  unfold child_ok in H. rewrite Hc in H. destruct (has (entry ph f i) PAGE_PRESENT); [|done].
  destruct H as [? H]. naive_solver.
Qed.

Lemma pt_child_None T ph p f i : pt_ok n T ph root → T !! p = Some f → (length p < 3)%nat →
  0 ≤ i < 512 → T !! (p ++ [i]) = None → has (entry ph f i) PAGE_PRESENT = false.
Proof.
  intros Hok Hp Hl Hi Hc. pose proof (pt_child _ _ _ _ Hok p f i Hp Hl Hi) as H.
  unfold child_ok in H. rewrite Hc in H. destruct (has (entry ph f i) PAGE_PRESENT); [|done]. naive_solver.
Qed.

Lemma pt_no_child T ph p i : pt_ok n T ph root → T !! p = None → T !! (p ++ [i]) = None.
Proof.
  intros Hok Hp. destruct (T !! (p ++ [i])) eqn:E; [|done].
  apply (pt_parent _ _ _ _ Hok) in E as [[? ?] _]. congruence.
Qed.

(** The description is right: the processor's walk gives [view]. *)
Lemma translate_view T ph j : pt_ok n T ph root → translate ph root j = view T ph j.
Proof.
  intros Hok. pose proof (index_bounds j) as (B0 & B1 & B2 & B3).
  assert (∀ p f i, T !! p = Some f → (length p < 3)%nat → 0 ≤ i < 512 →
    match T !! (p ++ [i]) with
    | Some c => has (entry ph f i) PAGE_PRESENT = true ∧ has (entry ph f i) PAGE_HUGE = false ∧ frame_of (entry ph f i) = c
    | None => has (entry ph f i) PAGE_PRESENT = false end) as Hc.
  { intros p f i ? ? ?. destruct (T !! (p ++ [i])) eqn:E; [by eapply pt_child_Some|by eapply pt_child_None]. }
  unfold translate, view.
  pose proof (Hc [] root (i3 j) (pt_root _ _ _ _ Hok) ltac:(simpl; lia) B3) as H3. change ([] ++ [i3 j]) with (path3 j) in H3.
  destruct (T !! path3 j) as [f3|] eqn:E3.
  2: { rewrite H3. unfold path1. rewrite (pt_no_child T ph); [done|done|]. unfold path2. by apply (pt_no_child T ph). }
  destruct H3 as (-> & _ & ->). simpl negb. cbv iota zeta.
  pose proof (Hc _ _ (i2 j) E3 ltac:(simpl; lia) B2) as H2. fold (path2 j) in H2.
  destruct (T !! path2 j) as [f2|] eqn:E2.
  2: { rewrite H2. unfold path1. by rewrite (pt_no_child T ph). }
  destruct H2 as (-> & -> & ->). simpl negb. cbv iota zeta.
  pose proof (Hc _ _ (i1 j) E2 ltac:(simpl; lia) B1) as H1. fold (path1 j) in H1.
  destruct (T !! path1 j) as [f1|] eqn:E1; [|by rewrite H1].
  by destruct H1 as (-> & -> & ->).
Qed.

Lemma directory_view T ph j : pt_ok n T ph root →
  directory ph root j = (λ f, entry ph f (i1 j)) <$> T !! path2 j.
Proof.
  intros Hok. pose proof (index_bounds j) as (B0 & B1 & B2 & B3). unfold directory.
  destruct (T !! path3 j) as [f3|] eqn:E3.
  2: { rewrite (pt_child_None T ph [] root (i3 j)); [|done|apply Hok|simpl; lia|done|done].
       unfold path2. by rewrite (pt_no_child T ph). }
  destruct (pt_child_Some T ph [] root (i3 j) f3) as (-> & _ & ->); [done|apply Hok|simpl; lia|done|done|]. simpl negb. cbv iota zeta.
  destruct (T !! path2 j) as [f2|] eqn:E2.
  2: { by rewrite (pt_child_None T ph (path3 j) f3 (i2 j)) by (done || simpl; lia). }
  by destruct (pt_child_Some T ph (path3 j) f3 (i2 j) f2) as (-> & -> & ->); [done|done|simpl; lia|done|done|].
Qed.

(** *** Changing memory and tables *)

Lemma pt_ok_ext T ph ph' : pt_ok n T ph root → (∀ p f, T !! p = Some f → ph' !! f = ph !! f) → pt_ok n T ph' root.
Proof.
  intros [? ? ? ? Hch ?] Hph. split; try done. intros p f i Hp. rewrite (entry_ext ph ph'); eauto.
Qed.

Lemma view_ext T ph ph' j : (∀ p f, T !! p = Some f → ph' !! f = ph !! f) → view T ph' j = view T ph j.
Proof.
  intros Hph. unfold view. destruct (T !! path1 j) as [f|] eqn:E; [|done]. simpl.
  rewrite (entry_ext ph ph'); eauto.
Qed.

Lemma path1_inj j k : canonical j → canonical k → path1 j = path1 k → i0 j = i0 k → j = k.
Proof. intros Hj Hk E. injection E as E3 E2 E1. by apply index_inj. Qed.

(** Writing an entry of a page table changes one page's mapping. *)
Lemma pt_set_leaf T ph p f i v : pt_ok n T ph root → T !! p = Some f → length p = 3%nat →
  pt_ok n T (set_entry f i v ph) root.
Proof.
  intros Hok Hp Hl. pose proof Hok as [? ? ? ? Hch Hinj]. split; try done.
  intros q f' i' Hq Hlq Hi'. rewrite entry_set. rewrite decide_False; [by apply Hch|].
  intros [<- _]. assert (p = q) as -> by eauto. lia.
Qed.

Lemma view_set_leaf T ph j f v k : pt_ok n T ph root → T !! path1 j = Some f → canonical j → canonical k →
  view T (set_entry f (i0 j) v ph) k =
    if decide (k = j) then (if has v PAGE_PRESENT then Some v else None) else view T ph k.
Proof.
  intros Hok Hj Hcj Hck. unfold view. destruct (T !! path1 k) as [f'|] eqn:Ek; simpl.
  - rewrite entry_set. case_decide as E1; case_decide as E2; subst; try done.
    + destruct E1 as [<- Ei]. destruct E2. apply path1_inj; [done|done| |done].
      eapply (pt_inj _ _ _ _ Hok); done.
    + destruct E1. split; congruence.
  - rewrite decide_False; [done|]. intros ->. congruence.
Qed.

(** Hanging an empty table below entry [i] of the table at [p]. *)
Lemma pt_add T ph p f i c e : pt_ok n T ph root → T !! p = Some f → (length p < 3)%nat → 0 ≤ i < 512 →
  T !! (p ++ [i]) = None → (∀ q, T !! q ≠ Some c) → 0 ≤ c < n → ph !! c = None →
  has e PAGE_PRESENT = true → has e PAGE_HUGE = false → frame_of e = c →
  pt_ok n (<[p ++ [i] := c]> T) (set_entry f i e ph) root.
Proof.
  intros Hok Hp Hl Hi Hnew Hc Hcn Hz He Hh Hf. pose proof Hok as [Hr Hrg Hd Hpa Hch Hinj].
  assert (∀ q x i', T !! q = Some x → entry (set_entry f i e ph) x i' = if decide (q = p ∧ i = i') then e else entry ph x i') as Hent.
  { intros q x i' Hq. rewrite entry_set. case_decide as E1; case_decide as E2; try done.
    - destruct E1 as [<- <-]. destruct E2. split; [by eapply Hinj|done].
    - destruct E1. destruct E2 as [-> ->]. split; congruence. }
  split.
  - rewrite lookup_insert_ne; [done|]. by destruct p.
  - intros q x. rewrite lookup_insert. case_decide; [naive_solver|by apply Hrg].
  - intros q x. rewrite lookup_insert. case_decide; [subst; rewrite length_app; simpl; lia|by apply Hd].
  - intros q i' x. rewrite !lookup_insert. case_decide as E1.
    + intros _. apply app_inj_tail in E1 as [-> ->]. case_decide; eauto.
    + intros Hx. apply Hpa in Hx as [[y Hy] ?]. case_decide; eauto.
  - intros q x i' Hx Hlq Hi'. rewrite lookup_insert in Hx. case_decide as Eq; subst.
    + injection Hx as <-. rewrite lookup_insert_ne.
      2: { intros E%app_inj_tail%proj1. apply (f_equal length) in E. rewrite length_app in E. simpl in E. lia. }
      assert (entry (set_entry f i e ph) (frame_of e) i' = 0) as ->.
      { rewrite entry_set, decide_False; [by apply entry_zero|]. intros [-> _]. by apply (Hc p). }
      unfold child_ok. change (has 0 PAGE_PRESENT) with false. by apply (pt_no_child T ph).
    + rewrite (Hent q x i' Hx), lookup_insert. case_decide as E1; case_decide as E2.
      * destruct E1 as [-> ->]. unfold child_ok. by rewrite He.
      * destruct E1 as [-> ->]. done.
      * apply app_inj_tail in E2 as [-> ->]. tauto.
      * by apply Hch.
  - intros q q' x. rewrite !lookup_insert. case_decide; case_decide; subst; try naive_solver.
Qed.

Lemma view_add T ph p f i c e j : pt_ok n T ph root → T !! p = Some f → (length p < 3)%nat →
  T !! (p ++ [i]) = None → (∀ q, T !! q ≠ Some c) → ph !! c = None →
  view (<[p ++ [i] := c]> T) (set_entry f i e ph) j = view T ph j.
Proof.
  intros Hok Hp Hl Hnew Hc Hz. pose proof Hok as [Hr Hrg Hd Hpa Hch Hinj].
  unfold view. rewrite lookup_insert. case_decide as E.
  - rewrite <-E, Hnew. simpl. rewrite entry_set, decide_False; [by rewrite entry_zero|].
    intros [-> _]. by apply (Hc p).
  - destruct (T !! path1 j) as [f'|] eqn:Ej; [|done]. simpl. rewrite entry_set, decide_False; [done|].
    intros [<- _]. assert (p = path1 j) as -> by eauto. simpl in Hl. lia.
Qed.

(** Dropping a table without present entries. *)
Lemma pt_remove T ph p f i c : pt_ok n T ph root → T !! p = Some f → (length p < 3)%nat → 0 ≤ i < 512 →
  T !! (p ++ [i]) = Some c → (∀ i', 0 ≤ i' < 512 → has (entry ph c i') PAGE_PRESENT = false) →
  pt_ok n (delete (p ++ [i]) T) (set_entry f i 0 ph) root.
Proof.
  intros Hok Hp Hl Hi Hc He. pose proof Hok as [Hr Hrg Hd Hpa Hch Hinj].
  assert (∀ i' x, T !! ((p ++ [i]) ++ [i']) ≠ Some x) as Hleaf.
  { intros i' x Hx. destruct (Hpa _ _ _ Hx) as [_ Hi'].
    assert (length (p ++ [i]) < 3)%nat as Hlp. { apply Hd in Hx. rewrite !length_app in *. simpl in *. lia. }
    pose proof (Hch _ _ i' Hc Hlp Hi') as H. unfold child_ok in H. rewrite He in H by done. congruence. }
  split.
  - rewrite lookup_delete_ne; [done|]. by destruct p.
  - intros q x [_ ?]%lookup_delete_Some. eauto.
  - intros q x [_ ?]%lookup_delete_Some. eauto.
  - intros q i' x [Hne Hx]%lookup_delete_Some. destruct (Hpa _ _ _ Hx) as [[y Hy] ?]. split; [|done].
    exists y. apply lookup_delete_Some. split; [|done]. intros <-. by eapply Hleaf.
  - intros q x i' [Hne Hx]%lookup_delete_Some Hlq Hi'. rewrite entry_set, lookup_delete.
    case_decide as E1; case_decide as E2; [done| |apply app_inj_tail in E2 as [-> ->]; destruct E1; split; congruence|by apply Hch].
    destruct E1 as [<- <-]. destruct E2. by rewrite (Hinj p q f).
  - intros q q' x [_ ?]%lookup_delete_Some [_ ?]%lookup_delete_Some. eauto.
Qed.

Lemma view_remove T ph p f i c j : pt_ok n T ph root → T !! p = Some f → (length p < 3)%nat →
  T !! (p ++ [i]) = Some c → (∀ i', 0 ≤ i' < 512 → has (entry ph c i') PAGE_PRESENT = false) →
  view (delete (p ++ [i]) T) (set_entry f i 0 ph) j = view T ph j.
Proof.
  intros Hok Hp Hl Hc He. pose proof Hok as [Hr Hrg Hd Hpa Hch Hinj].
  unfold view. rewrite lookup_delete. case_decide as E.
  - rewrite <-E, Hc. simpl. rewrite He; [done|]. apply (index_bounds j).
  - destruct (T !! path1 j) as [f'|] eqn:Ej; [|done]. simpl. rewrite entry_set, decide_False; [done|].
    intros [<- _]. assert (p = path1 j) as -> by eauto. simpl in Hl. lia.
Qed.
End pt.
