(* ===== verification/PageTable.v ===== *)
(** * Page tables (kernel/mem/{tlb,ptbl,lookup,insert,remove,protect,populate,map,user}.c)

    The operations on address spaces: every one of them is a set of callbacks
    given to the walker of PageWalk.v. *)

From S2P Require Import Prelude LinkedList Paging Spinlock Buddy RbTree Kernel PageWalk.

Local Open Scope Z_scope.

(** ** kernel/mem/tlb.c *)

(** [invlpg]. *)
Definition flush_page (va : Z) : M kernel unit :=
  modify (λ k, set_tlb (delete (PAGE_INDEX va) (tlb k)) k).

Definition tlb_invalidate (pml4 va : Z) : M kernel unit :=
  c ← gets cr3;
  pa ← on_km (PADDR pml4);
  if c =? pa then flush_page va else mret tt.

Section tables.
Context `{Layout}.

(** ** kernel/mem/ptbl.c *)

Definition ptbl_alloc {U} (entry base end_ : Z) : M (kernel * U) Z :=
  e ← mcall (read_word entry);
  if has e PAGE_PRESENT then mret 0
  else
    page ← mcall (page_alloc ALLOC_ZERO);
    if page =? NULL then mret (-1)
    else
      mcall (page_upd page (λ p, set_ref (pp_ref p + 1) p));;
      mcall (write_word entry 0);;
      pa ← mcall (page2pa page);
      mcall (write_word entry pa);;
      let flags := Z.lor (Z.lor PAGE_PRESENT PAGE_WRITE) PAGE_USER in
      e ← mcall (read_word entry);
      mcall (write_word entry (Z.lor e flags));;
      mret 0.

Definition ptbl_split {U} (entry base end_ : Z) : M (kernel * U) Z := mret 0.
Definition ptbl_merge {U} (entry base end_ : Z) : M (kernel * U) Z := mret 0.

(** The loop of [ptbl_free] over the last [n] entries of the table [pt]: is
    one of them present? *)
Fixpoint any_present (n : nat) (pt i : Z) : M mem bool :=
  match n with
  | O => mret false
  | S n =>
      e ← read_word (entry_ptr pt i);
      if has e PAGE_PRESENT then mret true else any_present n pt (i + 1)
  end.

Definition PAGE_TABLE_ENTRIES : Z := 512.

Definition ptbl_free {U} (entry base end_ : Z) : M (kernel * U) Z :=
  e ← mcall (read_word entry);
  if negb (has e PAGE_PRESENT) then mret 0
  else
    pt ← mcall (KADDR (PAGE_ADDR e));
    used ← mcall (any_present (Z.to_nat PAGE_TABLE_ENTRIES) pt 0);
    if (used : bool) then mret 0
    else
      e ← mcall (read_word entry);
      let pa := PAGE_ADDR e in
      page ← mcall (pa2page pa);
      mcall (page_upd page (λ p, set_ref (pp_ref p - 1) p));;
      mcall (page_upd page (set_free 1));;
      kcall (tlb_invalidate pt pt);;
      mcall (write_word entry 0);;
      mcall (page_free page);;
      mret 0.

(** ** kernel/mem/lookup.c *)

(** [udata]: the [entry] member of [struct lookup_info]. *)
Definition lookup_pte (entry base end_ : Z) : M (kernel * Z) Z :=
  e ← mcall (read_word entry);
  (if has e PAGE_PRESENT then set_udata entry else mret tt);;
  mret 0.

Definition lookup_pde (entry base end_ : Z) : M (kernel * Z) Z := mret 0.

Definition lookup_walker : page_walker Z :=
  Walker (Some lookup_pte) (Some lookup_pde) None None None None None None None.

(** [entry_store]: [None] is NULL, [Some v] points to a variable that holds
    [v].  The result is the page and the variable's final value. *)
Definition page_lookup (pml4 va : Z) (entry_store : option Z) : M kernel (Z * option Z) :=
  '(ret, entry) ← with_udata NULL (walk_page_range pml4 va (u64 (va + PAGE_SIZE)) lookup_walker);
  if ret <? 0 then mret (NULL, entry_store)
  else if entry =? NULL then mret (NULL, entry_store)
  else
    match entry_store with
    | Some v =>
        if v =? NULL then
          e ← on_km (read_word entry);
          let pa := sign_extend (PAGE_ADDR e) in
          pa ← (if KERNEL_VMA <=? pa then on_km (PADDR pa) else mret pa);
          p ← on_km (pa2page pa);
          mret (p, entry_store)
        else
          e ← on_km (read_word entry);
          p ← on_km (pa2page (sign_extend (PAGE_ADDR e)));
          mret (p, Some entry)
    | None =>
        e ← on_km (read_word entry);
        let pa := sign_extend (PAGE_ADDR e) in
        pa ← (if KERNEL_VMA <=? pa then on_km (PADDR pa) else mret pa);
        p ← on_km (pa2page pa);
        mret (p, None)
    end.

(** ** Pages of user space belong to a VMA *)

(** [spin_lock(&swap.lock)] and [spin_unlock(&swap.lock)]. *)
Definition lock_swap (file line : Z) : M kernel unit :=
  me ← gets (λ k, this_cpu (km k)); zoom swap_lock set_swap_lock (spin_lock me file line).
Definition unlock_swap : M kernel unit :=
  me ← gets (λ k, this_cpu (km k)); zoom swap_lock set_swap_lock (spin_unlock me).

(** ** kernel/mem/insert.c *)

(** [struct insert_info]. *)
Record insert_info := InsertInfo { ins_pml4 : Z; ins_page : Z; ins_flags : Z }.

(** The string ["kernel/mem/insert.c"] is at [file]. *)
Definition insert_pte (file : Z) (entry base end_ : Z) : M (kernel * insert_info) Z :=
  info ← udata;
  let page := ins_page info in
  e ← mcall (read_word entry);
  (if has e PAGE_PRESENT then
     old_page ← mcall (pa2page (PAGE_ADDR e));
     mcall (page_decref old_page);;
     kcall (tlb_invalidate (ins_pml4 info) base)
   else mret tt);;
  (if has (ins_flags info) PAGE_USER then
     t ← kcall cur_task;
     kcall (assert (negb (t =? NULL)));;
     kcall (assert (base <? USER_LIM));;
     vma ← kcall (task_find_vma t base);
     if vma =? NULL then halt Panic
     else
       v ← kcall (vma_get vma);
       mcall (page_upd page (set_rmap (vm_rmap v)));;
       kcall (lock_swap file 53);;
       mcall (add_swap_page page);;
       kcall unlock_swap
   else mcall (page_upd page (set_rmap NULL)));;
  mcall (page_upd page (λ p, set_ref (pp_ref p + 1) p));;
  mcall (write_word entry 0);;
  pa ← mcall (page2pa page);
  mcall (write_word entry pa);;
  e ← mcall (read_word entry);
  mcall (write_word entry (Z.lor e (ins_flags info)));;
  e ← mcall (read_word entry);
  mcall (write_word entry (Z.lor e PAGE_PRESENT));;
  mret 0.

(** The other levels ignore the result of [ptbl_alloc]. *)
Definition insert_pde (entry base end_ : Z) : M (kernel * insert_info) Z :=
  ptbl_alloc entry base end_;; mret 0.
Definition insert_pdpte (entry base end_ : Z) : M (kernel * insert_info) Z :=
  ptbl_alloc entry base end_;; mret 0.
Definition insert_pml4e (entry base end_ : Z) : M (kernel * insert_info) Z :=
  ptbl_alloc entry base end_;; mret 0.

Definition insert_walker (file : Z) : page_walker insert_info :=
  Walker (Some (insert_pte file)) (Some insert_pde) (Some insert_pdpte) (Some insert_pml4e)
    None None None None None.

Definition page_insert (file pml4 page va flags : Z) : M kernel Z :=
  '(ret, _) ← with_udata (InsertInfo pml4 page flags)
    (walk_page_range pml4 va (u64 (va + PAGE_SIZE)) (insert_walker file));
  mret ret.

(** ** kernel/mem/remove.c *)

(** [udata] is the [pml4] member of [struct remove_info].  The test
    [!( *entry * PAGE_PRESENT)] multiplies: it is true for a zero entry only. *)
Definition remove_pte (entry base end_ : Z) : M (kernel * Z) Z :=
  pml4 ← udata;
  e ← mcall (read_word entry);
  if u64 (e * PAGE_PRESENT) =? 0 then mret 0
  else
    page ← mcall (pa2page (PAGE_ADDR e));
    mcall (page_decref page);;
    mcall (write_word entry 0);;
    kcall (tlb_invalidate pml4 base);;
    mret 0.

Definition remove_pde (entry base end_ : Z) : M (kernel * Z) Z := mret 0.

Definition remove_walker : page_walker Z :=
  Walker (Some remove_pte) (Some remove_pde) None None
    (Some ptbl_free) (Some ptbl_free) (Some ptbl_free) (Some ptbl_free) None.

Definition unmap_page_range (pml4 va size : Z) : M kernel unit :=
  with_udata pml4 (walk_page_range pml4 va (u64 (va + size)) remove_walker);; mret tt.

Definition unmap_user_pages (pml4 : Z) : M kernel unit := unmap_page_range pml4 0 USER_LIM.

Definition page_remove (pml4 va : Z) : M kernel unit := unmap_page_range pml4 va PAGE_SIZE.

(** ** kernel/mem/protect.c *)

(** [struct protect_info]; its [base] and [end] are never read. *)
Record protect_info := ProtectInfo { pro_pml4 : Z; pro_flags : Z }.

Definition PROTECT_FLAGS : Z :=
  Z.lor (Z.lor (Z.lor PAGE_PRESENT PAGE_WRITE) PAGE_USER) PAGE_NO_EXEC.

(** [~flags] of a 64-bit word. *)
Definition not64 (x : Z) : Z := Z.lxor (u64 x) (2 ^ 64 - 1).

Definition protect_pte (entry base end_ : Z) : M (kernel * protect_info) Z :=
  info ← udata;
  e ← mcall (read_word entry);
  (if negb (Z.land e PROTECT_FLAGS =? pro_flags info) then
     mcall (write_word entry (Z.land e (not64 PROTECT_FLAGS)));;
     e ← mcall (read_word entry);
     mcall (write_word entry (Z.lor e (pro_flags info)));;
     e ← mcall (read_word entry);
     mcall (write_word entry (Z.lor e PAGE_PRESENT));;
     kcall (tlb_invalidate (pro_pml4 info) base)
   else mret tt);;
  mret 0.

Definition protect_pde (entry base end_ : Z) : M (kernel * protect_info) Z := mret 0.

Definition protect_walker : page_walker protect_info :=
  Walker (Some protect_pte) (Some protect_pde) None None None None None None None.

Definition protect_region (pml4 va size flags : Z) : M kernel unit :=
  with_udata (ProtectInfo pml4 flags) (walk_page_range pml4 va (u64 (va + size)) protect_walker);;
  mret tt.

(** ** kernel/mem/populate.c *)

(** [udata] is the [flags] member of [struct populate_info]; the string
    ["kernel/mem/populate.c"] is at [file]. *)
Definition populate_pte (file : Z) (entry base end_ : Z) : M (kernel * Z) Z :=
  flags ← udata;
  e ← mcall (read_word entry);
  kcall (assert (negb (has e PAGE_PRESENT)));;
  page ← mcall (page_alloc ALLOC_ZERO);
  if page =? NULL then mret (-1)
  else
    (if has flags PAGE_USER then
       t ← kcall cur_task;
       kcall (assert (negb (t =? NULL)));;
       vma ← kcall (task_find_vma t base);
       if vma =? NULL then halt Panic
       else
         v ← kcall (vma_get vma);
         mcall (page_upd page (set_rmap (vm_rmap v)));;
         kcall (lock_swap file 46);;
         mcall (add_swap_page page);;
         kcall unlock_swap
     else mcall (page_upd page (set_rmap NULL)));;
    mcall (page_upd page (λ p, set_ref (pp_ref p + 1) p));;
    mcall (write_word entry 0);;
    pa ← mcall (page2pa page);
    mcall (write_word entry pa);;
    e ← mcall (read_word entry);
    mcall (write_word entry (Z.lor e flags));;
    e ← mcall (read_word entry);
    mcall (write_word entry (Z.lor e PAGE_PRESENT));;
    kp ← kcall (gets kernel_pml4);
    kcall (tlb_invalidate kp base);;
    mret 0.

Definition populate_walker (file : Z) : page_walker Z :=
  Walker (Some (populate_pte file)) (Some ptbl_alloc) (Some ptbl_alloc) (Some ptbl_alloc)
    None None None None None.

Definition populate_region (file pml4 va size flags : Z) : M kernel unit :=
  with_udata flags (walk_page_range pml4 va (u64 (va + size)) (populate_walker file));; mret tt.

(** ** kernel/mem/map.c *)

(** [struct boot_map_info]; [pml4], [base] and [end] are never read. *)
Record boot_map_info := BootMapInfo { bm_flags : Z; bm_pa : Z }.

Definition boot_map_pte (entry base end_ : Z) : M (kernel * boot_map_info) Z :=
  info ← udata;
  mcall (write_word entry 0);;
  mcall (write_word entry (bm_pa info));;
  e ← mcall (read_word entry);
  mcall (write_word entry (Z.lor e (bm_flags info)));;
  e ← mcall (read_word entry);
  mcall (write_word entry (Z.lor e PAGE_PRESENT));;
  set_udata (BootMapInfo (bm_flags info) (u64 (bm_pa info + PAGE_SIZE)));;
  mret 0.

Definition boot_map_pde (entry base end_ : Z) : M (kernel * boot_map_info) Z := ptbl_alloc entry base end_.
Definition boot_map_pdpte (entry base end_ : Z) : M (kernel * boot_map_info) Z := ptbl_alloc entry base end_.
Definition boot_map_pml4e (entry base end_ : Z) : M (kernel * boot_map_info) Z := ptbl_alloc entry base end_.

Definition boot_map_walker : page_walker boot_map_info :=
  Walker (Some boot_map_pte) (Some boot_map_pde) (Some boot_map_pdpte) (Some boot_map_pml4e)
    None None None None None.

Definition boot_map_region (pml4 va size pa flags : Z) : M kernel unit :=
  with_udata (BootMapInfo flags pa) (walk_page_range pml4 va (u64 (va + size)) boot_map_walker);;
  mret tt.

Definition mmio_map_region (pa size : Z) : M kernel Z :=
  let size := ROUNDUP size PAGE_SIZE in
  base ← gets mmio_base;
  assert (u64 (base + size) <? MMIO_LIM);;
  pml4 ← gets kernel_pml4;
  boot_map_region pml4 base size pa
    (Z.lor PAGE_PRESENT (Z.lor PAGE_WRITE (Z.lor PAGE_NO_EXEC (Z.lor PAGE_WRITE_THROUGH PAGE_NO_CACHE))));;
  modify (λ k, set_mmio_base (u64 (base + size)) k);;
  mret base.

(** [struct elf_proghdr] without [p_align], which is never read. *)
Record elf_proghdr := ProgHdr {
  p_type : Z; p_flags : Z; p_offset : Z; p_va : Z; p_pa : Z; p_filesz : Z; p_memsz : Z }.

Fixpoint map_headers (pml4 : Z) (hdrs : list elf_proghdr) : M kernel unit :=
  match hdrs with
  | [] => mret tt
  | hdr :: hdrs =>
      (if KERNEL_VMA <? p_va hdr then
         boot_map_region pml4 (p_va hdr) (p_memsz hdr) (p_pa hdr) (convert_flags_from_elf_to_pages (p_flags hdr))
       else mret tt);;
      map_headers pml4 hdrs
  end.

(** [prog_hdrs] are the [e_phnum] program headers at [e_phoff]. *)
Definition boot_map_kernel (pml4 : Z) (prog_hdrs : list elf_proghdr) : M kernel unit :=
  boot_map_region pml4 KERNEL_VMA BOOT_MAP_LIM 0 (Z.lor (Z.lor PAGE_PRESENT PAGE_WRITE) PAGE_NO_EXEC);;
  map_headers pml4 prog_hdrs.
End tables.

(** ** kernel/mem/user.c *)

(** [struct user_info]. *)
Record user_info := UserInfo { ui_va : Z; ui_flags : Z }.

Definition check_user_hole (base end_ : Z) : M (kernel * user_info) Z :=
  info ← udata; set_udata (UserInfo base (ui_flags info));; mret (-1).

Definition check_user_pte (entry base end_ : Z) : M (kernel * user_info) Z :=
  info ← udata;
  e ← mcall (read_word entry);
  if negb (Z.land e (ui_flags info) =? ui_flags info) then
    set_udata (UserInfo base (ui_flags info));; mret (-1)
  else mret 0.

Definition check_user_pde (entry base end_ : Z) : M (kernel * user_info) Z :=
  info ← udata;
  e ← mcall (read_word entry);
  if negb (Z.land e (ui_flags info) =? ui_flags info) then
    set_udata (UserInfo base (ui_flags info));; mret (-1)
  else mret 0.

Definition user_walker : page_walker user_info :=
  Walker (Some check_user_pte) (Some check_user_pde) None None None None None None (Some check_user_hole).

(** The result and [*fault_va]; members the initialiser leaves out are zero. *)
Definition check_user_mem (pml4 va size flags : Z) : M kernel (Z * Z) :=
  '(ret, info) ← with_udata (UserInfo 0 (Z.lor (Z.lor flags PAGE_PRESENT) PAGE_USER))
    (walk_page_range pml4 va (u64 (va + size)) user_walker);
  mret (ret, ui_va info).
