(* ===== verification/PageTableProofs.v ===== *)
(** * Page table operations and the frame allocator

    [space] is the invariant that ties an address space to the allocator:
    the tables are in use, referenced once and described by [T].  The file
    proves what [ptbl_alloc] and [ptbl_free] do to it and derives a rule for
    walks that allocate tables on the way. *)

From S2P Require Import Prelude LinkedList Paging Spinlock Buddy BuddyProofs RbTree Kernel PageWalk PageWalkProofs AddrSpace PageTable.

Local Open Scope Z_scope.

(** ** Accessing entries *)

(** The direct-map address of frame [f]. *)
Definition kva (f : Z) : Z := f * PAGE_SIZE + KERNEL_VMA.

Lemma kva_ptr f i : 0 ≤ i < 512 → PAGE_INDEX (entry_ptr (kva f) i - KERNEL_VMA) = f ∧ word_of (entry_ptr (kva f) i) = i.
Proof.
  intros Hi. unfold entry_ptr, kva, word_of, PAGE_SIZE, KERNEL_VMA. rewrite PAGE_INDEX_div. split; mlia.
Qed.

Lemma kva_backed m f i : 0 ≤ f < npages m → 0 ≤ i < 512 → backed m (entry_ptr (kva f) i) = true.
Proof.
  intros Hf Hi. unfold backed, entry_ptr, kva, PAGE_SIZE.
  apply andb_true_iff. split; [apply Z.leb_le|apply Z.ltb_lt]; lia.
Qed.

Lemma wp_read_entry f i m (Q : Z → mem → Prop) : 0 ≤ f < npages m → 0 ≤ i < 512 →
  Q (entry (phys m) f i) m → wp (read_word (entry_ptr (kva f) i)) Q m.
Proof.
  intros Hf Hi HQ. unfold read_word. wp_step. wp_step. rewrite kva_backed by done. wp_step.
  unfold word_at. destruct (kva_ptr f i Hi) as [-> ->]. exact HQ.
Qed.

Lemma wp_write_entry f i v m (Q : unit → mem → Prop) : 0 ≤ f < npages m → 0 ≤ i < 512 →
  Q tt (set_phys (set_entry f i (u64 v) (phys m)) m) → wp (write_word (entry_ptr (kva f) i) v) Q m.
Proof.
  intros Hf Hi HQ. unfold write_word. wp_step. wp_step. rewrite kva_backed by done. wp_step.
  unfold set_word. destruct (kva_ptr f i Hi) as [-> ->]. exact HQ.
Qed.

Lemma wp_kcall {U A} (c : M kernel A) (Q : A → kernel * U → Prop) k u :
  wp c (λ a k', Q a (k', u)) k → wp (kcall c) Q (k, u).
Proof. intros Hc. unfold kcall. apply wp_zoom. exact Hc. Qed.

Lemma wp_mcall {U A} (c : M mem A) (Q : A → kernel * U → Prop) k u :
  wp c (λ a m, Q a (set_km m k, u)) (km k) → wp (mcall c) Q (k, u).
Proof. intros Hc. unfold mcall, on_km. apply wp_kcall. apply wp_zoom. exact Hc. Qed.

Lemma wp_on_km {A} (c : M mem A) (Q : A → kernel → Prop) k :
  wp c (λ a m, Q a (set_km m k)) (km k) → wp (on_km c) Q k.
Proof. intros Hc. unfold on_km. by apply wp_zoom. Qed.

Lemma wp_KADDR e m (Q : Z → mem → Prop) : 0 ≤ frame_of e < npages m → npages m < 2 ^ 31 →
  Q (kva (frame_of e)) m → wp (KADDR (PAGE_ADDR e)) Q m.
Proof.
  intros Hf Hn HQ. unfold KADDR. wp_step. wp_step. unfold frame_of in *.
  rewrite (proj2 (Z.leb_gt _ _)) by lia. wp_step.
  replace (u64 (PAGE_ADDR e + KERNEL_VMA)) with (kva (PAGE_INDEX (PAGE_ADDR e))); [done|].
  assert (PAGE_ADDR e `mod` 4096 = 0) as Hm.
  { unfold PAGE_ADDR. rewrite <-(land_ones_mod _ 12), <-Z.land_assoc by done.
    change (Z.land (Z.lxor PAGE_MASK (2 ^ 64 - 1)) (2 ^ 12 - 1)) with 0. by rewrite Z.land_0_r. }
  unfold kva, u64. rewrite PAGE_INDEX_div in *. unfold PAGE_SIZE, KERNEL_VMA in *. mlia.
Qed.

(** The entry [ptbl_alloc] and the mapping functions write. *)
Definition make_entry (c flags : Z) : Z := Z.lor (c * PAGE_SIZE) flags.

Lemma make_entry_frame c flags : 0 ≤ c < 2 ^ 31 → PAGE_ADDR flags = 0 → frame_of (make_entry c flags) = c.
Proof.
  intros Hc Hf. unfold frame_of, make_entry. rewrite PAGE_ADDR_entry by (done || lia).
  apply page_index_mul.
Qed.

Lemma make_entry_flag c flags f : 0 ≤ c → 0 ≤ f < 4096 → has (make_entry c flags) f = has flags f.
Proof. intros Hc Hf. unfold make_entry. by rewrite has_lor, frame_no_flag. Qed.

Lemma u64_lor x y : 0 ≤ x < 2 ^ 64 → 0 ≤ y < 2 ^ 64 → u64 (Z.lor x y) = Z.lor x y.
Proof.
  intros Hx Hy. unfold u64. rewrite <-Z.land_ones by lia. rewrite Z.land_lor_distr_l, !Z.land_ones by lia.
  by rewrite !Z.mod_small by lia.
Qed.

Lemma u64_id x : 0 ≤ x < 2 ^ 64 → u64 x = x.
Proof. apply Z.mod_small. Qed.

(** ** Free frames *)

(** At least [a] frames are free. *)
Definition avail (g : blocks) (a : Z) : Prop :=
  ∃ F : gset Z, (∀ x, free_frame g x ↔ x ∈ F) ∧ a ≤ Z.of_nat (size F).

Lemma avail_weaken g a b : avail g a → b ≤ a → avail g b.
Proof. intros (F & ? & ?) ?. exists F. split; [done|lia]. Qed.

Lemma avail_nonempty g a : avail g (a + 1) → 0 ≤ a → g ≠ ∅.
Proof.
  intros (F & HF & Hs) Ha ->. assert (F = ∅) as ->; [|rewrite size_empty in Hs; lia].
  apply set_eq. intros x. rewrite <-HF. split; [|set_solver]. intros (i & o & Hi & _). set_solver.
Qed.

Lemma avail_take g g' k a : avail g (a + 1) → free_frame g k →
  (∀ j, free_frame g' j ↔ free_frame g j ∧ j ≠ k) → avail g' a.
Proof.
  intros (F & HF & Hs) Hk Hg. exists (F ∖ {[k]}). split; [set_solver|].
  rewrite size_difference, size_singleton by (apply HF in Hk; set_solver).
  assert (1 ≤ size F)%nat; [|lia]. apply HF in Hk.
  rewrite <-(size_singleton (C:=gset Z) k). apply subseteq_size. set_solver.
Qed.

Lemma free_frame_exists g k : free_frame g k ↔ Exists (λ io, io.1 ≤ k < io.1 + 2 ^ io.2) (map_to_list g).
Proof.
  rewrite Exists_exists. split.
  - intros (i & o & Hio & Hk). exists (i, o). by rewrite elem_of_map_to_list.
  - intros ([i o] & Hio%elem_of_map_to_list & Hk). by exists i, o.
Qed.

#[local] Instance free_frame_dec g k : Decision (free_frame g k).
Proof.
  destruct (decide (Exists (λ io, io.1 ≤ k < io.1 + 2 ^ io.2) (map_to_list g))) as [E|E];
    [left|right]; by rewrite free_frame_exists.
Defined.

(** Dropping a reference can only free frames. *)
Lemma avail_more n g g' a b : avail g a → b ≤ a → shape_ok n g' → (∀ x, free_frame g x → free_frame g' x) → avail g' b.
Proof.
  intros (F & HF & Hs) Hb Hsh Hsub.
  set (F' := filter (free_frame g') (list_to_set (seqZ 0 n) : gset Z)).
  assert (∀ x, free_frame g' x ↔ x ∈ F') as HF'.
  { intros x. unfold F'. rewrite elem_of_filter, elem_of_list_to_set, elem_of_seqZ. split; [|tauto].
    intros Hx. split; [done|]. pose proof (free_frame_range n g' x Hsh Hx). lia. }
  exists F'. split; [done|]. assert (size F ≤ size F')%nat; [|lia].
  apply subseteq_size. intros x Hx%HF. by apply HF', Hsub.
Qed.

(** ** The address space invariant *)

Section space.
Context `{Layout} (base n root : Z).
Implicit Types (k : kernel) (g : blocks) (T : tmap).

Record space k g T : Prop := {
  sp_buddy : buddy_inv base n (km k) g;
  sp_tables : pt_ok n T (phys (km k)) root;
  sp_used p f : T !! p = Some f → ¬ free_frame g f;
  sp_refs p f : T !! p = Some f → p ≠ [] → pp_ref <$> infos (km k) !! pg base f = Some 1;
  sp_zero a p : infos (km k) !! a = Some p → pp_zero p = 0;
}.

(** What adding tables leaves alone. *)
Record grown k g T k' g' T' : Prop := {
  gr_tables : T ⊆ T';
  gr_new p f : T' !! p = Some f → T !! p = Some f ∨ free_frame g f;
  gr_view j : view T' (phys (km k')) j = view T (phys (km k)) j;
  gr_rest : k' = set_km (km k') k;
  gr_free j : free_frame g' j → free_frame g j;
  gr_infos j : 0 ≤ j < n → ¬ free_frame g j → infos (km k') !! pg base j = infos (km k) !! pg base j;
  gr_data j : ¬ free_frame g j → (∀ p, T !! p ≠ Some j) → phys (km k') !! j = phys (km k) !! j;
  gr_heap : only (buddy_addr base n) (heap (km k)) (heap (km k'));
  gr_swap b : swap_list base n b (heap (km k)) → swap_list base n b (heap (km k'));
  gr_cpu : this_cpu (km k') = this_cpu (km k);
}.

Lemma set_km_id k : set_km (km k) k = k.
Proof. by destruct k. Qed.

Lemma grown_refl k g T : grown k g T k g T.
Proof. split; try done; [by left|by rewrite set_km_id]. Qed.

Context (L : layout_ok base n).

Lemma space_npages k g T : space k g T → npages (km k) = n.
Proof. intros [[[? ?]] ? ? ?]. done. Qed.

Lemma space_frame k g T p f : space k g T → T !! p = Some f → 0 ≤ f < npages (km k).
Proof. intros Hs Hp. rewrite (space_npages _ _ _ Hs). by eapply pt_range; [apply Hs|]. Qed.

Lemma layout_small : n < 2 ^ 31.
Proof. apply (layout_npages _ _ L). Qed.

(** Rewriting the entry a table hangs from: the three stores of [ptbl_alloc]
    and of the mapping callbacks are one store. *)
Lemma set_entry_twice f i v w ph : set_entry f i v (set_entry f i w ph) = set_entry f i v ph.
Proof. unfold set_entry. rewrite lookup_insert_eq. simpl. by rewrite insert_insert_eq, insert_insert_eq. Qed.

Lemma store_entry_spec {U A} f i pp flags k (u : U) (c : M (kernel * U) A) Q :
  0 ≤ f < npages (km k) → 0 ≤ i < 512 → pages (km k) = base → 0 ≤ pp < 2 ^ 31 → 0 ≤ flags < 2 ^ 64 →
  wp c Q (set_km (set_phys (set_entry f i (make_entry pp flags) (phys (km k))) (km k)) k, u) →
  wp (mcall (write_word (entry_ptr (kva f) i) 0);;
      pa ← mcall (page2pa (pg base pp));
      mcall (write_word (entry_ptr (kva f) i) pa);;
      e ← mcall (read_word (entry_ptr (kva f) i));
      mcall (write_word (entry_ptr (kva f) i) (Z.lor e flags));; c) Q (k, u).
Proof.
  intros Hf Hi Hb Hpp Hfl HQ. wp_step. apply wp_mcall, wp_write_entry; [done|done|].
  wp_step. apply wp_mcall, wp_page2pa; [done|done|]. wp_step. apply wp_mcall, wp_write_entry; [done|done|].
  wp_step. apply wp_mcall, wp_read_entry; [done|done|]. simpl phys. rewrite entry_set, decide_True by done.
  wp_step. apply wp_mcall, wp_write_entry; [done|done|]. simpl. rewrite !set_entry_twice.
  rewrite (u64_id (pp * PAGE_SIZE)) by (unfold PAGE_SIZE; lia).
  rewrite u64_lor by (unfold PAGE_SIZE; lia). by destruct k.
Qed.

Definition TABLE_FLAGS : Z := Z.lor (Z.lor PAGE_PRESENT PAGE_WRITE) PAGE_USER.

(** [ptbl_alloc] makes sure a table hangs below the entry. *)
Lemma ptbl_alloc_spec {U} k (u : U) g T p f i b e a : space k g T → T !! p = Some f → (length p < 3)%nat →
  0 ≤ i < 512 → avail g (a + 1) → 0 ≤ a →
  wp (ptbl_alloc (entry_ptr (kva f) i) b e) (λ r w, r = 0 ∧ ∃ k' g' T' c, w = (k', u) ∧
    space k' g' T' ∧ T' !! (p ++ [i]) = Some c ∧ grown k g T k' g' T' ∧ avail g' a) (k, u).
Proof.
  intros Hs Hp Hl Hi Ha Ha0. pose proof Hs as [Hb Ht Hu Hr Hz]. pose proof layout_small as Hn.
  pose proof (space_frame _ _ _ _ _ Hs Hp) as Hf. pose proof (space_npages _ _ _ Hs) as Enp.
  unfold ptbl_alloc. wp_step. apply wp_mcall, wp_read_entry; [done|done|]. rewrite set_km_id.
  destruct (T !! (p ++ [i])) as [c|] eqn:Ec.
  { destruct (pt_child_Some n root T _ p f i c Ht Hp Hl Hi Ec) as (-> & _). wp_step. split; [done|].
    exists k, g, T, c. split; [done|]. split; [done|]. split; [done|]. split; [apply grown_refl|].
    eapply avail_weaken; [done|lia]. }
  rewrite (pt_child_None n root T _ p f i Ht Hp Hl Hi Ec).
  wp_step. apply wp_mcall. eapply wp_mono; [eapply (page_alloc_spec base n L); [done|by eapply avail_nonempty]|].
  intros r m1 (c & g1 & -> & Hc & Hb1 & Hff & Hk & Hcl & Hzero). change (has ALLOC_ZERO ALLOC_ZERO) with true in Hzero.
  assert (0 ≤ c < n) as Hcn by (by eapply free_frame_range; [apply Hb|]).
  rewrite (proj2 (Z.eqb_neq _ _)) by (pose proof (pg_pos base n L c); unfold NULL; lia).
  destruct (used_info base n m1 g1 c Hb1 Hcn) as [p1 Hp1].
  destruct (used_info base n (km k) g c Hb Hcn) as [p0 Hp0]. rewrite Hp1, Hp0 in Hcl. injection Hcl as Er1 Ez1 _.
  assert (pp_ref p1 = 0) as Er. { rewrite Er1. by eapply (inv_free_refs base n); [apply Hb| |]. }
  wp_step. apply wp_mcall. eapply wp_page_upd; [exact Hp1|]. simpl.
  set (p2 := set_ref (pp_ref p1 + 1) p1). set (m2 := set_infos _ _).
  assert (buddy_inv base n m2 g1) as Hb2.
  { eapply buddy_inv_upd; [done|done| |done|done|done]. rewrite Hff. tauto. }
  assert (phys m1 !! c = None) as Hzc by (eapply Hzero; [done|]; by eapply Hz).
  pose proof Hb2 as [[Epg Enp2 _ _ _] _ _ _ _ _ _].
  apply store_entry_spec; [change (0 ≤ f < npages m2); lia|done|done|lia|done|]. wp_step. split; [done|].
  set (ph := set_entry f i (make_entry c TABLE_FLAGS) (phys m2)). change (phys m2) with (phys m1) in ph.
  assert (∀ q x, T !! q = Some x → x ≠ c) as Hxc by (intros q x Hq ->; by eapply Hu).
  assert (∀ q x, T !! q = Some x → phys m1 !! x = phys (km k) !! x) as Heq.
  { intros q x Hq. apply (kept_phys _ _ _ _ _ _ Hk). eauto. }
  assert (pt_ok n T (phys m1) root) as Ht1 by (by eapply pt_ok_ext).
  assert (∀ q, T !! q ≠ Some c) as Hnc by (intros q Hq; by eapply Hxc).
  eexists _, g1, (<[p ++ [i] := c]> T), c. split; [done|]. split; [split|split; [by rewrite lookup_insert_eq|split; [split|]]]; simpl.
  - by apply buddy_inv_phys.
  - apply pt_add; try done; [by rewrite make_entry_flag; [|lia|]..|by apply make_entry_frame; [lia|]].
  - intros q x. rewrite lookup_insert. case_decide; subst; rewrite Hff; [naive_solver|]. intros Hq [Hx _]. by eapply Hu.
  - intros q x. rewrite lookup_insert. case_decide; subst.
    + intros [= <-] _. rewrite lookup_insert_eq. simpl. rewrite Er. done.
    + intros Hq Hqn. pose proof (Hxc q x Hq). rewrite lookup_insert_ne by (by intros ?%pg_inj).
      rewrite (kept_infos _ _ _ _ _ _ Hk); [by eapply Hr|by eapply pt_range|by eapply Hu|done].
  - intros x q. rewrite lookup_insert. case_decide; subst.
    + intros [= <-]. simpl. rewrite Ez1. by eapply Hz.
    + intros Hq. destruct (kept_zero _ _ _ _ _ _ Hk x q Hq) as [?|Hq']; [done|].
      destruct (infos (km k) !! x) eqn:E; [|done]. injection Hq' as <-. by eapply Hz.
  - apply insert_subseteq. done.
  - intros q x. rewrite lookup_insert. case_decide; subst; naive_solver.
  - intros j. rewrite (view_add n root) by done. by apply view_ext.
  - by destruct k.
  - intros j. rewrite Hff. tauto.
  - intros j Hj Hjf. rewrite lookup_insert_ne by (intros <-%pg_inj; done).
    apply (kept_infos _ _ _ _ _ _ Hk); [done|done|]. intros ->. done.
  - intros j Hjf HjT. unfold ph, set_entry. rewrite lookup_insert_ne by (intros ->; by eapply HjT).
    apply (kept_phys _ _ _ _ _ _ Hk). intros ->. done.
  - apply Hk.
  - apply Hk.
  - apply Hk.
  - by eapply avail_take.
Qed.

(** ** How the invariant follows changes of the state *)

Lemma space_km k k' g T : space k g T → km k' = km k → space k' g T.
Proof. intros [? ? ? ? ?] E. split; by rewrite ?E. Qed.

(** A page that is not a table may change its [page_info]. *)
Lemma space_info k g T x i i' : space k g T → 0 ≤ x < n → ¬ free_frame g x → (∀ p, T !! p ≠ Some x) →
  infos (km k) !! pg base x = Some i → pp_order i' = pp_order i → pp_free i' = pp_free i → pp_zero i' = pp_zero i →
  space (set_km (set_infos (<[pg base x := i']> (infos (km k))) (km k)) k) g T.
Proof.
  intros [Hb Ht Hu Hr Hz] Hx Hnf HT Hi Eo Ef Ez. split; simpl; try done.
  - by eapply buddy_inv_upd.
  - intros p f Hp Hpn. rewrite lookup_insert_ne; [by eapply Hr|]. intros ->%pg_inj. by eapply HT.
  - intros a q. rewrite lookup_insert. case_decide; [intros [= <-]; rewrite Ez|]; eauto.
Qed.

Lemma space_swap k g T h : space k g T → only (swap_addr base n) (heap (km k)) h → swap_ok base n h →
  space (set_km (set_heap h (km k)) k) g T.
Proof. intros [Hb Ht Hu Hr Hz] Ho Hs. split; simpl; try done. by apply buddy_inv_swap. Qed.

(** An allocator operation on a frame that is not a table. *)
Lemma space_others k g T x m' g' : space k g T → (∀ p, T !! p ≠ Some x) → buddy_inv base n m' g' →
  others_kept base n g x (km k) m' → (∀ y, free_frame g' y → free_frame g y ∨ y = x) →
  space (set_km m' k) g' T.
Proof.
  intros [Hb Ht Hu Hr Hz] HT Hb' Hk Hff. split; simpl; try done.
  - eapply pt_ok_ext; [done|]. intros p f Hp. apply (kept_phys _ _ _ _ _ _ Hk). intros ->. by eapply HT.
  - intros p f Hp Hf. apply Hff in Hf as [?| ->]; [by eapply Hu|by eapply HT].
  - intros p f Hp Hpn. rewrite (kept_infos _ _ _ _ _ _ Hk); [by eapply Hr|by eapply pt_range|by eapply Hu|].
    intros ->. by eapply HT.
  - intros a q Hq. destruct (kept_zero _ _ _ _ _ _ Hk a q Hq) as [?|Hq']; [done|].
    destruct (infos (km k) !! a) eqn:E; [|done]. injection Hq' as <-. by eapply Hz.
Qed.

(** ** Walks that allocate tables *)

(** How many spans of [C] pages the pages [j..q-1] touch. *)
Definition spans (C j q : Z) : Z := if j <? q then (q - 1) `div` C - j `div` C + 1 else 0.

Lemma spans_step C j q : 0 < C → j < q → spans C j q = spans C (chunk_end C j q) q + 1.
Proof.
  intros HC Hj. unfold spans. rewrite (proj2 (Z.ltb_lt j q)) by done.
  destruct (Z.ltb_spec (chunk_end C j q) q) as [Hc|Hc].
  - assert (chunk_end C j q `div` C = j `div` C + 1) as ->; [|lia].
    unfold chunk_end in *. rewrite Z.min_r by lia. apply Z.div_mul. lia.
  - assert ((q - 1) `div` C = j `div` C); [|lia]. unfold chunk_end in Hc.
    symmetry. apply (Z.div_unique _ _ _ (q - 1 - C * (j `div` C))); [|lia].
    left. pose proof (Z.mul_div_le j C HC). lia.
Qed.

Lemma spans_nonneg C j q : 0 < C → 0 ≤ spans C j q.
Proof.
  intros HC. unfold spans. destruct (Z.ltb_spec j q); [|lia].
  pose proof (Z.div_le_mono j (q - 1) C HC). lia.
Qed.

Lemma chunk_end_same C j q : 0 < C → j < q → (chunk_end C j q - 1) `div` C = j `div` C.
Proof.
  intros HC Hj. pose proof (chunk_end_gt C j q HC Hj). unfold chunk_end in *.
  symmetry. apply (Z.div_unique _ _ _ (Z.min q ((j `div` C + 1) * C) - 1 - C * (j `div` C))); [|lia].
  left. pose proof (Z.mul_div_le j C HC). lia.
Qed.

(** Cutting at a boundary of larger spans cuts no span. *)
Lemma spans_split C D j q : D `mod` C = 0 → 0 < C ∧ 0 < D ∧ j < q →
  spans C j q = spans C j (chunk_end D j q) + spans C (chunk_end D j q) q.
Proof.
  intros HD (HC & HD0 & Hj). pose proof (chunk_end_gt D j q HD0 Hj) as Hc.
  unfold spans at 1 2. rewrite !(proj2 (Z.ltb_lt j _)) by lia. unfold spans.
  destruct (Z.ltb_spec (chunk_end D j q) q) as [Hlt|]; [|replace (chunk_end D j q) with q by lia; lia].
  assert (chunk_end D j q = (j `div` D + 1) * D) as -> by (unfold chunk_end in *; lia).
  apply Z.div_exact in HD; [|lia].
  assert (((j `div` D + 1) * D - 1) `div` C = ((j `div` D + 1) * D) `div` C - 1) as ->; [|lia].
  set (x := j `div` D + 1). replace (x * D) with (x * (D `div` C) * C) by lia. rewrite Z.div_mul by lia.
  symmetry. apply (Z.div_unique _ _ _ (C - 1)); lia.
Qed.

(** Pages of one span have the same path. *)
Lemma path1_same j l : j `div` 512 = l `div` 512 → path1 j = path1 l.
Proof.
  intros E. unfold path1, path2, path3, i1, i2, i3.
  change 262144 with (512 * 512). change 134217728 with (512 * (512 * 512)).
  by rewrite <-!Z.div_div, E by lia.
Qed.
Lemma path2_same j l : j `div` 262144 = l `div` 262144 → path2 j = path2 l.
Proof.
  intros E. unfold path2, path3, i2, i3. change 134217728 with (262144 * 512).
  by rewrite <-!Z.div_div, E by lia.
Qed.
Lemma path3_same j l : j `div` 134217728 = l `div` 134217728 → path3 j = path3 l.
Proof. unfold path3, i3. by intros ->. Qed.

Definition allocates {U} (cb : option (Z → Z → Z → M (kernel * U) Z)) : Prop :=
  ∃ c, cb = Some c ∧ ∀ en b e s Q, wp (ptbl_alloc en b e) (λ r t, r = 0 ∧ Q 0 t) s → wp (c en b e) Q s.

Section alloc_walk.
Context {U : Type} (w : page_walker U) (J : Z → blocks → tmap → kernel * U → Prop) (K : Z).
Context (HK : 0 ≤ K).

(** The walk is at page [j] with [a] frames to spare. *)
Definition at_page (a : Z) (T0 : tmap) (j : Z) (s : kernel * U) : Prop :=
  ∃ g T, space s.1 g T ∧ T0 ⊆ T ∧ J j g T s ∧ avail g a.

Record walker_ok (p0 q0 : Z) : Prop := {
  wk_pde : allocates (pde_callback w);
  wk_pdpte : allocates (pdpte_callback w);
  wk_pml4e : allocates (pml4e_callback w);
  wk_rest : pte_unmap w = None ∧ pde_unmap w = None ∧ pdpte_unmap w = None ∧ pml4e_unmap w = None ∧
    pt_hole_callback w = None;
  wk_grow j k u g T k' g' T' : p0 ≤ j < q0 → space k g T → space k' g' T' → J j g T (k, u) → grown k g T k' g' T' → J j g' T' (k', u);
  wk_pte j k u g T f a e : p0 ≤ j < q0 → space k g T → J j g T (k, u) → T !! path1 j = Some f →
    avail g (K + a) → 0 ≤ a →
    wp (call (pte_callback w) (entry_ptr (kva f) (i0 j)) (4096 * j) e)
      (λ r t, r = 0 ∧ ∃ g', space t.1 g' T ∧ J (j + 1) g' T t ∧ avail g' a) (k, u);
}.

Context (p0 q0 : Z) (W : walker_ok p0 q0).

Lemma at_page_weaken a T0 T1 j s : at_page a T1 j s → T0 ⊆ T1 → at_page a T0 j s.
Proof. intros (g & T & ? & ? & ? & ?) ?. exists g, T. split_and!; try done. by transitivity T1. Qed.

Lemma alloc_walk0 T0 p q f e a s : one_half p q → p0 ≤ p < q → q ≤ q0 → (q - 1) `div` 512 = p `div` 512 →
  near 4 q e → e < 4096 * q → T0 !! path1 p = Some f → 0 ≤ a → at_page (K * (q - p) + a) T0 p s →
  wp (ptbl_walk_range (kva f) (4096 * p) e w) (λ r t, r = 0 ∧ at_page a T0 q t) s.
Proof.
  intros Hh Hp Hq Hsame Hn He Hf Ha Hat.
  eapply (ptbl_walk_rule _ _ (λ j t, at_page (K * (q - j) + a) T0 j t) _ p q); [done|lia|done|done|done| | |done].
  2: { intros t Ht. split; [done|]. by replace (K * (q - q) + a) with a in Ht by lia. }
  intros j next [k u] Hj (g & T & Hs & HT & HJ & Hav) Hnext.
  assert (chunk_end 1 j q = j + 1) as -> by (unfold chunk_end; rewrite Z.div_1_r; lia).
  assert (T !! path1 j = Some f) as Hfj.
  { rewrite (path1_same j p) by mlia. eapply lookup_weaken; done. }
  unfold ptbl_visit. rewrite PT_index. apply wp_try.
  eapply wp_mono; [eapply (wk_pte _ _ W j k u g T f (K * (q - (j + 1)) + a)); try done; [lia|replace (K + _) with (K * (q - j) + a) by lia; done|nia]|].
  cbv beta. intros r [k1 u1] (-> & g1 & Hs1 & HJ1 & Hav1). simpl in Hs1. change (0 <? 0) with false. cbv iota.
  wp_step. apply wp_mcall, wp_read_entry; [by eapply space_frame|apply index_bounds|]. rewrite set_km_id.
  destruct (wk_rest _ _ W) as (Eu & _ & _ & _ & Eh). unfold call_hole. rewrite Eu, Eh.
  assert (at_page (K * (q - (j + 1)) + a) T0 (j + 1) (k1, u1)) as Hdone by (by exists g1, T).
  wp_if E; apply wp_try; simpl; apply wp_ret; simpl; apply wp_ret; exact Hdone.
Qed.

Lemma near_prev d j l x : near d l x → d ≤ 3 → 0 ≤ j < l → l ≤ 2 ^ 52 → u64 (x - 1) = x - 1 ∧ near (d + 1) l (x - 1) ∧ x - 1 < 4096 * l.
Proof. intros Hn Hd Hj Hl. unfold near in *. rewrite u64_id; lia. Qed.

Lemma one_half_range p q : one_half p q → p < q → 0 ≤ p ∧ q ≤ 2 ^ 52.
Proof. unfold one_half. lia. Qed.

(** The first half of a visit above the page tables: after the callback the
    entry points to a table. *)
Lemma alloc_visit (cb : option (Z → Z → Z → M (kernel * U) Z)) T0 j i pth f b e a k u (c : M (kernel * U) Z) Q :
  p0 ≤ j < q0 → allocates cb → T0 !! pth = Some f → (length pth < 3)%nat → 0 ≤ i < 512 → 0 ≤ a →
  at_page (a + 1) T0 j (k, u) →
  (∀ k1 T1 f1, T0 ⊆ T1 → T1 !! (pth ++ [i]) = Some f1 → at_page a T1 j (k1, u) →
    let en := entry (phys (km k1)) f i in
    has en PAGE_PRESENT = true → has en PAGE_HUGE = false → frame_of en = f1 →
    0 ≤ f < npages (km k1) → 0 ≤ f1 < npages (km k1) → npages (km k1) < 2 ^ 31 → wp c Q (k1, u)) →
  wp (try_ (call cb (entry_ptr (kva f) i) b e) c) Q (k, u).
Proof.
  intros Hj (cf & -> & Hcb) Hf Hl Hi Ha (g & T & Hs & HT & HJ & Hav) HQ. apply wp_try. simpl. apply Hcb.
  assert (T !! pth = Some f) as Hf' by (by eapply lookup_weaken).
  eapply wp_mono; [by eapply ptbl_alloc_spec|].
  cbv beta. intros r t (-> & k1 & g1 & T1 & f1 & -> & Hs1 & Hf1 & Hgr & Hav1). split; [done|].
  change (0 <? 0) with false. cbv iota.
  assert (T ⊆ T1) as HT1 by apply Hgr. simpl in Hs, Hs1.
  assert (T1 !! pth = Some f) as Hf1' by (by eapply lookup_weaken).
  destruct (pt_child_Some n root T1 (phys (km k1)) pth f i f1) as (? & ? & ?); [apply Hs1|done|done|done|done|].
  apply (HQ k1 T1 f1); try done.
  - by transitivity T.
  - exists g1, T1. split; [done|]. split; [done|]. split; [eapply (wk_grow _ _ W); [exact Hj|exact Hs|exact Hs1|exact HJ|exact Hgr]|done].
  - by eapply space_frame.
  - by eapply space_frame.
  - rewrite (space_npages _ _ _ Hs1). apply layout_small.
Qed.

Lemma alloc_walk1 T0 p q f e a s : one_half p q → p0 ≤ p < q → q ≤ q0 →
  (q - 1) `div` (512 * 512) = p `div` (512 * 512) → near 3 q e → e < 4096 * q →
  T0 !! path2 p = Some f → 0 ≤ a → at_page (K * (q - p) + spans 512 p q + a) T0 p s →
  wp (pdir_walk_range (kva f) (4096 * p) e w) (λ r t, r = 0 ∧ at_page a T0 q t) s.
Proof.
  intros Hh Hp Hq Hsame Hn He Hf Ha Hat.
  eapply (pdir_walk_rule _ _ (λ j t, at_page (K * (q - j) + spans 512 j q + a) T0 j t) _ p q);
    [done|lia|done|done|done| | |done].
  2: { intros t Ht. split; [done|]. unfold spans in Ht. rewrite Z.ltb_irrefl in Ht.
       by replace (K * (q - q) + 0 + a) with a in Ht by lia. }
  intros j next [k u] Hj Hat' Hnext. destruct (one_half_range p q Hh) as [Hp1 Hq1]; [lia|].
  pose proof (chunk_end_gt 512 j q ltac:(lia) ltac:(lia)) as Hc. pose proof (chunk_end_same 512 j q ltac:(lia) ltac:(lia)) as Hcs.
  rewrite (spans_step 512 j q) in Hat' by lia. set (j' := chunk_end 512 j q) in *. clearbody j'.
  pose proof (spans_nonneg 512 j' q ltac:(lia)) as Hsn.
  replace (K * (q - j) + (spans 512 j' q + 1) + a) with (K * (j' - j) + (K * (q - j') + spans 512 j' q + a) + 1) in Hat' by lia.
  unfold pdir_visit. rewrite PD_index. cbv zeta. rewrite (path2_same p j) in Hf by mlia.
  eapply (alloc_visit _ T0 j (i1 j) (path2 j) f _ _ (K * (j' - j) + (K * (q - j') + spans 512 j' q + a)));
    [lia|apply W|done|simpl; lia|apply index_bounds|nia|exact Hat'|].
  intros k1 T1 f1 HT1 Hf1 Hat1 en Hpr Hhu Hfr Hfn Hf1n Hn31.
  wp_step. apply wp_mcall, wp_read_entry; [done|apply index_bounds|]. rewrite set_km_id. fold en. rewrite Hpr, Hhu. simpl negb. cbv iota.
  destruct (near_prev 3 j j' next Hnext) as (-> & Hn4 & Hlt); [lia|lia|lia|].
  apply wp_try. wp_step. apply wp_mcall, wp_KADDR; [by rewrite Hfr|done|]. rewrite Hfr, set_km_id.
  eapply wp_mono; [eapply (alloc_walk0 T1 j j' f1 _ (K * (q - j') + spans 512 j' q + a)); try done; [by eapply one_half_sub; [exact Hh|lia|lia]|lia|lia|nia]|].
  cbv beta. intros r t (-> & Hat2). change (0 <? 0) with false. cbv iota.
  destruct (wk_rest _ _ W) as (_ & -> & _). apply wp_try. simpl. apply wp_ret. simpl. apply wp_ret.
  change (0 <? 0) with false. cbv iota. by eapply at_page_weaken.
Qed.

Lemma at_page_less a b T0 j s : at_page a T0 j s → b ≤ a → at_page b T0 j s.
Proof. intros (g & T & ? & ? & ? & ?) ?. exists g, T. split_and!; try done. by eapply avail_weaken. Qed.

Lemma alloc_walk2 T0 p q f e a s : one_half p q → p0 ≤ p < q → q ≤ q0 →
  (q - 1) `div` (512 * 512 * 512) = p `div` (512 * 512 * 512) → near 2 q e → e < 4096 * q →
  T0 !! path3 p = Some f → 0 ≤ a → at_page (K * (q - p) + (spans (512 * 512) p q + spans 512 p q) + a) T0 p s →
  wp (pdpt_walk_range (kva f) (4096 * p) e w) (λ r t, r = 0 ∧ at_page a T0 q t) s.
Proof.
  intros Hh Hp Hq Hsame Hn He Hf Ha Hat.
  eapply (pdpt_walk_rule _ _ (λ j t, at_page (K * (q - j) + (spans (512 * 512) j q + spans 512 j q) + a) T0 j t) _ p q);
    [done|lia|done|done|done| | |done].
  2: { intros t Ht. split; [done|]. unfold spans in Ht. rewrite Z.ltb_irrefl in Ht.
       eapply at_page_less; [exact Ht|lia]. }
  intros j next [k u] Hj Hat' Hnext. destruct (one_half_range p q Hh) as [Hp1 Hq1]; [lia|].
  pose proof (chunk_end_gt (512 * 512) j q ltac:(lia) ltac:(lia)) as Hc. pose proof (chunk_end_same (512 * 512) j q ltac:(lia) ltac:(lia)) as Hcs.
  rewrite (spans_step (512 * 512) j q) in Hat' by lia.
  pose proof (spans_split 512 (512 * 512) j q eq_refl ltac:(lia)) as Hs1.
  set (j' := chunk_end (512 * 512) j q) in *. clearbody j'.
  pose proof (spans_nonneg (512 * 512) j' q ltac:(lia)). pose proof (spans_nonneg 512 j' q ltac:(lia)). pose proof (spans_nonneg 512 j j' ltac:(lia)).
  assert (0 ≤ K * (j' - j) ∧ 0 ≤ K * (q - j')) as [HK1 HK2] by nia.
  eapply (at_page_less _ (K * (j' - j) + (spans 512 j j') + (K * (q - j') + spans (512 * 512) j' q + spans 512 j' q + a) + 1)) in Hat'; [|lia].
  unfold pdpt_visit. rewrite PDPT_index. cbv zeta.
  rewrite (path3_same p j) in Hf by mlia.
  eapply (alloc_visit _ T0 j (i2 j) (path3 j) f _ _ (K * (j' - j) + (spans 512 j j') + (K * (q - j') + spans (512 * 512) j' q + spans 512 j' q + a)));
    [lia|apply W|done|simpl; lia|apply index_bounds|lia|exact Hat'|].
  intros k1 T1 f1 HT1 Hf1 Hat1 en Hpr Hhu Hfr Hfn Hf1n Hn31.
  wp_step. apply wp_mcall, wp_read_entry; [done|apply index_bounds|]. rewrite set_km_id. fold en. rewrite Hpr, Hhu. simpl negb. cbv iota.
  destruct (near_prev 2 j j' next Hnext) as (-> & Hn4 & Hlt); [lia|lia|lia|].
  apply wp_try. wp_step. apply wp_mcall, wp_KADDR; [by rewrite Hfr|done|]. rewrite Hfr, set_km_id.
  eapply wp_mono; [eapply (alloc_walk1 T1 j j' f1 _ (K * (q - j') + spans (512 * 512) j' q + spans 512 j' q + a)); try done; [by eapply one_half_sub; [exact Hh|lia|lia]|lia|lia|lia]|].
  cbv beta. intros r t (-> & Hat2). change (0 <? 0) with false. cbv iota.
  destruct (wk_rest _ _ W) as (_ & _ & -> & _). apply wp_try. simpl. apply wp_ret. simpl. apply wp_ret.
  change (0 <? 0) with false. cbv iota. eapply at_page_less; [by eapply at_page_weaken|lia].
Qed.

Lemma alloc_walk3 T0 p q f e a s : one_half p q → p0 ≤ p < q → q ≤ q0 →
  near 1 q e → e < 4096 * q →
  T0 !! [] = Some f → 0 ≤ a → at_page (K * (q - p) + (spans (512 * 512 * 512) p q + spans (512 * 512) p q + spans 512 p q) + a) T0 p s →
  wp (pml4_walk_range (kva f) (4096 * p) e w) (λ r t, r = 0 ∧ at_page a T0 q t) s.
Proof.
  intros Hh Hp Hq Hn He Hf Ha Hat.
  eapply (pml4_walk_rule _ _ (λ j t, at_page (K * (q - j) + (spans (512 * 512 * 512) j q + spans (512 * 512) j q + spans 512 j q) + a) T0 j t) _ p q);
    [done|lia|done|done| | |done].
  2: { intros t Ht. split; [done|]. unfold spans in Ht. rewrite Z.ltb_irrefl in Ht.
       eapply at_page_less; [exact Ht|lia]. }
  intros j next [k u] Hj Hat' Hnext. destruct (one_half_range p q Hh) as [Hp1 Hq1]; [lia|].
  pose proof (chunk_end_gt (512 * 512 * 512) j q ltac:(lia) ltac:(lia)) as Hc. pose proof (chunk_end_same (512 * 512 * 512) j q ltac:(lia) ltac:(lia)) as Hcs.
  rewrite (spans_step (512 * 512 * 512) j q) in Hat' by lia.
  pose proof (spans_split (512 * 512) (512 * 512 * 512) j q eq_refl ltac:(lia)) as Hs2.
  pose proof (spans_split 512 (512 * 512 * 512) j q eq_refl ltac:(lia)) as Hs1.
  set (j' := chunk_end (512 * 512 * 512) j q) in *. clearbody j'.
  pose proof (spans_nonneg (512 * 512 * 512) j' q ltac:(lia)). pose proof (spans_nonneg (512 * 512) j' q ltac:(lia)). pose proof (spans_nonneg 512 j' q ltac:(lia)).
  pose proof (spans_nonneg (512 * 512) j j' ltac:(lia)). pose proof (spans_nonneg 512 j j' ltac:(lia)).
  assert (0 ≤ K * (j' - j) ∧ 0 ≤ K * (q - j')) as [HK1 HK2] by nia.
  eapply (at_page_less _ (K * (j' - j) + (spans (512 * 512) j j' + spans 512 j j') + (K * (q - j') + spans (512 * 512 * 512) j' q + spans (512 * 512) j' q + spans 512 j' q + a) + 1)) in Hat'; [|lia].
  unfold pml4_visit. rewrite PML4_index. cbv zeta.
  eapply (alloc_visit _ T0 j (i3 j) ([]) f _ _ (K * (j' - j) + (spans (512 * 512) j j' + spans 512 j j') + (K * (q - j') + spans (512 * 512 * 512) j' q + spans (512 * 512) j' q + spans 512 j' q + a)));
    [lia|apply W|done|simpl; lia|apply index_bounds|lia|exact Hat'|].
  intros k1 T1 f1 HT1 Hf1 Hat1 en Hpr Hhu Hfr Hfn Hf1n Hn31.
  wp_step. apply wp_mcall, wp_read_entry; [done|apply index_bounds|]. rewrite set_km_id. fold en. rewrite Hpr. cbv iota.
  destruct (near_prev 1 j j' next Hnext) as (-> & Hn4 & Hlt); [lia|lia|lia|].
  apply wp_try. wp_step. apply wp_mcall, wp_KADDR; [by rewrite Hfr|done|]. rewrite Hfr, set_km_id.
  eapply wp_mono; [eapply (alloc_walk2 T1 j j' f1 _ (K * (q - j') + spans (512 * 512 * 512) j' q + spans (512 * 512) j' q + spans 512 j' q + a)); try done; [by eapply one_half_sub; [exact Hh|lia|lia]|lia|lia|lia]|].
  cbv beta. intros r t (-> & Hat2). change (0 <? 0) with false. cbv iota.
  destruct (wk_rest _ _ W) as (_ & _ & _ & -> & _). apply wp_try. simpl. apply wp_ret. simpl. apply wp_ret.
  change (0 <? 0) with false. cbv iota. eapply at_page_less; [by eapply at_page_weaken|lia].
Qed.

(** How many tables mapping the pages [p..q-1] may take. *)
Definition tables_needed (p q : Z) : Z :=
  spans (512 * 512 * 512) p q + spans (512 * 512) p q + spans 512 p q.

Lemma alloc_walk T0 a s : one_half p0 q0 → p0 < q0 → q0 < 2 ^ 52 - 1 → T0 !! [] = Some root → 0 ≤ a →
  at_page (K * (q0 - p0) + tables_needed p0 q0 + a) T0 p0 s →
  wp (walk_page_range (kva root) (4096 * p0) (4096 * q0) w) (λ r t, r = 0 ∧ at_page a T0 q0 t) s.
Proof.
  intros Hh Hp Hq Hr Ha Hat. unfold walk_page_range.
  rewrite rounddown_page, roundup_page, (u64_id (4096 * q0 - 1)) by (unfold one_half in Hh; lia).
  eapply alloc_walk3; try done; unfold near; lia.
Qed.
End alloc_walk.
End space.
