(* ===== verification/PageMap.v ===== *)
(** * Mapping pages: what the callbacks of the mapping walkers do

    Static mappings ([boot_map_region]), mappings of allocated pages
    ([page_insert], [populate_region]), changes of permission
    ([protect_region]), lookups and removal, each as a specification of the
    whole operation on an address space. *)

From S2P Require Import Prelude LinkedList Paging Spinlock Buddy BuddyProofs RbTree Kernel PageWalk PageWalkProofs AddrSpace PageTable PageTableProofs.

Local Open Scope Z_scope.

Section maps.
Context `{Layout} (base n root : Z) (L : layout_ok base n).
Implicit Types (k : kernel) (g : blocks) (T : tmap).

(** The pages that were in use keep their [page_info]. *)
Definition infos_kept g k k' : Prop :=
  ∀ x, 0 ≤ x < n → ¬ free_frame g x → infos (km k') !! pg base x = infos (km k) !! pg base x.

Lemma infos_kept_grown g0 k0 k g T k' g' T' : infos_kept g0 k0 k → (∀ x, free_frame g x → free_frame g0 x) →
  grown base n k g T k' g' T' → infos_kept g0 k0 k'.
Proof. intros Hk Hf Hgr x Hx Hn. rewrite (gr_infos _ _ _ _ _ _ _ _ Hgr) by naive_solver. by apply Hk. Qed.

Lemma wp_with_udata {U A} (u : U) (c : M (kernel * U) A) Q k :
  wp c (λ a t, Q (a, t.2) t.1) (k, u) → wp (with_udata u c) Q k.
Proof. unfold wp, with_udata. by destruct (c (k, u)) as [? []|? []]. Qed.

Lemma allocates_ptbl_alloc {U} : allocates (U := U) (Some ptbl_alloc).
Proof.
  eexists. split; [done|]. intros en b e s Q Hw. eapply wp_mono; [exact Hw|]. cbv beta. by intros r t [-> HQ].
Qed.

(** ** Static mappings *)

(** The entry [boot_map_pte] writes: the four stores are one. *)
Lemma boot_map_pte_spec j f pf flags b e k (Q : Z → kernel * boot_map_info → Prop) :
  0 ≤ f < npages (km k) → 0 ≤ pf < 2 ^ 36 → 0 ≤ flags < 2 ^ 64 →
  Q 0 (set_km (set_phys (set_entry f (i0 j) (make_entry pf (Z.lor flags PAGE_PRESENT)) (phys (km k))) (km k)) k,
       BootMapInfo flags (4096 * (pf + 1))) →
  wp (boot_map_pte (entry_ptr (kva f) (i0 j)) b e) Q (k, BootMapInfo flags (4096 * pf)).
Proof.
  intros Hf Hpf Hfl HQ. assert (0 ≤ i0 j < 512) as Hi by apply index_bounds.
  unfold boot_map_pte. wp_step. apply wp_gets. simpl.
  wp_step. apply wp_mcall, wp_write_entry; [done|done|].
  wp_step. apply wp_mcall, wp_write_entry; [done|done|].
  wp_step. apply wp_mcall, wp_read_entry; [done|done|].
  wp_step. apply wp_mcall, wp_write_entry; [done|done|].
  wp_step. apply wp_mcall, wp_read_entry; [done|done|].
  wp_step. apply wp_mcall, wp_write_entry; [done|done|].
  simpl. rewrite !entry_set, !decide_True, !set_entry_twice by done.
  wp_step. apply wp_modify. apply wp_ret. simpl.
  rewrite (u64_id (4096 * pf)), (u64_id (4096 * pf + PAGE_SIZE)) by (unfold PAGE_SIZE; lia).
  rewrite (u64_lor (4096 * pf)) by lia.
  assert (0 ≤ Z.lor (4096 * pf) flags < 2 ^ 64) as Hr.
  { rewrite <-u64_lor by lia. apply Z.mod_pos_bound. done. }
  rewrite u64_lor by (done || unfold PAGE_PRESENT; lia).
  replace (4096 * pf + PAGE_SIZE) with (4096 * (pf + 1)) by (unfold PAGE_SIZE; lia).
  replace (Z.lor (Z.lor (4096 * pf) flags) PAGE_PRESENT) with (make_entry pf (Z.lor flags PAGE_PRESENT)).
  2: { unfold make_entry. by rewrite Z.lor_assoc, (Z.mul_comm pf). }
  by destruct k.
Qed.

Definition boot_map_at (k0 : kernel) (g0 : blocks) (T0 : tmap) (p q pf flags : Z)
    (j : Z) g T (s : kernel * boot_map_info) : Prop :=
  p ≤ j ≤ q ∧ s.2 = BootMapInfo flags (4096 * (pf + (j - p))) ∧
  (∀ l, canonical l → view T (phys (km s.1)) l =
    if decide (p ≤ l < j) then Some (make_entry (pf + (l - p)) (Z.lor flags PAGE_PRESENT)) else view T0 (phys (km k0)) l) ∧
  infos_kept g0 k0 s.1 ∧ (∀ x, free_frame g x → free_frame g0 x) ∧ s.1 = set_km (km s.1) k0.

Lemma set_phys_space k g T f p i v : space base n root k g T → T !! p = Some f → length p = 3%nat →
  space base n root (set_km (set_phys (set_entry f i v (phys (km k))) (km k)) k) g T.
Proof.
  intros [? ? ? ? ?] Hp Hl. split; try done; simpl; [by apply buddy_inv_phys|by eapply pt_set_leaf].
Qed.

Lemma boot_map_walker_ok k0 g0 T0 p q pf flags : one_half p q → 0 ≤ pf → pf + (q - p) ≤ 2 ^ 36 → 0 ≤ flags < 2 ^ 64 →
  walker_ok base n root boot_map_walker (boot_map_at k0 g0 T0 p q pf flags) 0 p q.
Proof.
  intros Hh Hpf Hpf' Hfl. split; try apply allocates_ptbl_alloc; [done| |].
  - intros j k u g T k' g' T' Hj _ _ (Hj' & Hu & Hv & Hi & Hf & Hr) Hgr. split; [done|]. split; [done|].
    split; [|split; [by eapply infos_kept_grown|split]]; simpl in *.
    + intros l Hl. rewrite (gr_view _ _ _ _ _ _ _ _ Hgr). by apply Hv.
    + intros x Hx. by apply Hf, (gr_free _ _ _ _ _ _ _ _ Hgr).
    + rewrite (gr_rest _ _ _ _ _ _ _ _ Hgr), Hr. done.
  - intros j k u g T f a e Hj Hs (Hj' & Hu & Hv & Hi & Hf & Hr) HT Ha Ha0. simpl in Hu. subst u. simpl.
    apply boot_map_pte_spec; [by eapply space_frame|lia|done|]. split; [done|]. exists g.
    split; [by eapply set_phys_space|]. split; [|by rewrite Z.add_0_l in Ha].
    split; [lia|]. split; [simpl; do 2 f_equal; lia|]. split; [|split; [done|split; [done|]]].
    + intros l Hl. simpl. rewrite (view_set_leaf n root); [|apply Hs|done|eapply one_half_in; [exact Hh|lia]|done].
      destruct (decide (l = j)) as [->|Hne].
      * rewrite decide_True by lia. rewrite make_entry_flag, has_lor by (unfold PAGE_PRESENT; lia).
        change (has PAGE_PRESENT PAGE_PRESENT) with true. by rewrite orb_true_r.
      * rewrite Hv by done. simpl. repeat case_decide; done || lia.
    + simpl in *. rewrite Hr. by destruct k0.
Qed.

(** [boot_map_region] maps the pages [p..q-1] to consecutive frames. *)
Lemma boot_map_region_spec k g T p q pf flags a : space base n root k g T → one_half p q → p < q → q < 2 ^ 52 - 1 →
  0 ≤ pf → pf + (q - p) ≤ 2 ^ 36 → 0 ≤ flags < 2 ^ 64 → 0 ≤ a → avail g (tables_needed p q + a) →
  wp (boot_map_region (kva root) (4096 * p) (4096 * (q - p)) (4096 * pf) flags) (λ _ k', ∃ g' T',
    space base n root k' g' T' ∧ avail g' a ∧ boot_map_at k g T p q pf flags q g' T' (k', BootMapInfo flags (4096 * (pf + (q - p))))) k.
Proof.
  intros Hs Hh Hpq Hq Hpf Hpf' Hfl Ha Hav. unfold boot_map_region. wp_step. apply wp_with_udata.
  replace (u64 (4096 * p + 4096 * (q - p))) with (4096 * q).
  2: { rewrite u64_id; [lia|]. unfold one_half in Hh. lia. }
  eapply wp_mono; [eapply (alloc_walk base n root L boot_map_walker _ 0 ltac:(lia) p q (boot_map_walker_ok k g T p q pf flags Hh Hpf Hpf' Hfl) T a);
    [done|done|done|apply Hs|lia|]|].
  - exists g, T. split; [done|]. split; [done|]. split; [|by rewrite Z.mul_0_l, Z.add_0_l].
    split; [lia|]. split; [simpl; do 2 f_equal; lia|]. split; [|split; [done|split; [done|by destruct k]]].
    intros l Hl. by rewrite decide_False by lia.
  - cbv beta. intros r [k' u'] (-> & g' & T' & Hs' & HT & HJ & Hav'). simpl. apply wp_ret. exists g', T'.
    split; [done|]. split; [done|]. pose proof HJ as (_ & Hu & _). simpl in Hu. by subst u'.
Qed.

(** ** Mapping an allocated page *)

(** The reverse mapping a page at address [b] gets: the one of the VMA of the
    current task for a user page, NULL for a kernel page. *)
Definition owner k flags b r : Prop :=
  if has flags PAGE_USER then ∃ t vma v, cur_task k = OK t k ∧ t ≠ NULL ∧ b < USER_LIM ∧
    task_find_vma t b k = OK vma k ∧ vma ≠ NULL ∧ kvmas k !! vma = Some v ∧ u64 (vm_rmap v) = r ∧
    is_free (swap_lock k) ∧ swap_list base n true (heap (km k))
  else r = NULL.

(** The parts of the state the owner depends on. *)
Lemma owner_ext k k' flags b r : owner k flags b r → krb k' = krb k → kvmas k' = kvmas k → kcpus k' = kcpus k →
  this_cpu (km k') = this_cpu (km k) → (is_free (swap_lock k) → is_free (swap_lock k')) →
  (swap_list base n true (heap (km k)) → swap_list base n true (heap (km k'))) → owner k' flags b r.
Proof.
  unfold owner. destruct (has flags PAGE_USER); [|done].
  intros (t & vma & v & Ht & ? & ? & Hf & ? & ? & ? & ? & ?) Eb Ev Ec Et El Hsw. exists t, vma, v.
  rewrite Ev. split_and!; try done; [|by eapply task_find_vma_pure|by apply El|by apply Hsw].
  revert Ht. unfold cur_task, cpu_get, mbind, M_bind, deref. rewrite Ec, Et.
  destruct (kcpus k !! this_cpu (km k)); [|done]. by intros [= <-].
Qed.

(** A page that can be mapped: in use, not a table, with room in its counter. *)
Record mappable k g T (x : Z) (i : page_info) : Prop := {
  mp_range : 0 ≤ x < n;
  mp_used : ¬ free_frame g x;
  mp_table p : T !! p ≠ Some x;
  mp_info : infos (km k) !! pg base x = Some i;
  mp_ref : 0 ≤ pp_ref i < 65535;
}.

Lemma wp_pa2page e m (Q : Z → mem → Prop) : pages m = base → 0 ≤ frame_of e < npages m →
  Q (pg base (frame_of e)) m → wp (pa2page (PAGE_ADDR e)) Q m.
Proof.
  intros Hb Hf HQ. unfold pa2page. wp_step. apply wp_gets. fold (frame_of e).
  rewrite (proj2 (Z.leb_gt _ _)) by lia. by apply (wp_page_at base).
Qed.

Lemma wp_tlb_invalidate f va k (Q : unit → kernel → Prop) :
  0 ≤ f → Q tt (if cr3 k =? f * PAGE_SIZE then set_tlb (delete (PAGE_INDEX va) (tlb k)) k else k) →
  wp (tlb_invalidate (kva f) va) Q k.
Proof.
  intros Hr HQ. unfold tlb_invalidate. wp_step. apply wp_gets. wp_step. apply wp_on_km. unfold PADDR.
  rewrite (proj2 (Z.ltb_ge _ _)) by (unfold kva, PAGE_SIZE, KERNEL_VMA; lia). apply wp_ret. rewrite set_km_id.
  replace (kva f - KERNEL_VMA) with (f * PAGE_SIZE) by (unfold kva; lia).
  destruct (cr3 k =? f * PAGE_SIZE); [|by apply wp_ret]. unfold flush_page. by apply wp_modify.
Qed.

(** The translations a CPU may have cached are those of the page table it
    uses. *)
Definition tlb_ok k : Prop := cr3 k = root * PAGE_SIZE →
  ∀ l e, canonical l → tlb k !! l = Some e → translate (phys (km k)) root l = Some e.

(** *** Step 1: the page mapped before *)

(** [k1] is [k] after the page at [j] lost its reference. *)
Record dropped k g T j k1 g1 : Prop := {
  dr_space : space base n root k1 g1 T;
  dr_phys : phys (km k1) = phys (km k);
  dr_rest : k1 = set_tlb (tlb k1) (set_km (km k1) k);
  dr_tlb : tlb k1 = tlb k ∨ tlb k1 = delete j (tlb k);
  dr_flush : cr3 k = root * PAGE_SIZE → is_Some (view T (phys (km k)) j) → tlb k1 !! j = None;
  dr_free x : free_frame g1 x ↔ free_frame g x ∨
    ∃ e i, view T (phys (km k)) j = Some e ∧ frame_of e = x ∧ infos (km k) !! pg base x = Some i ∧ pp_ref i = 1;
  dr_infos x : 0 ≤ x < n → ¬ free_frame g x → (∀ e, view T (phys (km k)) j = Some e → frame_of e ≠ x) →
    infos (km k1) !! pg base x = infos (km k) !! pg base x;
  dr_same e i : view T (phys (km k)) j = Some e → infos (km k) !! pg base (frame_of e) = Some i → pp_ref i ≠ 1 →
    infos (km k1) !! pg base (frame_of e) = Some (set_ref (pp_ref i - 1) i);
  dr_swap b : swap_list base n b (heap (km k)) → swap_list base n b (heap (km k1));
  dr_cpu : this_cpu (km k1) = this_cpu (km k);
}.

(** What is mapped at [j] may be dropped. *)
Definition droppable k g T j : Prop := ∀ e, view T (phys (km k)) j = Some e →
  ∃ i, 0 ≤ frame_of e < n ∧ ¬ free_frame g (frame_of e) ∧ (∀ p, T !! p ≠ Some (frame_of e)) ∧
    infos (km k) !! pg base (frame_of e) = Some i ∧ 1 ≤ pp_ref i < 65536.

Lemma view_entry T ph j f : T !! path1 j = Some f →
  view T ph j = if has (entry ph f (i0 j)) PAGE_PRESENT then Some (entry ph f (i0 j)) else None.
Proof. intros Hf. unfold view. by rewrite Hf. Qed.

Lemma PAGE_INDEX_page j : PAGE_INDEX (4096 * j) = j.
Proof. rewrite PAGE_INDEX_div, Z.mul_comm. by apply Z.div_mul. Qed.

Lemma drop_spec {U} k (u : U) g T j f (Q : unit → kernel * U → Prop) : space base n root k g T →
  T !! path1 j = Some f → droppable k g T j → 0 ≤ root →
  (∀ k1 g1, dropped k g T j k1 g1 → Q tt (k1, u)) →
  wp (if has (entry (phys (km k)) f (i0 j)) PAGE_PRESENT then
        old_page ← mcall (pa2page (PAGE_ADDR (entry (phys (km k)) f (i0 j))));
        mcall (page_decref old_page);;
        kcall (tlb_invalidate (kva root) (4096 * j))
      else mret tt) Q (k, u).
Proof.
  intros Hs Hf Hd Hroot HQ. pose proof (view_entry T (phys (km k)) j f Hf) as Hv.
  set (e := entry (phys (km k)) f (i0 j)) in *. destruct (has e PAGE_PRESENT).
  2: { apply wp_ret, (HQ k g). split; try done; simpl.
       - by destruct k.
       - by left.
       - rewrite Hv. by intros _ [? ?].
       - intros x. rewrite Hv. naive_solver.
       - intros e' i. by rewrite Hv. }
  destruct (Hd e Hv) as (i & Hx & Hnf & HT & Hi & Hr). pose proof Hs as [Hb _ _ _ _].
  pose proof Hb as [[Ebase En _ _ _] _ _ _ _ _ _].
  wp_step. apply wp_mcall, wp_pa2page; [done|by rewrite En|]. rewrite set_km_id.
  wp_step. apply wp_mcall. eapply wp_mono; [by eapply (page_decref_spec base n L)|].
  cbv beta. intros _ m1 (g1 & Hb1 & Hk & Hph & Hff & Hsame).
  apply wp_kcall, wp_tlb_invalidate; [done|]. rewrite PAGE_INDEX_page. simpl.
  set (k1 := set_km m1 k).
  assert (space base n root k1 g1 T) as Hs1.
  { eapply space_others; try done. intros y. rewrite Hff. naive_solver. }
  apply (HQ _ g1).
  assert (km (if cr3 k =? root * PAGE_SIZE then set_tlb (delete j (tlb k)) k1 else k1) = m1) as Ekm by (by case_match).
  split; rewrite ?Ekm; try done.
  - by eapply space_km.
  - case_match; by destruct k.
  - case_match; [by right|by left].
  - intros ->. rewrite Z.eqb_refl. intros _. apply lookup_delete_eq.
  - intros x. rewrite Hff. split; intros [?|Hx']; [by left| |by left|right].
    + destruct Hx' as [-> Hr1]. right. exists e, i. done.
    + destruct Hx' as (e' & i' & Hv' & <- & Hi' & Hr'). assert (e' = e) as -> by congruence. split; [done|congruence].
  - intros x Hxr Hxf Hxe. apply (kept_infos _ _ _ _ _ _ Hk); [done|done|]. intros ->. by eapply Hxe.
  - intros e' i' Hv'. assert (e' = e) as -> by congruence. intros Hi'. assert (i' = i) as -> by congruence. done.
  - apply Hk.
  - apply Hk.
Qed.

(** *** Step 2: the page's owner *)

Record owned k g T x i r k1 : Prop := {
  ow_space : space base n root k1 g T;
  ow_infos : infos (km k1) = <[pg base x := set_rmap r i]> (infos (km k));
  ow_phys : phys (km k1) = phys (km k);
  ow_rest : k1 = set_swap_lock (swap_lock k1) (set_km (km k1) k);
  ow_heap : only (swap_addr base n) (heap (km k)) (heap (km k1));
  ow_swap b : swap_list base n b (heap (km k)) → swap_list base n b (heap (km k1));
  ow_lock : is_free (swap_lock k) → is_free (swap_lock k1);
  ow_cpu : this_cpu (km k1) = this_cpu (km k);
}.

Lemma set_rmap_u64 v i : set_rmap (u64 v) i = set_rmap v i.
Proof. unfold set_rmap, u64. by rewrite Z.mod_mod. Qed.

Lemma own_kernel_spec {U} k (u : U) g T x i (Q : unit → kernel * U → Prop) : space base n root k g T → mappable k g T x i →
  (∀ k1, owned k g T x i NULL k1 → Q tt (k1, u)) → wp (mcall (page_upd (pg base x) (set_rmap NULL))) Q (k, u).
Proof.
  intros Hs [Hx Hnf HT Hi _] HQ. apply wp_mcall. eapply wp_page_upd; [done|]. apply HQ.
  split; try done. by eapply space_info.
Qed.

Lemma own_user_spec {U} k (u : U) g T x i t vma v b file line (Q : unit → kernel * U → Prop) :
  space base n root k g T → mappable k g T x i → task_find_vma t b k = OK vma k → vma ≠ NULL →
  kvmas k !! vma = Some v → is_free (swap_lock k) → swap_list base n true (heap (km k)) →
  (∀ k1, owned k g T x i (u64 (vm_rmap v)) k1 → Q tt (k1, u)) →
  wp (vma ← kcall (task_find_vma t b);
      if vma =? NULL then halt Panic
      else
        v ← kcall (vma_get vma);
        mcall (page_upd (pg base x) (set_rmap (vm_rmap v)));;
        kcall (lock_swap file line);;
        mcall (add_swap_page (pg base x));;
        kcall unlock_swap) Q (k, u).
Proof.
  intros Hs Hm Hfind Hnn Hv Hlk Hsw HQ. pose proof Hm as [Hx Hnf HT Hi _].
  wp_step. apply wp_kcall. eapply wp_OK; [exact Hfind|]. rewrite (proj2 (Z.eqb_neq _ _) Hnn).
  wp_step. apply wp_kcall. unfold vma_get. eapply wp_deref; [exact Hv|]. cbv beta.
  wp_step. apply wp_mcall. eapply wp_page_upd; [exact Hi|].
  wp_step. apply wp_kcall. unfold lock_swap. wp_step. apply wp_gets. apply wp_zoom. simpl swap_lock.
  eapply wp_mono; [by apply spin_lock_spec|]. cbv beta. intros [] l1 Hl1.
  wp_step. apply wp_mcall. simpl km.
  eapply wp_mono; [apply (add_swap_page_spec base n L); [done|exact Hsw]|]. cbv beta. intros _ m1 (h1 & -> & Hon & Hsw1).
  apply wp_kcall. unfold unlock_swap. wp_step. apply wp_gets. apply wp_zoom. simpl swap_lock.
  eapply wp_mono; [by apply spin_unlock_spec|]. cbv beta. intros [] l2 Hl2. apply HQ.
  assert (space base n root (set_km (set_infos (<[pg base x := set_rmap (vm_rmap v) i]> (infos (km k))) (km k)) k) g T) as Hs1
    by (by eapply space_info).
  split; simpl; try done.
  - eapply space_km; [eapply (space_swap base n root L _ _ _ h1 Hs1 Hon); by eapply swap_list_ok|done].
  - by rewrite set_rmap_u64.
  - intros []; [done|]. intros _. by eapply swap_list_ok.
Qed.

(** *** Step 3: the reference and the entry *)

Lemma store_page_raw {U A} k (u : U) x i f j flags (c : M (kernel * U) A) Q : pages (km k) = base →
  0 ≤ f < npages (km k) → 0 ≤ x < n → infos (km k) !! pg base x = Some i → 0 ≤ flags < 2 ^ 64 →
  wp c Q (set_km (set_phys (set_entry f (i0 j) (make_entry x (Z.lor flags PAGE_PRESENT)) (phys (km k)))
      (set_infos (<[pg base x := set_ref (pp_ref i + 1) i]> (infos (km k))) (km k))) k, u) →
  wp (mcall (page_upd (pg base x) (λ p, set_ref (pp_ref p + 1) p));;
      mcall (write_word (entry_ptr (kva f) (i0 j)) 0);;
      pa ← mcall (page2pa (pg base x));
      mcall (write_word (entry_ptr (kva f) (i0 j)) pa);;
      e ← mcall (read_word (entry_ptr (kva f) (i0 j)));
      mcall (write_word (entry_ptr (kva f) (i0 j)) (Z.lor e flags));;
      e ← mcall (read_word (entry_ptr (kva f) (i0 j)));
      mcall (write_word (entry_ptr (kva f) (i0 j)) (Z.lor e PAGE_PRESENT));; c) Q (k, u).
Proof.
  intros Hbase Hfn Hx Hi Hfl HQ. pose proof (layout_small base n L) as Hn.
  assert (0 ≤ i0 j < 512) as Hi0 by apply index_bounds.
  wp_step. apply wp_mcall. eapply wp_page_upd; [exact Hi|].
  apply (store_entry_spec base); [exact Hfn|exact Hi0|exact Hbase|lia|exact Hfl|].
  wp_step. apply wp_mcall, wp_read_entry; [exact Hfn|exact Hi0|].
  wp_step. apply wp_mcall, wp_write_entry; [exact Hfn|exact Hi0|]. simpl.
  rewrite entry_set, decide_True, set_entry_twice by done.
  assert (0 ≤ make_entry x flags < 2 ^ 64) as Hmk.
  { unfold make_entry. rewrite <-u64_lor by (unfold PAGE_SIZE; lia). apply Z.mod_pos_bound. done. }
  rewrite u64_lor by (done || unfold PAGE_PRESENT; lia).
  assert (Z.lor (make_entry x flags) PAGE_PRESENT = make_entry x (Z.lor flags PAGE_PRESENT)) as ->.
  { unfold make_entry. by rewrite Z.lor_assoc. }
  exact HQ.
Qed.

Lemma store_page_spec {U A} k (u : U) g T x i f j flags (c : M (kernel * U) A) Q : space base n root k g T →
  mappable k g T x i → T !! path1 j = Some f → 0 ≤ flags < 2 ^ 64 →
  (∀ k', km k' = set_phys (set_entry f (i0 j) (make_entry x (Z.lor flags PAGE_PRESENT)) (phys (km k)))
      (set_infos (<[pg base x := set_ref (pp_ref i + 1) i]> (infos (km k))) (km k)) →
    k' = set_km (km k') k → space base n root k' g T → wp c Q (k', u)) →
  wp (mcall (page_upd (pg base x) (λ p, set_ref (pp_ref p + 1) p));;
      mcall (write_word (entry_ptr (kva f) (i0 j)) 0);;
      pa ← mcall (page2pa (pg base x));
      mcall (write_word (entry_ptr (kva f) (i0 j)) pa);;
      e ← mcall (read_word (entry_ptr (kva f) (i0 j)));
      mcall (write_word (entry_ptr (kva f) (i0 j)) (Z.lor e flags));;
      e ← mcall (read_word (entry_ptr (kva f) (i0 j)));
      mcall (write_word (entry_ptr (kva f) (i0 j)) (Z.lor e PAGE_PRESENT));; c) Q (k, u).
Proof.
  intros Hs Hm Hf Hfl HQ. pose proof Hm as [Hx Hnf HT Hi Hr].
  eapply store_page_raw; [apply Hs|by eapply space_frame|done|done|done|]. apply HQ; [done|by destruct k|].
  assert (space base n root (set_km (set_infos (<[pg base x := set_ref (pp_ref i + 1) i]> (infos (km k))) (km k)) k) g T)
    as Hs1 by (by eapply space_info).
  pose proof (set_phys_space _ _ _ f (path1 j) (i0 j) (make_entry x (Z.lor flags PAGE_PRESENT)) Hs1 Hf eq_refl) as Hs2.
  eapply space_km; [exact Hs2|reflexivity].
Qed.

(** ** [insert_pte] *)

(** The reference count of frame [x] once page [j] has lost its mapping. *)
Definition ref_without k T j x (i : page_info) : Z :=
  if decide (frame_of <$> view T (phys (km k)) j = Some x) then pp_ref i - 1 else pp_ref i.

Record inserted k g T j x i r flags k' g' : Prop := {
  in_space : space base n root k' g' T;
  in_view l : canonical l → view T (phys (km k')) l =
    if decide (l = j) then Some (make_entry x (Z.lor flags PAGE_PRESENT)) else view T (phys (km k)) l;
  in_ref : ∃ i', infos (km k') !! pg base x = Some i' ∧ pp_ref i' = ref_without k T j x i + 1 ∧ rmap i' = u64 r;
  in_free y : free_frame g' y ↔ free_frame g y ∨
    ∃ e i, view T (phys (km k)) j = Some e ∧ frame_of e = y ∧ infos (km k) !! pg base y = Some i ∧ pp_ref i = 1;
  in_infos y : 0 ≤ y < n → y ≠ x → ¬ free_frame g y → (∀ e, view T (phys (km k)) j = Some e → frame_of e ≠ y) →
    infos (km k') !! pg base y = infos (km k) !! pg base y;
  in_old e iy : view T (phys (km k)) j = Some e → frame_of e ≠ x → infos (km k) !! pg base (frame_of e) = Some iy →
    pp_ref iy ≠ 1 → infos (km k') !! pg base (frame_of e) = Some (set_ref (pp_ref iy - 1) iy);
  in_tlb : tlb_ok k → tlb_ok k';
  in_rest : k' = set_swap_lock (swap_lock k') (set_tlb (tlb k') (set_km (km k') k));
}.

(** A page that can be inserted at [j].  The last condition leaves out the
    case in which it is mapped there already, by its last reference:
    [reinsert_frees_page] shows what the code does then. *)
Definition insertable k g T j x i : Prop :=
  mappable k g T x i ∧ droppable k g T j ∧ (frame_of <$> view T (phys (km k)) j = Some x → pp_ref i ≠ 1).

(** The page after its old mapping at [j] is gone. *)
Lemma mappable_dropped k g T j x i k1 g1 : insertable k g T j x i → dropped k g T j k1 g1 →
  ∃ i1, mappable k1 g1 T x i1 ∧ pp_ref i1 = ref_without k T j x i.
Proof.
  intros ([Hx Hnf HT Hi Hr] & Hd & Hne) Hdr. unfold ref_without.
  assert (¬ free_frame g1 x) as Hnf1.
  { rewrite (dr_free _ _ _ _ _ _ Hdr). intros [?|(e & i' & Hv & Hfr & Hi' & Hr')]; [done|].
    assert (i' = i) as -> by congruence. apply Hne; [|done]. rewrite Hv. simpl. by rewrite Hfr. }
  destruct (decide (frame_of <$> view T (phys (km k)) j = Some x)) as [E|E].
  - destruct (view T (phys (km k)) j) as [e|] eqn:Hv; [|done]. injection E as E. subst x.
    destruct (Hd e Hv) as (i' & _ & _ & _ & Hi' & Hr'). assert (i' = i) as -> by congruence.
    pose proof (dr_same _ _ _ _ _ _ Hdr e i Hv Hi (Hne eq_refl)) as Hi1.
    assert (pp_ref (set_ref (pp_ref i - 1) i) = pp_ref i - 1) as Er.
    { simpl. unfold u16. apply Z.mod_small. lia. }
    eexists. split; [split; [done|done|done|exact Hi1|lia]|done].
  - exists i. split; [|done]. split; try done. rewrite (dr_infos _ _ _ _ _ _ Hdr); [done|done|done|].
    intros e Hv <-. apply E. by rewrite Hv.
Qed.

Lemma owner_dropped k g T j k1 g1 flags b r : owner k flags b r → dropped k g T j k1 g1 → owner k1 flags b r.
Proof.
  intros Ho Hdr. eapply owner_ext; [exact Ho|..]; try by rewrite (dr_rest _ _ _ _ _ _ Hdr).
  - apply Hdr.
  - apply Hdr.
Qed.

Lemma mappable_owned k g T x i r k1 : mappable k g T x i → owned k g T x i r k1 →
  mappable k1 g T x (set_rmap r i).
Proof.
  intros [? ? ? Hi ?] Ho. split; try done. rewrite (ow_infos _ _ _ _ _ _ _ Ho). apply lookup_insert_eq.
Qed.

(** Writing the new entry keeps the cached translations right: page [j] is
    not cached any more. *)
Lemma tlb_ok_insert k k' T j e : tlb_ok k → pt_ok n T (phys (km k)) root → pt_ok n T (phys (km k')) root →
  cr3 k' = cr3 k → (∀ l, canonical l → l ≠ j → view T (phys (km k')) l = view T (phys (km k)) l) →
  view T (phys (km k')) j = Some e → (∀ l, l ≠ j → tlb k' !! l = tlb k !! l) →
  (cr3 k = root * PAGE_SIZE → tlb k' !! j = None ∨ tlb k' !! j = Some e) → tlb_ok k'.
Proof.
  intros Hok Ht Ht' Ec Hv Hj Htlb Hfl Hc l e' Hl He'. rewrite Ec in Hc. rewrite (translate_view n root T) by done.
  destruct (decide (l = j)) as [->|Hne].
  - destruct (Hfl Hc); congruence.
  - rewrite Hv by done. rewrite <-(translate_view n root T) by done. apply Hok; [done|done|]. by rewrite <-Htlb.
Qed.

Lemma insert_pte_spec k g T j f x i r flags file e : space base n root k g T → canonical j →
  T !! path1 j = Some f → insertable k g T j x i → owner k flags (4096 * j) r → 0 ≤ flags < 2 ^ 64 →
  wp (insert_pte file (entry_ptr (kva f) (i0 j)) (4096 * j) e)
    (λ rt t, rt = 0 ∧ ∃ k' g', t = (k', InsertInfo (kva root) (pg base x) flags) ∧ inserted k g T j x i r flags k' g')
    (k, InsertInfo (kva root) (pg base x) flags).
Proof.
  intros Hs Hj Hf Hins Hown Hfl. pose proof Hins as (Hm & Hd & _).
  assert (0 ≤ root) as Hroot by (eapply pt_range; [apply Hs|apply Hs]).
  unfold insert_pte. wp_step. apply wp_gets. simpl.
  wp_step. apply wp_mcall, wp_read_entry; [by eapply space_frame|apply index_bounds|]. rewrite set_km_id.
  wp_step. eapply drop_spec; [done|done|done|done|]. intros k1 g1 Hdr.
  destruct (mappable_dropped _ _ _ _ _ _ _ _ Hins Hdr) as (i1 & Hm1 & Er).
  pose proof (owner_dropped _ _ _ _ _ _ _ _ _ Hown Hdr) as Hown1. pose proof (dr_space _ _ _ _ _ _ Hdr) as Hs1.
  wp_step.
  assert (∀ k2, owned k1 g1 T x i1 r k2 → wp
    (mcall (page_upd (pg base x) (λ p, set_ref (pp_ref p + 1) p));;
      mcall (write_word (entry_ptr (kva f) (i0 j)) 0);;
      pa ← mcall (page2pa (pg base x));
      mcall (write_word (entry_ptr (kva f) (i0 j)) pa);;
      e ← mcall (read_word (entry_ptr (kva f) (i0 j)));
      mcall (write_word (entry_ptr (kva f) (i0 j)) (Z.lor e flags));;
      e ← mcall (read_word (entry_ptr (kva f) (i0 j)));
      mcall (write_word (entry_ptr (kva f) (i0 j)) (Z.lor e PAGE_PRESENT));; mret 0)
    (λ rt t, rt = 0 ∧ ∃ k' g', t = (k', InsertInfo (kva root) (pg base x) flags) ∧ inserted k g T j x i r flags k' g')
    (k2, InsertInfo (kva root) (pg base x) flags)) as Hstore.
  { intros k2 How. pose proof (ow_space _ _ _ _ _ _ _ How) as Hs2. pose proof (mappable_owned _ _ _ _ _ _ _ Hm1 How) as Hm2.
    eapply store_page_spec; [done|done|done|done|]. intros k3 Ek3 Hr3 Hs3. apply wp_ret. split; [done|].
    exists k3, g1. split; [done|].
    assert (phys (km k2) = phys (km k)) as Eph by (by rewrite (ow_phys _ _ _ _ _ _ _ How), (dr_phys _ _ _ _ _ _ Hdr)).
    assert (has (make_entry x (Z.lor flags PAGE_PRESENT)) PAGE_PRESENT = true) as Hpres.
    { rewrite make_entry_flag, has_lor by (destruct Hm; unfold PAGE_PRESENT; lia). by rewrite orb_true_r. }
    assert (∀ l, canonical l → view T (phys (km k3)) l =
      if decide (l = j) then Some (make_entry x (Z.lor flags PAGE_PRESENT)) else view T (phys (km k)) l) as Hview.
    { intros l Hl. rewrite Ek3. simpl. rewrite Eph, (view_set_leaf n root); [|apply Hs|done|done|done].
      by rewrite Hpres. }
    assert (tlb k3 = tlb k1 ∧ cr3 k3 = cr3 k) as [Etlb Ecr].
    { rewrite Hr3, (ow_rest _ _ _ _ _ _ _ How), (dr_rest _ _ _ _ _ _ Hdr). done. }
    split; try done.
    - rewrite Ek3. simpl. eexists. split; [apply lookup_insert_eq|]. split.
      + simpl. unfold u16. rewrite Er. destruct Hm1. apply Z.mod_small. lia.
      + simpl. done.
    - apply Hdr.
    - intros y Hy Hyx Hyf Hye. rewrite Ek3. simpl. rewrite lookup_insert_ne by (by intros ?%pg_inj).
      rewrite (ow_infos _ _ _ _ _ _ _ How), lookup_insert_ne by (by intros ?%pg_inj).
      by apply (dr_infos _ _ _ _ _ _ Hdr).
    - intros e0 iy Hv Hne Hiy Hry. rewrite Ek3. simpl. rewrite lookup_insert_ne by (by intros ?%pg_inj).
      rewrite (ow_infos _ _ _ _ _ _ _ How), lookup_insert_ne by (by intros ?%pg_inj).
      by apply (dr_same _ _ _ _ _ _ Hdr).
    - intros Hok. eapply (tlb_ok_insert k k3 T j); [done|apply Hs|apply Hs3|done| | | |].
      + intros l Hl Hne. by rewrite Hview, decide_False.
      + by rewrite Hview, decide_True.
      + intros l Hne. rewrite Etlb. destruct (dr_tlb _ _ _ _ _ _ Hdr) as [->| ->]; [done|by apply lookup_delete_ne].
      + intros Hc. rewrite Etlb. left. destruct (view T (phys (km k)) j) as [e0|] eqn:Hv.
        * apply (dr_flush _ _ _ _ _ _ Hdr Hc). by rewrite Hv.
        * destruct (dr_tlb _ _ _ _ _ _ Hdr) as [->| ->]; [|apply lookup_delete_eq].
          destruct (tlb k !! j) as [e0|] eqn:He0; [|done].
          pose proof (Hok Hc j e0 Hj He0) as Htr. rewrite (translate_view n root T) in Htr by apply Hs. congruence.
    - rewrite Hr3, (ow_rest _ _ _ _ _ _ _ How), (dr_rest _ _ _ _ _ _ Hdr). done. }
  unfold owner in Hown1. destruct (has flags PAGE_USER).
  - destruct Hown1 as (t & vma & v & Ht & Htn & Hb & Hfind & Hvn & Hv & <- & Hlk & Hsw).
    wp_step. apply wp_kcall. eapply wp_OK; [exact Ht|]. wp_step. apply wp_kcall, wp_assert.
    { by apply negb_true_iff, Z.eqb_neq. }
    wp_step. apply wp_kcall, wp_assert; [by apply Z.ltb_lt|].
    by eapply own_user_spec.
  - subst r. by eapply own_kernel_spec.
Qed.

(** Inserting a page where it is mapped already, when this mapping is its only
    reference: [page_decref] comes before the increment, so the page is given
    back to the allocator and then mapped again.  The callback succeeds and
    leaves a frame that is mapped, with one reference, and free. *)
Lemma reinsert_frees_page k g T j f x i flags file e : space base n root k g T → canonical j →
  T !! path1 j = Some f → mappable k g T x i → frame_of <$> view T (phys (km k)) j = Some x → pp_ref i = 1 →
  has flags PAGE_USER = false → 0 ≤ flags < 2 ^ 64 →
  wp (insert_pte file (entry_ptr (kva f) (i0 j)) (4096 * j) e)
    (λ rt t, rt = 0 ∧ ∃ g', core base n (km t.1) g' ∅ ∧ free_frame g' x ∧
      view T (phys (km t.1)) j = Some (make_entry x (Z.lor flags PAGE_PRESENT)) ∧
      pp_ref <$> infos (km t.1) !! pg base x = Some 1)
    (k, InsertInfo (kva root) (pg base x) flags).
Proof.
  intros Hs Hj Hf [Hx Hnf HT Hi _] Hv Hr1 Hu Hfl.
  destruct (view T (phys (km k)) j) as [e0|] eqn:Hv0; [|done]. injection Hv as Ex.
  assert (droppable k g T j) as Hd.
  { intros e1 He1. assert (e1 = e0) as -> by congruence. rewrite Ex. exists i. split_and!; try done; lia. }
  assert (0 ≤ root) as Hroot by (eapply pt_range; [apply Hs|apply Hs]).
  unfold insert_pte. wp_step. apply wp_gets. simpl.
  wp_step. apply wp_mcall, wp_read_entry; [by eapply space_frame|apply index_bounds|]. rewrite set_km_id.
  wp_step. eapply drop_spec; [done|done|done|done|]. intros k1 g1 Hdr. pose proof (dr_space _ _ _ _ _ _ Hdr) as Hs1.
  assert (free_frame g1 x) as Hfree by (apply (dr_free _ _ _ _ _ _ Hdr); right; by exists e0, i).
  destruct (used_info base n (km k1) g1 x (sp_buddy _ _ _ _ _ _ Hs1) Hx) as [i1 Hi1].
  assert (pp_ref i1 = 0) as Er by (eapply (inv_free_refs base n); [apply Hs1|done|done]).
  rewrite Hu. wp_step. apply wp_mcall. eapply wp_page_upd; [exact Hi1|].
  eapply store_page_raw; [apply Hs1|exact (space_frame _ _ _ _ _ _ _ _ Hs1 Hf)|done|apply lookup_insert_eq|done|]. apply wp_ret. split; [done|].
  exists g1. simpl. rewrite insert_insert_eq. split_and!.
  - destruct (inv_core _ _ _ _ (sp_buddy _ _ _ _ _ _ Hs1)) as [? ? ? Hrep ?]. split; try done. simpl.
    apply (rep_insert _ _ _ g1); [done| |done]. destruct (Hrep x Hx) as (q & Hq & Hdesc). by assert (q = i1) as -> by congruence.
  - done.
  - rewrite (view_set_leaf n root); [|apply Hs1|done|done|done]. rewrite decide_True by done.
    rewrite make_entry_flag, has_lor by (unfold PAGE_PRESENT; lia). by rewrite orb_true_r.
  - rewrite lookup_insert_eq. simpl. by rewrite Er.
Qed.

(** ** [page_insert] *)

(** [k'] is [k] with more tables. *)
Record extended k g T k' g' T' : Prop := {
  ex_view l : view T' (phys (km k')) l = view T (phys (km k)) l;
  ex_new p f : T' !! p = Some f → T !! p = Some f ∨ free_frame g f;
  ex_infos : infos_kept g k k';
  ex_free y : free_frame g' y → free_frame g y;
  ex_rest : k' = set_km (km k') k;
  ex_swap b : swap_list base n b (heap (km k)) → swap_list base n b (heap (km k'));
  ex_cpu : this_cpu (km k') = this_cpu (km k);
}.

Lemma extended_refl k g T : extended k g T k g T.
Proof. split; try done; [by left|by destruct k]. Qed.

Lemma extended_grown k g T k1 g1 T1 k2 g2 T2 : extended k g T k1 g1 T1 → grown base n k1 g1 T1 k2 g2 T2 →
  extended k g T k2 g2 T2.
Proof.
  intros [Hv Hn Hi Hf Hr Hs Hc] Hgr. split.
  - intros l. by rewrite (gr_view _ _ _ _ _ _ _ _ Hgr).
  - intros p f [?|?]%(gr_new _ _ _ _ _ _ _ _ Hgr); auto.
  - by eapply infos_kept_grown.
  - intros y ?%(gr_free _ _ _ _ _ _ _ _ Hgr). auto.
  - rewrite (gr_rest _ _ _ _ _ _ _ _ Hgr), Hr. done.
  - intros b Hb. apply (gr_swap _ _ _ _ _ _ _ _ Hgr). auto.
  - by rewrite (gr_cpu _ _ _ _ _ _ _ _ Hgr).
Qed.

Lemma extended_mappable k g T k' g' T' x i : extended k g T k' g' T' → mappable k g T x i → mappable k' g' T' x i.
Proof.
  intros He [Hx Hnf HT Hi Hr]. split; try done.
  - intros ?%(ex_free _ _ _ _ _ _ He). done.
  - intros p [?|?]%(ex_new _ _ _ _ _ _ He); [by eapply HT|done].
  - by rewrite (ex_infos _ _ _ _ _ _ He).
Qed.

Lemma extended_droppable k g T k' g' T' j : extended k g T k' g' T' → droppable k g T j → droppable k' g' T' j.
Proof.
  intros He Hd e Hv. rewrite (ex_view _ _ _ _ _ _ He) in Hv. destruct (Hd e Hv) as (i & Hx & Hnf & HT & Hi & Hr).
  exists i. split; [done|]. split; [intros ?%(ex_free _ _ _ _ _ _ He); done|]. split; [|split; [|done]].
  - intros p [?|?]%(ex_new _ _ _ _ _ _ He); [by eapply HT|done].
  - by rewrite (ex_infos _ _ _ _ _ _ He).
Qed.

Lemma extended_owner k g T k' g' T' flags b r : extended k g T k' g' T' → owner k flags b r → owner k' flags b r.
Proof.
  intros He Ho. eapply owner_ext; [exact Ho|..]; try by rewrite (ex_rest _ _ _ _ _ _ He).
  - apply He.
  - apply He.
Qed.

Lemma extended_tlb k g T k' g' T' : space base n root k g T → space base n root k' g' T' →
  extended k g T k' g' T' → tlb_ok k → tlb_ok k'.
Proof.
  intros Hs Hs' He Hok Hc l e Hl Ht. rewrite (translate_view n root T'), (ex_view _ _ _ _ _ _ He) by apply Hs'.
  rewrite <-(translate_view n root T) by apply Hs. rewrite (ex_rest _ _ _ _ _ _ He) in Hc, Ht. by apply Hok.
Qed.

(** Everything [page_insert] does. *)
Record mapped k g T j x i r flags k' g' T' : Prop := {
  ma_space : space base n root k' g' T';
  ma_view l : canonical l → view T' (phys (km k')) l =
    if decide (l = j) then Some (make_entry x (Z.lor flags PAGE_PRESENT)) else view T (phys (km k)) l;
  ma_ref : ∃ i', infos (km k') !! pg base x = Some i' ∧ pp_ref i' = ref_without k T j x i + 1 ∧ rmap i' = u64 r;
  ma_free y : 0 ≤ y < n → ¬ free_frame g y → free_frame g' y ↔
    ∃ e i, view T (phys (km k)) j = Some e ∧ frame_of e = y ∧ infos (km k) !! pg base y = Some i ∧ pp_ref i = 1;
  ma_infos y : 0 ≤ y < n → y ≠ x → ¬ free_frame g y → (∀ e, view T (phys (km k)) j = Some e → frame_of e ≠ y) →
    infos (km k') !! pg base y = infos (km k) !! pg base y;
  ma_old e iy : view T (phys (km k)) j = Some e → frame_of e ≠ x → infos (km k) !! pg base (frame_of e) = Some iy →
    pp_ref iy ≠ 1 → infos (km k') !! pg base (frame_of e) = Some (set_ref (pp_ref iy - 1) iy);
  ma_tlb : tlb_ok k → tlb_ok k';
}.

Lemma mapped_intro k g T k1 g1 T1 j x i r flags k' g' : space base n root k g T → space base n root k1 g1 T1 →
  extended k g T k1 g1 T1 → droppable k g T j → inserted k1 g1 T1 j x i r flags k' g' → mapped k g T j x i r flags k' g' T1.
Proof.
  intros Hs Hs1 He Hd Hin. pose proof (ex_view _ _ _ _ _ _ He) as Hv. split.
  - apply Hin.
  - intros l Hl. rewrite (in_view _ _ _ _ _ _ _ _ _ _ Hin), Hv by done. done.
  - destruct (in_ref _ _ _ _ _ _ _ _ _ _ Hin) as (i' & ? & Er & ?). exists i'. unfold ref_without in *. by rewrite Hv in Er.
  - intros y Hy Hyf. rewrite (in_free _ _ _ _ _ _ _ _ _ _ Hin), Hv, (ex_infos _ _ _ _ _ _ He) by done.
    split; [|by right]. intros [?%(ex_free _ _ _ _ _ _ He)|?]; done.
  - intros y Hy Hyx Hyf Hye. rewrite (in_infos _ _ _ _ _ _ _ _ _ _ Hin); [by apply He|done|done| |by rewrite Hv].
    intros ?%(ex_free _ _ _ _ _ _ He). done.
  - intros e iy He' Hne Hiy Hr. destruct (Hd e He') as (_ & Hx & Hxf & _).
    apply (in_old _ _ _ _ _ _ _ _ _ _ Hin); [by rewrite Hv|done| |done]. by rewrite (ex_infos _ _ _ _ _ _ He).
  - intros Hok. apply (in_tlb _ _ _ _ _ _ _ _ _ _ Hin). by apply (extended_tlb k g T k1 g1 T1).
Qed.

Lemma page_insert_spec k g T j x i r flags file : space base n root k g T → canonical j → j < 2 ^ 52 - 2 →
  insertable k g T j x i → owner k flags (4096 * j) r → 0 ≤ flags < 2 ^ 64 → avail g 3 →
  wp (page_insert file (kva root) (pg base x) (4096 * j) flags)
    (λ rt k', rt = 0 ∧ ∃ g' T', mapped k g T j x i r flags k' g' T') k.
Proof.
  intros Hs Hj Hj52 Hins Hown Hfl Hav. pose proof Hins as (Hm & Hd & Hne).
  assert (one_half j (j + 1)) as Hh by (unfold one_half, canonical in *; lia).
  set (u := InsertInfo (kva root) (pg base x) flags).
  set (J := λ l g' T' (s : kernel * insert_info), s.2 = u ∧
    ((l = j ∧ extended k g T s.1 g' T') ∨ (l = j + 1 ∧ mapped k g T j x i r flags s.1 g' T'))).
  assert (walker_ok base n root (insert_walker file) J 0 j (j + 1)) as HW.
  { assert (allocates (U := insert_info) (Some (λ en b e, ptbl_alloc en b e;; mret 0))) as Hal.
    { eexists. split; [done|]. intros en b e s Q Hw. cbv beta. apply wp_bind. eapply wp_mono; [exact Hw|].
      cbv beta. intros ? ? [_ HQ]. by apply wp_ret. }
    split; try exact Hal; [done| |].
    - intros l k1 u1 g1 T1 k2 g2 T2 Hl Hs1 Hs2 (Hu & [[-> He]|[? _]]) Hgr; [|lia]. split; [done|]. left.
      split; [done|]. by eapply extended_grown.
    - intros l k1 u1 g1 T1 f a e Hl Hs1 (Hu & [[-> He]|[? _]]) Hf Ha Ha0; [|lia]. simpl in Hu. subst u1.
      eapply wp_mono; [eapply (insert_pte_spec k1 g1 T1 j f x i r flags file e); try done|].
      + split; [by eapply extended_mappable|]. split; [by eapply extended_droppable|].
        by rewrite (ex_view _ _ _ _ _ _ He).
      + by eapply extended_owner.
      + cbv beta. intros rt t (-> & k' & g' & -> & Hin). split; [done|]. exists g'. split; [apply Hin|].
        split; [|eapply (avail_more n); [exact Ha|lia|apply Hin|]; intros y Hy; apply (in_free _ _ _ _ _ _ _ _ _ _ Hin); by left].
        split; [done|right]. split; [done|]. by eapply mapped_intro. }
  unfold page_insert. wp_step. apply wp_with_udata.
  replace (u64 (4096 * j + PAGE_SIZE)) with (4096 * (j + 1)).
  2: { rewrite u64_id; unfold PAGE_SIZE; [lia|]. unfold canonical in Hj. lia. }
  eapply wp_mono; [eapply (alloc_walk base n root L _ J 0 ltac:(lia) j (j + 1) HW T 0);
    [done|lia|lia|apply Hs|lia|]|].
  - exists g, T. split; [done|]. split; [done|]. split; [split; [done|left; split; [done|apply extended_refl]]|].
    eapply avail_weaken; [exact Hav|]. unfold tables_needed, spans. rewrite (proj2 (Z.ltb_lt j (j + 1))) by lia.
    replace (j + 1 - 1) with j by lia. lia.
  - cbv beta. intros rt [k' u'] (-> & g' & T' & Hs' & HT & (_ & [[? _]|[_ Hma]]) & _); [lia|].
    simpl. apply wp_ret. split; [done|]. by exists g', T'.
Qed.

(** ** [populate_pte] *)

Record filled k g T j x r flags k' g' : Prop := {
  fi_space : space base n root k' g' T;
  fi_fresh : free_frame g x;
  fi_view l : canonical l → view T (phys (km k')) l =
    if decide (l = j) then Some (make_entry x (Z.lor flags PAGE_PRESENT)) else view T (phys (km k)) l;
  fi_zero : phys (km k') !! x = None;
  fi_ref : ∃ i', infos (km k') !! pg base x = Some i' ∧ pp_ref i' = 1 ∧ rmap i' = u64 r;
  fi_free y : free_frame g' y ↔ free_frame g y ∧ y ≠ x;
  fi_infos : infos_kept g k k';
  fi_data y : y ≠ x → (∀ p, T !! p ≠ Some y) → phys (km k') !! y = phys (km k) !! y;
  fi_tlb : tlb_ok k → tlb_ok k';
  fi_rest : k' = set_swap_lock (swap_lock k') (set_tlb (tlb k') (set_km (km k') k));
  fi_swap b : swap_list base n b (heap (km k)) → swap_list base n b (heap (km k'));
  fi_lock : is_free (swap_lock k) → is_free (swap_lock k');
  fi_cpu : this_cpu (km k') = this_cpu (km k);
}.

(** A page fresh from the allocator can be mapped. *)
Lemma page_alloc_fresh k g T a : space base n root k g T → avail g (a + 1) → 0 ≤ a →
  wp (page_alloc ALLOC_ZERO) (λ r m', ∃ x g' i, r = pg base x ∧ r ≠ NULL ∧ free_frame g x ∧
    space base n root (set_km m' k) g' T ∧ mappable (set_km m' k) g' T x i ∧ pp_ref i = 0 ∧
    (∀ y, free_frame g' y ↔ free_frame g y ∧ y ≠ x) ∧ others_kept base n g x (km k) m' ∧
    phys m' !! x = None ∧ avail g' a) (km k).
Proof.
  intros Hs Ha Ha0. pose proof Hs as [Hb Ht Hu Hr Hz].
  eapply wp_mono; [eapply (page_alloc_spec base n L); [done|by eapply avail_nonempty]|].
  intros r m' (x & g' & -> & Hx & Hb' & Hff & Hk & Hcl & Hzero). change (has ALLOC_ZERO ALLOC_ZERO) with true in Hzero.
  assert (0 ≤ x < n) as Hxn by (by eapply free_frame_range; [apply Hb|]).
  destruct (used_info base n m' g' x Hb' Hxn) as [i Hi]. destruct (used_info base n (km k) g x Hb Hxn) as [i0 Hi0].
  rewrite Hi, Hi0 in Hcl. injection Hcl as Er Ez _.
  assert (∀ p, T !! p ≠ Some x) as HT by (intros p Hp; by eapply Hu).
  assert (pp_ref i = 0) as Er0. { rewrite Er. by eapply (inv_free_refs base n); [apply Hb| |]. }
  exists x, g', i. split_and!; try done.
  - pose proof (pg_pos base n L x). unfold NULL. lia.
  - eapply space_others; try done. intros y. rewrite Hff. tauto.
  - split; try done; [rewrite Hff; tauto|lia].
  - eapply Hzero; [done|]. by eapply Hz.
  - by eapply avail_take.
Qed.

Lemma populate_pte_spec k g T j f r flags file e kr a : space base n root k g T → canonical j →
  T !! path1 j = Some f → view T (phys (km k)) j = None → owner k flags (4096 * j) r → 0 ≤ flags < 2 ^ 64 →
  kernel_pml4 k = kva kr → 0 ≤ kr → avail g (a + 1) → 0 ≤ a →
  wp (populate_pte file (entry_ptr (kva f) (i0 j)) (4096 * j) e)
    (λ rt t, rt = 0 ∧ ∃ k' g' x, t = (k', flags) ∧ filled k g T j x r flags k' g' ∧ avail g' a) (k, flags).
Proof.
  intros Hs Hj Hf Hv Hown Hfl Hkp Hkr Ha Ha0. pose proof (view_entry T (phys (km k)) j f Hf) as Hve. rewrite Hv in Hve.
  unfold populate_pte. wp_step. apply wp_gets. simpl.
  wp_step. apply wp_mcall, wp_read_entry; [by eapply space_frame|apply index_bounds|]. rewrite set_km_id.
  destruct (has (entry (phys (km k)) f (i0 j)) PAGE_PRESENT) eqn:Ep; [done|]. clear Hve.
  wp_step. apply wp_kcall, wp_assert; [done|].
  wp_step. apply wp_mcall. eapply wp_mono; [by eapply page_alloc_fresh|].
  cbv beta. intros r0 m1 (x & g1 & i & -> & Hnn & Hx & Hs1 & Hm1 & Er & Hff & Hk & Hzx & Ha1).
  rewrite (proj2 (Z.eqb_neq _ _) Hnn). set (k1 := set_km m1 k) in *.
  assert (∀ p, T !! p ≠ Some x) as HT by apply Hm1.
  assert (∀ p fr, T !! p = Some fr → phys m1 !! fr = phys (km k) !! fr) as Hph1.
  { intros p fr Hp. apply (kept_phys _ _ _ _ _ _ Hk). intros ->. by eapply HT. }
  assert (owner k1 flags (4096 * j) r) as Hown1.
  { eapply owner_ext; [exact Hown|done|done|done|apply Hk|done|apply Hk]. }
  wp_step.
  assert (∀ k2, owned k1 g1 T x i r k2 → wp
    (mcall (page_upd (pg base x) (λ p, set_ref (pp_ref p + 1) p));;
      mcall (write_word (entry_ptr (kva f) (i0 j)) 0);;
      pa ← mcall (page2pa (pg base x));
      mcall (write_word (entry_ptr (kva f) (i0 j)) pa);;
      e ← mcall (read_word (entry_ptr (kva f) (i0 j)));
      mcall (write_word (entry_ptr (kva f) (i0 j)) (Z.lor e flags));;
      e ← mcall (read_word (entry_ptr (kva f) (i0 j)));
      mcall (write_word (entry_ptr (kva f) (i0 j)) (Z.lor e PAGE_PRESENT));;
      kp ← kcall (gets kernel_pml4); kcall (tlb_invalidate kp (4096 * j));; mret 0)
    (λ rt t, rt = 0 ∧ ∃ k' g' x, t = (k', flags) ∧ filled k g T j x r flags k' g' ∧ avail g' a)
    (k2, flags)) as Hstore.
  { intros k2 How. pose proof (ow_space _ _ _ _ _ _ _ How) as Hs2. pose proof (mappable_owned _ _ _ _ _ _ _ Hm1 How) as Hm2.
    eapply store_page_spec; [done|done|done|done|]. intros k3 Ek3 Hr3 Hs3.
    assert (k3 = set_swap_lock (swap_lock k3) (set_km (km k3) k)) as Hrest.
    { rewrite Hr3, (ow_rest _ _ _ _ _ _ _ How). done. }
    wp_step. apply wp_kcall, wp_gets. replace (kernel_pml4 k3) with (kva kr) by (by rewrite Hrest).
    wp_step. apply wp_kcall, wp_tlb_invalidate; [done|]. apply wp_ret. split; [done|]. rewrite PAGE_INDEX_page.
    set (k4 := if cr3 k3 =? kr * PAGE_SIZE then set_tlb (delete j (tlb k3)) k3 else k3).
    assert (km k4 = km k3) as E4 by (unfold k4; by case_match).
    assert (swap_lock k4 = swap_lock k3) as El4 by (unfold k4; by case_match).
    assert (cr3 k4 = cr3 k) as Ec4 by (unfold k4; case_match; by rewrite Hrest).
    assert (tlb k4 = tlb k ∨ tlb k4 = delete j (tlb k)) as Et4.
    { unfold k4. replace (tlb k3) with (tlb k) by (by rewrite Hrest). case_match; [by right|left; by rewrite Hrest]. }
    exists k4, g1, x. split; [done|]. split; [|done].
    assert (phys (km k2) = phys m1) as Eph by apply (ow_phys _ _ _ _ _ _ _ How).
    assert (has (make_entry x (Z.lor flags PAGE_PRESENT)) PAGE_PRESENT = true) as Hpres.
    { rewrite make_entry_flag, has_lor by (destruct Hm1; unfold PAGE_PRESENT; lia). by rewrite orb_true_r. }
    assert (∀ l, canonical l → view T (phys (km k4)) l =
      if decide (l = j) then Some (make_entry x (Z.lor flags PAGE_PRESENT)) else view T (phys (km k)) l) as Hview.
    { intros l Hl. rewrite E4, Ek3. simpl. rewrite Eph, (view_set_leaf n root); [|apply Hs1|done|done|done].
      rewrite Hpres. case_decide; [done|]. by apply view_ext. }
    assert (f ≠ x) as Hfx by (intros ->; by eapply HT).
    split; try done.
    - by eapply space_km.
    - rewrite E4, Ek3. simpl. unfold set_entry. rewrite lookup_insert_ne by done. by rewrite Eph.
    - rewrite E4, Ek3. simpl. eexists. split; [apply lookup_insert_eq|]. simpl. by rewrite Er.
    - intros y Hy Hyf. rewrite E4, Ek3. simpl.
      assert (pg base x ≠ pg base y) as Hne by (intros <-%pg_inj; done). rewrite lookup_insert_ne by done.
      rewrite (ow_infos _ _ _ _ _ _ _ How), lookup_insert_ne by done.
      apply (kept_infos _ _ _ _ _ _ Hk); [done|done|]. intros ->. done.
    - intros y Hyx HyT. rewrite E4, Ek3. simpl. unfold set_entry. rewrite lookup_insert_ne by (intros ->; by eapply HyT).
      rewrite Eph. by apply (kept_phys _ _ _ _ _ _ Hk).
    - intros Hok. eapply (tlb_ok_insert k k4 T j); [done|apply Hs|rewrite E4; apply Hs3|done| | | |].
      + intros l Hl Hne. by rewrite Hview, decide_False.
      + by rewrite Hview, decide_True.
      + intros l Hne. destruct Et4 as [->| ->]; [done|by apply lookup_delete_ne].
      + intros Hc. left. destruct Et4 as [->| ->]; [|apply lookup_delete_eq].
        destruct (tlb k !! j) as [e0|] eqn:He0; [|done].
        pose proof (Hok Hc j e0 Hj He0) as Htr. rewrite (translate_view n root T) in Htr by apply Hs. congruence.
    - unfold k4. case_match; by rewrite Hrest.
    - intros b Hb. rewrite E4, Ek3. simpl. by apply (ow_swap _ _ _ _ _ _ _ How), Hk.
    - rewrite El4, Hr3. simpl. apply (ow_lock _ _ _ _ _ _ _ How).
    - rewrite E4, Ek3. simpl. rewrite (ow_cpu _ _ _ _ _ _ _ How). apply Hk. }
  unfold owner in Hown1. destruct (has flags PAGE_USER).
  - destruct Hown1 as (t & vma & v & Ht & Htn & Hb & Hfind & Hvn & Hvv & <- & Hlk & Hsw).
    wp_step. apply wp_kcall. eapply wp_OK; [exact Ht|]. wp_step. apply wp_kcall, wp_assert.
    { by apply negb_true_iff, Z.eqb_neq. }
    by eapply own_user_spec.
  - subst r. by eapply own_kernel_spec.
Qed.
(** ** [populate_region] *)

(** A fresh zeroed page, mapped once. *)
Definition fresh_page (g0 g : blocks) T k x r : Prop :=
  0 ≤ x < n ∧ free_frame g0 x ∧ ¬ free_frame g x ∧ (∀ p, T !! p ≠ Some x) ∧ phys (km k) !! x = None ∧
  ∃ i, infos (km k) !! pg base x = Some i ∧ pp_ref i = 1 ∧ rmap i = u64 r.

(** The pages [p..j-1] are populated with the frames [F], their owners [R]. *)
Record populated (k0 : kernel) (g0 : blocks) (T0 : tmap) (p : Z) (flags : Z) (R F : Z → Z) (j : Z) g T k : Prop := {
  po_pages l : p ≤ l < j → fresh_page g0 g T k (F l) (R l);
  po_inj l l' : p ≤ l < j → p ≤ l' < j → F l = F l' → l = l';
  po_view l : canonical l → view T (phys (km k)) l =
    if decide (p ≤ l < j) then Some (make_entry (F l) (Z.lor flags PAGE_PRESENT)) else view T0 (phys (km k0)) l;
  po_infos : infos_kept g0 k0 k;
  po_free y : free_frame g y → free_frame g0 y;
  po_new pt f : T !! pt = Some f → T0 !! pt = Some f ∨ free_frame g0 f;
  po_data y : ¬ free_frame g0 y → (∀ pt, T0 !! pt ≠ Some y) → phys (km k) !! y = phys (km k0) !! y;
  po_tlb : tlb_ok k0 → tlb_ok k;
  po_rest : k = set_swap_lock (swap_lock k) (set_tlb (tlb k) (set_km (km k) k0));
  po_swap b : swap_list base n b (heap (km k0)) → swap_list base n b (heap (km k));
  po_lock : is_free (swap_lock k0) → is_free (swap_lock k);
  po_cpu : this_cpu (km k) = this_cpu (km k0);
}.

Lemma populated_grown k0 g0 T0 p flags R F j g T k g' T' k' : space base n root k g T → space base n root k' g' T' →
  populated k0 g0 T0 p flags R F j g T k → grown base n k g T k' g' T' → populated k0 g0 T0 p flags R F j g' T' k'.
Proof.
  intros Hs Hs' Hp Hgr. pose proof Hp as [Hpg Hinj Hv Hi Hf Hnew Hdata Htlb Hrest Hsw Hlk Hcpu]. split.
  - intros l Hl. destruct (Hpg l Hl) as (Hn & Hf0 & Hfl & HT & Hz & i & Hii & Hr). split; [done|]. split; [done|].
    split; [intros ?%(gr_free _ _ _ _ _ _ _ _ Hgr); done|]. split; [|split].
    + intros pt [?|?]%(gr_new _ _ _ _ _ _ _ _ Hgr); [by eapply HT|done].
    + by rewrite (gr_data _ _ _ _ _ _ _ _ Hgr).
    + exists i. by rewrite (gr_infos _ _ _ _ _ _ _ _ Hgr).
  - done.
  - intros l Hl. rewrite (gr_view _ _ _ _ _ _ _ _ Hgr). by apply Hv.
  - by eapply infos_kept_grown.
  - intros y ?%(gr_free _ _ _ _ _ _ _ _ Hgr). auto.
  - intros pt f [?|?]%(gr_new _ _ _ _ _ _ _ _ Hgr); auto.
  - intros y Hy HyT. rewrite (gr_data _ _ _ _ _ _ _ _ Hgr); [by apply Hdata|by intros ?%Hf|].
    intros pt [?|?]%Hnew; [by eapply HyT|done].
  - intros Hok. eapply (extended_tlb k g T k' g' T'); [done|done| |by apply Htlb].
    eapply (extended_grown k g T k g T); [apply extended_refl|done].
  - rewrite (gr_rest _ _ _ _ _ _ _ _ Hgr), Hrest. done.
  - intros b Hb. apply (gr_swap _ _ _ _ _ _ _ _ Hgr). auto.
  - rewrite (gr_rest _ _ _ _ _ _ _ _ Hgr). auto.
  - by rewrite (gr_cpu _ _ _ _ _ _ _ _ Hgr).
Qed.

Lemma populated_filled k0 g0 T0 p flags R F j g T k x r k' g' : space base n root k g T → canonical j → p ≤ j → R j = r →
  populated k0 g0 T0 p flags R F j g T k → filled k g T j x r flags k' g' →
  populated k0 g0 T0 p flags R (λ l, if decide (l = j) then x else F l) (j + 1) g' T k'.
Proof.
  intros Hs Hj Hpj <- Hp Hfi. pose proof Hp as [Hpg Hinj Hv Hi Hf Hnew Hdata Htlb Hrest Hsw Hlk Hcpu].
  assert (∀ l, p ≤ l < j → F l ≠ x) as Hne.
  { intros l Hl E. destruct (Hpg l Hl) as (_ & _ & Hfl & _). apply Hfl. rewrite E. apply Hfi. }
  assert (∀ pt, T !! pt ≠ Some x) as HTx.
  { intros pt Hpt. eapply (sp_used _ _ _ _ _ _ Hs); [exact Hpt|apply Hfi]. }
  split.
  - intros l Hl. case_decide as E; [subst l|].
    + split; [eapply free_frame_range; [apply Hs|apply Hfi]|]. split; [apply Hf, Hfi|].
      split; [rewrite (fi_free _ _ _ _ _ _ _ _ _ Hfi); tauto|]. split; [done|]. split; apply Hfi.
    + destruct (Hpg l ltac:(lia)) as (Hn & Hf0 & Hfl & HT & Hz & i & Hii & Hr). split; [done|]. split; [done|].
      split; [rewrite (fi_free _ _ _ _ _ _ _ _ _ Hfi); tauto|]. split; [done|]. split.
      * rewrite (fi_data _ _ _ _ _ _ _ _ _ Hfi); [done|apply Hne; lia|done].
      * exists i. by rewrite (fi_infos _ _ _ _ _ _ _ _ _ Hfi).
  - intros l l' Hl Hl'. repeat case_decide; subst; try done.
    + intros E. by destruct (Hne l' ltac:(lia)).
    + intros E. by destruct (Hne l ltac:(lia)).
    + apply Hinj; lia.
  - intros l Hl. rewrite (fi_view _ _ _ _ _ _ _ _ _ Hfi) by done. destruct (decide (l = j)) as [->|Hlj].
    + by rewrite decide_True by lia.
    + rewrite Hv by done. repeat case_decide; done || lia.
  - intros y Hy Hyf. rewrite (fi_infos _ _ _ _ _ _ _ _ _ Hfi); [by apply Hi|done|by intros ?%Hf].
  - intros y [? _]%(fi_free _ _ _ _ _ _ _ _ _ Hfi). auto.
  - done.
  - intros y Hy HyT. rewrite (fi_data _ _ _ _ _ _ _ _ _ Hfi); [by apply Hdata| |].
    + intros ->. apply Hy, Hf, Hfi.
    + intros pt [?|?]%Hnew; [by eapply HyT|done].
  - intros Hok. apply (fi_tlb _ _ _ _ _ _ _ _ _ Hfi). auto.
  - rewrite (fi_rest _ _ _ _ _ _ _ _ _ Hfi), Hrest. done.
  - intros b Hb. apply (fi_swap _ _ _ _ _ _ _ _ _ Hfi). auto.
  - intros Hb. apply (fi_lock _ _ _ _ _ _ _ _ _ Hfi). auto.
  - by rewrite (fi_cpu _ _ _ _ _ _ _ _ _ Hfi).
Qed.

Lemma populate_region_spec k g T p q flags R file kr : space base n root k g T → one_half p q → p < q → q < 2 ^ 52 - 1 →
  (∀ l, p ≤ l < q → view T (phys (km k)) l = None) → (∀ l, p ≤ l < q → owner k flags (4096 * l) (R l)) →
  0 ≤ flags < 2 ^ 64 → kernel_pml4 k = kva kr → 0 ≤ kr → avail g (q - p + tables_needed p q) →
  wp (populate_region file (kva root) (4096 * p) (4096 * (q - p)) flags) (λ _ k', ∃ g' T' F,
    space base n root k' g' T' ∧ T ⊆ T' ∧ populated k g T p flags R F q g' T' k') k.
Proof.
  intros Hs Hh Hpq Hq Hfree Hown Hfl Hkp Hkr Hav.
  set (J := λ j g' T' (s : kernel * Z), s.2 = flags ∧ p ≤ j ∧ ∃ F, populated k g T p flags R F j g' T' s.1).
  assert (walker_ok base n root (populate_walker file) J 1 p q) as HW.
  { split; try apply allocates_ptbl_alloc; [done| |].
    - intros j k1 u1 g1 T1 k2 g2 T2 Hj Hs1 Hs2 (Hu & Hpj & F & HF) Hgr. split; [done|]. split; [done|].
      exists F. by eapply (populated_grown _ _ _ _ _ _ _ _ g1 T1 k1).
    - intros j k1 u1 g1 T1 f a e Hj Hs1 (Hu & Hpj & F & HF) Hf Ha Ha0. simpl in Hu, HF. subst u1.
      assert (canonical j) as Hcj by (by eapply one_half_in).
      eapply wp_mono; [eapply (populate_pte_spec k1 g1 T1 j f (R j) flags file e kr a); try done|].
      + rewrite (po_view _ _ _ _ _ _ _ _ _ _ _ HF), decide_False by (done || lia). by apply Hfree.
      + eapply owner_ext; [by apply Hown|by rewrite (po_rest _ _ _ _ _ _ _ _ _ _ _ HF)..
          |apply (po_cpu _ _ _ _ _ _ _ _ _ _ _ HF)|apply (po_lock _ _ _ _ _ _ _ _ _ _ _ HF)|apply (po_swap _ _ _ _ _ _ _ _ _ _ _ HF)].
      + by rewrite (po_rest _ _ _ _ _ _ _ _ _ _ _ HF).
      + by rewrite Z.add_comm.
      + cbv beta. intros rt t (-> & k' & g' & x & -> & Hfi & Ha'). split; [done|]. exists g'. split; [apply Hfi|].
        split; [|done]. split; [done|]. split; [lia|]. eexists. by eapply (populated_filled _ _ _ _ _ _ _ _ g1 T1 k1 x). }
  unfold populate_region. wp_step. apply wp_with_udata.
  replace (u64 (4096 * p + 4096 * (q - p))) with (4096 * q).
  2: { rewrite u64_id; [lia|]. unfold one_half in Hh. lia. }
  eapply wp_mono; [eapply (alloc_walk base n root L _ J 1 ltac:(lia) p q HW T 0); [done|done|done|apply Hs|lia|]|].
  - exists g, T. split; [done|]. split; [done|]. split; [|eapply avail_weaken; [exact Hav|lia]].
    split; [done|]. split; [lia|]. exists (λ _, 0). split; try done; try (intros; lia).
    + intros l Hl. by rewrite decide_False by lia.
    + by left.
    + by destruct k.
  - cbv beta. intros rt [k' u'] (-> & g' & T' & Hs' & HT & (_ & _ & F & HF) & _).
    simpl. apply wp_ret. by exists g', T', F.
Qed.
End maps.
