(* ===== verification/PageWalkAll.v ===== *)
(** * Walks over the whole address space

    [walk_all_pages] runs over both halves of the address space.  When a level
    of the walk reaches the end of the lower half, [sign_extend] takes the next
    address across the hole of non-canonical addresses, so the ends that are
    passed down lie in the hole.  For callbacks that do not look at the end of
    the range this makes no difference. *)

From S2P Require Import Prelude LinkedList Paging Spinlock Buddy BuddyProofs RbTree Kernel PageWalk PageWalkProofs.

Local Open Scope Z_scope.

(** The first address of the upper half, and its page. *)
Definition HIGH : Z := 0xffff800000000000.
Definition low_pages : Z := 2 ^ 35.
Definition high_page : Z := 2 ^ 52 - 2 ^ 35.

(** The end of the lower half that an end in the hole stands for. *)
Definition fold_end (e : Z) : Z := e - HIGH + 4096 * low_pages.

Section all.
Context {U : Type}.
Implicit Types (w : page_walker U) (s t : kernel * U).

Record ignores_end w : Prop := {
  ie_pte x b e e' s : call (pte_callback w) x b e s = call (pte_callback w) x b e' s;
  ie_pde x b e e' s : call (pde_callback w) x b e s = call (pde_callback w) x b e' s;
  ie_pdpte x b e e' s : call (pdpte_callback w) x b e s = call (pdpte_callback w) x b e' s;
  ie_pml4e x b e e' s : call (pml4e_callback w) x b e s = call (pml4e_callback w) x b e' s;
  ie_pte_un x b e e' s : call (pte_unmap w) x b e s = call (pte_unmap w) x b e' s;
  ie_pde_un x b e e' s : call (pde_unmap w) x b e s = call (pde_unmap w) x b e' s;
  ie_pdpte_un x b e e' s : call (pdpte_unmap w) x b e s = call (pdpte_unmap w) x b e' s;
  ie_pml4e_un x b e e' s : call (pml4e_unmap w) x b e s = call (pml4e_unmap w) x b e' s;
  ie_hole b e e' s : call_hole w b e s = call_hole w b e' s;
}.

(** ** Equal runs *)

Lemma try_eq (m m' k k' : M (kernel * U) Z) s : m s = m' s → (∀ t, k t = k' t) → try_ m k s = try_ m' k' s.
Proof. intros E Ek. unfold try_, mbind, M_bind. rewrite E. destruct (m' s) as [r t|]; [|done]. by destruct (r <? 0). Qed.

Lemma bind_eq {A} (m : M (kernel * U) A) (f f' : A → M (kernel * U) Z) s : (∀ a t, f a t = f' a t) → (m ≫= f) s = (m ≫= f') s.
Proof. intros E. unfold mbind, M_bind. by destruct (m s). Qed.

Lemma wp_eq {A} (m m' : M (kernel * U) A) Q s : m s = m' s → wp m' Q s → wp m Q s.
Proof. unfold wp. by intros ->. Qed.

(** The step of a loop in the lower half. *)
Lemma low_next C bound j : bounds C bound → 0 ≤ j < low_pages →
  let up := (j `div` C + 1) * C in
  j < up ≤ low_pages ∧ chunk_end C j low_pages = up ∧
  sign_extend (u64 (bound (4096 * j) + 1)) = if decide (up = low_pages) then HIGH else 4096 * up.
Proof.
  intros (HC & HCm & HB) Hj up. unfold low_pages in *. rewrite HB, Z.div_mul_cancel_l by lia.
  assert (j < up) as Hup by (unfold up; pose proof (Z.mul_succ_div_gt j C HC); lia).
  assert (up ≤ 2 ^ 35) as Hle.
  { apply Z.div_exact in HCm; [|lia]. unfold up. rewrite HCm.
    assert (j `div` C < 2 ^ 35 `div` C); [|nia]. apply Z.div_lt_upper_bound; lia. }
  replace ((j `div` C + 1) * (4096 * C) - 1 + 1) with (4096 * up) by (unfold up; lia).
  split; [lia|]. split; [unfold chunk_end; fold up; lia|]. clearbody up.
  unfold u64. rewrite Z.mod_small by lia. case_decide; [by subst|]. apply sign_extend_canonical. unfold canonical. lia.
Qed.

(** A loop that ends in the hole is the loop that ends at the lower half. *)
Lemma loop_fold C bound visit e fuel p s : bounds C bound → 0 ≤ p < low_pages → HIGH - 4 ≤ e < HIGH →
  (∀ j t, p ≤ j < low_pages → visit (4096 * j) e t = visit (4096 * j) (fold_end e) t) →
  walk_loop (U:=U) fuel bound visit e (4096 * p) (4096 * p) s = walk_loop fuel bound visit (fold_end e) (4096 * p) (4096 * p) s.
Proof.
  intros HB. revert p s. induction fuel as [|fuel IH]; intros p s Hp He HV; [done|]. cbn [walk_loop].
  assert (4096 * (low_pages - 1) < fold_end e < 4096 * low_pages) as Hf by (unfold fold_end, HIGH in *; lia).
  rewrite (proj2 (Z.ltb_lt (4096 * p) e)) by (unfold HIGH, low_pages in *; lia).
  rewrite (proj2 (Z.ltb_lt (4096 * p) (fold_end e))) by lia.
  destruct (low_next C bound p HB Hp) as (Hup & _ & ->). set (up := (p `div` C + 1) * C) in *. cbv zeta. case_decide as Eu.
  - rewrite (proj2 (Z.ltb_lt e HIGH)) by lia. rewrite (proj2 (Z.ltb_lt (fold_end e) HIGH)) by (unfold HIGH, low_pages in *; lia).
    cbn [orb]. apply try_eq; [apply HV; lia|]. intros t. destruct fuel; [done|]. cbn [walk_loop]. by rewrite !Z.ltb_irrefl.
  - rewrite (proj2 (Z.ltb_ge e (4096 * up))) by (unfold HIGH, low_pages in *; lia).
    rewrite (proj2 (Z.ltb_ge (fold_end e) (4096 * up))) by lia. rewrite (proj2 (Z.ltb_ge (4096 * up) (4096 * p))) by lia.
    cbn [orb]. apply try_eq; [done|]. intros t. apply IH; [lia|done|]. intros j t' Hj. apply HV. lia.
Qed.

(** ** The levels *)

Lemma hole_prev e d : 0 ≤ d ≤ 3 → HIGH - d ≤ e ≤ HIGH → u64 (e - 1) = e - 1 ∧ u64 (fold_end e - 1) = fold_end (e - 1).
Proof. intros Hd He. unfold u64, fold_end, HIGH, low_pages in *. mlia. Qed.

Lemma sign_extend_low p : 0 ≤ p < low_pages → sign_extend (4096 * p) = 4096 * p.
Proof. intros Hp. apply sign_extend_canonical. left. exact Hp. Qed.

Context w (Hw : ignores_end w).

Lemma ptbl_visit_fold ptbl a e e' s : ptbl_visit ptbl w a e s = ptbl_visit ptbl w a e' s.
Proof.
  unfold ptbl_visit. apply try_eq; [apply (ie_pte w Hw)|]. intros t. apply bind_eq. intros x t'. destruct (has x PAGE_PRESENT).
  - apply try_eq; [apply (ie_pte_un w Hw)|done].
  - apply try_eq; [apply (ie_hole w Hw)|done].
Qed.

Lemma ptbl_fold ptbl p e s : 0 ≤ p < low_pages → HIGH - 4 ≤ e < HIGH →
  ptbl_walk_range ptbl (4096 * p) e w s = ptbl_walk_range ptbl (4096 * p) (fold_end e) w s.
Proof.
  intros Hp He. unfold ptbl_walk_range. rewrite sign_extend_low by done.
  apply (loop_fold 1); [apply ptbl_bounds|done|done|]. intros. apply ptbl_visit_fold.
Qed.

Lemma pdir_visit_fold pdir p e s : 0 ≤ p < low_pages → HIGH - 3 ≤ e ≤ HIGH →
  pdir_visit pdir w (4096 * p) e s = pdir_visit pdir w (4096 * p) (fold_end e) s.
Proof.
  intros Hp He. destruct (hole_prev e 3 ltac:(lia) He) as [E1 E2].
  unfold pdir_visit. apply try_eq; [apply (ie_pde w Hw)|]. intros t. apply bind_eq. intros x t'. destruct (has x PAGE_PRESENT).
  - destruct (negb (has x PAGE_HUGE)); [|done]. apply try_eq.
    + apply bind_eq. intros tb t1. rewrite E1, E2. apply ptbl_fold; [done|lia].
    + intros t1. apply try_eq; [apply (ie_pde_un w Hw)|done].
  - apply try_eq; [apply (ie_hole w Hw)|done].
Qed.

Lemma pdir_fold pdir p e s : 0 ≤ p < low_pages → HIGH - 3 ≤ e < HIGH →
  pdir_walk_range pdir (4096 * p) e w s = pdir_walk_range pdir (4096 * p) (fold_end e) w s.
Proof.
  intros Hp He. unfold pdir_walk_range. rewrite sign_extend_low by done.
  apply (loop_fold 512); [apply pdir_bounds|done|lia|]. intros. apply pdir_visit_fold; lia.
Qed.

Lemma pdpt_visit_fold pdpt p e s : 0 ≤ p < low_pages → HIGH - 2 ≤ e ≤ HIGH →
  pdpt_visit pdpt w (4096 * p) e s = pdpt_visit pdpt w (4096 * p) (fold_end e) s.
Proof.
  intros Hp He. destruct (hole_prev e 2 ltac:(lia) He) as [E1 E2].
  unfold pdpt_visit. apply try_eq; [apply (ie_pdpte w Hw)|]. intros t. apply bind_eq. intros x t'. destruct (has x PAGE_PRESENT).
  - destruct (negb (has x PAGE_HUGE)); [|done]. apply try_eq.
    + apply bind_eq. intros tb t1. rewrite E1, E2. apply pdir_fold; [done|lia].
    + intros t1. apply try_eq; [apply (ie_pdpte_un w Hw)|done].
  - apply try_eq; [apply (ie_hole w Hw)|done].
Qed.

Lemma pdpt_fold pdpt p e s : 0 ≤ p < low_pages → HIGH - 2 ≤ e < HIGH →
  pdpt_walk_range pdpt (4096 * p) e w s = pdpt_walk_range pdpt (4096 * p) (fold_end e) w s.
Proof.
  intros Hp He. unfold pdpt_walk_range. rewrite sign_extend_low by done.
  apply (loop_fold (512 * 512)); [apply pdpt_bounds|done|lia|]. intros. apply pdpt_visit_fold; lia.
Qed.

Lemma pml4_visit_fold pml4 p s : 0 ≤ p < low_pages →
  pml4_visit pml4 w (4096 * p) HIGH s = pml4_visit pml4 w (4096 * p) (4096 * low_pages) s.
Proof.
  intros Hp. change (4096 * low_pages) with (fold_end HIGH). destruct (hole_prev HIGH 1 ltac:(lia)) as [E1 E2]; [lia|].
  unfold pml4_visit. apply try_eq; [apply (ie_pml4e w Hw)|]. intros t. apply bind_eq. intros x t'. destruct (has x PAGE_PRESENT).
  - apply try_eq.
    + apply bind_eq. intros tb t1. rewrite E1, E2. apply pdpt_fold; [done|lia].
    + intros t1. apply try_eq; [apply (ie_pml4e_un w Hw)|done].
  - apply try_eq; [apply (ie_hole w Hw)|done].
Qed.

(** ** The rule for whole walks *)

Lemma walk_all_rule pml4 I Q s :
  visit_ok (512 * 512 * 512) 1 (pml4_visit pml4 w) I Q 0 low_pages →
  visit_ok (512 * 512 * 512) 1 (pml4_visit pml4 w) I Q high_page (2 ^ 52) →
  (∀ t, I low_pages t → I high_page t) → (∀ t, I (2 ^ 52) t → Q 0 t) → I 0 s → wp (walk_all_pages pml4 w) Q s.
Proof.
  intros HL HH Hjump HQ HI. unfold walk_all_pages, pml4_walk_range. change (sign_extend 0) with (4096 * 0).
  change (walk_loop walk_fuel pml4_end (pml4_visit pml4 w) KERNEL_LIM (4096 * 0) 0)
    with (walk_loop walk_fuel pml4_end (pml4_visit pml4 w) KERNEL_LIM (4096 * 0) (4096 * 0)).
  assert (∀ fuel p t, 0 ≤ p < low_pages → low_pages / 134217728 - p / 134217728 + 257 ≤ Z.of_nat fuel → I p t →
    wp (walk_loop fuel pml4_end (pml4_visit pml4 w) KERNEL_LIM (4096 * p) (4096 * p)) Q t) as Hlow.
  2: { apply Hlow; [done|vm_compute; discriminate|done]. }
  induction fuel as [|fuel IH]; intros p t Hp Hf HIp.
  { pose proof (Z.div_le_mono p low_pages 134217728). lia. }
  cbn [walk_loop]. rewrite (proj2 (Z.ltb_lt (4096 * p) KERNEL_LIM)) by (unfold low_pages, KERNEL_LIM in *; lia).
  destruct (low_next (512 * 512 * 512) pml4_end p pml4_bounds Hp) as (Hup & Ec & ->).
  change (512 * 512 * 512) with 134217728 in *. set (up := (p `div` 134217728 + 1) * 134217728) in *. cbv zeta.
  assert (∀ m, wp (pml4_visit pml4 w (4096 * p) (4096 * up)) (λ r t, if r <? 0 then Q r t else wp m Q t) t ↔
    wp (try_ (pml4_visit pml4 w (4096 * p) (4096 * up)) m) Q t) as Htry.
  { intros m. unfold try_, wp, mbind, M_bind. destruct (pml4_visit _ _ _ _ t) as [r t'|]; [|done]. by destruct (r <? 0). }
  assert (near 1 (chunk_end 134217728 p low_pages) (4096 * up)) as Hn by (rewrite Ec; unfold near; lia).
  case_decide as Eu.
  - change ((KERNEL_LIM <? HIGH) || (HIGH <? 4096 * p)) with (HIGH <? 4096 * p).
    rewrite (proj2 (Z.ltb_ge HIGH (4096 * p))) by (unfold HIGH, low_pages in *; lia).
    eapply wp_eq; [eapply try_eq; [by apply pml4_visit_fold|reflexivity]|]. rewrite <-Eu.
    apply Htry. eapply wp_mono; [by apply HL|]. cbv beta. intros r t1 Ht. destruct (r <? 0); [done|].
    change HIGH with (4096 * high_page). rewrite Ec, Eu in Ht.
    eapply (walk_loop_rule 134217728 1 _ _ I Q high_page (2 ^ 52));
      [apply pml4_bounds|unfold one_half, high_page; lia|done|done|done|lia|exact HH|exact HQ|by apply Hjump|].
    change ((2 ^ 52 - 1) / 134217728 - high_page / 134217728 + 2) with 257.
    rewrite Eu in Hup. change (low_pages / 134217728) with 256 in Hf. unfold low_pages in *.
    unfold up, low_pages in Eu. lia.
  - rewrite (proj2 (Z.ltb_ge KERNEL_LIM (4096 * up))) by (unfold KERNEL_LIM, low_pages in *; lia).
    rewrite (proj2 (Z.ltb_ge (4096 * up) (4096 * p))) by lia. cbn [orb]. apply Htry.
    eapply wp_mono; [by apply HL|]. cbv beta. intros r t1 Ht. destruct (r <? 0); [done|]. rewrite Ec in Ht.
    apply IH; [lia| |done]. assert (up / 134217728 = p / 134217728 + 1) by (unfold up; apply Z.div_mul; lia). lia.
Qed.
End all.
