(* ===== verification/PageRead.v ===== *)
(** * Walks that leave the tables alone

    Lookups, permission checks and changes of permission visit the entries of
    the tables that exist.  [reader_ok] collects what such a walker does at
    each kind of entry; [read_walk] puts the pieces together. *)

From S2P Require Import Prelude LinkedList Paging Spinlock Buddy BuddyProofs RbTree Kernel PageWalk PageWalkProofs AddrSpace PageTable PageTableProofs PageMap.

Local Open Scope Z_scope.

Section readers.
Context {U : Type} (w : page_walker U) (n root : Z) (T : tmap).
Context (J : Z → kernel * U → Prop) (D : Z → Prop) (Q : Z → kernel * U → Prop).

(** [J j]: the pages before [j] have been dealt with; [D j]: what the
    callback of the page directory has established for page [j]; [Q]: what
    holds when a callback stops the walk. *)
Record reader_ok (p0 q0 : Z) : Prop := {
  rd_small : n < 2 ^ 31;
  rd_ok j s : J j s → pt_ok n T (phys (km s.1)) root ∧ npages (km s.1) = n;
  rd_dir j l : j `div` 512 = l `div` 512 → D j → D l;
  rd_pte j s f next : p0 ≤ j < q0 → J j s → D j → T !! path1 j = Some f →
    wp (ptbl_visit (kva f) w (4096 * j) next) (λ r t, if r <? 0 then Q r t else J (j + 1) t) s;
  rd_pde j s f e : p0 ≤ j < q0 → J j s → T !! path2 j = Some f →
    wp (call (pde_callback w) (entry_ptr (kva f) (i1 j)) (4096 * j) e) (λ r t, if r <? 0 then Q r t else J j t ∧ D j) s;
  rd_pdpte j s f e : p0 ≤ j < q0 → J j s → T !! path3 j = Some f →
    wp (call (pdpte_callback w) (entry_ptr (kva f) (i2 j)) (4096 * j) e) (λ r t, if r <? 0 then Q r t else J j t) s;
  rd_pml4e j s f e : p0 ≤ j < q0 → J j s → T !! [] = Some f →
    wp (call (pml4e_callback w) (entry_ptr (kva f) (i3 j)) (4096 * j) e) (λ r t, if r <? 0 then Q r t else J j t) s;
  rd_hole j j' s e : p0 ≤ j < j' → j' ≤ q0 → J j s → (∀ l, j ≤ l < j' → T !! path1 l = None) →
    wp (call_hole w (4096 * j) e) (λ r t, if r <? 0 then Q r t else J j' t) s;
  rd_rest : pte_unmap w = None ∧ pde_unmap w = None ∧ pdpte_unmap w = None ∧ pml4e_unmap w = None;
}.

Context (p0 q0 : Z) (R0 : reader_ok p0 q0).

Lemma read_walk0 p q f e s : one_half p q → p0 ≤ p < q → q ≤ q0 → (q - 1) `div` 512 = p `div` 512 → D p →
  T !! path1 p = Some f → near 4 q e → e < 4096 * q → J p s →
  wp (ptbl_walk_range (kva f) (4096 * p) e w) (λ r t, if r <? 0 then Q r t else r = 0 ∧ J q t) s.
Proof.
  intros Hh Hp Hq Hsame HD Hf Hn He HJ.
  eapply (ptbl_walk_rule _ _ J _ p q); [done|lia|done|done|done| |by intros t Ht|done].
  intros j next s1 Hj HJj Hnext.
  assert (chunk_end 1 j q = j + 1) as -> by (unfold chunk_end; rewrite Z.div_1_r; lia).
  eapply wp_mono; [eapply (rd_pte _ _ R0 j s1 f next); [lia|done| |]|].
  - eapply (rd_dir _ _ R0 p); [mlia|done].
  - rewrite (path1_same j p) by mlia. done.
  - cbv beta. intros r t Hr. by destruct (r <? 0).
Qed.

Lemma read_walk1 p q f e s : one_half p q → p0 ≤ p < q → q ≤ q0 →
  (q - 1) `div` (512 * 512) = p `div` (512 * 512) → T !! path2 p = Some f →
  near 3 q e → e < 4096 * q → J p s →
  wp (pdir_walk_range (kva f) (4096 * p) e w) (λ r t, if r <? 0 then Q r t else r = 0 ∧ J q t) s.
Proof.
  intros Hh Hp Hq Hsame Hf Hn He HJ.
  eapply (pdir_walk_rule _ _ J _ p q); [done|lia|done|done|done| |by intros t Ht|done].
  intros j next [k u] Hj HJj Hnext. destruct (one_half_range p q Hh) as [Hp1 Hq1]; [lia|].
  pose proof (chunk_end_gt 512 j q ltac:(lia) ltac:(lia)) as Hc. pose proof (chunk_end_same 512 j q ltac:(lia) ltac:(lia)) as Hcs.
  set (j' := chunk_end 512 j q) in *. clearbody j'.
  unfold pdir_visit. rewrite PD_index. cbv zeta.
  rewrite (path2_same p j) in Hf by mlia.
  assert (0 ≤ i1 j < 512) as Hib by apply index_bounds.
  apply wp_try. eapply wp_mono; [eapply (rd_pde _ _ R0); [lia|done|done]|]. cbv beta. intros r [k1 u1] Hr1.
  destruct (r <? 0) eqn:Er; [done|]. destruct Hr1 as [HJ1 HD].
  destruct (rd_ok _ _ R0 j (k1, u1) HJ1) as [Ht Enp]. simpl in Ht, Enp.
  assert (0 ≤ f < npages (km k1)) as Hfn by (rewrite Enp; by eapply pt_range).
  wp_step. apply wp_mcall, wp_read_entry; [done|done|]. rewrite set_km_id.
  destruct (near_prev 3 j j' next Hnext) as (-> & Hn4 & Hlt); [lia|lia|lia|].
  destruct (T !! path1 j) as [f1|] eqn:Hf1.
  - destruct (pt_child_Some n root T (phys (km k1)) (path2 j) f (i1 j) f1) as (Hpr & Hhu & Hfr); [done|done|simpl; lia|done|done|].
    rewrite Hpr, Hhu. simpl negb. cbv iota. apply wp_try. wp_step. apply wp_mcall, wp_KADDR; [rewrite Hfr, Enp; by eapply pt_range|rewrite Enp; apply R0|].
    rewrite Hfr, set_km_id.
    eapply wp_mono; [eapply (read_walk0 j j' f1); [by eapply one_half_sub; [exact Hh|lia|lia]|lia|lia|mlia|exact HD|exact Hf1|exact Hn4|exact Hlt|exact HJ1]|].
    cbv beta. intros r2 t Hr2. destruct (r2 <? 0) eqn:Er2; [done|]. destruct Hr2 as [-> HJ2].
    destruct (rd_rest _ _ R0) as (_ & -> & _). apply wp_try. simpl. apply wp_ret. simpl. apply wp_ret. done.
  - rewrite (pt_child_None n root T (phys (km k1)) (path2 j) f (i1 j)); [|done|done|simpl; lia|done|done].
    apply wp_try. eapply wp_mono; [eapply (rd_hole _ _ R0 j j'); [lia|lia|exact HJ1|]|].
    + intros l Hl. rewrite (path1_same l j) by mlia. done.
    + cbv beta. intros r2 t Hr2. destruct (r2 <? 0) eqn:Er2; [done|]. apply wp_ret. done.
Qed.

Lemma read_walk2 p q f e s : one_half p q → p0 ≤ p < q → q ≤ q0 →
  (q - 1) `div` (512 * 512 * 512) = p `div` (512 * 512 * 512) → T !! path3 p = Some f →
  near 2 q e → e < 4096 * q → J p s →
  wp (pdpt_walk_range (kva f) (4096 * p) e w) (λ r t, if r <? 0 then Q r t else r = 0 ∧ J q t) s.
Proof.
  intros Hh Hp Hq Hsame Hf Hn He HJ.
  eapply (pdpt_walk_rule _ _ J _ p q); [done|lia|done|done|done| |by intros t Ht|done].
  intros j next [k u] Hj HJj Hnext. destruct (one_half_range p q Hh) as [Hp1 Hq1]; [lia|].
  pose proof (chunk_end_gt (512 * 512) j q ltac:(lia) ltac:(lia)) as Hc. pose proof (chunk_end_same (512 * 512) j q ltac:(lia) ltac:(lia)) as Hcs.
  set (j' := chunk_end (512 * 512) j q) in *. clearbody j'.
  unfold pdpt_visit. rewrite PDPT_index. cbv zeta.
  rewrite (path3_same p j) in Hf by mlia.
  assert (0 ≤ i2 j < 512) as Hib by apply index_bounds.
  apply wp_try. eapply wp_mono; [eapply (rd_pdpte _ _ R0); [lia|done|done]|]. cbv beta. intros r [k1 u1] HJ1.
  destruct (r <? 0) eqn:Er; [done|].
  destruct (rd_ok _ _ R0 j (k1, u1) HJ1) as [Ht Enp]. simpl in Ht, Enp.
  assert (0 ≤ f < npages (km k1)) as Hfn by (rewrite Enp; by eapply pt_range).
  wp_step. apply wp_mcall, wp_read_entry; [done|done|]. rewrite set_km_id.
  destruct (near_prev 2 j j' next Hnext) as (-> & Hn4 & Hlt); [lia|lia|lia|].
  destruct (T !! path2 j) as [f1|] eqn:Hf1.
  - destruct (pt_child_Some n root T (phys (km k1)) (path3 j) f (i2 j) f1) as (Hpr & Hhu & Hfr); [done|done|simpl; lia|done|done|].
    rewrite Hpr, Hhu. simpl negb. cbv iota. apply wp_try. wp_step. apply wp_mcall, wp_KADDR; [rewrite Hfr, Enp; by eapply pt_range|rewrite Enp; apply R0|].
    rewrite Hfr, set_km_id.
    eapply wp_mono; [eapply (read_walk1 j j' f1); [by eapply one_half_sub; [exact Hh|lia|lia]|lia|lia|mlia|exact Hf1|exact Hn4|exact Hlt|exact HJ1]|].
    cbv beta. intros r2 t Hr2. destruct (r2 <? 0) eqn:Er2; [done|]. destruct Hr2 as [-> HJ2].
    destruct (rd_rest _ _ R0) as (_ & _ & -> & _). apply wp_try. simpl. apply wp_ret. simpl. apply wp_ret. done.
  - rewrite (pt_child_None n root T (phys (km k1)) (path3 j) f (i2 j)); [|done|done|simpl; lia|done|done].
    apply wp_try. eapply wp_mono; [eapply (rd_hole _ _ R0 j j'); [lia|lia|exact HJ1|]|].
    + intros l Hl. unfold path1. apply (pt_no_child n root T (phys (km k1))); [done|]. rewrite (path2_same l j) by mlia. done.
    + cbv beta. intros r2 t Hr2. destruct (r2 <? 0) eqn:Er2; [done|]. apply wp_ret. done.
Qed.

(** One round at the root. *)
Lemma read_visit3 p q f R : one_half p q → p0 ≤ p < q → q ≤ q0 → T !! [] = Some f →
  (∀ r t, r < 0 → Q r t → R r t) → visit_ok (512 * 512 * 512) 1 (pml4_visit (kva f) w) J R p q.
Proof.
  intros Hh Hp Hq Hf HR. intros j next s Hj HJj Hnext.
  eapply (wp_mono _ (λ r t, if r <? 0 then Q r t else J (chunk_end (512 * 512 * 512) j q) t));
    [|intros r t; destruct (r <? 0) eqn:Er; [apply Z.ltb_lt in Er; auto|done]].
  destruct s as [k u]. destruct (one_half_range p q Hh) as [Hp1 Hq1]; [lia|].
  pose proof (chunk_end_gt (512 * 512 * 512) j q ltac:(lia) ltac:(lia)) as Hc. pose proof (chunk_end_same (512 * 512 * 512) j q ltac:(lia) ltac:(lia)) as Hcs.
  set (j' := chunk_end (512 * 512 * 512) j q) in *. clearbody j'.
  unfold pml4_visit. rewrite PML4_index. cbv zeta.
  assert (0 ≤ i3 j < 512) as Hib by apply index_bounds.
  apply wp_try. eapply wp_mono; [eapply (rd_pml4e _ _ R0); [lia|done|done]|]. cbv beta. intros r [k1 u1] HJ1.
  destruct (r <? 0) eqn:Er; [done|].
  destruct (rd_ok _ _ R0 j (k1, u1) HJ1) as [Ht Enp]. simpl in Ht, Enp.
  assert (0 ≤ f < npages (km k1)) as Hfn by (rewrite Enp; by eapply pt_range).
  wp_step. apply wp_mcall, wp_read_entry; [done|done|]. rewrite set_km_id.
  destruct (near_prev 1 j j' next Hnext) as (-> & Hn4 & Hlt); [lia|lia|lia|].
  destruct (T !! path3 j) as [f1|] eqn:Hf1.
  - destruct (pt_child_Some n root T (phys (km k1)) ([]) f (i3 j) f1) as (Hpr & Hhu & Hfr); [done|done|simpl; lia|done|done|].
    rewrite Hpr. cbv iota. apply wp_try. wp_step. apply wp_mcall, wp_KADDR; [rewrite Hfr, Enp; by eapply pt_range|rewrite Enp; apply R0|].
    rewrite Hfr, set_km_id.
    eapply wp_mono; [eapply (read_walk2 j j' f1); [by eapply one_half_sub; [exact Hh|lia|lia]|lia|lia|mlia|exact Hf1|exact Hn4|exact Hlt|exact HJ1]|].
    cbv beta. intros r2 t Hr2. destruct (r2 <? 0) eqn:Er2; [done|]. destruct Hr2 as [-> HJ2].
    destruct (rd_rest _ _ R0) as (_ & _ & _ & ->). apply wp_try. simpl. apply wp_ret. simpl. apply wp_ret. done.
  - rewrite (pt_child_None n root T (phys (km k1)) ([]) f (i3 j)); [|done|done|simpl; lia|done|done].
    apply wp_try. eapply wp_mono; [eapply (rd_hole _ _ R0 j j'); [lia|lia|exact HJ1|]|].
    + intros l Hl. unfold path1. apply (pt_no_child n root T (phys (km k1))); [done|]. unfold path2. apply (pt_no_child n root T (phys (km k1))); [done|]. rewrite (path3_same l j) by mlia. done.
    + cbv beta. intros r2 t Hr2. destruct (r2 <? 0) eqn:Er2; [done|]. apply wp_ret. done.
Qed.

Lemma read_walk3 p q f e s : one_half p q → p0 ≤ p < q → q ≤ q0 →
  T !! [] = Some f →
  near 1 q e → e < 4096 * q → J p s →
  wp (pml4_walk_range (kva f) (4096 * p) e w) (λ r t, if r <? 0 then Q r t else r = 0 ∧ J q t) s.
Proof.
  intros Hh Hp Hq Hf Hn He HJ. eapply (pml4_walk_rule _ _ J _ p q); [done|lia|done|done| |by intros t Ht|done].
  apply read_visit3; [done..|]. intros r t Hr Ht. by rewrite (proj2 (Z.ltb_lt r 0) Hr).
Qed.

Lemma read_walk s : one_half p0 q0 → p0 < q0 → q0 < 2 ^ 52 - 1 → J p0 s →
  wp (walk_page_range (kva root) (4096 * p0) (4096 * q0) w) (λ r t, if r <? 0 then Q r t else r = 0 ∧ J q0 t) s.
Proof.
  intros Hh Hp Hq HJ. unfold walk_page_range.
  rewrite rounddown_page, roundup_page, (u64_id (4096 * q0 - 1)) by (unfold one_half in Hh; lia).
  eapply (read_walk3 p0 q0); try done; try (unfold near; lia).
  by eapply pt_root; apply (rd_ok _ _ R0 p0 s).
Qed.
End readers.

(** ** Looking a page up *)

Section lookup.
Context `{Layout} (base n root : Z) (L : layout_ok base n).
Implicit Types (k : kernel) (g : blocks) (T : tmap).

(** [ptr] points to the last mapped entry of the pages [p..j-1]. *)
Definition last_entry k T (p j ptr : Z) : Prop :=
  (ptr = NULL ∧ ∀ l, p ≤ l < j → view T (phys (km k)) l = None) ∨
  (∃ l f, p ≤ l < j ∧ T !! path1 l = Some f ∧ is_Some (view T (phys (km k)) l) ∧ ptr = entry_ptr (kva f) (i0 l) ∧
    ∀ l', l < l' < j → view T (phys (km k)) l' = None).

Lemma last_entry_skip k T p j j' ptr : last_entry k T p j ptr → j ≤ j' →
  (∀ l, j ≤ l < j' → view T (phys (km k)) l = None) → last_entry k T p j' ptr.
Proof.
  intros [[-> Hn]|(l & f & Hl & ? & ? & ? & Hn)] Hj Hs; [left|right].
  - split; [done|]. intros l Hl. destruct (decide (l < j)); [apply Hn|apply Hs]; lia.
  - exists l, f. split_and!; try done; try lia. intros l' Hl'. destruct (decide (l' < j)); [apply Hn|apply Hs]; lia.
Qed.

Lemma lookup_walk k g T p q : space base n root k g T → one_half p q → p < q → q < 2 ^ 52 - 1 →
  wp (walk_page_range (kva root) (4096 * p) (4096 * q) lookup_walker)
    (λ r t, r = 0 ∧ t.1 = k ∧ last_entry k T p q t.2) (k, NULL).
Proof.
  intros Hs Hh Hp Hq. eapply wp_mono; [eapply (read_walk lookup_walker n root T
    (λ j s, s.1 = k ∧ last_entry k T p j s.2) (λ _, True) (λ _ _, False) p q); [|done|done|done|]|].
  - split; try done.
    + apply (layout_small base n L).
    + intros j [k' u] [Ek _]. simpl in *. subst k'. split; [apply Hs|by eapply space_npages].
    + intros j [k' u] f next Hj [Ek HJ] _ Hf. simpl in Ek, HJ. subst k'. pose proof (view_entry T (phys (km k)) j f Hf) as Hv.
      pose proof (space_frame _ _ _ _ _ _ _ _ Hs Hf) as Hfn.
      unfold ptbl_visit. rewrite PT_index. cbv zeta. apply wp_try. simpl call. unfold lookup_pte.
      wp_step. apply wp_mcall, wp_read_entry; [done|apply index_bounds|]. rewrite set_km_id. wp_step.
      assert (∀ u', last_entry k T p (j + 1) u' → wp (e ← mcall (read_word (entry_ptr (kva f) (i0 j)));
        if has e PAGE_PRESENT then try_ (call (pte_unmap lookup_walker) (entry_ptr (kva f) (i0 j)) (4096 * j) (u64 (next - 1))) (mret 0)
        else try_ (call_hole lookup_walker (4096 * j) (u64 (next - 1))) (mret 0))
        (λ r t, if r <? 0 then False else t.1 = k ∧ last_entry k T p (j + 1) t.2) (k, u')) as Hrest.
      { intros u' Hu'. wp_step. apply wp_mcall, wp_read_entry; [done|apply index_bounds|]. rewrite set_km_id.
        case_match; apply wp_try; simpl; apply wp_ret; simpl; by apply wp_ret. }
      destruct (has (entry (phys (km k)) f (i0 j)) PAGE_PRESENT) eqn:Ep.
      * apply wp_modify, wp_ret. simpl. apply Hrest. right. exists j, f.
        split; [lia|]. split; [done|]. split; [by rewrite Hv|]. split; [done|]. intros l' Hl'. lia.
      * apply wp_ret, wp_ret. simpl. apply Hrest. eapply last_entry_skip; [done|lia|].
        intros l Hl. by replace l with j by lia.
    + intros j j' [k' u] e Hj Hj' [Ek HJ] Hhole. simpl in *. subst k'. apply wp_ret. simpl. split; [done|].
      eapply last_entry_skip; [done|lia|]. intros l Hl. unfold view. by rewrite Hhole.
  - split; [done|left]. split; [done|]. intros l Hl. lia.
  - cbv beta. intros r t Hr. destruct (r <? 0); [done|]. by destruct Hr as [-> [? ?]].
Qed.

Lemma frame_small e : 0 ≤ frame_of e < 2 ^ 31 → sign_extend (PAGE_ADDR e) = PAGE_ADDR e ∧ PAGE_ADDR e < KERNEL_VMA.
Proof.
  unfold frame_of. rewrite PAGE_INDEX_div. intros Hf.
  assert (0 ≤ PAGE_ADDR e < 2 ^ 43) as Hp by mlia.
  unfold sign_extend, USER_LIM, KERNEL_VMA. rewrite (proj2 (Z.ltb_lt _ _)) by lia. split; [done|lia].
Qed.

(** The second half of [page_lookup]: from the entry to the page. *)
Definition lookup_result k T p q es (r : Z * option Z) : Prop :=
  ((∀ l, p ≤ l < q → view T (phys (km k)) l = None) ∧ r = (NULL, es)) ∨
  (∃ l f e, p ≤ l < q ∧ T !! path1 l = Some f ∧ view T (phys (km k)) l = Some e ∧
    (∀ l', l < l' < q → view T (phys (km k)) l' = None) ∧
    r = (pg base (frame_of e),
         match es with Some v => if v =? NULL then Some v else Some (entry_ptr (kva f) (i0 l)) | None => None end)).

Lemma page_lookup_spec k g T p q va es : space base n root k g T → one_half p q → p < q → q < 2 ^ 52 - 1 →
  ROUNDDOWN va PAGE_SIZE = 4096 * p → ROUNDUP (u64 (va + PAGE_SIZE)) PAGE_SIZE = 4096 * q →
  (∀ l e, p ≤ l < q → view T (phys (km k)) l = Some e → 0 ≤ frame_of e < n) →
  ∃ r, page_lookup (kva root) va es k = OK r k ∧ lookup_result k T p q es r.
Proof.
  intros Hs Hh Hp Hq Edn Eup Hfr. pose proof (layout_small base n L) as Hn31.
  assert (wp (page_lookup (kva root) va es) (λ r k', k' = k ∧ lookup_result k T p q es r) k) as
    (r & k' & E & -> & Hr)%wp_elim; [|by exists r].
  unfold page_lookup. wp_step. apply wp_with_udata.
  replace (walk_page_range (kva root) va (u64 (va + PAGE_SIZE)) lookup_walker)
    with (walk_page_range (kva root) (4096 * p) (4096 * q) lookup_walker).
  2: { unfold walk_page_range. rewrite Edn, Eup, rounddown_page, roundup_page by (unfold one_half in Hh; lia). done. }
  eapply wp_mono; [by eapply lookup_walk|]. cbv beta. intros r [k' ptr] (-> & Ek & Hl). simpl in *. subst k'.
  destruct Hl as [[-> Hnone]|(l & f & Hl & Hf & [e He] & -> & Hlast)].
  { simpl. apply wp_ret. split; [done|by left]. }
  pose proof (view_entry T (phys (km k)) l f Hf) as Hv. rewrite He in Hv.
  pose proof (space_frame _ _ _ _ _ _ _ _ Hs Hf) as Hfn. pose proof (space_npages _ _ _ _ _ _ Hs) as Enp.
  assert (pages (km k) = base) as Hbase by apply Hs.
  assert (entry (phys (km k)) f (i0 l) = e) as Ee. { by destruct (has (entry (phys (km k)) f (i0 l)) PAGE_PRESENT); [injection Hv|]. }
  pose proof (Hfr l e Hl He) as Hfe. destruct (frame_small e ltac:(lia)) as [Ese Hlt].
  rewrite (proj2 (Z.eqb_neq _ _)).
  2: { unfold entry_ptr, kva, KERNEL_VMA, PAGE_SIZE, NULL. pose proof (index_bounds l). lia. }
  assert (∀ (es' : option Z), wp (e ← on_km (read_word (entry_ptr (kva f) (i0 l)));
      let pa := sign_extend (PAGE_ADDR e) in
      pa ← (if KERNEL_VMA <=? pa then on_km (PADDR pa) else mret pa);
      p ← on_km (pa2page pa); mret (p, es')) (λ r k', k' = k ∧ r = (pg base (frame_of e), es')) k) as Hrd.
  { intros es'. wp_step. apply wp_on_km, wp_read_entry; [done|apply index_bounds|]. rewrite Ee, set_km_id. cbv zeta.
    rewrite Ese, (proj2 (Z.leb_gt _ _) Hlt). wp_step. apply wp_ret. wp_step.
    apply wp_on_km, (wp_pa2page base); [done|by rewrite Enp|]. rewrite set_km_id. by apply wp_ret. }
  assert (lookup_result k T p q es (pg base (frame_of e),
    match es with Some v => if v =? NULL then Some v else Some (entry_ptr (kva f) (i0 l)) | None => None end)) as Hres.
  { right. by exists l, f, e. }
  destruct es as [v|].
  - destruct (v =? NULL).
    + eapply wp_mono; [apply Hrd|]. by intros ? ? [-> ->].
    + wp_step. apply wp_on_km, wp_read_entry; [done|apply index_bounds|]. rewrite Ee, set_km_id, Ese.
      wp_step. apply wp_on_km, (wp_pa2page base); [done|by rewrite Enp|]. rewrite set_km_id. by apply wp_ret.
  - eapply wp_mono; [apply Hrd|]. by intros ? ? [-> ->].
Qed.
End lookup.

(** ** Checking user memory *)

(** Page [j] can be used with the permissions [flags]: its directory entry
    and its entry have them. *)
Definition accessible (ph : physmem) (root flags j : Z) : Prop :=
  ∃ d e, directory ph root j = Some d ∧ Z.land d flags = flags ∧ translate ph root j = Some e ∧ Z.land e flags = flags.

Section check.
Context `{Layout} (base n root : Z) (L : layout_ok base n).
Implicit Types (k : kernel) (g : blocks) (T : tmap).

Lemma land_present x flags : Z.land x flags = flags → has flags PAGE_PRESENT = true → has x PAGE_PRESENT = true.
Proof.
  intros E. unfold has. rewrite <-E, <-Z.land_assoc, !negb_true_iff, !Z.eqb_neq. intros Hn Hx. apply Hn.
  by rewrite (Z.land_comm flags), Z.land_assoc, Hx.
Qed.

Lemma check_walk k g T p q flags : space base n root k g T → one_half p q → p < q → q < 2 ^ 52 - 1 →
  has flags PAGE_PRESENT = true →
  wp (walk_page_range (kva root) (4096 * p) (4096 * q) user_walker) (λ r t, t.1 = k ∧
    (if r <? 0 then r = -1 ∧ ∃ j, p ≤ j < q ∧ ui_va t.2 = 4096 * j ∧ ¬ accessible (phys (km k)) root flags j ∧
        ∀ l, p ≤ l < j → accessible (phys (km k)) root flags l
     else r = 0 ∧ ∀ l, p ≤ l < q → accessible (phys (km k)) root flags l)) (k, UserInfo 0 flags).
Proof.
  intros Hs Hh Hp Hq Hfl. pose proof (sp_tables _ _ _ _ _ _ Hs) as Ht.
  set (acc := accessible (phys (km k)) root flags).
  set (Bad := λ (r : Z) (t : kernel * user_info), t.1 = k ∧ r = -1 ∧
    ∃ j, p ≤ j < q ∧ ui_va t.2 = 4096 * j ∧ ¬ acc j ∧ ∀ l, p ≤ l < j → acc l).
  set (dir_ok := λ j, ∃ f, T !! path2 j = Some f ∧ Z.land (entry (phys (km k)) f (i1 j)) flags = flags).
  eapply wp_mono; [eapply (read_walk user_walker n root T
    (λ j s, s = (k, UserInfo 0 flags) ∧ ∀ l, p ≤ l < j → acc l) dir_ok Bad p q); [|done|done|done|]|].
  - split.
    + apply (layout_small base n L).
    + intros j s [-> _]. split; [done|by eapply space_npages].
    + intros j l E (f & Hf & Hd). exists f. rewrite (path2_same l j) by mlia. split; [done|].
      unfold i1 in *. by rewrite <-E.
    + intros j s f next Hj [-> Hacc] (f2 & Hf2 & Hd) Hf. pose proof (view_entry T (phys (km k)) j f Hf) as Hv.
      rewrite <-(translate_view n root T) in Hv by done.
      pose proof (space_frame _ _ _ _ _ _ _ _ Hs Hf) as Hfn.
      unfold ptbl_visit. rewrite PT_index. cbv zeta. apply wp_try. simpl call. unfold check_user_pte.
      wp_step. apply wp_gets. simpl. wp_step. apply wp_mcall, wp_read_entry; [done|apply index_bounds|]. rewrite set_km_id.
      destruct (Z.eqb_spec (Z.land (entry (phys (km k)) f (i0 j)) flags) flags) as [E|E]; simpl.
      * apply wp_ret. simpl. wp_step. apply wp_mcall, wp_read_entry; [done|apply index_bounds|]. rewrite set_km_id.
        rewrite (land_present _ _ E Hfl) in *. apply wp_try. simpl. apply wp_ret. simpl. apply wp_ret. simpl.
        split; [done|]. intros l Hl. destruct (decide (l = j)) as [->|]; [|apply Hacc; lia].
        eexists _, _. split; [by rewrite (directory_view n root T), Hf2|]. done.
      * wp_step. apply wp_modify, wp_ret. simpl. split; [done|]. split; [done|]. exists j. split; [lia|]. split; [done|].
        split; [|done]. intros (d & e' & _ & _ & He & Hle). rewrite Hv in He. case_match; congruence.
    + intros j s f e Hj [-> Hacc] Hf. simpl. unfold check_user_pde. wp_step. apply wp_gets. simpl.
      wp_step. apply wp_mcall, wp_read_entry; [by eapply space_frame|apply index_bounds|]. rewrite set_km_id.
      destruct (Z.eqb_spec (Z.land (entry (phys (km k)) f (i1 j)) flags) flags) as [E|E]; simpl.
      * apply wp_ret. simpl. split; [done|]. by exists f.
      * wp_step. apply wp_modify, wp_ret. simpl. split; [done|]. split; [done|]. exists j. split; [lia|]. split; [done|].
        split; [|done]. intros (d & e' & Hd & Hld & _). rewrite (directory_view n root T), Hf in Hd by done. simpl in Hd. congruence.
    + intros j s f e Hj HJ Hf. simpl. by apply wp_ret.
    + intros j s f e Hj HJ Hf. simpl. by apply wp_ret.
    + intros j j' s e Hj Hj' [-> Hacc] Hhole. unfold call_hole. cbn [pt_hole_callback user_walker]. unfold check_user_hole. wp_step. apply wp_gets. simpl.
      wp_step. apply wp_modify, wp_ret. simpl. split; [done|]. split; [done|]. exists j. split; [lia|]. split; [done|].
      split; [|done]. intros (d & e' & _ & _ & He & _). rewrite (translate_view n root T) in He by done.
      unfold view in He. by rewrite Hhole in He by lia.
    + done.
  - split; [done|]. intros l Hl. lia.
  - cbv beta. intros r t Hr. destruct (r <? 0); [by destruct Hr as (? & ? & ?)|]. by destruct Hr as [-> [-> ?]].
Qed.
End check.

(** ** Changing permissions *)

(** What [protect_pte] makes of an entry. *)
Definition protect_entry (flags e : Z) : Z :=
  if Z.land e PROTECT_FLAGS =? flags then e
  else Z.lor (Z.lor (Z.land e (not64 PROTECT_FLAGS)) flags) PAGE_PRESENT.

Section protect.
Context `{Layout} (base n root : Z) (L : layout_ok base n).
Implicit Types (k : kernel) (g : blocks) (T : tmap).

Lemma land_word e m : 0 ≤ e < 2 ^ 64 → u64 (Z.land e m) = Z.land e m.
Proof.
  intros He. unfold u64. rewrite <-!Z.land_ones by lia.
  rewrite <-Z.land_assoc, (Z.land_comm m), Z.land_assoc. f_equal. rewrite Z.land_ones by lia. by apply Z.mod_small.
Qed.

Lemma u64_range x : u64 x = x → 0 ≤ x < 2 ^ 64.
Proof. intros <-. apply Z.mod_pos_bound. done. Qed.

Lemma protect_pte_spec j f flags b e k (Q : Z → kernel * protect_info → Prop) :
  0 ≤ f < npages (km k) → 0 ≤ root → 0 ≤ flags < 2 ^ 64 → 0 ≤ entry (phys (km k)) f (i0 j) < 2 ^ 64 →
  let e0 := entry (phys (km k)) f (i0 j) in
  let k1 := set_km (set_phys (set_entry f (i0 j) (protect_entry flags e0) (phys (km k))) (km k)) k in
  Q 0 (if Z.land e0 PROTECT_FLAGS =? flags then k
       else if cr3 k =? root * PAGE_SIZE then set_tlb (delete (PAGE_INDEX b) (tlb k)) k1 else k1,
       ProtectInfo (kva root) flags) →
  wp (protect_pte (entry_ptr (kva f) (i0 j)) b e) Q (k, ProtectInfo (kva root) flags).
Proof.
  intros Hf Hr Hfl He e0 k1 HQ. assert (0 ≤ i0 j < 512) as Hi by apply index_bounds.
  unfold protect_pte. wp_step. apply wp_gets. simpl.
  wp_step. apply wp_mcall, wp_read_entry; [done|done|]. rewrite set_km_id. fold e0.
  wp_step. unfold protect_entry in k1. destruct (Z.land e0 PROTECT_FLAGS =? flags) eqn:E; simpl.
  { apply wp_ret, wp_ret. exact HQ. }
  wp_step. apply wp_mcall, wp_write_entry; [done|done|].
  wp_step. apply wp_mcall, wp_read_entry; [done|done|].
  wp_step. apply wp_mcall, wp_write_entry; [done|done|].
  wp_step. apply wp_mcall, wp_read_entry; [done|done|].
  wp_step. apply wp_mcall, wp_write_entry; [done|done|].
  simpl. rewrite !entry_set, !decide_True, !set_entry_twice by done.
  rewrite (land_word e0) by done. pose proof (u64_range _ (land_word e0 (not64 PROTECT_FLAGS) He)) as H1.
  rewrite (u64_lor _ flags) by done. pose proof (u64_range _ (u64_lor _ _ H1 Hfl)) as H2.
  rewrite (u64_lor _ PAGE_PRESENT) by (done || unfold PAGE_PRESENT; lia).
  apply wp_kcall, wp_tlb_invalidate; [done|]. apply wp_ret. exact HQ.
Qed.

Record protected k g T (p j flags : Z) k' : Prop := {
  pr_space : space base n root k' g T;
  pr_entry l f : canonical l → T !! path1 l = Some f → entry (phys (km k')) f (i0 l) =
    if decide (p ≤ l < j) then protect_entry flags (entry (phys (km k)) f (i0 l)) else entry (phys (km k)) f (i0 l);
  pr_tlb : tlb_ok root k → tlb_ok root k';
  pr_rest : k' = set_tlb (tlb k') (set_km (set_phys (phys (km k')) (km k)) k);
}.

(** The entry of page [l], and no other, is at index [i0 l] of its table. *)
Lemma leaf_unique T ph j l f : pt_ok n T ph root → canonical j → canonical l → T !! path1 j = Some f →
  T !! path1 l = Some f → i0 j = i0 l → j = l.
Proof. intros Hok Hj Hl Hfj Hfl Hi. apply path1_inj; [done|done| |done]. by eapply (pt_inj _ _ _ _ Hok). Qed.

Lemma protected_step k g T p j flags f k' : space base n root k g T → canonical j → p ≤ j → T !! path1 j = Some f →
  protected k g T p j flags k' → let e0 := entry (phys (km k)) f (i0 j) in
  let k1 := set_km (set_phys (set_entry f (i0 j) (protect_entry flags e0) (phys (km k'))) (km k')) k' in
  protected k g T p (j + 1) flags (if Z.land e0 PROTECT_FLAGS =? flags then k'
       else if cr3 k' =? root * PAGE_SIZE then set_tlb (delete j (tlb k')) k1 else k1).
Proof.
  intros Hs Hj Hpj Hf [Hs' He Ht Hr] e0 k1.
  assert (protect_entry flags e0 = e0 ∨ has (protect_entry flags e0) PAGE_PRESENT = true) as Hpe.
  { unfold protect_entry. case_match; [by left|right]. by rewrite has_lor, orb_true_r. }
  destruct (Z.land e0 PROTECT_FLAGS =? flags) eqn:E.
  - split; try done. intros l f' Hl Hf'. rewrite He by done. repeat case_decide; try done; try lia.
    replace l with j in * by lia. assert (f' = f) as -> by congruence. fold e0. unfold protect_entry. by rewrite E.
  - assert (has (protect_entry flags e0) PAGE_PRESENT = true) as Hp.
    { unfold protect_entry. rewrite E, has_lor. by rewrite orb_true_r. }
    set (k2 := if cr3 k' =? root * PAGE_SIZE then _ else _).
    assert (km k2 = km k1) as Ek by (unfold k2; by case_match).
    assert (space base n root k1 g T) as Hs1 by (by eapply set_phys_space).
    split.
    + by eapply space_km.
    + intros l f' Hl Hf'. rewrite Ek. simpl. rewrite entry_set. case_decide as Ed.
      * destruct Ed as [<- Ei]. assert (j = l) as <- by (eapply leaf_unique; [apply Hs|done..]).
        rewrite decide_True by lia. done.
      * rewrite He by done. repeat case_decide; try done; try lia. replace l with j in * by lia.
        assert (f' = f) by congruence. exfalso; apply Ed; split; congruence.
    + intros Hok. specialize (Ht Hok).
      eapply (tlb_ok_insert n root k' k2 T j (protect_entry flags e0)); [done|apply Hs'|rewrite Ek; apply Hs1| | | | |].
      * unfold k2. by case_match.
      * intros l Hl Hne. rewrite Ek. simpl. rewrite (view_set_leaf n root); [by rewrite decide_False|apply Hs'|done..].
      * rewrite Ek. simpl. rewrite (view_set_leaf n root); [|apply Hs'|done..]. by rewrite decide_True, Hp.
      * intros l Hne. unfold k2. case_match; [|done]. simpl. by apply lookup_delete_ne.
      * intros Hc. left. unfold k2. rewrite Hc, Z.eqb_refl. simpl. apply lookup_delete_eq.
    + unfold k2, k1. case_match; by rewrite Hr.
Qed.

(** [protect_region] rewrites the entries of the range in every table that
    exists. *)
Lemma protect_region_spec k g T p q flags : space base n root k g T → one_half p q → p < q → q < 2 ^ 52 - 1 →
  0 ≤ flags < 2 ^ 64 → (∀ l f, p ≤ l < q → T !! path1 l = Some f → 0 ≤ entry (phys (km k)) f (i0 l) < 2 ^ 64) →
  wp (protect_region (kva root) (4096 * p) (4096 * (q - p)) flags) (λ _ k', protected k g T p q flags k') k.
Proof.
  intros Hs Hh Hp Hq Hfl Hw. unfold protect_region. wp_step. apply wp_with_udata.
  replace (u64 (4096 * p + 4096 * (q - p))) with (4096 * q).
  2: { rewrite u64_id; [lia|]. unfold one_half in Hh. lia. }
  assert (0 ≤ root) as Hroot by (eapply pt_range; [apply Hs|apply Hs]).
  eapply wp_mono; [eapply (read_walk protect_walker n root T
    (λ j s, s.2 = ProtectInfo (kva root) flags ∧ protected k g T p j flags s.1) (λ _, True) (λ _ _, False) p q); [|done|done|done|]|].
  - split; try done.
    + apply (layout_small base n L).
    + intros j [k' u] [_ Hpr]. split; [apply Hpr|]. eapply space_npages. apply Hpr.
    + intros j [k' u] f next Hj [Hu Hpr] _ Hf. simpl in Hu, Hpr. subst u.
      assert (canonical j) as Hcj by (by eapply one_half_in).
      assert (entry (phys (km k')) f (i0 j) = entry (phys (km k)) f (i0 j)) as Ee.
      { rewrite (pr_entry _ _ _ _ _ _ _ Hpr) by done. by rewrite decide_False by lia. }
      pose proof (protected_step k g T p j flags f k' Hs Hcj ltac:(lia) Hf Hpr) as Hstep. cbv zeta in Hstep.
      unfold ptbl_visit. rewrite PT_index. cbv zeta. apply wp_try. simpl call.
      apply protect_pte_spec; [eapply space_frame; [apply Hpr|done]|done|done|rewrite Ee; by apply Hw|].
      rewrite Ee, PAGE_INDEX_page. simpl. revert Hstep. generalize (if Z.land (entry (phys (km k)) f (i0 j)) PROTECT_FLAGS =? flags then k' else
        if cr3 k' =? root * PAGE_SIZE then set_tlb (delete j (tlb k')) (set_km (set_phys (set_entry f (i0 j) (protect_entry flags (entry (phys (km k)) f (i0 j))) (phys (km k'))) (km k')) k')
        else set_km (set_phys (set_entry f (i0 j) (protect_entry flags (entry (phys (km k)) f (i0 j))) (phys (km k'))) (km k')) k').
      intros k2 Hstep. wp_step. apply wp_mcall, wp_read_entry; [eapply space_frame; [apply Hstep|done]|apply index_bounds|].
      rewrite set_km_id. case_match; apply wp_try; simpl; apply wp_ret; simpl; by apply wp_ret.
    + intros j j' [k' u] e Hj Hj' [Hu Hpr] Hhole. simpl in *. subst u. apply wp_ret. simpl. split; [done|].
      destruct Hpr as [? He ? ?]. split; try done. intros l f Hl Hf. rewrite He by done.
      repeat case_decide; try done; try lia. rewrite Hhole in Hf by lia. done.
  - split; [done|]. split; [done| |done|by destruct k as [[]]]. intros l f Hl Hf. by rewrite decide_False by lia.
  - cbv beta. intros r [k' u] Hr. destruct (r <? 0); [done|]. destruct Hr as [-> [_ Hpr]]. simpl. by apply wp_ret.
Qed.
End protect.
