(* ===== verification/PageUnmap.v ===== *)
(** * Removing mappings: [unmap_page_range] and the tables it frees

    After the pages of a range have been unmapped the walker frees, on its
    way up, every table without present entries. *)

From S2P Require Import Prelude LinkedList Paging Spinlock Buddy BuddyProofs RbTree Kernel PageWalk PageWalkProofs AddrSpace PageTable PageTableProofs PageMap.

Local Open Scope Z_scope.

Section unmap.
Context `{Layout} (base n root : Z) (L : layout_ok base n).
Implicit Types (k : kernel) (g : blocks) (T : tmap).

(** ** [ptbl_free] *)

(** The table in frame [f] has a present entry. *)
Definition present (ph : physmem) (f : Z) : Prop := ∃ i, 0 ≤ i < 512 ∧ has (entry ph f i) PAGE_PRESENT = true.

Lemma any_present_spec m c i (cnt : nat) : 0 ≤ c < npages m → 0 ≤ i → i + Z.of_nat cnt ≤ 512 →
  wp (any_present cnt (kva c) i) (λ b m', m' = m ∧
    if (b : bool) then present (phys m) c
    else ∀ i', i ≤ i' < i + Z.of_nat cnt → has (entry (phys m) c i') PAGE_PRESENT = false) m.
Proof.
  intros Hc. revert i. induction cnt as [|cnt IH]; intros i Hi Hn.
  { apply wp_ret. split; [done|]. intros i'. lia. }
  cbn [any_present]. wp_step. apply wp_read_entry; [done|lia|].
  destruct (has (entry (phys m) c i) PAGE_PRESENT) eqn:E.
  { apply wp_ret. split; [done|]. exists i. split; [lia|done]. }
  eapply wp_mono; [apply IH; lia|]. cbv beta. intros [] m' [-> Hb]; (split; [done|]); [done|]. intros i' Hi'.
  destruct (decide (i' = i)) as [->|]; [done|]. apply Hb. lia.
Qed.

(** What freeing (or keeping) the table [c] at [pth ++ [i]] does. *)
Record shrunk k g T pth i c k' g' T' : Prop := {
  sh_space : space base n root k' g' T';
  sh_tables : (T' = T ∧ ∀ y, free_frame g' y ↔ free_frame g y) ∨
    (T' = delete (pth ++ [i]) T ∧ ∀ y, free_frame g' y ↔ free_frame g y ∨ y = c);
  sh_view l : view T' (phys (km k')) l = view T (phys (km k)) l;
  sh_leaf pt f i' : T' !! pt = Some f → pt ≠ pth → entry (phys (km k')) f i' = entry (phys (km k)) f i';
  sh_infos y : 0 ≤ y < n → ¬ free_frame g y → y ≠ c → infos (km k') !! pg base y = infos (km k) !! pg base y;
  sh_tlb : tlb_ok root k → tlb_ok root k';
  sh_rest : k' = set_tlb (tlb k') (set_km (km k') k);
  sh_used : T' !! (pth ++ [i]) = Some c → present (phys (km k')) c;
}.

(** Forgetting cached translations is safe. *)
Lemma tlb_ok_subset k k' T T' : tlb_ok root k → pt_ok n T (phys (km k)) root → pt_ok n T' (phys (km k')) root →
  cr3 k' = cr3 k → tlb k' ⊆ tlb k → (∀ l, view T' (phys (km k')) l = view T (phys (km k)) l) → tlb_ok root k'.
Proof.
  intros Hok Ht Ht' Ec Hsub Hv Hc l e Hl He. rewrite (translate_view n root T'), Hv by done.
  rewrite <-(translate_view n root T) by done. apply Hok; [congruence|done|]. by eapply lookup_weaken.
Qed.

Lemma shrunk_refl k g T pth i c : space base n root k g T → present (phys (km k)) c → shrunk k g T pth i c k g T.
Proof. intros Hs Hc. split; try done; [by left|by destruct k]. Qed.

Lemma ptbl_free_spec {U} k (u : U) g T pth f i c b e : space base n root k g T → T !! pth = Some f →
  (length pth < 3)%nat → 0 ≤ i < 512 → T !! (pth ++ [i]) = Some c →
  wp (ptbl_free (entry_ptr (kva f) i) b e) (λ r w, r = 0 ∧ ∃ k' g' T', w = (k', u) ∧ shrunk k g T pth i c k' g' T') (k, u).
Proof.
  intros Hs Hf Hl Hi Hc. pose proof Hs as [Hb Ht Hu Hr Hz]. pose proof (layout_small base n L) as Hn31.
  pose proof (space_frame _ _ _ _ _ _ _ _ Hs Hf) as Hfn. pose proof (space_frame _ _ _ _ _ _ _ _ Hs Hc) as Hcn.
  pose proof (space_npages _ _ _ _ _ _ Hs) as Enp. assert (pages (km k) = base) as Hbase by apply Hs.
  destruct (pt_child_Some n root T _ pth f i c Ht Hf Hl Hi Hc) as (Hpr & _ & Hfr).
  unfold ptbl_free. wp_step. apply wp_mcall, wp_read_entry; [done|done|]. rewrite set_km_id, Hpr. simpl negb. cbv iota.
  wp_step. apply wp_mcall, wp_KADDR; [by rewrite Hfr|by rewrite Enp|]. rewrite Hfr, set_km_id.
  wp_step. apply wp_mcall. eapply wp_mono; [apply (any_present_spec _ c 0); [done|done|done]|].
  cbv beta. intros used m [-> Hused]. rewrite set_km_id. destruct used.
  { apply wp_ret. split; [done|]. exists k, g, T. split; [done|]. by apply shrunk_refl. }
  change (0 + Z.of_nat (Z.to_nat PAGE_TABLE_ENTRIES)) with 512 in Hused.
  wp_step. apply wp_mcall, wp_read_entry; [done|done|]. rewrite set_km_id. cbv zeta.
  wp_step. apply wp_mcall, (wp_pa2page base); [done|by rewrite Hfr|]. rewrite Hfr, set_km_id.
  assert (pth ++ [i] ≠ []) as Hne by (by destruct pth).
  pose proof (Hr _ _ Hc Hne) as Hrc. destruct (infos (km k) !! pg base c) as [ic|] eqn:Hic; [|done]. injection Hrc as Hrc.
  wp_step. apply wp_mcall. eapply wp_page_upd; [exact Hic|]. simpl.
  wp_step. apply wp_mcall. eapply wp_page_upd; [simpl; apply lookup_insert_eq|]. simpl. rewrite insert_insert_eq.
  set (ic0 := set_ref (pp_ref ic - 1) ic).
  wp_step. apply wp_kcall, wp_tlb_invalidate; [lia|]. simpl.
  set (k1 := if cr3 k =? c * PAGE_SIZE then _ else _).
  assert (km k1 = set_infos (<[pg base c := set_free 1 ic0]> (infos (km k))) (km k)) as Ek1 by (unfold k1; by case_match).
  assert (k1 = set_tlb (tlb k1) (set_km (km k1) k)) as Er1 by (unfold k1; case_match; by destruct k).
  assert (tlb k1 ⊆ tlb k) as Et1 by (unfold k1; case_match; [apply delete_subseteq|done]).
  clearbody k1. wp_step. apply wp_mcall, wp_write_entry; [by rewrite Ek1|done|]. change (u64 0) with 0.
  wp_step. apply wp_mcall. simpl km.
  set (m0 := set_phys (set_entry f i 0 (phys (km k))) (set_infos (<[pg base c := ic0]> (infos (km k))) (km k))).
  assert (¬ free_frame g c) as Hcf by (by eapply Hu).
  assert (infos m0 !! pg base c = Some ic0) as Hm0 by apply lookup_insert_eq.
  assert (set_phys (set_entry f i 0 (phys (km k1))) (km k1) = set_infos (<[pg base c := set_free 1 ic0]> (infos m0)) m0) as ->.
  { rewrite Ek1. unfold m0. simpl. by rewrite insert_insert_eq. }
  assert (buddy_inv base n m0 g) as Hb0. { apply buddy_inv_phys. eapply buddy_inv_upd; try done. lia. }
  apply page_free_marked; [exact Hm0|].
  eapply wp_mono; [eapply (page_free_spec base n L m0 g c ic0); [exact Hb0|lia|exact Hcf|exact Hm0|]|].
  { simpl. by rewrite Hrc. }
  cbv beta. intros _ m' (g' & Hb' & Hff & Hk & Hph).
  change (phys m0) with (set_entry f i 0 (phys (km k))) in Hph. apply wp_ret. split; [done|].
  eexists _, g', (delete (pth ++ [i]) T). split; [done|].
  assert (pt_ok n (delete (pth ++ [i]) T) (set_entry f i 0 (phys (km k))) root) as Ht' by (by eapply pt_remove).
  assert (∀ l, view (delete (pth ++ [i]) T) (set_entry f i 0 (phys (km k))) l = view T (phys (km k)) l) as Hv
    by (intros l; by eapply (view_remove n root)).
  split; simpl; rewrite ?Hph; try done.
  - split; simpl; try done.
    + by rewrite Hph.
    + intros pt x [Hpt Hx]%lookup_delete_Some [Hxf| ->]%Hff; [by eapply Hu|]. apply Hpt. by eapply (pt_inj _ _ _ _ Ht).
    + intros pt x [Hpt Hx]%lookup_delete_Some Hptn.
      assert (x ≠ c) as Hxc by (intros ->; apply Hpt; by eapply (pt_inj _ _ _ _ Ht)).
      rewrite (kept_infos _ _ _ _ _ _ Hk); [|by eapply (pt_range _ _ _ _ Ht)|by eapply Hu|done].
      simpl. rewrite lookup_insert_ne by (by intros ?%pg_inj). by eapply Hr.
    + intros a q Hq. destruct (kept_zero _ _ _ _ _ _ Hk a q Hq) as [?|Hq']; [done|]. simpl in Hq'.
      rewrite lookup_insert in Hq'. case_decide; simpl in Hq'; [injection Hq' as <-; simpl; by eapply Hz|].
      destruct (infos (km k) !! a) eqn:E; [|done]. injection Hq' as <-. by eapply Hz.
  - by right.
  - intros pt x i' [Hpt Hx]%lookup_delete_Some Hlp. rewrite entry_set, decide_False; [done|]. intros [<- _].
    apply Hlp. by eapply (pt_inj _ _ _ _ Ht).
  - intros y Hy Hyf Hyc. rewrite (kept_infos _ _ _ _ _ _ Hk) by done. simpl.
    rewrite lookup_insert_ne; [done|]. by intros ?%pg_inj.
  - intros Hok. eapply (tlb_ok_subset k _ T (delete (pth ++ [i]) T)); try done; simpl; [by rewrite Hph|by rewrite Er1|].
    intros l. by rewrite Hph.
  - by rewrite Er1.
  - by rewrite lookup_delete_eq.
Qed.

(** ** Unmapping pages *)

(** The pages [p..q-1] may be unmapped: what they map is in use, no frame is
    mapped twice, and an entry that is not present is zero.  The last condition
    is there because [remove_pte] tests for a zero entry where it means to test
    for a present one; [remove_pte_not_present] shows the difference. *)
Record unmappable k g T (p q : Z) : Prop := {
  ua_drop l : p ≤ l < q → droppable base n k g T l;
  ua_once l l' e e' : p ≤ l < q → p ≤ l' < q → view T (phys (km k)) l = Some e → view T (phys (km k)) l' = Some e' →
    frame_of e = frame_of e' → l = l';
  ua_clean l f : p ≤ l < q → T !! path1 l = Some f → entry (phys (km k)) f (i0 l) = 0 ∨
    has (entry (phys (km k)) f (i0 l)) PAGE_PRESENT = true;
}.

(** An entry that is not present and not zero: the processor sees no mapping,
    but [remove_pte] takes a reference from the page whose number the entry
    happens to hold, and frees that page if it was the last. *)
Lemma remove_pte_not_present k g T j f x i b : space base n root k g T → T !! path1 j = Some f →
  has (entry (phys (km k)) f (i0 j)) PAGE_PRESENT = false → u64 (entry (phys (km k)) f (i0 j)) ≠ 0 →
  frame_of (entry (phys (km k)) f (i0 j)) = x → 0 ≤ x < n → ¬ free_frame g x →
  infos (km k) !! pg base x = Some i → 1 ≤ pp_ref i < 65536 →
  view T (phys (km k)) j = None ∧
  wp (remove_pte (entry_ptr (kva f) (i0 j)) (4096 * j) b) (λ r t, r = 0 ∧ ∃ g', buddy_inv base n (km t.1) g' ∧
    (∀ y, free_frame g' y ↔ free_frame g y ∨ y = x ∧ pp_ref i = 1) ∧
    (pp_ref i ≠ 1 → infos (km t.1) !! pg base x = Some (set_ref (pp_ref i - 1) i))) (k, kva root).
Proof.
  intros Hs Hf Hp Hnz Ex Hx Hnf Hi Hr. split; [by rewrite (view_entry T _ j f), Hp|].
  assert (0 ≤ root) as Hroot by (eapply pt_range; [apply Hs|apply Hs]).
  assert (pages (km k) = base) as Hbase by apply Hs. pose proof (space_npages _ _ _ _ _ _ Hs) as Enp.
  pose proof (space_frame _ _ _ _ _ _ _ _ Hs Hf) as Hfn.
  unfold remove_pte. wp_step. apply wp_gets. simpl.
  wp_step. apply wp_mcall, wp_read_entry; [done|apply index_bounds|]. rewrite set_km_id.
  change PAGE_PRESENT with 1. rewrite Z.mul_1_r, (proj2 (Z.eqb_neq _ _) Hnz).
  wp_step. apply wp_mcall, (wp_pa2page base); [done|by rewrite Ex, Enp|]. rewrite Ex, set_km_id.
  wp_step. apply wp_mcall. eapply wp_mono; [by eapply (page_decref_spec base n L); [apply Hs|..]|].
  cbv beta. intros _ m1 (g1 & Hb1 & _ & _ & Hff & Hsame).
  pose proof (core_npages _ _ _ _ _ (inv_core _ _ _ _ Hb1)) as En1.
  wp_step. apply wp_mcall, wp_write_entry; [simpl; lia|apply index_bounds|].
  wp_step. apply wp_kcall, wp_tlb_invalidate; [done|]. apply wp_ret. split; [done|]. exists g1.
  case_match; (split; [by apply buddy_inv_phys|done]).
Qed.

Section walk.
Context (k0 : kernel) (g0 : blocks) (T0 : tmap) (p0 q0 : Z).

(** The pages [p0..j-1] have been unmapped. *)
Record unmapped (j : Z) g T k : Prop := {
  um_view l : canonical l → view T (phys (km k)) l = if decide (p0 ≤ l < j) then None else view T0 (phys (km k0)) l;
  um_leaf l f : canonical l → T !! path1 l = Some f → ¬ (p0 ≤ l < j) →
    entry (phys (km k)) f (i0 l) = entry (phys (km k0)) f (i0 l);
  um_tables pt f : T !! pt = Some f → T0 !! pt = Some f;
  um_freed pt f : T0 !! pt = Some f → T !! pt = Some f ∨ free_frame g f;
  um_keep y : 0 ≤ y < n → ¬ free_frame g0 y → (∀ pt, T0 !! pt ≠ Some y) →
    (∀ l e, p0 ≤ l < j → view T0 (phys (km k0)) l = Some e → frame_of e ≠ y) →
    infos (km k) !! pg base y = infos (km k0) !! pg base y ∧ ¬ free_frame g y;
  um_pages l e i : p0 ≤ l < j → view T0 (phys (km k0)) l = Some e → infos (km k0) !! pg base (frame_of e) = Some i →
    if decide (pp_ref i = 1) then free_frame g (frame_of e)
    else infos (km k) !! pg base (frame_of e) = Some (set_ref (pp_ref i - 1) i) ∧ ¬ free_frame g (frame_of e);
  um_free y : free_frame g0 y → free_frame g y;
  um_tlb : tlb_ok root k0 → tlb_ok root k;
  um_rest : k = set_tlb (tlb k) (set_km (km k) k0);
}.

Context (Hs0 : space base n root k0 g0 T0) (Hua : unmappable k0 g0 T0 p0 q0).

(** Pages without a page table are unmapped already. *)
Lemma unmapped_skip j j' g T k : unmapped j g T k → p0 ≤ j ≤ j' → (∀ l, j ≤ l < j' → canonical l → view T (phys (km k)) l = None) →
  (∀ l, j ≤ l < j' → canonical l) → unmapped j' g T k.
Proof.
  intros [Hv Hlf Ht Hfd Hkp Hpg Hfr Htl Hrs] Hj Hnone Hcan.
  assert (∀ l, j ≤ l < j' → view T0 (phys (km k0)) l = None) as Hn0.
  { intros l Hl. rewrite <-(Hnone l Hl) by auto. rewrite Hv by auto. by rewrite decide_False by lia. }
  split; try done.
  - intros l Hl. rewrite Hv by done. repeat case_decide; try done; try lia. by rewrite Hn0 by lia.
  - intros l f Hl Hf Hnl. apply Hlf; [done|done|lia].
  - intros y Hy Hyf HyT Hyp. apply Hkp; try done. intros l e Hl. apply (Hyp l e). lia.
  - intros l e i Hl He Hi. destruct (decide (l < j)) as [?|]; [apply (Hpg l); [lia|done|done]|]. by rewrite Hn0 in He by lia.
Qed.

(** Freeing a table on the way up. *)
Lemma unmapped_shrunk j g T k pth i c k' g' T' : unmapped j g T k → T !! (pth ++ [i]) = Some c → (length pth < 3)%nat → j ≤ q0 →
  shrunk k g T pth i c k' g' T' → unmapped j g' T' k'.
Proof.
  intros [Hv Hlf Ht Hfd Hkp Hpg Hfr Htl Hrs] Hc Hlen Hjq [Hs' Htab Hsv Hsl Hsi Hst Hsr _].
  assert (∀ pt f, T' !! pt = Some f → T !! pt = Some f) as Hsub.
  { intros pt f. destruct Htab as [[-> _]|[-> _]]; [done|]. by intros [_ ?]%lookup_delete_Some. }
  assert (∀ y, free_frame g y → free_frame g' y) as Hgr by (intros y Hy; destruct Htab as [[_ ->]|[_ ->]]; tauto).
  assert (∀ y, free_frame g' y → free_frame g y ∨ y = c) as Hgr' by (intros y Hy; destruct Htab as [[_ Hx]|[_ Hx]]; apply Hx in Hy; tauto).
  split.
  - intros l Hl. rewrite Hsv. by apply Hv.
  - intros l f Hl Hf Hnl. rewrite (Hsl (path1 l)); [apply Hlf; auto|done|]. intros <-. simpl in Hlen. lia.
  - intros pt f Hf. auto.
  - intros pt f Hf. destruct (Hfd pt f Hf) as [Hf'|?]; [|by right; auto]. destruct Htab as [[-> _]|[-> Hx]]; [by left|].
    destruct (decide (pth ++ [i] = pt)) as [<-|Hne]; [|left; by rewrite lookup_delete_ne].
    right. apply Hx. right. congruence.
  - intros y Hy Hyf HyT Hyp. destruct (Hkp y Hy Hyf HyT Hyp) as [Hi Hnf].
    assert (y ≠ c) as Hyc by (intros ->; by eapply HyT, Ht). split; [by rewrite Hsi|]. intros [?|?]%Hgr'; done.
  - intros l e ii Hl He Hi. pose proof (Hpg l e ii Hl He Hi) as Hp.
    destruct (ua_drop _ _ _ _ _ Hua l ltac:(lia) e He) as (i' & Hx & Hxf & HxT & _).
    assert (frame_of e ≠ c) as Hxc by (intros Hx'; eapply HxT, Ht; by rewrite Hx').
    case_decide; [by auto|]. destruct Hp as [Hp Hnf]. split; [by rewrite Hsi|]. intros [?|?]%Hgr'; done.
  - auto.
  - auto.
  - rewrite Hsr, Hrs. done.
Qed.

Lemma u64_present e : has e PAGE_PRESENT = true → u64 (e * PAGE_PRESENT) ≠ 0.
Proof.
  unfold has, PAGE_PRESENT. rewrite negb_true_iff, Z.eqb_neq. intros Hp E. apply Hp.
  change (Z.shiftl 1 0) with 1 in *. change 1 with (2 ^ 1 - 1). rewrite land_ones_mod by lia.
  unfold u64 in E. change (2 ^ 1) with 2. change (2 ^ 64) with (2 * 2 ^ 63) in E. mlia.
Qed.

Lemma remove_pte_spec j f b g T k (Q : Z → kernel * Z → Prop) : space base n root k g T → p0 ≤ j < q0 → canonical j →
  T !! path1 j = Some f → unmapped j g T k →
  (∀ k' g', space base n root k' g' T → unmapped (j + 1) g' T k' → entry (phys (km k')) f (i0 j) = 0 →
    (∀ f' i, f' ≠ f → entry (phys (km k')) f' i = entry (phys (km k)) f' i) → Q 0 (k', kva root)) →
  wp (remove_pte (entry_ptr (kva f) (i0 j)) (4096 * j) b) Q (k, kva root).
Proof.
  intros Hs Hj Hcj Hf Hum HQ. pose proof Hum as [Hv Hlf Ht Hfd Hkp Hpg Hfr Htl Hrs].
  pose proof (space_frame _ _ _ _ _ _ _ _ Hs Hf) as Hfn. pose proof (space_npages _ _ _ _ _ _ Hs) as Enp.
  assert (pages (km k) = base) as Hbase by apply Hs. assert (0 ≤ i0 j < 512) as Hib by apply index_bounds.
  assert (0 ≤ root) as Hroot by (eapply pt_range; [apply Hs|apply Hs]).
  pose proof (view_entry T (phys (km k)) j f Hf) as Hve.
  pose proof (Hlf j f Hcj Hf ltac:(lia)) as Ee. pose proof (Hv j Hcj) as Hvj. rewrite decide_False in Hvj by lia.
  unfold remove_pte. wp_step. apply wp_gets. simpl. wp_step. apply wp_mcall, wp_read_entry; [done|done|]. rewrite set_km_id.
  destruct (ua_clean _ _ _ _ _ Hua j f Hj (Ht _ _ Hf)) as [E0|Ep].
  { rewrite Ee, E0. simpl. apply wp_ret. apply (HQ k g); [done| |by rewrite Ee|done].
    eapply unmapped_skip; [done|lia| |].
    - intros l Hl _. replace l with j by lia. by rewrite Hve, Ee, E0.
    - intros l Hl. by replace l with j by lia. }
  rewrite <-Ee in Ep. rewrite Ep in Hve. set (e := entry (phys (km k)) f (i0 j)) in *.
  rewrite (proj2 (Z.eqb_neq _ _) (u64_present e Ep)).
  rewrite Hve in Hvj. symmetry in Hvj.
  destruct (ua_drop _ _ _ _ _ Hua j Hj e Hvj) as (i & Hx & Hxf & HxT & Hi & Hr).
  destruct (Hkp (frame_of e) Hx Hxf HxT) as [Hik Hnf].
  { intros l e' Hl He' E. pose proof (ua_once _ _ _ _ _ Hua l j e' e ltac:(lia) Hj He' Hvj E). lia. }
  rewrite Hi in Hik. set (x := frame_of e) in *.
  wp_step. apply wp_mcall, (wp_pa2page base); [done|by rewrite Enp|]. rewrite set_km_id.
  wp_step. apply wp_mcall. eapply wp_mono; [eapply (page_decref_spec base n L); [apply Hs|done|done|exact Hik|done]|].
  cbv beta. intros _ m1 (g1 & Hb1 & Hk & Hph & Hff & Hsame).
  assert (∀ pt, T !! pt ≠ Some x) as HxT' by (intros pt Hpt; by eapply HxT, Ht).
  assert (space base n root (set_km m1 k) g1 T) as Hs1.
  { eapply space_others; try done. intros y. rewrite Hff. naive_solver. }
  pose proof (space_npages _ _ _ _ _ _ Hs1) as Enp1. simpl in Enp1.
  wp_step. apply wp_mcall, wp_write_entry; [simpl; lia|done|]. change (u64 0) with 0. simpl. rewrite Hph.
  wp_step. apply wp_kcall, wp_tlb_invalidate; [done|]. apply wp_ret. simpl. rewrite PAGE_INDEX_page.
  set (k1 := set_km (set_phys (set_entry f (i0 j) 0 (phys (km k))) m1) (set_km m1 k)).
  set (k2 := if cr3 k =? root * PAGE_SIZE then set_tlb (delete j (tlb k)) k1 else k1).
  assert (km k2 = km k1) as Ek2 by (unfold k2; by case_match).
  assert (space base n root k2 g1 T) as Hs2.
  { eapply space_km; [|exact Ek2]. unfold k1. rewrite <-Hph. by eapply (set_phys_space base n root (set_km m1 k)). }
  assert (∀ l, canonical l → view T (phys (km k2)) l = if decide (l = j) then None else view T (phys (km k)) l) as Hv2.
  { intros l Hl. rewrite Ek2. simpl. rewrite (view_set_leaf n root); [done|apply Hs|done..]. }
  apply (HQ k2 g1); [done| |by rewrite Ek2; simpl; rewrite entry_set, decide_True
    |intros f' i' Hf'; rewrite Ek2; simpl; rewrite entry_set, decide_False; naive_solver]. split.
  - intros l Hl. rewrite Hv2 by done. destruct (decide (l = j)) as [->|]; [by rewrite decide_True by lia|].
    rewrite Hv by done. repeat case_decide; done || lia.
  - intros l f' Hl Hf' Hnl. rewrite Ek2. simpl. rewrite entry_set, decide_False; [apply Hlf; [done|done|lia]|].
    intros [<- Ei]. assert (j = l); [|lia]. apply path1_inj; [done|done| |done].
    by eapply (pt_inj _ _ _ _ (sp_tables _ _ _ _ _ _ Hs)).
  - done.
  - intros pt f' Hf'. destruct (Hfd pt f' Hf') as [?|?]; [by left|right]. apply Hff. by left.
  - intros y Hy Hyf HyT Hyp. destruct (Hkp y Hy Hyf HyT) as [Hiy Hny]; [intros l e' Hl; apply (Hyp l e'); lia|].
    assert (y ≠ x) as Hyx by (intros ->; eapply (Hyp j e); [lia|done|done]).
    rewrite Ek2. simpl. split; [by rewrite (kept_infos _ _ _ _ _ _ Hk)|]. rewrite Hff. tauto.
  - intros l e' ii Hl He' Hii. rewrite Ek2. simpl. destruct (decide (l = j)) as [->|Hlj].
    + assert (e' = e) as -> by congruence. fold x in Hii |- *. assert (ii = i) as -> by congruence.
      case_decide; [apply Hff; tauto|]. split; [by apply Hsame|]. rewrite Hff. tauto.
    + pose proof (Hpg l e' ii ltac:(lia) He' Hii) as Hp.
      assert (frame_of e' ≠ x) as Hne.
      { intros E. pose proof (ua_once _ _ _ _ _ Hua l j e' e ltac:(lia) Hj He' Hvj E). lia. }
      case_decide; [apply Hff; by left|]. destruct Hp as [Hp Hnp].
      destruct (ua_drop _ _ _ _ _ Hua l ltac:(lia) e' He') as (_ & Hx' & _).
      split; [by rewrite (kept_infos _ _ _ _ _ _ Hk)|]. rewrite Hff. tauto.
  - intros y Hy. apply Hff. auto.
  - intros Hok. specialize (Htl Hok). intros Hc l e' Hl Hte'. rewrite (translate_view n root T), Hv2 by (done || apply Hs2).
    assert (cr3 k = root * PAGE_SIZE) as Hck by (unfold k2 in Hc; by case_match).
    unfold k2 in Hte'. rewrite Hck, Z.eqb_refl in Hte'. simpl in Hte'. apply lookup_delete_Some in Hte' as [Hne Hte'].
    rewrite decide_False by done. rewrite <-(translate_view n root T) by apply Hs. by apply Htl.
  - unfold k2, k1. case_match; by rewrite Hrs.
Qed.

(** *** Tables left behind

    The tables above a page are at [take m (path1 l)] for [m] from 1 to 3.
    While the walk is below the table at depth [d] above page [o], the tables
    above the pages it has left have a present entry, unless they are among the
    tables above [o] down to that depth, which are still to be closed. *)
Definition swept (d : nat) (o j : Z) (T : tmap) (ph : physmem) : Prop :=
  ∀ l m f, p0 ≤ l < j → (1 ≤ m ≤ 3)%nat → T !! take m (path1 l) = Some f →
    present ph f ∨ (m ≤ d)%nat ∧ take m (path1 l) = take m (path1 o).

(** Pages [o] and [j] are below the same table at depth [d]. *)
Definition together (d : nat) (o j : Z) : Prop := take d (path1 o) = take d (path1 j).

Lemma together_le d m o j : together d o j → (m ≤ d)%nat → take m (path1 o) = take m (path1 j).
Proof.
  intros Hd Hm. rewrite <-(Nat.min_l m d) by done. rewrite <-!take_take, Hd. done.
Qed.

(** Going down into a table of page [j]. *)
Lemma swept_enter d o j T ph : swept d o j T ph → together d o j → swept (S d) j j T ph.
Proof.
  intros Hsw Ho l m f Hl Hm Hf. destruct (Hsw l m f Hl Hm Hf) as [?|[Hd E]]; [by left|right]. split; [lia|].
  rewrite E. by eapply together_le.
Qed.

(** Passing over pages that share the table at depth [d] with [o] and have no
    table below it. *)
Lemma swept_skip d o j j' T ph : swept d o j T ph → (∀ l, j ≤ l < j' → together d o l) →
  (∀ l m, j ≤ l < j' → (d < m ≤ 3)%nat → T !! take m (path1 l) = None) → swept d o j' T ph.
Proof.
  intros Hsw Ho Hnone l m f Hl Hm Hf. destruct (decide (l < j)) as [?|]; [by apply (Hsw l m f); [lia|..]|].
  right. destruct (decide (m ≤ d)%nat) as [?|]; [|by rewrite Hnone in Hf by lia].
  split; [done|]. symmetry. apply (together_le d); [apply Ho; lia|done].
Qed.

(** Clearing an entry of the leaf table of page [j]. *)
Lemma swept_remove j o g T k k' f : space base n root k' g T → swept 3 o j T (phys (km k)) → path1 o = path1 j →
  T !! path1 j = Some f → (∀ f' i, f' ≠ f → entry (phys (km k')) f' i = entry (phys (km k)) f' i) →
  swept 3 o (j + 1) T (phys (km k')).
Proof.
  intros Hs Hsw Ho Hf Hsame l m f' Hl Hm Hf'.
  destruct (decide (l = j)) as [->|Hne]; [right; split; [lia|by rewrite Ho]|].
  destruct (Hsw l m f' ltac:(lia) Hm Hf') as [(i & Hi & Hp)|?]; [|by right].
  destruct (decide (f' = f)) as [->|Hff]; [right|left; exists i; by rewrite Hsame].
  split; [lia|]. rewrite Ho.
  assert (take m (path1 l) = path1 j) as E by (by eapply (pt_inj _ _ _ _ (sp_tables _ _ _ _ _ _ Hs))). rewrite E.
  assert (m = 3%nat) as -> by (apply (f_equal length) in E; rewrite length_take in E; simpl in E; lia). done.
Qed.

(** Closing the table at depth [S d] above page [j]. *)
Lemma swept_close d o a j T k pth f i c k' g g' T' : swept (S d) a j T (phys (km k)) → space base n root k g T →
  (d < 3)%nat → together d o a → pth = take d (path1 a) → pth ++ [i] = take (S d) (path1 a) →
  T !! pth = Some f → T !! (pth ++ [i]) = Some c → shrunk k g T pth i c k' g' T' → swept d o j T' (phys (km k')).
Proof.
  intros Hsw Hs Hd Ho Hpth Hci Hf Hc Hsh l m f' Hl Hm Hf'.
  assert (T !! take m (path1 l) = Some f') as HfT.
  { destruct (sh_tables _ _ _ _ _ _ _ _ _ Hsh) as [[-> _]|[-> _]]; [done|]. by apply lookup_delete_Some in Hf' as [_ ?]. }
  destruct (decide (take m (path1 l) = pth)) as [E|Hne].
  { right. assert (m = d) as ->.
    { rewrite Hpth in E. apply (f_equal length) in E. rewrite !length_take in E. simpl in E. lia. }
    split; [done|]. rewrite E, Hpth. symmetry. by apply (together_le d). }
  destruct (Hsw l m f' Hl Hm HfT) as [(i' & Hi' & Hp)|[Hmd E]].
  - left. exists i'. split; [done|]. by rewrite (sh_leaf _ _ _ _ _ _ _ _ _ Hsh _ _ _ Hf' Hne).
  - destruct (decide (m = S d)) as [->|Hmd'].
    + left. rewrite E, <-Hci in Hf', HfT. assert (f' = c) as -> by congruence. by apply (sh_used _ _ _ _ _ _ _ _ _ Hsh).
    + right. split; [lia|]. rewrite E. symmetry. apply (together_le d); [done|lia].
Qed.

(** The walk is at page [j] below the table at depth [d] above page [o];
    tables at that depth and above are those of [T1]. *)
Definition at_un (d : nat) (o : Z) (T1 : tmap) (j : Z) (s : kernel * Z) : Prop :=
  ∃ g T, space base n root s.1 g T ∧ s.2 = kva root ∧ unmapped j g T s.1 ∧ T ⊆ T1 ∧
    (∀ pt, (length pt ≤ d)%nat → T !! pt = T1 !! pt) ∧ swept d o j T (phys (km s.1)).

Lemma un_walk0 T1 p q f e s : one_half p q → p0 ≤ p < q → q ≤ q0 → (q - 1) `div` 512 = p `div` 512 →
  T1 !! path1 p = Some f → near 4 q e → e < 4096 * q → at_un 3 p T1 p s →
  wp (ptbl_walk_range (kva f) (4096 * p) e remove_walker) (λ r t, r = 0 ∧ at_un 3 p T1 q t) s.
Proof.
  intros Hh Hp Hq Hsame Hf Hn He Hat.
  eapply (ptbl_walk_rule _ _ (at_un 3 p T1) _ p q); [done|lia|done|done|done| |by intros t Ht|done].
  intros j next [k u] Hj (g & T & Hs & Hu & Hum & Hsub & Hdep & Hsw) Hnext. simpl in Hs, Hu, Hum, Hsw. subst u.
  assert (chunk_end 1 j q = j + 1) as -> by (unfold chunk_end; rewrite Z.div_1_r; lia).
  rewrite (path1_same p j) in Hf by mlia. rewrite <-Hdep in Hf by done.
  assert (canonical j) as Hcj by (eapply one_half_in; [exact Hh|lia]).
  unfold ptbl_visit. rewrite PT_index. cbv zeta. apply wp_try. simpl call.
  eapply remove_pte_spec; [done|lia|done|done|done|]. intros k' g' Hs' Hum' Hz Hoth.
  change (0 <? 0) with false. cbv iota. wp_step. apply wp_mcall, wp_read_entry; [by eapply space_frame|apply index_bounds|].
  rewrite set_km_id, Hz. simpl. apply wp_try. unfold call_hole. simpl. apply wp_ret. simpl. apply wp_ret.
  change (0 <? 0) with false. cbv iota. exists g', T. split_and!; try done.
  apply (swept_remove j p g' T k k' f); try done. apply path1_same. mlia.
Qed.

(** Leaving the table [f1] at [pth ++ [i]], which is above page [a]. *)
Lemma un_close d o a T1 T (g : blocks) (k : kernel) pth f i f1 j t b e : T ⊆ T1 → (∀ pt, (length pt ≤ d)%nat → T !! pt = T1 !! pt) →
  pth = take d (path1 a) → pth ++ [i] = take (S d) (path1 a) → together d o a →
  length pth = d → (d < 3)%nat → T !! pth = Some f → T !! (pth ++ [i]) = Some f1 → 0 ≤ i < 512 → j ≤ q0 →
  at_un (S d) a T j t →
  wp (ptbl_free (entry_ptr (kva f) i) b e) (λ r t, r = 0 ∧ at_un d o T1 j t) t.
Proof.
  intros Hsub Hdep Hpth Hci Ho Hl Hd Hf Hf1 Hi Hj (g2 & T2 & Hs2 & Hu & Hum & Hsub2 & Hdep2 & Hsw2).
  destruct t as [k2 u]. simpl in Hs2, Hu, Hum, Hsw2. subst u.
  rewrite <-(Hdep2 pth) in Hf by lia. rewrite <-(Hdep2 (pth ++ [i])) in Hf1 by (rewrite length_app; simpl; lia).
  eapply wp_mono; [eapply ptbl_free_spec; [done|exact Hf|lia|done|exact Hf1]|].
  cbv beta. intros r t (-> & k3 & g3 & T3 & -> & Hsh). split; [done|]. exists g3, T3. split; [apply Hsh|]. split; [done|].
  split; [eapply unmapped_shrunk; try done; lia|].
  pose proof (swept_close d o a j T2 k2 pth f i f1 k3 g2 g3 T3 Hsw2 Hs2 Hd Ho Hpth Hci Hf Hf1 Hsh) as Hsw3.
  destruct (sh_tables _ _ _ _ _ _ _ _ _ Hsh) as [[-> _]|[-> _]].
  - split; [by transitivity T|]. split; [|done]. intros pt Hpt. rewrite Hdep2 by lia. by apply Hdep.
  - split; [transitivity T2; [apply delete_subseteq|by transitivity T]|]. split; [|done]. intros pt Hpt.
    rewrite lookup_delete_ne; [rewrite Hdep2 by lia; by apply Hdep|].
    intros <-. rewrite length_app in Hpt. simpl in Hpt. lia.
Qed.

Lemma un_walk1 T1 p q f e s : one_half p q → p0 ≤ p < q → q ≤ q0 →
  (q - 1) `div` (512 * 512) = p `div` (512 * 512) → T1 !! path2 p = Some f →
  near 3 q e → e < 4096 * q → at_un 2 p T1 p s →
  wp (pdir_walk_range (kva f) (4096 * p) e remove_walker) (λ r t, r = 0 ∧ at_un 2 p T1 q t) s.
Proof.
  intros Hh Hp Hq Hsame Hf Hn He Hat.
  eapply (pdir_walk_rule _ _ (at_un 2 p T1) _ p q); [done|lia|done|done|done| |by intros t Ht|done].
  intros j next [k u] Hj (g & T & Hs & Hu & Hum & Hsub & Hdep & Hsw) Hnext. simpl in Hs, Hu, Hum, Hsw. subst u.
  destruct (one_half_range p q Hh) as [Hp1 Hq1]; [lia|].
  pose proof (chunk_end_gt 512 j q ltac:(lia) ltac:(lia)) as Hc. pose proof (chunk_end_same 512 j q ltac:(lia) ltac:(lia)) as Hcs.
  set (j' := chunk_end 512 j q) in *. clearbody j'.
  assert (together 2 p j) as Htog by (unfold together; simpl; exact (path2_same p j ltac:(mlia))).
  unfold pdir_visit. rewrite PD_index. cbv zeta.
  rewrite (path2_same p j) in Hf by mlia.
  assert (0 ≤ i1 j < 512) as Hib by apply index_bounds.
  apply wp_try. simpl call. apply wp_ret. change (0 <? 0) with false. cbv iota.
  pose proof (sp_tables _ _ _ _ _ _ Hs) as Ht. rewrite <-(Hdep (path2 j)) in Hf by (simpl; lia).
  pose proof (space_frame _ _ _ _ _ _ _ _ Hs Hf) as Hfn. pose proof (space_npages _ _ _ _ _ _ Hs) as Enp.
  wp_step. apply wp_mcall, wp_read_entry; [done|done|]. rewrite set_km_id.
  destruct (near_prev 3 j j' next Hnext) as (-> & Hn4 & Hlt); [lia|lia|lia|].
  destruct (T !! path1 j) as [f1|] eqn:Hf1.
  - destruct (pt_child_Some n root T (phys (km k)) (path2 j) f (i1 j) f1) as (Hpr & Hhu & Hfr); [done|done|simpl; lia|done|done|].
    rewrite Hpr, Hhu. simpl negb. cbv iota. apply wp_try. wp_step. apply wp_mcall, wp_KADDR; [rewrite Hfr; by eapply space_frame|rewrite Enp; apply (layout_small base n L)|].
    rewrite Hfr, set_km_id.
    assert (at_un 3 j T j (k, kva root)) as Hat1 by (exists g, T; split_and!; try done; by eapply swept_enter).
    eapply wp_mono; [eapply (un_walk0 T j j' f1); [by eapply one_half_sub; [exact Hh|lia|lia]|lia|lia|mlia|exact Hf1|exact Hn4|exact Hlt|exact Hat1]|].
    cbv beta. intros r2 t [-> Hat2]. change (0 <? 0) with false. cbv iota. apply wp_try.
    eapply wp_mono; [eapply (un_close 2 p j T1 T g k (path2 j) f (i1 j) f1 j' t); try done; lia|].
    cbv beta. intros r3 t3 [-> Hat3]. change (0 <? 0) with false. cbv iota. by apply wp_ret.
  - rewrite (pt_child_None n root T (phys (km k)) (path2 j) f (i1 j)); [|done|done|simpl; lia|done|done].
    apply wp_try. unfold call_hole. simpl. apply wp_ret. simpl. apply wp_ret. change (0 <? 0) with false. cbv iota.
    assert (∀ l, j ≤ l < j' → T !! path1 l = None) as Hhole.
    { intros l Hl. rewrite (path1_same l j) by mlia. done. }
    exists g, T. split; [done|]. split; [done|]. split; [|split; [done|split; [done|]]].
    + eapply unmapped_skip; [exact Hum|lia| |].
      * intros l Hl _. unfold view. by rewrite Hhole.
      * intros l Hl. eapply one_half_in; [exact Hh|lia].
    + apply (swept_skip 2 p j j'); [done| |].
      * intros l Hl. unfold together. simpl. exact (path2_same p l ltac:(mlia)).
      * intros l m Hl Hm. assert (m = 3%nat) as -> by lia. by apply Hhole.
Qed.

Lemma un_walk2 T1 p q f e s : one_half p q → p0 ≤ p < q → q ≤ q0 →
  (q - 1) `div` (512 * 512 * 512) = p `div` (512 * 512 * 512) → T1 !! path3 p = Some f →
  near 2 q e → e < 4096 * q → at_un 1 p T1 p s →
  wp (pdpt_walk_range (kva f) (4096 * p) e remove_walker) (λ r t, r = 0 ∧ at_un 1 p T1 q t) s.
Proof.
  intros Hh Hp Hq Hsame Hf Hn He Hat.
  eapply (pdpt_walk_rule _ _ (at_un 1 p T1) _ p q); [done|lia|done|done|done| |by intros t Ht|done].
  intros j next [k u] Hj (g & T & Hs & Hu & Hum & Hsub & Hdep & Hsw) Hnext. simpl in Hs, Hu, Hum, Hsw. subst u.
  destruct (one_half_range p q Hh) as [Hp1 Hq1]; [lia|].
  pose proof (chunk_end_gt (512 * 512) j q ltac:(lia) ltac:(lia)) as Hc. pose proof (chunk_end_same (512 * 512) j q ltac:(lia) ltac:(lia)) as Hcs.
  set (j' := chunk_end (512 * 512) j q) in *. clearbody j'.
  assert (together 1 p j) as Htog by (unfold together; simpl; exact (path3_same p j ltac:(mlia))).
  unfold pdpt_visit. rewrite PDPT_index. cbv zeta.
  rewrite (path3_same p j) in Hf by mlia.
  assert (0 ≤ i2 j < 512) as Hib by apply index_bounds.
  apply wp_try. simpl call. apply wp_ret. change (0 <? 0) with false. cbv iota.
  pose proof (sp_tables _ _ _ _ _ _ Hs) as Ht. rewrite <-(Hdep (path3 j)) in Hf by (simpl; lia).
  pose proof (space_frame _ _ _ _ _ _ _ _ Hs Hf) as Hfn. pose proof (space_npages _ _ _ _ _ _ Hs) as Enp.
  wp_step. apply wp_mcall, wp_read_entry; [done|done|]. rewrite set_km_id.
  destruct (near_prev 2 j j' next Hnext) as (-> & Hn4 & Hlt); [lia|lia|lia|].
  destruct (T !! path2 j) as [f1|] eqn:Hf1.
  - destruct (pt_child_Some n root T (phys (km k)) (path3 j) f (i2 j) f1) as (Hpr & Hhu & Hfr); [done|done|simpl; lia|done|done|].
    rewrite Hpr, Hhu. simpl negb. cbv iota. apply wp_try. wp_step. apply wp_mcall, wp_KADDR; [rewrite Hfr; by eapply space_frame|rewrite Enp; apply (layout_small base n L)|].
    rewrite Hfr, set_km_id.
    assert (at_un 2 j T j (k, kva root)) as Hat1 by (exists g, T; split_and!; try done; by eapply swept_enter).
    eapply wp_mono; [eapply (un_walk1 T j j' f1); [by eapply one_half_sub; [exact Hh|lia|lia]|lia|lia|mlia|exact Hf1|exact Hn4|exact Hlt|exact Hat1]|].
    cbv beta. intros r2 t [-> Hat2]. change (0 <? 0) with false. cbv iota. apply wp_try.
    eapply wp_mono; [eapply (un_close 1 p j T1 T g k (path3 j) f (i2 j) f1 j' t); try done; lia|].
    cbv beta. intros r3 t3 [-> Hat3]. change (0 <? 0) with false. cbv iota. by apply wp_ret.
  - rewrite (pt_child_None n root T (phys (km k)) (path3 j) f (i2 j)); [|done|done|simpl; lia|done|done].
    apply wp_try. unfold call_hole. simpl. apply wp_ret. simpl. apply wp_ret. change (0 <? 0) with false. cbv iota.
    assert (∀ l, j ≤ l < j' → T !! path1 l = None) as Hhole.
    { intros l Hl. unfold path1. apply (pt_no_child n root T (phys (km k))); [done|]. rewrite (path2_same l j) by mlia. done. }
    exists g, T. split; [done|]. split; [done|]. split; [|split; [done|split; [done|]]].
    + eapply unmapped_skip; [exact Hum|lia| |].
      * intros l Hl _. unfold view. by rewrite Hhole.
      * intros l Hl. eapply one_half_in; [exact Hh|lia].
    + apply (swept_skip 1 p j j'); [done| |].
      * intros l Hl. unfold together. simpl. exact (path3_same p l ltac:(mlia)).
      * intros l m Hl Hm. destruct m as [|[|[|[|]]]]; try lia; [|by apply Hhole]. change (T !! path2 l = None). by rewrite (path2_same l j) by mlia.
Qed.

Lemma un_walk3 T1 p q f e s : one_half p q → p0 ≤ p < q → q ≤ q0 →
  T1 !! [] = Some f →
  near 1 q e → e < 4096 * q → at_un 0 p T1 p s →
  wp (pml4_walk_range (kva f) (4096 * p) e remove_walker) (λ r t, r = 0 ∧ at_un 0 p T1 q t) s.
Proof.
  intros Hh Hp Hq Hf Hn He Hat.
  eapply (pml4_walk_rule _ _ (at_un 0 p T1) _ p q); [done|lia|done|done| |by intros t Ht|done].
  intros j next [k u] Hj (g & T & Hs & Hu & Hum & Hsub & Hdep & Hsw) Hnext. simpl in Hs, Hu, Hum, Hsw. subst u.
  destruct (one_half_range p q Hh) as [Hp1 Hq1]; [lia|].
  pose proof (chunk_end_gt (512 * 512 * 512) j q ltac:(lia) ltac:(lia)) as Hc. pose proof (chunk_end_same (512 * 512 * 512) j q ltac:(lia) ltac:(lia)) as Hcs.
  set (j' := chunk_end (512 * 512 * 512) j q) in *. clearbody j'.
  assert (together 0 p j) as Htog by (unfold together; simpl; done).
  unfold pml4_visit. rewrite PML4_index. cbv zeta.
  assert (0 ≤ i3 j < 512) as Hib by apply index_bounds.
  apply wp_try. simpl call. apply wp_ret. change (0 <? 0) with false. cbv iota.
  pose proof (sp_tables _ _ _ _ _ _ Hs) as Ht. rewrite <-(Hdep ([])) in Hf by (simpl; lia).
  pose proof (space_frame _ _ _ _ _ _ _ _ Hs Hf) as Hfn. pose proof (space_npages _ _ _ _ _ _ Hs) as Enp.
  wp_step. apply wp_mcall, wp_read_entry; [done|done|]. rewrite set_km_id.
  destruct (near_prev 1 j j' next Hnext) as (-> & Hn4 & Hlt); [lia|lia|lia|].
  destruct (T !! path3 j) as [f1|] eqn:Hf1.
  - destruct (pt_child_Some n root T (phys (km k)) ([]) f (i3 j) f1) as (Hpr & Hhu & Hfr); [done|done|simpl; lia|done|done|].
    rewrite Hpr. cbv iota. apply wp_try. wp_step. apply wp_mcall, wp_KADDR; [rewrite Hfr; by eapply space_frame|rewrite Enp; apply (layout_small base n L)|].
    rewrite Hfr, set_km_id.
    assert (at_un 1 j T j (k, kva root)) as Hat1 by (exists g, T; split_and!; try done; by eapply swept_enter).
    eapply wp_mono; [eapply (un_walk2 T j j' f1); [by eapply one_half_sub; [exact Hh|lia|lia]|lia|lia|mlia|exact Hf1|exact Hn4|exact Hlt|exact Hat1]|].
    cbv beta. intros r2 t [-> Hat2]. change (0 <? 0) with false. cbv iota. apply wp_try.
    eapply wp_mono; [eapply (un_close 0 p j T1 T g k ([]) f (i3 j) f1 j' t); try done; lia|].
    cbv beta. intros r3 t3 [-> Hat3]. change (0 <? 0) with false. cbv iota. by apply wp_ret.
  - rewrite (pt_child_None n root T (phys (km k)) ([]) f (i3 j)); [|done|done|simpl; lia|done|done].
    apply wp_try. unfold call_hole. simpl. apply wp_ret. simpl. apply wp_ret. change (0 <? 0) with false. cbv iota.
    assert (∀ l, j ≤ l < j' → T !! path1 l = None) as Hhole.
    { intros l Hl. unfold path1. apply (pt_no_child n root T (phys (km k))); [done|]. unfold path2. apply (pt_no_child n root T (phys (km k))); [done|]. rewrite (path3_same l j) by mlia. done. }
    exists g, T. split; [done|]. split; [done|]. split; [|split; [done|split; [done|]]].
    + eapply unmapped_skip; [exact Hum|lia| |].
      * intros l Hl _. unfold view. by rewrite Hhole.
      * intros l Hl. eapply one_half_in; [exact Hh|lia].
    + apply (swept_skip 0 p j j'); [done| |].
      * intros l Hl. unfold together. simpl. done.
      * intros l m Hl Hm. destruct m as [|[|[|[|]]]]; try lia; [|change (T !! path2 l = None)|by apply Hhole].
        { change (T !! path3 l = None). by rewrite (path3_same l j) by mlia. }
        unfold path2. apply (pt_no_child n root T (phys (km k))); [done|]. by rewrite (path3_same l j) by mlia.
Qed.
End walk.

Lemma unmap_page_range_spec k g T p q : space base n root k g T → one_half p q → p < q → q < 2 ^ 52 - 1 →
  unmappable k g T p q →
  wp (unmap_page_range (kva root) (4096 * p) (4096 * (q - p))) (λ _ k', ∃ g' T',
    space base n root k' g' T' ∧ unmapped k g T p q g' T' k' ∧
    ∀ l pt f, p ≤ l < q → pt ∈ [path3 l; path2 l; path1 l] → T' !! pt = Some f → present (phys (km k')) f) k.
Proof.
  intros Hs Hh Hp Hq Hua. unfold unmap_page_range. wp_step. apply wp_with_udata.
  replace (u64 (4096 * p + 4096 * (q - p))) with (4096 * q).
  2: { rewrite u64_id; [lia|]. unfold one_half in Hh. lia. }
  unfold walk_page_range. rewrite rounddown_page, roundup_page, (u64_id (4096 * q - 1)) by (unfold one_half in Hh; lia).
  eapply wp_mono; [eapply (un_walk3 k g T p q Hua T p q root); [done|lia|lia|apply Hs|unfold near; lia|lia|]|].
  - exists g, T. split; [done|]. split; [done|]. split; [|split_and!; try done; intros l m f Hl; lia]. split; try done.
    + intros l Hl. by rewrite decide_False by lia.
    + by left.
    + intros l e i Hl. lia.
    + by destruct k.
  - cbv beta. intros r [k' u] (-> & g' & T' & Hs' & _ & Hum & _ & _ & Hsw). simpl. apply wp_ret. exists g', T'.
    split; [done|]. split; [done|]. intros l pt f Hl Hpt Hf.
    assert (∃ m, (1 ≤ m ≤ 3)%nat ∧ pt = take m (path1 l)) as (m & Hm & ->).
    { apply elem_of_cons in Hpt as [->|[->|[->|[]%elem_of_nil]%elem_of_cons]%elem_of_cons];
        [exists 1%nat|exists 2%nat|exists 3%nat]; (split; [lia|done]). }
    destruct (Hsw l m f Hl Hm Hf) as [?|[? _]]; [done|lia].
Qed.
End unmap.
