(* ===== verification/PageTableSpec.v ===== *)
(** * Address spaces: the properties

    What the page table operations promise, stated with the processor's own
    walk [translate]: which page maps to which frame with which permissions,
    what happens to the reference counts and the free frames, and that no
    stale translation stays in the TLB.  The hypotheses on the state are the
    invariant [space], which every operation preserves. *)

From S2P Require Import Prelude LinkedList Paging Spinlock Buddy BuddyProofs MemInit BuddySpec RbTree Kernel PageWalk PageWalkProofs AddrSpace PageTable PageTableProofs PageMap PageRead PageUnmap.

Local Open Scope Z_scope.

Section properties.
Context `{Layout} (base n root : Z).
Implicit Types (k : kernel) (g : blocks) (T : tmap).

Lemma translate_space k g T l : space base n root k g T → translate (phys (km k)) root l = view T (phys (km k)) l.
Proof. intros Hs. apply (translate_view n). apply Hs. Qed.

(** C11 (functional).  [page_insert] of a page of the normal size returns 0 and
    maps page [j] to the frame with the permissions asked for, and changes no
    other translation.  The frame gains a reference, the page mapped before
    loses one and is freed with its last; no other page in use changes; and the
    TLB holds no translation the page table does not have.  [insertable] leaves
    out one case the comment of the function asks to handle: inserting a page
    where it is mapped already by its last reference, in which the code frees
    the page and maps it ([reinsert_frees_page]).  A page of order 9, which the
    comment wants refused at a misaligned address, is not covered: no page in
    use has an order in states that satisfy the invariant, and the code does
    not look at it. *)
Theorem page_insert_correct k g T j x i r flags file : layout_ok base n → space base n root k g T →
  canonical j → j < 2 ^ 52 - 2 → insertable base n k g T j x i → pp_order i = 0 → owner base n k flags (4096 * j) r →
  0 ≤ flags < 2 ^ 64 → avail g 3 →
  ∃ k' g' T', page_insert file (kva root) (pg base x) (4096 * j) flags k = OK 0 k' ∧ space base n root k' g' T' ∧
    (∀ l, canonical l → translate (phys (km k')) root l =
      if decide (l = j) then Some (make_entry x (Z.lor flags PAGE_PRESENT)) else translate (phys (km k)) root l) ∧
    (∃ i', infos (km k') !! pg base x = Some i' ∧ rmap i' = u64 r ∧
      pp_ref i' = pp_ref i + (if decide (frame_of <$> translate (phys (km k)) root j = Some x) then 0 else 1)) ∧
    (∀ y, 0 ≤ y < n → ¬ free_frame g y → free_frame g' y ↔ frame_of <$> translate (phys (km k)) root j = Some y ∧
      pp_ref <$> infos (km k) !! pg base y = Some 1) ∧
    (∀ e iy, translate (phys (km k)) root j = Some e → frame_of e ≠ x → infos (km k) !! pg base (frame_of e) = Some iy →
      pp_ref iy ≠ 1 → infos (km k') !! pg base (frame_of e) = Some (set_ref (pp_ref iy - 1) iy)) ∧
    (∀ y, 0 ≤ y < n → y ≠ x → ¬ free_frame g y → frame_of <$> translate (phys (km k)) root j ≠ Some y →
      infos (km k') !! pg base y = infos (km k) !! pg base y) ∧
    (tlb_ok root k → tlb_ok root k').
Proof.
  intros L Hs Hj Hj52 Hins _ Hown Hfl Hav.
  destruct (wp_elim _ _ _ (page_insert_spec base n root L k g T j x i r flags file Hs Hj Hj52 Hins Hown Hfl Hav))
    as (rt & k' & E & -> & g' & T' & Hm).
  exists k', g', T'. split; [done|]. pose proof (ma_space _ _ _ _ _ _ _ _ _ _ _ _ _ _ Hm) as Hs'. split; [done|].
  rewrite (translate_space k g T j Hs). split; [|split; [|split; [|split; [|split]]]].
  - intros l Hl. by rewrite (translate_space k' g' T'), (translate_space k g T), (ma_view _ _ _ _ _ _ _ _ _ _ _ _ _ _ Hm).
  - destruct (ma_ref _ _ _ _ _ _ _ _ _ _ _ _ _ _ Hm) as (i' & Hi' & Hr & Hrm). exists i'. split; [done|].
    split; [done|]. rewrite Hr. unfold ref_without. case_decide; lia.
  - intros y Hy Hyf. rewrite (ma_free _ _ _ _ _ _ _ _ _ _ _ _ _ _ Hm) by done. split.
    + intros (e & i' & -> & <- & Hi' & Hr). simpl. by rewrite Hi', <-Hr.
    + intros [(e & He & ->)%fmap_Some (i' & Hi' & Hr)%fmap_Some]. by exists e, i'.
  - apply (ma_old _ _ _ _ _ _ _ _ _ _ _ _ _ _ Hm).
  - intros y Hy Hyx Hyf Hyv. apply (ma_infos _ _ _ _ _ _ _ _ _ _ _ _ _ _ Hm); [done..|].
    intros e He Hey. apply Hyv. by rewrite He, <-Hey.
  - apply Hm.
Qed.

(** [boot_map_region] maps the pages [p..q-1] to the
    consecutive frames from [pf] on, with the flags asked for, changes no
    other translation and leaves the pages in use alone. *)
Theorem boot_map_region_correct k g T p q pf flags : layout_ok base n → space base n root k g T →
  one_half p q → p < q → q < 2 ^ 52 - 1 → 0 ≤ pf → pf + (q - p) ≤ 2 ^ 36 → 0 ≤ flags < 2 ^ 64 →
  avail g (tables_needed p q) →
  ∃ k' g' T', boot_map_region (kva root) (4096 * p) (4096 * (q - p)) (4096 * pf) flags k = OK tt k' ∧
    space base n root k' g' T' ∧
    (∀ l, canonical l → translate (phys (km k')) root l =
      if decide (p ≤ l < q) then Some (make_entry (pf + (l - p)) (Z.lor flags PAGE_PRESENT))
      else translate (phys (km k)) root l) ∧
    infos_kept base n g k k' ∧ (∀ y, free_frame g' y → free_frame g y) ∧ k' = set_km (km k') k.
Proof.
  intros L Hs Hh Hpq Hq Hpf Hpf' Hfl Hav.
  destruct (wp_elim _ _ _ (boot_map_region_spec base n root L k g T p q pf flags 0 Hs Hh Hpq Hq Hpf Hpf' Hfl ltac:(lia) ltac:(by rewrite Z.add_0_r)))
    as ([] & k' & E & g' & T' & Hs' & _ & _ & _ & Hv & Hi & Hf & Hr).
  exists k', g', T'. split; [done|]. split; [done|]. split; [|done].
  intros l Hl. by rewrite (translate_space k' g' T'), (translate_space k g T), Hv.
Qed.


(** C13 (functional).  [unmap_page_range] removes every translation of the
    range and no other; each page mapped there loses a reference and is freed
    with its last, other pages in use are left alone, and the TLB stays
    consistent.  Tables go exactly when they are no longer used: no table is
    added, a table that is gone has been given back to the allocator, and of
    the tables above the pages of the range only those are left that have a
    present entry.  The hypothesis [unmappable] asks that entries of the range
    that are not present be zero: for others the code's test, a multiplication
    where a bit test is meant, is wrong ([remove_pte_not_present]). *)
Theorem unmap_page_range_correct k g T p q : layout_ok base n → space base n root k g T →
  one_half p q → p < q → q < 2 ^ 52 - 1 → unmappable base n k g T p q →
  ∃ k' g' T', unmap_page_range (kva root) (4096 * p) (4096 * (q - p)) k = OK tt k' ∧ space base n root k' g' T' ∧
    (∀ l, canonical l → translate (phys (km k')) root l =
      if decide (p ≤ l < q) then None else translate (phys (km k)) root l) ∧
    (∀ l e i, p ≤ l < q → translate (phys (km k)) root l = Some e → infos (km k) !! pg base (frame_of e) = Some i →
      if decide (pp_ref i = 1) then free_frame g' (frame_of e)
      else infos (km k') !! pg base (frame_of e) = Some (set_ref (pp_ref i - 1) i) ∧ ¬ free_frame g' (frame_of e)) ∧
    (∀ y, 0 ≤ y < n → ¬ free_frame g y → (∀ pt, T !! pt ≠ Some y) →
      (∀ l, p ≤ l < q → frame_of <$> translate (phys (km k)) root l ≠ Some y) →
      infos (km k') !! pg base y = infos (km k) !! pg base y ∧ ¬ free_frame g' y) ∧
    (∀ pt f, T' !! pt = Some f → T !! pt = Some f) ∧
    (∀ pt f, T !! pt = Some f → T' !! pt = Some f ∨ T' !! pt = None ∧ free_frame g' f) ∧
    (∀ l pt f, p ≤ l < q → pt ∈ [path3 l; path2 l; path1 l] → T' !! pt = Some f →
      ∃ i, 0 ≤ i < 512 ∧ has (entry (phys (km k')) f i) PAGE_PRESENT = true) ∧
    (tlb_ok root k → tlb_ok root k').
Proof.
  intros L Hs Hh Hpq Hq Hua.
  destruct (wp_elim _ _ _ (unmap_page_range_spec base n root L k g T p q Hs Hh Hpq Hq Hua))
    as ([] & k' & E & g' & T' & Hs' & [Hv _ Hsub Hfr Hkeep Hpg _ Ht _] & Hused).
  exists k', g', T'. split; [done|]. split; [done|]. split; [|split; [|split; [|split; [done|split; [|done]]]]].
  - intros l Hl. by rewrite (translate_space k' g' T'), (translate_space k g T), Hv.
  - intros l e i Hl. rewrite (translate_space k g T) by done. by apply Hpg.
  - intros y Hy Hyf HyT Hyv. apply Hkeep; [done..|]. intros l e Hl He Hey. apply (Hyv l Hl).
    by rewrite (translate_space k g T), He, <-Hey.
  - intros pt f Hf. destruct (Hfr pt f Hf) as [?|Hfree]; [by left|]. destruct (T' !! pt) as [f'|] eqn:Ef; [left|by right].
    apply Hsub in Ef. congruence.
Qed.

(** *** Permissions *)

Lemma protect_entry_frame flags e : Z.land flags PROTECT_FLAGS = flags → frame_of (protect_entry flags e) = frame_of e.
Proof.
  intros Hfl. unfold protect_entry. case_match; [done|]. unfold frame_of, PAGE_ADDR. f_equal.
  rewrite !Z.land_lor_distr_l. rewrite <-Hfl, <-!Z.land_assoc.
  change (Z.land PROTECT_FLAGS (Z.lxor PAGE_MASK (2 ^ 64 - 1))) with 0.
  change (Z.land PAGE_PRESENT (Z.lxor PAGE_MASK (2 ^ 64 - 1))) with 0.
  change (Z.land (not64 PROTECT_FLAGS) (Z.lxor PAGE_MASK (2 ^ 64 - 1))) with (Z.lxor PAGE_MASK (2 ^ 64 - 1)).
  by rewrite Z.land_0_r, !Z.lor_0_r.
Qed.

Lemma protect_entry_flags flags e : Z.land flags PROTECT_FLAGS = flags → has e PAGE_PRESENT = true →
  Z.land (protect_entry flags e) PROTECT_FLAGS = Z.lor flags PAGE_PRESENT.
Proof.
  intros Hfl He. unfold protect_entry. destruct (Z.land e PROTECT_FLAGS =? flags) eqn:E.
  - apply Z.eqb_eq in E. rewrite E, <-E. symmetry.
    assert (Z.land e PAGE_PRESENT = PAGE_PRESENT) as Hp.
    { unfold has in He. apply negb_true_iff, Z.eqb_neq in He. revert He. unfold PAGE_PRESENT.
      rewrite (land_ones_mod _ 1) by done. mlia. }
    rewrite <-Hp at 1. rewrite <-Z.land_lor_distr_r. done.
  - rewrite !Z.land_lor_distr_l, <-Z.land_assoc.
    change (Z.land (not64 PROTECT_FLAGS) PROTECT_FLAGS) with 0.
    change (Z.land PAGE_PRESENT PROTECT_FLAGS) with PAGE_PRESENT. by rewrite Z.land_0_r, Hfl.
Qed.

Lemma protect_entry_present flags e : has e PAGE_PRESENT = true ∨ Z.land e PROTECT_FLAGS ≠ flags →
  has (protect_entry flags e) PAGE_PRESENT = true.
Proof.
  unfold protect_entry. case_match eqn:E; [apply Z.eqb_eq in E; tauto|]. intros _.
  rewrite has_lor. by rewrite orb_true_r.
Qed.

(** What the processor sees of an entry of a table of the range. *)
Lemma protected_view k g T p q flags k' l : protected base n root k g T p q flags k' → canonical l →
  translate (phys (km k')) root l = f ← T !! path1 l;
    let e := entry (phys (km k)) f (i0 l) in
    let e' := if decide (p ≤ l < q) then protect_entry flags e else e in
    if has e' PAGE_PRESENT then Some e' else None.
Proof.
  intros [Hs' He _ _] Hl. rewrite (translate_space k' g T) by done. unfold view.
  destruct (T !! path1 l) as [f|] eqn:Hf; [|done]. simpl. by rewrite He.
Qed.

(** C15 (functional).  [protect_region] gives every mapped page of the range the
    permissions asked for, keeps its frame, leaves the pages outside the range
    alone and the TLB consistent. *)
Theorem protect_region_correct k g T p q flags : layout_ok base n → space base n root k g T →
  one_half p q → p < q → q < 2 ^ 52 - 1 → 0 ≤ flags < 2 ^ 64 → Z.land flags PROTECT_FLAGS = flags →
  (∀ l f, p ≤ l < q → T !! path1 l = Some f → 0 ≤ entry (phys (km k)) f (i0 l) < 2 ^ 64) →
  ∃ k', protect_region (kva root) (4096 * p) (4096 * (q - p)) flags k = OK tt k' ∧ space base n root k' g T ∧
    (∀ l e, p ≤ l < q → translate (phys (km k)) root l = Some e →
      ∃ e', translate (phys (km k')) root l = Some e' ∧ frame_of e' = frame_of e ∧
        Z.land e' PROTECT_FLAGS = Z.lor flags PAGE_PRESENT) ∧
    (∀ l, canonical l → ¬ (p ≤ l < q) → translate (phys (km k')) root l = translate (phys (km k)) root l) ∧
    infos (km k') = infos (km k) ∧ (tlb_ok root k → tlb_ok root k').
Proof.
  intros L Hs Hh Hpq Hq Hfl Hpf Hw.
  destruct (wp_elim _ _ _ (protect_region_spec base n root L k g T p q flags Hs Hh Hpq Hq Hfl Hw)) as ([] & k' & E & Hpr).
  exists k'. split; [done|]. split; [apply Hpr|]. split; [|split; [|split; [by rewrite (pr_rest _ _ _ _ _ _ _ _ _ _ Hpr)|apply Hpr]]].
  - intros l e Hl. assert (canonical l) as Hcl by (by eapply one_half_in).
    rewrite (protected_view _ _ _ _ _ _ _ _ Hpr Hcl), (translate_space k g T) by done. unfold view.
    destruct (T !! path1 l) as [f|]; [|done]. simpl. rewrite decide_True by done.
    destruct (has (entry (phys (km k)) f (i0 l)) PAGE_PRESENT) eqn:Hp; [|done]. intros [= <-].
    rewrite protect_entry_present by (by left). eexists. split; [done|].
    split; [by apply protect_entry_frame|by apply protect_entry_flags].
  - intros l Hl Hn. rewrite (protected_view _ _ _ _ _ _ _ _ Hpr Hl), (translate_space k g T) by done. unfold view.
    destruct (T !! path1 l); [|done]. simpl. by rewrite decide_False.
Qed.

(** [protect_region] also rewrites the entries that are not
    present: an unmapped page of the range whose page table exists becomes a
    mapping of physical frame 0 with the permissions asked for. *)
Theorem protect_maps_unbacked_pages k g T p q flags l f : layout_ok base n → space base n root k g T →
  one_half p q → p < q → q < 2 ^ 52 - 1 → 0 < flags < 2 ^ 64 → Z.land flags PROTECT_FLAGS = flags →
  (∀ l f, p ≤ l < q → T !! path1 l = Some f → 0 ≤ entry (phys (km k)) f (i0 l) < 2 ^ 64) →
  p ≤ l < q → T !! path1 l = Some f → entry (phys (km k)) f (i0 l) = 0 →
  translate (phys (km k)) root l = None ∧
  ∃ k' e', protect_region (kva root) (4096 * p) (4096 * (q - p)) flags k = OK tt k' ∧
    translate (phys (km k')) root l = Some e' ∧ frame_of e' = 0 ∧ Z.land e' PROTECT_FLAGS = Z.lor flags PAGE_PRESENT.
Proof.
  intros L Hs Hh Hpq Hq Hfl Hpf Hw Hl Hf He. assert (canonical l) as Hcl by (by eapply one_half_in).
  split; [rewrite (translate_space k g T) by done; unfold view; by rewrite Hf; simpl; rewrite He|].
  destruct (wp_elim _ _ _ (protect_region_spec base n root L k g T p q flags Hs Hh Hpq Hq ltac:(lia) Hw)) as ([] & k' & E & Hpr).
  assert (Z.land 0 PROTECT_FLAGS ≠ flags) as Hne by (rewrite Z.land_0_l; lia).
  exists k', (protect_entry flags 0). split; [done|].
  rewrite (protected_view _ _ _ _ _ _ _ _ Hpr Hcl), Hf. simpl. rewrite decide_True, He by done.
  rewrite protect_entry_present by (by right). split; [done|]. split; [by rewrite protect_entry_frame|].
  unfold protect_entry. rewrite (proj2 (Z.eqb_neq _ _) Hne), Z.land_0_l, Z.lor_0_l, Z.land_lor_distr_l, Hpf. done.
Qed.

(** *** Lookups *)

(** What [page_lookup] returns for the last mapped page of [p..q-1]. *)
Lemma lookup_result_at k g T p q es r l e : space base n root k g T → lookup_result base k T p q es r →
  p ≤ l < q → translate (phys (km k)) root l = Some e →
  (∀ l', l < l' < q → translate (phys (km k)) root l' = None) →
  r.1 = pg base (frame_of e) ∧
  ∀ v, es = Some v → v ≠ NULL → ∃ ptr, r.2 = Some ptr ∧ read_word ptr (km k) = OK e (km k).
Proof.
  intros Hs Hr Hl He Hlast. rewrite (translate_space k g T) in He by done.
  assert (∀ l', l < l' < q → view T (phys (km k)) l' = None) as Hlast'.
  { intros l' Hl'. rewrite <-(translate_space k g T) by done. by apply Hlast. }
  destruct Hr as [[Hn _]|(l1 & f & e1 & Hl1 & Hf & He1 & Hlast1 & ->)]; [by rewrite Hn in He by done|].
  assert (l1 = l) as ->.
  { destruct (Z.lt_trichotomy l1 l) as [?|[?|?]]; [|done|]; [rewrite Hlast1 in He by lia|rewrite Hlast' in He1 by lia]; done. }
  assert (e1 = e) as -> by congruence. split; [done|]. intros v -> Hv. simpl. rewrite (proj2 (Z.eqb_neq _ _) Hv).
  eexists. split; [done|]. pose proof (space_frame _ _ _ _ _ _ _ _ Hs Hf) as Hfn.
  assert (entry (phys (km k)) f (i0 l) = e) as Ee.
  { rewrite (view_entry T (phys (km k)) l f Hf) in He. by case_match; [injection He|]. }
  destruct (wp_elim _ _ _ (wp_read_entry f (i0 l) (km k) (λ a m, a = e ∧ m = km k) Hfn ltac:(apply index_bounds) ltac:(done)))
    as (a & m & E & -> & ->). done.
Qed.

(** [page_lookup] of a page boundary changes nothing and
    returns the page the processor would reach, NULL for an unmapped page; a
    variable that is not NULL is set to the address of the entry that maps
    the page. *)
Theorem page_lookup_correct k g T j es : layout_ok base n → space base n root k g T →
  canonical j → j < 2 ^ 52 - 2 → (∀ e, translate (phys (km k)) root j = Some e → 0 ≤ frame_of e < n) →
  ∃ r, page_lookup (kva root) (4096 * j) es k = OK r k ∧
    match translate (phys (km k)) root j with
    | None => r = (NULL, es)
    | Some e => r.1 = pg base (frame_of e) ∧
        ∀ v, es = Some v → v ≠ NULL → ∃ ptr, r.2 = Some ptr ∧ read_word ptr (km k) = OK e (km k)
    end.
Proof.
  intros L Hs Hj Hj52 Hfr. assert (one_half j (j + 1)) as Hh by (unfold one_half, canonical in *; lia).
  assert (0 ≤ j) as Hj0 by (unfold canonical in Hj; lia).
  destruct (page_lookup_spec base n root L k g T j (j + 1) (4096 * j) es Hs Hh ltac:(lia) ltac:(lia)) as (r & E & Hr).
  - apply rounddown_page. lia.
  - rewrite <-(roundup_page (j + 1)) by lia. f_equal. rewrite u64_id; unfold PAGE_SIZE; lia.
  - intros l e Hl. replace l with j by lia. rewrite <-(translate_space k g T) by done. apply Hfr.
  - exists r. split; [done|]. destruct (translate (phys (km k)) root j) as [e|] eqn:He.
    + eapply (lookup_result_at k g T j (j + 1)); [done|done|split; [done|lia]|done|lia].
    + rewrite (translate_space k g T) in He by done. destruct Hr as [[_ ->]|(l & f & e & Hl & _ & He' & _)]; [done|].
      replace l with j in He' by lia. congruence.
Qed.

(** For an address inside page [j], [page_lookup] walks two pages
    and returns the page mapped at [j + 1], whatever is mapped at [j]. *)
Theorem page_lookup_unaligned k g T j off e : layout_ok base n → space base n root k g T →
  one_half j (j + 2) → j < 2 ^ 52 - 3 → 0 < off < PAGE_SIZE →
  (∀ l e, j ≤ l < j + 2 → translate (phys (km k)) root l = Some e → 0 ≤ frame_of e < n) →
  translate (phys (km k)) root (j + 1) = Some e →
  ∃ es, page_lookup (kva root) (4096 * j + off) None k = OK (pg base (frame_of e), es) k.
Proof.
  intros L Hs Hh Hj Hoff Hfr He. assert (0 ≤ j) as Hj0 by (unfold one_half in Hh; lia). unfold PAGE_SIZE in Hoff.
  destruct (page_lookup_spec base n root L k g T j (j + 2) (4096 * j + off) None Hs Hh ltac:(lia) ltac:(lia)) as (r & E & Hr).
  - unfold ROUNDDOWN, PAGE_SIZE. rewrite u64_id by lia. mlia.
  - unfold ROUNDUP, ROUNDDOWN, PAGE_SIZE. rewrite (u64_id (4096 * j + off + 4096)) by lia.
    rewrite !(u64_id (4096 * j + off + 4096 + 4096 - 1)) by lia. mlia.
  - intros l e' Hl. rewrite <-(translate_space k g T) by done. by apply Hfr.
  - destruct (lookup_result_at k g T j (j + 2) None r (j + 1) e) as [Hr1 _]; [done|done|lia|done|lia|].
    exists r.2. destruct r. simpl in *. by subst.
Qed.

(** *** Checking user memory *)

(** The pages a range of addresses touches. *)
Lemma range_pages va size : 0 ≤ va → 0 < size → va + size < 2 ^ 48 →
  ROUNDDOWN va PAGE_SIZE = 4096 * (va `div` 4096) ∧
  ROUNDUP (u64 (va + size)) PAGE_SIZE = 4096 * ((va + size + 4095) `div` 4096).
Proof.
  intros. unfold ROUNDUP, ROUNDDOWN, PAGE_SIZE. rewrite (u64_id va), (u64_id (va + size)) by lia.
  rewrite !(u64_id (va + size + 4096 - 1)) by lia. split; mlia.
Qed.

(** C14 (safety).  [check_user_mem] on a range of user addresses changes nothing;
    it returns 0 exactly when every page the range touches can be used in user
    mode with the permissions asked for, and otherwise -1 and the first page
    that cannot. *)
Theorem check_user_mem_correct k g T va size flags : layout_ok base n → space base n root k g T →
  0 ≤ va → 0 < size → va + size ≤ USER_LIM →
  let acc := accessible (phys (km k)) root (Z.lor (Z.lor flags PAGE_PRESENT) PAGE_USER) in
  ∃ r fault, check_user_mem (kva root) va size flags k = OK (r, fault) k ∧
    ((r = 0 ∧ ∀ a, va ≤ a < va + size → acc (a `div` 4096)) ∨
     (r = -1 ∧ ∃ a, va ≤ a < va + size ∧ fault = 4096 * (a `div` 4096) ∧ ¬ acc (a `div` 4096) ∧
        ∀ b, va ≤ b → b `div` 4096 < a `div` 4096 → acc (b `div` 4096))).
Proof.
  intros L Hs Hva Hsz Hlim acc. change USER_LIM with (2 ^ 47) in Hlim.
  set (p := va `div` 4096). set (q := (va + size + 4095) `div` 4096).
  assert (0 ≤ p < q ∧ q ≤ 2 ^ 35 ∧ 4096 * p ≤ va ∧ va < 4096 * p + 4096 ∧ va + size ≤ 4096 * q ∧ 4096 * q < va + size + 4096) as Hpq
    by (unfold p, q; mlia).
  assert (one_half p q) as Hh by (unfold one_half; lia).
  assert (has (Z.lor (Z.lor flags PAGE_PRESENT) PAGE_USER) PAGE_PRESENT = true) as Hp by (rewrite !has_lor; by rewrite orb_true_r).
  destruct (range_pages va size ltac:(lia) ltac:(lia) ltac:(lia)) as [Edn Eup].
  destruct (wp_elim _ _ _ (check_walk base n root L k g T p q _ Hs Hh ltac:(lia) ltac:(lia) Hp)) as (r & [k' u] & E & Ek & Hr).
  simpl in Ek. subst k'. exists r, (ui_va u). split.
  { unfold check_user_mem, with_udata, mbind, M_bind.
    replace (walk_page_range (kva root) va (u64 (va + size)) user_walker)
      with (walk_page_range (kva root) (4096 * p) (4096 * q) user_walker); [by rewrite E|].
    unfold walk_page_range. rewrite Edn, Eup, rounddown_page, roundup_page by lia. done. }
  destruct (r <? 0); [right|left].
  - destruct Hr as (-> & j & Hj & Hfa & Hbad & Hok). split; [done|]. exists (Z.max va (4096 * j)).
    assert (Z.max va (4096 * j) `div` 4096 = j) as -> by (clearbody p q; mlia).
    split; [clearbody p q; lia|]. split; [done|]. split; [done|]. intros b Hb Hbj. apply Hok.
    unfold p in *. clearbody q. mlia.
  - destruct Hr as [-> Hok]. split; [done|]. intros a Ha. apply Hok. unfold p, q. mlia.
Qed.

Lemma walk_loop_empty {U} fuel bound visit end_ addr next (s : kernel * U) : end_ ≤ next →
  walk_loop (S fuel) bound visit end_ addr next s = OK 0 s.
Proof. intros. simpl. by rewrite (proj2 (Z.ltb_ge _ _)). Qed.

(** A size that makes the end of the range wrap around to an
    address at or below its first page passes the check without any page
    being looked at. *)
Theorem check_user_mem_overflow k va size flags : 0 ≤ va < 2 ^ 64 →
  0 < u64 (va + size) ≤ ROUNDDOWN va PAGE_SIZE → check_user_mem (kva root) va size flags k = OK (0, 0) k.
Proof.
  intros Hva Hs. unfold check_user_mem, with_udata, walk_page_range, pml4_walk_range, mbind, M_bind.
  assert (u64 (ROUNDUP (u64 (va + size)) PAGE_SIZE - 1) < ROUNDDOWN va PAGE_SIZE) as Hlt.
  { revert Hs. generalize (u64 (va + size)). intros x Hs. unfold ROUNDUP, ROUNDDOWN, PAGE_SIZE in *.
    rewrite (u64_id va) in * by lia. rewrite (u64_id (x + 4096 - 1)) by mlia. rewrite (u64_id (x + 4096 - 1)) by mlia.
    rewrite u64_id by mlia. mlia. }
  unfold walk_fuel. rewrite walk_loop_empty by lia. done.
Qed.
End properties.

(** ** A concrete address space

    The machine of BuddySpec.v after [page_init].  Frame 16 is the root of a
    page table with the tables 160, 161 and 162; page 1024 maps frame 20 for
    user mode, the other pages are unmapped.  The current task has one VMA,
    of the pages 1024 to 2047. *)

#[local] Existing Instance demo_layout.
#[local] Existing Instance demo_end.

Definition demo_tables : tmap := {[ [] := 16; [0] := 160; [0; 0] := 161; [0; 0; 2] := 162 ]}.
Definition demo_phys : physmem := {[
  16 := {[ 0 := make_entry 160 7 ]}; 160 := {[ 0 := make_entry 161 7 ]};
  161 := {[ 2 := make_entry 162 7 ]}; 162 := {[ 0 := make_entry 20 7 ]} ]}.

Definition demo_ref (m : mem) (x : Z) : mem :=
  match infos m !! pg demo_base x with
  | Some p => set_infos (<[pg demo_base x := set_ref 1 p]> (infos m)) m
  | None => m
  end.
Definition demo_used (m : mem) : mem := set_phys demo_phys (foldl demo_ref m [160; 161; 162; 20]).

Definition demo_kernel (m : mem) : kernel :=
  Kernel (demo_used m) (Rbs {[ 0x7008 := RbNode NULL NULL NULL RB_BLACK ]} {[ 0x6000 + off_task_rb := 0x7008 ]})
    {[ 0x7000 := Vma 0 0x6000 0x8000 0x400000 0x800000 NULL 0 7 ]} {[ 0x6000 := set_task_pid 1 (set_task_pml4 (kva 16) task0) ]} ∅
    {[ this_cpu (demo_used m) := Cpu 0x6000 0 0 0 0 ]} ∅ ∅ ∅ (SpinLock 0 0 0 0 0) (16 * PAGE_SIZE) ∅ (kva 16) 0.

Lemma demo_tables_lookup p f : demo_tables !! p = Some f →
  (p = [] ∧ f = 16) ∨ (p = [0] ∧ f = 160) ∨ (p = [0; 0] ∧ f = 161) ∨ (p = [0; 0; 2] ∧ f = 162).
Proof.
  unfold demo_tables. rewrite !lookup_insert_Some, lookup_singleton_Some. naive_solver.
Qed.

Lemma demo_tables_none p : p ∉ [[]; [0]; [0; 0]; [0; 0; 2]] → demo_tables !! p = None.
Proof.
  intros Hp. destruct (demo_tables !! p) as [f|] eqn:Hf; [|done]. exfalso. apply Hp.
  destruct (demo_tables_lookup p f Hf) as [[-> _]|[[-> _]|[[-> _]|[-> _]]]]; set_solver.
Qed.

(** A table of the concrete machine has one entry. *)
Lemma demo_child f i0 e p i : demo_phys !! f = Some {[ i0 := e ]} → child_ok e (demo_tables !! (p ++ [i0])) →
  (i ≠ i0 → demo_tables !! (p ++ [i]) = None) → child_ok (entry demo_phys f i) (demo_tables !! (p ++ [i])).
Proof.
  intros Hf He Hn. destruct (decide (i = i0)) as [->|Hi].
  - unfold entry. rewrite Hf. simpl. by rewrite lookup_singleton_eq.
  - rewrite Hn by done. unfold entry. rewrite Hf. simpl. by rewrite lookup_singleton_ne.
Qed.

Lemma demo_pt_ok : pt_ok demo_n demo_tables demo_phys 16.
Proof.
  split.
  - done.
  - intros p f Hf%demo_tables_lookup. unfold demo_n. lia.
  - intros p f Hf%demo_tables_lookup. destruct Hf as [[-> _]|[[-> _]|[[-> _]|[-> _]]]]; simpl; lia.
  - intros p i f Hf%demo_tables_lookup.
    destruct Hf as [[E _]|[[E _]|[[E _]|[E _]]]].
    + by destruct p.
    + change [0] with ([] ++ [0]) in E. apply app_inj_tail in E as [-> ->]. done.
    + change [0; 0] with ([0] ++ [0]) in E. apply app_inj_tail in E as [-> ->]. done.
    + change [0; 0; 2] with ([0; 0] ++ [2]) in E. apply app_inj_tail in E as [-> ->]. done.
  - intros p f i Hf%demo_tables_lookup Hlen Hi.
    destruct Hf as [[-> ->]|[[-> ->]|[[-> ->]|[-> ->]]]]; [..|simpl in Hlen; lia].
    + apply (demo_child _ 0 (make_entry 160 7)); [done|done|]. intros ?. apply demo_tables_none. simpl. set_solver.
    + apply (demo_child _ 0 (make_entry 161 7)); [done|done|]. intros ?. apply demo_tables_none. simpl. set_solver.
    + apply (demo_child _ 2 (make_entry 162 7)); [done|done|]. intros ?. apply demo_tables_none. simpl. set_solver.
  - intros p q f Hp%demo_tables_lookup Hq%demo_tables_lookup. intuition (subst; congruence).
Qed.

Lemma demo_ref_inv m g x : buddy_inv demo_base demo_n m g → 0 ≤ x < demo_n → ¬ free_frame g x →
  buddy_inv demo_base demo_n (demo_ref m x) g.
Proof.
  intros Hinv Hx Hf. unfold demo_ref. destruct (infos m !! pg demo_base x) as [p|] eqn:Hp; [|done].
  by apply (buddy_inv_upd demo_base demo_n m g x p).
Qed.

#[local] Opaque pg.

(** What [demo_used] does to the [page_info]s. *)
Lemma demo_refs_infos xs m y : NoDup xs →
  infos (foldl demo_ref m xs) !! pg demo_base y =
  (if decide (y ∈ xs) then set_ref 1 else id) <$> infos m !! pg demo_base y.
Proof.
  revert m. induction xs as [|x xs IH]; intros m Hnd; simpl; [by rewrite option_fmap_id|].
  apply NoDup_cons in Hnd as [Hx Hnd]. rewrite IH by done.
  assert (infos (demo_ref m x) !! pg demo_base y = (if decide (y = x) then set_ref 1 else id) <$> infos m !! pg demo_base y) as ->.
  { unfold demo_ref. destruct (infos m !! pg demo_base x) as [p|] eqn:Hp; simpl.
    - rewrite lookup_insert. destruct (decide (pg demo_base x = pg demo_base y)) as [E|E].
      + apply pg_inj in E as ->. by rewrite decide_True, Hp.
      + rewrite decide_False by congruence. by rewrite option_fmap_id.
    - destruct (decide (y = x)) as [->|]; [by rewrite Hp|by rewrite option_fmap_id]. }
  destruct (decide (y = x)) as [->|Hyx].
  - rewrite (decide_False (P := x ∈ xs)), (decide_True (P := x ∈ x :: xs)) by set_solver. by rewrite option_fmap_id.
  - rewrite option_fmap_id. repeat case_decide; set_solver.
Qed.

Lemma demo_ref_zero m x : (∀ a p, infos m !! a = Some p → pp_zero p = 0) →
  ∀ a p, infos (demo_ref m x) !! a = Some p → pp_zero p = 0.
Proof.
  intros Hz a p. unfold demo_ref. destruct (infos m !! pg demo_base x) as [q|] eqn:Hq; [|apply Hz]. simpl.
  rewrite lookup_insert. case_decide; [|apply Hz]. intros [= <-]. simpl. by eapply Hz.
Qed.

Lemma demo_ref_heap m x : heap (demo_ref m x) = heap m.
Proof. unfold demo_ref. by destruct (infos m !! pg demo_base x). Qed.

(** The concrete address space. *)
Record demo_state (k : kernel) (g : blocks) : Prop := {
  demo_st : ∃ m, k = demo_kernel m;
  demo_st_space : space demo_base demo_n 16 k g demo_tables;
  demo_st_free x : free_frame g x ↔ 8 ≤ x < 160 ∧ x ≠ 16 ∧ x ≠ 20;
  demo_st_swap : swap_list demo_base demo_n true (heap (km k));
  demo_st_20 : pp_ref <$> infos (km k) !! pg demo_base 20 = Some 1;
  demo_st_163 : pp_ref <$> infos (km k) !! pg demo_base 163 = Some 0;
}.

Lemma demo_space : ∃ k g, demo_state k g.
Proof.
  destruct demo_booted as (s' & g & _ & Hinv & Hun & [_ Hz] & Hsw & HF).
  exists (demo_kernel (bmem s')), g. generalize dependent (bmem s'). intros m Hinv Hun Hz Hsw. clear s'.
  assert (∀ x, 160 ≤ x < 512 ∨ x = 16 ∨ x = 20 → ¬ free_frame g x) as Hused by (intros x Hx; rewrite HF; lia).
  assert (NoDup [160; 161; 162; 20]) as Hnd by (apply (bool_decide_unpack _); by vm_compute).
  assert (∀ y, infos (km (demo_kernel m)) !! pg demo_base y = (if decide (y ∈ [160; 161; 162; 20]) then set_ref 1 else id) <$>
    infos m !! pg demo_base y) as Hi by (intros y; by apply demo_refs_infos).
  assert (∀ y, 0 ≤ y < 512 → ∃ p, infos m !! pg demo_base y = Some p) as Hsome.
  { intros y Hy. by apply (used_info demo_base demo_n m g). }
  split.
  - by exists m.
  - split.
    + unfold demo_kernel, demo_used. cbn [km]. apply (buddy_inv_phys demo_base demo_n). cbn [foldl].
      repeat (apply demo_ref_inv; [|unfold demo_n; lia|apply Hused; lia]). done.
    + exact demo_pt_ok.
    + intros p f Hf%demo_tables_lookup. apply Hused. lia.
    + intros p f Hf%demo_tables_lookup Hp. rewrite Hi.
      assert (f = 160 ∨ f = 161 ∨ f = 162) as Hf' by (clear -Hf Hp; intuition). rewrite decide_True by set_solver.
      destruct (Hsome f ltac:(lia)) as [q ->]. done.
    + unfold demo_kernel, demo_used. cbn [km infos set_phys foldl]. by do 4 apply demo_ref_zero.
  - done.
  - unfold demo_kernel, demo_used. cbn [km heap set_phys foldl]. by rewrite !demo_ref_heap.
  - rewrite Hi, decide_True by set_solver. destruct (Hsome 20 ltac:(lia)) as [q ->]. done.
  - rewrite Hi, decide_False by set_solver. destruct (Hsome 163 ltac:(lia)) as [q Hq]. rewrite Hq. simpl.
    rewrite (Hun 163 q); [done|unfold demo_n; lia|apply Hused; lia|done].
Qed.

Lemma demo_avail k g a : demo_state k g → a ≤ 150 → avail g a.
Proof.
  intros Hd Ha. exists demo_free. rewrite demo_free_size. split; [|lia].
  intros x. by rewrite demo_free_spec, (demo_st_free _ _ Hd).
Qed.

Lemma demo_owner k g l : demo_state k g → l = 1025 ∨ l = 1026 → owner demo_base demo_n k 6 (4096 * l) 0x8000.
Proof.
  intros Hd Hl. pose proof (demo_st_swap _ _ Hd) as Hsw. destruct (demo_st _ _ Hd) as [m ->].
  exists 0x6000, 0x7000, (Vma 0 0x6000 0x8000 0x400000 0x800000 NULL 0 7).
  split; [unfold cur_task, cpu_get, mbind, M_bind, deref; simpl; by rewrite lookup_singleton_eq|].
  split; [done|]. split; [destruct Hl as [-> | ->]; done|].
  split; [by destruct Hl as [-> | ->]|]. done.
Qed.

(** The page 1024 is mapped, and no other. *)
Lemma demo_translate k g : demo_state k g → translate (phys (km k)) 16 1024 = Some (make_entry 20 7) ∧
  ∀ l, 1024 < l < 1536 → translate (phys (km k)) 16 l = None.
Proof.
  intros Hd. destruct (demo_st _ _ Hd) as [m ->]. split; [done|]. intros l Hl.
  rewrite (translate_space demo_base demo_n 16 _ g demo_tables) by apply Hd. unfold view, path1, path2, path3.
  assert (i3 l = 0 ∧ i2 l = 0 ∧ i1 l = 2 ∧ 0 < i0 l) as (-> & -> & -> & Hi) by (unfold i0, i1, i2, i3; mlia).
  change (demo_tables !! (([0] ++ [0]) ++ [2])) with (Some 162).
  change (phys (km (demo_kernel m))) with demo_phys. cbn [mbind option_bind].
  assert (entry demo_phys 162 (i0 l) = 0) as ->; [|done]. unfold entry.
  change (demo_phys !! 162) with (Some ({[ 0 := make_entry 20 7 ]} : frame_words)). cbn [mbind option_bind].
  by rewrite lookup_singleton_ne by lia.
Qed.

Lemma demo_frame_20 k g : demo_state k g → ∃ i, infos (km k) !! pg demo_base 20 = Some i ∧ pp_ref i = 1.
Proof. intros Hd. pose proof (demo_st_20 _ _ Hd) as (i & Hi & Hr)%fmap_Some. eauto. Qed.

Lemma demo_frame_163 k g : demo_state k g → ∃ i, insertable demo_base demo_n k g demo_tables 1025 163 i ∧ pp_ref i = 0.
Proof.
  intros Hd. pose proof (demo_st_163 _ _ Hd) as (i & Hi & Hr)%fmap_Some. exists i. split; [|done].
  assert (view demo_tables (phys (km k)) 1025 = None) as Hv.
  { rewrite <-(translate_space demo_base demo_n 16 k g) by apply Hd. eapply demo_translate; [done|lia]. }
  split; [|split; [intros e He; congruence|by rewrite Hv]]. split.
  - unfold demo_n. lia.
  - rewrite (demo_st_free _ _ Hd). lia.
  - intros p Hp%demo_tables_lookup. lia.
  - done.
  - lia.
Qed.

Lemma page_insert_correct_witness : ∃ k g k', demo_state k g ∧
  page_insert 0 (kva 16) (pg demo_base 163) (4096 * 1025) 6 k = OK 0 k' ∧
  translate (phys (km k')) 16 1025 = Some (make_entry 163 7) ∧
  translate (phys (km k')) 16 1024 = Some (make_entry 20 7).
Proof.
  destruct demo_space as (k & g & Hd). destruct (demo_frame_163 k g Hd) as (i & Hins & _).
  destruct (page_insert_correct demo_base demo_n 16 k g demo_tables 1025 163 i 0x8000 6 0) as (k' & g' & T' & E & _ & Ht & _).
  - exact demo_layout_ok.
  - apply Hd.
  - unfold canonical. lia.
  - lia.
  - exact Hins.
  - destruct Hins as ([Hx Hnf _ Hi _] & _). eapply (inv_used_order demo_base demo_n); [apply Hd|exact Hx|exact Hnf|exact Hi].
  - eapply demo_owner; [exact Hd|lia].
  - lia.
  - eapply demo_avail; [exact Hd|lia].
  - exists k, g, k'. split; [exact Hd|]. split; [exact E|]. rewrite !Ht by (unfold canonical; lia). split; [reflexivity|].
    rewrite decide_False by lia. eapply demo_translate, Hd.
Defined.

Lemma boot_map_region_correct_witness : ∃ k g k', demo_state k g ∧
  boot_map_region (kva 16) (4096 * 5000) (4096 * (6000 - 5000)) (4096 * 300) PAGE_WRITE k = OK tt k' ∧
  translate (phys (km k')) 16 5999 = Some (make_entry 1299 3).
Proof.
  destruct demo_space as (k & g & Hd).
  destruct (boot_map_region_correct demo_base demo_n 16 k g demo_tables 5000 6000 300 PAGE_WRITE) as (k' & g' & T' & E & _ & Ht & _).
  - exact demo_layout_ok.
  - apply Hd.
  - unfold one_half. lia.
  - lia.
  - lia.
  - lia.
  - lia.
  - unfold PAGE_WRITE. lia.
  - eapply demo_avail; [exact Hd|by vm_compute].
  - exists k, g, k'. split; [exact Hd|]. split; [exact E|]. by rewrite Ht by (unfold canonical; lia).
Defined.


Lemma unmap_page_range_correct_witness : ∃ k g k' g', demo_state k g ∧
  unmap_page_range (kva 16) (4096 * 1024) (4096 * (1025 - 1024)) k = OK tt k' ∧
  translate (phys (km k')) 16 1024 = None ∧ ¬ free_frame g 20 ∧ free_frame g' 20.
Proof.
  destruct demo_space as (k & g & Hd). destruct (demo_frame_20 k g Hd) as (i & Hi & Hr).
  destruct (demo_translate k g Hd) as [Ht _]. pose proof (demo_st_space _ _ Hd) as Hs.
  assert (view demo_tables (phys (km k)) 1024 = Some (make_entry 20 7)) as Hv
    by (rewrite <-(translate_space demo_base demo_n 16 k g) by exact Hs; exact Ht).
  assert (¬ free_frame g 20) as Hf by (rewrite (demo_st_free _ _ Hd); lia).
  destruct (unmap_page_range_correct demo_base demo_n 16 k g demo_tables 1024 1025) as (k' & g' & T' & E & _ & Ht' & Hpg & _).
  - exact demo_layout_ok.
  - exact Hs.
  - unfold one_half. lia.
  - lia.
  - lia.
  - split.
    + intros l Hl e. replace l with 1024 by lia. rewrite Hv. intros [= <-].
      change (frame_of (make_entry 20 7)) with 20. exists i. split; [unfold demo_n; lia|]. split; [exact Hf|].
      split; [intros p Hp%demo_tables_lookup; lia|]. split; [exact Hi|lia].
    + intros. lia.
    + intros l f Hl. replace l with 1024 by lia. change (demo_tables !! path1 1024) with (Some 162). intros [= <-].
      right. by destruct (demo_st _ _ Hd) as [m ->].
  - exists k, g, k', g'. split; [exact Hd|]. split; [exact E|].
    split; [by rewrite Ht' by (unfold canonical; lia)|]. split; [exact Hf|].
    specialize (Hpg 1024 _ i ltac:(lia) Ht Hi). by rewrite decide_True in Hpg.
Defined.

(** The entries of the page table 162 are words. *)
Lemma demo_words k g l f : demo_state k g → 1024 ≤ l < 1536 → demo_tables !! path1 l = Some f →
  f = 162 ∧ entry (phys (km k)) f (i0 l) = if decide (l = 1024) then make_entry 20 7 else 0.
Proof.
  intros Hd Hl. destruct (demo_st _ _ Hd) as [m ->]. unfold path1, path2, path3.
  assert (i3 l = 0 ∧ i2 l = 0 ∧ i1 l = 2) as (-> & -> & ->) by (unfold i1, i2, i3; mlia).
  change (demo_tables !! (([0] ++ [0]) ++ [2])) with (Some 162). intros [= <-]. split; [done|].
  change (phys (km (demo_kernel m))) with demo_phys. unfold entry.
  change (demo_phys !! 162) with (Some ({[ 0 := make_entry 20 7 ]} : frame_words)). cbn [mbind option_bind].
  case_decide as E; [by subst|]. rewrite lookup_singleton_ne; [done|]. unfold i0. mlia.
Qed.

Lemma protect_region_correct_witness : ∃ k g k' e', demo_state k g ∧
  protect_region (kva 16) (4096 * 1024) (4096 * (1025 - 1024)) PAGE_USER k = OK tt k' ∧
  translate (phys (km k')) 16 1024 = Some e' ∧ frame_of e' = 20 ∧ Z.land e' PROTECT_FLAGS = Z.lor PAGE_USER PAGE_PRESENT.
Proof.
  destruct demo_space as (k & g & Hd). destruct (demo_translate k g Hd) as [Ht _].
  destruct (protect_region_correct demo_base demo_n 16 k g demo_tables 1024 1025 PAGE_USER) as (k' & E & _ & Hpr & _).
  - exact demo_layout_ok.
  - apply Hd.
  - unfold one_half. lia.
  - lia.
  - lia.
  - unfold PAGE_USER. lia.
  - reflexivity.
  - intros l f Hl Hf. destruct (demo_words k g l f Hd ltac:(lia) Hf) as [_ ->]. case_decide; by vm_compute.
  - destruct (Hpr 1024 _ ltac:(lia) Ht) as (e' & He' & Hfr & Hfl). exists k, g, k', e'.
    split; [exact Hd|]. split; [exact E|]. split; [exact He'|]. split; [exact Hfr|exact Hfl].
Defined.

Lemma protect_maps_unbacked_pages_witness : ∃ k g k' e', demo_state k g ∧
  translate (phys (km k)) 16 1025 = None ∧
  protect_region (kva 16) (4096 * 1024) (4096 * (1026 - 1024)) 7 k = OK tt k' ∧
  translate (phys (km k')) 16 1025 = Some e' ∧ frame_of e' = 0.
Proof.
  destruct demo_space as (k & g & Hd).
  destruct (protect_maps_unbacked_pages demo_base demo_n 16 k g demo_tables 1024 1026 7 1025 162) as (Hn & k' & e' & E & He' & Hfr & _).
  - exact demo_layout_ok.
  - apply Hd.
  - unfold one_half. lia.
  - lia.
  - lia.
  - lia.
  - reflexivity.
  - intros l f Hl Hf. destruct (demo_words k g l f Hd ltac:(lia) Hf) as [_ ->]. case_decide; by vm_compute.
  - lia.
  - reflexivity.
  - by destruct (demo_words k g 1025 162 Hd ltac:(lia) eq_refl) as [_ ->].
  - exists k, g, k', e'. split; [exact Hd|]. split; [exact Hn|]. split; [exact E|]. split; [exact He'|exact Hfr].
Defined.

Lemma page_lookup_correct_witness : ∃ k g ptr, demo_state k g ∧
  page_lookup (kva 16) (4096 * 1024) (Some 1) k = OK (pg demo_base 20, Some ptr) k ∧
  read_word ptr (km k) = OK (make_entry 20 7) (km k).
Proof.
  destruct demo_space as (k & g & Hd). destruct (demo_translate k g Hd) as [Ht _].
  destruct (page_lookup_correct demo_base demo_n 16 k g demo_tables 1024 (Some 1)) as ([p v] & E & Hr).
  - exact demo_layout_ok.
  - apply Hd.
  - unfold canonical. lia.
  - lia.
  - rewrite Ht. intros e [= <-]. by vm_compute.
  - rewrite Ht in Hr. destruct Hr as [Hp Hv]. simpl in Hp. subst p.
    destruct (Hv 1 eq_refl ltac:(unfold NULL; lia)) as (ptr & Hv' & Hrd). simpl in Hv'. subst v.
    exists k, g, ptr. split; [exact Hd|]. split; [exact E|exact Hrd].
Defined.

(** Page 1023 is unmapped, yet looking up an address inside it finds the page
    mapped at 1024. *)
Lemma page_lookup_unaligned_witness : ∃ k g es, demo_state k g ∧
  page_lookup (kva 16) (4096 * 1023 + 5) None k = OK (pg demo_base 20, es) k.
Proof.
  destruct demo_space as (k & g & Hd). destruct (demo_translate k g Hd) as [Ht _].
  destruct (page_lookup_unaligned demo_base demo_n 16 k g demo_tables 1023 5 (make_entry 20 7)) as (es & E).
  - exact demo_layout_ok.
  - apply Hd.
  - unfold one_half. lia.
  - lia.
  - unfold PAGE_SIZE. lia.
  - intros l e Hl. destruct (decide (l = 1024)) as [->|]; [rewrite Ht; intros [= <-]; by vm_compute|].
    replace l with 1023 by lia. by destruct (demo_st _ _ Hd) as [m ->].
  - exact Ht.
  - exists k, g, es. split; [exact Hd|exact E].
Defined.

Lemma check_user_mem_correct_witness : ∃ k g r fault, demo_state k g ∧
  check_user_mem (kva 16) 0x400ff0 0x20 PAGE_WRITE k = OK (r, fault) k ∧ r = -1 ∧ fault = 0x401000.
Proof.
  destruct demo_space as (k & g & Hd). destruct (demo_translate k g Hd) as [Ht Hn].
  destruct (check_user_mem_correct demo_base demo_n 16 k g demo_tables 0x400ff0 0x20 PAGE_WRITE) as (r & fault & E & Hr).
  - exact demo_layout_ok.
  - apply Hd.
  - lia.
  - lia.
  - by vm_compute.
  - exists k, g, r, fault. split; [exact Hd|]. split; [exact E|]. cbv zeta in Hr.
    destruct Hr as [[_ Hok]|(-> & a & Ha & -> & Hbad & _)].
    + destruct (Hok 0x401000 ltac:(lia)) as (d & e & _ & _ & He & _).
      change (0x401000 `div` 4096) with 1025 in He. rewrite (Hn 1025) in He by lia. done.
    + split; [reflexivity|]. assert (a `div` 4096 = 1024 ∨ a `div` 4096 = 1025) as [Ea|Ea] by mlia.
      * destruct Hbad. rewrite Ea. exists (make_entry 162 7), (make_entry 20 7).
        destruct (demo_st _ _ Hd) as [m ->]. by vm_compute.
      * rewrite Ea. reflexivity.
Defined.

Lemma check_user_mem_overflow_witness : ∃ k g, demo_state k g ∧
  check_user_mem (kva 16) 0x401000 (2 ^ 64 - 0x1000) PAGE_WRITE k = OK (0, 0) k ∧
  translate (phys (km k)) 16 1025 = None.
Proof.
  destruct demo_space as (k & g & Hd). exists k, g. split; [exact Hd|]. split.
  - apply check_user_mem_overflow; by vm_compute.
  - eapply demo_translate; [exact Hd|lia].
Defined.
