(* ===== verification/Slab.v ===== *)
(** * The slab allocator (kernel/mem/slab.c, kernel/mem/kmem.c)

    A slab is a page cut into objects of one size, each behind a
    [struct slab_obj] header, with a [struct slab_info] footer.  The list
    nodes in headers and footers are in the list store, their other members
    in stores of the kernel state.  A page becomes a slab when
    [slab_alloc_chunk] writes its headers and footer: [new_*] enter them into
    the stores, zeroed as [ALLOC_ZERO] left the page. *)

From S2P Require Import Prelude LinkedList Paging Spinlock Buddy RbTree Kernel PageWalk PageTable.

Local Open Scope Z_scope.

(** ** Layout of the structs *)

Definition SLAB_ALIGN : Z := 32.

Definition off_partial : Z := 0.
Definition off_full : Z := 16.
Definition sizeof_slab : Z := 56.
Definition off_info_node : Z := 8.
Definition off_info_free : Z := 24.
Definition sizeof_slab_info : Z := 48.
Definition sizeof_slab_obj : Z := 24.

Definition slab_get (s : Z) : M kernel slab := deref (λ k, kslabs k !! s).
Definition info_get (i : Z) : M kernel slab_info := deref (λ k, kslab_infos k !! i).
Definition info_upd (i : Z) (f : slab_info → slab_info) : M kernel unit :=
  v ← info_get i; modify (λ k, set_kslab_infos (<[i := f v]> (kslab_infos k)) k).
Definition set_free_count (c : Z) (i : slab_info) : slab_info := SlabInfo (si_slab i) c.
Definition set_si_slab (s : Z) (i : slab_info) : slab_info := SlabInfo s (free_count i).
Definition obj_get (o : Z) : M kernel Z := deref (λ k, kslab_objs k !! o).
Definition obj_set (o info : Z) : M kernel unit :=
  _ ← obj_get o; modify (λ k, set_kslab_objs (<[o := info]> (kslab_objs k)) k).

(** Zeroed memory becomes a list node, a footer, a header. *)
Definition new_node (a : Z) : M kernel unit := on_list (modify (insert a (Node NULL NULL))).
Definition new_info (i : Z) : M kernel unit :=
  new_node (i + off_info_node);; new_node (i + off_info_free);;
  modify (λ k, set_kslab_infos (<[i := SlabInfo NULL 0]> (kslab_infos k)) k).
Definition new_obj (o : Z) : M kernel unit :=
  new_node o;; modify (λ k, set_kslab_objs (<[o := NULL]> (kslab_objs k)) k).

(** ** kernel/mem/slab.c *)

(** The loop of [slab_alloc_chunk]: objects [i], ..., [i + n - 1]. *)
Fixpoint init_objects (n : nat) (i va size info : Z) : M kernel unit :=
  match n with
  | O => mret tt
  | S n =>
      let obj := u64 (va + i * size) in
      new_obj obj;;
      on_list (list_init obj);;
      obj_set obj info;;
      on_list (list_add (info + off_info_free) obj);;
      info_upd info (λ v, set_free_count (u64 (free_count v + 1)) v);;
      init_objects n (i + 1) va size info
  end.

Section slabs.
Context `{Layout}.

Definition slab_alloc_chunk (slab : Z) : M kernel Z :=
  page ← on_km (page_alloc ALLOC_ZERO);
  if page =? NULL then mret (-1)
  else
    p ← on_km (page_get page);
    assert (pp_ref p =? 0);;
    va ← on_km (page2kva page);
    s ← slab_get slab;
    let info := u64 (va + info_off s) in
    new_info info;;
    info_upd info (set_si_slab slab);;
    on_list (list_init (info + off_info_node));;
    on_list (list_add (slab + off_partial) (info + off_info_node));;
    on_list (list_init (info + off_info_free));;
    info_upd info (set_free_count 0);;
    init_objects (Z.to_nat (count s)) 0 va (obj_size s) info;;
    v ← info_get info;
    assert (free_count v =? count s);;
    mret 0.

Definition slab_free_chunk (slab info : Z) : M kernel unit :=
  on_list (list_del (info + off_info_node));;
  s ← slab_get slab;
  let va := u64 (info - info_off s) in
  pml4 ← gets kernel_pml4;
  '(page, _) ← page_lookup pml4 va None;
  if page =? NULL then halt Panic
  else on_km (page_free page).

Definition slab_setup (slab obj_size : Z) : M kernel unit :=
  let obj_size := u64 (obj_size + sizeof_slab_obj) in
  let obj_size := ROUNDUP obj_size 32 in
  let count := (PAGE_SIZE - sizeof_slab_info) / obj_size in
  _ ← slab_get slab;
  modify (λ k, set_kslabs (<[slab := Slab (u64 (obj_size * count)) obj_size count]> (kslabs k)) k);;
  on_list (list_init (slab + off_full));;
  on_list (list_init (slab + off_partial)).

Definition slab_alloc (slab : Z) : M kernel Z :=
  empty ← on_list (list_is_empty (slab + off_partial));
  ret ← (if (empty : bool) then slab_alloc_chunk slab else mret 0);
  if ret <? 0 then mret NULL
  else
    pn ← on_list (get_next (slab + off_partial));
    let info := container_of pn off_info_node in
    fn ← on_list (get_next (info + off_info_free));
    let obj := container_of fn 0 in
    on_list (list_del obj);;
    info_upd info (λ v, set_free_count (u64 (free_count v - 1)) v);;
    empty ← on_list (list_is_empty (info + off_info_free));
    (if (empty : bool) then
       on_list (list_del (info + off_info_node));;
       on_list (list_add (slab + off_full) (info + off_info_node))
     else mret tt);;
    mret (obj + sizeof_slab_obj).

(** [memset(p, 0, n)] of the memory of an object: every list node, tree node
    and struct of a store that lies in it becomes zero. *)
Definition in_range (p n a : Z) : bool := (p <=? a) && (a <? p + n).
Definition zero_in {A} (p n : Z) (z : A) (m : gmap Z A) : gmap Z A :=
  map_imap (λ a v, Some (if in_range p n a then z else v)) m.
Definition zero_object (p n : Z) : M kernel unit :=
  modify (λ k, set_km (set_heap (zero_in p n (Node NULL NULL) (heap (km k))) (km k)) k);;
  modify (λ k, set_krb (Rbs (zero_in p n (RbNode NULL NULL NULL RB_BLACK) (nodes (krb k)))
    (zero_in p n NULL (roots (krb k)))) k);;
  modify (λ k, set_kvmas (zero_in p n (Vma NULL NULL NULL NULL NULL NULL 0 0) (kvmas k)) k);;
  modify (λ k, set_ktasks (zero_in p n task0 (ktasks k)) k);;
  modify (λ k, set_krmaps (zero_in p n (SpinLock 0 NULL NULL NULL 0) (krmaps k)) k).

Definition slab_free (p : Z) : M kernel unit :=
  let obj := p - sizeof_slab_obj in
  info ← obj_get obj;
  v ← info_get info;
  let slab := si_slab v in
  s ← slab_get slab;
  zero_object p (u64 (obj_size s - sizeof_slab_obj));;
  empty ← on_list (list_is_empty (info + off_info_free));
  (if (empty : bool) then
     on_list (list_del (info + off_info_node));;
     on_list (list_add (slab + off_partial) (info + off_info_node))
   else mret tt);;
  on_list (list_add (info + off_info_free) obj);;
  info_upd info (λ v, set_free_count (u64 (free_count v + 1)) v);;
  v ← info_get info;
  if count s <=? free_count v then slab_free_chunk slab info else mret tt.

(** ** kernel/mem/kmem.c *)

Definition nslabs_max : Z := 32.

(** The macros [slabs] and [nslabs]. *)
Definition slabs : M kernel Z := c ← cpu_get; mret (kmem_slabs c).
Definition nslabs : M kernel Z := c ← cpu_get; mret (kmem_nslabs c).
Definition set_nslabs (n : Z) : M kernel unit := cpu_upd (set_kmem_nslabs n).

Fixpoint setup_slabs (n : nat) (i : Z) : M kernel unit :=
  match n with
  | O => mret tt
  | S n =>
      base ← slabs;
      slab_setup (base + i * sizeof_slab) ((i + 1) * SLAB_ALIGN);;
      setup_slabs n (i + 1)
  end.

Definition kmem_init : M kernel Z :=
  set_nslabs nslabs_max;;
  n ← nslabs;
  setup_slabs (Z.to_nat n) 0;;
  mret 0.

Definition kmem_init_mp : M kernel Z := kmem_init.

Definition kmalloc (size : Z) : M kernel Z :=
  if size =? 0 then mret NULL
  else
    let size := ROUNDUP size SLAB_ALIGN in
    let index := u64 (size / SLAB_ALIGN - 1) in
    n ← nslabs;
    if n <=? index then mret NULL
    else
      base ← slabs;
      slab_alloc (base + index * sizeof_slab).

Definition kfree (p : Z) : M kernel unit := slab_free p.
End slabs.
