(* ===== verification/Vma.v ===== *)
(** * Virtual memory areas (kernel/vma, kernel/dev/rmap.c)

    A task keeps its VMAs in a red-black tree ordered by address and in a list
    in the same order.  The operations below are the code of kernel/vma; the
    lookups are in Kernel.v.  Strings are the addresses of their first
    character. *)

From S2P Require Import Prelude LinkedList Paging Spinlock Buddy RbTree Kernel PageWalk AddrSpace PageTable Slab.

Local Open Scope Z_scope.

(** A zeroed object becomes a [struct vma], a [struct rmap]. *)
Definition new_vma (p : Z) : M kernel unit :=
  new_node (p + off_vm_mmap);; new_node (p + off_rmap_node);;
  on_rb (modify (λ s, set_nodes (<[p + off_vm_rb := RbNode NULL NULL NULL RB_BLACK]> (nodes s)) s));;
  modify (λ k, set_kvmas (<[p := Vma NULL NULL NULL NULL NULL NULL 0 0]> (kvmas k)) k).
Definition new_rmap (p : Z) : M kernel unit :=
  new_node p;; modify (λ k, set_krmaps (<[p := SpinLock 0 NULL NULL NULL 0]> (krmaps k)) k).
Definition rmap_lock {A} (p : Z) (c : M spinlock A) : M kernel A :=
  l ← deref (λ k, krmaps k !! p);
  zoom (λ _, l) (λ l' k, set_krmaps (<[p := l']> (krmaps k)) k) c.

(** [struct vma_info]: its name is the string copied to it, by its address. *)
Record vma_info := VmaInfo {
  vi_name : Z; vi_base : Z; vi_end : Z; vi_prot : Z; vi_type : Z; vi_mapped : Z }.
Definition VMA_FREE : Z := 0.
Definition VMA_ANONYMOUS : Z := 1.
Definition VMA_EXECUTABLE : Z := 2.
Definition VM_4K_PAGE : Z := 1.
Definition VM_2M_PAGE : Z := 2.
(** [memset(info, 0, sizeof *info)] *)
Definition vma_info0 : vma_info := VmaInfo NULL 0 0 0 VMA_FREE 0.

(** Names: the literals the code passes, the file names of assertions. *)
Class VmaNames := {
  str_rmap : Z;  (** ["rmap"] *)
  str_user : Z;  (** ["user"] *)
  file_insert : Z;  (** ["kernel/mem/insert.c"] *)
  file_populate : Z;  (** ["kernel/mem/populate.c"] *)
  file_pfault : Z;  (** ["kernel/vma/pfault.c"] *)
  file_rmap : Z;  (** ["kernel/dev/rmap.c"] *)
}.

Section vmas.
Context `{Layout} `{VmaNames}.

(** ** insert.c *)

(** The [while] loop of [insert_vma]: [None] when the areas overlap, otherwise
    [(parent, vma_tmp, dir)]. *)
Fixpoint insert_loop (fuel : nat) (b e node parent vma_tmp : Z) (dir : bool) : M kernel (option (Z * Z * bool)) :=
  match fuel with
  | O => halt NoFuel
  | S fuel =>
      if node =? NULL then mret (Some (parent, vma_tmp, dir))
      else
        let vma_tmp := container_of node off_vm_rb in
        v ← vma_get vma_tmp;
        let dir := vm_end v <=? b in
        if negb dir && (vm_base v <? e) then mret None
        else
          n ← on_rb (rb_get node);
          insert_loop fuel b e (child dir n) node vma_tmp dir
  end.

Definition insert_vma (task vma : Z) : M kernel Z :=
  v ← vma_get vma;
  root ← on_rb (get_root (task + off_task_rb));
  fuel ← gets (λ k, S (base.size (nodes (krb k))));
  found ← insert_loop fuel (vm_base v) (vm_end v) root NULL NULL false;
  match found with
  | None => mret (-1)
  | Some (parent, vma_tmp, dir) =>
      (if parent =? NULL then on_rb (set_root (task + off_task_rb) (vma + off_vm_rb))
       else
         on_rb (rb_upd parent (with_child dir (vma + off_vm_rb)));;
         on_rb (rb_upd (vma + off_vm_rb) (with_parent parent)));;
      bal ← on_rb (rb_balance (task + off_task_rb) (vma + off_vm_rb));
      if bal <? 0 then mret (-1)
      else
      (if parent =? NULL then on_list (list_insert_after (task + off_task_mmap) (vma + off_vm_mmap))
       else
         assert (negb (vma_tmp =? NULL));;
         if (dir : bool) then on_list (list_insert_after (vma_tmp + off_vm_mmap) (vma + off_vm_mmap))
         else on_list (list_insert_before (vma_tmp + off_vm_mmap) (vma + off_vm_mmap)));;
      mret 0
  end.

Definition create_vma (task name addr size flags : Z) : M kernel Z :=
  assert (negb (task =? NULL));;
  vma ← kmalloc sizeof_vma;
  if vma =? NULL then mret NULL
  else
    new_vma vma;;
    on_list (list_init (vma + off_vm_mmap));;
    on_rb (rb_node_init (vma + off_vm_rb));;
    vma_upd vma (set_vm_name name);;
    vma_upd vma (set_vm_base (ROUNDDOWN addr PAGE_SIZE));;
    vma_upd vma (set_vm_end (ROUNDUP (u64 (addr + size)) PAGE_SIZE));;
    vma_upd vma (set_vm_flags (s32 flags));;
    vma_upd vma (set_vm_task task);;
    rmap ← kmalloc sizeof_rmap;
    (if rmap =? NULL then halt Fault else new_rmap rmap);;
    on_list (list_init rmap);;
    rmap_lock rmap (modify (spin_init str_rmap));;
    vma_upd vma (set_vm_rmap rmap);;
    on_list (list_add rmap (vma + off_rmap_node));;
    ret ← insert_vma task vma;
    if ret <? 0 then kfree vma;; mret NULL else mret vma.

(** The result and [*info].  [entry] is what the uninitialised variable
    [entry] holds. *)
Definition find_free_vma (entry task addr : Z) (info : vma_info) : M kernel (Z * vma_info) :=
  if USER_LIM <=? addr then mret (-1, info)
  else
    let info := vma_info0 in
    '(vma, _, _) ← find_vma (task + off_task_rb) addr;
    if vma =? NULL then
      node ← on_list (list_tail (task + off_task_mmap));
      if node =? NULL then mret (0, VmaInfo NULL 0 USER_LIM 0 VMA_FREE 0)
      else
        v ← vma_get (container_of node off_vm_mmap);
        mret (0, VmaInfo NULL (vm_end v) USER_LIM 0 VMA_FREE 0)
    else
      v ← vma_get vma;
      if addr <? vm_base v then
        node ← on_list (list_prev (task + off_task_mmap) (vma + off_vm_mmap));
        if node =? NULL then mret (0, VmaInfo NULL 0 (vm_base v) 0 VMA_FREE 0)
        else
          w ← vma_get (container_of node off_vm_mmap);
          mret (0, VmaInfo NULL (vm_end w) (vm_base v) 0 VMA_FREE 0)
      else
        let type := if negb (vm_src v =? NULL) then VMA_EXECUTABLE else VMA_ANONYMOUS in
        t ← task_get task;
        '(page, e) ← page_lookup (task_pml4 t) addr (Some entry);
        if negb (page =? NULL) then
          pte ← on_km (read_word (default entry e));
          mret (0, VmaInfo (vm_name v) (vm_base v) (vm_end v) (vm_flags v) type
            (if has pte PAGE_HUGE then VM_2M_PAGE else VM_4K_PAGE))
        else mret (0, VmaInfo (vm_name v) (vm_base v) (vm_end v) (vm_flags v) type 0).

(** A search loop of [add_vma].  The condition [p > 0] of the first loop is
    [strict]; in the second one, [p >= 0] holds of any pointer.  The result is
    the address at which the search found a gap.  A search moves down from
    VMA to VMA, so it makes at most one round more than there are VMAs. *)
Fixpoint gap_loop (strict : bool) (fuel : nat) (entry task p : Z) (info : vma_info) : M kernel (option Z * vma_info) :=
  match fuel with
  | O => halt NoFuel
  | S fuel =>
      if strict && negb (0 <? p) then mret (None, info)
      else
        '(ret, info) ← find_free_vma entry task p info;
        if ret <? 0 then mret (None, info)
        else if vi_type info =? VMA_FREE then mret (Some p, info)
        else gap_loop strict fuel entry task (u64 (vi_base info - 1)) info
  end.

Definition add_vma (entry : Z) (task name addr size flags : Z) : M kernel Z :=
  let addr := if addr =? NULL then USER_LIM else addr in
  fuel ← gets (λ k, S (S (base.size (kvmas k))));
  '(found, info) ← gap_loop true fuel entry task addr vma_info0;
  match found with
  | Some p => create_vma task name p size flags
  | None =>
      let p := ROUNDDOWN (u64 (USER_LIM - size - 1)) PAGE_SIZE in
      '(found, _) ← gap_loop false fuel entry task p info;
      match found with
      | Some p => create_vma task name p size flags
      | None => mret NULL
      end
  end.

(** ** remove.c: [remove_vma] *)

Definition remove_vma (task vma : Z) : M kernel unit :=
  if (task =? NULL) || (vma =? NULL) then mret tt
  else
    on_rb (rb_remove (task + off_task_rb) (vma + off_vm_rb));;
    on_rb (rb_node_init (vma + off_vm_rb));;
    on_list (list_del (vma + off_vm_mmap)).

Fixpoint free_vmas_loop (fuel : nat) (task node : Z) : M kernel unit :=
  match fuel with
  | O => halt NoFuel
  | S fuel =>
      if node =? NULL then mret tt
      else
        let vma := container_of node off_vm_mmap in
        node ← on_list (list_next (task + off_task_mmap) node);
        remove_vma task vma;;
        free_vmas_loop fuel task node
  end.
Definition free_vmas (task : Z) : M kernel unit :=
  node ← on_list (list_head (task + off_task_mmap));
  fuel ← gets (λ k, S (base.size (heap (km k))));
  free_vmas_loop fuel task node.

(** ** merge.c *)

Definition merge_vma (task lhs rhs : Z) : M kernel Z :=
  l ← vma_get lhs;
  r ← vma_get rhs;
  if negb ((vm_flags l =? vm_flags r) && (vm_end l =? vm_base r) && (vm_name l =? vm_name r)) then mret NULL
  else
    vma_upd lhs (set_vm_end (vm_end r));;
    remove_vma task rhs;;
    mret lhs.

Definition merge_vmas (task vma : Z) : M kernel Z :=
  prev ← on_list (list_prev (task + off_task_mmap) (vma + off_vm_mmap));
  vma ← (if negb (prev =? NULL) then
           new ← merge_vma task (container_of prev off_vm_mmap) vma;
           mret (if negb (new =? NULL) then new else vma)
         else mret vma);
  next ← on_list (list_next (task + off_task_mmap) (vma + off_vm_mmap));
  if negb (next =? NULL) then
    new ← merge_vma task vma (container_of next off_vm_mmap);
    mret (if negb (new =? NULL) then new else vma)
  else mret vma.

Definition add_executable_vma (entry task name addr size flags src len : Z) : M kernel Z :=
  vma ← add_vma entry task name addr size flags;
  if vma =? NULL then mret NULL
  else
    v ← vma_get vma;
    assert (vm_base v =? ROUNDDOWN addr PAGE_SIZE);;
    assert (vm_end v =? ROUNDUP (u64 (addr + size)) PAGE_SIZE);;
    let offset := addr `mod` PAGE_SIZE in
    vma_upd vma (set_vm_src (u64 (src - offset)));;
    vma_upd vma (set_vm_len (u64 (len + offset)));;
    merge_vmas task vma.

Definition add_anonymous_vma (entry task name addr size flags : Z) : M kernel Z :=
  add_executable_vma entry task name addr size flags NULL 0.

(** ** split.c *)

Definition split_vma (entry task lhs addr : Z) : M kernel Z :=
  l ← vma_get lhs;
  let size := u64 (vm_end l - addr) in
  if vm_base l =? addr then mret lhs
  else if vm_end l =? addr then mret NULL
  else
    vma_upd lhs (set_vm_end addr);;
    add_vma entry task (vm_name l) addr size (vm_flags l).

Definition split_vmas (entry task vma base size : Z) : M kernel Z :=
  let rhs_addr := u64 (base + size) in
  mid ← split_vma entry task vma base;
  if mid =? NULL then mret NULL
  else split_vma entry task mid rhs_addr;; mret mid.

(** ** walk.c *)

(** [get_vma]: the callback, [udata] included. *)
Abbreviation vma_callback := (Z → Z → Z → Z → M kernel Z).

Fixpoint walk_vmas (fuel : nat) (task base size end_ vma next : Z) (get_vma : vma_callback) : M kernel Z :=
  match fuel with
  | O => halt NoFuel
  | S fuel =>
      if vma =? NULL then mret 0
      else
        v ← vma_get vma;
        if negb (vm_base v <? end_) then mret 0
        else
          ret ← get_vma task base size vma;
          if ret <? 0 then mret ret
          else if next =? NULL then mret 0
          else
            next' ← on_list (list_next (task + off_task_mmap) next);
            walk_vmas fuel task base size end_ (container_of next off_vm_mmap) next' get_vma
  end.

Definition walk_vma_range (task base size : Z) (get_vma : vma_callback) : M kernel Z :=
  let end_ := u64 (base + size) in
  '(vma, _, _) ← find_vma (task + off_task_rb) base;
  if vma =? NULL then mret (-1)
  else
    v ← vma_get vma;
    if end_ <=? vm_base v then mret (-1)
    else
      next ← on_list (list_next (task + off_task_mmap) (vma + off_vm_mmap));
      fuel ← gets (λ k, S (base.size (heap (km k))));
      walk_vmas fuel task base size end_ vma next get_vma.

(** ** remove.c: ranges *)

Definition do_remove_vma (entry : Z) : vma_callback := λ task base size vma,
  let base_aligned := ROUNDDOWN base PAGE_SIZE in
  let size_aligned := ROUNDUP size PAGE_SIZE in
  let end_aligned := u64 (base_aligned + size_aligned) in
  v ← vma_get vma;
  assert (vm_base v <=? base_aligned);;
  assert (end_aligned <=? vm_end v);;
  vma_to_remove ← split_vmas entry task vma base_aligned size_aligned;
  if vma_to_remove =? NULL then mret (-1)
  else
    t ← task_get task;
    unmap_page_range (task_pml4 t) base_aligned size_aligned;;
    remove_vma task vma_to_remove;;
    mret 0.

Definition remove_vma_range (entry task base size : Z) : M kernel Z :=
  walk_vma_range task base size (do_remove_vma entry).

(** [entry] is the variable of that name, uninitialised before the loop. *)
Fixpoint unmap_loop (fuel : nat) (task base total_size entry : Z) : M kernel Z :=
  match fuel with
  | O => halt NoFuel
  | S fuel =>
      if negb (base <? total_size) then mret 0
      else
        t ← task_get task;
        '(page, e) ← page_lookup (task_pml4 t) base (Some entry);
        let entry := default entry e in
        if page =? NULL then mret (-1)
        else
          pte ← on_km (read_word entry);
          (if negb (has pte PAGE_DIRTY) then unmap_page_range (task_pml4 t) base PAGE_SIZE else mret tt);;
          unmap_loop fuel task (u64 (base + PAGE_SIZE)) total_size entry
  end.

(** The loop makes a round for each page up to [total_size]. *)
Definition do_unmap_vma (entry : Z) : vma_callback := λ task base size vma,
  let total_size := u64 (base + size) in
  unmap_loop (Z.to_nat (size / PAGE_SIZE + 2)) task base total_size entry.

Definition unmap_vma_range (entry task base size : Z) : M kernel Z :=
  walk_vma_range task base size (do_unmap_vma entry).

(** ** protect.c *)

Definition do_protect_vma (entry flags : Z) : vma_callback := λ task base size vma,
  v ← vma_get vma;
  if vm_flags v =? flags then mret 0
  else
    s_vma ← split_vma entry task vma base;
    if s_vma =? NULL then mret (-1)
    else
      vma_upd s_vma (set_vm_flags flags);;
      let page_flags := convert_flags_from_vma_to_pages flags in
      t ← task_get task;
      protect_region (task_pml4 t) base size page_flags;;
      merge_vmas task s_vma;;
      mret 0.

Definition protect_vma_range (entry task base size flags : Z) : M kernel Z :=
  walk_vma_range task base size (do_protect_vma entry flags).

(** ** populate.c *)

Definition check_vma_permissions (v : vma) (vma_flags : Z) : Z :=
  if (Z.land (vm_flags v) VM_READ <? Z.land vma_flags VM_READ) ||
     (Z.land (vm_flags v) VM_WRITE <? Z.land vma_flags VM_WRITE) ||
     (Z.land (vm_flags v) VM_EXEC <? Z.land vma_flags VM_EXEC) then -1 else 0.

(** Accesses to virtual addresses, byte by byte: the processor translates
    them with the page table in [cr3]; a page that is not mapped, or not
    writable on a store, faults. *)
Definition phys_byte (write : bool) (k : kernel) (va : Z) : option (Z * Z) :=
  e ← translate (phys (km k)) (PAGE_INDEX (cr3 k)) (PAGE_INDEX va);
  if write && negb (has e PAGE_WRITE) then None else Some (frame_of e, va `mod` PAGE_SIZE).

Definition load_byte (va : Z) : M kernel Z :=
  '(f, off) ← deref (λ k, phys_byte false k va);
  gets (λ k, Z.shiftr (entry (phys (km k)) f (off / 8)) (8 * (off `mod` 8)) `mod` 256).

Definition store_byte (va v : Z) : M kernel unit :=
  '(f, off) ← deref (λ k, phys_byte true k va);
  modify (λ k,
    let w := entry (phys (km k)) f (off / 8) in
    let sh := 8 * (off `mod` 8) in
    let w' := w + (u8 v - Z.shiftr w sh `mod` 256) * 2 ^ sh in
    set_km (set_phys (set_entry f (off / 8) w' (phys (km k))) (km k)) k).

Fixpoint fill_bytes (n : nat) (va v : Z) : M kernel unit :=
  match n with
  | O => mret tt
  | S n => store_byte va v;; fill_bytes n (va + 1) v
  end.
Fixpoint copy_bytes (n : nat) (dst src : Z) : M kernel unit :=
  match n with
  | O => mret tt
  | S n => b ← load_byte src; store_byte dst b;; copy_bytes n (dst + 1) (src + 1)
  end.

(** [offset] and [src] are computed before the test of [vm_src]. *)
Definition do_populate_vma (vma_flags : Z) : vma_callback := λ task base size vma,
  v ← vma_get vma;
  if check_vma_permissions v vma_flags <? 0 then mret (-1)
  else
    let end_ := u64 (base + size) in
    let p_base := if vm_base v <? base then base else vm_base v in
    let p_end := if end_ <? vm_end v then end_ else vm_end v in
    let p_size := u64 (p_end - p_base) in
    let offset := u64 (p_base - vm_base v) in
    let src := u64 (vm_src v + offset) in
    let len := if u64 (vm_len v - offset) <? PAGE_SIZE then u64 (vm_len v - offset) else PAGE_SIZE in
    t ← task_get task;
    (if negb (vm_src v =? NULL) then
       assert (negb (vm_len v =? 0));;
       populate_region file_populate (task_pml4 t) p_base p_size (Z.lor (Z.lor PAGE_PRESENT PAGE_WRITE) PAGE_USER);;
       fill_bytes (Z.to_nat p_size) p_base 0;;
       copy_bytes (Z.to_nat len) p_base src;;
       protect_region (task_pml4 t) p_base p_size
         (Z.lor (convert_flags_from_vma_to_pages (vm_flags v)) PAGE_USER)
     else
       populate_region file_populate (task_pml4 t) p_base p_size
         (Z.lor (convert_flags_from_vma_to_pages (vm_flags v)) PAGE_USER));;
    mret 0.

Definition populate_vma_range (task base size flags : Z) : M kernel Z :=
  walk_vma_range task base size (do_populate_vma flags).

(** ** pfault.c *)

(** [memcpy(page2kva(new_page), page2kva(page), PAGE_SIZE)]: the direct map
    is always mapped. *)
Definition copy_frame (dst src : Z) : M kernel unit :=
  modify (λ k,
    let ph := phys (km k) in
    let s := PAGE_INDEX (src - KERNEL_VMA) in
    let d := PAGE_INDEX (dst - KERNEL_VMA) in
    set_km (set_phys (match ph !! s with Some w => <[d := w]> ph | None => delete d ph end) (km k)) k).

Definition copy_on_write (task va page entry vma : Z) : M kernel Z :=
  p ← on_km (page_get page);
  if pp_ref p =? 1 then
    e ← on_km (read_word entry);
    on_km (write_word entry (Z.lor e PAGE_WRITE));;
    mret 0
  else
    new_page ← on_km (page_alloc ALLOC_ZERO);
    if new_page =? NULL then mret (-1)
    else
      d ← on_km (page2kva new_page);
      s ← on_km (page2kva page);
      copy_frame d s;;
      t ← task_get task;
      v ← vma_get vma;
      page_insert file_insert (task_pml4 t) new_page (ROUNDDOWN va PAGE_SIZE)
        (Z.lor (convert_flags_from_vma_to_pages (vm_flags v)) PAGE_USER).

Definition task_page_fault_handler (task va flags : Z) : M kernel Z :=
  entry ← kmalloc 8;
  vma ← task_find_vma task va;
  if vma =? NULL then mret (-1)
  else
    t ← task_get task;
    '(page, e) ← page_lookup (task_pml4 t) (ROUNDDOWN va PAGE_SIZE) (Some entry);
    let entry := default entry e in
    (if negb (page =? NULL) then
       lock_swap file_pfault 55;;
       on_km (add_swap_page page);;
       on_km (mru_swap_page page);;
       unlock_swap
     else mret tt);;
    v ← vma_get vma;
    cow ← (if negb (page =? NULL) then
             pte ← on_km (read_word entry);
             mret (negb (pte =? 0) && has (vm_flags v) VM_WRITE && negb (has pte PAGE_WRITE))
           else mret false);
    if (cow : bool) then copy_on_write task va page entry vma
    else populate_vma_range task (ROUNDDOWN va PAGE_SIZE) PAGE_SIZE flags.

(** ** syscall.c *)

Definition PROT_READ : Z := 1.
Definition PROT_WRITE : Z := 2.
Definition PROT_EXEC : Z := 4.
Definition MAP_PRIVATE : Z := 1.
Definition MAP_ANONYMOUS : Z := 2.
Definition MAP_POPULATE : Z := 16.
Definition MAP_FIXED : Z := 32.
Definition MAP_FAILED : Z := 2 ^ 64 - 1.
Definition MADV_WILLNEED : Z := 1.
Definition MADV_DONTNEED : Z := 2.

Definition check_permissions (addr len prot flags : Z) : Z :=
  if (addr =? NULL) && has flags MAP_FIXED then -1
  else if USER_LIM <? u64 (addr + len) then -1
  else if prot =? 0 then 0
  else if (has prot PROT_WRITE || has prot PROT_EXEC) && negb (has prot PROT_READ) then -1
  else 0.

(** [~x] of an [int]. *)
Definition not32 (x : Z) : Z := - x - 1.

Definition sys_mmap (entry addr len prot flags : Z) : M kernel Z :=
  if check_permissions addr len prot flags <? 0 then mret MAP_FAILED
  else if negb (Z.land flags (not32 (Z.lor (Z.lor (Z.lor MAP_ANONYMOUS MAP_PRIVATE) MAP_FIXED) MAP_POPULATE)) =? 0)
  then mret MAP_FAILED
  else
    cur ← cur_task;
    ret ← (if has flags MAP_FIXED then
             vma ← task_find_vma cur addr;
             if negb (vma =? NULL) then
               v ← vma_get vma;
               remove_vma_range entry cur (vm_base v) (u64 (vm_end v - vm_base v))
             else mret 0
           else mret 0);
    if ret <? 0 then mret MAP_FAILED
    else
      vma ← add_vma entry cur str_user addr len prot;
      if vma =? NULL then mret MAP_FAILED
      else
        v ← vma_get vma;
        ret ← (if has flags MAP_POPULATE then
                 populate_vma_range cur (vm_base v) (u64 (vm_end v - vm_base v)) flags
               else mret 0);
        if ret <? 0 then mret MAP_FAILED
        else
          merge_vmas cur vma;;
          if negb (addr =? NULL) then mret addr
          else v ← vma_get vma; mret (vm_base v).

Definition sys_munmap (entry addr len : Z) : M kernel unit :=
  cur ← cur_task; remove_vma_range entry cur addr len;; mret tt.

Definition sys_mprotect (entry addr len prot : Z) : M kernel Z :=
  if check_permissions addr len prot 0 <? 0 then mret (-1)
  else
    cur ← cur_task;
    ret ← protect_vma_range entry cur addr len prot;
    if ret <? 0 then mret (-1)
    else
      t ← task_get cur;
      protect_region (task_pml4 t) addr len (Z.lor (convert_flags_from_vma_to_pages prot) PAGE_USER);;
      mret 0.

Definition sys_madvise (entry addr len advise : Z) : M kernel Z :=
  if check_permissions addr len 0 0 <? 0 then mret (-1)
  else
    cur ← cur_task;
    (if advise =? MADV_DONTNEED then unmap_vma_range entry cur addr len;; mret tt else mret tt);;
    if advise =? MADV_WILLNEED then
      vma ← task_find_vma cur addr;
      if vma =? NULL then mret (-1)
      else
        t ← task_get cur;
        v ← vma_get vma;
        populate_region file_populate (task_pml4 t) addr len
          (Z.lor (convert_flags_from_vma_to_pages (vm_flags v)) PAGE_USER);;
        mret 0
    else mret 0.
End vmas.

(** ** kernel/dev/rmap.c *)

Fixpoint rmap_vmas {U} (nodes : list Z) (w : page_walker U) : M (kernel * U) unit :=
  match nodes with
  | [] => mret tt
  | n :: nodes =>
      let vma := container_of n off_rmap_node in
      kcall (assert (negb (vma =? NULL)));;
      v ← kcall (vma_get vma);
      kcall (assert (negb (vm_task v =? NULL)));;
      t ← kcall (task_get (vm_task v));
      walk_page_range (task_pml4 t) (vm_base v) (vm_end v) w;;
      rmap_vmas nodes w
  end.

(** The walk does not change the list it follows. *)
Definition rmap_walk {U} `{VmaNames} (page : Z) (w : page_walker U) : M (kernel * U) unit :=
  p ← mcall (page_get page);
  let r := rmap p in
  kcall (assert (negb (r =? NULL)));;
  me ← kcall (gets (λ k, this_cpu (km k)));
  kcall (rmap_lock r (spin_lock me file_rmap 36));;
  empty ← kcall (on_list (list_is_empty r));
  kcall (assert (negb empty));;
  nodes ← kcall (on_list (list_foreach r));
  rmap_vmas nodes w;;
  kcall (rmap_lock r (spin_unlock me)).
