(* ===== verification/VmaProofs.v ===== *)
(** * Correctness of the VMA lookups and insertions

    [vma_tree k task t vs] says that the task keeps exactly the areas [vs], in
    address order: the red-black tree [t] and the list hold the same sequence
    of VMAs, and the areas are non-empty and pairwise disjoint.  [find_vma] and
    [task_find_vma] answer as a linear search through [vs]; [insert_vma] puts
    an area at its place in both structures and refuses one that overlaps. *)

From Stdlib Require Import Sorted.
From S2P Require Import Prelude LinkedList Paging Spinlock Buddy RbTree RbTreeProofs Kernel AddrSpace PageTable Slab Vma.

Local Open Scope Z_scope.

(** ** The invariant *)

Abbreviation area := (Z * vma)%type.

Definition rb_of (a : area) : Z := a.1 + off_vm_rb.
Definition mmap_of (a : area) : Z := a.1 + off_vm_mmap.

(** [a] ends before [b] starts. *)
Definition precedes (a b : area) : Prop := vm_end a.2 ≤ vm_base b.2.

(** The VMA [a] is in the store, at a non-null address, and not empty. *)
Definition area_ok (k : kernel) (a : area) : Prop :=
  kvmas k !! a.1 = Some a.2 ∧ a.1 ≠ NULL ∧ vm_base a.2 < vm_end a.2.

Record vma_tree (k : kernel) (task : Z) (t : tree) (vs : list area) : Prop := {
  vt_tree : rb_tree_at (krb k) (task + off_task_rb) t;
  vt_elems : elems t = rb_of <$> vs;
  vt_list : dlist (heap (km k)) (task + off_task_mmap) (mmap_of <$> vs);
  vt_areas : Forall (area_ok k) vs;
  vt_sorted : StronglySorted precedes vs;
}.

(** Sorted sequences around an element. *)
Lemma sorted_middle vl a vr : StronglySorted precedes (vl ++ a :: vr) →
  StronglySorted precedes vl ∧ StronglySorted precedes vr ∧
  Forall (λ b, precedes b a) vl ∧ Forall (precedes a) vr.
Proof.
  intros Hs. induction vl as [|b vl IH]; simpl in *.
  - apply StronglySorted_inv in Hs as [? ?]. repeat split; auto using SSorted_nil.
  - apply StronglySorted_inv in Hs as [Hs Hb]. destruct (IH Hs) as (? & ? & ? & ?).
    apply Forall_app in Hb as [? [? ?]%Forall_cons]. repeat split; auto using SSorted_cons, Forall_cons_2.
Qed.

Lemma sorted_insert vl a vr : StronglySorted precedes (vl ++ vr) →
  Forall (λ b, precedes b a) vl → Forall (precedes a) vr → StronglySorted precedes (vl ++ a :: vr).
Proof.
  induction vl as [|b vl IH]; simpl; intros Hs Hl Hr; [by constructor|].
  apply StronglySorted_inv in Hs as [Hs Hb]. apply Forall_cons in Hl as [Hba Hl].
  constructor; [by apply IH|]. apply Forall_app in Hb as [? ?]. apply Forall_app. split; [done|]. by constructor.
Qed.

(** A sequence of a tree's elements splits where the tree does. *)
Lemma fmap_middle {A B} (f : A → B) l xs y ys : f <$> l = xs ++ y :: ys →
  ∃ l1 a l2, l = l1 ++ a :: l2 ∧ f <$> l1 = xs ∧ f a = y ∧ f <$> l2 = ys.
Proof.
  intros (l1 & l2' & -> & E & ->)%fmap_app_inv.
  destruct l2' as [|a l2]; simpl in E; [done|]. injection E as -> ->. eauto 10.
Qed.

Lemma find_none_all (f : area → bool) l : Forall (λ a, f a = false) l → List.find f l = None.
Proof. induction 1 as [|a l Ha _ IH]; simpl; [done|]. by rewrite Ha. Qed.

Lemma find_app_list (f : area → bool) l l' : List.find f (l ++ l') =
  match List.find f l with Some a => Some a | None => List.find f l' end.
Proof. induction l as [|a l IH]; simpl; [done|]. by destruct (f a). Qed.

Section lookup.
Implicit Types (k : kernel) (vs : list area).

Lemma wp_vma_get k p v (Q : vma → kernel → Prop) : kvmas k !! p = Some v → Q v k → wp (vma_get p) Q k.
Proof. intros Hp HQ. by eapply wp_deref. Qed.

(** Reading the tree leaves the state as it is. *)
Lemma wp_on_rb_read {A} k (c : M rbs A) (Q : A → kernel → Prop) :
  wp c (λ a s, s = krb k ∧ Q a k) (krb k) → wp (on_rb c) Q k.
Proof.
  intros Hc. apply wp_zoom. eapply wp_mono; [exact Hc|]. intros a s [-> HQ].
  by replace (set_krb (krb k) k) with k by (by destruct k).
Qed.

(** The area a search for [addr] answers: the first that ends after it. *)
Definition above (addr : Z) (vs : list area) : option area := List.find (λ a, addr <? vm_end a.2) vs.

Lemma find_loop_spec k addr t : ∀ fuel p vs acc par dir,
  rep (nodes (krb k)) p t → NULL ∉ elems t → elems t = rb_of <$> vs → Forall (area_ok k) vs →
  StronglySorted precedes vs → (length (elems t) < fuel)%nat →
  wp (find_loop fuel addr (root_of t) acc par dir)
    (λ r k', r.1.1 = default acc (fst <$> above addr vs) ∧ k' = k) k.
Proof.
  induction t as [|c l IHl x r IHr]; intros fuel p vs acc par dir Hrep Hnn Hel Hok Hs Hf;
    (destruct fuel as [|fuel]; [lia|]); cbn [find_loop root_of].
  { destruct vs; [|done]. rewrite Z.eqb_refl; by wp_step. }
  simpl in Hnn, Hel, Hf. rewrite length_app in Hf. simpl in Hf. destruct Hrep as (Hx & Hl & Hr).
  assert (x ≠ NULL) as Hxn by set_solver. rewrite (proj2 (Z.eqb_neq _ _) Hxn).
  symmetry in Hel. apply fmap_middle in Hel as (vl & [q v] & vr & -> & Evl & Ev & Evr).
  apply sorted_middle in Hs as (Hsl & Hsr & Hbl & Hbr).
  pose proof Hok as [Hokl [Hokv Hokr]%Forall_cons]%Forall_app. destruct Hokv as (Hv & Hqn & Hbe). simpl in *.
  assert (container_of x off_vm_rb = q) as -> by (unfold container_of, rb_of in *; simpl in Ev; lia).
  assert (vm_base v ≤ addr → Forall (λ a, (addr <? vm_end a.2) = false) vl) as Hlo.
  { intros Ha. eapply Forall_impl; [exact Hbl|]. intros [q' v']. unfold precedes. simpl.
    rewrite Z.ltb_ge. lia. }
  wp_step. eapply wp_vma_get; [done|].
  unfold above. rewrite find_app_list. cbn [List.find fst snd].
  wp_if E.
  { apply andb_true_iff in E as [E1%negb_true_iff%Z.leb_gt E2%Z.leb_le]. wp_step. split; [|done].
    rewrite (find_none_all _ vl) by auto. rewrite (proj2 (Z.ltb_lt _ _) E1). done. }
  wp_step. apply wp_on_rb_read. eapply wp_rb_get; [done|]. split; [done|]. cbn [child left right].
  destruct (vm_end v <=? addr) eqn:Ed; cbn [negb andb child right left] in *.
  - apply Z.leb_le in Ed. eapply wp_mono; [apply (IHr fuel x vr); try done; [set_solver|lia]|].
    intros [[r1 r2] r3] k' [-> ->]. split; [|done]. rewrite (find_none_all _ vl) by (apply Hlo; lia).
    destruct (addr <? vm_end v) eqn:Ea; [apply Z.ltb_lt in Ea; lia|]. done.
  - apply Z.leb_gt in Ed, E. eapply wp_mono; [apply (IHl fuel x vl); try done; [set_solver|lia]|].
    intros [[r1 r2] r3] k' [-> ->]. split; [|done]. rewrite (proj2 (Z.ltb_lt _ _) Ed).
    unfold above. by destruct (List.find _ vl).
Qed.

Lemma find_vma_spec k task t vs addr : vma_tree k task t vs →
  wp (find_vma (task + off_task_rb) addr)
    (λ r k', r.1.1 = default NULL (fst <$> above addr vs) ∧ k' = k) k.
Proof.
  intros [Ht Hel _ Hok Hs]. unfold find_vma.
  wp_step. apply wp_on_rb_read. eapply wp_deref; [apply Ht|]. split; [done|].
  wp_step. wp_step. pose proof (at_size _ _ _ Ht) as Hsz.
  apply (find_loop_spec k addr t _ NULL vs); try done; [apply Ht..|lia].
Qed.

(** The first area that ends after [addr] is the one that contains it, if any
    does. *)
Definition contains (addr : Z) (a : area) : bool := (vm_base a.2 <=? addr) && (addr <? vm_end a.2).

Lemma above_area k addr vs a : Forall (area_ok k) vs → above addr vs = Some a → area_ok k a.
Proof. intros Hok [Ha _]%find_some. rewrite Forall_forall in Hok. apply Hok. by apply list_elem_of_In. Qed.

Lemma above_contains addr vs : StronglySorted precedes vs → Forall (λ a, vm_base a.2 < vm_end a.2) vs →
  List.find (contains addr) vs = a ← above addr vs; if addr <? vm_base a.2 then None else Some a.
Proof.
  unfold above. induction 1 as [|a vs Hs IH Ha]; [done|]. intros [Hne Hnes]%Forall_cons. simpl.
  unfold contains at 1. destruct (addr <? vm_end a.2) eqn:E; simpl; [|by rewrite andb_false_r; auto].
  rewrite andb_true_r. destruct (addr <? vm_base a.2) eqn:E2.
  - apply Z.ltb_lt in E2. rewrite (proj2 (Z.leb_gt _ _)) by lia. apply find_none_all.
    eapply Forall_impl; [exact Ha|]. unfold precedes, contains. intros b Hb.
    rewrite (proj2 (Z.leb_gt _ _)) by lia. done.
  - apply Z.ltb_ge in E2. by rewrite (proj2 (Z.leb_le _ _)).
Qed.

Lemma task_find_vma_spec k task t vs addr : vma_tree k task t vs →
  wp (task_find_vma task addr)
    (λ r k', r = default NULL (fst <$> List.find (contains addr) vs) ∧ k' = k) k.
Proof.
  intros Hvt. pose proof Hvt as [_ _ _ Hok Hs]. unfold task_find_vma.
  wp_step. eapply wp_mono; [by apply (find_vma_spec k task t vs)|]. intros [[r r2] r3] k' [E ->]. simpl in E.
  rewrite above_contains; [|done|eapply Forall_impl; [exact Hok|]; by intros a (_ & _ & ?)].
  destruct (above addr vs) as [[q v]|] eqn:Ea; simpl in E |- *; subst r; [|rewrite Z.eqb_refl; by wp_step].
  destruct (above_area k _ _ _ Hok Ea) as (Hv & Hq & _). simpl in *.
  rewrite (proj2 (Z.eqb_neq _ _) Hq). wp_step. eapply wp_vma_get; [done|].
  destruct (addr <? vm_base v); by wp_step.
Qed.
End lookup.

(** ** [insert_vma] *)

Section insertion.
Context `{Layout} `{VmaNames}.
Implicit Types (k : kernel) (z : zip).

Definition overlaps (b e : Z) (a : area) : bool := (b <? vm_end a.2) && (vm_base a.2 <? e).

(** The VMA at the node [x] lies left, or right, of [b, e). *)
Definition left_of (k : kernel) (b x : Z) : Prop :=
  ∀ v, kvmas k !! container_of x off_vm_rb = Some v → vm_end v ≤ b.
Definition right_of (k : kernel) (e x : Z) : Prop :=
  ∀ v, kvmas k !! container_of x off_vm_rb = Some v → e ≤ vm_base v.

(** What the loop has found: the hole [z] of the tree at which [b, e) belongs. *)
Record hole (k : kernel) (b e : Z) (T : tree) (z : zip) (r : Z * Z * bool) : Prop := {
  hole_tree : plug z Leaf = T;
  hole_parent : r.1.1 = up z;
  hole_vma f z' : z = f :: z' → r.1.2 = container_of (sa f) off_vm_rb ∧ r.2 = sd f;
  hole_left : Forall (left_of k b) (beyond RB_LEFT z);
  hole_right : Forall (right_of k e) (beyond RB_RIGHT z);
}.

Lemma container_rb (a : area) : container_of (rb_of a) off_vm_rb = a.1.
Proof. unfold container_of, rb_of. lia. Qed.

Lemma areas_side k (P : area → Prop) (R : Z → Prop) vs : Forall (area_ok k) vs → Forall P vs →
  (∀ a, area_ok k a → P a → R (rb_of a)) → Forall R (rb_of <$> vs).
Proof.
  intros Hok HP HR. apply Forall_fmap. rewrite Forall_forall in *. intros a Ha. apply HR; auto.
Qed.

Lemma insert_loop_spec k b e t : b < e → ∀ fuel z vs vt dir,
  rep (nodes (krb k)) (up z) t → NULL ∉ elems t → elems t = rb_of <$> vs → Forall (area_ok k) vs →
  StronglySorted precedes vs → (length (elems t) < fuel)%nat →
  (∀ f z', z = f :: z' → vt = container_of (sa f) off_vm_rb ∧ dir = sd f) →
  Forall (left_of k b) (beyond RB_LEFT z) → Forall (right_of k e) (beyond RB_RIGHT z) →
  wp (insert_loop fuel b e (root_of t) (up z) vt dir)
    (λ r k', k' = k ∧
      match r with
      | None => Exists (λ a, overlaps b e a = true) vs
      | Some r => Forall (λ a, overlaps b e a = false) vs ∧ ∃ z', hole k b e (plug z t) z' r
      end) k.
Proof.
  intros Hbe. induction t as [|c l IHl x r IHr]; intros fuel z vs vt dir Hrep Hnn Hel Hok Hs Hf Hz Hzl Hzr;
    (destruct fuel as [|fuel]; [lia|]); cbn [insert_loop root_of].
  { rewrite Z.eqb_refl. destruct vs; [|done]. wp_step. split; [done|]. split; [constructor|]. by exists z. }
  simpl in Hnn, Hel, Hf. rewrite length_app in Hf. simpl in Hf. destruct Hrep as (Hx & Hl & Hr).
  assert (x ≠ NULL) as Hxn by set_solver. rewrite (proj2 (Z.eqb_neq _ _) Hxn).
  symmetry in Hel. apply fmap_middle in Hel as (vl & [q v] & vr & -> & Evl & Ev & Evr).
  apply sorted_middle in Hs as (Hsl & Hsr & Hbl & Hbr).
  pose proof Hok as [Hokl [Hokv Hokr]%Forall_cons]%Forall_app. pose proof Hokv as (Hv & Hqn & Hne).
  pose proof (container_rb (q, v)) as Eq. rewrite Ev in Eq. simpl in *. rewrite Eq.
  wp_step. eapply wp_vma_get; [done|]. wp_if E.
  { apply andb_true_iff in E as [E1%negb_true_iff%Z.leb_gt E2%Z.ltb_lt]. wp_step. split; [done|].
    apply Exists_app. right. left. unfold overlaps; simpl. rewrite !(proj2 (Z.ltb_lt _ _)) by lia. done. }
  wp_step. apply wp_on_rb_read. eapply wp_rb_get; [done|]. split; [done|].
  destruct (vm_end v <=? b) eqn:Ed; cbn [negb andb child right left] in *.
  - apply Z.leb_le in Ed. assert (Forall (λ a, vm_end a.2 ≤ b) (vl ++ [(q, v)])) as Hleft.
    { apply Forall_app. split; [|by repeat constructor]. eapply Forall_impl; [exact Hbl|].
      unfold precedes. simpl. intros a Ha. lia. }
    eapply wp_mono; [apply (IHr fuel (Step true c x l :: z) vr q true); try done; [set_solver|lia| |]|].
    + by intros f z' [= <- <-].
    + simpl. rewrite <-Evl. apply Forall_app in Hleft as [Hll _]. constructor; [by intros w; rewrite Eq, Hv; intros [= <-]|].
      apply Forall_app. split; [|done]. apply Forall_reverse. eapply areas_side; [done|exact Hll|].
      intros a (Ha & _) Hend w. rewrite container_rb, Ha. by intros [= <-].
    + intros ro k' [-> Hro]. split; [done|]. destruct ro as [ro|]; [|by apply Exists_app; right; right].
      destruct Hro as [Hno Hhole]. split; [|exact Hhole].
      replace (vl ++ (q, v) :: vr) with ((vl ++ [(q, v)]) ++ vr) by (by rewrite <-app_assoc).
      apply Forall_app. split; [|done]. eapply Forall_impl; [exact Hleft|]. unfold overlaps. intros a Ha.
      simpl in Ha. rewrite (proj2 (Z.ltb_ge _ _)) by lia. done.
  - apply Z.ltb_ge in E. assert (Forall (λ a, e ≤ vm_base a.2) ((q, v) :: vr)) as Hright.
    { constructor; [done|]. rewrite Forall_forall in Hbr, Hokr |- *. intros a Ha.
      specialize (Hbr a Ha). unfold precedes in Hbr. simpl in Hbr. lia. }
    eapply wp_mono; [apply (IHl fuel (Step false c x r :: z) vl q false); try done; [set_solver|lia| |]|].
    + by intros f z' [= <- <-].
    + simpl. rewrite <-Evr. apply Forall_cons in Hright as [_ Hrr]. constructor; [by intros w; rewrite Eq, Hv; intros [= <-]|].
      apply Forall_app. split; [|done]. eapply areas_side; [done|exact Hrr|].
      intros a (Ha & _) Hend w. rewrite container_rb, Ha. by intros [= <-].
    + intros ro k' [-> Hro]. split; [done|]. destruct ro as [ro|]; [|by apply Exists_app; left].
      destruct Hro as [Hno Hhole]. split; [|exact Hhole]. apply Forall_app. split; [done|].
      eapply Forall_impl; [exact Hright|]. unfold overlaps. intros a Ha.
      simpl in Ha. rewrite (proj2 (Z.ltb_ge (vm_base a.2) e)) by lia. apply andb_false_r.
Qed.

(** The tree of the new leaf: what [insert_vma] does before balancing. *)
Definition link_leaf (tree_ parent x : Z) (dir : bool) : M kernel unit :=
  if parent =? NULL then on_rb (set_root tree_ x)
  else on_rb (rb_upd parent (with_child dir x));; on_rb (rb_upd x (with_parent parent)).

Lemma link_leaf_spec k tree_ z x dir : rb_tree_at (krb k) tree_ (plug z Leaf) →
  nodes (krb k) !! x = Some zero_node → x ∉ elems (plug z Leaf) → x ≠ NULL → (∀ f z', z = f :: z' → dir = sd f) →
  wp (link_leaf tree_ (up z) x dir) (λ _ k', ∃ s', k' = set_krb s' k ∧
    rb_tree_at s' tree_ (plug z (Br RB_BLACK Leaf x Leaf)) ∧ rb_frame (x :: elems (plug z Leaf)) tree_ (krb k) s') k.
Proof.
  intros [Hrt Hrep Hnd Hnn] Hx HxN Hxn Hdir. unfold link_leaf.
  assert (elems (plug z (Br RB_BLACK Leaf x Leaf)) ≡ₚ x :: elems (plug z Leaf)) as HP by (by rewrite !elems_plug).
  assert (NoDup (elems (plug z (Br RB_BLACK Leaf x Leaf))) ∧ NULL ∉ elems (plug z (Br RB_BLACK Leaf x Leaf))) as [Hnd' Hnn'].
  { rewrite HP. split; [by apply NoDup_cons|set_solver]. }
  destruct z as [|f z].
  { cbn [up]. rewrite Z.eqb_refl. apply wp_zoom. eapply wp_set_root; [done|]. eexists. split; [done|]. split.
    - split; [simpl; apply lookup_insert_eq|by repeat split|done|done].
    - split; [done|done|]. intros b Hb. simpl. by apply lookup_insert_ne. }
  pose proof (proj1 (rep_plug _ _ (f :: z) Leaf) (conj Hrep eq_refl)) as [(Hf & Hs & Hz) _].
  assert (elems (plug (f :: z) Leaf) ≡ₚ sa f :: elems (RbTreeProofs.ss f) ++ zelems z) as HPf.
  { rewrite elems_plug. simpl. by rewrite app_comm_cons. }
  rewrite HPf in HxN, Hnn, Hnd. apply NoDup_cons in Hnd as [HfN (HndS & HdS & HndZ)%NoDup_app].
  assert (sa f ≠ NULL ∧ sa f ≠ x) as [Hfn Hfx] by set_solver. cbn [up].
  rewrite (proj2 (Z.eqb_neq _ _) Hfn), (Hdir f z eq_refl).
  wp_step. apply wp_zoom. apply wp_rb_upd; [by eapply elem_of_dom_2|].
  apply wp_zoom. apply wp_rb_upd; [simpl; rewrite dom_alter_L; by eapply elem_of_dom_2|].
  eexists. split; [done|]. simpl.
  set (h := alter (with_parent (sa f)) x (alter (with_child (sd f) x) (sa f) (nodes (krb k)))).
  assert (∀ a, a ≠ x → a ≠ sa f → h !! a = nodes (krb k) !! a) as Eo.
  { intros a ??. unfold h. by rewrite !lookup_alter_ne by done. }
  destruct (proj2 (rep_plug h (root_of (plug (f :: z) Leaf)) (f :: z) (Br RB_BLACK Leaf x Leaf))) as [Hrep' Hrt'].
  { split; [apply rep_zip_cons; split; [|split]|].
    - unfold h. rewrite lookup_alter_ne, lookup_alter_eq, Hf by done. simpl.
      by rewrite with_child_node, bool_decide_eq_true_2.
    - apply (rep_ext (nodes (krb k))); [|done]. intros a Ha. apply Eo; set_solver.
    - apply (rep_zip_ext (nodes (krb k))); [|done]. intros a Ha. apply Eo; set_solver.
    - repeat split. unfold h. rewrite lookup_alter_eq, lookup_alter_ne, Hx by done. done. }
  split; [split; [simpl in *; congruence|exact Hrep'|exact Hnd'|exact Hnn']|].
  split; simpl; [|unfold h; by rewrite !dom_alter_L|done].
  intros a Ha. change (plug z _) with (plug (f :: z) Leaf) in Ha. rewrite elem_of_cons, HPf, elem_of_cons in Ha. apply Eo; tauto.
Qed.

(** A new VMA, in no tree and no list yet. *)
Record fresh_vma (k : kernel) (task p : Z) (v : vma) (vs : list area) : Prop := {
  fv_area : area_ok k (p, v);
  fv_rb : nodes (krb k) !! rb_of (p, v) = Some zero_node;
  fv_rb_new : rb_of (p, v) ∉ NULL :: (rb_of <$> vs);
  fv_mmap : mmap_of (p, v) ∈ dom (heap (km k));
  fv_mmap_new : mmap_of (p, v) ∉ NULL :: task + off_task_mmap :: (mmap_of <$> vs);
}.

(** Only the tree and the list of the areas [vs] of the task changed. *)
Definition only_areas (task : Z) (vs : list area) (k k' : kernel) : Prop :=
  ∃ s' h', k' = set_km (set_heap h' (km k)) (set_krb s' k) ∧
    rb_frame (rb_of <$> vs) (task + off_task_rb) (krb k) s' ∧
    frame (task + off_task_mmap :: (mmap_of <$> vs)) (heap (km k)) h'.

Lemma hole_split k b e T z r vs : hole k b e T z r → elems T = rb_of <$> vs →
  ∃ vl vr, vs = vl ++ vr ∧ reverse (beyond RB_LEFT z) = rb_of <$> vl ∧ beyond RB_RIGHT z = rb_of <$> vr.
Proof.
  intros [<- _ _ _ _] E. rewrite beyond_split in E. simpl in E.
  symmetry in E. apply fmap_app_inv in E as (vl & vr & ? & ? & ->). eauto.
Qed.

(** Linking the new VMA next to its parent of the tree puts it between the
    areas before and behind the hole. *)
Lemma list_link_spec k task b e T z par vt dir vl vr p : hole k b e T z (par, vt, dir) →
  reverse (beyond RB_LEFT z) = rb_of <$> vl → beyond RB_RIGHT z = rb_of <$> vr → Forall (area_ok k) (vl ++ vr) →
  up z = NULL ↔ z = [] →
  dlist (heap (km k)) (task + off_task_mmap) (mmap_of <$> vl ++ vr) → p + off_vm_mmap ∈ dom (heap (km k)) →
  p + off_vm_mmap ∉ NULL :: task + off_task_mmap :: (mmap_of <$> vl ++ vr) →
  wp (if par =? NULL then on_list (list_insert_after (task + off_task_mmap) (p + off_vm_mmap))
      else assert (negb (vt =? NULL));;
        if dir then on_list (list_insert_after (vt + off_vm_mmap) (p + off_vm_mmap))
        else on_list (list_insert_before (vt + off_vm_mmap) (p + off_vm_mmap)))
    (λ _ k', ∃ h', k' = set_km (set_heap h' (km k)) k ∧
      dlist h' (task + off_task_mmap) ((mmap_of <$> vl) ++ p + off_vm_mmap :: (mmap_of <$> vr)) ∧
      frame (p + off_vm_mmap :: task + off_task_mmap :: (mmap_of <$> vl ++ vr)) (heap (km k)) h') k.
Proof.
  intros [_ Hpar Hvt _ _] Hl Hr Hok Hup Hd Hdom Hnew. simpl in Hpar, Hvt. subst par.
  apply not_elem_of_cons in Hnew as [Hpn Hnew]. rewrite fmap_app in *.
  set (xs := mmap_of <$> vl) in *. set (ys := mmap_of <$> vr) in *. set (hd_ := task + off_task_mmap) in *.
  assert (∀ (c : M lheap unit), wp c (λ _ h', dlist h' hd_ (xs ++ p + off_vm_mmap :: ys) ∧
      frame [p + off_vm_mmap; before hd_ xs; after hd_ ys] (heap (km k)) h') (heap (km k)) →
    wp (on_list c) (λ _ k', ∃ h', k' = set_km (set_heap h' (km k)) k ∧
      dlist h' hd_ (xs ++ p + off_vm_mmap :: ys) ∧ frame (p + off_vm_mmap :: hd_ :: xs ++ ys) (heap (km k)) h') k) as Hwp.
  { intros c Hc. do 2 apply wp_zoom. eapply wp_mono; [exact Hc|]. intros _ h' [Hd' Hf]. exists h'.
    split; [done|]. split; [done|]. eapply frame_weaken; [exact Hf|].
    pose proof (before_elem hd_ xs). pose proof (after_elem hd_ ys). set_solver. }
  destruct z as [|f z]; [|assert (up (f :: z) ≠ NULL) as Hne by (rewrite Hup; done)].
  { cbn [up]. rewrite Z.eqb_refl. destruct vl; [|done]. apply Hwp.
    by apply (list_insert_after_spec (heap (km k)) hd_ [] ys). }
  rewrite (proj2 (Z.eqb_neq _ _) Hne). destruct (Hvt f z eq_refl) as [-> ->]. simpl in Hl, Hr.
  rewrite Forall_app in Hok. destruct Hok as [Hokl Hokr].
  destruct (sd f); simpl in Hl, Hr.
  - rewrite reverse_cons in Hl. symmetry in Hl. apply fmap_app_inv in Hl as (vl' & [|a []] & _ & Ea & Evl); try done.
    injection Ea as Ea. subst vl. apply Forall_app in Hokl as [_ [(_ & Hn & _) _]%Forall_cons].
    rewrite Ea, container_rb. wp_step. apply wp_assert; [by apply negb_true_iff, Z.eqb_neq|]. apply Hwp.
    replace (a.1 + off_vm_mmap) with (before hd_ xs); [by apply list_insert_after_spec|].
    unfold xs. rewrite fmap_app. apply before_snoc.
  - destruct vr as [|a vr']; [done|]. simpl in Hr. injection Hr as Ea _. apply Forall_cons in Hokr as [(_ & Hn & _) _].
    rewrite Ea, container_rb. wp_step. apply wp_assert; [by apply negb_true_iff, Z.eqb_neq|]. apply Hwp.
    change (a.1 + off_vm_mmap) with (after hd_ ys). by apply list_insert_before_spec.
Qed.

Lemma rb_frame_weaken l l' tree_ s s' : rb_frame l tree_ s s' → (∀ a, a ∈ l → a ∈ l') → rb_frame l' tree_ s s'.
Proof. intros [N D R] Hl. split; [|done|done]. intros a Ha. apply N. auto. Qed.

(** The areas around the hole, and the new one in it, are in order. *)
Lemma hole_sorted k T z r vl vr p v : hole k (vm_base v) (vm_end v) T z r →
  reverse (beyond RB_LEFT z) = rb_of <$> vl → beyond RB_RIGHT z = rb_of <$> vr →
  Forall (area_ok k) (vl ++ vr) → StronglySorted precedes (vl ++ vr) → StronglySorted precedes (vl ++ (p, v) :: vr).
Proof.
  intros [_ _ _ HL HR] El Er [Hokl Hokr]%Forall_app Hs. apply sorted_insert; [done| |].
  - apply Forall_reverse in HL. rewrite El, Forall_fmap in HL. rewrite Forall_forall in *. intros a Ha.
    specialize (HL a Ha). unfold compose, left_of in HL. rewrite container_rb in HL. apply HL. by apply (Hokl a Ha).
  - rewrite Er, Forall_fmap in HR. rewrite Forall_forall in *. intros a Ha.
    specialize (HR a Ha). unfold compose, right_of in HR. rewrite container_rb in HR. apply HR. by apply (Hokr a Ha).
Qed.

Lemma insert_vma_spec k task t n vs p v : vma_tree k task t vs → rb_ok t RB_BLACK n →
  task + off_task_rb ≠ NULL → fresh_vma k task p v vs →
  wp (insert_vma task p) (λ r k',
    if existsb (overlaps (vm_base v) (vm_end v)) vs then r = -1 ∧ k' = k
    else r = 0 ∧ ∃ T n' vl vr, vs = vl ++ vr ∧ vma_tree k' task T (vl ++ (p, v) :: vr) ∧
      rb_ok T RB_BLACK n' ∧ only_areas task (vl ++ (p, v) :: vr) k k') k.
Proof.
  intros Hvt Hrb Htask [Hpv Hzero Hnewr Hdom Hnewm]. pose proof Hvt as [Ht Hel Hli Hok Hs].
  pose proof Hpv as (Hv & Hpn & Hbe). simpl in Hv, Hpn, Hbe.
  change (p + off_vm_rb) with (rb_of (p, v)) in *. unfold insert_vma.
  wp_step. eapply wp_vma_get; [done|]. wp_step. apply wp_on_rb_read. eapply wp_deref; [apply Ht|]. split; [done|].
  wp_step. wp_step. wp_step. pose proof (at_size _ _ _ Ht) as Hsz.
  eapply wp_mono; [apply (insert_loop_spec k _ _ t Hbe _ [] vs NULL false); try done; [apply Ht|apply Ht|lia]|].
  cbv beta. intros found k0 [-> Hfound]. destruct found as [[[par vt] dir]|].
  2: { wp_step. rewrite (proj2 (existsb_exists _ _)); [done|]. apply Exists_exists in Hfound as (a & Ha & E).
       exists a. split; [by apply list_elem_of_In|done]. }
  destruct Hfound as [Hno [z Hhole]]. destruct (existsb _ vs) eqn:Ex.
  { apply existsb_exists in Ex as (a & Ha%list_elem_of_In & E). rewrite Forall_forall in Hno. by rewrite (Hno a Ha) in E. }
  pose proof Hhole as [Ez Hpar Hvt' _ _]. simpl in Ez, Hpar, Hvt'. subst par.
  destruct (hole_split _ _ _ _ _ _ _ Hhole Hel) as (vl & vr & -> & El & Er).
  rewrite <-Ez in Ht, Hrb, Hel. assert (rb_of (p, v) ∉ elems (plug z Leaf)) as HxN by (rewrite Hel; set_solver).
  wp_step. eapply wp_mono; [apply (link_leaf_spec k (task + off_task_rb) z (rb_of (p, v)) dir Ht Hzero HxN); [set_solver|]|].
  { intros f z' E. by apply (Hvt' f z'). }
  intros [] k1 (s1 & -> & Hat1 & Hf1).
  wp_step. apply wp_zoom. eapply wp_mono; [by apply (rb_balance_spec s1 _ z RB_BLACK _ n)|].
  cbv beta. intros bal s2 (-> & T & n' & HT & Hat2 & E2 & Hf2). change (0 <? 0) with false. cbv iota.
  change (set_krb s2 (set_krb s1 k)) with (set_krb s2 k).
  assert (elems T = rb_of <$> vl ++ (p, v) :: vr) as ET.
  { rewrite E2, beyond_split, El, Er. simpl. rewrite fmap_app. done. }
  wp_step. eapply wp_mono; [eapply (list_link_spec (set_krb s2 k) task _ _ _ z (up z) vt dir vl vr p); try done|].
  { destruct Hhole. split; done. }
  { split; [|by intros ->]. intros E. destruct z as [|f z]; [done|]. exfalso. apply (at_nonnull _ _ _ Ht).
    rewrite elems_plug. simpl in E |- *. rewrite E. set_solver. }
  intros [] k3 (h' & -> & Hd3 & Hf3). wp_step. split; [done|]. exists T, n', vl, vr.
  assert (rb_frame (rb_of <$> vl ++ (p, v) :: vr) (task + off_task_rb) (krb k) s2) as Hf.
  { eapply rb_frame_trans; [|eapply rb_frame_weaken; [exact Hf1|]|exact Hf2].
    - intros a. by rewrite <-E2, ET.
    - intros a. rewrite elem_of_cons, Hel, !fmap_app, fmap_cons. set_solver. }
  split; [done|]. split; [|split; [done|]].
  - split; [done|done| | |].
    + rewrite fmap_app. exact Hd3.
    + apply Forall_app in Hok as [Hokl Hokr]. apply Forall_app. split; [done|by constructor].
    + by eapply hole_sorted.
  - exists s2, h'. split; [done|]. split; [done|]. eapply frame_weaken; [exact Hf3|].
    rewrite !fmap_app, fmap_cons. change (mmap_of (p, v)) with (p + off_vm_mmap). set_solver.
Qed.
End insertion.

(** ** The properties *)

(** Two areas, [0x1000, 0x3000) and [0x5000, 0x6000), of the task at 0x7000; a
    third VMA at 0x300 is not linked yet. *)
Definition demo_area (b e : Z) : vma := Vma NULL 0x7000 NULL b e NULL 0 VM_READ.
Definition demo_areas : list area := [(0x100, demo_area 0x1000 0x3000); (0x200, demo_area 0x5000 0x6000)].
Definition demo_vma_tree : tree := Br RB_BLACK Leaf (0x100 + off_vm_rb) (Br RB_RED Leaf (0x200 + off_vm_rb) Leaf).
Definition demo_vmas (b e : Z) : kernel :=
  let head := 0x7000 + off_task_mmap in
  let x := 0x100 + off_vm_mmap in
  let y := 0x200 + off_vm_mmap in
  let z := 0x300 + off_vm_mmap in
  let lock := SpinLock 0 NULL NULL NULL 0 in
  Kernel (Mem {[head := Node x y; x := Node y head; y := Node head x; z := Node z z]} ∅ 0 0 lock ∅ 0)
    (Rbs (<[0x300 + off_vm_rb := zero_node]> (store_nodes NULL demo_vma_tree)) {[0x7000 + off_task_rb := root_of demo_vma_tree]})
    (<[0x300 := demo_area b e]> (list_to_map demo_areas)) ∅ ∅ ∅ ∅ ∅ ∅ lock 0 ∅ 0 0.

Lemma demo_vmas_tree b e : vma_tree (demo_vmas b e) 0x7000 demo_vma_tree demo_areas.
Proof.
  split.
  - concrete_tree.
  - done.
  - split; [apply (bool_decide_unpack _); by vm_compute..|]. by repeat split.
  - by repeat constructor.
  - repeat constructor. done.
Qed.

Lemma demo_vmas_fresh b e : b < e → fresh_vma (demo_vmas b e) 0x7000 0x300 (demo_area b e) demo_areas.
Proof. intros Hbe. split; [done|done|apply (bool_decide_unpack _); by vm_compute..]. Qed.

(** C20 (equivalence).  [find_vma] and [task_find_vma] agree with linear searches
    through the task's areas in address order: the former returns the first
    area that ends after the address, the latter the area that contains it,
    both NULL if there is none, and neither changes anything. *)
Theorem find_vma_correct k task t vs addr : vma_tree k task t vs →
  (∃ parent dir, find_vma (task + off_task_rb) addr k = OK (default NULL (fst <$> above addr vs), parent, dir) k) ∧
  task_find_vma task addr k = OK (default NULL (fst <$> List.find (contains addr) vs)) k.
Proof.
  intros Hvt. split.
  - destruct (wp_elim _ _ _ (find_vma_spec k task t vs addr Hvt)) as ([[r p] d] & k' & E & Er & ->).
    simpl in Er. subst r. by exists p, d.
  - apply wp_run. by apply (task_find_vma_spec k task t vs addr).
Qed.

Lemma find_vma_correct_witness :
  (∃ parent dir, find_vma (0x7000 + off_task_rb) 0x4000 (demo_vmas 0 0) = OK (0x200, parent, dir) (demo_vmas 0 0)) ∧
  task_find_vma 0x7000 0x4000 (demo_vmas 0 0) = OK NULL (demo_vmas 0 0).
Proof. exact (find_vma_correct (demo_vmas 0 0) 0x7000 demo_vma_tree demo_areas 0x4000 (demo_vmas_tree 0 0)). Defined.

(** C21 (invariant).  [insert_vma] of a fresh VMA: if the area overlaps one of
    the task, it returns -1 and changes nothing.  Otherwise it returns 0, the
    areas of the task are the old ones and the new one, still sorted and
    disjoint, in the tree as in the list, the tree is a red-black tree again,
    and nothing else changed. *)
Theorem insert_vma_correct k task t n vs p v : vma_tree k task t vs → rb_ok t RB_BLACK n →
  task + off_task_rb ≠ NULL → fresh_vma k task p v vs →
  ∃ r k', insert_vma task p k = OK r k' ∧
    if existsb (overlaps (vm_base v) (vm_end v)) vs then r = -1 ∧ k' = k
    else r = 0 ∧ ∃ T n' vl vr, vs = vl ++ vr ∧ vma_tree k' task T (vl ++ (p, v) :: vr) ∧
      rb_ok T RB_BLACK n' ∧ only_areas task (vl ++ (p, v) :: vr) k k'.
Proof. intros ????. by apply wp_elim, (insert_vma_spec k task t n). Qed.

Lemma insert_vma_correct_witness :
  (∃ k' T, insert_vma 0x7000 0x300 (demo_vmas 0x3000 0x5000) = OK 0 k' ∧
    vma_tree k' 0x7000 T [(0x100, demo_area 0x1000 0x3000); (0x300, demo_area 0x3000 0x5000); (0x200, demo_area 0x5000 0x6000)]) ∧
  insert_vma 0x7000 0x300 (demo_vmas 0x3000 0x5001) = OK (-1) (demo_vmas 0x3000 0x5001).
Proof.
  assert (rb_ok demo_vma_tree RB_BLACK 1) as Hok by repeat econstructor. split.
  - destruct (insert_vma_correct (demo_vmas 0x3000 0x5000) 0x7000 demo_vma_tree 1 demo_areas 0x300 (demo_area 0x3000 0x5000))
      as (r & k' & E & -> & T & n' & vl & vr & Ev & HT & _); [apply demo_vmas_tree|exact Hok|discriminate|by apply demo_vmas_fresh|].
    exists k', T. split; [exact E|]. clear E. pose proof (vt_sorted _ _ _ _ HT) as Hs. unfold demo_areas in Ev.
    destruct vl as [|a [|b [|c vl]]]; simpl in Ev; simplify_eq.
    + apply StronglySorted_inv in Hs as [_ [Hs _]%Forall_cons]. exfalso. by apply Hs.
    + exact HT.
    + apply StronglySorted_inv in Hs as [[_ [Hs _]%Forall_cons]%StronglySorted_inv _]. exfalso. by apply Hs.
  - destruct (insert_vma_correct (demo_vmas 0x3000 0x5001) 0x7000 demo_vma_tree 1 demo_areas 0x300 (demo_area 0x3000 0x5001))
      as (r & k' & E & -> & ->); [apply demo_vmas_tree|exact Hok|discriminate|by apply demo_vmas_fresh|]. exact E.
Defined.
