(* ===== verification/SlabProofs.v ===== *)
(** * Correctness of the slab allocator

    [slab_ok k slab s partial full] describes one allocator: [partial] lists
    its slabs with free objects, as frame numbers with their free lists, and
    [full] the frames of the slabs without.  [slab_alloc] takes a free object
    off the first partial slab, after adding a slab if there is none;
    [slab_free] puts it back and releases a slab whose objects are all free. *)

From S2P Require Import Prelude LinkedList Paging Spinlock Buddy BuddyProofs RbTree Kernel PageWalk PageTable PageTableProofs Slab.

Local Open Scope Z_scope.

(** ** Lists and the buddy allocator under changes elsewhere *)

Lemma dlist_agree h h' head xs : (∀ a, a ∈ head :: xs → h' !! a = h !! a) → dlist h head xs → dlist h' head xs.
Proof.
  intros F [Hnd Hnn Hc]. split; [done..|].
  change (head :: xs ++ [head]) with ((head :: xs) ++ [head]) in *.
  apply (chain_ext h); [| |done].
  - intros y Hy. unfold nx. by rewrite F.
  - intros y Hy. unfold pv. rewrite F; [done|]. simpl in Hy. set_solver.
Qed.

(** Moving a node to the front of another list. *)
Lemma dlist_move h hd1 xs x ys hd2 zs : dlist h hd1 (xs ++ x :: ys) → dlist h hd2 zs →
  (∀ a, a ∈ hd1 :: xs ++ x :: ys → a ∉ hd2 :: zs) →
  wp (list_del x;; list_add hd2 x) (λ _ h', dlist h' hd1 (xs ++ ys) ∧ dlist h' hd2 (x :: zs) ∧
    frame (hd1 :: hd2 :: xs ++ x :: ys ++ zs) h h') h.
Proof.
  intros H1 H2 Hd. pose proof (before_elem hd1 xs) as Hb. pose proof (after_elem hd1 ys) as Ha.
  pose proof (after_elem hd2 zs) as Ha2. pose proof H1 as [[_ (_ & Hx & [Hy _]%NoDup_cons)%NoDup_app]%NoDup_cons Hnn _].
  assert (x ∉ hd1 :: xs ++ ys) as Hxn.
  { pose proof (dlist_nodup _ _ _ H1) as [Hh _]%NoDup_cons. intros [->|[Hin|Hin]%elem_of_app]%elem_of_cons; [|by apply (Hx x); [|left]|done].
    apply Hh, elem_of_app. right. left. }
  wp_step. eapply wp_mono; [by apply list_del_spec|]. intros [] h1 (H1' & Hdet & Hf1).
  eapply wp_mono; [apply (list_add_spec h1 hd2 zs x)|].
  - apply (dlist_frame _ _ _ _ _ Hf1); [|done]. intros a Haz Hdirty. apply (Hd a); [set_solver|done].
  - eapply dlist_dom; [exact Hdet|left].
  - set_solver.
  - apply Hd. set_solver.
  - cbv beta. intros [] h2 [H2' Hf2]. split_and!; [|done|].
    + apply (dlist_frame _ _ _ _ _ Hf2); [|done]. intros a Ha1 Hdirty. apply (Hd a); [set_solver|]. set_solver.
    + eapply frame_weaken; [exact (frame_trans _ _ _ _ _ Hf1 Hf2)|]. set_solver.
Qed.

Section buddy.
Context `{Layout} (base n : Z).

Lemma buddy_inv_agree m g h' : (∀ a, buddy_addr base n a → h' !! a = heap m !! a) →
  buddy_inv base n m g → buddy_inv base n (set_heap h' m) g.
Proof.
  intros F [[? ? Hs ? (fl & Hl & Hm & Hd)] (sl & Hsl & Hsr & Hsd) [(a & Ha & Hz & Had) Hzn] ? ? ? ?].
  assert (∀ a, buddy_addr base n a → a ∈ dom (heap m) → a ∈ dom h') as Hdom.
  { intros b Hb. by rewrite !elem_of_dom, F. }
  split; try done.
  - split; try done. exists fl. split_and!; [|done|].
    + intros o Ho. apply (dlist_agree (heap m)); [|by apply Hl]. intros b [->|Hb]%elem_of_cons.
      { apply F. left. left. eauto. }
      apply list_elem_of_fmap in Hb as (j & -> & [Hj _]%Hm); [|done]. apply F. left. right. exists j. split; [|done].
      pose proof (shape_pow _ _ _ _ Hs Hj). apply (shape_range _ _ Hs) in Hj. lia.
    + intros i Hi Hir. apply (dlist_agree (heap m)); [|by apply Hd]. intros b ->%list_elem_of_singleton.
      apply F. left. right. eauto.
  - exists sl. split_and!; [|done|].
    + destruct Hsl as [|Hsl]; [by left|right]. apply (dlist_agree (heap m)); [|done].
      intros b [->|Hb]%elem_of_cons; [apply F; right; left; by left|].
      apply list_elem_of_fmap in Hb as (j & -> & Hj). apply F. right. left. right. eauto.
    + intros i Hi Hni. apply (dlist_agree (heap m)); [|by apply Hsd]. intros b ->%list_elem_of_singleton.
      apply F. right. left. right. eauto.
  - split; [exists a; split_and!; [|done|]|].
    + cbn [heap set_heap]. unfold nx. rewrite F; [done|]. right. right. by left.
    + apply Hdom; [|done]. right. by right.
    + intros i Hi. apply Hdom; [|by apply Hzn]. right. right. right. right. eauto.
Qed.
End buddy.

(** ** The layout of a slab *)

(** The frame that an address of the direct map is in. *)
Definition page_of (a : Z) : Z := (a - KERNEL_VMA) / PAGE_SIZE.

(** Objects with their headers, then the footer, fit a page. *)
Record slab_shape (s : slab) : Prop := {
  shape_obj : sizeof_slab_obj < obj_size s;
  shape_count : 1 ≤ count s;
  shape_off : info_off s = obj_size s * count s;
  shape_fit : info_off s + sizeof_slab_info ≤ PAGE_SIZE;
}.

Section layout.
Implicit Types (s : slab) (f : Z).

Definition info_at s f : Z := kva f + info_off s.
Definition obj_at s f (i : Z) : Z := kva f + i * obj_size s.
Definition objs_at s f : list Z := obj_at s f <$> seqZ 0 (count s).
Definition node_at s f : Z := info_at s f + off_info_node.
Definition free_at s f : Z := info_at s f + off_info_free.

Context s (Hs : slab_shape s).

Lemma in_page f off : 0 ≤ off < PAGE_SIZE → page_of (kva f + off) = f.
Proof. unfold page_of, kva, PAGE_SIZE. mlia. Qed.

Lemma obj_bounds i : 0 ≤ i < count s → 0 ≤ i * obj_size s ∧ i * obj_size s + obj_size s ≤ info_off s.
Proof. destruct Hs as [H1 H2 H3 H4]. unfold sizeof_slab_obj in H1. rewrite H3. nia. Qed.

Lemma elem_of_objs f o : o ∈ objs_at s f ↔ ∃ i, 0 ≤ i < count s ∧ o = obj_at s f i.
Proof.
  unfold objs_at. rewrite list_elem_of_fmap. setoid_rewrite elem_of_seqZ. split.
  - intros (i & -> & Hi). exists i. split; [lia|done].
  - intros (i & Hi & ->). exists i. split; [done|lia].
Qed.

Lemma off_nonneg : 0 ≤ info_off s.
Proof. destruct Hs as [H1 H2 H3 H4]. unfold sizeof_slab_obj in H1. rewrite H3. nia. Qed.

Lemma page_obj f o : o ∈ objs_at s f → page_of o = f.
Proof.
  intros (i & Hi & ->)%elem_of_objs. apply in_page. pose proof (obj_bounds i Hi).
  pose proof (shape_fit _ Hs). pose proof (shape_obj _ Hs). unfold sizeof_slab_info, sizeof_slab_obj in *. lia.
Qed.
Lemma page_node f : page_of (node_at s f) = f.
Proof.
  unfold node_at, info_at. rewrite <-Z.add_assoc. apply in_page. pose proof (shape_fit _ Hs). pose proof off_nonneg.
  unfold sizeof_slab_info, off_info_node in *. lia.
Qed.
Lemma page_free_at f : page_of (free_at s f) = f.
Proof.
  unfold free_at, info_at. rewrite <-Z.add_assoc. apply in_page. pose proof (shape_fit _ Hs). pose proof off_nonneg.
  unfold sizeof_slab_info, off_info_free in *. lia.
Qed.

(** The footer lies behind the objects. *)
Lemma node_not_obj f f' : node_at s f ∉ objs_at s f' ∧ free_at s f ∉ objs_at s f' ∧ node_at s f ≠ free_at s f'.
Proof.
  assert (∀ x, x ∈ objs_at s f' → page_of x = f → x < info_at s f) as Hlt.
  { intros x Hx Hp. assert (f' = f) as <- by (rewrite <-Hp; symmetry; by apply page_obj).
    apply elem_of_objs in Hx as (i & Hi & ->). pose proof (obj_bounds i Hi). destruct Hs as [H1 _ _ _].
    unfold obj_at, info_at, sizeof_slab_obj in *. lia. }
  split_and!.
  - intros Hx. apply Hlt in Hx; [|apply page_node]. unfold node_at, off_info_node in Hx. lia.
  - intros Hx. apply Hlt in Hx; [|apply page_free_at]. unfold free_at, off_info_free in Hx. lia.
  - intros E. assert (f = f') as <- by (rewrite <-(page_node f), E; apply page_free_at).
    unfold node_at, free_at, off_info_node, off_info_free in E. lia.
Qed.

Lemma obj_inj f i j : obj_at s f i = obj_at s f j → i = j.
Proof. destruct Hs as [H1 _ _ _]. unfold obj_at, sizeof_slab_obj in *. nia. Qed.

Lemma objs_NoDup f : NoDup (objs_at s f).
Proof. apply NoDup_fmap_2; [intros i j; apply obj_inj|apply NoDup_seqZ]. Qed.

Lemma page_nonneg a : 0 ≤ page_of a → a ≠ NULL.
Proof. unfold page_of, NULL, KERNEL_VMA, PAGE_SIZE. intros ? ->. mlia. Qed.
End layout.

(** ** The invariant *)

(** A slab with its free list. *)
Abbreviation chunk := (Z * list Z)%type.

Definition chunks (partial : list chunk) (full : list Z) : list chunk := partial ++ ((λ f, (f, [])) <$> full).
Definition frames (partial : list chunk) (full : list Z) : list Z := partial.*1 ++ full.

Record chunk_ok (k : kernel) (slab : Z) (s : Kernel.slab) (c : chunk) : Prop := {
  ck_info : kslab_infos k !! info_at s c.1 = Some (SlabInfo slab (Z.of_nat (length c.2)));
  ck_free : dlist (heap (km k)) (free_at s c.1) c.2;
  ck_sub o : o ∈ c.2 → o ∈ objs_at s c.1;
  ck_objs o : o ∈ objs_at s c.1 → kslab_objs k !! o = Some (info_at s c.1);
  ck_dom o : o ∈ objs_at s c.1 → o ∈ dom (heap (km k));
}.

Record slab_ok (k : kernel) (slab : Z) (s : Kernel.slab) (partial : list chunk) (full : list Z) : Prop := {
  so_slab : kslabs k !! slab = Some s;
  so_shape : slab_shape s;
  so_partial : dlist (heap (km k)) (slab + off_partial) (node_at s <$> partial.*1);
  so_full : dlist (heap (km k)) (slab + off_full) (node_at s <$> full);
  so_chunks c : c ∈ chunks partial full → chunk_ok k slab s c;
  so_nonempty c : c ∈ partial → c.2 ≠ [];
  so_frames : NoDup (frames partial full) ∧ ∀ f, f ∈ frames partial full → 0 ≤ f;
  so_heads f : f ∈ frames partial full → page_of (slab + off_partial) ≠ f ∧ page_of (slab + off_full) ≠ f;
}.

(** The nodes of the two lists of slabs, and those of the free list of [f]. *)
Definition spine (s : Kernel.slab) (slab : Z) (fs : list Z) (a : Z) : Prop :=
  a = slab + off_partial ∨ a = slab + off_full ∨ ∃ f, f ∈ fs ∧ a = node_at s f.
Definition free_nodes (s : Kernel.slab) (f a : Z) : Prop := a = free_at s f ∨ a ∈ objs_at s f.

Section disjoint.
Context (s : Kernel.slab) (Hs : slab_shape s).

Lemma page_free_nodes f a : free_nodes s f a → page_of a = f.
Proof. intros [->|Ha]; [by apply page_free_at|by apply (page_obj s Hs)]. Qed.

Lemma spine_free slab fs f a : page_of (slab + off_partial) ≠ f → page_of (slab + off_full) ≠ f →
  spine s slab fs a → ¬ free_nodes s f a.
Proof.
  intros H1 H2 Ha Hf. pose proof (page_free_nodes f a Hf) as Hp. destruct Ha as [->|[->|(f' & _ & ->)]]; try congruence.
  destruct (node_not_obj s Hs f' f) as (Ho & _ & Hn). by destruct Hf.
Qed.

Lemma free_disjoint f f' a : f ≠ f' → free_nodes s f a → ¬ free_nodes s f' a.
Proof. intros Hne H1%page_free_nodes H2%page_free_nodes. congruence. Qed.
End disjoint.

(** The nodes of a slab's free list belong to it. *)
Lemma ck_nodes k slab s c a : chunk_ok k slab s c → a ∈ free_at s c.1 :: c.2 → free_nodes s c.1 a.
Proof. intros [_ _ Hsub _ _] [->|Ha]%elem_of_cons; [by left|right; auto]. Qed.

(** A chunk is untouched by a change of other nodes and other footers. *)
Lemma chunk_ok_agree k k' slab s c : chunk_ok k slab s c →
  kslab_infos k' !! info_at s c.1 = kslab_infos k !! info_at s c.1 →
  (∀ a, free_nodes s c.1 a → heap (km k') !! a = heap (km k) !! a) →
  (∀ o, o ∈ objs_at s c.1 → kslab_objs k' !! o = kslab_objs k !! o) → chunk_ok k' slab s c.
Proof.
  intros Hc Hi Hh Ho. pose proof Hc as [H1 H2 H3 H4 H5]. split; [by rewrite Hi| |done| |].
  - apply (dlist_agree (heap (km k))); [|done]. intros a Ha. apply Hh. by eapply ck_nodes.
  - intros o Hoo. rewrite Ho by done. by apply H4.
  - intros o Hoo. rewrite elem_of_dom, Hh by (by right). by apply elem_of_dom, H5.
Qed.

(** ** Steps *)

(** The state with other list nodes and other footers. *)
Definition with_lists (h : lheap) (I : gmap Z slab_info) (k : kernel) : kernel :=
  set_kslab_infos I (set_km (set_heap h (km k)) k).

Lemma with_lists_id k : with_lists (heap (km k)) (kslab_infos k) k = k.
Proof. destruct k as [m]. by destruct m. Qed.

Lemma wp_on_list {A} (c : M lheap A) k (Q : A → kernel → Prop) :
  wp c (λ a h', Q a (set_km (set_heap h' (km k)) k)) (heap (km k)) → wp (on_list c) Q k.
Proof. intros Hc. by do 2 apply wp_zoom. Qed.

Lemma wp_info_upd k i v f (Q : unit → kernel → Prop) : kslab_infos k !! i = Some v →
  Q tt (set_kslab_infos (<[i := f v]> (kslab_infos k)) k) → wp (info_upd i f) Q k.
Proof. intros Hi HQ. unfold info_upd. wp_step. eapply wp_deref; [exact Hi|]. by wp_step. Qed.

(** [h'] differs from [h] in nodes of [C] only; nodes may have been added. *)
Definition changed (C : Z → Prop) (h h' : lheap) : Prop := dom h ⊆ dom h' ∧ ∀ a, ¬ C a → h' !! a = h !! a.

Lemma changed_refl C h : changed C h h.
Proof. done. Qed.
Lemma changed_trans C h1 h2 h3 : changed C h1 h2 → changed C h2 h3 → changed C h1 h3.
Proof. intros [D1 F1] [D2 F2]. split; [set_solver|]. intros a Ha. by rewrite F2, F1. Qed.
Lemma changed_weaken (C D : Z → Prop) h h' : changed C h h' → (∀ a, C a → D a) → changed D h h'.
Proof. intros [D1 F] HCD. split; [done|]. intros a Ha. apply F. auto. Qed.
Lemma changed_frame (C : Z → Prop) l h h' : frame l h h' → (∀ a, a ∈ l → C a) → changed C h h'.
Proof. intros [D F] HC. split; [by rewrite D|]. intros a Ha. apply F. auto. Qed.
Lemma changed_insert (C : Z → Prop) a v h : C a → changed C h (<[a := v]> h).
Proof. intros Ha. split; [set_solver|]. intros b Hb. apply lookup_insert_ne. by intros ->. Qed.
Lemma changed_dlist (C : Z → Prop) h h' head xs : changed C h h' → (∀ a, a ∈ head :: xs → ¬ C a) →
  dlist h head xs → dlist h' head xs.
Proof. intros [_ F] HC. apply dlist_agree. auto. Qed.

#[export] Hint Resolve changed_refl : core.

(** [list_del] changes nodes of its list only. *)
Lemma list_del_changed h hd xs x ys : dlist h hd (xs ++ x :: ys) →
  wp (list_del x) (λ _ h', dlist h' hd (xs ++ ys) ∧ changed (λ a, a ∈ hd :: xs ++ x :: ys) h h') h.
Proof.
  intros Hd. eapply wp_mono; [by apply list_del_spec|]. cbv beta. intros [] h' (Hd' & _ & Hf). split; [done|].
  apply (changed_frame _ _ _ _ Hf). intros a Ha.
  pose proof (before_elem hd xs) as Hb. pose proof (after_elem hd ys) as Ha'.
  rewrite !elem_of_cons, elem_of_nil in Ha. rewrite elem_of_cons in Hb, Ha'.
  rewrite elem_of_cons, elem_of_app, elem_of_cons. intuition congruence.
Qed.

Section slab.
Context `{Layout}.
Implicit Types (k : kernel) (s : Kernel.slab).

(** Every node of an allocator. *)
Definition slab_nodes s slab (fs : list Z) (a : Z) : Prop := spine s slab fs a ∨ ∃ f, f ∈ fs ∧ free_nodes s f a.

(** What an operation on an allocator with the slabs [fs] leaves alone. *)
Record slab_frame s slab (fs : list Z) k k' : Prop := {
  sf_state : ∃ h I, k' = with_lists h I k;
  sf_heap : changed (slab_nodes s slab fs) (heap (km k)) (heap (km k'));
  sf_infos i : (∀ f, f ∈ fs → i ≠ info_at s f) → kslab_infos k' !! i = kslab_infos k !! i;
}.

Lemma info_inj s f f' : info_at s f = info_at s f' → f = f'.
Proof. unfold info_at, kva, PAGE_SIZE. lia. Qed.

Lemma chunks_frames partial full c : c ∈ chunks partial full → c.1 ∈ frames partial full.
Proof.
  unfold chunks, frames. rewrite !elem_of_app, !list_elem_of_fmap. intros [Hc|(f & -> & Hf)]; [left; eauto|by right].
Qed.

(** Taking the object [o] off the free list of [f]. *)
Lemma take_object_spec k slab s f o free :
  chunk_ok k slab s (f, o :: free) → slab_shape s → Z.of_nat (length (o :: free)) < 2 ^ 64 →
  wp (on_list (list_del o);; info_upd (info_at s f) (λ v, set_free_count (u64 (free_count v - 1)) v))
    (λ _ k', chunk_ok k' slab s (f, free) ∧ ∃ h, changed (free_nodes s f) (heap (km k)) h ∧
      k' = with_lists h (<[info_at s f := SlabInfo slab (Z.of_nat (length free))]> (kslab_infos k)) k) k.
Proof.
  intros Hc Hs Hlen. pose proof Hc as [Hi Hf Hsub Hobj Hdom]. simpl in *.
  wp_step. apply wp_on_list. eapply wp_mono; [apply (list_del_spec _ _ [] o free Hf)|].
  simpl. intros [] h (Hd & _ & Hfr). eapply wp_info_upd; [exact Hi|]. unfold set_free_count. cbn [si_slab free_count].
  replace (u64 (Z.of_nat (S (length free)) - 1)) with (Z.of_nat (length free)) by (unfold u64; rewrite Z.mod_small; lia).
  split.
  - split; simpl; [apply lookup_insert_eq|done|set_solver|done|]. by rewrite (proj1 Hfr).
  - exists h. split; [|done]. apply (changed_frame _ _ _ _ Hfr). intros a Ha.
    apply (ck_nodes k slab s (f, o :: free)); [done|]. simpl.
    pose proof (after_elem (free_at s f) free). unfold before in Ha. simpl in Ha. set_solver.
Qed.

(** The other chunks do not notice a change of [f]'s free list and footer. *)
Lemma chunks_other k slab s f h v c : chunk_ok k slab s c → slab_shape s → c.1 ≠ f →
  changed (free_nodes s f) (heap (km k)) h → chunk_ok (with_lists h (<[info_at s f := v]> (kslab_infos k)) k) slab s c.
Proof.
  intros Hc Hs Hne [_ Hh]. apply (chunk_ok_agree k); [done| | |done].
  - simpl. apply lookup_insert_ne. by intros ?%info_inj.
  - simpl. intros a Ha. apply Hh. by apply (free_disjoint s Hs c.1).
Qed.

(** No chunk notices a change of the lists of slabs. *)
Lemma chunks_spine k slab s fs h c : chunk_ok k slab s c → slab_shape s →
  page_of (slab + off_partial) ≠ c.1 → page_of (slab + off_full) ≠ c.1 →
  changed (spine s slab fs) (heap (km k)) h → chunk_ok (set_km (set_heap h (km k)) k) slab s c.
Proof.
  intros Hc Hs H1 H2 [_ Hh]. apply (chunk_ok_agree k); [done|done| |done].
  simpl. intros a Ha. apply Hh. intros Hsp. by apply (spine_free s Hs slab fs c.1 a).
Qed.

Lemma spine_nodes slab s fs a : a ∈ (slab + off_partial) :: (slab + off_full) :: (node_at s <$> fs) → spine s slab fs a.
Proof.
  intros [->|[->|(f & -> & ?)%list_elem_of_fmap]%elem_of_cons]%elem_of_cons; [by left|right; by left|right; right; eauto].
Qed.

Lemma free_length k slab s c : chunk_ok k slab s c → slab_shape s → Z.of_nat (length c.2) ≤ count s ≤ PAGE_SIZE.
Proof.
  intros [_ [[_ Hnd]%NoDup_cons _ _] Hsub _ _] [H1 H2 H3 H4]. split.
  - assert (length c.2 ≤ length (objs_at s c.1))%nat as Hl.
    { apply submseteq_length, NoDup_submseteq; [done|]. exact Hsub. }
    unfold objs_at in Hl. rewrite length_fmap, length_seqZ in Hl. lia.
  - unfold sizeof_slab_obj, sizeof_slab_info in *. nia.
Qed.

(** [slab_alloc] once there is a partial slab. *)
Definition take_first (slab : Z) : M kernel Z :=
  pn ← on_list (get_next (slab + off_partial));
  let info := container_of pn off_info_node in
  fn ← on_list (get_next (info + off_info_free));
  let obj := container_of fn 0 in
  on_list (list_del obj);;
  info_upd info (λ v, set_free_count (u64 (free_count v - 1)) v);;
  empty ← on_list (list_is_empty (info + off_info_free));
  (if (empty : bool) then
     on_list (list_del (info + off_info_node));;
     on_list (list_add (slab + off_full) (info + off_info_node))
   else mret tt);;
  mret (obj + sizeof_slab_obj).

(** The lists of slabs after [o] has been taken off the first partial slab. *)
Definition taken (f : Z) (free : list Z) (ps : list chunk) (full : list Z) : list chunk * list Z :=
  match free with [] => (ps, f :: full) | _ => ((f, free) :: ps, full) end.

(** Reading a list leaves the state as it is. *)
Lemma wp_on_list_read {A} (c : M lheap A) k (Q : A → kernel → Prop) :
  wp c (λ a h', h' = heap (km k) ∧ Q a k) (heap (km k)) → wp (on_list c) Q k.
Proof.
  intros Hc. apply wp_on_list. eapply wp_mono; [exact Hc|]. intros a h' [-> HQ].
  by replace (set_km (set_heap (heap (km k)) (km k)) k) with k by (destruct k as [m]; by destruct m).
Qed.

Lemma wp_list_first k head x xs (Q : Z → kernel → Prop) : dlist (heap (km k)) head (x :: xs) → Q x k →
  wp (on_list (get_next head)) Q k.
Proof.
  intros Hd HQ. apply wp_on_list_read. apply (wp_get_next _ _ x); [|done]. by apply dlist_ends in Hd as [? _].
Qed.
Lemma wp_list_empty k head xs (Q : bool → kernel → Prop) : dlist (heap (km k)) head xs → Q (bool_decide (xs = [])) k →
  wp (on_list (list_is_empty head)) Q k.
Proof. intros Hd HQ. apply wp_on_list_read. eapply wp_OK; [by apply list_is_empty_spec|]. done. Qed.

(** Moving a slab from one list of slabs to the other. *)
Lemma move_spec k s hd1 hd2 f xs ys zs :
  dlist (heap (km k)) hd1 (node_at s <$> xs ++ f :: ys) → dlist (heap (km k)) hd2 (node_at s <$> zs) →
  NoDup (f :: (xs ++ ys) ++ zs) → page_of hd1 ∉ f :: (xs ++ ys) ++ zs → page_of hd2 ∉ f :: (xs ++ ys) ++ zs →
  hd1 ≠ hd2 → slab_shape s →
  wp (on_list (list_del (node_at s f));; on_list (list_add hd2 (node_at s f)))
    (λ _ k', ∃ h, k' = set_km (set_heap h (km k)) k ∧
      changed (λ a, a ∈ hd1 :: hd2 :: (node_at s <$> f :: (xs ++ ys) ++ zs)) (heap (km k)) h ∧
      dlist h hd1 (node_at s <$> xs ++ ys) ∧ dlist h hd2 (node_at s <$> f :: zs)) k.
Proof.
  intros H1 H2 Hnd Hh1 Hh2 Hne Hs. rewrite fmap_app, fmap_cons in H1.
  pose proof (dlist_move _ _ _ _ _ _ _ H1 H2) as Hmove.
  assert (∀ x y, node_at s x = node_at s y → x = y) as Hinj.
  { intros x y E. by rewrite <-(page_node s Hs x), E, (page_node s Hs y). }
  apply NoDup_cons in Hnd as [Hfn (_ & Hd & _)%NoDup_app].
  assert (∀ a, a ∈ hd1 :: (node_at s <$> xs) ++ node_at s f :: (node_at s <$> ys) → a ∉ hd2 :: (node_at s <$> zs)) as Hdisj.
  { intros a Ha1 Ha2. rewrite <-fmap_cons, <-fmap_app in Ha1.
    apply elem_of_cons in Ha1 as [->|(x & -> & Hx)%list_elem_of_fmap], Ha2 as [E|(y & E & Hy)%list_elem_of_fmap].
    - done.
    - apply Hh1. rewrite E, (page_node s Hs). set_solver.
    - apply Hh2. rewrite <-E, (page_node s Hs). set_solver.
    - apply Hinj in E. subst y. destruct (decide (x = f)) as [->|]; [set_solver|]. apply (Hd x); set_solver. }
  specialize (Hmove Hdisj). apply wp_bind_inv in Hmove. wp_step. apply wp_on_list. eapply wp_mono; [exact Hmove|].
  cbv beta. clear Hmove. intros [] h1 Hmove. apply wp_on_list. eapply wp_mono; [exact Hmove|].
  cbv beta. intros [] h2 (Hl1 & Hl2 & Hf). exists h2. rewrite fmap_app. split; [done|]. split; [|done].
  apply (changed_frame _ _ _ _ Hf). intros a Ha. rewrite fmap_cons, !fmap_app. set_solver.
Qed.

(** Rearranging the slabs of an allocator, or dropping some. *)
Lemma slab_ok_sub k k' slab s partial full P F : slab_ok k slab s partial full → kslabs k' = kslabs k →
  dlist (heap (km k')) (slab + off_partial) (node_at s <$> P.*1) →
  dlist (heap (km k')) (slab + off_full) (node_at s <$> F) →
  (∀ c, c ∈ chunks P F → chunk_ok k' slab s c) → (∀ c, c ∈ P → c.2 ≠ []) →
  NoDup (frames P F) → frames P F ⊆ frames partial full → slab_ok k' slab s P F.
Proof.
  intros [Hsl Hs _ _ _ _ [_ Hpos] Hheads] Hk Hp Hf Hck Hne Hnd Hsub. split; try done; [by rewrite Hk| |].
  - split; [done|]. intros f Hin%Hsub. by apply Hpos.
  - intros f Hin%Hsub. by apply Hheads.
Qed.

Lemma slab_ok_perm k k' slab s partial full P F : slab_ok k slab s partial full → kslabs k' = kslabs k →
  dlist (heap (km k')) (slab + off_partial) (node_at s <$> P.*1) →
  dlist (heap (km k')) (slab + off_full) (node_at s <$> F) →
  (∀ c, c ∈ chunks P F → chunk_ok k' slab s c) → (∀ c, c ∈ P → c.2 ≠ []) →
  frames P F ≡ₚ frames partial full → slab_ok k' slab s P F.
Proof.
  intros Hok ????? HP. pose proof (so_frames _ _ _ _ _ Hok) as [Hnd _].
  apply (slab_ok_sub k k' slab s partial full); try done; [by rewrite HP|]. intros f. by rewrite HP.
Qed.

Lemma heads_outside k slab s partial full : slab_ok k slab s partial full →
  page_of (slab + off_partial) ∉ frames partial full ∧ page_of (slab + off_full) ∉ frames partial full.
Proof. intros Hok. split; intros Hin; by destruct (so_heads _ _ _ _ _ Hok _ Hin). Qed.

Lemma take_first_spec k slab s f o free ps full : slab_ok k slab s ((f, o :: free) :: ps) full →
  wp (take_first slab) (λ r k', r = o + sizeof_slab_obj ∧
    slab_ok k' slab s (taken f free ps full).1 (taken f free ps full).2 ∧
    slab_frame s slab (frames ((f, o :: free) :: ps) full) k k') k.
Proof.
  intros Hok. pose proof Hok as [Hsl Hs Hp Hf Hck Hne [Hnd Hpos] Hheads].
  destruct (heads_outside _ _ _ _ _ Hok) as [Hh1 Hh2].
  assert (chunk_ok k slab s (f, o :: free)) as Hc by (apply Hck; left). simpl in Hp, Hnd, Hh1, Hh2.
  unfold frames in Hnd, Hh1, Hh2. simpl in Hnd, Hh1, Hh2.
  unfold take_first. wp_step. eapply wp_list_first; [exact Hp|].
  assert (container_of (node_at s f) off_info_node = info_at s f) as -> by (unfold container_of, node_at; lia).
  change (info_at s f + off_info_free) with (free_at s f). change (info_at s f + off_info_node) with (node_at s f).
  wp_step. eapply wp_list_first; [exact (ck_free _ _ _ _ Hc)|].
  assert (container_of o 0 = o) as -> by (unfold container_of; lia).
  pose proof (free_length _ _ _ _ Hc Hs) as [Hlen Hcnt]. simpl in Hlen.
  assert (Z.of_nat (length (o :: free)) < 2 ^ 64) as Hl64 by (unfold PAGE_SIZE in Hcnt; simpl in *; lia).
  pose proof (take_object_spec k slab s f o free Hc Hs Hl64) as Htake.
  apply wp_bind_inv in Htake. wp_step. eapply wp_mono; [exact Htake|]. cbv beta. clear Htake. intros [] k1 Htake.
  wp_step. eapply wp_mono; [exact Htake|]. cbv beta. clear Htake k1. intros [] k1 (Hc1 & h & Hh & Ek1).
  wp_step. eapply wp_list_empty; [exact (ck_free _ _ _ _ Hc1)|]. cbn [snd].
  apply NoDup_cons in Hnd as [Hfn Hnd].
  assert (∀ c, c ∈ chunks ps full → chunk_ok k1 slab s c) as Hothers.
  { intros c Hcin. subst k1. apply (chunks_other k slab s f); [|done| |done].
    - apply Hck. unfold chunks in *. set_solver.
    - intros <-. apply Hfn. by apply chunks_frames in Hcin. }
  assert (∀ fs a, spine s slab fs a → ¬ free_nodes s f a) as Hsf.
  { intros fs a Ha. apply (spine_free s Hs slab fs); [set_solver..|done]. }
  assert (dlist (heap (km k1)) (slab + off_partial) (node_at s <$> f :: ps.*1)) as Hp1.
  { subst k1. apply (changed_dlist _ _ _ _ _ Hh); [|exact Hp]. intros a Ha. apply (Hsf (f :: ps.*1)), spine_nodes. set_solver. }
  assert (dlist (heap (km k1)) (slab + off_full) (node_at s <$> full)) as Hf1.
  { subst k1. apply (changed_dlist _ _ _ _ _ Hh); [|exact Hf]. intros a Ha. apply (Hsf full), spine_nodes. set_solver. }
  assert (∀ k2, (∃ h2, k2 = set_km (set_heap h2 (km k1)) k1 ∧ changed (spine s slab (f :: ps.*1 ++ full)) (heap (km k1)) h2) →
    slab_frame s slab (f :: ps.*1 ++ full) k k2) as Hframe.
  { intros k2 (h2 & -> & Hh2'). subst k1. split.
    - by eexists _, _.
    - simpl in *. eapply changed_trans; eapply changed_weaken; [exact Hh| |exact Hh2'|]; intros a Ha.
      + right. exists f. split; [left|done].
      + by left.
    - simpl. intros i Hi. apply lookup_insert_ne. intros <-. by apply (Hi f); [left|]. }
  case_bool_decide as Efree.
  - subst free. wp_step. pose proof (move_spec k1 s (slab + off_partial) (slab + off_full) f [] ps.*1 full Hp1 Hf1
      ltac:(by apply NoDup_cons) Hh1 Hh2 ltac:(unfold off_full, off_partial; lia) Hs) as Hmove.
    eapply wp_mono; [exact Hmove|]. cbv beta. clear Hmove. intros [] k2 (h2 & Ek2 & Hch & Hp2 & Hf2).
    eapply (changed_weaken _ (spine s slab (f :: ps.*1 ++ full))) in Hch; [|intros a; apply spine_nodes].
    wp_step. split; [done|]. split; [|apply Hframe; eauto]. simpl. subst k2.
    assert (∀ c, c ∈ chunks ps full ∨ c = (f, []) → chunk_ok (set_km (set_heap h2 (km k1)) k1) slab s c) as Hall.
    { intros c Hcin. apply (chunks_spine k1 slab s (f :: ps.*1 ++ full)); [destruct Hcin as [?| ->]; auto|done| | |done];
        (assert (c.1 ∈ f :: ps.*1 ++ full) by (destruct Hcin as [Hcin| ->]; [apply chunks_frames in Hcin; unfold frames in Hcin; set_solver|left])); set_solver. }
    eapply slab_ok_perm; [exact Hok|by subst k1|exact Hp2|exact Hf2| | |].
    + intros c Hcin. apply Hall. unfold chunks in *. simpl in Hcin. set_solver.
    + intros c Hcin. apply Hne. by right.
    + unfold frames. simpl. by rewrite Permutation_middle.
  - wp_step. wp_step. split; [done|]. assert (taken f free ps full = ((f, free) :: ps, full)) as -> by (by destruct free).
    simpl. split.
    + eapply slab_ok_perm; [exact Hok|by subst k1|exact Hp1|exact Hf1| | |done].
      * intros c Hcin. unfold chunks in *. simpl in Hcin. apply elem_of_cons in Hcin as [->|Hcin]; [done|auto].
      * intros c [->|Hcin]%elem_of_cons; [done|]. apply Hne. by right.
    + apply Hframe. exists (heap (km k1)). split; [|done]. destruct k1 as [m]. by destruct m.
Qed.

(** ** [slab_alloc_chunk] *)

(** The first [i] objects of [f], the last one first. *)
Definition first_objs s f (i : Z) : list Z := reverse (obj_at s f <$> seqZ 0 i).

Lemma first_objs_S s f i : 0 ≤ i → first_objs s f (i + 1) = obj_at s f i :: first_objs s f i.
Proof.
  intros Hi. unfold first_objs. rewrite seqZ_app by lia. rewrite fmap_app, reverse_app. by rewrite Z.add_0_l.
Qed.

Lemma elem_of_first_objs s f i o : o ∈ first_objs s f i ↔ ∃ j, 0 ≤ j < i ∧ o = obj_at s f j.
Proof.
  unfold first_objs. rewrite elem_of_reverse, list_elem_of_fmap. setoid_rewrite elem_of_seqZ. split.
  - intros (j & -> & Hj). exists j. split; [lia|done].
  - intros (j & Hj & ->). exists j. split; [done|lia].
Qed.

Lemma length_first_objs s f i : 0 ≤ i → Z.of_nat (length (first_objs s f i)) = i.
Proof. intros Hi. unfold first_objs. rewrite length_reverse, length_fmap, length_seqZ. lia. Qed.

(** The headers set up so far. *)
Record objs_upto k slab s f (i : Z) : Prop := {
  ou_info : kslab_infos k !! info_at s f = Some (SlabInfo slab i);
  ou_free : dlist (heap (km k)) (free_at s f) (first_objs s f i);
  ou_objs o : o ∈ first_objs s f i → kslab_objs k !! o = Some (info_at s f);
}.

(** What the set-up of the slab [f] changes: nodes of [C], its footer, its
    headers. *)
Record chunk_frame (C : Z → Prop) s f k k' : Prop := {
  cf_state : ∃ h I O, k' = set_kslab_objs O (with_lists h I k);
  cf_heap : changed C (heap (km k)) (heap (km k'));
  cf_infos i : i ≠ info_at s f → kslab_infos k' !! i = kslab_infos k !! i;
  cf_objs o : o ∉ objs_at s f → kslab_objs k' !! o = kslab_objs k !! o;
}.

Lemma chunk_frame_refl C s f k : chunk_frame C s f k k.
Proof. split; [|done..]. exists (heap (km k)), (kslab_infos k), (kslab_objs k). destruct k as [m]. by destruct m. Qed.
Lemma chunk_frame_trans C s f k1 k2 k3 : chunk_frame C s f k1 k2 → chunk_frame C s f k2 k3 → chunk_frame C s f k1 k3.
Proof.
  intros [(h2 & I2 & O2 & ->) H2 A2 B2] [(h3 & I3 & O3 & ->) H3 A3 B3]. split.
  - by exists h3, I3, O3.
  - by eapply changed_trans.
  - intros i Hi. rewrite A3, A2 by done. done.
  - intros o Ho. rewrite B3, B2 by done. done.
Qed.

Lemma init_object_spec k slab s f i : slab_shape s → 0 ≤ f < 2 ^ 31 → 0 ≤ i < count s → objs_upto k slab s f i →
  let obj := u64 (kva f + i * obj_size s) in
  wp (new_obj obj;; on_list (list_init obj);; obj_set obj (info_at s f);;
      on_list (list_add (free_at s f) obj);;
      info_upd (info_at s f) (λ v, set_free_count (u64 (free_count v + 1)) v))
    (λ _ k', objs_upto k' slab s f (i + 1) ∧ chunk_frame (free_nodes s f) s f k k') k.
Proof.
  intros Hs Hf Hi [Hinfo Hfree Hobjs] obj. pose proof (obj_bounds s Hs i Hi) as Hb. pose proof (shape_fit _ Hs) as Hfit.
  pose proof (shape_obj _ Hs) as Hsz. unfold PAGE_SIZE, sizeof_slab_info, sizeof_slab_obj in *.
  assert (obj = obj_at s f i) as Eobj.
  { unfold obj, obj_at, u64. rewrite Z.mod_small; [done|]. unfold kva, PAGE_SIZE, KERNEL_VMA. lia. }
  clearbody obj. assert (obj ∈ objs_at s f) as Hin by (apply elem_of_objs; eauto).
  assert (obj ≠ NULL) as Hnn by (apply page_nonneg; rewrite (page_obj s Hs f); [lia|done]).
  assert (obj ∉ free_at s f :: first_objs s f i) as Hnew.
  { intros [E|(j & Hj & E)%elem_of_first_objs]%elem_of_cons.
    - destruct (node_not_obj s Hs f f) as (_ & Ho & _). by rewrite <-E in Ho.
    - subst obj. apply (obj_inj s Hs) in E. lia. }
  wp_step. unfold new_obj, new_node. wp_step. apply wp_on_list. wp_step. wp_step.
  set (h1 := <[obj := Node NULL NULL]> (heap (km k))).
  assert (changed (free_nodes s f) (heap (km k)) h1) as Hh1 by (apply changed_insert; by right).
  wp_step. apply wp_on_list. simpl. eapply wp_mono; [apply (list_init_spec h1 obj); [unfold h1; set_solver|done]|].
  intros [] h2 [Hdet Hf2]. cbv beta in Hf2.
  assert (dlist h2 (free_at s f) (first_objs s f i)) as Hfree2.
  { apply (dlist_agree (heap (km k))); [|done]. intros a Ha. destruct Hf2 as [_ ->]; [|set_solver].
    unfold h1. apply lookup_insert_ne. by intros ->. }
  wp_step. unfold obj_set. wp_step. eapply wp_deref; [simpl; apply lookup_insert_eq|]. wp_step.
  wp_step. apply wp_on_list. simpl. eapply wp_mono; [apply (list_add_spec h2 (free_at s f) (first_objs s f i) obj Hfree2)|]; [|done|done|].
  { eapply dlist_dom; [exact Hdet|set_solver]. }
  intros [] h3 [Hfree3 Hf3]. cbv beta in Hfree3, Hf3. eapply wp_info_upd; [exact Hinfo|].
  unfold set_free_count. cbn [si_slab free_count]. simpl.
  assert (u64 (i + 1) = i + 1) as ->.
  { unfold u64. apply Z.mod_small. nia. }
  split.
  - split; simpl.
    + apply lookup_insert_eq.
    + by rewrite first_objs_S, <-Eobj by lia.
    + rewrite first_objs_S, <-Eobj by lia. intros o [->|Ho]%elem_of_cons; [apply lookup_insert_eq|].
      rewrite !lookup_insert_ne by (intros ->; set_solver). by apply Hobjs.
  - split; simpl.
    + by eexists _, _, _.
    + eapply changed_trans; [exact Hh1|]. eapply changed_trans; eapply changed_frame; [exact Hf2| |exact Hf3|].
      * intros a ->%list_elem_of_singleton. by right.
      * intros a Ha. assert (a ∈ obj :: free_at s f :: first_objs s f i) as Ha'.
        { pose proof (after_elem (free_at s f) (first_objs s f i)). set_solver. }
        apply elem_of_cons in Ha' as [->|[->|(j & Hj & ->)%elem_of_first_objs]%elem_of_cons]; [by right|by left|].
        right. apply elem_of_objs. exists j. split; [lia|done].
    + intros j Hj. by apply lookup_insert_ne.
    + intros o Ho. rewrite !lookup_insert_ne; [done|..]; by intros ->.
Qed.

Lemma init_objects_spec m : ∀ k slab s f i, slab_shape s → 0 ≤ f < 2 ^ 31 → 0 ≤ i → i + Z.of_nat m = count s →
  objs_upto k slab s f i →
  wp (init_objects m i (kva f) (obj_size s) (info_at s f))
    (λ _ k', objs_upto k' slab s f (count s) ∧ chunk_frame (free_nodes s f) s f k k') k.
Proof.
  induction m as [|m IH]; intros k slab s f i Hs Hf Hi Em Hup; cbn [init_objects].
  { wp_step. replace (count s) with i by lia. split; [done|apply chunk_frame_refl]. }
  pose proof (init_object_spec k slab s f i Hs Hf ltac:(lia) Hup) as Hstep.
  do 4 (apply wp_bind_inv in Hstep; wp_step; eapply wp_mono; [exact Hstep|]; cbv beta; clear Hstep; intros [] ? Hstep).
  wp_step. eapply wp_mono; [exact Hstep|]. cbv beta. clear Hstep. intros [] k1 [Hup1 Hf1].
  eapply wp_mono; [apply (IH k1 slab s f (i + 1)); [done|done|lia|lia|done]|].
  intros [] k2 [Hup2 Hf2]. split; [done|]. by eapply chunk_frame_trans.
Qed.
End slab.

(** Adding the slab in frame [x], once it has been allocated. *)
Section build.
Implicit Types (k : kernel) (s : Kernel.slab).

Definition build_chunk (slab va : Z) : M kernel Z :=
  s ← slab_get slab;
  let info := u64 (va + info_off s) in
  new_info info;;
  info_upd info (set_si_slab slab);;
  on_list (list_init (info + off_info_node));;
  on_list (list_add (slab + off_partial) (info + off_info_node));;
  on_list (list_init (info + off_info_free));;
  info_upd info (set_free_count 0);;
  init_objects (Z.to_nat (count s)) 0 va (obj_size s) info;;
  v ← info_get info;
  assert (free_count v =? count s);;
  mret 0.

Lemma first_objs_all s x o : o ∈ first_objs s x (count s) ↔ o ∈ objs_at s x.
Proof. by rewrite elem_of_first_objs, elem_of_objs. Qed.

(** The nodes of the list of partial slabs. *)
Definition partial_nodes s (slab : Z) (fs : list Z) (a : Z) : Prop := a ∈ slab + off_partial :: (node_at s <$> fs).

(** The footer of the new slab, linked into the list of partial slabs. *)
Lemma new_footer_spec k slab s x fs : slab_shape s → 0 ≤ x → x ∉ fs →
  page_of (slab + off_partial) ≠ x → dlist (heap (km k)) (slab + off_partial) (node_at s <$> fs) →
  wp (new_info (info_at s x);; info_upd (info_at s x) (set_si_slab slab);; on_list (list_init (node_at s x));;
      on_list (list_add (slab + off_partial) (node_at s x));; on_list (list_init (free_at s x));;
      info_upd (info_at s x) (set_free_count 0))
    (λ _ k', objs_upto k' slab s x 0 ∧ dlist (heap (km k')) (slab + off_partial) (node_at s <$> x :: fs) ∧
      chunk_frame (λ a, partial_nodes s slab (x :: fs) a ∨ a = free_at s x) s x k k') k.
Proof.
  intros Hs Hx Hxf Hhd Hp. destruct (node_not_obj s Hs x x) as (_ & _ & Hnf).
  assert (node_at s x ≠ NULL) as Hnn by (apply page_nonneg; by rewrite page_node).
  assert (free_at s x ≠ NULL) as Hfn by (apply page_nonneg; by rewrite page_free_at).
  assert (∀ a, a ∈ slab + off_partial :: (node_at s <$> fs) → a ≠ node_at s x ∧ a ≠ free_at s x) as Hap.
  { intros a [->|(f & -> & Hf)%list_elem_of_fmap]%elem_of_cons.
    - split; intros E; apply Hhd; rewrite E; [apply page_node|apply page_free_at]; done.
    - split; [|by apply node_not_obj]. intros E. apply Hxf. by rewrite <-(page_node s Hs x), <-E, page_node. }
  unfold new_info, new_node. change (info_at s x + off_info_node) with (node_at s x).
  change (info_at s x + off_info_free) with (free_at s x).
  wp_step. wp_step. apply wp_on_list. wp_step. wp_step. apply wp_on_list. simpl. wp_step. wp_step.
  set (h1 := <[free_at s x := _]> (<[node_at s x := _]> (heap (km k)))).
  wp_step. eapply wp_info_upd; [simpl; apply lookup_insert_eq|].
  wp_step. apply wp_on_list. simpl. eapply wp_mono; [apply (list_init_spec h1 (node_at s x)); [unfold h1; set_solver|done]|].
  intros [] h2 [Hd2 [D2 F2]].
  assert (dlist h2 (slab + off_partial) (node_at s <$> fs)) as Hp2.
  { apply (dlist_agree (heap (km k))); [|done]. intros a Ha. destruct (Hap a Ha). rewrite F2 by set_solver.
    unfold h1. by rewrite !lookup_insert_ne. }
  wp_step. apply wp_on_list. simpl.
  eapply wp_mono; [apply (list_add_spec h2 (slab + off_partial) (node_at s <$> fs) (node_at s x) Hp2); [|done|]|].
  { eapply dlist_dom; [exact Hd2|set_solver]. }
  { intros Hin. by destruct (Hap _ Hin). }
  intros [] h3 [Hp3 [D3 F3]].
  assert (∀ b, b ∈ [node_at s x; slab + off_partial; after (slab + off_partial) (node_at s <$> fs)] →
    b = node_at s x ∨ b ∈ slab + off_partial :: (node_at s <$> fs)) as Hdirty.
  { intros b Hb. pose proof (after_elem (slab + off_partial) (node_at s <$> fs)). set_solver. }
  wp_step. apply wp_on_list. simpl. eapply wp_mono; [apply (list_init_spec h3 (free_at s x)); [|done]|].
  { rewrite D3, D2. unfold h1. set_solver. }
  intros [] h4 [Hd4 [D4 F4]]. eapply wp_info_upd; [simpl; apply lookup_insert_eq|]. simpl. split_and!.
  - split; simpl; [apply lookup_insert_eq|done|]. intros o []%not_elem_of_nil.
  - apply (dlist_agree h3); [|done]. intros a Ha. apply F4. intros ->%list_elem_of_singleton.
    apply elem_of_cons in Ha as [E|[E|Ha]%elem_of_cons]; [|by apply Hnf|].
    + by destruct (Hap (slab + off_partial)) as [_ []]; [left|].
    + by destruct (Hap (free_at s x)) as [_ []]; [right|].
  - split.
    + by lazymatch goal with |- ∃ h I O, ?k' = _ => exists (heap (km k')), (kslab_infos k'), (kslab_objs k') end.
    + simpl. split; [rewrite D4, D3, D2; unfold h1; set_solver|]. intros a Ha.
      assert (a ≠ node_at s x ∧ a ≠ free_at s x) as [Ha1 Ha2].
      { split; intros ->; apply Ha; [left; right; left|by right]. }
      rewrite F4 by set_solver. rewrite F3.
      2: { intros [?|Hb]%Hdirty; [done|]. apply Ha. left. unfold partial_nodes. set_solver. }
      rewrite F2 by set_solver. unfold h1. by rewrite !lookup_insert_ne.
    + simpl. intros i Hi. by rewrite !lookup_insert_ne.
    + done.
Qed.

Lemma chunk_frame_weaken (C D : Z → Prop) s f k k' : chunk_frame C s f k k' → (∀ a, C a → D a) → chunk_frame D s f k k'.
Proof. intros [S H I O] HCD. split; try done. by eapply changed_weaken. Qed.

Lemma build_chunk_spec k slab s x partial full : slab_ok k slab s partial full → 0 ≤ x < 2 ^ 31 →
  x ∉ frames partial full → page_of (slab + off_partial) ≠ x → page_of (slab + off_full) ≠ x →
  wp (build_chunk slab (kva x)) (λ r k', r = 0 ∧
    slab_ok k' slab s ((x, first_objs s x (count s)) :: partial) full ∧
    chunk_frame (slab_nodes s slab (x :: frames partial full)) s x k k') k.
Proof.
  intros [Hsl Hs Hp Hf Hck Hne [Hnd Hpos] Hheads] Hx Hxn Hh1 Hh2. unfold build_chunk.
  pose proof (off_nonneg s Hs) as Hoff. pose proof (shape_fit _ Hs) as Hfit.
  wp_step. eapply wp_deref; [exact Hsl|].
  assert (u64 (kva x + info_off s) = info_at s x) as ->.
  { unfold u64, info_at. apply Z.mod_small. unfold kva, PAGE_SIZE, KERNEL_VMA, sizeof_slab_info in *. lia. }
  change (info_at s x + off_info_node) with (node_at s x). change (info_at s x + off_info_free) with (free_at s x).
  pose proof (new_footer_spec k slab s x partial.*1 Hs ltac:(lia) ltac:(unfold frames in Hxn; set_solver) Hh1 Hp) as Hstep.
  do 5 (apply wp_bind_inv in Hstep; wp_step; eapply wp_mono; [exact Hstep|]; cbv beta; clear Hstep; intros [] ? Hstep).
  wp_step. eapply wp_mono; [exact Hstep|]. cbv beta. clear Hstep. intros [] k1 (Hup1 & Hp1 & Hf1).
  wp_step. eapply wp_mono; [apply (init_objects_spec _ k1 slab s x 0); [done|lia|lia| |done]|].
  { pose proof (shape_count _ Hs). lia. }
  cbv beta. intros [] k2 [Hup2 Hf2]. wp_step. eapply wp_deref; [exact (ou_info _ _ _ _ _ Hup2)|].
  wp_step. apply wp_assert; [apply Z.eqb_refl|]. wp_step. split; [done|].
  assert (∀ a, partial_nodes s slab (x :: partial.*1) a → spine s slab (x :: frames partial full) a) as Hps.
  { intros a Ha. apply spine_nodes. unfold partial_nodes, frames in *. rewrite fmap_cons, fmap_app in *. set_solver. }
  assert (∀ a, spine s slab (x :: frames partial full) a → ¬ free_nodes s x a) as Hsf.
  { intros a Ha. by apply (spine_free s Hs slab (x :: frames partial full)). }
  assert (chunk_frame (slab_nodes s slab (x :: frames partial full)) s x k k2) as Hfr.
  { eapply chunk_frame_trans; eapply chunk_frame_weaken; [exact Hf1| |exact Hf2|].
    - intros a [Ha| ->]; [left; by apply Hps|right]. exists x. split; [left|by left].
    - intros a Ha. right. exists x. split; [left|done]. }
  split; [|done]. pose proof Hfr as [(h & I & O & Ek2) _ Hinf Hobj].
  assert (∀ a, ¬ free_nodes s x a → ¬ partial_nodes s slab (x :: partial.*1) a → heap (km k2) !! a = heap (km k) !! a) as Hsame.
  { intros a Ha1 Ha2. destruct (cf_heap _ _ _ _ _ Hf2) as [_ ->]; [|done].
    destruct (cf_heap _ _ _ _ _ Hf1) as [_ ->]; [done|]. intros [?| ->]; [done|]. apply Ha1. by left. }
  split.
  - by rewrite Ek2.
  - done.
  - apply (changed_dlist _ _ _ _ _ (cf_heap _ _ _ _ _ Hf2)); [|done]. intros a Ha. by apply Hsf, Hps.
  - apply (dlist_agree (heap (km k))); [|done]. intros a Ha.
    assert (spine s slab (x :: frames partial full) a) as Hsp.
    { apply spine_nodes. unfold frames. rewrite fmap_cons, fmap_app. set_solver. }
    apply Hsame; [by apply Hsf|]. intros [->|(f & -> & Hff)%list_elem_of_fmap]%elem_of_cons.
    + apply elem_of_cons in Ha as [E|(f & E & Hff)%list_elem_of_fmap]; [unfold off_full, off_partial in E; lia|].
      destruct (Hheads f); [unfold frames; set_solver|]. by rewrite E, page_node in *.
    + apply elem_of_cons in Ha as [E|(f' & E & Hff')%list_elem_of_fmap].
      * assert (page_of (slab + off_full) = f) as Ep by (rewrite <-E; by apply page_node). revert Ep.
        apply elem_of_cons in Hff as [->|Hff]; [done|]. apply Hheads. unfold frames. set_solver.
      * assert (f = f') as <- by (rewrite <-(page_node s Hs f), E; by apply page_node).
        apply elem_of_cons in Hff as [->|Hff]; [apply Hxn; unfold frames; set_solver|].
        apply NoDup_app in Hnd as (_ & Hd & _). by apply (Hd f).
  - intros c Hc. unfold chunks in Hc. simpl in Hc. apply elem_of_cons in Hc as [->|Hc].
    + split; simpl.
      * rewrite length_first_objs by (pose proof (shape_count _ Hs); lia). exact (ou_info _ _ _ _ _ Hup2).
      * exact (ou_free _ _ _ _ _ Hup2).
      * intros o. by rewrite first_objs_all.
      * intros o Ho. apply (ou_objs _ _ _ _ _ Hup2). by rewrite first_objs_all.
      * intros o Ho. eapply dlist_dom; [exact (ou_free _ _ _ _ _ Hup2)|]. right. by rewrite first_objs_all.
    + assert (c.1 ∈ frames partial full) as Hcf by (by apply chunks_frames). assert (c.1 ≠ x) by (by intros E; rewrite E in Hcf).
      destruct (Hheads _ Hcf) as [Hhp Hhf]. apply (chunk_ok_agree k); [by apply Hck| | |].
      * apply Hinf. by intros ?%info_inj.
      * intros a Ha. apply Hsame; [by apply (free_disjoint s Hs c.1)|].
        intros Hpn%Hps. by apply (spine_free s Hs slab _ c.1 a Hhp Hhf Hpn).
      * intros o Ho. apply Hobj. intros Ho'. by apply (free_disjoint s Hs c.1 x o); [|right|right].
  - intros c [->|Hc]%elem_of_cons; [|by apply Hne]. cbn [snd]. intros E.
    pose proof (length_first_objs s x (count s) ltac:(pose proof (shape_count _ Hs); lia)) as El. rewrite E in El.
    pose proof (shape_count _ Hs). simpl in El. lia.
  - unfold frames. simpl. split; [by apply NoDup_cons|]. intros f [->|Hff]%elem_of_cons; [lia|by apply Hpos].
  - intros f [->|Hff]%elem_of_cons; [done|by apply Hheads].
Qed.
End build.

(** The invariant of one allocator survives changes of other list nodes. *)
Lemma slab_ok_agree k m slab s partial full : slab_ok k slab s partial full →
  (∀ a, (∃ f, f ∈ frames partial full ∧ (a = node_at s f ∨ free_nodes s f a)) ∨ a = slab + off_partial ∨ a = slab + off_full →
    heap m !! a = heap (km k) !! a) → slab_ok (set_km m k) slab s partial full.
Proof.
  intros [Hsl Hs Hp Hf Hck Hne Hfr Hh] Ha. unfold frames in Ha. split; try done.
  - apply (dlist_agree (heap (km k))); [|done]. intros a [->|(f & -> & Hff)%list_elem_of_fmap]%elem_of_cons; apply Ha; [tauto|].
    left. exists f. set_solver.
  - apply (dlist_agree (heap (km k))); [|done]. intros a [->|(f & -> & Hff)%list_elem_of_fmap]%elem_of_cons; apply Ha; [tauto|].
    left. exists f. set_solver.
  - intros c Hc. apply (chunk_ok_agree k); [by apply Hck|done| |done]. intros a Hfa. apply Ha. left. exists c.1.
    split; [by apply chunks_frames in Hc|by right].
Qed.

(** ** The allocator with the frame allocator below it *)

Section system.
Context `{Layout} (base n : Z) (L : layout_ok base n).
Implicit Types (k : kernel) (s : Kernel.slab) (g : blocks).

Record slab_sys k g slab s (partial : list chunk) (full : list Z) : Prop := {
  ss_ok : slab_ok k slab s partial full;
  ss_buddy : buddy_inv base n (km k) g;
  ss_frames f : f ∈ frames partial full →
    0 ≤ f < n ∧ ¬ free_frame g f ∧ pp_ref <$> infos (km k) !! pg base f = Some 0;
  (** no list node of the frame allocator is in a page that is free or a slab *)
  ss_apart a : page_of a ∈ frames partial full ∨ free_frame g (page_of a) ∨
    a = slab + off_partial ∨ a = slab + off_full → ¬ buddy_addr base n a;
  ss_heads : ¬ free_frame g (page_of (slab + off_partial)) ∧ ¬ free_frame g (page_of (slab + off_full));
}.

(** What an operation leaves alone that adds the slabs [new] to [fs]. *)
Record slab_kept s slab g (fs new : list Z) k k' : Prop := {
  sk_state : ∃ m I O, k' = set_kslab_objs O (set_kslab_infos I (set_km m k));
  sk_pages j : 0 ≤ j < n → ¬ free_frame g j → infos (km k') !! pg base j = infos (km k) !! pg base j;
  sk_phys j : j ∉ new → phys (km k') !! j = phys (km k) !! j;
  sk_zero a p : infos (km k') !! a = Some p → pp_zero p = 0 ∨ pp_zero <$> infos (km k) !! a = Some (pp_zero p);
  sk_heap : changed (λ a, slab_nodes s slab (new ++ fs) a ∨ (new ≠ [] ∧ buddy_addr base n a)) (heap (km k)) (heap (km k'));
  sk_infos i : (∀ f, f ∈ new ++ fs → i ≠ info_at s f) → kslab_infos k' !! i = kslab_infos k !! i;
  sk_objs o : (∀ f, f ∈ new → o ∉ objs_at s f) → kslab_objs k' !! o = kslab_objs k !! o;
}.

Lemma slab_frame_kept s slab g fs k k' : slab_frame s slab fs k k' → slab_kept s slab g fs [] k k'.
Proof.
  intros [(h & I & ->) Hh Hi]. split; try done.
  - exists (set_heap h (km k)), I, (kslab_objs k). by destruct k.
  - simpl. intros a p ->. by right.
  - eapply changed_weaken; [exact Hh|]. by left.
Qed.

Lemma slab_kept_trans s slab g fs new k k1 k2 : slab_kept s slab g fs new k k1 → slab_frame s slab (new ++ fs) k1 k2 →
  slab_kept s slab g fs new k k2.
Proof.
  intros [(m & I & O & ->) P Ph Hz Hh Hi Ho] [(h2 & I2 & ->) Hh2 Hi2]. split; try done.
  - by exists (set_heap h2 m), I2, O.
  - eapply changed_trans; [exact Hh|]. eapply changed_weaken; [exact Hh2|]. by left.
  - intros i Hii. rewrite Hi2, Hi by done. done.
Qed.

(** The slab allocator's own nodes, spine and free lists, are not the frame
    allocator's. *)
Lemma nodes_apart k g slab s partial full a : slab_sys k g slab s partial full →
  (∃ f, f ∈ frames partial full ∧ (a = node_at s f ∨ free_nodes s f a)) ∨ a = slab + off_partial ∨ a = slab + off_full →
  ¬ buddy_addr base n a.
Proof.
  intros [Hok _ _ Hap _] Ha. pose proof (so_shape _ _ _ _ _ Hok) as Hs. apply Hap.
  destruct Ha as [(f & Hf & [->|Ha])|Ha]; [left; by rewrite page_node|left|tauto].
  by rewrite (page_free_nodes s Hs f a Ha).
Qed.

Lemma slab_alloc_chunk_spec k g slab s partial full : slab_sys k g slab s partial full → g ≠ ∅ →
  wp (slab_alloc_chunk slab) (λ r k', r = 0 ∧ ∃ x g', free_frame g x ∧
    (∀ j, free_frame g' j ↔ free_frame g j ∧ j ≠ x) ∧
    slab_sys k' g' slab s ((x, first_objs s x (count s)) :: partial) full ∧
    slab_kept s slab g (frames partial full) [x] k k') k.
Proof.
  intros Hsys Hg. pose proof Hsys as [Hok Hb Hfr Hap [Hh1 Hh2]]. pose proof (layout_npages base n L) as Hn31.
  unfold slab_alloc_chunk. wp_step. apply wp_zoom. eapply wp_mono; [by apply (page_alloc_spec base n L)|]. cbv beta.
  intros r m (x & g' & -> & Hx & Hb' & Hff & [Ki Kp Kh Kz _ _] & Hcl & _).
  assert (0 ≤ x < n) as Hxr by (eapply free_frame_range; [apply Hb|done]).
  pose proof (pg_pos base n L x ltac:(lia)) as Hpos.
  rewrite (proj2 (Z.eqb_neq _ _)) by (unfold NULL; lia).
  destruct (used_info base n (km k) g x Hb Hxr) as [p0 Hp0]. destruct (used_info base n m g' x Hb' Hxr) as [p Hp].
  assert (pp_ref p = 0) as Href.
  { rewrite Hp, Hp0 in Hcl. injection Hcl as -> _ _. by eapply (inv_free_refs _ _ _ _ Hb). }
  wp_step. apply wp_zoom. eapply wp_page_get; [exact Hp|]. wp_step. apply wp_assert; [by rewrite Href|].
  wp_step. apply wp_zoom. apply (wp_page2kva base n); [apply Hb'|apply Hb'|done|lia|].
  change (x * PAGE_SIZE + KERNEL_VMA) with (kva x).
  change (set_km m (set_km m (set_km m k))) with (set_km m k).
  assert (slab_ok (set_km m k) slab s partial full) as Hok1.
  { apply (slab_ok_agree k); [done|]. intros a Ha. destruct Kh as [_ Kh]. apply Kh. by apply (nodes_apart k g slab s partial full). }
  assert (x ∉ frames partial full) as Hxn by (intros Hin; by destruct (Hfr x Hin) as (_ & ? & _)).
  eapply wp_mono; [apply (build_chunk_spec (set_km m k) slab s x partial full); [done|lia|done|by intros E; rewrite E in Hh1|by intros E; rewrite E in Hh2]|].
  cbv beta. intros r k2 (-> & Hok2 & [(h & I & O & Ek2) Hch Hinf Hobj]). split; [done|]. exists x, g'.
  split; [done|]. split; [done|].
  assert (km k2 = set_heap h m) as Ekm by (by rewrite Ek2). simpl in Hch, Hinf, Hobj.
  pose proof (so_shape _ _ _ _ _ Hok) as Hs.
  assert (∀ a, slab_nodes s slab (x :: frames partial full) a → ¬ buddy_addr base n a) as Hna.
  { intros a [[->|[->|(f & Hf & ->)]]|(f & Hf & Ha)]; apply Hap; [tauto|tauto| |].
    - rewrite page_node by done. apply elem_of_cons in Hf as [->|Hf]; tauto.
    - rewrite (page_free_nodes s Hs f a Ha). apply elem_of_cons in Hf as [->|Hf]; tauto. }
  split.
  - split; [done| | | |].
    + rewrite Ekm. apply buddy_inv_agree; [|done]. intros a Ha. destruct Hch as [_ Hch]. rewrite <-(Hch a), Ekm; [done|].
      intros Hsn. by apply (Hna a).
    + intros f [->|Hf]%elem_of_cons.
      * split; [done|]. rewrite Hff, Ekm. simpl. rewrite Hp. simpl. rewrite Href. split; [tauto|done].
      * destruct (Hfr f Hf) as (Hf1 & Hf2 & Hf3). split; [done|]. rewrite Hff, Ekm. simpl.
        rewrite Ki by (try done; intros ->; tauto). split; [tauto|done].
    + intros a Ha. apply Hap. unfold frames in Ha. simpl in Ha. rewrite elem_of_cons, Hff in Ha.
      destruct Ha as [[E|Ha]|[Ha|Ha]]; [right; left; by rewrite E|by left|tauto|tauto].
    + rewrite !Hff. tauto.
  - split.
    + exists (set_heap h m), I, O. done.
    + intros j Hj Hnj. rewrite Ekm. simpl. apply Ki; [done|done|]. by intros ->.
    + intros j Hj. rewrite Ekm. simpl. apply Kp. set_solver.
    + rewrite Ekm. simpl. exact Kz.
    + eapply (changed_trans _ _ (heap m)).
      * destruct Kh as [D Kh]. split; [by rewrite D|]. intros a Ha. apply Kh. intros Hba. apply Ha. by right.
      * eapply changed_weaken; [exact Hch|]. by left.
    + intros i Hi. apply Hinf. apply Hi. left.
    + intros o Ho. apply Hobj. apply Ho. left.
Qed.

(** Operations within the allocator keep the frame allocator's invariant. *)
Lemma slab_sys_frame k k' g slab s partial full P F : slab_sys k g slab s partial full → slab_ok k' slab s P F →
  slab_frame s slab (frames partial full) k k' → (∀ y, y ∈ frames P F ↔ y ∈ frames partial full) →
  slab_sys k' g slab s P F.
Proof.
  intros Hsys Hok' [(h & I & ->) Hch _] Hfs. pose proof Hsys as [Hok Hb Hfr Hap Hh]. split; [done| | | |done].
  - simpl. apply buddy_inv_agree; [|done]. intros a Ha. destruct Hch as [_ Hch]. apply Hch. intros Hsn.
    revert Ha. apply (nodes_apart k g slab s partial full); [done|].
    destruct Hsn as [[->|[->|(f' & Hf' & ->)]]|(f' & Hf' & Ha)]; [tauto|tauto| |]; left; exists f'; tauto.
  - intros y Hy%Hfs. by apply Hfr.
  - intros a. rewrite Hfs. apply Hap.
Qed.

Lemma slab_alloc_spec k g slab s partial full : slab_sys k g slab s partial full → (partial = [] → g ≠ ∅) →
  wp (slab_alloc slab) (λ r k', ∃ f o free ps new g', r = o + sizeof_slab_obj ∧
    (new = [] ∧ partial = (f, o :: free) :: ps ∨
     new = [f] ∧ partial = [] ∧ ps = [] ∧ free_frame g f ∧ o :: free = first_objs s f (count s)) ∧
    slab_sys k' g' slab s (taken f free ps full).1 (taken f free ps full).2 ∧
    (∀ j, free_frame g' j ↔ free_frame g j ∧ j ∉ new) ∧
    slab_kept s slab g (frames partial full) new k k') k.
Proof.
  assert (∀ k1 g1 f o free ps, slab_sys k1 g1 slab s ((f, o :: free) :: ps) full →
    wp (take_first slab) (λ r k', r = o + sizeof_slab_obj ∧
      slab_sys k' g1 slab s (taken f free ps full).1 (taken f free ps full).2 ∧
      slab_frame s slab (f :: ps.*1 ++ full) k1 k') k1) as Htake.
  { intros k1 g1 f o free ps Hs1. eapply wp_mono; [by apply take_first_spec, (ss_ok _ _ _ _ _ _ Hs1)|].
    cbv beta. intros r k' (-> & Hok' & Hframe). split; [done|]. split; [|done].
    eapply slab_sys_frame; [done..|]. intros y. destruct free; unfold frames; simpl; set_solver. }
  intros Hsys Hg. pose proof Hsys as [Hok _ _ _ _]. unfold slab_alloc. wp_step. eapply wp_list_empty; [apply Hok|].
  destruct partial as [|[f [|o free]] ps].
  - rewrite bool_decide_eq_true_2 by done. wp_step. eapply wp_mono; [by apply slab_alloc_chunk_spec; auto|].
    cbv beta. intros r k1 (-> & x & g' & Hx & Hff & Hsys1 & Hk1). change (0 <? 0) with false. cbv iota.
    destruct (first_objs s x (count s)) as [|o free] eqn:Eo.
    { exfalso. by apply (so_nonempty _ _ _ _ _ (ss_ok _ _ _ _ _ _ Hsys1) (x, [])); [left|]. }
    eapply wp_mono; [by apply (Htake k1 g' x o free [])|]. cbv beta. intros r k2 (-> & Hsys2 & Hfr2).
    exists x, o, free, [], [x], g'. split; [done|]. split; [right; by split_and!|]. split; [done|].
    split; [intros j; rewrite Hff; set_solver|]. by eapply slab_kept_trans.
  - exfalso. by apply (so_nonempty _ _ _ _ _ Hok (f, [])); [left|].
  - rewrite bool_decide_eq_false_2 by done. wp_step. wp_step. change (0 <? 0) with false. cbv iota.
    eapply wp_mono; [by apply (Htake k g f o free ps)|]. cbv beta. intros r k2 (-> & Hsys2 & Hfr2).
    exists f, o, free, ps, [], g. split; [done|]. split; [by left|]. split; [done|].
    split; [intros j; set_solver|]. by apply slab_frame_kept.
Qed.
End system.
