(* ===== verification/SlabFree.v ===== *)
(** * Correctness of [slab_free]

    Giving an object back: its payload is cleared, it goes to the front of the
    free list of its slab, a full slab becomes a partial one, and a slab with
    no object in use is returned to the frame allocator. *)

From S2P Require Import Prelude LinkedList Paging Spinlock Buddy BuddyProofs RbTree Kernel PageWalk PageWalkProofs AddrSpace PageTable PageTableProofs PageRead Slab SlabProofs.

Local Open Scope Z_scope.

(** ** The payload *)

(** The bytes behind the header of the object [o]. *)
Definition payload (s : slab) (o a : Z) : Prop := o + sizeof_slab_obj ≤ a < o + obj_size s.

Lemma payload_apart s f o a : slab_shape s → o ∈ objs_at s f → payload s o a →
  page_of a = f ∧ (∀ f', ¬ free_nodes s f' a) ∧ ∀ f', a ≠ node_at s f'.
Proof.
  intros Hs (i & Hi & ->)%elem_of_objs Ha. pose proof (obj_bounds s Hs i Hi) as Hb.
  pose proof (shape_fit _ Hs) as Hfit. pose proof (shape_obj _ Hs) as Hsz.
  unfold payload, sizeof_slab_obj, sizeof_slab_info, obj_at in *.
  assert (page_of a = f) as Hp. { replace a with (kva f + (a - kva f)) by lia. apply in_page. lia. }
  split_and!; [done| |].
  - intros f' Hf'. assert (f' = f) as -> by (rewrite <-Hp; symmetry; by apply (page_free_nodes s Hs)).
    destruct Hf' as [->|(j & Hj & ->)%elem_of_objs].
    + unfold free_at, info_at, off_info_free in Ha. lia.
    + unfold obj_at in Ha. assert (i < j < i + 1) by nia. lia.
  - intros f' ->. rewrite page_node in Hp by done. subst f'. unfold node_at, info_at, off_info_node in Ha. lia.
Qed.

Lemma lookup_zero_in {A} p n (z : A) m a : zero_in p n z m !! a = (λ v, if in_range p n a then z else v) <$> m !! a.
Proof. unfold zero_in. rewrite map_lookup_imap. by destruct (m !! a). Qed.

(** Memory outside the payload of [o] is as it was. *)
Record payload_only (s : slab) (o : Z) (k k' : kernel) : Prop := {
  po_state : ∃ h b v t r, k' = set_krmaps r (set_ktasks t (set_kvmas v (set_krb b (set_km (set_heap h (km k)) k))));
  po_heap : changed (payload s o) (heap (km k)) (heap (km k'));
  po_nodes a : ¬ payload s o a → nodes (krb k') !! a = nodes (krb k) !! a;
  po_roots a : ¬ payload s o a → roots (krb k') !! a = roots (krb k) !! a;
  po_vmas a : ¬ payload s o a → kvmas k' !! a = kvmas k !! a;
  po_tasks a : ¬ payload s o a → ktasks k' !! a = ktasks k !! a;
  po_rmaps a : ¬ payload s o a → krmaps k' !! a = krmaps k !! a;
}.

Lemma zero_object_spec k s o : slab_shape s →
  wp (zero_object (o + sizeof_slab_obj) (u64 (obj_size s - sizeof_slab_obj))) (λ _ k', payload_only s o k k') k.
Proof.
  intros Hs. pose proof (shape_obj _ Hs) as H1. pose proof (shape_fit _ Hs) as H2. pose proof (shape_off _ Hs) as H3.
  pose proof (shape_count _ Hs) as H4.
  assert (u64 (obj_size s - sizeof_slab_obj) = obj_size s - sizeof_slab_obj) as ->.
  { unfold u64. apply Z.mod_small. unfold sizeof_slab_obj, sizeof_slab_info, PAGE_SIZE in *. nia. }
  assert (∀ {A} (z : A) m a, ¬ payload s o a →
    zero_in (o + sizeof_slab_obj) (obj_size s - sizeof_slab_obj) z m !! a = m !! a) as Hz.
  { intros A z m a Ha. rewrite lookup_zero_in. assert (in_range (o + sizeof_slab_obj) (obj_size s - sizeof_slab_obj) a = false) as ->.
    { unfold in_range, payload in *. lia. }
    by destruct (m !! a). }
  unfold zero_object. wp_step. wp_step. wp_step. wp_step. wp_step. wp_step. wp_step. wp_step. wp_step. simpl.
  split; try (intros a Ha; simpl; by apply Hz).
  - by eexists _, _, _, _, _.
  - split; [|intros a Ha; simpl; by apply Hz]. simpl. intros a. rewrite !elem_of_dom, lookup_zero_in, fmap_is_Some. done.
Qed.

(** An allocator does not notice that a payload is cleared. *)
Lemma slab_ok_payload k k' slab s f o partial full : slab_ok k slab s partial full → f ∈ frames partial full →
  o ∈ objs_at s f → payload_only s o k k' → slab_ok k' slab s partial full.
Proof.
  intros Hok Hf Ho [(h & b & v & t & r & ->) [_ Hh] _ _ _ _ _]. simpl in Hh.
  pose proof (so_shape _ _ _ _ _ Hok) as Hs.
  assert (slab_ok (set_km (set_heap h (km k)) k) slab s partial full) as Hok'.
  { apply (slab_ok_agree k); [done|]. intros a Ha. apply Hh. intros Hp.
    destruct (payload_apart s f o a Hs Ho Hp) as (Hpage & Hnf & Hnn). destruct (so_heads _ _ _ _ _ Hok f Hf).
    destruct Ha as [(f' & _ & [->|Ha])|[->| ->]]; [by apply (Hnn f')|by apply (Hnf f')|done|done]. }
  destruct Hok' as [? ? ? ? Hck ? ? ?]. split; try done. intros c Hc. by destruct (Hck c Hc).
Qed.

(** ** Giving an object back *)

Section put.
Implicit Types (k : kernel) (s : Kernel.slab).

Lemma put_object_spec k slab s f o free :
  chunk_ok k slab s (f, free) → slab_shape s → 0 ≤ f → o ∈ objs_at s f → o ∉ free →
  wp (on_list (list_add (free_at s f) o);; info_upd (info_at s f) (λ v, set_free_count (u64 (free_count v + 1)) v))
    (λ _ k', chunk_ok k' slab s (f, o :: free) ∧ ∃ h, changed (free_nodes s f) (heap (km k)) h ∧
      k' = with_lists h (<[info_at s f := SlabInfo slab (Z.of_nat (length (o :: free)))]> (kslab_infos k)) k) k.
Proof.
  intros Hc Hs Hf0 Ho Hof. pose proof Hc as [Hi Hf Hsub Hobj Hdom]. simpl in *.
  pose proof (free_length _ _ _ _ Hc Hs) as [Hlen Hcnt]. simpl in Hlen. unfold PAGE_SIZE in Hcnt.
  wp_step. apply wp_on_list. eapply wp_mono; [apply (list_add_spec _ _ _ o Hf); [by apply Hdom| |]|].
  { apply page_nonneg. by rewrite (page_obj s Hs f). }
  { intros [->|?]%elem_of_cons; [|done]. by destruct (node_not_obj s Hs f f) as (_ & ? & _). }
  simpl. intros [] h (Hd & Hfr). eapply wp_info_upd; [exact Hi|]. unfold set_free_count. cbn [si_slab free_count].
  replace (u64 (Z.of_nat (length free) + 1)) with (Z.of_nat (S (length free))) by (unfold u64; rewrite Z.mod_small; lia).
  split.
  - split; simpl; [apply lookup_insert_eq|done|set_solver|done|]. by rewrite (proj1 Hfr).
  - exists h. split; [|done]. apply (changed_frame _ _ _ _ Hfr). intros a Ha.
    assert (a = o ∨ a ∈ free_at s f :: free) as [->|Hin]; [|by right|by apply (ck_nodes k slab s (f, free))].
    pose proof (after_elem (free_at s f) free). set_solver.
Qed.

(** The second half of [slab_free], up to the release of the slab. *)
Definition give_back (slab info obj : Z) : M kernel unit :=
  empty ← on_list (list_is_empty (info + off_info_free));
  (if (empty : bool) then
     on_list (list_del (info + off_info_node));;
     on_list (list_add (slab + off_partial) (info + off_info_node))
   else mret tt);;
  on_list (list_add (info + off_info_free) obj);;
  info_upd info (λ v, set_free_count (u64 (free_count v + 1)) v).

(** Where the slab [f] is afterwards: at its place in the partial list, or at
    its front if it was full. *)
Inductive given f free (partial : list chunk) (full : list Z) : list chunk → list chunk → list Z → Prop :=
| given_partial p1 p2 : free ≠ [] → partial = p1 ++ (f, free) :: p2 → given f free partial full p1 p2 full
| given_full f1 f2 : free = [] → full = f1 ++ f :: f2 → given f free partial full [] partial (f1 ++ f2).

Lemma given_frames f free o partial full p1 p2 full' : given f free partial full p1 p2 full' →
  frames (p1 ++ (f, o) :: p2) full' ≡ₚ frames partial full.
Proof.
  intros [p1' p2' _ ->|f1 f2 _ ->]; unfold frames.
  - by rewrite !fmap_app.
  - simpl. solve_Permutation.
Qed.

Lemma given_chunks f free o partial full p1 p2 full' c : given f free partial full p1 p2 full' →
  NoDup (frames partial full) → c ∈ chunks (p1 ++ (f, o) :: p2) full' →
  c = (f, o) ∨ (c ∈ chunks partial full ∧ c.1 ≠ f).
Proof.
  intros Hg Hnd Hc. assert (c = (f, o) ∨ c ∈ chunks (p1 ++ p2) full') as [->|Hc'];
    [unfold chunks in *; set_solver|by left|right].
  assert (NoDup (f :: frames (p1 ++ p2) full')) as [Hf _]%NoDup_cons.
  { eapply NoDup_Permutation_proper; [|exact Hnd]. rewrite <-(given_frames _ _ o _ _ _ _ _ Hg). unfold frames.
    rewrite !fmap_app. simpl. solve_Permutation. }
  split; [|intros <-; by apply Hf, chunks_frames].
  destruct Hg as [p1 p2 _ ->|f1 f2 _ ->]; unfold chunks in *; [set_solver|]. rewrite !fmap_app in *. simpl. set_solver.
Qed.

(** A slab is in one of the two lists. *)
Lemma given_exists k slab s f free partial full : slab_ok k slab s partial full → (f, free) ∈ chunks partial full →
  ∃ p1 p2 full', given f free partial full p1 p2 full'.
Proof.
  intros Hok [Hc|(f' & E & Hf)%list_elem_of_fmap]%elem_of_app.
  - apply list_elem_of_split in Hc as (p1 & p2 & E). exists p1, p2, full. constructor; [|done].
    apply (so_nonempty _ _ _ _ _ Hok (f, free)). rewrite E. set_solver.
  - injection E as <- ->. apply list_elem_of_split in Hf as (f1 & f2 & E). exists [], partial, (f1 ++ f2). by constructor.
Qed.

(** The slab is, or becomes, a partial one. *)
Lemma ensure_partial_spec k slab s f free partial full p1 p2 full' : slab_ok k slab s partial full →
  given f free partial full p1 p2 full' →
  wp (if bool_decide (free = []) then on_list (list_del (node_at s f));; on_list (list_add (slab + off_partial) (node_at s f))
      else mret tt)
    (λ _ k', (∃ h, k' = set_km (set_heap h (km k)) k ∧ changed (spine s slab (frames partial full)) (heap (km k)) h) ∧
      dlist (heap (km k')) (slab + off_partial) (node_at s <$> p1.*1 ++ f :: p2.*1) ∧
      dlist (heap (km k')) (slab + off_full) (node_at s <$> full')) k.
Proof.
  intros Hok Hg. destruct (heads_outside _ _ _ _ _ Hok) as [Hh1 Hh2].
  destruct Hok as [_ Hs Hp Hf _ _ [Hnd _] _]. destruct Hg as [p1 p2 Hne ->|f1 f2 -> ->].
  - rewrite bool_decide_eq_false_2 by done. wp_step. rewrite fmap_app in Hp. split_and!; [|done|done].
    exists (heap (km k)). split; [destruct k as [m]; by destruct m|done].
  - rewrite bool_decide_eq_true_2 by done. unfold frames in *.
    assert (f :: (f1 ++ f2) ++ partial.*1 ≡ₚ partial.*1 ++ f1 ++ f :: f2) as HP by solve_Permutation.
    eapply wp_mono; [apply (move_spec k s (slab + off_full) (slab + off_partial) f f1 f2 partial.*1); try done|].
    + by rewrite HP.
    + by rewrite HP.
    + by rewrite HP.
    + unfold off_full, off_partial. lia.
    + cbv beta. intros [] k1 (h & -> & Hch & Hl1 & Hl2). split_and!; [|done|done]. exists h. split; [done|].
      eapply changed_weaken; [exact Hch|]. intros a [->|[->|(x & -> & Hx)%list_elem_of_fmap]%elem_of_cons]%elem_of_cons;
        [right; by left|by left|right; right]. exists x. by rewrite <-HP.
Qed.

Lemma give_back_spec k slab s f o free partial full p1 p2 full' : slab_ok k slab s partial full →
  given f free partial full p1 p2 full' → (f, free) ∈ chunks partial full → o ∈ objs_at s f → o ∉ free →
  wp (give_back slab (info_at s f) o) (λ _ k', slab_ok k' slab s (p1 ++ (f, o :: free) :: p2) full' ∧
    slab_frame s slab (frames partial full) k k') k.
Proof.
  intros Hok Hg Hc Ho Hof. pose proof Hok as [_ Hs _ _ Hck Hne [Hnd Hpos] Hheads].
  assert (f ∈ frames partial full) as Hfin by (by apply chunks_frames in Hc).
  unfold give_back. change (info_at s f + off_info_free) with (free_at s f). change (info_at s f + off_info_node) with (node_at s f).
  wp_step. eapply wp_list_empty; [exact (ck_free _ _ _ _ (Hck _ Hc))|]. cbn [snd].
  wp_step. eapply wp_mono; [by apply (ensure_partial_spec k slab s f free partial full p1 p2 full')|].
  cbv beta. intros [] k1 ((h1 & Ek1 & Hch1) & Hp1 & Hf1).
  assert (∀ c, c ∈ chunks partial full → chunk_ok k1 slab s c) as Hck1.
  { intros c Hcin. pose proof (chunks_frames _ _ _ Hcin) as Hcf. destruct (Hheads _ Hcf). subst k1.
    apply (chunks_spine k slab s (frames partial full)); [by apply Hck|done..]. }
  eapply wp_mono; [apply (put_object_spec k1 slab s f o free); [by apply Hck1|done|by apply Hpos|done|done]|].
  cbv beta. intros [] k2 (Hc2 & h2 & Hch2 & ->). destruct (Hheads f Hfin) as [Hhp Hhf].
  assert (∀ fs a, a ∈ (slab + off_partial) :: (slab + off_full) :: (node_at s <$> fs) → ¬ free_nodes s f a) as Hsp.
  { intros fs a Ha. apply (spine_free s Hs slab fs); [done..|]. by apply spine_nodes. }
  split.
  - eapply slab_ok_perm; [exact Hok|by subst k1| | | | |by eapply given_frames].
    + apply (changed_dlist _ _ _ _ _ Hch2); [intros a Ha; apply (Hsp (p1.*1 ++ f :: p2.*1)); set_solver|]. by rewrite fmap_app.
    + apply (changed_dlist _ _ _ _ _ Hch2); [|done]. intros a Ha. apply (Hsp full'). set_solver.
    + intros c Hcin. eapply given_chunks in Hcin as [->|[Hcin Hcf]]; [done| |exact Hg|done].
      apply chunks_other; [by apply Hck1|done..].
    + intros c Hcin. assert (c = (f, o :: free) ∨ c ∈ partial) as [->|Hcin']; [|done|by apply Hne].
      destruct Hg as [q1 q2 _ ->|f1 f2 _ ->]; set_solver.
  - subst k1. split.
    + by eexists _, _.
    + eapply changed_trans; eapply changed_weaken; [exact Hch1|by left|exact Hch2|]. intros a Ha. right. eauto.
    + simpl. intros i Hi. apply lookup_insert_ne. intros <-. by apply (Hi f).
Qed.
End put.

(** ** Releasing a slab *)

Section release.
Context `{Layout} (base n root : Z) (L : layout_ok base n).
Implicit Types (k : kernel) (s : Kernel.slab) (g : blocks) (T : tmap).

(** The page number of the frame [f] in the direct map. *)
Definition direct_page (f : Z) : Z := 2 ^ 52 - 2 ^ 35 + f.

(** The kernel's page table maps every frame at its place in the direct map. *)
Record direct_map k g T : Prop := {
  dm_space : space base n root k g T;
  dm_root : kernel_pml4 k = kva root;
  dm_frames f : 0 ≤ f < n → ∃ e, translate (phys (km k)) root (direct_page f) = Some e ∧ frame_of e = f;
}.

Lemma direct_map_same k k' g T : direct_map k g T → buddy_inv base n (km k') g → kernel_pml4 k' = kernel_pml4 k →
  phys (km k') = phys (km k) → infos (km k') = infos (km k) → direct_map k' g T.
Proof.
  intros [[_ Ht Hu Hr Hz] Hroot Hfr] Hb Ek Ep Ei. split.
  - split; rewrite ?Ep, ?Ei; done.
  - by rewrite Ek.
  - by rewrite Ep.
Qed.

Lemma lookup_frame k g T f : direct_map k g T → 0 ≤ f < n →
  page_lookup (kernel_pml4 k) (kva f) None k = OK (pg base f, None) k.
Proof.
  intros [Hs -> Hfr] Hf. destruct (Hfr f Hf) as (e & He & Ef). pose proof (layout_npages base n L) as Hn.
  assert (kva f = 4096 * direct_page f) as Eva by (unfold kva, direct_page, PAGE_SIZE, KERNEL_VMA; lia).
  assert (∀ l, translate (phys (km k)) root l = view T (phys (km k)) l) as Htv.
  { intros l. apply (translate_view n). apply Hs. }
  destruct (page_lookup_spec base n root L k g T (direct_page f) (direct_page f + 1) (kva f) None Hs) as (r & E & Hr).
  - right. unfold direct_page. lia.
  - lia.
  - unfold direct_page. lia.
  - rewrite Eva. apply rounddown_page. unfold direct_page. lia.
  - rewrite Eva, <-(roundup_page (direct_page f + 1)) by (unfold direct_page; lia). f_equal.
    rewrite u64_id; unfold PAGE_SIZE, direct_page; lia.
  - intros l e' Hl He'. assert (l = direct_page f) as -> by lia. rewrite <-Htv, He in He'. injection He' as <-. lia.
  - rewrite E. f_equal. destruct Hr as [[Hn' _]|(l & f' & e' & Hl & _ & He' & _ & ->)].
    + rewrite Htv, Hn' in He by lia. done.
    + assert (l = direct_page f) as -> by lia. rewrite <-Htv, He in He'. injection He' as <-. by rewrite Ef.
Qed.

(** What the release of the slab [f] changes. *)
Record released_frame s slab g (fs : list Z) (f : Z) k k' : Prop := {
  rf_state : ∃ m, k' = set_km m k;
  rf_pages j : 0 ≤ j < n → ¬ free_frame g j → j ≠ f → infos (km k') !! pg base j = infos (km k) !! pg base j;
  rf_phys : phys (km k') = phys (km k);
  rf_heap : changed (λ a, slab_nodes s slab fs a ∨ buddy_addr base n a) (heap (km k)) (heap (km k'));
}.

Lemma frames_middle f (free : list Z) (p1 p2 : list chunk) full :
  frames (p1 ++ (f, free) :: p2) full ≡ₚ f :: frames (p1 ++ p2) full.
Proof. unfold frames. rewrite !fmap_app. simpl. solve_Permutation. Qed.

(** Taking the slab [f] off the list of partial slabs. *)
Lemma unlink_slab k g slab s f free p1 p2 full h : slab_sys base n k g slab s (p1 ++ (f, free) :: p2) full →
  dlist h (slab + off_partial) (node_at s <$> (p1 ++ p2).*1) →
  changed (λ a, a ∈ slab + off_partial :: (node_at s <$> (p1 ++ (f, free) :: p2).*1)) (heap (km k)) h →
  slab_sys base n (set_km (set_heap h (km k)) k) g slab s (p1 ++ p2) full.
Proof.
  intros Hsys Hp Hch. pose proof Hsys as [Hok Hb Hfr Hap Hhd]. pose proof Hok as [Hsl Hs _ Hf Hck Hne [Hnd Hpos] Hheads].
  pose proof (frames_middle f free p1 p2 full) as HP. set (P := p1 ++ (f, free) :: p2) in *.
  assert (frames (p1 ++ p2) full ⊆ frames P full) as Hsub by (intros x Hx; rewrite HP; by right).
  assert (changed (spine s slab (frames P full)) (heap (km k)) h) as Hch'.
  { eapply changed_weaken; [exact Hch|]. intros a Ha. apply spine_nodes. unfold frames.
    rewrite fmap_app, !elem_of_cons, elem_of_app. apply elem_of_cons in Ha as [?|?]; tauto. }
  assert (∀ c, c ∈ chunks (p1 ++ p2) full → c ∈ chunks P full) as Hcs.
  { intros c. unfold chunks, P. rewrite !elem_of_app, elem_of_cons. tauto. }
  split.
  - apply (slab_ok_sub k _ slab s P full); try done.
    + apply (changed_dlist _ _ _ _ _ Hch); [|done]. intros a [->|(x & -> & Hx)%list_elem_of_fmap]%elem_of_cons.
      * intros [E|(y & E & Hy)%list_elem_of_fmap]%elem_of_cons; [unfold off_full, off_partial in E; lia|].
        destruct (Hheads y) as [_ Hh2]; [unfold frames; apply elem_of_app; by left|]. by rewrite E, page_node in Hh2.
      * intros [E|(y & E & Hy)%list_elem_of_fmap]%elem_of_cons.
        -- destruct (Hheads x) as [Hh1 _]; [unfold frames; apply elem_of_app; by right|]. by rewrite <-E, page_node in Hh1.
        -- assert (x = y) as -> by (rewrite <-(page_node s Hs x), E; by apply page_node).
           apply NoDup_app in Hnd as (_ & Hd & _). by apply (Hd y).
    + intros c Hc%Hcs. pose proof (chunks_frames _ _ _ Hc) as Hcf. destruct (Hheads _ Hcf).
      apply (chunks_spine k slab s (frames P full)); [by apply Hck|done..].
    + intros c Hc. apply Hne. unfold P. rewrite elem_of_app, elem_of_cons in *. tauto.
    + rewrite HP in Hnd. by apply NoDup_cons in Hnd as [_ ?].
  - apply buddy_inv_agree; [|done]. intros a Ha. destruct Hch' as [_ Hch']. apply Hch'. intros Hsp. revert Ha.
    apply (nodes_apart base n k g slab s P full); [done|]. destruct Hsp as [->|[->|(x & Hx & ->)]]; [tauto|tauto|]. left. eauto.
  - intros x Hx%Hsub. by apply Hfr.
  - intros a Ha. apply Hap. destruct Ha as [Ha%Hsub|Ha]; tauto.
  - done.
Qed.

(** The frame allocator takes the frame of a slab that has been unlinked. *)
Lemma return_slab k g g' slab s f partial full m : slab_sys base n k g slab s partial full →
  f ∉ frames partial full → page_of (slab + off_partial) ≠ f → page_of (slab + off_full) ≠ f →
  (∀ a, page_of a = f → ¬ buddy_addr base n a) → buddy_inv base n m g' → (∀ j, free_frame g' j ↔ free_frame g j ∨ j = f) →
  (∀ j, 0 ≤ j < n → ¬ free_frame g j → j ≠ f → infos m !! pg base j = infos (km k) !! pg base j) →
  (∀ a, ¬ buddy_addr base n a → heap m !! a = heap (km k) !! a) →
  slab_sys base n (set_km m k) g' slab s partial full.
Proof.
  intros Hsys Hfn H1 H2 Hfa Hb' Hff Ki Kh. pose proof Hsys as [Hok Hb Hfr Hap [Hh1 Hh2]]. split; [|done| | |].
  - apply (slab_ok_agree k); [done|]. intros a Ha. by apply Kh, (nodes_apart base n k g slab s partial full).
  - intros x Hx. destruct (Hfr x Hx) as (Hx1 & Hx2 & Hx3). assert (x ≠ f) by (by intros ->).
    rewrite Hff. cbn [km set_km]. rewrite Ki by done. tauto.
  - intros a Ha. destruct (decide (page_of a = f)) as [|Hne]; [by apply Hfa|]. apply Hap. rewrite Hff in Ha. tauto.
  - rewrite !Hff. tauto.
Qed.

Lemma slab_free_chunk_spec k g T slab s f free p1 p2 full : slab_sys base n k g slab s (p1 ++ (f, free) :: p2) full →
  direct_map k g T →
  wp (slab_free_chunk slab (info_at s f)) (λ _ k', ∃ g', slab_sys base n k' g' slab s (p1 ++ p2) full ∧
    (∀ j, free_frame g' j ↔ free_frame g j ∨ j = f) ∧
    released_frame s slab g (frames (p1 ++ (f, free) :: p2) full) f k k') k.
Proof.
  intros Hsys Hdm. pose proof Hsys as [Hok Hb Hfr Hap Hhd]. pose proof Hok as [Hsl Hs Hp Hf Hck Hne [Hnd Hpos] Hheads].
  pose proof (frames_middle f free p1 p2 full) as HP.
  assert (f ∈ frames (p1 ++ (f, free) :: p2) full) as Hfin by (rewrite HP; left).
  destruct (Hfr f Hfin) as (Hfn & Hfu & Href).
  unfold slab_free_chunk. wp_step. apply wp_on_list. change (info_at s f + off_info_node) with (node_at s f).
  rewrite !fmap_app, !fmap_cons in Hp.
  eapply wp_mono; [exact (list_del_changed _ _ _ _ _ Hp)|]. cbv beta. intros [] h1 (Hp1 & Hch1).
  rewrite <-fmap_cons, <-fmap_app, <-(fmap_cons fst), <-(fmap_app fst) in Hch1. rewrite <-!fmap_app in Hp1.
  set (k1 := set_km (set_heap h1 (km k)) k).
  assert (slab_sys base n k1 g slab s (p1 ++ p2) full) as Hsys1.
  { by apply (unlink_slab k g slab s f free). }
  assert (direct_map k1 g T) as Hdm1 by (apply (direct_map_same k); [done|apply Hsys1|done..]).
  wp_step. eapply wp_deref; [exact Hsl|]. wp_step. wp_step.
  assert (u64 (info_at s f - info_off s) = kva f) as ->.
  { pose proof (layout_npages base n L). unfold info_at, u64. rewrite Z.mod_small; [lia|]. unfold kva, PAGE_SIZE, KERNEL_VMA. lia. }
  wp_step. eapply wp_OK; [by apply (lookup_frame k1 g T)|]. cbv beta iota.
  pose proof (pg_pos base n L f ltac:(lia)) as Hpp. rewrite (proj2 (Z.eqb_neq _ _)) by (unfold NULL; lia).
  destruct (infos (km k) !! pg base f) as [p|] eqn:Epf; [|done]. injection Href as Href.
  apply wp_zoom. eapply wp_mono; [apply (page_free_spec base n L (km k1) g f p); [apply Hsys1|done..]|].
  cbv beta. intros [] m (g' & Hb' & Hff & [Ki _ Kh _ _ _] & Eph). exists g'.
  split; [|split; [done|]].
  - destruct (Hheads f Hfin). apply (return_slab k1 g g' slab s f); try done.
    + rewrite HP in Hnd. by apply NoDup_cons in Hnd as [? _].
    + intros a Ha. apply Hap. left. by rewrite Ha.
    + apply Kh.
  - split.
    + by exists m.
    + intros j ???. by rewrite <-Ki.
    + done.
    + apply (changed_trans _ _ h1).
      * eapply changed_weaken; [exact Hch1|]. intros a Ha. left. left. apply spine_nodes. unfold frames.
        rewrite fmap_app, !elem_of_cons, elem_of_app. apply elem_of_cons in Ha as [?|?]; tauto.
      * destruct Kh as [D Kh]. split; [cbn [km set_km]; by rewrite D|]. intros a Ha. apply Kh. tauto.
Qed.

(** ** [slab_free] *)

Lemma slab_sys_payload k k' g T slab s f o partial full : slab_sys base n k g slab s partial full →
  f ∈ frames partial full → o ∈ objs_at s f → payload_only s o k k' → direct_map k g T →
  slab_sys base n k' g slab s partial full ∧ direct_map k' g T.
Proof.
  intros Hsys Hf Ho Hpo Hdm. pose proof Hsys as [Hok Hb Hfr Hap Hhd].
  pose proof (slab_ok_payload _ _ _ _ _ _ _ _ Hok Hf Ho Hpo) as Hok'.
  pose proof Hpo as [(h & b & v & t & r & ->) [_ Hh] _ _ _ _ _]. simpl in Hh.
  assert (buddy_inv base n (set_heap h (km k)) g) as Hb'.
  { apply buddy_inv_agree; [|done]. intros a Ha. apply Hh. intros Hp. revert Ha. apply Hap. left.
    by destruct (payload_apart s f o a (so_shape _ _ _ _ _ Hok) Ho Hp) as [-> _]. }
  split; [by split|]. by apply (direct_map_same k).
Qed.

(** What [slab_free] of the object [o] in the slab [f] leaves alone. *)
Record free_kept s slab g (fs : list Z) (f o : Z) k k' : Prop := {
  fk_heap : changed (λ a, slab_nodes s slab fs a ∨ payload s o a ∨ buddy_addr base n a) (heap (km k)) (heap (km k'));
  fk_nodes a : ¬ payload s o a → nodes (krb k') !! a = nodes (krb k) !! a;
  fk_vmas a : ¬ payload s o a → kvmas k' !! a = kvmas k !! a;
  fk_tasks a : ¬ payload s o a → ktasks k' !! a = ktasks k !! a;
  fk_pages j : 0 ≤ j < n → ¬ free_frame g j → j ≠ f → infos (km k') !! pg base j = infos (km k) !! pg base j;
  fk_phys : phys (km k') = phys (km k);
  fk_infos i : (∀ f, f ∈ fs → i ≠ info_at s f) → kslab_infos k' !! i = kslab_infos k !! i;
  fk_objs : kslab_objs k' = kslab_objs k;
}.

Lemma free_kept_intro s slab g fs fs' f o k k1 k2 k3 : payload_only s o k k1 → slab_frame s slab fs k1 k2 →
  (∀ y, y ∈ fs' → y ∈ fs) → k3 = k2 ∨ released_frame s slab g fs' f k2 k3 → free_kept s slab g fs f o k k3.
Proof.
  intros [(h & b & v & t & r & ->) Hh1 Hn _ Hv Ht _] [(h2 & I & ->) Hh2 Hi] Hfs H3.
  assert (changed (λ a, slab_nodes s slab fs a ∨ payload s o a ∨ buddy_addr base n a) (heap (km k)) h2) as Hh.
  { eapply changed_trans; (eapply changed_weaken; [eassumption|]); intros a Ha; simpl; tauto. }
  destruct H3 as [->|[(m & ->) Hp3 Hph3 Hh3]].
  - split; done.
  - split; try done. eapply changed_trans; [exact Hh|]. eapply changed_weaken; [exact Hh3|].
    intros a [[[?|[?|(x & Hx & ?)]]|(x & Hx & ?)]|?]; [left; left; by left|left; left; right; by left| | |tauto].
    + left. left. right. right. eauto.
    + left. right. eauto.
Qed.

Lemma slab_free_spec k g T slab s f o free partial full : slab_sys base n k g slab s partial full → direct_map k g T →
  (f, free) ∈ chunks partial full → o ∈ objs_at s f → o ∉ free →
  wp (slab_free (o + sizeof_slab_obj)) (λ _ k', ∃ p1 p2 full', given f free partial full p1 p2 full' ∧
    free_kept s slab g (frames partial full) f o k k' ∧
    if Z.of_nat (S (length free)) <? count s then slab_sys base n k' g slab s (p1 ++ (f, o :: free) :: p2) full'
    else ∃ g', slab_sys base n k' g' slab s (p1 ++ p2) full' ∧ ∀ j, free_frame g' j ↔ free_frame g j ∨ j = f) k.
Proof.
  intros Hsys Hdm Hc Ho Hof. pose proof (ss_ok _ _ _ _ _ _ _ _ Hsys) as Hok.
  pose proof (so_shape _ _ _ _ _ Hok) as Hs. pose proof (so_chunks _ _ _ _ _ Hok _ Hc) as Hck.
  assert (f ∈ frames partial full) as Hf by (by apply chunks_frames in Hc).
  destruct (given_exists _ _ _ _ _ _ _ Hok Hc) as (p1 & p2 & full' & Hg).
  unfold slab_free. replace (o + sizeof_slab_obj - sizeof_slab_obj) with o by lia.
  wp_step. eapply wp_deref; [exact (ck_objs _ _ _ _ Hck o Ho)|]. cbn [fst].
  wp_step. eapply wp_deref; [exact (ck_info _ _ _ _ Hck)|]. cbn [si_slab].
  wp_step. eapply wp_deref; [exact (so_slab _ _ _ _ _ Hok)|].
  wp_step. eapply wp_mono; [by apply zero_object_spec|]. cbv beta. intros [] k1 Hpo.
  destruct (slab_sys_payload _ _ _ _ _ _ _ _ _ _ Hsys Hf Ho Hpo Hdm) as [Hsys1 Hdm1].
  pose proof (give_back_spec k1 slab s f o free partial full p1 p2 full' (ss_ok _ _ _ _ _ _ _ _ Hsys1) Hg Hc Ho Hof) as Hgive.
  unfold give_back in Hgive.
  apply wp_bind_inv in Hgive. wp_step. eapply wp_mono; [exact Hgive|]. cbv beta. clear Hgive. intros b ? Hgive.
  do 2 (apply wp_bind_inv in Hgive; wp_step; eapply wp_mono; [exact Hgive|]; cbv beta; clear Hgive; intros [] ? Hgive).
  wp_step. eapply wp_mono; [exact Hgive|]. cbv beta. clear Hgive. intros [] k2 [Hok2 Hfr2].
  assert (slab_sys base n k2 g slab s (p1 ++ (f, o :: free) :: p2) full') as Hsys2.
  { eapply slab_sys_frame; [exact Hsys1|done|done|]. intros y. by rewrite (given_frames _ _ _ _ _ _ _ _ Hg). }
  assert (chunk_ok k2 slab s (f, o :: free)) as Hck2.
  { apply (so_chunks _ _ _ _ _ Hok2). unfold chunks. set_solver. }
  wp_step. eapply wp_deref; [exact (ck_info _ _ _ _ Hck2)|]. cbn [free_count snd length].
  destruct (Z.of_nat (S (length free)) <? count s) eqn:E.
  - apply Z.ltb_lt in E. rewrite (proj2 (Z.leb_gt _ _)) by done. wp_step. exists p1, p2, full'. split; [done|].
    split; [|done]. eapply (free_kept_intro s slab g _ (frames partial full)); [done|done|done|by left].
  - apply Z.ltb_ge in E. rewrite (proj2 (Z.leb_le _ _)) by done.
    assert (direct_map k2 g T) as Hdm2.
    { destruct Hfr2 as [(h & I & Ek2) _ _]. apply (direct_map_same k1); [done|apply Hsys2|..]; by subst k2. }
    eapply wp_mono; [by apply (slab_free_chunk_spec k2 g T slab s f (o :: free))|].
    cbv beta. intros [] k3 (g' & Hsys3 & Hff & Hrf). exists p1, p2, full'. split; [done|]. split; [|by exists g'].
    eapply free_kept_intro; [done|done| |right; exact Hrf]. intros y. by rewrite (given_frames _ _ _ _ _ _ _ _ Hg).
Qed.
End release.
