(* ===== verification/SlabSpec.v ===== *)
(** * [kmalloc] and [kfree]: the properties

    [kmem_init] sets up 32 allocators, for objects of 32, 64, ..., 1024 bytes.
    An object is live from the [kmalloc] that returned it to its [kfree]:
    [kmalloc] returns memory that no live object uses, [kfree] makes it
    available again and nothing else changes hands. *)

From S2P Require Import Prelude LinkedList Paging Spinlock Buddy BuddyProofs MemInit BuddySpec RbTree Kernel PageWalk PageWalkProofs AddrSpace PageTable PageTableProofs PageMap PageRead PageUnmap PageTableSpec Slab SlabProofs SlabFree.

Local Open Scope Z_scope.

(** ** [kmem_init] *)

(** The allocator number [i] after [slab_setup]. *)
Definition slab_for (i : Z) : slab :=
  let size := ROUNDUP (u64 ((i + 1) * SLAB_ALIGN + sizeof_slab_obj)) 32 in
  let c := (PAGE_SIZE - sizeof_slab_info) / size in
  Slab (u64 (size * c)) size c.

Lemma slab_for_shape i : 0 ≤ i < 32 →
  slab_shape (slab_for i) ∧ (i + 1) * 32 + sizeof_slab_obj ≤ obj_size (slab_for i) ∧ 3 ≤ count (slab_for i).
Proof.
  intros Hi. assert (Forall (λ i, sizeof_slab_obj < obj_size (slab_for i) ∧ 3 ≤ count (slab_for i) ∧
    info_off (slab_for i) = obj_size (slab_for i) * count (slab_for i) ∧
    info_off (slab_for i) + sizeof_slab_info ≤ PAGE_SIZE ∧ (i + 1) * 32 + sizeof_slab_obj ≤ obj_size (slab_for i)) (seqZ 0 32)) as Hall.
  { apply (bool_decide_unpack _). by vm_compute. }
  rewrite Forall_forall in Hall. destruct (Hall i) as (? & ? & ? & ? & ?); [apply elem_of_seqZ; lia|].
  split; [split; [done|lia|done|done]|done].
Qed.

Section init.
Implicit Types (k : kernel).

(** The struct of the allocator number [i] of an array at [A]. *)
Definition slab_addr (A i : Z) : Z := A + i * sizeof_slab.

Record slab_memory k (A i : Z) : Prop := {
  sm_slab : slab_addr A i ∈ dom (kslabs k);
  sm_partial : slab_addr A i + off_partial ∈ dom (heap (km k));
  sm_full : slab_addr A i + off_full ∈ dom (heap (km k));
  sm_nonnull : slab_addr A i + off_partial ≠ NULL ∧ slab_addr A i + off_full ≠ NULL;
}.

(** An allocator without slabs. *)
Record empty_slab k (A i : Z) : Prop := {
  es_slab : kslabs k !! slab_addr A i = Some (slab_for i);
  es_partial : dlist (heap (km k)) (slab_addr A i + off_partial) [];
  es_full : dlist (heap (km k)) (slab_addr A i + off_full) [];
}.

Lemma empty_slab_ok k A i : 0 ≤ i < 32 → empty_slab k A i → slab_ok k (slab_addr A i) (slab_for i) [] [].
Proof.
  intros Hi [Hs Hp Hf]. split; [done|by apply slab_for_shape|done|done|by intros ? ?%not_elem_of_nil..| |by intros ? ?%not_elem_of_nil].
  split; [constructor|by intros ? ?%not_elem_of_nil].
Qed.

(** List heads of the allocators. *)
Definition slab_heads (A a : Z) : Prop := ∃ i, 0 ≤ i < 32 ∧ (a = slab_addr A i + off_partial ∨ a = slab_addr A i + off_full).

(** What setting up allocators changes. *)
Definition only_slabs (A : Z) k k' : Prop :=
  (∃ h S, k' = set_kslabs S (set_km (set_heap h (km k)) k)) ∧ changed (slab_heads A) (heap (km k)) (heap (km k')) ∧
  dom (kslabs k) ⊆ dom (kslabs k').

Lemma only_slabs_trans A k1 k2 k3 : only_slabs A k1 k2 → only_slabs A k2 k3 → only_slabs A k1 k3.
Proof.
  intros ((h2 & S2 & ->) & H2 & D2) ((h3 & S3 & ->) & H3 & D3). split; [by exists h3, S3|].
  split; [by eapply changed_trans|set_solver].
Qed.

Lemma slab_setup_spec k A i : 0 ≤ i < 32 → slab_memory k A i →
  wp (slab_setup (slab_addr A i) ((i + 1) * SLAB_ALIGN)) (λ _ k', empty_slab k' A i ∧ only_slabs A k k' ∧
    ∀ j, i ≠ j → empty_slab k A j → empty_slab k' A j) k.
Proof.
  intros Hi [[s0 Hs]%elem_of_dom Hp Hf [Hnp Hnf]]. unfold slab_setup. wp_step. eapply wp_deref; [exact Hs|].
  wp_step. wp_step. change (Slab _ _ _) with (slab_for i).
  wp_step. apply wp_on_list. simpl. eapply wp_mono; [by apply list_init_spec|]. cbv beta. intros [] h1 [Hd1 Hf1].
  apply wp_on_list. simpl. eapply wp_mono; [apply list_init_spec; [by rewrite (proj1 Hf1)|done]|].
  cbv beta. intros [] h2 [Hd2 Hf2].
  assert (slab_addr A i + off_full ≠ slab_addr A i + off_partial) as Hne by (unfold off_full, off_partial; lia).
  split_and!.
  - split; simpl; [apply lookup_insert_eq|done|]. apply (dlist_frame _ _ _ _ _ Hf2); [|done]. set_solver.
  - split; [by eexists _, _|]. split; simpl; [|set_solver]. apply (changed_trans _ _ h1).
    + apply (changed_frame _ _ _ _ Hf1). intros a ->%list_elem_of_singleton. exists i. tauto.
    + apply (changed_frame _ _ _ _ Hf2). intros a ->%list_elem_of_singleton. exists i. tauto.
  - intros j Hj [Js Jp Jf].
    assert (∀ a, a = slab_addr A j + off_partial ∨ a = slab_addr A j + off_full →
      a ≠ slab_addr A i + off_partial ∧ a ≠ slab_addr A i + off_full) as Hap.
    { unfold slab_addr, sizeof_slab, off_partial, off_full. intros a Ha. lia. }
    assert (∀ a, a = slab_addr A j + off_partial ∨ a = slab_addr A j + off_full → h2 !! a = heap (km k) !! a) as Hag.
    { intros a Ha. destruct (Hap a Ha). rewrite (proj2 Hf2), (proj2 Hf1) by set_solver. done. }
    split; simpl.
    + rewrite lookup_insert_ne; [done|]. unfold slab_addr, sizeof_slab. lia.
    + apply (dlist_agree (heap (km k))); [|done]. intros a ->%list_elem_of_singleton. auto.
    + apply (dlist_agree (heap (km k))); [|done]. intros a ->%list_elem_of_singleton. auto.
Qed.

Lemma slab_memory_kept A k k' i : only_slabs A k k' → slab_memory k A i → slab_memory k' A i.
Proof. intros ((h & S & ->) & [D _] & DS) [? ? ? ?]. split; [by apply DS|by apply D|by apply D|done]. Qed.

Lemma setup_slabs_spec m : ∀ k A c i, kcpus k !! this_cpu (km k) = Some c → kmem_slabs c = A →
  0 ≤ i → i + Z.of_nat m = 32 → (∀ j, 0 ≤ j < 32 → slab_memory k A j) → (∀ j, 0 ≤ j < i → empty_slab k A j) →
  wp (setup_slabs m i) (λ _ k', (∀ j, 0 ≤ j < 32 → empty_slab k' A j) ∧ only_slabs A k k') k.
Proof.
  induction m as [|m IH]; intros k A c i Hc HA Hi Em Hmem Hdone; cbn [setup_slabs].
  { wp_step. split; [intros j Hj; apply Hdone; lia|]. split; [|done]. exists (heap (km k)), (kslabs k).
    destruct k as [km0]. by destruct km0. }
  wp_step. unfold slabs, cpu_get. wp_step. eapply wp_deref; [exact Hc|]. wp_step. rewrite HA.
  change (A + i * sizeof_slab) with (slab_addr A i).
  wp_step. eapply wp_mono; [apply (slab_setup_spec k A i ltac:(lia)); apply Hmem; lia|].
  cbv beta. intros [] k1 (Hi1 & Hos & Hkeep).
  eapply wp_mono; [apply (IH k1 A c (i + 1))|]; [|done|lia|lia| | |].
  - destruct Hos as ((h & S & ->) & _). done.
  - intros j Hj. eapply slab_memory_kept; [exact Hos|]. by apply Hmem.
  - intros j Hj. destruct (decide (j = i)) as [->|]; [done|]. apply Hkeep; [done|]. apply Hdone. lia.
  - cbv beta. intros [] k2 [Hall Hos2]. split; [done|]. by eapply only_slabs_trans.
Qed.

Lemma kmem_init_spec k A c : kcpus k !! this_cpu (km k) = Some c → kmem_slabs c = A →
  (∀ j, 0 ≤ j < 32 → slab_memory k A j) →
  wp kmem_init (λ r k', r = 0 ∧ (∀ j, 0 ≤ j < 32 → empty_slab k' A j) ∧
    only_slabs A (set_kcpus (<[this_cpu (km k) := Cpu (cpu_task c) A 32 (cpu_id c) (runq_len c)]> (kcpus k)) k) k') k.
Proof.
  intros Hc HA Hmem. unfold kmem_init, set_nslabs, cpu_upd, set_kmem_nslabs, cpu_get. wp_step. wp_step. eapply wp_deref; [exact Hc|].
  wp_step. wp_step. wp_step. rewrite HA. set (k1 := set_kcpus _ k).
  assert (kcpus k1 !! this_cpu (km k1) = Some (Cpu (cpu_task c) A 32 (cpu_id c) (runq_len c))) as Hc1 by (apply lookup_insert_eq).
  wp_step. unfold nslabs, cpu_get. wp_step. eapply wp_deref; [exact Hc1|]. wp_step. cbn [kmem_nslabs].
  wp_step. eapply wp_mono; [apply (setup_slabs_spec _ k1 A (Cpu (cpu_task c) A 32 (cpu_id c) (runq_len c)) 0); [exact Hc1|done|lia|lia| |]|].
  - intros j Hj. destruct (Hmem j Hj). done.
  - intros j Hj. lia.
  - cbv beta. intros [] k2 [Hall Hos]. wp_step. done.
Qed.
End init.

(** ** Objects in use *)

(** The object [o] has been handed out. *)
Definition live (s : slab) (partial : list chunk) (full : list Z) (o : Z) : Prop :=
  ∃ c, c ∈ chunks partial full ∧ o ∈ objs_at s c.1 ∧ o ∉ c.2.

Lemma chunks_fst partial full : (chunks partial full).*1 = frames partial full.
Proof. unfold chunks, frames. rewrite fmap_app, <-list_fmap_compose. by rewrite list_fmap_id. Qed.

Lemma NoDup_fst_inj (l : list chunk) c c' : NoDup l.*1 → c ∈ l → c' ∈ l → c.1 = c'.1 → c = c'.
Proof.
  induction l as [|d l IH]; intros Hnd Hc Hc' E; [by apply not_elem_of_nil in Hc|].
  simpl in Hnd. apply NoDup_cons in Hnd as [Hd Hnd].
  apply elem_of_cons in Hc as [->|Hc], Hc' as [->|Hc']; [done| | |by apply IH].
  - exfalso. apply Hd. rewrite E. apply list_elem_of_fmap. eauto.
  - exfalso. apply Hd. rewrite <-E. apply list_elem_of_fmap. eauto.
Qed.

Section live.
Implicit Types (s : slab) (k : kernel).

(** An object lies in one slab. *)
Lemma object_chunk k slab s partial full c c' o : slab_ok k slab s partial full → c ∈ chunks partial full →
  c' ∈ chunks partial full → o ∈ objs_at s c.1 → o ∈ objs_at s c'.1 → c = c'.
Proof.
  intros Hok Hc Hc' Ho Ho'. pose proof (so_shape _ _ _ _ _ Hok) as Hs.
  apply (NoDup_fst_inj (chunks partial full)); [rewrite chunks_fst; apply Hok|done|done|].
  by rewrite <-(page_obj s Hs c.1 o), (page_obj s Hs c'.1 o).
Qed.

Lemma chunks_taken f free ps full c :
  c ∈ chunks (taken f free ps full).1 (taken f free ps full).2 ↔ c = (f, free) ∨ c ∈ chunks ps full.
Proof. unfold chunks. destruct free; simpl; rewrite !elem_of_cons || rewrite elem_of_app, elem_of_cons; rewrite !elem_of_app; tauto. Qed.

(** Handing out [o], the first free object of [f]. *)
Lemma live_taken s f o free ps full (C : list chunk) : slab_shape s → o ∈ objs_at s f → o ∉ free →
  (∀ o', o' ∈ objs_at s f → o' ∉ o :: free → ∃ c, c ∈ C ∧ o' ∈ objs_at s c.1 ∧ o' ∉ c.2) →
  (∀ c, c ∈ C → c ∈ chunks ps full ∨ c = (f, o :: free)) → (∀ c, c ∈ chunks ps full → c ∈ C) →
  ∀ o', live s (taken f free ps full).1 (taken f free ps full).2 o' ↔
    (∃ c, c ∈ C ∧ o' ∈ objs_at s c.1 ∧ o' ∉ c.2) ∨ o' = o.
Proof.
  intros Hs Ho Hof Hback HC HC' o'. unfold live. setoid_rewrite chunks_taken. split.
  - intros (c & [->|Hc] & Ho1 & Ho2); simpl in *; [|left; exists c; auto].
    destruct (decide (o' = o)) as [->|Hne]; [by right|left]. apply Hback; [done|]. by apply not_elem_of_cons.
  - intros [(c & Hc & Ho1 & Ho2)| ->].
    + destruct (HC c Hc) as [?| ->]; [exists c; auto|]. exists (f, free). simpl in *. set_solver.
    + exists (f, free). simpl. auto.
Qed.

(** Giving [o] back: the slabs hold it in a free list, or are gone. *)
Lemma live_given k slab s f o free partial full p1 p2 full' : slab_ok k slab s partial full →
  (f, free) ∈ chunks partial full → given f free partial full p1 p2 full' → o ∈ objs_at s f →
  ∀ o', live s (p1 ++ (f, o :: free) :: p2) full' o' ↔ live s partial full o' ∧ o' ≠ o.
Proof.
  intros Hok Hf Hg Ho o'. assert (NoDup (frames partial full)) as Hnd by apply Hok.
  assert (∀ c, c ∈ chunks partial full → c = (f, free) ∨ c ∈ chunks (p1 ++ (f, o :: free) :: p2) full') as Hin.
  { intros c. destruct Hg as [q1 q2 _ ->|f1 f2 -> ->]; unfold chunks; [set_solver|]. rewrite !fmap_app, fmap_cons. simpl. set_solver. }
  split.
  - intros (c & Hc & Ho1 & Ho2). destruct (given_chunks _ _ _ _ _ _ _ _ _ Hg Hnd Hc) as [->|[Hc' Hcf]].
    + simpl in *. split; [|set_solver]. exists (f, free). simpl. set_solver.
    + split; [exists c; auto|]. intros ->. apply Hcf. by rewrite (object_chunk _ _ _ _ _ c (f, free) o Hok).
  - intros [(c & Hc & Ho1 & Ho2) Hne]. destruct (Hin c Hc) as [->|Hc']; [|exists c; auto].
    exists (f, o :: free). unfold chunks. simpl in *. set_solver.
Qed.

(** A list of as many objects as a slab has lists them all. *)
Lemma all_listed s f l : NoDup l → (∀ o, o ∈ l → o ∈ objs_at s f) → count s ≤ Z.of_nat (length l) →
  ∀ o, o ∈ objs_at s f → o ∈ l.
Proof.
  intros Hnd Hsub Hl. assert (l ≡ₚ objs_at s f) as HP; [|intros o; by rewrite HP].
  apply submseteq_length_Permutation; [by apply NoDup_submseteq|]. unfold objs_at. rewrite length_fmap, length_seqZ. lia.
Qed.

(** A slab all of whose objects are free has no live object. *)
Lemma live_released s f l p1 p2 full : (∀ o, o ∈ objs_at s f → o ∈ l) →
  ∀ o', live s (p1 ++ p2) full o' ↔ live s (p1 ++ (f, l) :: p2) full o'.
Proof.
  intros Hall o'. unfold live, chunks. split.
  - intros (c & Hin & Ho). exists c. split; [|done]. set_solver.
  - intros (c & Hin & Ho1 & Ho2). exists c. split; [|done].
    assert (c = (f, l) ∨ c ∈ (p1 ++ p2) ++ ((λ f, (f, [])) <$> full)) as [->|?]; [set_solver| |done].
    exfalso. by apply Ho2, Hall.
Qed.
End live.

(** ** The properties *)

Section properties.
Context `{Layout} (base n root : Z).
Implicit Types (k : kernel) (g : blocks).

(** The CPU's array of 32 allocators is at [A]. *)
Definition cpu_slabs k (A : Z) : Prop :=
  ∃ c, kcpus k !! this_cpu (km k) = Some c ∧ kmem_slabs c = A ∧ kmem_nslabs c = 32.

(** The index [kmalloc] computes. *)
Lemma kmalloc_index size : 1 ≤ size < 2 ^ 64 → u64 (ROUNDUP size SLAB_ALIGN / SLAB_ALIGN - 1) =
  if size <? 2 ^ 64 - 31 then (size - 1) / 32 else 2 ^ 64 - 1.
Proof.
  intros Hs. unfold ROUNDUP, ROUNDDOWN, SLAB_ALIGN.
  destruct (size <? 2 ^ 64 - 31) eqn:E; [apply Z.ltb_lt in E|apply Z.ltb_ge in E].
  - assert (u64 (size + 32 - 1) = size + 31) as -> by (unfold u64; rewrite Z.mod_small; lia).
    assert (u64 (size + 31) = size + 31) as -> by (unfold u64; rewrite Z.mod_small; lia).
    unfold u64. rewrite Z.mod_small; mlia.
  - assert (u64 (size + 32 - 1) = size + 31 - 2 ^ 64) as -> by (unfold u64; mlia).
    assert (u64 (size + 31 - 2 ^ 64) = size + 31 - 2 ^ 64) as -> by (unfold u64; rewrite Z.mod_small; lia).
    assert ((size + 31 - 2 ^ 64 - (size + 31 - 2 ^ 64) mod 32) / 32 = 0) as -> by mlia. done.
Qed.

Lemma kmalloc_slab k A size : cpu_slabs k A → 1 ≤ size ≤ 1024 →
  kmalloc size k = slab_alloc (slab_addr A ((size - 1) / 32)) k.
Proof.
  intros (c & Hc & HA & Hn) Hs. unfold kmalloc. rewrite (proj2 (Z.eqb_neq _ _)) by lia.
  rewrite kmalloc_index, (proj2 (Z.ltb_lt _ _)) by lia.
  unfold nslabs, slabs, cpu_get, mbind, M_bind, deref, mret, M_ret. rewrite Hc, Hn.
  rewrite (proj2 (Z.leb_gt _ _)) by mlia. by rewrite Hc, HA.
Qed.

(** [kmalloc] returns NULL for size zero and for every size above
    1024 bytes, also where rounding up overflows, and changes nothing. *)
Theorem kmalloc_rejects k A size : cpu_slabs k A → size = 0 ∨ 1024 < size < 2 ^ 64 → kmalloc size k = OK NULL k.
Proof.
  intros (c & Hc & HA & Hn) Hs. unfold kmalloc. destruct (size =? 0) eqn:E; [done|]. apply Z.eqb_neq in E.
  rewrite kmalloc_index by lia. unfold nslabs, cpu_get, mbind, M_bind, deref, mret, M_ret. rewrite Hc, Hn.
  rewrite (proj2 (Z.leb_le _ _)); [done|]. destruct (size <? 2 ^ 64 - 31); mlia.
Qed.

Lemma kmem_init_sys k g A c : kcpus k !! this_cpu (km k) = Some c → kmem_slabs c = A →
  (∀ j, 0 ≤ j < 32 → slab_memory k A j) → buddy_inv base n (km k) g →
  (∀ a, slab_heads A a → ¬ buddy_addr base n a ∧ ¬ free_frame g (page_of a)) →
  (∀ a, free_frame g (page_of a) → ¬ buddy_addr base n a) →
  ∃ k', kmem_init k = OK 0 k' ∧ cpu_slabs k' A ∧ infos (km k') = infos (km k) ∧ phys (km k') = phys (km k) ∧ kernel_pml4 k' = kernel_pml4 k ∧
    ∀ i, 0 ≤ i < 32 → slab_sys base n k' g (slab_addr A i) (slab_for i) [] [] ∧
      (i + 1) * 32 + sizeof_slab_obj ≤ obj_size (slab_for i) ∧ 3 ≤ count (slab_for i).
Proof.
  intros Hc HA Hmem Hb Hheads Hfree. destruct (wp_elim _ _ _ (kmem_init_spec k A c Hc HA Hmem))
    as (r & k' & E & -> & Hall & (h & S & Ek') & [_ Hch] & _).
  exists k'. split; [done|]. split.
  { exists (Cpu (cpu_task c) A 32 (cpu_id c) (runq_len c)). rewrite Ek'. simpl. by rewrite lookup_insert_eq. }
  split; [by rewrite Ek'|]. split; [by rewrite Ek'|]. split; [by rewrite Ek'|].
  intros i Hi. split; [|by apply slab_for_shape].
  assert (∀ a, a = slab_addr A i + off_partial ∨ a = slab_addr A i + off_full → slab_heads A a) as Hhd by (intros a Ha; by exists i).
  split.
  - by apply empty_slab_ok; [|apply Hall].
  - rewrite Ek' in Hch |- *. simpl in *. apply buddy_inv_agree; [|done]. intros a Ha. apply Hch. intros Hs. by apply Hheads in Hs as [? _].
  - by intros f ?%not_elem_of_nil.
  - intros a [?%not_elem_of_nil|[Ha|Ha]]; [done|by apply Hfree|]. by apply Hheads, Hhd.
  - split; apply Hheads, Hhd; tauto.
Qed.

(** [kmem_init] returns 0 and establishes the invariant of
    all 32 allocators, each without slabs, for objects of 32, 64, ..., 1024
    bytes; at least three objects and the footer fit a page. *)
Theorem kmem_init_correct k g A c : kcpus k !! this_cpu (km k) = Some c → kmem_slabs c = A →
  (∀ j, 0 ≤ j < 32 → slab_memory k A j) → buddy_inv base n (km k) g →
  (∀ a, slab_heads A a → ¬ buddy_addr base n a ∧ ¬ free_frame g (page_of a)) →
  (∀ a, free_frame g (page_of a) → ¬ buddy_addr base n a) →
  ∃ k', kmem_init k = OK 0 k' ∧ cpu_slabs k' A ∧
    ∀ i, 0 ≤ i < 32 → slab_sys base n k' g (slab_addr A i) (slab_for i) [] [] ∧
      (i + 1) * 32 + sizeof_slab_obj ≤ obj_size (slab_for i) ∧ 3 ≤ count (slab_for i).
Proof.
  intros Hc HA Hmem Hb Hheads Hfree. destruct (kmem_init_sys k g A c Hc HA Hmem Hb Hheads Hfree)
    as (k' & E & Hcpu & _ & _ & _ & Hall). by exists k'.
Qed.

Lemma kmalloc_spec k g A size partial full : layout_ok base n → cpu_slabs k A → 1 ≤ size ≤ 1024 →
  slab_sys base n k g (slab_addr A ((size - 1) / 32)) (slab_for ((size - 1) / 32)) partial full → (partial = [] → g ≠ ∅) →
  let s := slab_for ((size - 1) / 32) in
  ∃ o k' g' partial' full' new, kmalloc size k = OK (o + sizeof_slab_obj) k' ∧
    slab_sys base n k' g' (slab_addr A ((size - 1) / 32)) s partial' full' ∧
    ¬ live s partial full o ∧ (∀ o', live s partial' full' o' ↔ live s partial full o' ∨ o' = o) ∧
    (∀ a, o + sizeof_slab_obj ≤ a < o + sizeof_slab_obj + size → payload s o a) ∧
    (partial ≠ [] → new = []) ∧ (length new ≤ 1)%nat ∧ (∀ j, j ∈ new → free_frame g j) ∧ (∀ j, free_frame g' j ↔ free_frame g j ∧ j ∉ new) ∧
    slab_kept base n s (slab_addr A ((size - 1) / 32)) g (frames partial full) new k k'.
Proof.
  intros L Hcpu Hsize Hsys Hg s. rewrite (kmalloc_slab k A size Hcpu Hsize).
  set (slab := slab_addr A ((size - 1) / 32)) in *.
  destruct (slab_for_shape ((size - 1) / 32) ltac:(mlia)) as (Hs & Hfit & _). fold s in Hs, Hfit, Hsys.
  destruct (wp_elim _ _ _ (slab_alloc_spec base n L k g slab s partial full Hsys Hg))
    as (r & k' & E & f & o & free & ps & new & g' & -> & Hcase & Hsys' & Hff & Hkept).
  pose proof (ss_ok _ _ _ _ _ _ _ _ Hsys) as Hok.
  exists o, k', g', (taken f free ps full).1, (taken f free ps full).2, new.
  split; [done|]. split; [done|].
  assert (¬ live s partial full o ∧ (∀ o', live s (taken f free ps full).1 (taken f free ps full).2 o' ↔ live s partial full o' ∨ o' = o) ∧
    (partial ≠ [] → new = []) ∧ (length new ≤ 1)%nat ∧ (∀ j, j ∈ new → free_frame g j)) as (H1 & H2 & H3 & H4 & H5).
  { destruct Hcase as [(-> & ->)|(-> & -> & -> & Hf & Eo)].
    - assert ((f, o :: free) ∈ chunks ((f, o :: free) :: ps) full) as Hin by (unfold chunks; simpl; left).
      pose proof (so_chunks _ _ _ _ _ Hok _ Hin) as Hck. assert (o ∈ objs_at s f) as Ho by (apply (ck_sub _ _ _ _ Hck); left).
      split; [|split; [|split; [done|split; [simpl; lia|by intros j ?%not_elem_of_nil]]]].
      + intros (c & Hc & Ho1 & Ho2). rewrite (object_chunk _ _ _ _ _ _ _ o Hok Hc Hin Ho1 Ho) in Ho2. apply Ho2. left.
      + apply (live_taken s f o free ps full (chunks ((f, o :: free) :: ps) full)); [done|done| | | |].
        * pose proof (ck_free _ _ _ _ Hck) as [[_ [? _]%NoDup_cons]%NoDup_cons _ _]. done.
        * intros o' Ho' Hn. by exists (f, o :: free).
        * unfold chunks. simpl. intros c [->|Hc]%elem_of_cons; auto.
        * unfold chunks. simpl. intros c Hc. by right.
    - assert (f ∉ frames [] full) as Hfn by (intros Hin; by destruct (ss_frames _ _ _ _ _ _ _ _ Hsys f Hin) as (_ & ? & _)).
      assert (∀ o', o' ∈ o :: free ↔ o' ∈ objs_at s f) as Hobjs by (intros o'; rewrite Eo; apply first_objs_all).
      assert (o ∈ objs_at s f) as Ho by (apply Hobjs; left).
      split; [|split; [|split; [done|split; [simpl; lia|by intros j ->%list_elem_of_singleton]]]].
      + intros (c & Hc & Ho1 & _). apply Hfn. rewrite <-(page_obj s Hs f o Ho), (page_obj s Hs c.1 o Ho1). by apply chunks_frames.
      + apply (live_taken s f o free [] full (chunks [] full)); [done|done| | |by intros c ?; left|done].
        * assert (NoDup (o :: free)) as [? _]%NoDup_cons; [|done]. rewrite Eo. unfold first_objs. rewrite reverse_Permutation. by apply objs_NoDup.
        * intros o' Ho' Hn. by apply Hobjs in Ho'. }
  split; [done|]. split; [done|]. split; [|done].
  intros a Ha. unfold payload, sizeof_slab_obj in *. assert (size ≤ ((size - 1) / 32 + 1) * 32) by mlia. lia.
Qed.

(** C18 (safety).  [kmalloc] of 1 to 1024 bytes returns the address behind the
    header of an object that no one uses; the object becomes live and no
    other does, the bytes asked for lie within it, a new slab is taken from
    the frame allocator only if no slab has a free object, and memory
    outside the allocator's own nodes is untouched. *)
Theorem kmalloc_correct k g A size partial full : layout_ok base n → cpu_slabs k A → 1 ≤ size ≤ 1024 →
  slab_sys base n k g (slab_addr A ((size - 1) / 32)) (slab_for ((size - 1) / 32)) partial full → (partial = [] → g ≠ ∅) →
  let s := slab_for ((size - 1) / 32) in
  ∃ o k' g' partial' full' new, kmalloc size k = OK (o + sizeof_slab_obj) k' ∧
    slab_sys base n k' g' (slab_addr A ((size - 1) / 32)) s partial' full' ∧
    ¬ live s partial full o ∧ (∀ o', live s partial' full' o' ↔ live s partial full o' ∨ o' = o) ∧
    (∀ a, o + sizeof_slab_obj ≤ a < o + sizeof_slab_obj + size → payload s o a) ∧
    (partial ≠ [] → new = []) ∧ (length new ≤ 1)%nat ∧ (∀ j, free_frame g' j ↔ free_frame g j ∧ j ∉ new) ∧
    slab_kept base n s (slab_addr A ((size - 1) / 32)) g (frames partial full) new k k'.
Proof.
  intros L Hcpu Hsize Hsys Hg. destruct (kmalloc_spec k g A size partial full L Hcpu Hsize Hsys Hg)
    as (o & k' & g' & P & F & new & E & ? & ? & ? & ? & ? & ? & _ & ? & ?). by exists o, k', g', P, F, new.
Qed.

(** Allocations leave the kernel's page table alone. *)
Lemma direct_map_kept k k' g g' T s slab fs new : direct_map base n root k g T → slab_kept base n s slab g fs new k k' →
  buddy_inv base n (km k') g' → (∀ j, j ∈ new → free_frame g j) → (∀ j, free_frame g' j ↔ free_frame g j ∧ j ∉ new) →
  direct_map base n root k' g' T.
Proof.
  intros [[_ Ht Hu Hr Hz] Hroot Hfr] [(m & I & O & Ek) Kp Kph Kz _ _ _] Hb Hnew Hff.
  assert (∀ p f, T !! p = Some f → phys (km k') !! f = phys (km k) !! f) as Hph.
  { intros p f Hp. apply Kph. intros Hin. by apply (Hu p f Hp), Hnew. }
  assert (pt_ok n T (phys (km k')) root) as Ht' by (by apply (pt_ok_ext n root T (phys (km k)))).
  split.
  - split; [done|done| | |].
    + intros p f Hp. rewrite Hff. intros [? _]. by apply (Hu p f).
    + intros p f Hp Hne. rewrite Kp; [by apply (Hr p)|by apply (pt_range _ _ _ _ Ht p)|by apply (Hu p)].
    + intros a p Hp. destruct (Kz a p Hp) as [?|E]; [done|]. destruct (infos (km k) !! a) as [q|] eqn:Eq; [|done].
      injection E as <-. by apply (Hz a).
  - by rewrite Ek.
  - intros f Hf. destruct (Hfr f Hf) as (e & He & Ee). exists e. split; [|done].
    rewrite (translate_view n root T) in He |- * by done. by rewrite (view_ext T (phys (km k))).
Qed.

(** Another object of the slab is live, unless all of them are listed. *)
Lemma other_live s f l : slab_shape s → Z.of_nat (length l) < count s → ∃ o, o ∈ objs_at s f ∧ o ∉ l.
Proof.
  intros Hs Hl. destruct (decide (Forall (.∈ l) (objs_at s f))) as [Hall|Hn].
  - assert (length (objs_at s f) ≤ length l)%nat as Hle.
    { apply submseteq_length, NoDup_submseteq; [by apply objs_NoDup|]. by apply Forall_forall. }
    unfold objs_at in Hle. rewrite length_fmap, length_seqZ in Hle. lia.
  - apply not_Forall_Exists, Exists_exists in Hn; [|apply _]. destruct Hn as (o & ? & ?). eauto.
Qed.

(** C19 (safety).  [kfree] of a live object returns; the object is live no
    more and no other object changes hands.  The slab's frame goes back to
    the frame allocator exactly if it was the slab's last live object, and
    memory outside the payload and the two allocators is untouched. *)
Theorem kfree_correct k g T slab s partial full o : layout_ok base n → slab_sys base n k g slab s partial full →
  direct_map base n root k g T → live s partial full o →
  ∃ k' g' partial' full', kfree (o + sizeof_slab_obj) k = OK tt k' ∧ slab_sys base n k' g' slab s partial' full' ∧
    (∀ o', live s partial' full' o' ↔ live s partial full o' ∧ o' ≠ o) ∧
    (∀ j, free_frame g' j ↔
      free_frame g j ∨ (j = page_of o ∧ ∀ o', live s partial full o' → page_of o' = j → o' = o)) ∧
    free_kept base n s slab g (frames partial full) (page_of o) o k k'.
Proof.
  intros L Hsys Hdm ([f free] & Hc & Ho & Hof). simpl in Ho, Hof.
  pose proof (ss_ok _ _ _ _ _ _ _ _ Hsys) as Hok. pose proof (so_shape _ _ _ _ _ Hok) as Hs.
  rewrite (page_obj s Hs f o Ho). unfold kfree.
  destruct (wp_elim _ _ _ (slab_free_spec base n root L k g T slab s f o free partial full Hsys Hdm Hc Ho Hof))
    as ([] & k' & E & p1 & p2 & full' & Hg & Hk & Hrest).
  pose proof (live_given k slab s f o free partial full p1 p2 full' Hok Hc Hg Ho) as Hlive.
  destruct (Z.of_nat (S (length free)) <? count s) eqn:El; [apply Z.ltb_lt in El|apply Z.ltb_ge in El].
  - exists k', g, (p1 ++ (f, o :: free) :: p2), full'. split_and!; try done. intros j. split; [by left|].
    intros [?|(-> & Hlast)]; [done|exfalso]. destruct (other_live s f (o :: free) Hs El) as (o' & Ho' & Hn).
    apply Hn. rewrite (Hlast o'); [left| |by apply (page_obj s Hs)]. exists (f, free). simpl. set_solver.
  - pose proof (so_chunks _ _ _ _ _ Hok _ Hc) as [_ [[_ Hnd]%NoDup_cons _ _] Hsub _ _]. simpl in Hnd, Hsub.
    assert (∀ o', o' ∈ objs_at s f → o' ∈ o :: free) as Hall.
    { apply all_listed; [by apply NoDup_cons|set_solver|done]. }
    destruct Hrest as (g' & Hsys' & Hff). exists k', g', (p1 ++ p2), full'. split_and!; try done.
    + intros o'. rewrite <-Hlive. by apply live_released.
    + intros j. rewrite Hff. split; [|tauto]. intros [?| ->]; [by left|right]. split; [done|].
      intros o' (c & Hc' & Ho1 & Ho2) Hp. assert (c = (f, free)) as ->.
      { apply (NoDup_fst_inj (chunks partial full)); [rewrite chunks_fst; apply Hok|done|done|]. simpl.
        by rewrite <-Hp, (page_obj s Hs c.1 o'). }
      simpl in *. by apply Hall, elem_of_cons in Ho1 as [?|?].
Qed.
End properties.

(** ** A concrete machine with allocators

    The machine of PageTableSpec.v, with the direct map, memory for the 32
    allocators at 0x10000 and a CPU that uses them. *)

#[local] Existing Instance demo_layout.

Definition slab_array : Z := 0x10000.
Definition slab_head_nodes : list Z :=
  ((λ i, slab_addr slab_array i + off_partial) <$> seqZ 0 32) ++ ((λ i, slab_addr slab_array i + off_full) <$> seqZ 0 32).
Definition add_slabs (k : kernel) : kernel :=
  set_kcpus {[ this_cpu (km k) := Cpu NULL slab_array 0 0 0 ]}
    (set_kslabs (gset_to_gmap (Slab 0 0 0) (list_to_set (slab_addr slab_array <$> seqZ 0 32)))
      (set_km (set_heap (gset_to_gmap (Node NULL NULL) (list_to_set slab_head_nodes) ∪ heap (km k)) (km k)) k)).

Lemma demo_buddy_addr a : buddy_addr demo_base demo_n a → 0 ≤ a < 2 ^ 32 ∧ (a < 0x10000 ∨ 0x20000 ≤ a).
Proof.
  unfold buddy_addr, free_addr, swap_addr, zero_addr, swap_node_of, zero_node_of, pg, free_list, demo_base, demo_n.
  unfold sizeof_page_info, off_swap_node, off_pp_zero_node, BUDDY_MAX_ORDER, BUDDY_2M_PAGE, NULL, buddy_free_list, zero_list, swap_pages. simpl.
  intros [[(o & ? & ->)|(i & ? & ->)]|[[->|(i & ? & ->)]|[->|[->|(i & ? & ->)]]]]; lia.
Qed.

Lemma demo_slab_heads a : slab_heads slab_array a → 0x10000 ≤ a < 0x20000.
Proof. intros (i & Hi & Ha). unfold slab_addr, slab_array, sizeof_slab, off_partial, off_full in Ha. lia. Qed.

Record demo_slabs k g T : Prop := {
  ds_map : direct_map demo_base demo_n 16 k g T;
  ds_free : g ≠ ∅;
  ds_cpu : kcpus k !! this_cpu (km k) = Some (Cpu NULL slab_array 0 0 0);
  ds_memory j : 0 ≤ j < 32 → slab_memory k slab_array j;
  ds_heads a : slab_heads slab_array a → ¬ buddy_addr demo_base demo_n a ∧ ¬ free_frame g (page_of a);
  ds_pages a : free_frame g (page_of a) → ¬ buddy_addr demo_base demo_n a;
}.

Lemma demo_with_slabs : ∃ k g T, demo_slabs k g T.
Proof.
  destruct demo_space as (k0 & g0 & Hd).
  destruct (wp_elim _ _ _ (boot_map_region_spec demo_base demo_n 16 demo_layout_ok k0 g0 demo_tables (direct_page 0) (direct_page 512)
    0 PAGE_WRITE 1 ltac:(apply Hd) ltac:(right; unfold direct_page; lia) ltac:(unfold direct_page; lia) ltac:(unfold direct_page; lia)
    ltac:(lia) ltac:(unfold direct_page; lia) ltac:(unfold PAGE_WRITE; lia) ltac:(lia) ltac:(eapply demo_avail; [exact Hd|by vm_compute])))
    as ([] & k1 & _ & g & T & Hs & Hav & _ & _ & Hv & _ & Hfree & Hr). simpl in Hv, Hr.
  assert (∀ x, free_frame g x → 0 ≤ x) as Hpos by (intros x Hx%Hfree; apply Hd in Hx; lia).
  assert (∀ a, 0 ≤ page_of a → 2 ^ 32 ≤ a) as Hbig by (unfold page_of, PAGE_SIZE, KERNEL_VMA; intros a Ha; mlia).
  assert (kernel_pml4 k1 = kva 16) as Hroot by (rewrite Hr; by destruct (demo_st _ _ Hd) as [m ->]).
  assert (buddy_inv demo_base demo_n (km (add_slabs k1)) g) as Hb.
  { apply buddy_inv_agree; [|apply Hs]. intros a Ha. apply lookup_union_r, lookup_gset_to_gmap_None.
    rewrite elem_of_list_to_set. unfold slab_head_nodes. intros [(i & -> & Hi)%list_elem_of_fmap|(i & -> & Hi)%list_elem_of_fmap]%elem_of_app;
      apply elem_of_seqZ in Hi; apply demo_buddy_addr in Ha; unfold slab_addr, slab_array, sizeof_slab, off_partial, off_full in Ha; lia. }
  exists (add_slabs k1), g, T. split.
  - split; [|done|].
    + destruct Hs as [_ ? ? ? ?]. by split.
    + intros f Hf. unfold demo_n in Hf. exists (make_entry f (Z.lor PAGE_WRITE PAGE_PRESENT)). split.
      * simpl. rewrite (translate_view demo_n 16 T), Hv by (apply Hs || (unfold canonical, direct_page; lia)).
        rewrite decide_True by (unfold direct_page; lia). do 2 f_equal. unfold direct_page. lia.
      * apply make_entry_frame; [lia|done].
  - eapply (avail_nonempty _ 0); [done|lia].
  - simpl. apply lookup_singleton_eq.
  - intros j Hj. assert (j ∈ seqZ 0 32) as Hin by (apply elem_of_seqZ; lia). split.
    + unfold add_slabs. cbn [kslabs set_kcpus set_kslabs]. rewrite dom_gset_to_gmap, elem_of_list_to_set. by apply list_elem_of_fmap_2.
    + unfold add_slabs. cbn [km set_kcpus set_kslabs set_km heap set_heap]. rewrite dom_union_L, dom_gset_to_gmap. apply elem_of_union_l, elem_of_list_to_set, elem_of_app. left.
      by apply (list_elem_of_fmap_2 (λ i, slab_addr slab_array i + off_partial)).
    + unfold add_slabs. cbn [km set_kcpus set_kslabs set_km heap set_heap]. rewrite dom_union_L, dom_gset_to_gmap. apply elem_of_union_l, elem_of_list_to_set, elem_of_app. right.
      by apply (list_elem_of_fmap_2 (λ i, slab_addr slab_array i + off_full)).
    + unfold slab_addr, slab_array, sizeof_slab, off_partial, off_full, NULL. lia.
  - intros a Ha%demo_slab_heads. split; [intros Hb'%demo_buddy_addr; lia|]. intros Hf%Hpos%Hbig. lia.
  - intros a Hf%Hpos%Hbig Hb'%demo_buddy_addr. lia.
Qed.

(** The machine after [kmem_init]. *)
Lemma demo_initialised : ∃ k g T, direct_map demo_base demo_n 16 k g T ∧ g ≠ ∅ ∧ cpu_slabs k slab_array ∧
  ∀ i, 0 ≤ i < 32 → slab_sys demo_base demo_n k g (slab_addr slab_array i) (slab_for i) [] [].
Proof.
  destruct demo_with_slabs as (k & g & T & [Hdm Hg Hcpu Hmem Hh Hp]).
  destruct (kmem_init_sys demo_base demo_n k g slab_array _ Hcpu eq_refl Hmem (sp_buddy _ _ _ _ _ _ (dm_space _ _ _ _ _ _ Hdm)) Hh Hp)
    as (k' & _ & Hc & Ei & Ep & Er & Hall).
  exists k', g, T. split_and!; [|done|done|intros i Hi; by apply Hall].
  apply (direct_map_same demo_base demo_n 16 k); try done. apply (ss_buddy _ _ _ _ _ _ _ _ (proj1 (Hall 0 ltac:(lia)))).
Qed.

Lemma kmem_init_correct_witness : ∃ k g T k', demo_slabs k g T ∧ kmem_init k = OK 0 k' ∧
  slab_sys demo_base demo_n k' g (slab_addr slab_array 31) (slab_for 31) [] [].
Proof.
  destruct demo_with_slabs as (k & g & T & Hd). pose proof Hd as [Hdm Hg Hcpu Hmem Hh Hp].
  destruct (kmem_init_correct demo_base demo_n k g slab_array _ Hcpu eq_refl Hmem (sp_buddy _ _ _ _ _ _ (dm_space _ _ _ _ _ _ Hdm)) Hh Hp)
    as (k' & E & _ & Hall).
  exists k, g, T, k'. split; [exact Hd|]. split; [exact E|]. apply Hall. lia.
Defined.

Lemma kmalloc_rejects_witness : ∃ k, cpu_slabs k slab_array ∧ kmalloc (2 ^ 64 - 1) k = OK NULL k.
Proof.
  destruct demo_initialised as (k & g & T & _ & _ & Hc & _). exists k. split; [exact Hc|].
  apply (kmalloc_rejects k slab_array); [exact Hc|]. right. lia.
Defined.

Lemma kmalloc_correct_witness : ∃ k o k', cpu_slabs k slab_array ∧ kmalloc 100 k = OK (o + 24) k' ∧
  ∀ a, o + 24 ≤ a < o + 24 + 100 → payload (slab_for 3) o a.
Proof.
  destruct demo_initialised as (k & g & T & _ & Hg & Hc & Hall).
  destruct (kmalloc_correct demo_base demo_n k g slab_array 100 [] []) as (o & k' & g' & P & F & new & E & _ & _ & _ & Hp & _).
  - exact demo_layout_ok.
  - exact Hc.
  - lia.
  - apply (Hall 3). lia.
  - intros _. exact Hg.
  - exists k, o, k'. split; [exact Hc|]. split; [exact E|exact Hp].
Defined.

Lemma kfree_correct_witness : ∃ k o k' P F, live (slab_for 3) P F o ∧ kfree (o + 24) k = OK tt k'.
Proof.
  destruct demo_initialised as (k & g & T & Hdm & Hg & Hc & Hall).
  destruct (kmalloc_spec demo_base demo_n k g slab_array 100 [] [] demo_layout_ok Hc ltac:(lia) ltac:(apply (Hall 3); lia) ltac:(done))
    as (o & k1 & g1 & P & F & new & _ & Hsys & _ & Hl & _ & _ & _ & Hnew & Hff & Hk).
  destruct (kfree_correct demo_base demo_n 16 k1 g1 T (slab_addr slab_array 3) (slab_for 3) P F o) as (k' & g' & P' & F' & E & _).
  - exact demo_layout_ok.
  - exact Hsys.
  - eapply direct_map_kept; [exact Hdm|exact Hk|apply Hsys|exact Hnew|exact Hff].
  - apply Hl. by right.
  - exists k1, o, k', P, F. split; [apply Hl; by right|exact E].
Defined.
