(* ===== verification/Console.v ===== *)
(** * The console (kernel/console.c, kernel/pic.c, lib/readline.c)

    The console drives the serial port, the parallel port, the text screen and
    the keyboard.  What a device answers on its ports is not code: [Ports]
    gives the state of the devices and what reading or writing a port does to
    it, and every theorem holds for all devices that satisfy its hypotheses.
    The cells of the screen are words of the video memory, by address. *)

From S2P Require Import Prelude LinkedList Paging.

Local Open Scope Z_scope.

Class Ports := {
  dev : Type;
  in_port : Z → dev → Z * dev;
  out_port : Z → Z → dev → dev;
  (** what a load finds where no memory answers *)
  open_bus : Z;
}.

Definition CONSBUFSIZE : Z := 512.
Definition BUFLEN : Z := 1024.

(** The static variables of console.c and of readline.c ([linebuf] is [buf]
    of readline.c, [cons_buf], [rpos] and [wpos] are the members of [cons]). *)
Record console `{Ports} := Console {
  device : dev;
  video : gmap Z Z;
  serial_exists : bool;
  addr_6845 : Z;
  crt_buf : Z;
  crt_pos : Z;
  shift : Z;
  cons_buf : list Z;
  rpos : Z;
  wpos : Z;
  linebuf : list Z;
}.

(** ** The key maps *)

Definition NO : Z := 0.
Definition SHIFT : Z := 1.
Definition CTL : Z := 2.
Definition ALT : Z := 4.
Definition CAPSLOCK : Z := 8.
Definition NUMLOCK : Z := 16.
Definition SCROLLLOCK : Z := 32.
Definition E0ESC : Z := 64.
Definition KEY_HOME : Z := 0xE0.
Definition KEY_END : Z := 0xE1.
Definition KEY_UP : Z := 0xE2.
Definition KEY_DN : Z := 0xE3.
Definition KEY_LF : Z := 0xE4.
Definition KEY_RT : Z := 0xE5.
Definition KEY_PGUP : Z := 0xE6.
Definition KEY_PGDN : Z := 0xE7.
Definition KEY_INS : Z := 0xE8.
Definition KEY_DEL : Z := 0xE9.

(** An array of 256 bytes with positional and then designated initialisers. *)
Definition table (l : list Z) (ds : list (Z * Z)) : list Z :=
  foldl (λ t d, <[Z.to_nat d.1 := d.2]> t) (take 256 (l ++ replicate 256 0)) ds.
(** [C(x)], stored in a byte. *)
Definition C (x : Z) : Z := u8 (x - 64).

Definition shiftcode : list Z :=
  table [] [(0x1D, CTL); (0x2A, SHIFT); (0x36, SHIFT); (0x38, ALT); (0x9D, CTL); (0xB8, ALT)].
Definition togglecode : list Z :=
  table [] [(0x3A, CAPSLOCK); (0x45, NUMLOCK); (0x46, SCROLLLOCK)].
Definition normalmap : list Z := table
  [NO; 27; 49; 50; 51; 52; 53; 54;
   55; 56; 57; 48; 45; 61; 8; 9;
   113; 119; 101; 114; 116; 121; 117; 105;
   111; 112; 91; 93; 10; NO; 97; 115;
   100; 102; 103; 104; 106; 107; 108; 59;
   39; 96; NO; 92; 122; 120; 99; 118;
   98; 110; 109; 44; 46; 47; NO; 42;
   NO; 32; NO; NO; NO; NO; NO; NO;
   NO; NO; NO; NO; NO; NO; NO; 55;
   56; 57; 45; 52; 53; 54; 43; 49;
   50; 51; 48; 46; NO; NO; NO; NO]
  [(0xC7, KEY_HOME); (0x9C, 10); (0xB5, 47); (0xC8, KEY_UP);
   (0xC9, KEY_PGUP); (0xCB, KEY_LF); (0xCD, KEY_RT); (0xCF, KEY_END);
   (0xD0, KEY_DN); (0xD1, KEY_PGDN); (0xD2, KEY_INS); (0xD3, KEY_DEL)].
Definition shiftmap : list Z := table
  [NO; 27; 33; 64; 35; 36; 37; 94;
   38; 42; 40; 41; 95; 43; 8; 9;
   81; 87; 69; 82; 84; 89; 85; 73;
   79; 80; 123; 125; 10; NO; 65; 83;
   68; 70; 71; 72; 74; 75; 76; 58;
   34; 126; NO; 124; 90; 88; 67; 86;
   66; 78; 77; 60; 62; 63; NO; 42;
   NO; 32; NO; NO; NO; NO; NO; NO;
   NO; NO; NO; NO; NO; NO; NO; 55;
   56; 57; 45; 52; 53; 54; 43; 49;
   50; 51; 48; 46; NO; NO; NO; NO]
  [(0xC7, KEY_HOME); (0x9C, 10); (0xB5, 47); (0xC8, KEY_UP);
   (0xC9, KEY_PGUP); (0xCB, KEY_LF); (0xCD, KEY_RT); (0xCF, KEY_END);
   (0xD0, KEY_DN); (0xD1, KEY_PGDN); (0xD2, KEY_INS); (0xD3, KEY_DEL)].
Definition ctlmap : list Z := table
  [NO; NO; NO; NO; NO; NO; NO; NO;
   NO; NO; NO; NO; NO; NO; NO; NO;
   C 81; C 87; C 69; C 82; C 84; C 89; C 85; C 73;
   C 79; C 80; NO; NO; 13; NO; C 65; C 83;
   C 68; C 70; C 71; C 72; C 74; C 75; C 76; NO;
   NO; NO; NO; C 92; C 90; C 88; C 67; C 86;
   C 66; C 78; C 77; NO; NO; C 47; NO; NO]
  [(0x97, KEY_HOME); (0xB5, C 47); (0xC8, KEY_UP); (0xC9, KEY_PGUP);
   (0xCB, KEY_LF); (0xCD, KEY_RT); (0xCF, KEY_END); (0xD0, KEY_DN);
   (0xD1, KEY_PGDN); (0xD2, KEY_INS); (0xD3, KEY_DEL)].
Definition charcode (i : Z) : list Z :=
  if i =? 0 then normalmap else if i =? 1 then shiftmap else ctlmap.
Definition at_ (t : list Z) (i : Z) : Z := t !!! Z.to_nat i.

Section console.
Context `{Ports}.

Definition set_device (x : dev) (c : console) : console :=
  Console _ x (video c) (serial_exists c) (addr_6845 c) (crt_buf c) (crt_pos c) (shift c) (cons_buf c) (rpos c) (wpos c) (linebuf c).
Definition set_video (x : gmap Z Z) (c : console) : console :=
  Console _ (device c) x (serial_exists c) (addr_6845 c) (crt_buf c) (crt_pos c) (shift c) (cons_buf c) (rpos c) (wpos c) (linebuf c).
Definition set_serial_exists (x : bool) (c : console) : console :=
  Console _ (device c) (video c) x (addr_6845 c) (crt_buf c) (crt_pos c) (shift c) (cons_buf c) (rpos c) (wpos c) (linebuf c).
Definition set_addr_6845 (x : Z) (c : console) : console :=
  Console _ (device c) (video c) (serial_exists c) x (crt_buf c) (crt_pos c) (shift c) (cons_buf c) (rpos c) (wpos c) (linebuf c).
Definition set_crt_buf (x : Z) (c : console) : console :=
  Console _ (device c) (video c) (serial_exists c) (addr_6845 c) x (crt_pos c) (shift c) (cons_buf c) (rpos c) (wpos c) (linebuf c).
Definition set_crt_pos (x : Z) (c : console) : console :=
  Console _ (device c) (video c) (serial_exists c) (addr_6845 c) (crt_buf c) x (shift c) (cons_buf c) (rpos c) (wpos c) (linebuf c).
Definition set_shift (x : Z) (c : console) : console :=
  Console _ (device c) (video c) (serial_exists c) (addr_6845 c) (crt_buf c) (crt_pos c) x (cons_buf c) (rpos c) (wpos c) (linebuf c).
Definition set_cons_buf (x : list Z) (c : console) : console :=
  Console _ (device c) (video c) (serial_exists c) (addr_6845 c) (crt_buf c) (crt_pos c) (shift c) x (rpos c) (wpos c) (linebuf c).
Definition set_rpos (x : Z) (c : console) : console :=
  Console _ (device c) (video c) (serial_exists c) (addr_6845 c) (crt_buf c) (crt_pos c) (shift c) (cons_buf c) x (wpos c) (linebuf c).
Definition set_wpos (x : Z) (c : console) : console :=
  Console _ (device c) (video c) (serial_exists c) (addr_6845 c) (crt_buf c) (crt_pos c) (shift c) (cons_buf c) (rpos c) x (linebuf c).
Definition set_linebuf (x : list Z) (c : console) : console :=
  Console _ (device c) (video c) (serial_exists c) (addr_6845 c) (crt_buf c) (crt_pos c) (shift c) (cons_buf c) (rpos c) (wpos c) x.

(** Port accesses: a port returns a byte, and is sent the low byte. *)
Definition inb (port : Z) : M console Z := λ c,
  let '(v, d) := in_port port (device c) in OK (u8 v) (set_device d c).
Definition outb (port v : Z) : M console unit :=
  modify (λ c, set_device (out_port port (u8 v) (device c)) c).

(** Loads and stores of 16-bit words in video memory. *)
Definition vload (a : Z) : M console Z := gets (λ c, default (u16 open_bus) (video c !! a)).
Definition vstore (a v : Z) : M console unit :=
  modify (λ c, set_video (if decide (is_Some (video c !! a)) then <[a := u16 v]> (video c) else video c) c).

Definition delay : M console unit := inb 0x84;; inb 0x84;; inb 0x84;; inb 0x84;; mret tt.

(** ** The programmable interrupt controller (kernel/pic.c) *)

Definition PIC1_CMD : Z := 0x20.
Definition PIC1_DATA : Z := 0x21.
Definition PIC2_CMD : Z := 0xA0.
Definition PIC2_DATA : Z := 0xA1.
Definition PIC_ICW1_ICW4 : Z := 1.
Definition PIC_ICW1_INIT : Z := 0x10.
Definition PIC_ICW4_8086 : Z := 1.
Definition PIC_ICW4_AUTO : Z := 2.
Definition PIC_READ_IRR : Z := 0x0A.
Definition PIC_READ_ISR : Z := 0x0B.
Definition PIC_EOI : Z := 0x20.
Definition IRQ_SLAVE : Z := 2.
Definition IRQ_OFFSET : Z := 32.

Definition pic_remap (offset1 offset2 : Z) : M console unit :=
  masks0 ← inb PIC1_DATA;
  masks1 ← inb PIC2_DATA;
  outb PIC1_CMD (Z.lor PIC_ICW1_INIT PIC_ICW1_ICW4);;
  outb PIC2_CMD (Z.lor PIC_ICW1_INIT PIC_ICW1_ICW4);;
  outb PIC1_DATA offset1;;
  outb PIC2_DATA offset2;;
  outb PIC1_DATA (Z.shiftl 1 IRQ_SLAVE);;
  outb PIC2_DATA IRQ_SLAVE;;
  outb PIC1_DATA (Z.lor PIC_ICW4_8086 PIC_ICW4_AUTO);;
  outb PIC2_DATA PIC_ICW4_8086;;
  outb PIC1_DATA masks0;;
  outb PIC2_DATA masks1.

Definition pic_get_reg (ocw3 : Z) : M console Z :=
  outb PIC1_CMD ocw3;;
  outb PIC2_CMD ocw3;;
  hi ← inb PIC2_CMD;
  lo ← inb PIC1_CMD;
  mret (Z.lor (Z.shiftl hi 8) lo).

Definition pic_get_irr : M console Z := pic_get_reg PIC_READ_IRR.
Definition pic_get_isr : M console Z := pic_get_reg PIC_READ_ISR.

Definition pic_disable_all_irqs : M console unit := outb PIC1_DATA 0xff;; outb PIC2_DATA 0xff.

(** The data port and the line of an IRQ. *)
Definition irq_line (irq : Z) : Z * Z := if irq <? 8 then (PIC1_DATA, irq) else (PIC2_DATA, irq - 8).

Definition pic_enable_irq (irq : Z) : M console unit :=
  let '(port, irq) := irq_line irq in
  v ← inb port; outb port (Z.land v (Z.lnot (Z.shiftl 1 irq))).

Definition pic_disable_irq (irq : Z) : M console unit :=
  let '(port, irq) := irq_line irq in
  v ← inb port; outb port (Z.lor v (Z.shiftl 1 irq)).

Definition pic_eoi (irq : Z) : M console unit :=
  (if 8 <=? irq then outb PIC2_CMD PIC_EOI else mret tt);; outb PIC1_CMD PIC_EOI.

Definition pic_init : M console unit :=
  pic_disable_all_irqs;;
  pic_remap IRQ_OFFSET (IRQ_OFFSET + 8);;
  pic_get_irr;;
  pic_enable_irq IRQ_SLAVE.

(** ** Serial and parallel port *)

Definition COM1 : Z := 0x3F8.
Definition COM_RX : Z := 0.
Definition COM_TX : Z := 0.
Definition COM_DLL : Z := 0.
Definition COM_DLM : Z := 1.
Definition COM_IER : Z := 1.
Definition COM_IIR : Z := 2.
Definition COM_FCR : Z := 2.
Definition COM_LCR : Z := 3.
Definition COM_MCR : Z := 4.
Definition COM_LSR : Z := 5.
Definition COM_IER_RDI : Z := 1.
Definition COM_LCR_DLAB : Z := 0x80.
Definition COM_LCR_WLEN8 : Z := 3.
Definition COM_LSR_DATA : Z := 1.
Definition COM_LSR_TXRDY : Z := 0x20.

Definition serial_proc_data : M console Z :=
  lsr ← inb (COM1 + COM_LSR);
  if negb (has lsr COM_LSR_DATA) then mret (-1) else inb (COM1 + COM_RX).

(** The wait loops of [serial_putc] and [lpt_putc]: at most [n] rounds. *)
Fixpoint wait_ready (n : nat) (port bit : Z) : M console unit :=
  v ← inb port;
  if has v bit then mret tt
  else match n with
       | O => mret tt
       | S n => delay;; wait_ready n port bit
       end.

Definition serial_putc (c : Z) : M console unit :=
  wait_ready (Z.to_nat 12800) (COM1 + COM_LSR) COM_LSR_TXRDY;;
  outb (COM1 + COM_TX) c.

Definition serial_init : M console unit :=
  outb (COM1 + COM_FCR) 0;;
  outb (COM1 + COM_LCR) COM_LCR_DLAB;;
  outb (COM1 + COM_DLL) (u8 (115200 / 9600));;
  outb (COM1 + COM_DLM) 0;;
  outb (COM1 + COM_LCR) (Z.land COM_LCR_WLEN8 (Z.lnot COM_LCR_DLAB));;
  outb (COM1 + COM_MCR) 0;;
  outb (COM1 + COM_IER) COM_IER_RDI;;
  lsr ← inb (COM1 + COM_LSR);
  modify (set_serial_exists (negb (lsr =? 0xFF)));;
  inb (COM1 + COM_IIR);;
  inb (COM1 + COM_RX);;
  mret tt.

Definition lpt_putc (c : Z) : M console unit :=
  wait_ready (Z.to_nat 12800) (0x378 + 1) 0x80;;
  outb (0x378 + 0) c;;
  outb (0x378 + 2) (Z.lor (Z.lor 0x08 0x04) 0x01);;
  outb (0x378 + 2) 0x08.

(** ** The screen *)

Definition MONO_BASE : Z := 0x3B4.
Definition MONO_BUF : Z := 0xB0000.
Definition CGA_BASE : Z := 0x3D4.
Definition CGA_BUF : Z := 0xB8000.
Definition CRT_ROWS : Z := 25.
Definition CRT_COLS : Z := 80.
Definition CRT_SIZE : Z := CRT_ROWS * CRT_COLS.

Definition cga_init : M console unit :=
  let cp := KERNEL_VMA + CGA_BUF in
  was ← vload cp;
  vstore cp 0xA55A;;
  now ← vload cp;
  cp ← (if negb (now =? 0xA55A) then modify (set_addr_6845 MONO_BASE);; mret (KERNEL_VMA + MONO_BUF)
        else vstore cp was;; modify (set_addr_6845 CGA_BASE);; mret cp);
  a ← gets addr_6845;
  outb a 14;;
  hi ← inb (a + 1);
  outb a 15;;
  lo ← inb (a + 1);
  modify (set_crt_buf cp);;
  modify (set_crt_pos (u16 (Z.lor (Z.shiftl hi 8) lo))).

(** [crt_buf[i]]. *)
Definition cell (c : console) (i : Z) : Z := crt_buf c + 2 * i.
Definition put_cell (i v : Z) : M console unit := a ← gets (λ c, cell c i); vstore a v.
Definition get_cell (i : Z) : M console Z := a ← gets (λ c, cell c i); vload a.

Fixpoint get_cells (n : nat) (i : Z) : M console (list Z) :=
  match n with
  | O => mret []
  | S n => v ← get_cell i; vs ← get_cells n (i + 1); mret (v :: vs)
  end.
Fixpoint put_cells (i : Z) (vs : list Z) : M console unit :=
  match vs with
  | [] => mret tt
  | v :: vs => put_cell i v;; put_cells (i + 1) vs
  end.

(** The lines move up by one: [memmove], then the loop that blanks the last. *)
Definition scroll : M console unit :=
  vs ← get_cells (Z.to_nat (CRT_SIZE - CRT_COLS)) CRT_COLS;
  put_cells 0 vs;;
  put_cells (CRT_SIZE - CRT_COLS) (replicate (Z.to_nat CRT_COLS) (Z.lor 0x0700 32)).

(** [cga_putc]; [putc] is [cons_putc], which a tab calls back. *)
Definition cga_putc (putc : Z → M console unit) (c : Z) : M console unit :=
  let c := if Z.land c (Z.lnot 0xFF) =? 0 then Z.lor c 0x0700 else c in
  let ch := Z.land c 0xff in
  (if ch =? 8 then
     pos ← gets crt_pos;
     if 0 <? pos then
       modify (set_crt_pos (u16 (pos - 1)));;
       put_cell (u16 (pos - 1)) (Z.lor (Z.land c (Z.lnot 0xff)) 32)
     else mret tt
   else if (ch =? 10) || (ch =? 13) then
     (if ch =? 10 then modify (λ s, set_crt_pos (u16 (crt_pos s + CRT_COLS)) s) else mret tt);;
     modify (λ s, set_crt_pos (u16 (crt_pos s - crt_pos s `mod` CRT_COLS)) s)
   else if ch =? 9 then putc 32;; putc 32;; putc 32;; putc 32;; putc 32
   else
     pos ← gets crt_pos;
     modify (set_crt_pos (u16 (pos + 1)));;
     put_cell pos c);;
  pos ← gets crt_pos;
  (if CRT_SIZE <=? pos then scroll;; modify (set_crt_pos (u16 (pos - CRT_COLS))) else mret tt);;
  a ← gets addr_6845;
  pos ← gets crt_pos;
  outb a 14;;
  outb (a + 1) (Z.shiftr pos 8);;
  outb a 15;;
  outb (a + 1) pos.

(** A space is not a tab: the calls nest at most once. *)
Fixpoint cons_putc_depth (n : nat) (c : Z) : M console unit :=
  serial_putc c;;
  lpt_putc c;;
  cga_putc (match n with O => λ _, halt NoFuel | S n => cons_putc_depth n end) c.
Definition cons_putc : Z → M console unit := cons_putc_depth 1.
Definition cputchar (c : Z) : M console unit := cons_putc c.

(** ** The keyboard *)

Definition KBSTATP : Z := 0x64.
Definition KBS_DIB : Z := 1.
Definition KBDATAP : Z := 0x60.

Definition kbd_proc_data : M console Z :=
  st ← inb KBSTATP;
  if Z.land st KBS_DIB =? 0 then mret (-1)
  else
    data ← inb KBDATAP;
    sh ← gets shift;
    if data =? 0xE0 then modify (set_shift (Z.lor sh E0ESC));; mret 0
    else if has data 0x80 then
      let data := if has sh E0ESC then data else Z.land data 0x7F in
      modify (set_shift (Z.land sh (Z.lnot (Z.lor (at_ shiftcode data) E0ESC))));;
      mret 0
    else
      let '(data, sh) := if has sh E0ESC then (Z.lor data 0x80, Z.land sh (Z.lnot E0ESC)) else (data, sh) in
      let sh := Z.lor sh (at_ shiftcode data) in
      let sh := Z.lxor sh (at_ togglecode data) in
      modify (set_shift sh);;
      let c := at_ (charcode (Z.land sh (Z.lor CTL SHIFT))) data in
      let c := if has sh CAPSLOCK then
                 if (97 <=? c) && (c <=? 122) then c + (65 - 97)
                 else if (65 <=? c) && (c <=? 90) then c + (97 - 65)
                 else c
               else c in
      (if (Z.land (Z.lnot sh) (Z.lor CTL ALT) =? 0) && (c =? KEY_DEL) then outb 0x92 0x3 else mret tt);;
      mret c.

(** ** The input buffer *)

(** A device that always has data keeps the loop running. *)
Fixpoint cons_intr (fuel : nat) (proc : M console Z) : M console unit :=
  match fuel with
  | O => halt NoFuel
  | S fuel =>
      c ← proc;
      if c =? -1 then mret tt
      else
        (if c =? 0 then mret tt
         else
           w ← gets wpos;
           modify (set_wpos (u32 (w + 1)));;
           (if w <? CONSBUFSIZE then modify (λ s, set_cons_buf (<[Z.to_nat w := u8 c]> (cons_buf s)) s)
            else halt Fault);;
           w ← gets wpos;
           if w =? CONSBUFSIZE then modify (set_wpos 0) else mret tt);;
        cons_intr fuel proc
  end.

Definition serial_intr (fuel : nat) : M console unit :=
  e ← gets serial_exists;
  if (e : bool) then cons_intr fuel serial_proc_data else mret tt.
Definition kbd_intr (fuel : nat) : M console unit := cons_intr fuel kbd_proc_data.
Definition kbd_init (fuel : nat) : M console unit := kbd_intr fuel;; pic_enable_irq 1.

Definition cons_getc (fuel : nat) : M console Z :=
  serial_intr fuel;;
  kbd_intr fuel;;
  r ← gets rpos;
  w ← gets wpos;
  if negb (r =? w) then
    c ← deref (λ s, cons_buf s !! Z.to_nat r);
    modify (set_rpos (u32 (r + 1)));;
    r ← gets rpos;
    (if r =? CONSBUFSIZE then modify (set_rpos 0) else mret tt);;
    mret c
  else mret 0.

Definition cons_init (fuel : nat) : M console unit :=
  cga_init;; kbd_init fuel;; serial_init.

Fixpoint getchar (fuel : nat) : M console Z :=
  match fuel with
  | O => halt NoFuel
  | S n => c ← cons_getc (S n); if c =? 0 then getchar n else mret c
  end.

(** ** lib/readline.c *)

(** The loop of [readline]; [iscons] is 1.  [None] is NULL, [Some i] the
    buffer with its terminator at [i]. *)
Fixpoint readline_loop (fuel : nat) (i : Z) : M console (option Z) :=
  match fuel with
  | O => halt NoFuel
  | S n =>
      c ← getchar (S n);
      if c <? 0 then mret None
      else if ((c =? 8) || (c =? 0x7f)) && (0 <? i) then
        cputchar 8;; readline_loop n (i - 1)
      else if (32 <=? c) && (i <? BUFLEN - 1) then
        cputchar c;;
        modify (λ s, set_linebuf (<[Z.to_nat i := u8 c]> (linebuf s)) s);;
        readline_loop n (i + 1)
      else if (c =? 10) || (c =? 13) then
        cputchar 10;;
        modify (λ s, set_linebuf (<[Z.to_nat i := 0]> (linebuf s)) s);;
        mret (Some i)
      else readline_loop n i
  end.
Definition readline (fuel : nat) : M console (option Z) := readline_loop fuel 0.
End console.
