(* ===== verification/ConsoleProofs.v ===== *)
(** * The console: screen, keyboard and input buffer

    The screen is refined by a list of cells and a cursor: [put_char] says
    what a character does to it, [cons_putc_correct] that the code does that
    and touches nothing outside the screen, whatever the devices answer.  The
    input buffer is refined by a queue of at most 511 characters. *)

From S2P Require Import Prelude LinkedList Paging Console.

Local Open Scope Z_scope.

(** ** The abstract screen *)

Definition blank : Z := 0x0720.
(** The cell a character is shown with: white on black unless it has an
    attribute of its own. *)
Definition glyph (c : Z) : Z := if Z.land c (Z.lnot 0xFF) =? 0 then Z.lor c 0x0700 else c.

Definition wrap (s : list Z * Z) : list Z * Z :=
  let '(cells, pos) := s in
  if CRT_SIZE <=? pos then (drop (Z.to_nat CRT_COLS) cells ++ replicate (Z.to_nat CRT_COLS) blank, pos - CRT_COLS)
  else s.

(** A character other than a tab. *)
Definition put_plain (c : Z) (s : list Z * Z) : list Z * Z :=
  let '(cells, pos) := s in
  let ch := Z.land c 0xff in
  wrap (if ch =? 8 then
          if 0 <? pos then (<[Z.to_nat (pos - 1) := u16 (Z.lor (Z.land (glyph c) (Z.lnot 0xff)) 32)]> cells, pos - 1)
          else (cells, pos)
        else if ch =? 10 then (cells, (pos / CRT_COLS + 1) * CRT_COLS)
        else if ch =? 13 then (cells, pos / CRT_COLS * CRT_COLS)
        else (<[Z.to_nat pos := u16 (glyph c)]> cells, pos + 1)).

Definition put_char (c : Z) (s : list Z * Z) : list Z * Z :=
  if Z.land c 0xff =? 9 then Nat.iter 5 (put_plain 32) s else put_plain c s.

Section screen.
Context `{Ports}.

(** The cells of the screen, and the whole screen with the cursor. *)
Record cells_at (c : console) (cells : list Z) : Prop := {
  ca_len : length cells = Z.to_nat CRT_SIZE;
  ca_u16 : Forall (λ v, u16 v = v) cells;
  ca_cell : ∀ i : nat, (i < Z.to_nat CRT_SIZE)%nat → video c !! cell c (Z.of_nat i) = cells !! i;
}.
Definition shows (c : console) (s : list Z * Z) : Prop :=
  cells_at c s.1 ∧ crt_pos c = s.2 ∧ 0 ≤ s.2 < CRT_SIZE.

Definition on_screen (c : console) (a : Z) : Prop := ∃ i, 0 ≤ i < CRT_SIZE ∧ a = cell c i.

(** Only the devices, the cells of the screen and the cursor have changed. *)
Definition redrawn (c c' : console) : Prop :=
  ∃ d v p, c' = set_device d (set_video v (set_crt_pos p c)) ∧
    (∀ a, ¬ on_screen c a → v !! a = video c !! a).

Lemma redrawn_refl c : redrawn c c.
Proof. exists (device c), (video c), (crt_pos c). by destruct c. Qed.
Lemma redrawn_trans c1 c2 c3 : redrawn c1 c2 → redrawn c2 c3 → redrawn c1 c3.
Proof.
  intros (d & v & p & -> & Hv) (d' & v' & p' & -> & Hv'). exists d', v', p'. split; [done|].
  intros a Ha. rewrite Hv'; [by apply Hv|]. exact Ha.
Qed.

Lemma redrawn_cells vd p c : (∀ a, ¬ on_screen c a → vd !! a = video c !! a) → redrawn c (set_crt_pos p (set_video vd c)).
Proof. intros Ho. by exists (device c), vd, p. Qed.
Lemma redrawn_pos p c : redrawn c (set_crt_pos p c).
Proof. by exists (device c), (video c), p. Qed.

(** Ports: only the state of the devices changes. *)
Lemma wp_inb port Q c : (∀ v d, 0 ≤ v < 256 → Q v (set_device d c)) → wp (inb port) Q c.
Proof.
  intros HQ. unfold wp, inb. destruct (in_port port (device c)) as [v d]. apply HQ. apply Z.mod_pos_bound. lia.
Qed.
Lemma wp_outb port v Q c : (∀ d, Q tt (set_device d c)) → wp (outb port v) Q c.
Proof. intros HQ. apply HQ. Qed.

Lemma wait_ready_spec n port bit Q c : (∀ d, Q tt (set_device d c)) → wp (wait_ready n port bit) Q c.
Proof.
  revert c. induction n as [|n IH]; intros c HQ; cbn [wait_ready]; wp_step; apply wp_inb; intros v d _.
  - by destruct (has v bit); wp_step.
  - destruct (has v bit); [by wp_step|]. wp_step. unfold delay.
    do 4 (wp_step; apply wp_inb; intros ?? _). wp_step. apply IH. intros d'. apply HQ.
Qed.

Lemma serial_lpt_spec ch (m : M console unit) Q c : (∀ d, wp m Q (set_device d c)) →
  wp (serial_putc ch;; lpt_putc ch;; m) Q c.
Proof.
  intros HQ. wp_step. unfold serial_putc. wp_step. apply wait_ready_spec. intros d1. apply wp_outb. intros d2.
  unfold lpt_putc. wp_step. wp_step. apply wait_ready_spec. intros d3. wp_step. apply wp_outb. intros d4.
  wp_step. apply wp_outb. intros d5. apply wp_outb. intros d6. apply HQ.
Qed.

(** Cells. *)
Lemma u16_idem v : u16 (u16 v) = u16 v.
Proof. unfold u16. by rewrite Z.mod_mod. Qed.

Lemma put_cell_spec i v c cells : cells_at c cells → 0 ≤ i < CRT_SIZE →
  wp (put_cell i v) (λ _ c', ∃ vd, c' = set_video vd c ∧ cells_at c' (<[Z.to_nat i := u16 v]> cells) ∧
    (∀ a, ¬ on_screen c a → vd !! a = video c !! a)) c.
Proof.
  intros [Hl Hu Hc] Hi. unfold put_cell, vstore. wp_step. wp_step. wp_step.
  assert (is_Some (video c !! cell c i)) as Hs.
  { rewrite <-(Z2Nat.id i) by lia. rewrite Hc by lia. apply lookup_lt_is_Some. lia. }
  destruct (decide _) as [_|]; [|done]. eexists. split; [done|]. split; [split|].
  - by rewrite length_insert.
  - apply Forall_insert; [done|apply u16_idem].
  - intros j Hj. unfold cell at 1. cbn [crt_buf video set_video].
    destruct (decide (j = Z.to_nat i)) as [->|Hne].
    + rewrite list_lookup_insert_eq by lia. rewrite Z2Nat.id by lia. apply lookup_insert_eq.
    + rewrite list_lookup_insert_ne by done. rewrite lookup_insert_ne by (unfold cell; lia). by apply Hc.
  - intros a Ha. apply lookup_insert_ne. intros <-. apply Ha. by exists i.
Qed.

(** [put_cells] overwrites a part of the screen. *)
Definition over (i : nat) (vs cells : list Z) : list Z := take i cells ++ vs ++ drop (i + length vs) cells.

Lemma over_cons i v vs cells : (i + S (length vs) ≤ length cells)%nat →
  over (S i) vs (<[i := v]> cells) = over i (v :: vs) cells.
Proof.
  intros Hl. unfold over. rewrite drop_insert_lt by lia.
  rewrite (take_S_r _ i v) by (apply list_lookup_insert_eq; lia). rewrite take_insert_ge by lia.
  rewrite <-app_assoc. simpl. do 3 f_equal. f_equal. lia.
Qed.

Lemma put_cells_spec vs i c cells : cells_at c cells → Forall (λ v, u16 v = v) vs →
  0 ≤ i → i + Z.of_nat (length vs) ≤ CRT_SIZE →
  wp (put_cells i vs) (λ _ c', ∃ vd, c' = set_video vd c ∧ cells_at c' (over (Z.to_nat i) vs cells) ∧
    (∀ a, ¬ on_screen c a → vd !! a = video c !! a)) c.
Proof.
  revert i c cells. induction vs as [|v vs IH]; intros i c cells Hc Hvs Hi Hl; cbn [put_cells].
  - wp_step. exists (video c). split; [by destruct c|]. split; [|done].
    unfold over. simpl. rewrite Nat.add_0_r, take_drop. done.
  - simpl in Hl. inversion_clear Hvs as [|?? Hv Hvs']. wp_step.
    eapply wp_mono; [apply (put_cell_spec i v _ _ Hc); lia|].
    cbv beta. intros [] c1 (vd & -> & Hc1 & Ho). rewrite Hv in Hc1.
    eapply wp_mono; [apply (IH (i + 1) _ _ Hc1 Hvs'); lia|]. cbv beta. intros [] c2 (vd2 & -> & Hc2 & Ho2).
    exists vd2. split; [done|]. split.
    + rewrite Z2Nat.inj_add in Hc2 by lia. change (Z.to_nat 1) with 1%nat in Hc2.
      rewrite Nat.add_1_r in Hc2. rewrite over_cons in Hc2; [done|]. destruct Hc as [-> _ _]. lia.
    + intros a Ha. rewrite Ho2; [by apply Ho|]. exact Ha.
Qed.

Lemma get_cells_spec n i c cells : cells_at c cells → 0 ≤ i → i + Z.of_nat n ≤ CRT_SIZE →
  wp (get_cells n i) (λ vs c', c' = c ∧ vs = take n (drop (Z.to_nat i) cells)) c.
Proof.
  intros [Hl _ Hc]. revert i. induction n as [|n IH]; intros i Hi Hn; cbn [get_cells].
  - wp_step. done.
  - wp_step. unfold get_cell, vload. wp_step. wp_step. wp_step. wp_step.
    eapply wp_mono; [apply IH; lia|]. cbv beta. intros vs c' [-> ->]. wp_step. split; [done|].
    destruct (lookup_lt_is_Some_2 cells (Z.to_nat i)) as [v Hv]; [lia|].
    rewrite <-(Z2Nat.id i) at 1 by lia. rewrite Hc, Hv by lia. simpl.
    rewrite (drop_S _ v _ Hv). simpl.
    by replace (Z.to_nat (i + 1)) with (S (Z.to_nat i)) by lia.
Qed.

Lemma cells_at_pos p c cells : cells_at c cells → cells_at (set_crt_pos p c) cells.
Proof. by intros []. Qed.
Lemma cells_at_dev d c cells : cells_at c cells → cells_at (set_device d c) cells.
Proof. by intros []. Qed.

Lemma scroll_spec c cells : cells_at c cells →
  wp scroll (λ _ c', ∃ vd, c' = set_video vd c ∧
    cells_at c' (drop (Z.to_nat CRT_COLS) cells ++ replicate (Z.to_nat CRT_COLS) blank) ∧
    (∀ a, ¬ on_screen c a → vd !! a = video c !! a)) c.
Proof.
  intros Hc. pose proof (ca_len _ _ Hc) as Hl. change (Z.to_nat CRT_SIZE) with (1920 + 80)%nat in Hl.
  unfold scroll. wp_step. eapply wp_mono; [apply (get_cells_spec _ _ _ _ Hc); unfold CRT_SIZE, CRT_COLS, CRT_ROWS; lia|].
  cbv beta. change (Z.to_nat CRT_COLS) with 80%nat. change (Z.to_nat (CRT_SIZE - CRT_COLS)) with 1920%nat.
  intros vs c' [-> ->]. rewrite take_ge by (rewrite length_drop; lia). wp_step.
  eapply wp_mono; [apply (put_cells_spec _ 0 _ _ Hc)|].
  { apply Forall_drop, Hc. } { lia. } { rewrite length_drop, Hl. unfold CRT_SIZE, CRT_COLS, CRT_ROWS; lia. }
  cbv beta. intros [] c1 (vd & -> & Hc1 & Ho).
  eapply wp_mono; [apply (put_cells_spec _ _ _ _ Hc1); [by apply Forall_replicate| |];
    unfold CRT_SIZE, CRT_COLS, CRT_ROWS; rewrite ?length_replicate; lia|].
  cbv beta. intros [] c2 (vd2 & -> & Hc2 & Ho2). exists vd2. split; [done|]. split.
  - revert Hc2. unfold over. change (Z.to_nat (CRT_SIZE - CRT_COLS)) with 1920%nat. change (Z.to_nat 0) with 0%nat.
    rewrite take_0. cbn [app]. rewrite length_replicate, length_drop, Hl.
    replace (0 + (1920 + 80 - 80))%nat with 1920%nat by lia.
    rewrite take_app_length' by (rewrite length_drop; lia).
    rewrite (drop_ge (drop 80 cells ++ _)); [by rewrite app_nil_r|]. rewrite length_app, !length_drop. lia.
  - intros a Ha. rewrite Ho2; [by apply Ho|]. exact Ha.
Qed.

(** After the character has been handled the screen scrolls if it has to and
    the cursor is set. *)
Lemma finish_spec c cells pos (Q : unit → console → Prop) : cells_at c cells → crt_pos c = pos → 0 ≤ pos < CRT_SIZE + CRT_COLS →
  (∀ c', redrawn c c' → shows c' (wrap (cells, pos)) → Q tt c') →
  wp (pos ← gets crt_pos;
      (if CRT_SIZE <=? pos then scroll;; modify (set_crt_pos (u16 (pos - CRT_COLS))) else mret tt);;
      a ← gets addr_6845;
      pos ← gets crt_pos;
      outb a 14;; outb (a + 1) (Z.shiftr pos 8);; outb a 15;; outb (a + 1) pos) Q c.
Proof.
  intros Hc Hp Hr HQ. unfold CRT_SIZE, CRT_ROWS, CRT_COLS in Hr. wp_step. wp_step. rewrite Hp. wp_step.
  assert (∀ c' cells' pos', redrawn c c' → cells_at c' cells' → crt_pos c' = pos' → 0 ≤ pos' < CRT_SIZE →
    wrap (cells, pos) = (cells', pos') →
    wp (a ← gets addr_6845; pos ← gets crt_pos;
      outb a 14;; outb (a + 1) (Z.shiftr pos 8);; outb a 15;; outb (a + 1) pos) Q c') as Hend.
  { intros c' cells' pos' Hr' Hc' Hp' Hb' Ew. wp_step. wp_step. wp_step. wp_step. do 3 (wp_step; apply wp_outb; intros ?d).
    apply wp_outb. intros dl. apply HQ.
    - eapply redrawn_trans; [exact Hr'|]. eexists dl, (video c'), (crt_pos c'). split; [by destruct c'|done].
    - rewrite Ew. split; [|done]. by repeat apply cells_at_dev. }
  revert Hend. unfold wrap. destruct (CRT_SIZE <=? pos) eqn:E; intros Hend.
  - wp_step. eapply wp_mono; [apply (scroll_spec _ _ Hc)|]. cbv beta. intros [] c1 (vd & -> & Hc1 & Ho). wp_step.
    apply Z.leb_le in E. unfold CRT_SIZE, CRT_ROWS in E. eapply (Hend _ _ (pos - CRT_COLS)); [| | | |reflexivity].
    + by apply redrawn_cells.
    + by apply cells_at_pos.
    + cbn. unfold u16. by rewrite Z.mod_small by (unfold CRT_COLS in *; lia).
    + unfold CRT_SIZE, CRT_ROWS, CRT_COLS in *. lia.
  - wp_step. apply Z.leb_gt in E. eapply Hend; [apply redrawn_refl|done|done| |done]. unfold CRT_SIZE in *. lia.
Qed.

(** [cga_putc] without the tab, and with it when [putc] handles a space. *)
Lemma cga_plain_spec putc ch c s : shows c s → Z.land ch 0xff ≠ 9 →
  wp (cga_putc putc ch) (λ _ c', redrawn c c' ∧ shows c' (put_plain ch s)) c.
Proof.
  destruct s as [cells pos]. intros (Hc & Hp & Hb) Ht. simpl in Hp, Hb, Hc.
  unfold CRT_SIZE, CRT_ROWS, CRT_COLS in Hb. unfold cga_putc, put_plain. fold (glyph ch).
  assert (Z.land (glyph ch) 0xff = Z.land ch 0xff) as ->.
  { unfold glyph. destruct (_ =? 0); [|done]. rewrite Z.land_lor_distr_l. change (Z.land 0x0700 0xff) with 0. apply Z.lor_0_r. }
  rewrite (proj2 (Z.eqb_neq _ _) Ht).
  wp_step. destruct (Z.land ch 255 =? 8).
  - wp_step. wp_step. rewrite Hp. destruct (0 <? pos) eqn:E.
    + apply Z.ltb_lt in E. assert (u16 (pos - 1) = pos - 1) as -> by (apply Z.mod_small; lia). wp_step. wp_step.
      eapply wp_mono; [apply (put_cell_spec _ _ _ cells); [by apply cells_at_pos|unfold CRT_SIZE, CRT_ROWS, CRT_COLS; lia]|].
      cbv beta. intros [] c1 (vd & -> & Hc1 & Ho).
      eapply (finish_spec _ _ (pos - 1)); [exact Hc1|done|unfold CRT_SIZE, CRT_ROWS, CRT_COLS; lia|].
      intros c' Hr Hs. split; [|done]. eapply redrawn_trans; [|exact Hr].
      by apply redrawn_cells.
    + wp_step. eapply finish_spec; [exact Hc|done|unfold CRT_SIZE, CRT_ROWS, CRT_COLS; lia|]. by intros c' Hr Hs.
  - destruct (Z.land ch 255 =? 10) eqn:E10; [|destruct (Z.land ch 255 =? 13) eqn:E13]; cbn [orb].
    + wp_step. wp_step. wp_step. rewrite Hp. unfold CRT_COLS, u16.
      eapply (finish_spec _ cells ((pos / 80 + 1) * 80)); [by do 2 apply cells_at_pos| | |].
      * cbn. rewrite (Z.mod_small (pos + 80)) by lia. mlia.
      * unfold CRT_SIZE, CRT_ROWS, CRT_COLS. mlia.
      * intros c' Hr Hs. split; [|done]. eapply redrawn_trans; [|exact Hr].
        apply (redrawn_pos _ c).
    + wp_step. wp_step. wp_step. rewrite Hp. unfold CRT_COLS, u16.
      eapply (finish_spec _ cells (pos / 80 * 80)); [by apply cells_at_pos| | |].
      * cbn. mlia.
      * unfold CRT_SIZE, CRT_ROWS, CRT_COLS. mlia.
      * intros c' Hr Hs. split; [|done]. eapply redrawn_trans; [|exact Hr].
        apply (redrawn_pos _ c).
    + wp_step. wp_step. wp_step. wp_step. rewrite Hp.
      eapply wp_mono; [apply (put_cell_spec _ _ _ cells); [by apply cells_at_pos|unfold CRT_SIZE, CRT_ROWS, CRT_COLS; lia]|].
      cbv beta. intros [] c1 (vd & -> & Hc1 & Ho).
      eapply (finish_spec _ _ (pos + 1)); [exact Hc1| |unfold CRT_SIZE, CRT_ROWS, CRT_COLS; lia|].
      * cbn. unfold u16. by rewrite Z.mod_small by lia.
      * intros c' Hr Hs. split; [|done]. eapply redrawn_trans; [|exact Hr].
        by apply redrawn_cells.
Qed.

Lemma shows_dev d c s : shows c s → redrawn c (set_device d c) ∧ shows (set_device d c) s.
Proof.
  intros (Hc & Hp & Hb). split; [exists d, (video c), (crt_pos c); by destruct c|].
  split; [by apply cells_at_dev|done].
Qed.

Lemma cons_putc_plain n ch c s : shows c s → Z.land ch 0xff ≠ 9 →
  wp (cons_putc_depth n ch) (λ _ c', redrawn c c' ∧ shows c' (put_plain ch s)) c.
Proof.
  intros Hs Ht. destruct n; cbn [cons_putc_depth]; apply serial_lpt_spec; intros d; destruct (shows_dev d _ _ Hs) as [Hr Hs'];
    (eapply wp_mono; [exact (cga_plain_spec _ _ _ _ Hs' Ht)|]; cbv beta; intros [] c' [Hr' Hs'']; split; [exact (redrawn_trans _ _ _ Hr Hr')|done]).
Qed.

Lemma wrap_shows c s : shows c s → wrap s = s.
Proof. destruct s as [cells pos]. intros (_ & _ & Hb). unfold wrap. rewrite (proj2 (Z.leb_gt _ _)); [done|apply Hb]. Qed.

(** One of the spaces of a tab. *)
Lemma space_step c0 c s (m : unit → M console unit) Q : redrawn c0 c → shows c s →
  (∀ c', redrawn c0 c' → shows c' (put_plain 32 s) → wp (m tt) Q c') → wp (cons_putc_depth 0 32 ≫= m) Q c.
Proof.
  intros Hr Hs Hm. wp_step. eapply wp_mono; [apply (cons_putc_plain 0 32 _ _ Hs); done|].
  cbv beta. intros [] c' [Hr' Hs']. apply Hm; [exact (redrawn_trans _ _ _ Hr Hr')|done].
Qed.

Lemma cons_putc_spec ch c s : shows c s →
  wp (cons_putc ch) (λ _ c', redrawn c c' ∧ shows c' (put_char ch s)) c.
Proof.
  intros Hs. unfold put_char. destruct (Z.land ch 255 =? 9) eqn:E; [|apply Z.eqb_neq in E; by apply cons_putc_plain].
  apply Z.eqb_eq in E. unfold cons_putc. cbn [cons_putc_depth]. apply serial_lpt_spec. intros d.
  destruct (shows_dev d _ _ Hs) as [Hr0 Hs0]. revert Hr0 Hs0. generalize (set_device d c). intros c0 Hr0 Hs0.
  unfold cga_putc. fold (glyph ch).
  assert (Z.land (glyph ch) 0xff = 9) as ->.
  { unfold glyph. destruct (_ =? 0); [|done]. rewrite Z.land_lor_distr_l, E. done. }
  cbn [Z.eqb Pos.eqb orb]. wp_step.
  do 4 (eapply space_step; [eassumption|eassumption|]; intros ?c ??).
  eapply wp_mono; [apply (cons_putc_plain 0 32); [eassumption|done]|]. cbv beta. intros [] c5 [Hr5 Hs5].
  eapply (finish_spec _ _ _ _ (proj1 Hs5) (proj1 (proj2 Hs5))).
  { destruct Hs5 as (_ & _ & Hb). unfold CRT_COLS. lia. }
  intros c' Hr' Hs'. rewrite <-surjective_pairing, (wrap_shows _ _ Hs5) in Hs'. split; [|exact Hs'].
  eapply redrawn_trans; [eassumption|]. exact (redrawn_trans _ _ _ Hr5 Hr').
Qed.
End screen.

(** ** The input buffer *)

Section input.
Context `{Ports}.

(** The buffer holds the characters [q], oldest first. *)
Record holds (c : console) (q : list Z) : Prop := {
  ho_len : length (cons_buf c) = Z.to_nat CONSBUFSIZE;
  ho_rpos : 0 ≤ rpos c < CONSBUFSIZE;
  ho_fits : Z.of_nat (length q) ≤ CONSBUFSIZE;
  ho_wpos : wpos c = (rpos c + Z.of_nat (length q)) `mod` CONSBUFSIZE;
  ho_chars : ∀ (i : nat) x, q !! i = Some x →
    cons_buf c !! Z.to_nat ((rpos c + Z.of_nat i) `mod` CONSBUFSIZE) = Some x;
}.

(** [proc] takes the characters [cs] from the devices, zeros included, and
    then finds no more; it depends on and changes only the devices and the
    state of the shift keys. *)
Inductive delivers (proc : M console Z) : dev * Z → list Z → dev * Z → Prop :=
| delivers_end d sh d' sh' :
    (∀ c, device c = d → shift c = sh → proc c = OK (-1) (set_device d' (set_shift sh' c))) →
    delivers proc (d, sh) [] (d', sh')
| delivers_char d sh x d1 sh1 cs e :
    (∀ c, device c = d → shift c = sh → proc c = OK x (set_device d1 (set_shift sh1 c))) →
    0 ≤ x < 256 → delivers proc (d1, sh1) cs e → delivers proc (d, sh) (x :: cs) e.

(** Zero is no character. *)
Definition typed (cs : list Z) : list Z := filter (λ x, x ≠ 0) cs.

(** Only devices, shift keys and the buffer have changed. *)
Definition polled (c c' : console) (e : dev * Z) : Prop :=
  ∃ b w, c' = set_device e.1 (set_shift e.2 (set_cons_buf b (set_wpos w c))).

Lemma polled_trans c1 c2 c3 e1 e2 : polled c1 c2 e1 → polled c2 c3 e2 → polled c1 c3 e2.
Proof. intros (b & w & ->) (b' & w' & ->). by exists b', w'. Qed.

(** Storing one character. *)
Lemma store_char_spec x c q : holds c q → 0 < x < 256 → Z.of_nat (length q) < CONSBUFSIZE →
  wp (w ← gets wpos;
      modify (set_wpos (u32 (w + 1)));;
      (if w <? CONSBUFSIZE then modify (λ s, set_cons_buf (<[Z.to_nat w := u8 x]> (cons_buf s)) s) else halt Fault);;
      w ← gets wpos;
      if w =? CONSBUFSIZE then modify (set_wpos 0) else mret tt)
    (λ _ c', (∃ b w, c' = set_cons_buf b (set_wpos w c)) ∧ holds c' (q ++ [x])) c.
Proof.
  intros [Hl Hr Hf Hw Hc] Hx Hq. unfold CONSBUFSIZE in *.
  assert (0 ≤ wpos c < 512) as Hb by (rewrite Hw; apply Z.mod_pos_bound; lia).
  wp_step. wp_step. wp_step. wp_step. rewrite (proj2 (Z.ltb_lt _ _)) by lia. wp_step. wp_step. wp_step. wp_step.
  assert (∀ w', w' = (wpos c + 1) `mod` 512 →
    holds (set_cons_buf (<[Z.to_nat (wpos c) := u8 x]> (cons_buf c)) (set_wpos w' c)) (q ++ [x])) as Hh.
  { intros w' ->. split; cbn [cons_buf rpos wpos set_cons_buf set_wpos]; unfold CONSBUFSIZE; rewrite ?length_app; simpl.
    - by rewrite length_insert.
    - done.
    - lia.
    - rewrite Hw. mlia.
    - intros i y Hi. apply lookup_app_Some in Hi as [Hi|[Hge Hi]].
      + rewrite list_lookup_insert_ne; [by apply Hc|]. apply lookup_lt_Some in Hi. mlia.
      + apply list_lookup_singleton_Some in Hi as [Hi <-]. replace i with (length q) by lia. rewrite <-Hw.
        rewrite list_lookup_insert_eq by lia. f_equal. apply Z.mod_small. lia. }
  cbn [wpos set_cons_buf set_wpos]. unfold u32. rewrite Z.mod_small by lia.
  destruct (wpos c + 1 =? 512) eqn:E.
  - apply Z.eqb_eq in E. wp_step. split; [by eexists _, 0|]. apply (Hh 0). by rewrite E.
  - apply Z.eqb_neq in E. wp_step. split; [by eexists _, _|]. apply (Hh (wpos c + 1)). rewrite Z.mod_small by lia. done.
Qed.

Lemma cons_intr_spec proc cs e e' fuel c q : delivers proc e cs e' → (length cs < fuel)%nat →
  device c = e.1 → shift c = e.2 → holds c q → Z.of_nat (length (q ++ typed cs)) ≤ CONSBUFSIZE →
  wp (cons_intr fuel proc) (λ _ c', polled c c' e' ∧ holds c' (q ++ typed cs)) c.
Proof.
  intros Hd. revert fuel c q. induction Hd as [d sh d' sh' Hp|d sh x d1 sh1 cs e Hp Hx Hd IH];
    intros fuel c q Hf Ed Es Hh Hq; (destruct fuel as [|fuel]; [simpl in Hf; lia|]); cbn [cons_intr]; simpl in Ed, Es.
  - wp_step. eapply wp_OK; [by apply Hp|]. cbn [Z.eqb Pos.eqb]. wp_step. split; [exists (cons_buf c), (wpos c); by destruct c|].
    unfold typed. simpl. rewrite app_nil_r. by destruct Hh.
  - wp_step. eapply wp_OK; [by apply Hp|]. rewrite (proj2 (Z.eqb_neq _ _)) by lia.
    set (c1 := set_device d1 (set_shift sh1 c)).
    assert (holds c1 q) as Hh1 by (by destruct Hh). revert Hq.
    unfold typed. rewrite filter_cons. destruct (decide (x ≠ 0)) as [Hn|Hn]; intros Hq.
    + rewrite (proj2 (Z.eqb_neq _ _)) by lia. rewrite length_app in Hq. simpl in Hq. wp_step.
      eapply wp_mono; [apply (store_char_spec x c1 q Hh1); lia|]. cbv beta. intros [] c2 [(b & w & ->) Hh2].
      change (x :: filter _ cs) with ([x] ++ typed cs). rewrite app_assoc.
      eapply wp_mono; [apply IH; [simpl in Hf; lia|done|done|exact Hh2|]|].
      { rewrite !length_app. unfold typed. simpl. lia. }
      cbv beta. intros [] c3 [Hpo Hh3]. split; [|done]. eapply (polled_trans _ _ _ (d1, sh1)); [|exact Hpo].
      by exists b, w.
    + assert (x = 0) as -> by lia. wp_step. cbn [Z.eqb]. wp_step. eapply wp_mono; [apply IH; [simpl in Hf; lia|done|done|exact Hh1|exact Hq]|].
      cbv beta. intros [] c3 [Hpo Hh3]. split; [|done]. eapply (polled_trans _ _ _ (d1, sh1)); [|exact Hpo].
      exists (cons_buf c), (wpos c). by destruct c.
Qed.

(** Reading one character. *)
Lemma take_char_spec c q :
  holds c q → Z.of_nat (length q) < CONSBUFSIZE →
  wp (r ← gets rpos;
      w ← gets wpos;
      if negb (r =? w) then
        x ← deref (λ s, cons_buf s !! Z.to_nat r);
        modify (set_rpos (u32 (r + 1)));;
        r ← gets rpos;
        (if r =? CONSBUFSIZE then modify (set_rpos 0) else mret tt);;
        mret x
      else mret 0)
    (λ x c', (∃ r, c' = set_rpos r c) ∧ x = default 0 (head q) ∧ holds c' (tail q)) c.
Proof.
  intros [Hl Hr Hf Hw Hc] Hq. unfold CONSBUFSIZE in *. wp_step. wp_step. wp_step. wp_step.
  destruct q as [|x q].
  - simpl in Hw. rewrite Hw, Z.add_0_r, Z.mod_small, Z.eqb_refl by lia. cbn [negb]. wp_step.
    split; [exists (rpos c); by destruct c|]. split; [done|]. split; simpl; unfold CONSBUFSIZE; [done|done|lia| |done].
    rewrite Hw, Z.add_0_r. done.
  - rewrite (proj2 (Z.eqb_neq _ _)) by (rewrite Hw; simpl in *; mlia). cbn [negb]. wp_step.
    eapply wp_deref. { rewrite <-(Hc 0%nat x eq_refl). f_equal. rewrite Z.add_0_r, Z.mod_small by lia. done. }
    wp_step. wp_step. wp_step. wp_step. cbn [rpos set_rpos]. unfold u32. rewrite Z.mod_small by lia.
    assert (∀ r', r' = (rpos c + 1) `mod` 512 → holds (set_rpos r' c) q) as Hh.
    { intros r' ->. split; cbn [cons_buf rpos wpos set_rpos]; unfold CONSBUFSIZE; simpl in *.
      - done.
      - apply Z.mod_pos_bound. lia.
      - lia.
      - rewrite Hw. mlia.
      - intros i y Hi. rewrite <-(Hc (S i) y Hi). do 2 f_equal. mlia. }
    destruct (rpos c + 1 =? 512) eqn:E.
    + apply Z.eqb_eq in E. wp_step. wp_step. wp_step. split; [by eexists 0|]. split; [done|]. apply (Hh 0). by rewrite E.
    + apply Z.eqb_neq in E. wp_step. wp_step. wp_step. split; [by eexists _|]. split; [done|]. apply Hh. rewrite Z.mod_small by lia. done.
Qed.

(** [cons_getc] on what is buffered and what the devices have to deliver. *)
Definition getc_case (c : console) (q cs1 cs2 : list Z) (fuel : nat) (e1 e2 : dev * Z) : Prop :=
  holds c q ∧ serial_exists c = true ∧
  delivers serial_proc_data (device c, shift c) cs1 e1 ∧ delivers kbd_proc_data e1 cs2 e2 ∧
  (length cs1 < fuel)%nat ∧ (length cs2 < fuel)%nat.

Lemma poll_spec c q cs1 cs2 fuel e1 e2 (m : M console Z) Q : getc_case c q cs1 cs2 fuel e1 e2 →
  Z.of_nat (length (q ++ typed cs1 ++ typed cs2)) ≤ CONSBUFSIZE →
  (∀ c', polled c c' e2 → holds c' (q ++ typed cs1 ++ typed cs2) → wp m Q c') →
  wp (serial_intr fuel;; kbd_intr fuel;; m) Q c.
Proof.
  intros (Hh & Es & H1 & H2 & Hf1 & Hf2) Hq Hm. wp_step. unfold serial_intr. wp_step. wp_step. rewrite Es.
  eapply wp_mono; [apply (cons_intr_spec _ _ _ _ _ _ _ H1 Hf1 eq_refl eq_refl Hh)|].
  { rewrite !length_app in *. lia. }
  cbv beta. intros [] c1 [Hp1 Hh1]. wp_step. unfold kbd_intr.
  eapply wp_mono; [apply (cons_intr_spec _ _ _ _ _ _ (q ++ typed cs1) H2 Hf2); [| |exact Hh1|by rewrite <-app_assoc]|].
  { by destruct Hp1 as (b & w & ->). } { by destruct Hp1 as (b & w & ->). }
  cbv beta. intros [] c2 [Hp2 Hh2]. rewrite <-app_assoc in Hh2. apply Hm; [exact (polled_trans _ _ _ _ _ Hp1 Hp2)|done].
Qed.
End input.

(** ** The keyboard *)

(** What a scan code does: the character and the new state of the shift keys. *)
Definition decode (data sh : Z) : Z * Z :=
  if data =? 0xE0 then (0, Z.lor sh E0ESC)
  else if has data 0x80 then
    let data := if has sh E0ESC then data else Z.land data 0x7F in
    (0, Z.land sh (Z.lnot (Z.lor (at_ shiftcode data) E0ESC)))
  else
    let '(data, sh) := if has sh E0ESC then (Z.lor data 0x80, Z.land sh (Z.lnot E0ESC)) else (data, sh) in
    let sh := Z.lxor (Z.lor sh (at_ shiftcode data)) (at_ togglecode data) in
    let c := at_ (charcode (Z.land sh (Z.lor CTL SHIFT))) data in
    (if has sh CAPSLOCK then
       if (97 <=? c) && (c <=? 122) then c - 32 else if (65 <=? c) && (c <=? 90) then c + 32 else c
     else c, sh).

Definition letter_key (data : Z) : bool :=
  (data <? 0x80) && (97 <=? at_ normalmap data) && (at_ normalmap data <=? 122).

(** Checked for every scan code and every state of the shift keys. *)
Definition decode_ok (data sh : Z) : bool :=
  let '(r, sh') := decode data sh in
  (0 <=? r) && (r <? 256) && (0 <=? sh') && (sh' <? 128) &&
  (negb (letter_key data && negb (has sh CTL) && negb (has sh E0ESC)) ||
   (r =? if xorb (has sh SHIFT) (has sh CAPSLOCK) then at_ normalmap data - 32 else at_ normalmap data)).

Lemma decode_checked data sh : 0 ≤ data < 256 → 0 ≤ sh < 128 → decode_ok data sh = true.
Proof.
  intros Hd Hs.
  assert (forallb (λ d, forallb (λ s, decode_ok (Z.of_nat d) (Z.of_nat s)) (seq 0 128)) (seq 0 256) = true) as Hall
    by (by vm_compute).
  rewrite forallb_forall in Hall. specialize (Hall (Z.to_nat data)). rewrite forallb_forall in Hall.
  rewrite <-(Z2Nat.id data), <-(Z2Nat.id sh) by lia. apply Hall; apply in_seq; lia.
Qed.

Lemma kbd_proc_data_decode `{Ports} v d1 x d2 c : in_port KBSTATP (device c) = (v, d1) →
  has (u8 v) KBS_DIB = true → in_port KBDATAP d1 = (x, d2) →
  wp kbd_proc_data (λ r c', r = (decode (u8 x) (shift c)).1 ∧
    ∃ d, c' = set_device d (set_shift (decode (u8 x) (shift c)).2 c)) c.
Proof.
  intros E1 Hst E2. unfold kbd_proc_data. wp_step. unfold inb at 1, wp at 1. rewrite E1. unfold has in Hst.
  apply negb_true_iff in Hst. rewrite Hst. wp_step. unfold inb, wp at 1. cbn [device set_device]. rewrite E2.
  wp_step. wp_step. cbn [shift set_device]. unfold decode. destruct (u8 x =? 224).
  - wp_step. wp_step. wp_step. split; [done|]. by eexists.
  - destruct (has (u8 x) 128).
    + wp_step. wp_step. wp_step. split; [done|]. by eexists.
    + destruct (has (shift c) E0ESC).
      all: wp_step; wp_step; wp_step; match goal with |- wp (if ?b then _ else _) _ _ => destruct b end;
        (wp_step || (apply wp_outb; intros ?)); wp_step.
      all: split; [|by eexists].
      all: cbn [fst]; repeat match goal with |- context [if ?b then _ else _] => destruct b end; try done; lia.
Qed.

(** C26 (refinement).  Printing a character is the abstract operation [put_char] on
    the screen: backspace erases, newline and carriage return move the cursor,
    a tab is five spaces, any other character is shown at the cursor, and the
    screen scrolls by a line when the cursor leaves it.  The call returns
    whatever the ports answer and changes, besides the devices, only the
    cursor and cells of the screen. *)
Theorem cons_putc_correct `{Ports} ch c s : shows c s →
  wp (cons_putc ch) (λ _ c', redrawn c c' ∧ shows c' (put_char ch s)) c.
Proof. apply cons_putc_spec. Qed.

(** Console input is a queue: if the characters waiting in
    the buffer and those the serial port and the keyboard deliver are at most
    511, [cons_getc] returns the oldest of them, 0 if there is none, and
    leaves the others, in order. *)
Theorem cons_getc_fifo `{Ports} c q cs1 cs2 fuel e1 e2 :
  getc_case c q cs1 cs2 fuel e1 e2 → Z.of_nat (length (q ++ typed cs1 ++ typed cs2)) < CONSBUFSIZE →
  wp (cons_getc fuel) (λ x c', x = default 0 (head (q ++ typed cs1 ++ typed cs2)) ∧
    holds c' (tail (q ++ typed cs1 ++ typed cs2))) c.
Proof.
  intros Hc Hq. apply (poll_spec _ _ _ _ _ _ _ _ _ Hc); [lia|]. intros c1 _ Hh.
  eapply wp_mono; [apply (take_char_spec _ _ Hh Hq)|]. cbv beta. by intros x c2 (_ & -> & ?).
Qed.

(** The buffer does not notice that it is full: when 512
    characters are waiting [cons_getc] returns 0, as if there were none, and
    all of them are lost. *)
Theorem cons_getc_overflow `{Ports} c q cs1 cs2 fuel e1 e2 :
  getc_case c q cs1 cs2 fuel e1 e2 → Z.of_nat (length (q ++ typed cs1 ++ typed cs2)) = CONSBUFSIZE →
  wp (cons_getc fuel) (λ x c', x = 0 ∧ holds c' []) c.
Proof.
  intros Hc Hq. apply (poll_spec _ _ _ _ _ _ _ _ _ Hc); [lia|]. intros c1 _ [Hl Hr Hf Hw Hc1].
  rewrite Hq in Hw. unfold CONSBUFSIZE in *.
  assert (wpos c1 = rpos c1) as Ew by (rewrite Hw; mlia).
  wp_step. wp_step. wp_step. wp_step. rewrite Ew, Z.eqb_refl. cbn [negb]. wp_step. split; [done|].
  split; simpl; unfold CONSBUFSIZE; [done|done|lia| |done]. rewrite Ew, Z.add_0_r, Z.mod_small; [done|lia].
Qed.

(** C27 (type).  A keyboard poll returns -1 exactly when the controller has no
    data, and otherwise a byte (0 for a key that types nothing); the shift
    state stays a set of its seven flags and nothing else changes but the
    devices.  A letter key types the capital letter exactly if one of Shift and
    Caps Lock is on. *)
Theorem kbd_proc_data_correct `{Ports} c v d1 x d2 :
  0 ≤ shift c < 128 → in_port KBSTATP (device c) = (v, d1) → in_port KBDATAP d1 = (x, d2) →
  wp kbd_proc_data (λ r c',
    (if has (u8 v) KBS_DIB then 0 ≤ r < 256 else r = -1) ∧ 0 ≤ shift c' < 128 ∧
    (∃ d, c' = set_device d (set_shift (shift c') c)) ∧
    (has (u8 v) KBS_DIB → letter_key (u8 x) → has (shift c) CTL = false → has (shift c) E0ESC = false →
     r = if xorb (has (shift c) SHIFT) (has (shift c) CAPSLOCK)
         then at_ normalmap (u8 x) - 32 else at_ normalmap (u8 x))) c.
Proof.
  intros Hs E1 E2. destruct (has (u8 v) KBS_DIB) eqn:Hst.
  - eapply wp_mono; [by eapply kbd_proc_data_decode|]. cbv beta. intros r c' [-> [d ->]].
    assert (decode_ok (u8 x) (shift c) = true) as Hok.
    { apply decode_checked; [|done]. apply Z.mod_pos_bound. lia. }
    unfold decode_ok in Hok. destruct (decode (u8 x) (shift c)) as [r sh']. cbn [fst snd shift set_device set_shift].
    apply andb_true_iff in Hok as [Hr Hl]. split; [|split; [|split; [by eexists|]]].
    + lia.
    + lia.
    + intros _ Hk Hc He. rewrite Hc, He in Hl. destruct (letter_key (u8 x)); [|done]. simpl in Hl. lia.
  - unfold kbd_proc_data. wp_step. unfold inb at 1, wp at 1. rewrite E1. unfold has in Hst.
    apply negb_false_iff in Hst. rewrite Hst. wp_step. split; [done|]. split; [done|]. split; [|done].
    exists d1. by destruct c.
Qed.

(** ** A concrete machine for the witnesses: a serial line that delivers the
    characters of a list, a keyboard with no data. *)

#[local] Instance demo_ports : Ports := {
  dev := list Z;
  in_port p d :=
    if p =? 0x3FD then (match d with [] => 0x20 | _ => 0x21 end, d)
    else if p =? 0x3F8 then (hd 0 d, tl d)
    else if p =? 0x60 then (0x1E, d)
    else (0, d);
  out_port _ _ d := d;
  open_bus := 0xFFFF;
}.

Definition demo_cells : list Z := replicate (Z.to_nat CRT_SIZE) blank.
Definition demo_console (d : list Z) : console :=
  Console _ d (list_to_map (zip ((λ i, 0xB8000 + 2 * Z.of_nat i) <$> seq 0 (Z.to_nat CRT_SIZE)) demo_cells))
    true CGA_BASE 0xB8000 1999 0 (replicate (Z.to_nat CONSBUFSIZE) 0) 0 0 [].

Lemma demo_cells_at d : cells_at (demo_console d) demo_cells.
Proof.
  split; [by vm_compute|by apply Forall_replicate|]. intros i Hi.
  assert ((let v := video (demo_console []) in
    forallb (λ i : nat, bool_decide (v !! (0xB8000 + 2 * Z.of_nat i) = Some blank)) (seq 0 2000)) = true) as Hall
    by (by vm_compute).
  cbv zeta in Hall. rewrite forallb_forall in Hall. specialize (Hall i). rewrite bool_decide_eq_true in Hall.
  change (Z.to_nat CRT_SIZE) with 2000%nat in Hi. unfold demo_cells. rewrite lookup_replicate_2 by done.
  apply Hall. apply in_seq. lia.
Qed.

Lemma demo_serial cs sh : Forall (λ x, 0 ≤ x < 256) cs → delivers serial_proc_data (cs, sh) cs ([], sh).
Proof.
  induction 1 as [|x cs Hx _ IH].
  - apply (delivers_end (H:=demo_ports)). intros c Ed <-. unfold serial_proc_data, mbind, M_bind, inb. rewrite Ed. simpl. by destruct c.
  - eapply (delivers_char (H:=demo_ports)); [|done|exact IH]. intros c Ed <-. unfold serial_proc_data, mbind, M_bind, inb. rewrite Ed. simpl.
    unfold u8. rewrite Z.mod_small by lia. by destruct c.
Qed.
Lemma demo_kbd d sh : delivers kbd_proc_data (d, sh) [] (d, sh).
Proof.
  apply (delivers_end (H:=demo_ports)). intros c Ed <-. unfold kbd_proc_data, mbind, M_bind, inb. simpl. rewrite Ed. by destruct c.
Qed.
Definition demo_quiet : @dev demo_ports * Z := (([] : list Z), 0).

Lemma demo_case cs : Forall (λ x, 0 ≤ x < 256) cs →
  getc_case (demo_console cs) [] cs [] (S (length cs)) demo_quiet demo_quiet.
Proof.
  intros Hcs. split; [|split; [done|split; [by apply demo_serial|split; [apply demo_kbd|simpl; lia]]]].
  split; simpl; unfold CONSBUFSIZE; [done|lia|lia|done|done].
Qed.

Lemma cons_putc_correct_witness :
  wp (cons_putc 65) (λ _ c', redrawn (demo_console []) c' ∧ shows c' (put_char 65 (demo_cells, 1999))) (demo_console []).
Proof. apply cons_putc_correct. split; [apply demo_cells_at|]. by vm_compute. Defined.

Lemma cons_getc_fifo_witness :
  wp (cons_getc 4) (λ x c', x = 104 ∧ holds c' [105]) (demo_console [0; 104; 105]).
Proof.
  apply (cons_getc_fifo _ [] [0; 104; 105] [] _ demo_quiet demo_quiet); [|by vm_compute].
  apply demo_case. repeat constructor; lia.
Defined.

Lemma cons_getc_overflow_witness :
  wp (cons_getc 513) (λ x c', x = 0 ∧ holds c' []) (demo_console (replicate 512 97)).
Proof.
  apply (cons_getc_overflow _ [] (replicate 512 97) [] _ demo_quiet demo_quiet); [|by vm_compute].
  change 513%nat with (S (length (replicate 512 97))). apply demo_case. apply Forall_replicate. lia.
Defined.

(** A keyboard on which the key A is pressed. *)
Definition demo_key : Ports := {|
  dev := unit;
  in_port p d := (if p =? 0x64 then 1 else if p =? 0x60 then 0x1E else 0, d);
  out_port _ _ d := d;
  open_bus := 0xFFFF;
|}.

Lemma kbd_proc_data_correct_witness :
  wp (kbd_proc_data (H:=demo_key)) (λ r c', r = 65 ∧ 0 ≤ shift c' < 128)
    (@Console demo_key tt ∅ true CGA_BASE 0xB8000 0 CAPSLOCK [] 0 0 []).
Proof.
  eapply wp_mono; [apply (kbd_proc_data_correct (H:=demo_key) _ 1 tt 0x1E tt); [by vm_compute|reflexivity|reflexivity]|].
  cbv beta. intros r c' (_ & Hs & _ & Hr). split; [|done]. rewrite Hr by reflexivity. reflexivity.
Defined.
