(* ===== verification/Task.v ===== *)
(** * Tasks (include/task.h, kernel/sched/{task,task_util,kernel_thread,fork}.c)

    The scheduler's state: the kernel state, the PID map, the counters and the
    console.  This file has the part of the task code that returns to its
    caller: the PID map, creating, loading, cloning and freeing tasks.  What
    switches between tasks is in Sched.v.  Messages to the console are not
    modelled. *)

From S2P Require Import Prelude LinkedList Paging Spinlock Buddy RbTree Kernel PageWalk PageTable Slab Vma Console.

Local Open Scope Z_scope.

(** ** State *)

Record sched `{Ports} := Sched {
  sk : kernel;
  scons : console;
  tasks : gmap Z Z;  (** the array [tasks] at [PIDMAP_BASE], by PID *)
  nuser_tasks : Z;
  nkernel_tasks : Z;
  ncpus : Z;
  runq_lock : spinlock;
  debug_lock : spinlock;
  start : Z;  (** [start] and [time_elapsed] of kernel/sched/sched.c *)
  time_elapsed : Z;
}.

(** Addresses of the global run queue and of strings. *)
Class SchedLayout := {
  runq : Z;
  str_text : Z;
  str_data : Z;
  str_rodata : Z;
  str_stack : Z;
  str_runq_lock : Z;
  str_debug_lock : Z;
  file_sched : Z;
  file_task_util : Z;
  file_fork : Z;
}.

(** Values of [task_status] and [task_type]. *)
Definition TASK_DYING : Z := 0.
Definition TASK_RUNNABLE : Z := 1.
Definition TASK_RUNNING : Z := 2.
Definition TASK_NOT_RUNNABLE : Z := 3.
Definition TASK_TYPE_USER : Z := 0.
Definition TASK_TYPE_KERNEL : Z := 1.

Definition ECHILD : Z := 2.
Definition ENOMEM : Z := 6.
Definition ENOSYS : Z := 7.

Definition GDT_KCODE : Z := 0x08.
Definition GDT_KDATA : Z := 0x10.
Definition GDT_UCODE : Z := 0x20.
Definition GDT_UDATA : Z := 0x18.
Definition FLAGS_IF : Z := Z.shiftl 1 9.
Definition IF_RFLAGS : Z := 160.
Definition USTACK_TOP : Z := USER_LIM - 2 * PAGE_SIZE.
Definition KERNEL_STACK_TOP : Z := 0xffffff9000000000.

Definition pid_max : Z := Z.shiftl 1 16.
Definition INC : Z := 1.
Definition DEC : Z := -1.

Section setters.
Context `{Ports}.
Definition set_sk (x : kernel) (s : sched) : sched :=
  Sched _ x (scons s) (tasks s) (nuser_tasks s) (nkernel_tasks s) (ncpus s) (runq_lock s) (debug_lock s) (start s) (time_elapsed s).
Definition set_scons (x : console) (s : sched) : sched :=
  Sched _ (sk s) x (tasks s) (nuser_tasks s) (nkernel_tasks s) (ncpus s) (runq_lock s) (debug_lock s) (start s) (time_elapsed s).
Definition set_tasks (x : gmap Z Z) (s : sched) : sched :=
  Sched _ (sk s) (scons s) x (nuser_tasks s) (nkernel_tasks s) (ncpus s) (runq_lock s) (debug_lock s) (start s) (time_elapsed s).
Definition set_nuser_tasks (x : Z) (s : sched) : sched :=
  Sched _ (sk s) (scons s) (tasks s) x (nkernel_tasks s) (ncpus s) (runq_lock s) (debug_lock s) (start s) (time_elapsed s).
Definition set_nkernel_tasks (x : Z) (s : sched) : sched :=
  Sched _ (sk s) (scons s) (tasks s) (nuser_tasks s) x (ncpus s) (runq_lock s) (debug_lock s) (start s) (time_elapsed s).
Definition set_runq_lock (x : spinlock) (s : sched) : sched :=
  Sched _ (sk s) (scons s) (tasks s) (nuser_tasks s) (nkernel_tasks s) (ncpus s) x (debug_lock s) (start s) (time_elapsed s).
Definition set_debug_lock (x : spinlock) (s : sched) : sched :=
  Sched _ (sk s) (scons s) (tasks s) (nuser_tasks s) (nkernel_tasks s) (ncpus s) (runq_lock s) x (start s) (time_elapsed s).
Definition set_start (x : Z) (s : sched) : sched :=
  Sched _ (sk s) (scons s) (tasks s) (nuser_tasks s) (nkernel_tasks s) (ncpus s) (runq_lock s) (debug_lock s) x (time_elapsed s).
Definition set_time_elapsed (x : Z) (s : sched) : sched :=
  Sched _ (sk s) (scons s) (tasks s) (nuser_tasks s) (nkernel_tasks s) (ncpus s) (runq_lock s) (debug_lock s) (start s) x.
End setters.

(** ** Access to the state *)

(** [load_pml4]: writing the register empties the TLB. *)
Definition load_pml4 (pa : Z) : M kernel unit := modify (λ k, set_tlb ∅ (set_cr3 pa k)).

(** [cur_task = task]. *)
Definition set_cur_task (task : Z) : M kernel unit := cpu_upd (set_cpu_task task).

(** An operation on [task->task_lock]. *)
Definition on_task_lock {A} (task : Z) (c : M spinlock A) : M kernel A :=
  t ← task_get task;
  zoom (λ _, task_lock t) (λ l k, set_ktasks (<[task := set_task_lock l t]> (ktasks k)) k) c.

(** A zeroed object becomes a [struct task]. *)
Definition new_task (p : Z) : M kernel unit :=
  new_node (p + off_task_mmap);; new_node (p + off_task_children);; new_node (p + off_task_child);;
  new_node (p + off_task_zombies);; new_node (p + off_task_node);;
  on_rb (modify (λ s, Rbs (nodes s) (<[p + off_task_rb := NULL]> (roots s))));;
  modify (λ k, set_ktasks (<[p := task0]> (ktasks k)) k).

(** [memcpy] of [n] words from one page table to another. *)
Fixpoint copy_entries (n : nat) (i dst src : Z) : M kernel unit :=
  match n with
  | O => mret tt
  | S n =>
      e ← on_km (read_word (src + 8 * i));
      on_km (write_word (dst + 8 * i) e);;
      copy_entries n (i + 1) dst src
  end.

Section tasks.
Context `{Layout} `{VmaNames} `{Ports} `{SchedLayout}.

Definition kern {A} (c : M kernel A) : M sched A := zoom sk set_sk c.
Definition on_runq_lock {A} (c : M spinlock A) : M sched A := zoom runq_lock set_runq_lock c.
Definition me : M sched Z := gets (λ s, this_cpu (km (sk s))).

Definition tasks_get (pid : Z) : M sched Z := deref (λ s, tasks s !! pid).
Definition tasks_set (pid task : Z) : M sched unit :=
  _ ← tasks_get pid; modify (λ s, set_tasks (<[pid := task]> (tasks s)) s).

(** ** kernel/sched/task_util.c *)

Definition lock_task (task : Z) : M sched unit :=
  c ← me; kern (on_task_lock task (spin_lock c file_task_util 120)).
Definition unlock_task (task : Z) : M sched unit :=
  c ← me; kern (on_task_lock task (spin_unlock c)).

Definition nuser_tasks_set (set : Z) : M sched unit :=
  c ← me;
  on_runq_lock (spin_lock c file_task_util 72);;
  modify (λ s, set_nuser_tasks (u64 (nuser_tasks s + set)) s);;
  on_runq_lock (spin_unlock c).

Definition local_runq_len_set (set : Z) : M kernel unit :=
  c ← cpu_get;
  let runq_len_error := (set =? DEC) && (runq_len c <? 1) in
  cpu_upd (set_runq_len (u64 (runq_len c + set)));;
  assert (negb runq_len_error).

(** ** The queues of kernel/sched/sched_util.c *)

Definition FAIR_SCHEDULER : bool := false.

Definition queue_pop_task (q : Z) : M kernel Z :=
  task_node ← on_list (list_pop_tail q);
  if task_node =? NULL then mret NULL else mret (container_of task_node off_task_node).

(** The [list_foreach] of [queue_add_priority]: the node it stops at. *)
Fixpoint priority_node (fuel : nat) (q node jif : Z) : M kernel Z :=
  match fuel with
  | O => halt NoFuel
  | S fuel =>
      if node =? q then mret node
      else
        t ← task_get (container_of node off_task_node);
        if jif <? jiffies t then mret node
        else node ← on_list (get_next node); priority_node fuel q node jif
  end.
Definition queue_add_priority (q new_task : Z) : M kernel unit :=
  t ← task_get new_task;
  node ← on_list (get_next q);
  fuel ← gets (λ k, S (base.size (heap (km k))));
  node ← priority_node fuel q node (jiffies t);
  on_list (list_insert_before node (new_task + off_task_node)).

Definition queue_add_task (q task : Z) : M kernel unit :=
  if FAIR_SCHEDULER then queue_add_priority q task
  else on_list (list_add_tail q (task + off_task_node)).

Definition lock_runq_add (task : Z) : M sched unit :=
  c ← me;
  on_runq_lock (spin_lock c file_task_util 108);;
  kern (queue_add_task runq task);;
  modify (λ s, set_nuser_tasks (u64 (nuser_tasks s + 1)) s);;
  t ← kern (task_get task);
  (if task_type t =? TASK_TYPE_KERNEL then modify (λ s, set_nkernel_tasks (u64 (nkernel_tasks s + 1)) s)
   else mret tt);;
  on_runq_lock (spin_unlock c).

(** ** kernel/sched/task.c: the PID map *)

Definition pid2task (pid : Z) (check_perm : bool) : M sched Z :=
  if pid =? 0 then kern cur_task
  else if pid_max <=? pid then mret NULL
  else
    task ← tasks_get pid;
    if task =? NULL then mret NULL
    else if negb check_perm then mret task
    else
      cur ← kern cur_task;
      if negb (task =? cur) then
        t ← kern (task_get task);
        c ← kern (task_get cur);
        if negb (task_ppid t =? task_pid c) then mret NULL else mret task
      else mret task.

Fixpoint clear_tasks (n : nat) (pid : Z) : M sched unit :=
  match n with
  | O => mret tt
  | S n => modify (λ s, set_tasks (<[pid := NULL]> (tasks s)) s);; clear_tasks n (pid + 1)
  end.

(** The array becomes memory when its region is populated. *)
Definition task_init : M sched unit :=
  pml4 ← gets (λ s, kernel_pml4 (sk s));
  kern (populate_region file_populate pml4 PIDMAP_BASE (pid_max * 8)
    (Z.lor (Z.lor PAGE_PRESENT PAGE_WRITE) PAGE_NO_EXEC));;
  clear_tasks (Z.to_nat pid_max) 0.

Definition PAGE_TABLE_ENTRIES : Z := 512.

(** [task_setup_vas] with its error code as an argument: [create_pml4] of
    fork.c has the same body. *)
Definition fresh_pml4 (err task : Z) : M kernel Z :=
  page ← on_km (page_alloc ALLOC_ZERO);
  if page =? NULL then mret err
  else
    on_km (page_upd page (λ p, set_ref (pp_ref p + 1) p));;
    pml4 ← on_km (page2kva page);
    task_upd task (set_task_pml4 pml4);;
    t ← task_get task;
    kp ← gets kernel_pml4;
    let first := PML4_INDEX KERNEL_VMA in
    copy_entries (Z.to_nat (PAGE_TABLE_ENTRIES - first)) first (task_pml4 t) kp;;
    mret 0.
Definition task_setup_vas (task : Z) : M kernel Z := fresh_pml4 (- ENOMEM) task.
Definition create_pml4 (task : Z) : M kernel Z := fresh_pml4 (-1) task.

(** The loop of [task_alloc] that looks for a free PID. *)
Fixpoint find_pid (n : nat) (pid task : Z) : M sched Z :=
  match n with
  | O => mret pid
  | S n =>
      t ← tasks_get pid;
      if t =? NULL then
        tasks_set pid task;;
        kern (task_upd task (set_task_pid pid));;
        mret pid
      else find_pid n (pid + 1) task
  end.

Definition task_alloc (ppid : Z) : M sched Z :=
  task ← kern (kmalloc sizeof_task);
  if task =? NULL then mret NULL
  else
    kern (new_task task);;
    r ← kern (task_setup_vas task);
    if r <? 0 then kern (kfree task);; mret NULL
    else
      pid ← find_pid (Z.to_nat (pid_max - 1)) 1 task;
      if pid =? pid_max then kern (kfree task);; mret NULL
      else
        kern (task_upd task (set_task_ppid ppid));;
        kern (task_upd task (set_task_status TASK_RUNNABLE));;
        kern (task_upd task (set_task_runs 0));;
        kern (task_upd task (set_task_frame
          (set_rflags FLAGS_IF (set_cs (Z.lor GDT_UCODE 3) (set_rsp USTACK_TOP
            (set_ss (Z.lor GDT_UDATA 3) (set_ds (Z.lor GDT_UDATA 3) frame0)))))));;
        kern (on_list (list_init (task + off_task_mmap)));;
        kern (on_rb (rb_init (task + off_task_rb)));;
        kern (on_list (list_init (task + off_task_node)));;
        kern (on_list (list_init (task + off_task_child)));;
        kern (on_list (list_init (task + off_task_children)));;
        kern (on_list (list_init (task + off_task_zombies)));;
        mret task.

(** ** Loading a program *)

Definition ELF_MAGIC : Z := 0x464C457F.
Definition ELF_PROG_LOAD : Z := 1.

(** The ELF image at address [binary]: the header fields that are read and
    the [e_phnum] program headers at [e_phoff]. *)
Record elf := Elf { e_magic : Z; e_entry : Z; e_prog_hdrs : list elf_proghdr }.

Definition elf_get_name (ph : elf_proghdr) : Z :=
  if has (p_flags ph) ELF_PROG_FLAG_EXEC then str_text
  else if has (p_flags ph) ELF_PROG_FLAG_WRITE then str_data
  else str_rodata.

(** [entry] is what the uninitialised variable of [find_free_vma] holds. *)
Fixpoint load_elf_segments (entry : Z) (hdrs : list elf_proghdr) (task binary : Z) : M kernel unit :=
  match hdrs with
  | [] => mret tt
  | ph :: hdrs =>
      (if negb (p_type ph =? ELF_PROG_LOAD) then mret tt
       else if USER_LIM <? p_va ph then halt Panic
       else
         let page_flags := Z.lor (convert_flags_from_elf_to_pages (p_flags ph)) PAGE_USER in
         let vma_flags := convert_flags_from_pages_to_vma page_flags in
         add_executable_vma entry task (elf_get_name ph) (p_va ph) (p_memsz ph) vma_flags
           (u64 (binary + p_offset ph)) (p_filesz ph);;
         mret tt);;
      load_elf_segments entry hdrs task binary
  end.

Definition task_load_elf (entry task binary : Z) (image : elf) : M kernel unit :=
  if negb (e_magic image =? ELF_MAGIC) then halt Panic
  else if USER_LIM <? e_entry image then halt Panic
  else
    task_upd task (λ t, set_task_frame (set_rip (e_entry image) (task_frame t)) t);;
    old_cr3 ← gets cr3;
    t ← task_get task;
    pa ← on_km (PADDR (task_pml4 t));
    load_pml4 pa;;
    load_elf_segments entry (e_prog_hdrs image) task binary;;
    let page_flags := Z.lor (Z.lor (Z.lor PAGE_PRESENT PAGE_WRITE) PAGE_USER) PAGE_NO_EXEC in
    let vma_flags := convert_flags_from_pages_to_vma page_flags in
    add_anonymous_vma entry task str_stack (USTACK_TOP - PAGE_SIZE) PAGE_SIZE vma_flags;;
    load_pml4 old_cr3.

Definition task_create (entry binary : Z) (image : elf) (type : Z) : M sched unit :=
  task ← task_alloc 0;
  if task =? NULL then halt Panic
  else
    kern (task_upd task (set_task_type type));;
    kern (task_load_elf entry task binary image);;
    t ← kern (task_get task);
    if task_type t =? TASK_TYPE_USER then
      kern (queue_add_task runq task);;
      modify (λ s, set_nuser_tasks (u64 (nuser_tasks s + 1)) s)
    else mret tt.

(** ** Freeing a task *)

Definition task_free (task : Z) : M sched unit :=
  cur ← kern cur_task;
  (if task =? cur then
     kp ← gets (λ s, kernel_pml4 (sk s));
     pa ← kern (on_km (PADDR kp));
     kern (load_pml4 pa)
   else mret tt);;
  t ← kern (task_get task);
  tasks_set (task_pid t) NULL;;
  kern (unmap_user_pages (task_pml4 t));;
  kern (free_vmas task);;
  kern (kfree task).

(** ** kernel/sched/kernel_thread.c *)

(** The loop of [create_kernel_thread] that looks for the highest free PID. *)
Fixpoint find_high_pid (n : nat) (pid task : Z) : M sched Z :=
  match n with
  | O => mret pid
  | S n =>
      t ← tasks_get pid;
      if t =? NULL then
        tasks_set pid task;;
        kern (task_upd task (set_task_pid pid));;
        mret pid
      else find_high_pid n (pid - 1) task
  end.

Definition create_kernel_thread (func_ptr : Z) : M sched unit :=
  task ← task_alloc 0;
  if task =? NULL then halt Panic
  else
    kern (task_upd task (set_task_type TASK_TYPE_KERNEL));;
    kern (task_upd task (λ t, set_task_frame
      (set_rflags IF_RFLAGS (set_cs GDT_KCODE (set_rsp KERNEL_STACK_TOP (set_ss GDT_KDATA
        (set_ds GDT_KDATA (set_rip func_ptr (task_frame t))))))) t));;
    t ← kern (task_get task);
    n ← gets nkernel_tasks;
    kern (populate_region file_populate (task_pml4 t) (u64 (KERNEL_STACK_TOP - (n + 1) * PAGE_SIZE)) PAGE_SIZE
      (Z.lor PAGE_PRESENT PAGE_WRITE));;
    tasks_set (task_pid t) NULL;;
    pid ← find_high_pid (Z.to_nat (pid_max - 2)) (pid_max - 1) task;
    if pid =? 1 then kern (kfree task);; halt Panic
    else lock_runq_add task.

(** ** kernel/sched/fork.c *)

(** [memcpy(child_vma, parent_vma, sizeof(struct vma))], embedded nodes
    included. *)
Definition copy_vma (child parent : Z) : M kernel unit :=
  v ← vma_get parent; vma_upd child (λ _, v);;
  n ← on_list (load (parent + off_vm_mmap)); on_list (modify (insert (child + off_vm_mmap) n));;
  n ← on_list (load (parent + off_rmap_node)); on_list (modify (insert (child + off_rmap_node) n));;
  n ← on_rb (rb_get (parent + off_vm_rb)); on_rb (rb_upd (child + off_vm_rb) (λ _, n)).

(** The loop of [copy_page_range]: [entry] and [page_flags] are the variables
    of these names, which keep their values from one round to the next. *)
Fixpoint copy_pages (n : nat) (parent child va end_va entry page_flags : Z) : M kernel Z :=
  match n with
  | O => halt NoFuel
  | S n =>
      if negb (va <? end_va) then mret 0
      else
        p ← task_get parent;
        '(page, e) ← page_lookup (task_pml4 p) va (Some entry);
        let entry := default entry e in
        if (page =? NULL) || (entry =? NULL) then copy_pages n parent child (u64 (va + PAGE_SIZE)) end_va entry page_flags
        else
          pte ← on_km (read_word entry);
          if negb (has pte PAGE_PRESENT) then copy_pages n parent child (u64 (va + PAGE_SIZE)) end_va entry page_flags
          else
            let page_flags :=
              if has pte PAGE_WRITE then Z.lor (Z.lor PAGE_PRESENT PAGE_NO_EXEC) PAGE_USER
              else if negb (has pte PAGE_NO_EXEC) then Z.lor PAGE_PRESENT PAGE_USER
              else page_flags in
            c ← task_get child;
            r ← page_insert file_insert (task_pml4 c) page va page_flags;
            if r <? 0 then mret (-1)
            else
              protect_region (task_pml4 p) va PAGE_SIZE page_flags;;
              copy_pages n parent child (u64 (va + PAGE_SIZE)) end_va entry page_flags
  end.

(** One round for each page of the range. *)
Definition copy_page_range (page_flags parent child start_va end_va : Z) : M kernel Z :=
  entry ← kmalloc 8;
  copy_pages (Z.to_nat ((end_va - start_va) / PAGE_SIZE + 2)) parent child start_va end_va entry page_flags.

(** The [list_foreach] of [task_clone], which reads [node->next] after the
    body; the result is false if an allocation failed. *)
Fixpoint clone_vmas (fuel : nat) (page_flags task child node : Z) : M kernel bool :=
  match fuel with
  | O => halt NoFuel
  | S fuel =>
      if node =? task + off_task_mmap then mret true
      else
        let parent_vma := container_of node off_vm_mmap in
        child_vma ← kmalloc sizeof_vma;
        if child_vma =? NULL then mret false
        else
          new_vma child_vma;;
          copy_vma child_vma parent_vma;;
          on_list (list_init (child_vma + off_vm_mmap));;
          on_rb (rb_node_init (child_vma + off_vm_rb));;
          v ← vma_get child_vma;
          let rmap := vm_rmap v in
          me ← gets (λ k, this_cpu (km k));
          rmap_lock rmap (spin_lock me file_fork 123);;
          on_list (list_add rmap (child_vma + off_rmap_node));;
          rmap_lock rmap (spin_unlock me);;
          insert_vma child child_vma;;
          on_list (list_add (task + off_task_children) (child + off_task_child));;
          pv ← vma_get parent_vma;
          copy_page_range page_flags task child (vm_base pv) (vm_end pv);;
          node ← on_list (get_next node);
          clone_vmas fuel page_flags task child node
  end.

(** [page_flags] is what the uninitialised variable of [copy_page_range]
    holds. *)
Definition task_clone (page_flags task : Z) : M sched Z :=
  t ← kern (task_get task);
  child_task ← task_alloc (task_pid t);
  (if child_task =? NULL then halt Fault else mret tt);;
  t ← kern (task_get task);
  kern (task_upd child_task (set_task_frame (task_frame t)));;
  r ← kern (create_pml4 child_task);
  if r <? 0 then mret NULL
  else
    kern (on_list (list_init (child_task + off_task_mmap)));;
    node ← kern (on_list (get_next (task + off_task_mmap)));
    fuel ← gets (λ s, S (base.size (heap (km (sk s)))));
    ok ← kern (clone_vmas fuel page_flags task child_task node);
    if negb ok then mret NULL
    else
      t ← kern (task_get task);
      kern (task_upd child_task (set_jiffies (jiffies t)));;
      kern (task_upd child_task (λ c, set_task_frame (set_rax 0 (task_frame c)) c));;
      mret child_task.

Definition sys_fork (page_flags : Z) : M sched Z :=
  cur ← kern cur_task;
  child_task ← task_clone page_flags cur;
  if child_task =? NULL then mret (-1)
  else
    kern (queue_add_task runq child_task);;
    modify (λ s, set_nuser_tasks (u64 (nuser_tasks s + 1)) s);;
    c ← kern (task_get child_task);
    mret (task_pid c).
End tasks.
