(* ===== verification/Sched.v ===== *)
(** * The scheduler (kernel/sched/{sched,sched_util,task,wait,syscall,idt}.c)

    What runs and switches between tasks.  [task_run] ends with the return to
    user mode ([Leave]): the state it stops in says which task runs next.
    [task_run], [task_destroy] and [sched_yield] call each other; the fuel of
    [sched_yield] bounds how often an idle CPU looks for a task before the
    model gives up. *)

From S2P Require Import Prelude LinkedList Paging CString Spinlock Buddy RbTree Kernel PageWalk PageTable Slab Vma Console Task.

Local Open Scope Z_scope.

Section sched.
Context `{Layout} `{VmaNames} `{Ports} `{SchedLayout}.

(** ** Queues and balancing *)

(** [&this_cpu->runq] and [&this_cpu->nextq]. *)
Definition local_runq : M kernel Z := c ← gets (λ k, this_cpu (km k)); mret (c + off_runq).
Definition local_nextq : M kernel Z := c ← gets (λ k, this_cpu (km k)); mret (c + off_nextq).

Definition sched_init_mp : M kernel unit :=
  rq ← local_runq; on_list (list_init rq);;
  nq ← local_nextq; on_list (list_init nq);;
  cpu_upd (set_runq_len 0).

Definition sched_init : M sched unit :=
  kern (on_list (list_init runq));;
  kern sched_init_mp;;
  on_runq_lock (modify (spin_init str_runq_lock));;
  modify (λ s, set_debug_lock (spin_init str_debug_lock (debug_lock s)) s).

Definition move_nextq_to_runq : M kernel unit :=
  nq ← local_nextq;
  head_task_node ← on_list (list_head nq);
  if head_task_node =? NULL then mret tt
  else
    on_list (list_del nq);;
    rq ← local_runq;
    on_list (list_insert_before head_task_node rq).

Definition pid_valid (pid : Z) : bool := (0 <? pid) && (u64 pid <=? PIDMAP_LIM).

Definition move_cur_task_to_nextq : M kernel unit :=
  cur ← cur_task;
  if cur =? NULL then mret tt
  else
    t ← task_get cur;
    assert (pid_valid (task_pid t));;
    nq ← local_nextq;
    queue_add_task nq cur;;
    local_runq_len_set INC.

(** The two loops of [migrate_tasks_runq]; a round moves the length by one
    towards the number of tasks wanted. *)
Fixpoint fill_runq (fuel : nat) (want : Z) : M kernel unit :=
  match fuel with
  | O => halt NoFuel
  | S fuel =>
      c ← cpu_get;
      if negb (runq_len c <? want) then mret tt
      else
        task_to_move ← queue_pop_task runq;
        if task_to_move =? NULL then mret tt
        else
          rq ← local_runq;
          queue_add_task rq task_to_move;;
          local_runq_len_set INC;;
          fill_runq fuel want
  end.
Fixpoint drain_runq (fuel : nat) (want : Z) : M kernel unit :=
  match fuel with
  | O => halt NoFuel
  | S fuel =>
      c ← cpu_get;
      if negb (want <? runq_len c) then mret tt
      else
        rq ← local_runq;
        task_to_move ← queue_pop_task rq;
        assert (1 <=? runq_len c);;
        local_runq_len_set DEC;;
        assert (negb (task_to_move =? NULL));;
        queue_add_task runq task_to_move;;
        drain_runq fuel want
  end.
Definition migrate_tasks_runq (task_foreach_cpu : Z) : M kernel unit :=
  fill_runq (S (Z.to_nat task_foreach_cpu)) task_foreach_cpu;;
  c ← cpu_get;
  drain_runq (S (Z.to_nat (runq_len c))) task_foreach_cpu.

Definition FGL_migrate_tasks (task_foreach_cpu : Z) : M sched unit :=
  kern move_nextq_to_runq;;
  c ← kern cpu_get;
  if runq_len c =? task_foreach_cpu then mret tt
  else
    m ← me;
    got ← on_runq_lock (spin_trylock m file_sched 142);
    if negb (got =? 0) then
      kern (migrate_tasks_runq task_foreach_cpu);;
      on_runq_lock (spin_unlock m)
    else mret tt.

(** ** Zombies *)

Fixpoint reap_loop (fuel : nat) (task head zombie_node ret_pid : Z) : M sched Z :=
  match fuel with
  | O => halt NoFuel
  | S fuel =>
      if zombie_node =? head then mret ret_pid
      else
        let zombie := container_of zombie_node off_task_node in
        z ← kern (task_get zombie);
        assert (negb (zombie =? NULL));;
        t ← kern (task_get task);
        let ret_pid := if task_wait t =? zombie then task_pid z else ret_pid in
        next ← kern (on_list (get_next zombie_node));
        kern (on_list (list_del (zombie + off_task_node)));;
        task_free zombie;;
        reap_loop fuel task head next ret_pid
  end.
Definition reap_zombies (task : Z) : M sched Z :=
  let head := task + off_task_zombies in
  zombie_node ← kern (on_list (get_next head));
  fuel ← gets (λ s, S (base.size (heap (km (sk s)))));
  reap_loop fuel task head zombie_node (-1).

Definition make_zombie_or_free (task parent_task : Z) : M sched unit :=
  lock_task parent_task;;
  p ← kern (task_get parent_task);
  if task_status p =? TASK_DYING then task_free task
  else
    kern (on_list (list_del (task + off_task_child)));;
    assert (negb (task_pid p =? 0));;
    kern (on_list (list_add (parent_task + off_task_zombies) (task + off_task_node)));;
    (if negb (task_wait p =? NULL) then
       t ← kern (task_get task);
       kern (task_upd parent_task (λ p, set_task_frame (set_rax (u64 (task_pid t)) (task_frame p)) p));;
       lock_runq_add parent_task
     else mret tt);;
    unlock_task parent_task.

(** ** Running and destroying tasks

    [yield] is [sched_yield]. *)

Section run.
Variable yield : M sched unit.

Definition task_destroy (task : Z) : M sched unit :=
  t ← kern (task_get task);
  assert (pid_valid (task_pid t));;
  lock_task task;;
  kern (task_upd task (set_task_status TASK_DYING));;
  reap_zombies task;;
  unlock_task task;;
  cur ← kern cur_task;
  (if negb (task =? cur) then yield else mret tt);;
  t ← kern (task_get task);
  parent_task ← (if 0 <? task_ppid t then pid2task (task_ppid t) false else mret NULL);
  (if negb (parent_task =? NULL) then make_zombie_or_free task parent_task else task_free task);;
  nuser_tasks_set DEC;;
  kern (set_cur_task NULL);;
  nu ← gets nuser_tasks;
  nk ← gets nkernel_tasks;
  (if nk <? nu then yield else mret tt);;
  halt Monitor.

(** [iret64] restores the registers and leaves the kernel. *)
Definition task_pop_frame (frame : int_frame) : M sched unit := halt Leave.

Definition task_run (task : Z) : M sched unit :=
  cur ← kern cur_task;
  (if negb (cur =? NULL) then
     c ← kern (task_get cur);
     if task_status c =? TASK_RUNNING then kern (task_upd cur (set_task_status TASK_RUNNABLE))
     else if (task_status c =? TASK_DYING) || (task_status c =? TASK_NOT_RUNNABLE) then task_destroy cur
     else mret tt
   else mret tt);;
  kern (set_cur_task task);;
  t ← kern (task_get task);
  (if task_status t =? TASK_DYING then task_destroy task else mret tt);;
  cur ← kern cur_task;
  kern (task_upd cur (set_task_status TASK_RUNNING));;
  kern (task_upd cur (λ t, set_task_runs (u32 (task_runs t + 1)) t));;
  t ← kern (task_get task);
  pa ← kern (on_km (PADDR (task_pml4 t)));
  kern (load_pml4 pa);;
  assert (pid_valid (task_pid t));;
  task_pop_frame (task_frame t).

Definition try_run_next_task : M sched Z :=
  rq ← kern local_runq;
  empty ← kern (on_list (list_is_empty rq));
  if (empty : bool) then mret (-1)
  else
    task ← kern (queue_pop_task rq);
    c ← kern cpu_get;
    assert (1 <=? runq_len c);;
    kern (local_runq_len_set DEC);;
    assert (negb (task =? NULL));;
    task_run task;;
    mret 0.
End run.

(** Nobody can be run when only kernel threads are left: the CPU spins.  The
    division is of [size_t]. *)
Fixpoint sched_yield (fuel : nat) : M sched unit :=
  match fuel with
  | O => halt NoFuel
  | S fuel =>
      nu ← gets nuser_tasks;
      nk ← gets nkernel_tasks;
      if nu =? nk then halt NoFuel
      else
        kern move_cur_task_to_nextq;;
        try_run_next_task (sched_yield fuel);;
        nu ← gets nuser_tasks;
        n ← gets ncpus;
        FGL_migrate_tasks (u64 (nu + u64 (n - 1)) / n);;
        r ← try_run_next_task (sched_yield fuel);
        if r <? 0 then sched_yield fuel else mret tt
  end.

Definition TIMESLICE : Z := 100000000.

(** [tsc] and [tsc'] are the time stamps the two [read_tsc] return. *)
Definition scheduler (fuel : nat) (tsc tsc' : Z) : M sched unit :=
  modify (λ s, set_time_elapsed (u64 (tsc - start s)) s);;
  st ← gets start;
  el ← gets time_elapsed;
  if FAIR_SCHEDULER && negb (st =? 0) && (el <? TIMESLICE) then mret tt
  else
    cur ← kern cur_task;
    kern (task_upd cur (λ t, set_jiffies (u64 (jiffies t + el)) t));;
    modify (set_start tsc');;
    sched_yield fuel.

(** ** kernel/sched/kernel_thread.c: the zeroing thread *)

Definition zero_page (page : Z) : M kernel unit :=
  pa ← on_km (page2pa page);
  fill_bytes (Z.to_nat PAGE_SIZE) pa 0.

Fixpoint zero_loop (fuel : nat) (free_node : Z) : M kernel unit :=
  match fuel with
  | O => halt NoFuel
  | S fuel =>
      if free_node =? NULL then mret tt
      else
        let free_page := container_of free_node off_pp_zero_node in
        zero_page free_page;;
        on_km (page_upd free_page (set_zero 1));;
        free_node ← on_list (list_pop zero_list);
        zero_loop fuel free_node
  end.

(** [self] is the address of [zero_all_pages]. *)
Definition zero_all_pages (fuel : nat) (self : Z) : M sched unit :=
  kern (on_km lock_buddy);;
  free_node ← kern (on_list (list_pop zero_list));
  n ← gets (λ s, S (base.size (heap (km (sk s)))));
  kern (zero_loop n free_node);;
  kern (on_km unlock_buddy);;
  cur ← kern cur_task;
  kern (task_upd cur (λ t, set_task_frame (set_rsp KERNEL_STACK_TOP (set_rip self (task_frame t))) t));;
  sched_yield fuel.

(** ** kernel/sched/wait.c *)

Definition set_task_waiting (task pid : Z) : M sched unit :=
  if pid =? -1 then kern (task_upd task (set_task_wait task))
  else
    child_task ← pid2task pid false;
    assert (negb (child_task =? NULL));;
    kern (task_upd task (set_task_wait child_task)).

Definition sys_waitpid (fuel : nat) (pid : Z) : M sched Z :=
  cur ← kern cur_task;
  lock_task cur;;
  empty ← kern (on_list (list_is_empty (cur + off_task_children)));
  c ← kern (task_get cur);
  if empty || (task_pid c =? pid) then unlock_task cur;; mret (- ECHILD)
  else
    set_task_waiting cur pid;;
    ret ← reap_zombies cur;
    if -1 <? ret then unlock_task cur;; mret ret
    else
      kern (on_list (list_del (cur + off_task_node)));;
      nuser_tasks_set DEC;;
      unlock_task cur;;
      kern (set_cur_task NULL);;
      sched_yield fuel;;
      halt Panic.
Definition sys_wait (fuel : nat) : M sched Z := sys_waitpid fuel (-1).

(** ** System calls *)

Definition assert_user_mem (fuel : nat) (task va size flags : Z) : M sched unit :=
  t ← kern (task_get task);
  '(ret, _) ← kern (check_user_mem (task_pml4 t) va size (Z.lor flags PAGE_USER));
  if ret <? 0 then task_destroy (sched_yield fuel) task else mret tt.

(** [cprintf("%.*s", len, s)]: the conversion of lib/printfmt.c for this format,
    which prints the bytes up to a NUL, at most [precision] of them, all when
    it is negative.  A byte is read before the count is looked at; one that is
    not mapped is a page fault in the kernel.  NULL is printed as "(null)".
    The lock of the console, which [vcprintf] holds meanwhile, is left out. *)
Definition cputch (ch : Z) : M sched unit := zoom scons set_scons (cputchar ch).

Fixpoint put_user_string (fuel : nat) (p precision : Z) : M sched unit :=
  match fuel with
  | O => halt NoFuel
  | S fuel =>
      c ← kern (load_byte p);
      let ch := schar c in
      if ch =? 0 then mret tt
      else if negb ((precision <? 0) || (0 <=? s32 (precision - 1))) then mret tt
      else
        cputch ch;;
        put_user_string fuel (p + 1) (if precision <? 0 then precision else s32 (precision - 1))
  end.

Fixpoint put_literal (cs : list Z) (precision : Z) : M sched unit :=
  match cs with
  | [] => mret tt
  | ch :: cs =>
      if negb ((precision <? 0) || (0 <=? s32 (precision - 1))) then mret tt
      else cputch ch;; put_literal cs (if precision <? 0 then precision else s32 (precision - 1))
  end.

(** ["(null)"] *)
Definition null_literal : list Z := [40; 110; 117; 108; 108; 41].

(** [fuel] bounds a string that a negative precision does not. *)
Definition sys_cputs (fuel : nat) (s len : Z) : M sched unit :=
  cur ← kern cur_task;
  assert_user_mem fuel cur s len 0;;
  let precision := s32 len in
  if s =? NULL then put_literal null_literal precision
  else put_user_string (fuel + S (Z.to_nat precision)) s precision.
Definition sys_cgetc (fuel : nat) : M sched Z := zoom scons set_scons (cons_getc fuel).
Definition sys_getpid : M sched Z :=
  cur ← kern cur_task; c ← kern (task_get cur); mret (task_pid c).
Definition sys_kill (fuel : nat) (pid : Z) : M sched Z :=
  task ← pid2task pid true;
  if task =? NULL then mret (-1)
  else task_destroy (sched_yield fuel) task;; mret 0.
Definition sys_getcpuid : M sched Z := c ← kern cpu_get; mret (cpu_id c).

Definition sizeof_vma_info : Z := 96.

(** [sys_mquery]: the result and [*info]; [entry] is what the uninitialised
    variable of this name holds. *)
Definition sys_mquery (fuel : nat) (entry info addr : Z) : M sched (Z * option vma_info) :=
  cur ← kern cur_task;
  assert_user_mem fuel cur info sizeof_vma_info (Z.lor PAGE_USER PAGE_WRITE);;
  if USER_LIM <=? addr then mret (-1, None)
  else
    '(vma, _, _) ← kern (find_vma (cur + off_task_rb) addr);
    if vma =? NULL then
      node ← kern (on_list (list_tail (cur + off_task_mmap)));
      if node =? NULL then mret (0, Some (VmaInfo NULL 0 USER_LIM 0 VMA_FREE 0))
      else
        v ← kern (vma_get (container_of node off_vm_mmap));
        mret (0, Some (VmaInfo NULL (vm_end v) USER_LIM 0 VMA_FREE 0))
    else
      v ← kern (vma_get vma);
      if addr <? vm_base v then
        node ← kern (on_list (list_prev (cur + off_task_mmap) (vma + off_vm_mmap)));
        if node =? NULL then mret (0, Some (VmaInfo NULL 0 (vm_base v) 0 VMA_FREE 0))
        else
          w ← kern (vma_get (container_of node off_vm_mmap));
          mret (0, Some (VmaInfo NULL (vm_end w) (vm_base v) 0 VMA_FREE 0))
      else
        let type := if negb (vm_src v =? NULL) then VMA_EXECUTABLE else VMA_ANONYMOUS in
        c ← kern (task_get cur);
        '(page, e) ← kern (page_lookup (task_pml4 c) addr (Some entry));
        mapped ← (if negb (page =? NULL) then
                    pte ← kern (on_km (read_word (default entry e)));
                    mret (if has pte PAGE_HUGE then VM_2M_PAGE else VM_4K_PAGE)
                  else mret 0);
        mret (0, Some (VmaInfo (vm_name v) (vm_base v) (vm_end v) (vm_flags v) type mapped)).

Definition SYS_cputs : Z := 0.
Definition SYS_cgetc : Z := 1.
Definition SYS_getpid : Z := 2.
Definition SYS_kill : Z := 3.
Definition SYS_mquery : Z := 4.
Definition SYS_mmap : Z := 5.
Definition SYS_munmap : Z := 6.
Definition SYS_mprotect : Z := 7.
Definition SYS_madvise : Z := 8.
Definition SYS_yield : Z := 9.
Definition SYS_wait : Z := 10.
Definition SYS_waitpid : Z := 11.
Definition SYS_fork : Z := 12.
Definition SYS_getcpuid : Z := 13.
Definition NSYSCALLS : Z := 14.

(** [entry] and [page_flags]: what uninitialised variables hold.  Arguments
    are 64-bit words, converted to the parameter types.  The result comes with
    the struct that [sys_mquery] writes to the caller's memory. *)
Definition plain (c : M sched Z) : M sched (Z * option vma_info) := r ← c; mret (r, None).

Definition syscall_info (fuel : nat) (entry page_flags no a1 a2 a3 a4 : Z) : M sched (Z * option vma_info) :=
  if no =? SYS_cputs then sys_cputs fuel a1 a2;; plain (mret 0)
  else if no =? SYS_cgetc then plain (sys_cgetc fuel)
  else if no =? SYS_getpid then plain sys_getpid
  else if no =? SYS_kill then plain (sys_kill fuel (s32 a1))
  else if no =? SYS_mquery then sys_mquery fuel entry a1 a2
  else if no =? SYS_mmap then plain (kern (sys_mmap entry a1 a2 (s32 a3) (s32 a4)))
  else if no =? SYS_munmap then kern (sys_munmap entry a1 a2);; plain (mret 0)
  else if no =? SYS_mprotect then plain (kern (sys_mprotect entry a1 a2 (s32 a3)))
  else if no =? SYS_madvise then plain (kern (sys_madvise entry a1 a2 (s32 a3)))
  else if no =? SYS_yield then sched_yield fuel;; plain (mret 0)
  else if no =? SYS_fork then plain (sys_fork page_flags)
  else if no =? SYS_wait then plain (sys_wait fuel)
  else if no =? SYS_waitpid then plain (sys_waitpid fuel (s32 a1))
  else if no =? SYS_getcpuid then plain sys_getcpuid
  else plain (mret (- ENOSYS)).

Definition syscall (fuel : nat) (entry page_flags no a1 a2 a3 a4 : Z) : M sched Z :=
  '(r, _) ← syscall_info fuel entry page_flags no a1 a2 a3 a4; mret r.

Definition syscall_handler (fuel : nat) (entry page_flags no a1 a2 a3 a4 : Z) : M sched unit :=
  cur ← kern cur_task;
  assert (negb (cur =? NULL));;
  r ← syscall fuel entry page_flags no a1 a2 a3 a4;
  kern (task_upd cur (λ t, set_task_frame (set_rax (u64 r) (task_frame t)) t));;
  cur ← kern cur_task;
  task_run (sched_yield fuel) cur.

(** ** Interrupts (kernel/sched/idt.c) *)

Definition INT_BREAK : Z := 3.
Definition INT_PAGE_FAULT : Z := 14.
Definition IRQ_TIMER : Z := 32.
Definition INT_SYSCALL : Z := 128.

(** The frame an interrupt works on: the one on the stack, or the copy in the
    task that was interrupted. *)
Inductive frame_ref := OnStack (f : int_frame) | InTask (task : Z).
Definition frame_get (r : frame_ref) : M sched int_frame :=
  match r with
  | OnStack f => mret f
  | InTask task => t ← kern (task_get task); mret (task_frame t)
  end.
(** [frame->rax = v]; what is written to the stack frame is never read. *)
Definition frame_set_rax (r : frame_ref) (v : Z) : M sched unit :=
  match r with
  | OnStack _ => mret tt
  | InTask task => kern (task_upd task (λ t, set_task_frame (set_rax v (task_frame t)) t))
  end.

(** What the processor and uninitialised variables provide: [read_cr2],
    [read_rflags], the time stamps and the two variables of [syscall]. *)
Record int_env := IntEnv {
  env_cr2 : Z; env_rflags : Z; env_tsc : Z; env_tsc' : Z; env_entry : Z; env_page_flags : Z }.

Definition page_fault_handler (fuel : nat) (env : int_env) (frame : frame_ref) : M sched unit :=
  f ← frame_get frame;
  if negb (Z.land (cs f) 3 =? 3) then
    modify (λ s, set_nuser_tasks (nkernel_tasks s) s);; halt Panic
  else
    let vma_flags := VM_READ in
    let vma_flags := if has (err_code f) 2 then Z.lor vma_flags VM_WRITE else vma_flags in
    let vma_flags := if rip f =? env_cr2 env then Z.lor vma_flags VM_EXEC else vma_flags in
    cur ← kern cur_task;
    ret ← kern (task_page_fault_handler cur (env_cr2 env) vma_flags);
    if ret <? 0 then cur ← kern cur_task; task_destroy (sched_yield fuel) cur else mret tt.

(** The commands of the monitor never tell it to exit, so a breakpoint ends
    there.  [lapic_eoi] writes a device register that nothing reads. *)
Definition int_dispatch (fuel : nat) (env : int_env) (frame : frame_ref) : M sched unit :=
  f ← frame_get frame;
  if int_no f =? INT_PAGE_FAULT then page_fault_handler fuel env frame
  else if int_no f =? INT_BREAK then halt Monitor
  else if int_no f =? INT_SYSCALL then
    r ← syscall fuel (env_entry env) (env_page_flags env) (rdi f) (rsi f) (rdx f) (rcx f) (r8 f);
    frame_set_rax frame (u64 r)
  else if int_no f =? IRQ_TIMER then scheduler fuel (env_tsc env) (env_tsc' env)
  else if cs f =? GDT_KCODE then halt Panic
  else cur ← kern cur_task; task_destroy (sched_yield fuel) cur.

Definition int_handler (fuel : nat) (env : int_env) (f : int_frame) : M sched unit :=
  assert (negb (has (env_rflags env) FLAGS_IF));;
  frame ← (if Z.land (cs f) 3 =? 3 then
             cur ← kern cur_task;
             assert (negb (cur =? NULL));;
             kern (task_upd cur (set_task_frame f));;
             mret (InTask cur)
           else mret (OnStack f));
  int_dispatch fuel env frame;;
  cur ← kern cur_task;
  task_run (sched_yield fuel) cur.
End sched.
