(* ===== verification/SchedProofs.v ===== *)
(** * The scheduler: run queues and round robin

    [queues h m cs Q]: in the list store [h] the global run queue, the run
    queue and the next queue of the CPU [m] hold the tasks [Q q] in order, and
    the tasks [cs] are in none of them.  Each list operation of the scheduler
    is a step on [Q]; [sched_yield] refines the abstract turn [yield_abs]. *)

From S2P Require Import Prelude LinkedList Paging Spinlock Buddy RbTree Kernel PageWalk PageTable PageTableProofs Slab SlabProofs Vma Console Task Sched.

Local Open Scope Z_scope.

Inductive queue := Global | Run | Next.
#[global] Instance queue_eq_dec : EqDecision queue.
Proof. solve_decision. Defined.

Definition tnode (t : Z) : Z := t + off_task_node.
#[global] Instance tnode_inj : Inj (=) (=) tnode.
Proof. intros a b. unfold tnode. lia. Qed.

Definition three (gs rs ns : list Z) (q : queue) : list Z :=
  match q with Global => gs | Run => rs | Next => ns end.
Definition upd (Q : queue → list Z) (q : queue) (l : list Z) (q' : queue) : list Z :=
  if decide (q = q') then l else Q q'.

(** A store of the past and the cells that may have changed since. *)
Class Track := { tr_heap : lheap; tr_cells : list Z }.

Section queues.
Context `{SchedLayout} (m : Z).

Definition qhead (q : queue) : Z :=
  match q with Global => runq | Run => m + off_runq | Next => m + off_nextq end.
(** The addresses a queue occupies. *)
Definition qaddrs (Q : queue → list Z) (q : queue) : list Z := qhead q :: (tnode <$> Q q).

Record queues (h : lheap) (cs : list Z) (Q : queue → list Z) : Prop := {
  q_list : ∀ q, dlist h (qhead q) (tnode <$> Q q);
  q_sep : ∀ q q' a, q ≠ q' → a ∈ qaddrs Q q → a ∉ qaddrs Q q';
  q_out : ∀ c, c ∈ cs → tnode c ∈ dom h ∧ tnode c ≠ NULL ∧ ∀ q, tnode c ∉ qaddrs Q q;
  q_cs : NoDup cs;
  q_nn : ∀ q, NULL ∉ Q q;
  q_nnc : NULL ∉ cs;
}.

Lemma queues_ext h cs Q Q' : (∀ q, Q q = Q' q) → queues h cs Q → queues h cs Q'.
Proof.
  intros E [Hl Hs Ho Hc Hn Hn']. split; [| | |done|intros q; rewrite <-E; apply Hn|done].
  - intros q. rewrite <-E. apply Hl.
  - intros q q' a. unfold qaddrs. rewrite <-!E. apply Hs.
  - intros c Hc'. destruct (Ho c Hc') as (?&?&Hq). split_and!; [done|done|]. intros q. unfold qaddrs. rewrite <-E. apply Hq.
Qed.

Lemma qaddrs_upd Q q l q' : qaddrs (upd Q q l) q' = if decide (q = q') then qhead q' :: (tnode <$> l) else qaddrs Q q'.
Proof. unfold qaddrs, upd. by case_decide. Qed.

(** A queue changes, within the addresses it has and those of [cs]: the
    others stay as they are. *)
Lemma queues_step h h' cs cs' Q q l (dirty : list Z) :
  queues h cs Q → dlist h' (qhead q) (tnode <$> l) → frame dirty h h' →
  (∀ a, a ∈ dirty → a ∈ qaddrs Q q ∨ ∃ c, c ∈ cs ∧ a = tnode c) →
  (∀ t, t ∈ l → t ∈ Q q ∨ t ∈ cs) → (∀ c, c ∈ cs' → c ∉ l ∧ (c ∈ cs ∨ c ∈ Q q)) → NoDup cs' →
  queues h' cs' (upd Q q l).
Proof.
  intros [Hl Hs Ho Hc Hn Hn'] Hl' Hf Hd Hnew Hcs Hnd.
  assert (∀ c q', c ∈ cs → tnode c ∉ qaddrs Q q') as Hx by (intros c0 q0 Hc0; by apply Ho).
  assert (∀ q' a, q ≠ q' → a ∈ dirty → a ∉ qaddrs Q q') as Hclean.
  { intros q' a Hne Ha. destruct (Hd a Ha) as [Hq|(c & Hc' & ->)]; [by apply (Hs q)|]. by apply Ho. }
  assert (∀ a, a ∈ qhead q :: (tnode <$> l) → a ∈ qaddrs Q q ∨ ∃ c, c ∈ cs ∧ a = tnode c) as Hfrom.
  { intros a [->|(t & -> & Ht)%list_elem_of_fmap]%elem_of_cons; [left; left|].
    destruct (Hnew t Ht); [left; right; by apply list_elem_of_fmap_2|right; by exists t]. }
  split; [| | |done|..].
  - intros q'. unfold upd. destruct (decide (q = q')) as [<-|Hne]; [done|].
    apply (dlist_frame _ _ _ _ _ Hf); [|by apply Hl]. intros a Ha Hda. by apply (Hclean q' a).
  - intros q1 q2 a Hne. rewrite !qaddrs_upd. destruct (decide (q = q1)) as [<-|Hn1], (decide (q = q2)) as [<-|Hn2]; [done| | |by apply Hs].
    + intros Ha. destruct (Hfrom a Ha) as [Hq|(c & Hc' & ->)]; [by apply (Hs q)|by apply Ho].
    + intros Ha Ha'. destruct (Hfrom a Ha') as [Hq|(c & Hc' & ->)]; [by apply (Hs q q1 a)|]. by apply (Hx c q1).
  - intros c Hc'. destruct (Hcs c Hc') as [Hnl Hor].
    assert (tnode c ∈ dom h ∧ tnode c ≠ NULL ∧ ∀ q', q ≠ q' → tnode c ∉ qaddrs Q q') as (Hdom & Hnn & Hother).
    { destruct Hor as [Hin|Hin]; [destruct (Ho c Hin) as (?&?&?); by split_and!|].
      assert (tnode c ∈ qaddrs Q q) by (right; by apply list_elem_of_fmap_2).
      split_and!; [by eapply dlist_dom; [apply (Hl q)|]| |by intros; apply (Hs q)].
      destruct (Hl q) as [_ Hz _]. intros E. apply Hz. by rewrite <-E. }
    split_and!; [destruct Hf as [-> _]; done|done|]. intros q'. rewrite qaddrs_upd.
    destruct (decide (q = q')) as [<-|Hne]; [|by apply Hother].
    intros [E|(t & E & Ht)%list_elem_of_fmap]%elem_of_cons; [|by apply (inj tnode) in E as ->].
    destruct Hor as [Hin|Hin]; [apply (Hx c q Hin); rewrite E; left|].
    destruct (Hl q) as [[Hz _]%NoDup_cons _ _]. apply Hz. rewrite <-E. by apply list_elem_of_fmap_2.
  - intros q'. unfold upd. destruct (decide (q = q')); [|apply Hn]. intros Hin. destruct (Hnew _ Hin); [by apply (Hn q)|done].
  - intros Hin. destruct (Hcs _ Hin) as [_ [?|?]]; [done|by apply (Hn q)].
Qed.

(** ** The cells the scheduler may write

    [foot cs Q] are the queue heads and the list nodes of the tasks in the
    queues and in [cs].  [tracked]: the queues, in a store that differs from an
    earlier one, [tr_heap], in the cells [tr_cells] at most, which the queues
    and [cs] do not leave. *)
Definition foot (cs : list Z) (Q : queue → list Z) : list Z :=
  (tnode <$> cs) ++ qaddrs Q Global ++ qaddrs Q Run ++ qaddrs Q Next.

Record tracked `{Track} (h : lheap) (cs : list Z) (Q : queue → list Z) : Prop := {
  tr_queues :> queues h cs Q;
  tr_frame : frame tr_cells tr_heap h;
  tr_foot : foot cs Q ⊆ tr_cells;
}.

Lemma elem_of_foot cs Q a : a ∈ foot cs Q ↔ (∃ c, c ∈ cs ∧ a = tnode c) ∨ ∃ q, a ∈ qaddrs Q q.
Proof.
  unfold foot. rewrite !elem_of_app, list_elem_of_fmap. split.
  - intros [(c & -> & Hc)|Hq]; [left; eauto|right]. destruct Hq as [?|[?|?]]; eauto.
  - intros [(c & Hc & ->)|[[] Hq]]; eauto 6.
Qed.

Lemma tracked_start h cs Q : queues h cs Q → @tracked (Build_Track h (foot cs Q)) h cs Q.
Proof. intros Hq. split; [done|split; [done|by intros]|done]. Qed.

Section tracked.
Context `{Track}.

Lemma tracked_ext h cs Q Q' : (∀ q, Q q = Q' q) → tracked h cs Q → tracked h cs Q'.
Proof.
  intros E [Hq Hf Ha]. split; [by eapply queues_ext|done|].
  intros a Hin. apply Ha. unfold foot, qaddrs in *. by rewrite !E.
Qed.

Lemma tracked_step h h' cs cs' Q q l (dirty : list Z) :
  tracked h cs Q → dlist h' (qhead q) (tnode <$> l) → frame dirty h h' →
  (∀ a, a ∈ dirty → a ∈ qaddrs Q q ∨ ∃ c, c ∈ cs ∧ a = tnode c) →
  (∀ t, t ∈ l → t ∈ Q q ∨ t ∈ cs) → (∀ c, c ∈ cs' → c ∉ l ∧ (c ∈ cs ∨ c ∈ Q q)) → NoDup cs' →
  tracked h' cs' (upd Q q l).
Proof.
  intros [Hq Hf Ha] Hl Hd Hdirty Hnew Hcs Hnd. split; [by eapply queues_step| |].
  - eapply frame_weaken; [exact (frame_trans _ _ _ _ _ Hf Hd)|]. intros a [?|Hin]%elem_of_app; [done|].
    apply Ha, elem_of_foot. destruct (Hdirty a Hin); eauto.
  - assert (∀ t, t ∈ Q q ∨ t ∈ cs → tnode t ∈ tr_cells) as Hn.
    { intros t Ht. apply Ha, elem_of_foot. destruct Ht; [right; exists q; right; by apply list_elem_of_fmap_2|left; eauto]. }
    intros a [(c & Hc & ->)|[q' Hq']]%elem_of_foot.
    + destruct (Hcs c Hc) as [_ Hor]. apply Hn. tauto.
    + rewrite qaddrs_upd in Hq'. case_decide; [subst q'|apply Ha, elem_of_foot; eauto].
      apply elem_of_cons in Hq' as [->|(t & -> & Ht)%list_elem_of_fmap]; [|by apply Hn, Hnew].
      apply Ha, elem_of_foot. right. exists q. left.
Qed.

(** Adding a task that is in no queue. *)
Lemma push_spec h c cs Q q : tracked h (c :: cs) Q →
  wp (list_add_tail (qhead q) (tnode c)) (λ _ h', tracked h' cs (upd Q q (Q q ++ [c]))) h.
Proof.
  intros Hq. pose proof (tr_queues _ _ _ Hq) as [Hl Hs Ho [Hc Hnd]%NoDup_cons _ _].
  destruct (Ho c) as (Hdom & Hnn & Hout); [left|].
  eapply wp_mono; [by apply (list_add_tail_spec _ _ _ _ (Hl q)); [| |apply (Hout q)]|]. cbv beta. intros [] h' [Hl' Hf].
  eapply tracked_step; [exact Hq|by rewrite fmap_app|exact Hf| | | |done].
  - intros a Ha. apply elem_of_cons in Ha as [->|Ha]; [right; exists c; split; [left|done]|left].
    apply elem_of_cons in Ha as [->|Ha]; [apply before_elem|]. apply list_elem_of_singleton in Ha as ->. left.
  - intros t [Ht|Ht%list_elem_of_singleton]%elem_of_app; [by left|subst; right; left].
  - intros c' Hc'. split; [|left; by right]. intros [Hin|Hin%list_elem_of_singleton]%elem_of_app; [|by subst].
    destruct (Ho c') as (_ & _ & Hx); [by right|]. apply (Hx q). right. by apply list_elem_of_fmap_2.
Qed.

(** Taking the first task off a queue. *)
Lemma pop_spec h t l cs Q q : tracked h cs Q → Q q = t :: l →
  wp (list_pop_tail (qhead q)) (λ r h', r = tnode t ∧ tracked h' (t :: cs) (upd Q q l)) h.
Proof.
  intros Hq E. pose proof (tr_queues _ _ _ Hq) as [Hl Hs Ho Hnd _ _]. pose proof (Hl q) as Hlq. rewrite E in Hlq. simpl in Hlq.
  pose proof (dlist_nodup _ _ _ Hlq) as [_ [Ht _]%NoDup_cons]%NoDup_cons.
  eapply wp_mono; [apply (list_pop_tail_spec _ _ _ _ Hlq)|]. cbv beta. intros r h' (-> & Hl' & _ & Hf). split; [done|].
  eapply tracked_step; [exact Hq|exact Hl'|exact Hf| | | |].
  - intros a Ha. left. unfold qaddrs. rewrite E. simpl.
    pose proof (after_elem (qhead q) (tnode <$> l)) as Hae. set_solver.
  - intros t' Ht'. left. rewrite E. by right.
  - intros c [->|Hc]%elem_of_cons.
    + split; [|right; rewrite E; left]. intros Hin. apply Ht. by apply list_elem_of_fmap_2.
    + split; [|by left]. intros Hin. destruct (Ho c Hc) as (_ & _ & Hx). apply (Hx q). right. apply list_elem_of_fmap_2. rewrite E. by right.
  - apply NoDup_cons. split; [|done]. intros Hin. destruct (Ho t Hin) as (_ & _ & Hx). apply (Hx q). right. apply list_elem_of_fmap_2. rewrite E. left.
Qed.

End tracked.

(** Moving a whole queue to an empty one, as [move_nextq_to_runq] does. *)
Lemma splice_lists h hd hd' x xs : dlist h hd (x :: xs) → detached h hd' → hd' ∉ hd :: x :: xs →
  wp (list_del hd;; list_insert_before x hd')
    (λ _ h', detached h' hd ∧ dlist h' hd' (x :: xs) ∧ frame (hd :: hd' :: x :: xs) h h') h.
Proof.
  intros Hl Hd Hn. pose proof (dlist_rotate h hd [] x xs Hl) as Hr.
  pose proof (before_elem x xs) as Hb. wp_step.
  eapply wp_mono; [apply (list_del_spec _ _ xs hd [] Hr)|]. cbv beta. intros [] h1 (Hr1 & Hd1 & Hf1).
  rewrite app_nil_r in Hr1.
  eapply wp_mono; [apply (list_insert_before_spec h1 x xs [] hd')|].
  - by rewrite app_nil_r.
  - destruct Hf1 as [-> _]. eapply dlist_dom; [exact Hd|left].
  - pose proof (dlist_nonnull _ _ _ Hd). set_solver.
  - rewrite app_nil_r. set_solver.
  - cbv beta. intros [] h2 [Hr2 Hf2]. split_and!.
    + apply (dlist_frame _ _ _ _ _ Hf2); [|done]. intros a ->%list_elem_of_singleton.
      pose proof (dlist_nodup _ _ _ Hl) as [Hh _]%NoDup_cons. unfold after. simpl.
      intros Hin. apply Hn. set_solver.
    + apply (dlist_rotate h2 x xs hd' [] Hr2).
    + eapply frame_weaken; [exact (frame_trans _ _ _ _ _ Hf1 Hf2)|]. unfold after. simpl. set_solver.
Qed.

Lemma splice_spec `{Track} h cs Q q q' t l : tracked h cs Q → q ≠ q' → Q q = t :: l → Q q' = [] →
  wp (list_del (qhead q);; list_insert_before (tnode t) (qhead q')) (λ _ h', tracked h' cs (upd (upd Q q []) q' (t :: l))) h.
Proof.
  intros [[Hl Hs Ho Hnd Hn Hn'] Hfr Hft] Hne E E'. pose proof (Hl q) as Hlq. rewrite E, fmap_cons in Hlq.
  pose proof (Hl q') as Hlq'. rewrite E', fmap_nil in Hlq'.
  assert (qaddrs Q q = qhead q :: tnode t :: (tnode <$> l)) as Ea by (unfold qaddrs; by rewrite E).
  assert (qaddrs Q q' = [qhead q']) as Ea' by (unfold qaddrs; by rewrite E').
  eapply wp_mono; [apply (splice_lists _ _ _ _ _ Hlq Hlq')|].
  { rewrite <-Ea. apply (Hs q'); [done|]. rewrite Ea'. left. }
  cbv beta. intros [] h' (Hd & Hl' & Hf).
  assert (∀ q2, qaddrs (upd (upd Q q []) q' (t :: l)) q2 =
    if decide (q2 = q') then qhead q' :: tnode t :: (tnode <$> l) else if decide (q2 = q) then [qhead q] else qaddrs Q q2) as Eq.
  { intros q2. rewrite !qaddrs_upd.
    repeat (match goal with |- context [decide (?a = ?b)] => destruct (decide (a = b)) end); by subst. }
  assert (∀ q2, qhead q2 ∈ qaddrs Q q2) as Hh by (intros q2; left).
  assert (∀ q2 a, a ∈ qaddrs Q q2 → a ∈ tr_cells) as Hcell by (intros; apply Hft, elem_of_foot; eauto).
  split; [split; [| | |done| |done]| |].
  - intros q2. unfold upd. destruct (decide (q' = q2)) as [<-|Hq']; [done|]. destruct (decide (q = q2)) as [<-|Hq]; [done|].
    apply (dlist_frame _ _ _ _ _ Hf); [|by apply Hl]. intros a Ha Hda. apply elem_of_cons in Hda as [->|[->|Hda]%elem_of_cons].
    + by apply (Hs q q2 (qhead q)).
    + by apply (Hs q' q2 (qhead q')).
    + apply (Hs q q2 a); [done| |done]. rewrite Ea. by right.
  - assert (qhead q ∉ qhead q' :: tnode t :: (tnode <$> l)) as Hqq.
    { intros [Eh|Hin]%elem_of_cons; [apply (Hs q q' (qhead q) Hne (Hh q)); rewrite Ea', Eh; left|].
      by pose proof (dlist_nodup _ _ _ Hlq) as [? _]%NoDup_cons. }
    assert (∀ q2 a, q2 ≠ q → q2 ≠ q' → a ∈ qaddrs Q q2 → a ∉ qhead q' :: tnode t :: (tnode <$> l) ∧ a ≠ qhead q) as Hoth.
    { intros q2 a Hm Hm' Ha. split; [intros [->|Hin]%elem_of_cons|intros ->].
      - by apply (Hs q' q2 (qhead q')).
      - apply (Hs q q2 a); [done| |done]. rewrite Ea. by right.
      - by apply (Hs q q2 (qhead q)). }
    intros q1 q2 a Hne12. rewrite !Eq.
    repeat (match goal with |- context [decide (?x = ?y)] => destruct (decide (x = y)) end); subst; try done.
    all: intros Ha Ha'; rewrite ?list_elem_of_singleton in Ha; rewrite ?list_elem_of_singleton in Ha'.
    all: first [by subst; auto | by apply Hoth in Ha' as [? ?]; auto | by apply Hoth in Ha as [? ?]; auto | by apply (Hs q1 q2 a)].
  - intros c Hc. destruct (Ho c Hc) as (?&?&Hq). split_and!; [destruct Hf as [-> _]; done|done|]. intros q2. rewrite Eq.
    pose proof (Hq q) as Hq1. pose proof (Hq q') as Hq2. rewrite Ea in Hq1. rewrite Ea' in Hq2.
    destruct (decide (q2 = q')); [set_solver|]. destruct (decide (q2 = q)); [set_solver|apply Hq].
  - intros q2. unfold upd. destruct (decide (q' = q2)); [rewrite <-E; apply Hn|].
    destruct (decide (q = q2)); [apply not_elem_of_nil|apply Hn].
  - eapply frame_weaken; [exact (frame_trans _ _ _ _ _ Hfr Hf)|].
    intros a [?|Ha]%elem_of_app; [done|]. apply elem_of_cons in Ha as [->|[->|Ha]%elem_of_cons]; [by eapply Hcell|by eapply Hcell|].
    apply (Hcell q). rewrite Ea. by right.
  - intros a [(c & Hc & ->)|[q2 Hq2]]%elem_of_foot; [apply Hft, elem_of_foot; eauto|].
    rewrite Eq in Hq2. repeat case_decide; [|apply list_elem_of_singleton in Hq2 as ->; by eapply Hcell|by eapply Hcell].
    apply elem_of_cons in Hq2 as [->|Hq2]; [by eapply Hcell|]. apply (Hcell q). rewrite Ea. by right.
Qed.
End queues.

(** ** The queue operations on the kernel state

    Up to the switch itself the scheduler changes the list store and the
    record of this CPU only. *)

Definition st (k : kernel) (h : lheap) (c : cpuinfo) : kernel :=
  set_kcpus (<[this_cpu (km k) := c]> (kcpus k)) (set_km (set_heap h (km k)) k).

Lemma st_id k c : kcpus k !! this_cpu (km k) = Some c → st k (heap (km k)) c = k.
Proof. intros Hc. unfold st. rewrite insert_id by done. destruct k as [m]. by destruct m. Qed.

Section ops.
Context `{SchedLayout} `{Track}.
Implicit Types (k : kernel) (h : lheap) (c : cpuinfo).

Lemma wp_cpu_get k h c (P : cpuinfo → kernel → Prop) : P c (st k h c) → wp cpu_get P (st k h c).
Proof. intros HP. eapply wp_deref; [|exact HP]. apply lookup_insert_eq. Qed.
Lemma wp_cpu_upd k h c f (P : unit → kernel → Prop) : P tt (st k h (f c)) → wp (cpu_upd f) P (st k h c).
Proof.
  intros HP. unfold cpu_upd. wp_step. apply wp_cpu_get. wp_step. wp_step. wp_step.
  unfold st in *. simpl. by rewrite insert_insert_eq.
Qed.
Lemma wp_list_st {A} (op : M lheap A) k h c (P : A → kernel → Prop) :
  wp op (λ a h', P a (st k h' c)) h → wp (on_list op) P (st k h c).
Proof. intros Hw. apply wp_on_list. exact Hw. Qed.

Lemma wp_runq_len_set set k h c (P : unit → kernel → Prop) : (set = DEC → 1 ≤ runq_len c) →
  P tt (st k h (set_runq_len (u64 (runq_len c + set)) c)) → wp (local_runq_len_set set) P (st k h c).
Proof.
  intros Hs HP. unfold local_runq_len_set. wp_step. apply wp_cpu_get. wp_step. apply wp_cpu_upd. apply wp_assert; [|done].
  destruct (set =? DEC) eqn:E; [|done]. apply Z.eqb_eq, Hs in E. simpl. lia.
Qed.

Lemma queue_add_spec t cs Q q k h c (P : unit → kernel → Prop) :
  tracked (this_cpu (km k)) h (t :: cs) Q →
  (∀ h', tracked (this_cpu (km k)) h' cs (upd Q q (Q q ++ [t])) → P tt (st k h' c)) →
  wp (queue_add_task (qhead (this_cpu (km k)) q) t) P (st k h c).
Proof.
  intros Hq HP. unfold queue_add_task. cbn [FAIR_SCHEDULER]. apply wp_list_st.
  eapply wp_mono; [apply (push_spec _ _ _ _ _ q Hq)|]. cbv beta. intros [] h' Hq'. by apply HP.
Qed.

Lemma queue_pop_spec t l cs Q q k h c (P : Z → kernel → Prop) :
  tracked (this_cpu (km k)) h cs Q → Q q = t :: l →
  (∀ h', tracked (this_cpu (km k)) h' (t :: cs) (upd Q q l) → P t (st k h' c)) →
  wp (queue_pop_task (qhead (this_cpu (km k)) q)) P (st k h c).
Proof.
  intros Hq E HP. unfold queue_pop_task. wp_step. apply wp_list_st.
  eapply wp_mono; [apply (pop_spec _ _ _ _ _ _ q Hq E)|]. cbv beta. intros r h' [-> Hq'].
  destruct (q_out _ _ _ _ Hq' t) as (_ & Hn & _); [left|]. rewrite (proj2 (Z.eqb_neq _ _)) by done. wp_step.
  replace (container_of (tnode t) off_task_node) with t by (unfold container_of, tnode; lia). by apply HP.
Qed.
Lemma queue_pop_none cs Q q k h c (P : Z → kernel → Prop) :
  tracked (this_cpu (km k)) h cs Q → Q q = [] → P NULL (st k h c) → wp (queue_pop_task (qhead (this_cpu (km k)) q)) P (st k h c).
Proof.
  intros Hq E HP. unfold queue_pop_task. wp_step. apply wp_list_st.
  pose proof (q_list _ _ _ _ Hq q) as Hl. rewrite E in Hl. eapply wp_OK; [by apply list_pop_tail_empty|].
  rewrite Z.eqb_refl. by wp_step.
Qed.

Lemma wp_local_runq k h c (P : Z → kernel → Prop) : P (qhead (this_cpu (km k)) Run) (st k h c) → wp local_runq P (st k h c).
Proof. intros HP. unfold local_runq. wp_step. wp_step. by wp_step. Qed.
Lemma wp_local_nextq k h c (P : Z → kernel → Prop) : P (qhead (this_cpu (km k)) Next) (st k h c) → wp local_nextq P (st k h c).
Proof. intros HP. unfold local_nextq. wp_step. wp_step. by wp_step. Qed.

(** [set_runq_len] keeps the rest. *)
Lemma set_runq_len_twice a b c : set_runq_len a (set_runq_len b c) = set_runq_len a c.
Proof. done. Qed.
Lemma set_runq_len_id c : set_runq_len (runq_len c) c = c.
Proof. by destruct c. Qed.

Lemma fill_spec want k cs fuel gs rs ns h c : tracked (this_cpu (km k)) h cs (three gs rs ns) →
  0 ≤ runq_len c → want < 2 ^ 64 → (Z.to_nat (want - runq_len c) < fuel)%nat →
  let n := Z.to_nat (want - runq_len c) in
  wp (fill_runq fuel want) (λ _ k', ∃ h', k' = st k h' (set_runq_len (runq_len c + Z.of_nat (n `min` length gs)) c) ∧
    tracked (this_cpu (km k)) h' cs (three (drop n gs) (rs ++ take n gs) ns)) (st k h c).
Proof.
  revert gs rs h c. induction fuel as [|fuel IH]; intros gs rs h c Hq Hz Hw Hf; [lia|]. cbv zeta. cbn [fill_runq].
  wp_step. apply wp_cpu_get. destruct (runq_len c <? want) eqn:E.
  - apply Z.ltb_lt in E. cbn [negb]. wp_step.
    change runq with (qhead (this_cpu (km k)) Global). destruct gs as [|t gs].
    + eapply queue_pop_none; [exact Hq|done|]. cbn [Z.eqb NULL]. wp_step. exists h.
      rewrite drop_nil, take_nil, app_nil_r, Nat.min_0_r, Z.add_0_r, set_runq_len_id. done.
    + eapply (queue_pop_spec t gs); [exact Hq|done|]. intros h1 Hq1.
      assert (t ≠ NULL) as Hn by (pose proof (q_nnc _ _ _ _ Hq1); set_solver).
      rewrite (proj2 (Z.eqb_neq _ _)) by done. wp_step. apply wp_local_runq. wp_step.
      eapply (queue_add_spec _ _ _ Run); [exact Hq1|]. intros h2 Hq2. wp_step.
      apply wp_runq_len_set; [done|]. unfold INC, u64. rewrite Z.mod_small by lia.
      eapply wp_mono; [apply (IH gs (rs ++ [t]) h2)|].
      * eapply tracked_ext; [|exact Hq2]. by intros [].
      * simpl. lia.
      * done.
      * simpl. lia.
      * cbv beta zeta. intros [] k' (h' & -> & Hq'). exists h'. simpl in Hq' |- *.
        replace (Z.to_nat (want - runq_len c)) with (S (Z.to_nat (want - (runq_len c + 1)))) by lia.
        split; [|by rewrite <-app_assoc in Hq']. rewrite set_runq_len_twice. do 2 f_equal. simpl. lia.
  - apply Z.ltb_ge in E. cbn [negb]. wp_step. exists h. replace (Z.to_nat (want - runq_len c)) with 0%nat by lia.
    rewrite drop_0, take_0, app_nil_r. simpl. by rewrite Z.add_0_r, set_runq_len_id.
Qed.

Lemma drain_spec want k cs fuel gs rs ns h c : tracked (this_cpu (km k)) h cs (three gs rs ns) →
  0 ≤ want → runq_len c < 2 ^ 64 → runq_len c - want ≤ Z.of_nat (length rs) → (Z.to_nat (runq_len c - want) < fuel)%nat →
  let n := Z.to_nat (runq_len c - want) in
  wp (drain_runq fuel want) (λ _ k', ∃ h', k' = st k h' (set_runq_len (runq_len c - Z.of_nat n) c) ∧
    tracked (this_cpu (km k)) h' cs (three (gs ++ take n rs) (drop n rs) ns)) (st k h c).
Proof.
  revert gs rs h c. induction fuel as [|fuel IH]; intros gs rs h c Hq Hz Hw Hl Hf; [lia|]. cbv zeta. cbn [drain_runq].
  wp_step. apply wp_cpu_get. destruct (want <? runq_len c) eqn:E.
  - apply Z.ltb_lt in E. cbn [negb]. wp_step. apply wp_local_runq. wp_step. destruct rs as [|t rs]; [simpl in Hl; lia|].
    eapply (queue_pop_spec t rs); [exact Hq|done|]. intros h1 Hq1. wp_step. apply wp_assert; [lia|]. wp_step.
    apply wp_runq_len_set; [lia|]. unfold DEC. unfold u64. rewrite Z.mod_small by lia. wp_step.
    assert (t ≠ NULL) as Hn by (pose proof (q_nnc _ _ _ _ Hq1); set_solver).
    apply wp_assert; [by rewrite (proj2 (Z.eqb_neq _ _))|]. wp_step. change runq with (qhead (this_cpu (km k)) Global).
    eapply (queue_add_spec _ _ _ Global); [exact Hq1|]. intros h2 Hq2.
    eapply wp_mono; [apply (IH (gs ++ [t]) rs h2)|].
    + eapply tracked_ext; [|exact Hq2]. by intros [].
    + done.
    + simpl. lia.
    + simpl in *. lia.
    + simpl. lia.
    + cbv beta zeta. intros [] k' (h' & -> & Hq'). exists h'. simpl in Hq' |- *.
      replace (Z.to_nat (runq_len c - want)) with (S (Z.to_nat (runq_len c + -1 - want))) by lia.
      split; [|by rewrite <-app_assoc in Hq']. rewrite set_runq_len_twice. do 2 f_equal. lia.
  - apply Z.ltb_ge in E. cbn [negb]. wp_step. exists h. replace (Z.to_nat (runq_len c - want)) with 0%nat by lia.
    rewrite drop_0, take_0, app_nil_r. simpl. by rewrite Z.sub_0_r, set_runq_len_id.
Qed.

(** Balancing brings the local queue to [want] tasks if the global queue has
    enough. *)
Definition balance (want : Z) (gs rs : list Z) : list Z * list Z :=
  let more := Z.to_nat (want - Z.of_nat (length rs)) in
  let less := Z.to_nat (Z.of_nat (length rs) - want) in
  (drop more gs ++ take less rs, drop less rs ++ take more gs).

Lemma migrate_spec want k cs gs rs h c : tracked (this_cpu (km k)) h cs (three gs rs []) →
  runq_len c = Z.of_nat (length rs) → 0 ≤ want < 2 ^ 64 → Z.of_nat (length rs) < 2 ^ 64 →
  let '(gs', rs') := balance want gs rs in
  wp (migrate_tasks_runq want) (λ _ k', ∃ h', k' = st k h' (set_runq_len (Z.of_nat (length rs')) c) ∧
    tracked (this_cpu (km k)) h' cs (three gs' rs' [])) (st k h c).
Proof.
  intros Hq Hl Hw Hr. unfold balance, migrate_tasks_runq. wp_step.
  eapply wp_mono; [apply (fill_spec want k cs _ gs rs [] h c Hq); lia|]. cbv beta zeta. intros [] k' (h1 & -> & Hq1).
  rewrite Hl in *. wp_step. apply wp_cpu_get.
  set (more := Z.to_nat (want - Z.of_nat (length rs))) in *.
  set (c1 := set_runq_len _ c). assert (runq_len c1 = Z.of_nat (length (rs ++ take more gs))) as Hl1.
  { unfold c1. cbn [runq_len set_runq_len]. rewrite length_app, length_take. lia. }
  assert (Z.of_nat (length (rs ++ take more gs)) < 2 ^ 64) as Hb by (rewrite length_app, length_take; unfold more; lia).
  eapply wp_mono; [apply (drain_spec want k cs _ _ _ [] h1 c1 Hq1); lia|]. cbv beta zeta. intros [] k' (h2 & -> & Hq2).
  rewrite Hl1 in Hq2 |- *. exists h2.
  assert (Z.to_nat (Z.of_nat (length (rs ++ take more gs)) - want) = Z.to_nat (Z.of_nat (length rs) - want) ∧
    (Z.to_nat (Z.of_nat (length rs) - want) = 0 ∨ more = 0)%nat) as [E1 Hor].
  { rewrite length_app, length_take. unfold more. lia. }
  rewrite E1 in Hq2 |- *.
  assert (drop (Z.to_nat (Z.of_nat (length rs) - want)) (rs ++ take more gs) =
    drop (Z.to_nat (Z.of_nat (length rs) - want)) rs ++ take more gs) as Ed.
  { destruct Hor as [->|E]; [by rewrite !drop_0|]. rewrite E, take_0, !app_nil_r. done. }
  assert (take (Z.to_nat (Z.of_nat (length rs) - want)) (rs ++ take more gs) = take (Z.to_nat (Z.of_nat (length rs) - want)) rs) as Et.
  { destruct Hor as [->|E]; [by rewrite !take_0|]. rewrite E, take_0, !app_nil_r. done. }
  rewrite Ed, Et in Hq2. split; [|done]. unfold c1. rewrite set_runq_len_twice. do 2 f_equal.
  rewrite <-Ed, length_drop. destruct Hor as [E|E]; lia.
Qed.
End ops.

(** ** Code that leaves the kernel *)

(** [m] ends by returning to user mode, in a state that satisfies [Q]. *)
Definition leaves {S A} (m : M S A) (Q : S → Prop) (s : S) : Prop :=
  match m s with Stop Leave s' => Q s' | _ => False end.

Lemma leaves_bind {S A B} (m : M S A) (f : A → M S B) Q s : leaves m Q s → leaves (m ≫= f) Q s.
Proof. unfold leaves, mbind, M_bind. destruct (m s); [done|]. done. Qed.
Lemma leaves_after {S A B} (m : M S A) (f : A → M S B) Q s : wp m (λ a, leaves (f a) Q) s → leaves (m ≫= f) Q s.
Proof. unfold leaves, wp, mbind, M_bind. by destruct (m s). Qed.
Lemma leaves_mono {S A} (m : M S A) (P Q : S → Prop) s : leaves m P s → (∀ s', P s' → Q s') → leaves m Q s.
Proof. unfold leaves. destruct (m s) as [|[]]; naive_solver. Qed.
Lemma leaves_elim {S A} (m : M S A) (Q : S → Prop) s : leaves m Q s → ∃ s', m s = Stop Leave s' ∧ Q s'.
Proof. unfold leaves. destruct (m s) as [|[]]; naive_solver. Qed.

(** ** Switching to a task *)

(** A task that can be run. *)
Definition runnable (T : gmap Z task) (t : Z) : Prop := ∃ tk, T !! t = Some tk ∧
  (task_status tk = TASK_RUNNABLE ∨ task_status tk = TASK_RUNNING) ∧ pid_valid (task_pid tk) = true ∧ KERNEL_VMA ≤ task_pml4 tk.

(** What the switch does to the task structs. *)
Definition preempt (cur : Z) (T : gmap Z task) : gmap Z task :=
  if decide (cur = NULL) then T
  else alter (λ t, if task_status t =? TASK_RUNNING then set_task_status TASK_RUNNABLE t else t) cur T.
Definition resume (t : Z) (T : gmap Z task) : gmap Z task :=
  alter (λ x, set_task_runs (u32 (task_runs x + 1)) (set_task_status TASK_RUNNING x)) t T.

(** The kernel state in which [t] runs. *)
Definition switched (cur t : Z) (k : kernel) (h : lheap) (c : cpuinfo) : kernel :=
  set_tlb ∅ (set_cr3 (default 0 (task_pml4 <$> ktasks k !! t) - KERNEL_VMA)
    (set_ktasks (resume t (preempt cur (ktasks k))) (st k h (set_cpu_task t c)))).

Lemma preempt_lookup cur T t tk : T !! t = Some tk → ∃ tk', preempt cur T !! t = Some tk' ∧
  task_pid tk' = task_pid tk ∧ task_pml4 tk' = task_pml4 tk ∧ task_frame tk' = task_frame tk ∧
  (tk' = tk ∨ task_status tk = TASK_RUNNING ∧ task_status tk' = TASK_RUNNABLE).
Proof.
  intros Ht. unfold preempt. case_decide; [by eauto 10|]. rewrite lookup_alter.
  case_decide; [subst; rewrite Ht|by eauto 10]. simpl. eexists. split; [done|].
  destruct (task_status tk =? TASK_RUNNING) eqn:E; [apply Z.eqb_eq in E|]; by auto 10.
Qed.

Lemma runnable_preempt cur T t : runnable T t → runnable (preempt cur T) t.
Proof.
  intros (tk & Ht & Hs & Hp & Hm). destruct (preempt_lookup cur T t tk Ht) as (tk' & Ht' & Ep & Em & _ & Hor).
  exists tk'. split; [done|]. rewrite Ep, Em. split; [|done]. destruct Hor as [->|[_ ->]]; auto.
Qed.
Lemma runnable_resume t' T t : runnable T t → runnable (resume t' T) t.
Proof.
  intros (tk & Ht & Hs & Hp & Hm). unfold runnable, resume. rewrite lookup_alter. case_decide.
  - subst. rewrite Ht. eexists. split; [done|]. simpl. auto.
  - exists tk. auto.
Qed.

Lemma runnable_status T t tk : runnable T t → T !! t = Some tk →
  (task_status tk = TASK_RUNNABLE ∨ task_status tk = TASK_RUNNING).
Proof. intros (tk' & E & Hs & _) Ht. by simplify_eq. Qed.

Section switch.
Context `{Layout} `{VmaNames} `{Ports} `{SchedLayout}.
Implicit Types (s : sched) (k : kernel) (h : lheap) (c : cpuinfo).

Lemma wp_kern {A} (op : M kernel A) (P : A → sched → Prop) s :
  wp op (λ a k', P a (set_sk k' s)) (sk s) → wp (kern op) P s.
Proof. intros Hw. by apply wp_zoom. Qed.

Lemma wp_task_upd k p t f (P : unit → kernel → Prop) : ktasks k !! p = Some t →
  P tt (set_ktasks (<[p := f t]> (ktasks k)) k) → wp (task_upd p f) P k.
Proof. intros Ht HP. unfold task_upd, task_get. wp_step. eapply wp_deref; [exact Ht|]. by wp_step. Qed.

(** The first step of [task_run]: the task that ran is runnable again. *)
Lemma preempt_spec yield k h c s (P : unit → sched → Prop) :
  (cpu_task c ≠ NULL → runnable (ktasks k) (cpu_task c)) →
  P tt (set_sk (set_ktasks (preempt (cpu_task c) (ktasks k)) (st k h c)) s) →
  wp (if negb (cpu_task c =? NULL) then
        x ← kern (task_get (cpu_task c));
        if task_status x =? TASK_RUNNING then kern (task_upd (cpu_task c) (set_task_status TASK_RUNNABLE))
        else if (task_status x =? TASK_DYING) || (task_status x =? TASK_NOT_RUNNABLE) then task_destroy yield (cpu_task c)
        else mret tt
      else mret tt) P (set_sk (st k h c) s).
Proof.
  intros Hr HP. unfold preempt in HP. destruct (cpu_task c =? NULL) eqn:E; cbn [negb].
  - apply Z.eqb_eq in E. rewrite decide_True in HP by done. wp_step.
    replace (set_ktasks (ktasks k) (st k h c)) with (st k h c) in HP by (by destruct k). done.
  - apply Z.eqb_neq in E. rewrite decide_False in HP by done. destruct (Hr E) as (x & Hx & Hs & _).
    wp_step. apply wp_kern. unfold task_get. eapply wp_deref; [exact Hx|].
    assert (alter (λ t : task, if task_status t =? TASK_RUNNING then set_task_status TASK_RUNNABLE t else t) (cpu_task c) (ktasks k) =
      <[cpu_task c := if task_status x =? TASK_RUNNING then set_task_status TASK_RUNNABLE x else x]> (ktasks k)) as Ea.
    { apply map_eq. intros i. rewrite lookup_alter, lookup_insert. case_decide; [subst; by rewrite Hx|done]. }
    rewrite Ea in HP. destruct Hs as [Hs|Hs]; rewrite Hs in *; cbn in HP |- *.
    + rewrite insert_id in HP by done.
      replace (set_ktasks (ktasks k) (st k h c)) with (st k h c) in HP by (by destruct k). exact HP.
    + apply wp_kern. eapply wp_task_upd; [exact Hx|]. exact HP.
Qed.

Lemma task_run_spec yield k h c t s : (cpu_task c ≠ NULL → runnable (ktasks k) (cpu_task c)) → runnable (ktasks k) t →
  leaves (task_run yield t) (λ s', s' = set_sk (switched (cpu_task c) t k h c) s) (set_sk (st k h c) s).
Proof.
  intros Hc Ht. unfold task_run. apply leaves_after, wp_kern. unfold cur_task. wp_step. apply wp_cpu_get. wp_step.
  apply leaves_after, (preempt_spec yield k h c s); [done|]. apply leaves_after, wp_kern. unfold set_cur_task.
  set (T := preempt (cpu_task c) (ktasks k)).
  assert (runnable T t) as Ht1 by (by apply runnable_preempt).
  pose proof Ht1 as (tk & Htk & Hst & Hpid & Hpm).
  assert (∀ P, P tt (set_ktasks T (st k h (set_cpu_task t c))) → wp (cpu_upd (set_cpu_task t)) P (set_ktasks T (st k h c))) as Hcpu.
  { intros P HP. unfold cpu_upd, cpu_get. wp_step. eapply wp_deref; [apply lookup_insert_eq|]. wp_step. wp_step. wp_step.
    unfold st in *. simpl. by rewrite insert_insert_eq. }
  apply Hcpu. apply leaves_after, wp_kern. unfold task_get. eapply wp_deref; [exact Htk|].
  apply leaves_after. assert (task_status tk =? TASK_DYING = false) as -> by (by destruct Hst as [-> | ->]). wp_step.
  apply leaves_after, wp_kern. unfold cpu_get. wp_step. eapply wp_deref; [apply lookup_insert_eq|]. wp_step. simpl.
  apply leaves_after, wp_kern. eapply wp_task_upd; [exact Htk|].
  apply leaves_after, wp_kern. eapply wp_task_upd; [apply lookup_insert_eq|].
  apply leaves_after, wp_kern. eapply wp_deref; [apply lookup_insert_eq|].
  apply leaves_after, wp_kern, wp_on_km. unfold PADDR. simpl. rewrite (proj2 (Z.ltb_ge _ _)) by done. wp_step.
  apply leaves_after, wp_kern. unfold load_pml4. wp_step. apply leaves_after. apply wp_assert; [done|].
  unfold leaves, task_pop_frame, halt.
  match goal with |- set_sk ?x _ = set_sk ?y _ => change (set_sk x s = set_sk y s) end. f_equal. unfold switched. fold T.
  destruct (Ht) as (tk0 & Htk0 & _). destruct (preempt_lookup (cpu_task c) _ _ _ Htk0) as (tk' & Htk' & _ & Epm & _).
  fold T in Htk'. rewrite Htk in Htk'. injection Htk' as <-. rewrite Htk0. simpl. rewrite Epm.
  assert (resume t T = <[t := set_task_runs (u32 (task_runs tk + 1)) (set_task_status TASK_RUNNING tk)]>
    (<[t := set_task_status TASK_RUNNING tk]> T)) as ->.
  { unfold resume. rewrite insert_insert_eq. apply map_eq. intros i. rewrite lookup_alter, lookup_insert.
    case_decide; [subst; by rewrite Htk|done]. }
  done.
Qed.
End switch.
