(* ===== verification/SchedSpec.v ===== *)
(** * The scheduler: what a switch does, and that every task gets its turn

    [sched_inv s cur gs rs ns] is the scheduler's invariant: [cur] runs, the
    global run queue, the run queue and the next queue of this CPU hold [gs],
    [rs] and [ns], the counters agree and all these tasks can be run.
    [yield_abs] is a turn of the scheduler on these lists. *)

From S2P Require Import Prelude LinkedList Paging Spinlock Buddy RbTree Kernel PageWalk PageTable PageTableProofs Slab SlabProofs Vma Console Task Sched SchedProofs.

Local Open Scope Z_scope.

(** ** The abstract scheduler *)

(** The task that ran, if there is one. *)
Definition ran (cur : Z) : list Z := if decide (cur = NULL) then [] else [cur].

(** Move the tasks of the next queue to the empty run queue and, unless there
    are exactly [want] of them or the global queue is locked, balance. *)
Definition refill (want : Z) (unlocked : bool) (gs rs : list Z) : list Z * list Z :=
  if negb (Z.of_nat (length rs) =? want) && unlocked then balance want gs rs else (gs, rs).

(** A turn: the next task and the queues [(gs, rs, ns)]; [None] when there is
    no task to run. *)
Definition yield_abs (want : Z) (unlocked : bool) (cur : Z) (gs rs ns : list Z) : option (Z * (list Z * list Z * list Z)) :=
  match rs with
  | t :: rs' => Some (t, (gs, rs', ns ++ ran cur))
  | [] =>
      let '(gs', rs1) := refill want unlocked gs (ns ++ ran cur) in
      match rs1 with
      | t :: rs' => Some (t, (gs', rs', []))
      | [] => None
      end
  end.

Section spec.
Context `{Layout} `{VmaNames} `{Ports} `{SchedLayout}.
Implicit Types (s : sched) (k : kernel) (h : lheap) (c : cpuinfo).

(** The address of this CPU's [struct cpuinfo]. *)
Definition cpu_of (s : sched) : Z := this_cpu (km (sk s)).

Record sched_inv s (cur : Z) (gs rs ns : list Z) : Prop := {
  si_queues : queues (cpu_of s) (heap (km (sk s))) (ran cur) (three gs rs ns);
  si_cpu : ∃ c, kcpus (sk s) !! cpu_of s = Some c ∧ cpu_task c = cur ∧
    runq_len c = Z.of_nat (length rs + length ns);
  si_tasks : ∀ t, t ∈ ran cur ++ gs ++ rs ++ ns → runnable (ktasks (sk s)) t;
  si_count : 0 ≤ nuser_tasks s ∧ 1 ≤ ncpus s ∧ nuser_tasks s + ncpus s < 2 ^ 64;
  si_user : nuser_tasks s ≠ nkernel_tasks s;
  si_len : Z.of_nat (length (gs ++ rs ++ ns)) + 1 < 2 ^ 64;
  si_lock : holding (runq_lock s) (cpu_of s) = false;
}.

(** The number of tasks a CPU should run. *)
Definition want s : Z := (nuser_tasks s + (ncpus s - 1)) / ncpus s.
Definition unlocked s : bool := locked (runq_lock s) =? 0.

(** ** The parts of [sched_yield] *)

Section tracked.
Context `{Track}.

Lemma move_cur_spec k h c gs rs ns (P : unit → kernel → Prop) :
  tracked (this_cpu (km k)) h (ran (cpu_task c)) (three gs rs ns) →
  (cpu_task c ≠ NULL → runnable (ktasks k) (cpu_task c)) → 0 ≤ runq_len c → runq_len c + 1 < 2 ^ 64 →
  (∀ h', tracked (this_cpu (km k)) h' [] (three gs rs (ns ++ ran (cpu_task c))) →
    P tt (st k h' (set_runq_len (runq_len c + Z.of_nat (length (ran (cpu_task c)))) c))) →
  wp move_cur_task_to_nextq P (st k h c).
Proof.
  intros Hq Hr Hz Hb HP. unfold move_cur_task_to_nextq, cur_task. wp_step. wp_step. apply wp_cpu_get. wp_step.
  unfold ran in *. destruct (decide (cpu_task c = NULL)) as [E|E].
  - rewrite E, Z.eqb_refl. wp_step. rewrite app_nil_r in HP. simpl in HP. rewrite Z.add_0_r, set_runq_len_id in HP. by apply HP.
  - rewrite (proj2 (Z.eqb_neq _ _)) by done. destruct (Hr E) as (tk & Ht & _ & Hp & _).
    wp_step. unfold task_get. eapply wp_deref; [exact Ht|]. wp_step. apply wp_assert; [done|]. wp_step. apply wp_local_nextq.
    wp_step. eapply (queue_add_spec _ _ _ Next); [exact Hq|]. intros h1 Hq1. apply wp_runq_len_set; [done|].
    unfold INC, u64. rewrite Z.mod_small by lia. apply HP. eapply tracked_ext; [|exact Hq1]. by intros [].
Qed.

Lemma move_nextq_spec k h c cs gs ns (P : unit → kernel → Prop) :
  tracked (this_cpu (km k)) h cs (three gs [] ns) →
  (∀ h', tracked (this_cpu (km k)) h' cs (three gs ns []) → P tt (st k h' c)) → wp move_nextq_to_runq P (st k h c).
Proof.
  intros Hq HP. pose proof (q_list _ _ _ _ Hq Next) as Hl. unfold move_nextq_to_runq. wp_step. apply wp_local_nextq.
  wp_step. apply wp_list_st. unfold list_head. wp_step. pose proof (dlist_ends _ _ _ Hl) as [Hn _].
  eapply wp_get_next; [exact Hn|]. wp_step. destruct ns as [|t ns].
  - unfold after. simpl. rewrite Z.eqb_refl. cbn [Z.eqb NULL]. wp_step. apply HP. eapply tracked_ext; [|exact Hq]. by intros [].
  - unfold after. simpl. simpl in Hl.
    rewrite (proj2 (Z.eqb_neq (tnode t) _)).
    2: { intros E. pose proof (dlist_nodup _ _ _ Hl) as [Hh _]%NoDup_cons. apply Hh. rewrite E. left. }
    rewrite (proj2 (Z.eqb_neq _ _)).
    2: { intros E. apply (dlist_nonnull _ _ _ Hl). rewrite <-E. right. left. }
    pose proof (splice_spec _ h cs _ Next Run t ns Hq ltac:(done) eq_refl eq_refl) as Hsp. apply wp_bind_inv in Hsp.
    wp_step. apply wp_list_st. eapply wp_mono; [exact Hsp|]. cbv beta. intros [] h1 Hsp1. wp_step. apply wp_local_runq.
    apply wp_list_st. eapply wp_mono; [exact Hsp1|]. cbv beta. intros [] h2 Hq2. apply HP.
    eapply tracked_ext; [|exact Hq2]. by intros [].
Qed.

(** Operations on the lock of the global run queue. *)
Lemma wp_runq_lock {A} (op : M spinlock A) (P : A → sched → Prop) s :
  wp op (λ a l, P a (set_runq_lock l s)) (runq_lock s) → wp (on_runq_lock op) P s.
Proof. intros Hw. by apply wp_zoom. Qed.

(** The lock after a call that has taken and released it. *)
Definition cycled (l : spinlock) : spinlock := SpinLock 0 (lock_name l) NULL NULL 0.

Lemma trylock_spec m f n l : holding l m = false →
  wp (spin_trylock m f n) (λ r l', if locked l =? 0 then r = 1 ∧ l' = SpinLock 1 (lock_name l) m f n
                                   else r = 0 ∧ l' = l) l.
Proof. intros Hh. unfold wp. rewrite spin_trylock_eq, Hh. by destruct (locked l =? 0). Qed.

Lemma FGL_spec want k h c cs gs ns s (P : unit → sched → Prop) :
  tracked (this_cpu (km k)) h cs (three gs [] ns) → runq_len c = Z.of_nat (length ns) → 0 ≤ want < 2 ^ 64 →
  Z.of_nat (length ns) < 2 ^ 64 → holding (runq_lock s) (this_cpu (km k)) = false →
  (∀ h' l', let '(gs', rs') := refill want (locked (runq_lock s) =? 0) gs ns in
    tracked (this_cpu (km k)) h' cs (three gs' rs' []) → holding l' (this_cpu (km k)) = false →
    l' = runq_lock s ∨ (locked (runq_lock s) =? 0) = true ∧ l' = cycled (runq_lock s) →
    P tt (set_runq_lock l' (set_sk (st k h' (set_runq_len (Z.of_nat (length rs')) c)) s))) →
  wp (FGL_migrate_tasks want) P (set_sk (st k h c) s).
Proof.
  intros Hq Hl Hw Hb Hh HP. unfold FGL_migrate_tasks. wp_step. apply wp_kern. eapply move_nextq_spec; [exact Hq|].
  intros h1 Hq1. wp_step. apply wp_kern, wp_cpu_get. rewrite Hl. unfold refill in HP.
  assert (∀ s', set_runq_lock (runq_lock s) (set_sk (st k h1 c) s) = s' → s' = set_sk (st k h1 c) s) as Hs.
  { intros s' <-. by destruct s. }
  destruct (Z.of_nat (length ns) =? want) eqn:E; simpl in HP |- *.
  - wp_step. specialize (HP h1 (runq_lock s) Hq1 Hh (or_introl eq_refl)).
    rewrite <-Hl, set_runq_len_id in HP. by rewrite (Hs _ eq_refl) in HP.
  - unfold me. wp_step. wp_step. simpl. wp_step. apply wp_runq_lock.
    eapply wp_mono; [apply (trylock_spec (this_cpu (km k))); exact Hh|]. cbv beta. simpl. intros r l1.
    destruct (locked (runq_lock s) =? 0) eqn:El.
    + intros [-> ->]. cbn [Z.eqb negb]. wp_step. apply wp_kern.
      pose proof (migrate_spec want k cs gs ns h1 c Hq1 Hl Hw Hb) as Hm.
      destruct (balance want gs ns) as [gs' rs']. eapply wp_mono; [exact Hm|]. cbv beta. intros [] k' (h2 & -> & Hq2).
      apply wp_runq_lock. eapply wp_OK; [rewrite spin_unlock_eq, holding_held by done; done|].
      apply HP; [exact Hq2|done|by right].
    + intros [-> ->]. cbn [Z.eqb negb]. wp_step. specialize (HP h1 (runq_lock s) Hq1 Hh (or_introl eq_refl)).
      rewrite <-Hl, set_runq_len_id in HP. by rewrite (Hs _ eq_refl) in HP.
Qed.

Lemma try_run_empty yield k h c cs gs ns s (P : Z → sched → Prop) :
  tracked (this_cpu (km k)) h cs (three gs [] ns) → P (-1) (set_sk (st k h c) s) →
  wp (try_run_next_task yield) P (set_sk (st k h c) s).
Proof.
  intros Hq HP. pose proof (q_list _ _ _ _ Hq Run) as Hl. unfold try_run_next_task. wp_step. apply wp_kern, wp_local_runq.
  wp_step. apply wp_kern, wp_list_st. eapply wp_OK; [by apply list_is_empty_spec|]. rewrite bool_decide_true by done. by wp_step.
Qed.

Lemma try_run_some yield k h c gs t rs ns s :
  tracked (this_cpu (km k)) h [] (three gs (t :: rs) ns) → 1 ≤ runq_len c < 2 ^ 64 →
  (cpu_task c ≠ NULL → runnable (ktasks k) (cpu_task c)) → runnable (ktasks k) t →
  leaves (try_run_next_task yield) (λ s', ∃ h', tracked (this_cpu (km k)) h' [t] (three gs rs ns) ∧
    s' = set_sk (switched (cpu_task c) t k h' (set_runq_len (runq_len c - 1) c)) s) (set_sk (st k h c) s).
Proof.
  intros Hq Hl Hc Ht. pose proof (q_list _ _ _ _ Hq Run) as Hlr. unfold try_run_next_task.
  apply leaves_after, wp_kern, wp_local_runq. apply leaves_after, wp_kern, wp_list_st.
  eapply wp_OK; [by apply list_is_empty_spec|]. rewrite bool_decide_false by done.
  apply leaves_after, wp_kern. eapply (queue_pop_spec t rs); [exact Hq|done|]. intros h1 Hq1.
  apply leaves_after, wp_kern, wp_cpu_get. apply leaves_after. apply wp_assert; [lia|].
  apply leaves_after, wp_kern. apply wp_runq_len_set; [lia|]. unfold DEC, u64. rewrite Z.mod_small by lia.
  assert (t ≠ NULL) as Hn by (pose proof (q_nnc _ _ _ _ Hq1); set_solver).
  apply leaves_after. apply wp_assert; [by rewrite (proj2 (Z.eqb_neq _ _))|]. apply leaves_bind.
  eapply leaves_mono; [apply (task_run_spec yield k h1 (set_runq_len (runq_len c + -1) c) t s); done|].
  cbv beta. intros s' ->. exists h1. split; [|done]. eapply tracked_ext; [|exact Hq1]. by intros [].
Qed.

End tracked.

(** ** A turn *)

Lemma refill_perm w u gs rs gs' rs' : refill w u gs rs = (gs', rs') → gs' ++ rs' ≡ₚ gs ++ rs.
Proof.
  unfold refill, balance. destruct (_ && _); intros [= <- <-]; [|done].
  set (a := Z.to_nat (w - _)). set (b := Z.to_nat (_ - w)).
  rewrite <-(take_drop a gs) at 3. rewrite <-(take_drop b rs) at 3. solve_Permutation.
Qed.

Lemma yield_abs_perm w u cur gs rs ns t gs' rs' ns' : yield_abs w u cur gs rs ns = Some (t, (gs', rs', ns')) →
  t :: gs' ++ rs' ++ ns' ≡ₚ ran cur ++ gs ++ rs ++ ns.
Proof.
  unfold yield_abs. destruct rs as [|t0 rs].
  - destruct (refill w u gs (ns ++ ran cur)) as [gs1 [|t1 rs1]] eqn:E; [done|]. intros [= <- <- <- <-].
    apply refill_perm in E. simpl. rewrite app_nil_r. etrans; [|etrans; [exact E|]]; solve_Permutation.
  - intros [= <- <- <- <-]. solve_Permutation.
Qed.

(** What a turn that switches from [cur] to [t] does to the whole state, with
    [len] tasks left in the queues of this CPU.  The list store keeps every
    cell but those of [foot]: the three queue heads and the list nodes of the
    tasks in the queues and of [cur].  Of this CPU's record only the length and
    the current task are new, of the task structs the status of [cur] and the
    status and run count of [t], the page table register holds [t]'s table, and
    the lock of the global queue is as it was, or has been taken and released
    if it was free.  All else is as before. *)
Definition switched_to s (cur : Z) (gs rs ns : list Z) (t : Z) (len : nat) (s' : sched) : Prop :=
  ∃ h c l, kcpus (sk s) !! cpu_of s = Some c ∧
    frame (foot (cpu_of s) (ran cur) (three gs rs ns)) (heap (km (sk s))) h ∧
    (l = runq_lock s ∨ unlocked s = true ∧ l = cycled (runq_lock s)) ∧
    s' = set_runq_lock l (set_sk (switched cur t (sk s) h (set_runq_len (Z.of_nat len) c)) s).

Lemma switched_counts s cur gs rs ns t len s' : switched_to s cur gs rs ns t len s' →
  nuser_tasks s' = nuser_tasks s ∧ ncpus s' = ncpus s ∧ unlocked s' = unlocked s.
Proof.
  intros (h & c & l & _ & _ & Hl & ->). split; [done|]. split; [done|]. unfold unlocked at 1. simpl.
  by destruct Hl as [->|[-> ->]].
Qed.

Lemma switched_inv s cur gs rs ns t gs' rs' ns' h c l :
  sched_inv s cur gs rs ns → t :: gs' ++ rs' ++ ns' ≡ₚ ran cur ++ gs ++ rs ++ ns →
  queues (cpu_of s) h [t] (three gs' rs' ns') → runq_len c = Z.of_nat (length rs' + length ns') →
  holding l (cpu_of s) = false →
  sched_inv (set_runq_lock l (set_sk (switched cur t (sk s) h c) s)) t gs' rs' ns'.
Proof.
  intros [Hq Hc Ht Hn Hu Hl Hh] Hp Hq' Hr' Hh'.
  assert (ran t = [t]) as Et by (unfold ran; rewrite decide_False; [done|]; intros ->; apply (q_nnc _ _ _ _ Hq'); left).
  split.
  - rewrite Et. exact Hq'.
  - exists (set_cpu_task t c). split; [apply lookup_insert_eq|]. done.
  - intros x Hx. rewrite Et in Hx. apply runnable_resume, runnable_preempt, Ht. by rewrite <-Hp.
  - exact Hn.
  - exact Hu.
  - apply Permutation_length in Hp. rewrite length_app in Hp. unfold ran in Hp.
    simpl in Hp. destruct (decide (cur = NULL)); simpl in Hp; lia.
  - exact Hh'.
Qed.

Lemma want_bounds s cur gs rs ns : sched_inv s cur gs rs ns → 0 ≤ want s < 2 ^ 64 ∧
  u64 (nuser_tasks s + u64 (ncpus s - 1)) / ncpus s = want s.
Proof.
  intros [_ _ _ (Hn & Hp & Hb) _ _ _]. unfold want, u64. rewrite (Z.mod_small (ncpus s - 1)), Z.mod_small by lia.
  split; [|done]. split; [apply Z.div_pos; lia|]. apply Z.div_lt_upper_bound; [lia|]. nia.
Qed.

Lemma inv_cur s cur gs rs ns : sched_inv s cur gs rs ns → cur ≠ NULL → runnable (ktasks (sk s)) cur.
Proof. intros [_ _ Ht _ _ _ _] Hn. apply Ht. unfold ran. rewrite decide_False by done. left. Qed.

Lemma sched_yield_spec fuel s cur gs rs ns t gs' rs' ns' : sched_inv s cur gs rs ns →
  yield_abs (want s) (unlocked s) cur gs rs ns = Some (t, (gs', rs', ns')) →
  leaves (sched_yield (S fuel)) (λ s', sched_inv s' t gs' rs' ns' ∧
    switched_to s cur gs rs ns t (length rs' + length ns') s') s.
Proof.
  intros Hinv Ey. pose proof (yield_abs_perm _ _ _ _ _ _ _ _ _ _ Ey) as Hperm.
  pose proof Hinv as [Hq (c & Hc & Ec & Er) Htasks _ Hu Hlen Hlock].
  destruct (want_bounds _ _ _ _ _ Hinv) as [Hwb Hwant].
  assert (runnable (ktasks (sk s)) t) as Ht by (apply Htasks; rewrite <-Hperm; left).
  assert (cpu_task c ≠ NULL → runnable (ktasks (sk s)) (cpu_task c)) as Hcur by (rewrite Ec; by eapply inv_cur).
  assert (length (ran cur) ≤ 1)%nat as Hr1 by (unfold ran; case_decide; simpl; lia). rewrite !length_app in Hlen.
  set (k := sk s) in *. set (c1 := set_runq_len (runq_len c + Z.of_nat (length (ran (cpu_task c)))) c).
  assert (s = set_sk (st k (heap (km k)) c) s) as Es by (unfold k; rewrite st_id by done; by destruct s).
  apply (tracked_start (cpu_of s)) in Hq. set (T := Build_Track _ _) in Hq.
  cbn [sched_yield]. apply leaves_after, wp_gets. apply leaves_after, wp_gets. rewrite (proj2 (Z.eqb_neq _ _)) by done.
  apply leaves_after. rewrite Es at 1. apply wp_kern. eapply move_cur_spec; [rewrite Ec; exact Hq|done|lia|lia|].
  fold c1. intros h1 Hq1. rewrite Ec in Hq1. change (set_sk ?x (set_sk _ s)) with (set_sk x s).
  assert (runq_len c1 = Z.of_nat (length rs + length ns + length (ran cur))) as Er1 by (unfold c1; simpl; rewrite Er, Ec; lia).
  destruct rs as [|t0 rs].
  - apply leaves_after. eapply try_run_empty; [exact Hq1|]. apply leaves_after, wp_gets. apply leaves_after, wp_gets.
    apply leaves_after. cbn [nuser_tasks ncpus set_sk]. rewrite Hwant. cbn [length Nat.add] in Er1, Hlen.
    eapply FGL_spec; [exact Hq1|rewrite length_app; lia|done|rewrite length_app; lia|exact Hlock|].
    intros h2 l2. unfold yield_abs in Ey. fold (unlocked s).
    destruct (refill (want s) (unlocked s) gs (ns ++ ran cur)) as [gs1 [|t1 rs1]] eqn:Erf; [done|]. injection Ey as <- <- <- <-.
    intros Hq2 Hh2 El2. apply leaves_bind. apply refill_perm, Permutation_length in Erf. rewrite !length_app in Erf. simpl in Erf.
    eapply leaves_mono; [apply (try_run_some _ k h2 (set_runq_len (Z.of_nat (length (t1 :: rs1))) c1)
      gs1 t1 rs1 [] (set_runq_lock l2 s) Hq2); [simpl; lia|exact Hcur|exact Ht]|].
    cbv beta. intros s' (h3 & Hq3 & ->). cbn [cpu_task set_runq_len c1]. rewrite Ec. split.
    + eapply (switched_inv s cur gs [] ns); [exact Hinv|exact Hperm|exact Hq3|simpl; lia|exact Hh2].
    + exists h3, c, l2. split; [done|]. split; [exact (tr_frame _ _ _ _ Hq3)|]. split; [exact El2|].
      assert (∀ a b, a = b → set_runq_len a (set_runq_len (Z.of_nat (length (t1 :: rs1))) c1) = set_runq_len b c) as Hset
        by (by intros a b ->). rewrite (Hset _ (Z.of_nat (length rs1 + 0))); [done|simpl; lia].
  - unfold yield_abs in Ey. injection Ey as <- <- <- <-. apply leaves_bind.
    eapply leaves_mono; [apply (try_run_some _ k h1 c1 gs t0 rs _ s Hq1); [simpl in *; lia|exact Hcur|exact Ht]|].
    cbv beta. intros s' (h2 & Hq2 & ->). change (cpu_task c1) with (cpu_task c). rewrite Ec.
    assert (set_sk (switched cur t0 k h2 (set_runq_len (runq_len c1 - 1) c1)) s =
      set_runq_lock (runq_lock s) (set_sk (switched cur t0 k h2 (set_runq_len (runq_len c1 - 1) c1)) s)) as -> by (by destruct s).
    split.
    + eapply (switched_inv s cur gs (t0 :: rs) ns); [exact Hinv|exact Hperm|exact Hq2| |exact Hlock].
      cbn [runq_len set_runq_len]. rewrite Er1, length_app. simpl. lia.
    + exists h2, c, (runq_lock s). split; [done|]. split; [exact (tr_frame _ _ _ _ Hq2)|]. split; [by left|].
      assert (∀ a b, a = b → set_runq_len a c1 = set_runq_len b c) as Hset by (by intros a b ->).
      rewrite (Hset _ (Z.of_nat (length rs + length (ns ++ ran cur)))); [done|]. rewrite Er1, length_app. simpl. lia.
Qed.

(** ** Round robin on one CPU *)

(** All user tasks of the machine are on this CPU. *)
Definition alone s (cur : Z) (gs rs ns : list Z) : Prop :=
  sched_inv s cur gs rs ns ∧ cur ≠ NULL ∧ ncpus s = 1 ∧ unlocked s = true ∧
  nuser_tasks s = Z.of_nat (length (cur :: gs ++ rs ++ ns)).

Lemma refill_all gs rs : refill (Z.of_nat (length gs + length rs)) true gs rs = ([], rs ++ gs).
Proof.
  unfold refill, balance. rewrite andb_true_r. destruct (_ =? _) eqn:E; simpl.
  - apply Z.eqb_eq in E. destruct gs; [by rewrite app_nil_r|simpl in E; lia].
  - replace (Z.to_nat (Z.of_nat (length gs + length rs) - Z.of_nat (length rs))) with (length gs) by lia.
    replace (Z.to_nat (Z.of_nat (length rs) - Z.of_nat (length gs + length rs))) with 0%nat by lia.
    by rewrite drop_all, take_0, drop_0, firstn_all.
Qed.

Lemma alone_want s cur gs rs ns : alone s cur gs rs ns → want s = Z.of_nat (S (length gs + length rs + length ns)).
Proof.
  intros (_ & _ & E1 & _ & En). unfold want. rewrite E1, En, Z.div_1_r. simpl. rewrite !length_app. lia.
Qed.

(** The turns left until [t] runs. *)
Definition due (t : Z) (i : nat) (cur : Z) (gs rs ns : list Z) : Prop :=
  (rs ++ ns ++ [cur]) !! i = Some t ∨
  ∃ j, gs !! j = Some t ∧ i = (length rs + (length rs + length ns + 1) + j)%nat.

Lemma due_turn t i s cur gs rs ns : alone s cur gs rs ns → due t i cur gs rs ns →
  ∃ t' gs' rs' ns', yield_abs (want s) (unlocked s) cur gs rs ns = Some (t', (gs', rs', ns')) ∧
    match i with O => t' = t | S i => due t i t' gs' rs' ns' end.
Proof.
  intros Ha Hd. pose proof (alone_want _ _ _ _ _ Ha) as Ew. destruct Ha as (_ & Hn & _ & Eu & _). rewrite Ew, Eu.
  unfold yield_abs, ran. rewrite decide_False by done. destruct rs as [|t0 rs].
  - replace (S (length gs + length [] + length ns)) with (length gs + length (ns ++ [cur]))%nat by (rewrite length_app; simpl; lia).
    rewrite refill_all.
    assert (((ns ++ [cur]) ++ gs) !! i = Some t) as Hi.
    { destruct Hd as [Hd|(j & Hj & ->)]; [by apply lookup_app_l_Some|]. simpl.
      rewrite lookup_app_r by (rewrite length_app; simpl; lia). rewrite <-Hj. f_equal. rewrite length_app. simpl. lia. }
    destruct ((ns ++ [cur]) ++ gs) as [|t1 rs1] eqn:E; [done|]. exists t1, [], rs1, []. split; [done|].
    destruct i as [|i]; [by injection Hi|]. left. simpl. by apply lookup_app_l_Some.
  - exists t0, gs, rs, (ns ++ [cur]). split; [done|]. destruct i as [|i].
    + destruct Hd as [Hd|(j & Hj & E)]; [by injection Hd|simpl in E; lia].
    + destruct Hd as [Hd|(j & Hj & E)].
      * left. simpl in Hd. rewrite !app_assoc. rewrite !app_assoc in Hd. by apply lookup_app_l_Some.
      * right. exists j. split; [done|]. rewrite length_app. simpl in *. lia.
Qed.

Lemma due_exists t cur gs rs ns : t ∈ cur :: gs ++ rs ++ ns →
  ∃ i, (i < 2 * length (cur :: gs ++ rs ++ ns))%nat ∧ due t i cur gs rs ns.
Proof.
  intros Ht. simpl. rewrite !length_app. assert (t ∈ gs ∨ t ∈ rs ++ ns ++ [cur]) as [Hg|Hl] by set_solver.
  - apply list_elem_of_lookup in Hg as [j Hj]. pose proof (lookup_lt_Some _ _ _ Hj).
    eexists. split; [|right; by exists j]. lia.
  - apply list_elem_of_lookup in Hl as [i Hi]. pose proof (lookup_lt_Some _ _ _ Hi) as Hlt. rewrite !length_app in Hlt. simpl in Hlt.
    exists i. split; [lia|by left].
Qed.

(** ** Timer interrupts *)

(** A timer interrupt of a task in user mode. *)
Definition timer_event (ev : int_env * int_frame) : Prop :=
  int_no ev.2 = IRQ_TIMER ∧ Z.land (cs ev.2) 3 = 3 ∧ has (env_rflags ev.1) FLAGS_IF = false.

(** Changing a task without touching what the scheduler looks at. *)
Lemma inv_task_upd s cur gs rs ns p tk f : sched_inv s cur gs rs ns → ktasks (sk s) !! p = Some tk →
  task_status (f tk) = task_status tk → task_pid (f tk) = task_pid tk → task_pml4 (f tk) = task_pml4 tk →
  sched_inv (set_sk (set_ktasks (<[p := f tk]> (ktasks (sk s))) (sk s)) s) cur gs rs ns.
Proof.
  intros [Hq Hc Ht Hn Hu Hl Hh] Hp Es Ep Em. split; try done. intros t Hin. destruct (Ht t Hin) as (x & Hx & Hs & Hpid & Hm).
  simpl. unfold runnable. rewrite lookup_insert. case_decide; [|by eauto 10]. subst. rewrite Hp in Hx. injection Hx as ->.
  eexists. split; [done|]. rewrite Es, Ep, Em. done.
Qed.

Lemma inv_time s cur gs rs ns a b : sched_inv s cur gs rs ns → sched_inv (set_start a (set_time_elapsed b s)) cur gs rs ns.
Proof. by intros []. Qed.

Lemma tick_spec fuel env f s cur gs rs ns t gs' rs' ns' : sched_inv s cur gs rs ns → cur ≠ NULL → timer_event (env, f) →
  yield_abs (want s) (unlocked s) cur gs rs ns = Some (t, (gs', rs', ns')) →
  leaves (int_handler (S fuel) env f) (λ s', sched_inv s' t gs' rs' ns' ∧
    nuser_tasks s' = nuser_tasks s ∧ ncpus s' = ncpus s ∧ unlocked s' = unlocked s) s.
Proof.
  intros Hinv Hcur (Hno & Hcs & Hif) Ey. simpl in Hno, Hcs, Hif. unfold int_handler. apply leaves_after.
  apply wp_assert; [by rewrite Hif|]. rewrite Hcs. cbn [Z.eqb Pos.eqb].
  pose proof Hinv as [_ (c & Hc & Ec & _) _ _ _ _ _].
  destruct (inv_cur _ _ _ _ _ Hinv Hcur) as (tk & Htk & _).
  assert (∀ s0 (P : Z → sched → Prop), kcpus (sk s0) !! cpu_of s0 = Some c → P cur s0 → wp (kern cur_task) P s0) as Hget.
  { intros s0 P Hc0 HP. apply wp_kern. unfold cur_task, cpu_get. wp_step. eapply wp_deref; [exact Hc0|]. wp_step.
    rewrite Ec. by replace (set_sk (sk s0) s0) with s0 by (by destruct s0). }
  apply leaves_after. wp_step. apply Hget; [done|]. wp_step. apply wp_assert; [by rewrite (proj2 (Z.eqb_neq _ _))|].
  wp_step. apply wp_kern. eapply wp_task_upd; [exact Htk|]. wp_step.
  pose proof (inv_task_upd _ _ _ _ _ _ _ (set_task_frame f) Hinv Htk eq_refl eq_refl eq_refl) as Hinv1.
  set (s1 := set_sk _ s) in *. apply leaves_bind. unfold int_dispatch, frame_get. apply leaves_after. wp_step. apply wp_kern.
  unfold task_get. eapply wp_deref; [apply lookup_insert_eq|]. wp_step. cbn [task_frame set_task_frame]. rewrite Hno.
  cbn [Z.eqb Pos.eqb IRQ_TIMER INT_PAGE_FAULT INT_BREAK INT_SYSCALL].
  replace (set_sk (sk s1) s1) with s1 by (by destruct s1). unfold scheduler. apply leaves_after, wp_modify.
  apply leaves_after, wp_gets. apply leaves_after, wp_gets. cbn [FAIR_SCHEDULER andb]. apply leaves_after.
  apply Hget; [done|]. apply leaves_after, wp_kern. eapply wp_task_upd; [apply lookup_insert_eq|]. apply leaves_after, wp_modify.
  pose proof (inv_task_upd _ _ _ _ _ cur _ (λ t0, set_jiffies (u64 (jiffies t0 + u64 (env_tsc env - start s1))) t0)
    Hinv1 ltac:(apply lookup_insert_eq) eq_refl eq_refl eq_refl) as Hinv2.
  apply (inv_time _ _ _ _ _ (env_tsc' env) (u64 (env_tsc env - start s1))) in Hinv2.
  pose proof (sched_yield_spec fuel _ _ _ _ _ t gs' rs' ns' Hinv2 Ey) as Hy. refine (leaves_mono _ _ _ _ Hy _).
  cbv beta. intros s' [Hs' Hsw]. split; [exact Hs'|]. by apply switched_counts in Hsw.
Qed.

(** A sequence of interrupts, the kernel returning to user mode in between. *)
Fixpoint ticks (fuel : nat) (evs : list (int_env * int_frame)) s : option sched :=
  match evs with
  | [] => Some s
  | (env, f) :: evs =>
      match int_handler fuel env f s with
      | Stop Leave s' => ticks fuel evs s'
      | _ => None
      end
  end.

Lemma tick_alone fuel env f s cur gs rs ns t gs' rs' ns' : alone s cur gs rs ns → timer_event (env, f) →
  yield_abs (want s) (unlocked s) cur gs rs ns = Some (t, (gs', rs', ns')) →
  ∃ s', int_handler (S fuel) env f s = Stop Leave s' ∧ alone s' t gs' rs' ns'.
Proof.
  intros Ha Hev Ey. pose proof Ha as (Hinv & Hn & Hc & Hu & Hnu).
  destruct (leaves_elim _ _ _ (tick_spec fuel env f s cur gs rs ns t gs' rs' ns' Hinv Hn Hev Ey)) as (s' & E & Hs' & En & Ec & Eu).
  exists s'. split; [done|]. apply yield_abs_perm in Ey. split; [done|]. split_and!; [|congruence|congruence|].
  - intros ->. pose proof (si_tasks _ _ _ _ _ Hinv NULL) as Ht.
    assert (NULL ∈ ran cur ++ gs ++ rs ++ ns) as Hin by (rewrite <-Ey; left).
    pose proof (si_queues _ _ _ _ _ Hinv) as Hq. apply elem_of_app in Hin as [Hin|[Hin|[Hin|Hin]%elem_of_app]%elem_of_app].
    + by apply (q_nnc _ _ _ _ Hq).
    + by apply (q_nn _ _ _ _ Hq Global).
    + by apply (q_nn _ _ _ _ Hq Run).
    + by apply (q_nn _ _ _ _ Hq Next).
  - apply Permutation_length in Ey. rewrite En, Hnu. unfold ran in Ey. rewrite decide_False in Ey by done. simpl in *. lia.
Qed.

Lemma ticks_app fuel evs evs' s : ticks fuel (evs ++ evs') s = ticks fuel evs s ≫= ticks fuel evs'.
Proof.
  revert s. induction evs as [|[env f] evs IH]; intros s; [done|]. simpl.
  destruct (int_handler fuel env f s) as [|[]]; done || apply IH.
Qed.

(** The machine of [alone] with the same tasks, in some order. *)
Definition alone_with s (cur : Z) (all : list Z) : Prop :=
  ∃ gs rs ns, alone s cur gs rs ns ∧ cur :: gs ++ rs ++ ns ≡ₚ all.

Lemma alone_turn s cur gs rs ns t gs' rs' ns' : alone s cur gs rs ns →
  yield_abs (want s) (unlocked s) cur gs rs ns = Some (t, (gs', rs', ns')) →
  t :: gs' ++ rs' ++ ns' ≡ₚ cur :: gs ++ rs ++ ns.
Proof. intros (_ & Hn & _) Ey%yield_abs_perm. unfold ran in Ey. by rewrite decide_False in Ey. Qed.

(** Any number of interrupts: the machine stays as [alone] describes it. *)
Lemma ticks_alone fuel evs s cur all : alone_with s cur all → Forall timer_event evs →
  ∃ s' cur', ticks (S fuel) evs s = Some s' ∧ alone_with s' cur' all.
Proof.
  revert s cur. induction evs as [|[env f] evs IH]; intros s cur Ha Hev; [by exists s, cur|].
  inversion_clear Hev as [|?? He Hevs]. destruct Ha as (gs & rs & ns & Ha & Hp).
  destruct (due_exists cur cur gs rs ns) as (i & _ & Hd); [left|].
  destruct (due_turn _ _ _ _ _ _ _ Ha Hd) as (t' & gs' & rs' & ns' & Ey & _).
  destruct (tick_alone fuel _ _ _ _ _ _ _ _ _ _ _ Ha He Ey) as (s' & Es & Ha').
  cbn [ticks]. rewrite Es. apply (IH s' t'); [|done]. exists gs', rs', ns'. split; [done|].
  rewrite <-Hp. exact (alone_turn _ _ _ _ _ _ _ _ _ Ha Ey).
Qed.

Lemma ticks_due fuel i t evs s cur gs rs ns : alone s cur gs rs ns → due t i cur gs rs ns →
  Forall timer_event evs → (i < length evs)%nat →
  ∃ s', ticks (S fuel) (take (S i) evs) s = Some s' ∧ alone_with s' t (cur :: gs ++ rs ++ ns).
Proof.
  revert evs s cur gs rs ns. induction i as [|i IH]; intros evs s cur gs rs ns Ha Hd Hev Hi;
    (destruct evs as [|[env f] evs]; [simpl in Hi; lia|]); inversion_clear Hev as [|?? He Hevs];
    destruct (due_turn _ _ _ _ _ _ _ Ha Hd) as (t' & gs' & rs' & ns' & Ey & Hm);
    destruct (tick_alone fuel _ _ _ _ _ _ _ _ _ _ _ Ha He Ey) as (s' & Es & Ha');
    pose proof (alone_turn _ _ _ _ _ _ _ _ _ Ha Ey) as Hp.
  - subst t'. exists s'. split; [cbn [take ticks]; by rewrite Es|]. by exists gs', rs', ns'.
  - destruct (IH evs s' _ _ _ _ Ha' Hm Hevs ltac:(simpl in Hi; lia)) as (s2 & E2 & gs2 & rs2 & ns2 & Ha2 & Hp2).
    exists s2. split; [rewrite firstn_cons; cbn [ticks]; by rewrite Es|]. exists gs2, rs2, ns2. split; [done|]. by rewrite Hp2.
Qed.

Lemma alone_cpu s cur all : alone_with s cur all → ∃ c, kcpus (sk s) !! cpu_of s = Some c ∧ cpu_task c = cur.
Proof. intros (gs & rs & ns & (Hi & _) & _). destruct (si_cpu _ _ _ _ _ Hi) as (c & Hc & Et & _). eauto. Qed.
End spec.

(** ** The theorems *)

(** C9 (refinement).  In a state that satisfies the scheduler's invariant
    [sched_yield] is the abstract turn [yield_abs]: the task that ran goes to
    the end of the next queue, the first task of the run queue runs, and when
    the run queue is empty it takes over the next queue and is balanced with
    the global queue if that is not locked.  The kernel leaves for the task
    chosen, the invariant holds again for the new queues, and [switched_to]
    gives the rest of the state: the task chosen is marked running and counted
    once more, its page table is loaded, the task that ran is runnable; of the
    CPU's record only the current task and the length of the queues change; in
    the list store only the queue heads and the nodes of the queued tasks and
    of the task that ran; the lock of the global queue is free again if it was
    taken; everything else is as before. *)
Theorem sched_yield_correct `{Layout} `{VmaNames} `{Ports} `{SchedLayout} fuel (s : sched) cur gs rs ns t gs' rs' ns' :
  sched_inv s cur gs rs ns →
  yield_abs (want s) (unlocked s) cur gs rs ns = Some (t, (gs', rs', ns')) →
  leaves (sched_yield (S fuel)) (λ s', sched_inv s' t gs' rs' ns' ∧
    switched_to s cur gs rs ns t (length rs' + length ns') s') s.
Proof. apply sched_yield_spec. Qed.

(** C10 (liveness).  On a machine with one CPU and [N] user tasks, none of
    which blocks or ends, whatever the tasks' registers and the clock are: the
    handling of timer interrupts never gets stuck, and after every one of them
    the machine is again as described, with the same [N] tasks; and from any
    interrupt on, each task, the one that runs included, is switched to by one
    of the next [2 N] interrupts. *)
Theorem timer_round_robin `{Layout} `{VmaNames} `{Ports} `{SchedLayout} fuel (s : sched) cur gs rs ns evs :
  alone s cur gs rs ns → Forall timer_event evs →
  let all := cur :: gs ++ rs ++ ns in
  (∀ n, ∃ s' cur', ticks (S fuel) (take n evs) s = Some s' ∧ alone_with s' cur' all) ∧
  (∀ t m, t ∈ all → (m + 2 * length all ≤ length evs)%nat →
    ∃ n s' c, (m < n ≤ m + 2 * length all)%nat ∧ ticks (S fuel) (take n evs) s = Some s' ∧
      alone_with s' t all ∧ kcpus (sk s') !! cpu_of s' = Some c ∧ cpu_task c = t).
Proof.
  intros Ha Hev all. assert (alone_with s cur all) as Ha0 by (by exists gs, rs, ns).
  assert (∀ n, ∃ s' cur', ticks (S fuel) (take n evs) s = Some s' ∧ alone_with s' cur' all) as Hall
    by (intros n; apply (ticks_alone fuel _ s cur); [done|by apply Forall_take]).
  split; [exact Hall|]. intros t m Ht Hlen. destruct (Hall m) as (s1 & cur1 & E1 & gs1 & rs1 & ns1 & Ha1 & Hp1).
  assert (t ∈ cur1 :: gs1 ++ rs1 ++ ns1) as Ht1 by (by rewrite Hp1).
  destruct (due_exists _ _ _ _ _ Ht1) as (i & Hi & Hd). rewrite Hp1 in Hi.
  destruct (ticks_due fuel i t (drop m evs) s1 cur1 gs1 rs1 ns1 Ha1 Hd) as (s' & E & gs2 & rs2 & ns2 & Ha2 & Hp2);
    [by apply Forall_drop|rewrite length_drop; lia|].
  assert (alone_with s' t all) as Hs' by (exists gs2, rs2, ns2; split; [done|by rewrite Hp2]).
  destruct (alone_cpu _ _ _ Hs') as (c & Hc & Et).
  exists (m + S i)%nat, s', c. split; [lia|]. split; [|done].
  rewrite <-(take_take_drop evs m (S i)), ticks_app, E1. exact E.
Qed.

(** Both loops of [migrate_tasks_runq] end; afterwards the
    local queue has the number of tasks wanted, or all that the global queue
    could give, tasks keep their order, none is lost or duplicated, and the
    length counter is right. *)
Theorem migrate_tasks_runq_correct `{SchedLayout} want k cs gs rs c :
  queues (this_cpu (km k)) (heap (km k)) cs (three gs rs []) → kcpus k !! this_cpu (km k) = Some c →
  runq_len c = Z.of_nat (length rs) → 0 ≤ want < 2 ^ 64 → Z.of_nat (length rs) < 2 ^ 64 →
  ∃ gs' rs', wp (migrate_tasks_runq want) (λ _ k', ∃ h', k' = st k h' (set_runq_len (Z.of_nat (length rs')) c) ∧
      queues (this_cpu (km k)) h' cs (three gs' rs' []) ∧
      frame (foot (this_cpu (km k)) cs (three gs rs [])) (heap (km k)) h') k ∧
    gs' ++ rs' ≡ₚ gs ++ rs ∧
    Z.of_nat (length rs') = Z.min want (Z.of_nat (length (gs ++ rs))) ∧
    (rs' = rs ++ take (length rs' - length rs) gs ∨ rs = take (length rs - length rs') rs ++ rs').
Proof.
  intros Hq%tracked_start Hc Hl Hw Hr. pose proof (migrate_spec want k cs gs rs _ c Hq Hl Hw Hr) as Hm.
  assert (refill want true gs rs = balance want gs rs) as Eb.
  { unfold refill. rewrite andb_true_r. destruct (_ =? _) eqn:E; [|done]. simpl. apply Z.eqb_eq in E. unfold balance.
    rewrite E, Z.sub_diag. simpl. by rewrite drop_0, app_nil_r, drop_0, app_nil_r. }
  rewrite st_id in Hm by done. unfold balance in *.
  set (more := Z.to_nat (want - Z.of_nat (length rs))) in *. set (less := Z.to_nat (Z.of_nat (length rs) - want)) in *.
  exists (drop more gs ++ take less rs), (drop less rs ++ take more gs). split.
  { eapply wp_mono; [exact Hm|]. cbv beta. intros [] k' (h' & -> & [Hq' Hf' _]). by exists h'. }
  split; [by eapply refill_perm|].
  rewrite !length_app, length_drop, length_take. split; [unfold more, less; lia|].
  destruct (decide (less = 0%nat)) as [El|El].
  - left. rewrite El, drop_0. f_equal. replace (length rs - 0 + more `min` length gs - length rs)%nat with (more `min` length gs)%nat by lia.
    destruct (decide (more ≤ length gs)%nat); [by rewrite Nat.min_l by lia|]. rewrite Nat.min_r by lia. rewrite !take_ge by lia. done.
  - right. assert (more = 0%nat) as -> by (unfold more, less in *; lia). rewrite take_0, app_nil_r.
    replace (length rs - (length rs - less + 0 `min` length gs))%nat with (less `min` length rs)%nat by lia.
    rewrite Nat.min_l by (unfold less; lia). by rewrite take_drop.
Qed.

(** A task can kill itself and its children only: for any other
    PID in range, [sys_kill] returns -1 and changes nothing. *)
Theorem sys_kill_permission `{Layout} `{VmaNames} `{Ports} `{SchedLayout} fuel (s : sched) pid c ct t :
  0 < pid → kcpus (sk s) !! cpu_of s = Some c → ktasks (sk s) !! cpu_task c = Some ct → tasks s !! pid = Some t →
  (t ≠ NULL → t ≠ cpu_task c ∧ ∃ tk, ktasks (sk s) !! t = Some tk ∧ task_ppid tk ≠ task_pid ct) →
  sys_kill fuel pid s = OK (-1) s.
Proof.
  intros Hp Hc Hct Ht Hperm. apply wp_run. assert (set_sk (sk s) s = s) as Es by (by destruct s).
  unfold sys_kill. wp_step. unfold pid2task. rewrite (proj2 (Z.eqb_neq _ _)) by lia.
  destruct (pid_max <=? pid); [wp_step; cbn [Z.eqb NULL]; by wp_step|]. wp_step. unfold tasks_get. eapply wp_deref; [exact Ht|].
  destruct (t =? NULL) eqn:E; [wp_step; cbn [Z.eqb NULL]; by wp_step|]. apply Z.eqb_neq in E. cbn [negb].
  destruct (Hperm E) as (Hne & tk & Htk & Hpp). wp_step. apply wp_kern. unfold cur_task, cpu_get. wp_step.
  eapply wp_deref; [exact Hc|]. wp_step. rewrite Es. rewrite (proj2 (Z.eqb_neq _ _)) by done. cbn [negb].
  wp_step. apply wp_kern. unfold task_get. eapply wp_deref; [exact Htk|]. rewrite Es.
  wp_step. apply wp_kern. unfold task_get. eapply wp_deref; [exact Hct|]. rewrite Es.
  rewrite (proj2 (Z.eqb_neq _ _)) by done. cbn [negb]. wp_step. cbn [Z.eqb NULL]. by wp_step.
Qed.

(** Only the upper bound of a PID is checked: a negative one makes [pid2task]
    read in front of the PID map, where the kernel stack of the first CPU ends. *)
Theorem sys_kill_negative_faults `{Layout} `{VmaNames} `{Ports} `{SchedLayout} fuel (s : sched) pid :
  pid < 0 → (∀ p, p ∈ dom (tasks s) → 0 ≤ p < pid_max) → sys_kill fuel pid s = Stop Fault s.
Proof.
  intros Hp Hd. unfold sys_kill, pid2task, mbind, M_bind. rewrite (proj2 (Z.eqb_neq _ _)) by lia.
  rewrite (proj2 (Z.leb_gt _ _)) by (change pid_max with 65536; lia). unfold tasks_get, deref.
  destruct (tasks s !! pid) eqn:E; [|done]. apply elem_of_dom_2, Hd in E. lia.
Qed.

(** Waiting without a child to wait for: if the list of children
    is empty, or the task waits for itself, [sys_waitpid] returns [-ECHILD]
    with the task's lock released, and nothing but the lock's debug fields
    has changed. *)
Theorem sys_waitpid_no_child `{Layout} `{VmaNames} `{Ports} `{SchedLayout} fuel (s : sched) pid c ct xs :
  kcpus (sk s) !! cpu_of s = Some c → ktasks (sk s) !! cpu_task c = Some ct → is_free (task_lock ct) →
  dlist (heap (km (sk s))) (cpu_task c + off_task_children) xs → xs = [] ∨ task_pid ct = pid →
  wp (sys_waitpid fuel pid) (λ r s', r = - ECHILD ∧ ∃ l, is_free l ∧
    s' = set_sk (set_ktasks (<[cpu_task c := set_task_lock l ct]> (ktasks (sk s))) (sk s)) s) s.
Proof.
  intros Hc Hct Hfree Hl Hor. assert (set_sk (sk s) s = s) as Es by (by destruct s).
  unfold sys_waitpid. wp_step. apply wp_kern. unfold cur_task, cpu_get. wp_step. eapply wp_deref; [exact Hc|]. wp_step. rewrite Es.
  wp_step. unfold lock_task, me. wp_step. wp_step. apply wp_kern. unfold on_task_lock, task_get. wp_step. eapply wp_deref; [exact Hct|].
  apply wp_zoom. eapply wp_mono; [by apply spin_lock_spec|]. cbv beta. intros [] l1 Hheld.
  wp_step. apply wp_kern, wp_on_list_read. eapply wp_OK; [by apply list_is_empty_spec|]. split; [done|].
  wp_step. apply wp_kern. unfold task_get. eapply wp_deref; [apply lookup_insert_eq|].
  assert (bool_decide (xs = []) || (task_pid (set_task_lock l1 ct) =? pid) = true) as ->.
  { destruct Hor as [->|<-]; [done|]. simpl. by rewrite Z.eqb_refl, orb_true_r. }
  wp_step. unfold unlock_task, me. wp_step. wp_step. apply wp_kern. unfold on_task_lock, task_get. wp_step.
  eapply wp_deref; [apply lookup_insert_eq|]. apply wp_zoom. simpl.
  eapply wp_mono; [apply (spin_unlock_spec (cpu_of s)); exact Hheld|]. cbv beta. intros [] l2 Hfree2. wp_step. split; [done|].
  exists l2. split; [done|]. rewrite insert_insert_eq. done.
Qed.

(** ** A concrete machine: one CPU, three tasks, one running, one in the local
    and one in the global run queue *)

#[local] Instance sched_demo_layout : Layout := {| buddy_free_list := 0x100; zero_list := 0x200; swap_pages := 0x300; buddy_c := 0x400 |}.
#[local] Instance sched_demo_names : VmaNames := {|
  str_rmap := 1; str_user := 2; file_insert := 3; file_populate := 4; file_pfault := 5; file_rmap := 6 |}.
#[local] Instance sched_demo_ports : Ports := {|
  dev := unit; in_port _ d := (0, d); out_port _ _ d := d; open_bus := 0xFFFF |}.
#[local] Instance sched_demo_sched : SchedLayout := {|
  runq := 0x500; str_text := 7; str_data := 8; str_rodata := 9; str_stack := 10; str_runq_lock := 11;
  str_debug_lock := 12; file_sched := 13; file_task_util := 14; file_fork := 15 |}.

Definition demo_cpu : Z := 0x1000.
Definition t1 : Z := 0x10000.
Definition t2 : Z := 0x20000.
Definition t3 : Z := 0x30000.
Definition demo_task (pid status : Z) : task :=
  set_task_status status (set_task_pml4 (KERNEL_VMA + pid * PAGE_SIZE) (set_task_pid pid task0)).

Definition demo_heap : lheap := {[
  0x500 := Node (tnode t3) (tnode t3); tnode t3 := Node 0x500 0x500;
  demo_cpu + off_runq := Node (tnode t2) (tnode t2); tnode t2 := Node (demo_cpu + off_runq) (demo_cpu + off_runq);
  demo_cpu + off_nextq := Node (demo_cpu + off_nextq) (demo_cpu + off_nextq);
  tnode t1 := Node (tnode t1) (tnode t1);
  t1 + off_task_children := Node (t1 + off_task_children) (t1 + off_task_children) ]}.

Definition demo_lock : spinlock := SpinLock 0 0 0 0 0.
Definition demo_kernel : kernel :=
  Kernel (Mem demo_heap ∅ 0 0 demo_lock ∅ demo_cpu) (Rbs ∅ ∅) ∅
    {[ t1 := demo_task 1 TASK_RUNNING; t2 := demo_task 2 TASK_RUNNABLE; t3 := demo_task 3 TASK_RUNNABLE ]} ∅
    {[ demo_cpu := Cpu t1 0 0 0 1 ]} ∅ ∅ ∅ demo_lock 0 ∅ KERNEL_VMA 0.
Definition demo_sched : sched :=
  Sched _ demo_kernel (Console _ tt ∅ true CGA_BASE 0xB8000 0 0 [] 0 0 []) {[ 1 := t1; 2 := t2; 3 := t3 ]}
    3 0 1 demo_lock demo_lock 0 0.

Ltac demo_dlist := split; [apply (bool_decide_unpack _); by vm_compute|apply (bool_decide_unpack _); by vm_compute|
  by vm_compute; repeat split].
Ltac demo_out := apply (bool_decide_unpack _); by vm_compute.

Lemma demo_queues : queues demo_cpu demo_heap [t1] (three [t3] [t2] []).
Proof.
  split.
  - intros []; demo_dlist.
  - intros [] [] a Hne Ha; try done; unfold qaddrs in Ha;
      repeat (apply elem_of_cons in Ha as [->|Ha]; [demo_out|]); by apply not_elem_of_nil in Ha.
  - intros c ->%list_elem_of_singleton. split_and!; [demo_out|done|]. intros []; demo_out.
  - apply NoDup_singleton.
  - intros []; demo_out.
  - demo_out.
Qed.

Lemma demo_runnable t : t ∈ [t1; t3; t2] → runnable (ktasks demo_kernel) t.
Proof.
  intros Ht. repeat (apply elem_of_cons in Ht as [->|Ht]; [eexists; split; [by vm_compute|]; split_and!; [by auto|by vm_compute|by vm_compute]|]).
  by apply not_elem_of_nil in Ht.
Qed.

Lemma demo_inv : sched_inv demo_sched t1 [t3] [t2] [].
Proof.
  split; [exact demo_queues| | | |done|by vm_compute|done].
  - by exists (Cpu t1 0 0 0 1).
  - intros t Ht. by apply demo_runnable.
  - by vm_compute.
Qed.

Lemma demo_alone : alone demo_sched t1 [t3] [t2] [].
Proof. split_and!; [exact demo_inv|done..]. Qed.

Definition demo_event : int_env * int_frame :=
  (IntEnv 0 0 1000 1001 0 0, set_cs (Z.lor GDT_UCODE 3) (IntFrame 0 0 0 0 0 0 0 0 0 0 0 0 0 0 0 0 IRQ_TIMER 0 0 0 0 0 0)).

Lemma sched_yield_correct_witness :
  leaves (sched_yield 1) (λ s', sched_inv s' t2 [t3] [] [t1] ∧ switched_to demo_sched t1 [t3] [t2] [] t2 1 s') demo_sched.
Proof. apply (sched_yield_correct 0 demo_sched t1 [t3] [t2] []); [exact demo_inv|reflexivity]. Defined.

(** The third task, in the global queue, gets its turn within six interrupts. *)
Lemma timer_round_robin_witness :
  ∃ n s' c, (0 < n ≤ 6)%nat ∧ ticks 1 (take n (replicate 6 demo_event)) demo_sched = Some s' ∧
    alone_with s' t3 [t1; t3; t2] ∧ kcpus (sk s') !! cpu_of s' = Some c ∧ cpu_task c = t3.
Proof.
  apply (proj2 (timer_round_robin 0 demo_sched t1 [t3] [t2] [] (replicate 6 demo_event) demo_alone
    ltac:(by repeat constructor)) t3 0%nat); [demo_out|simpl; lia].
Defined.

Lemma migrate_tasks_runq_correct_witness :
  ∃ gs' rs', wp (migrate_tasks_runq 2) (λ _ k', ∃ h',
      k' = st demo_kernel h' (set_runq_len (Z.of_nat (length rs')) (Cpu t1 0 0 0 1)) ∧
      queues demo_cpu h' [t1] (three gs' rs' []) ∧
      frame (foot demo_cpu [t1] (three [t3] [t2] [])) demo_heap h') demo_kernel ∧
    gs' ++ rs' ≡ₚ [t3; t2] ∧ Z.of_nat (length rs') = 2 ∧
    (rs' = [t2] ++ take (length rs' - 1) [t3] ∨ [t2] = take (1 - length rs') [t2] ++ rs').
Proof.
  apply (migrate_tasks_runq_correct 2 demo_kernel [t1] [t3] [t2] (Cpu t1 0 0 0 1));
    [exact demo_queues|done|done|by vm_compute|by vm_compute].
Defined.

(** The second task is no child of the first. *)
Lemma sys_kill_permission_witness : sys_kill 0 2 demo_sched = OK (-1) demo_sched.
Proof.
  apply (sys_kill_permission 0 demo_sched 2 (Cpu t1 0 0 0 1) (demo_task 1 TASK_RUNNING) t2); [lia|done|done|done|].
  intros _. split; [done|]. by exists (demo_task 2 TASK_RUNNABLE).
Defined.

Lemma sys_waitpid_no_child_witness :
  wp (sys_waitpid 0 (-1)) (λ r s', r = - ECHILD ∧ ∃ l, is_free l ∧
    s' = set_sk (set_ktasks (<[t1 := set_task_lock l (demo_task 1 TASK_RUNNING)]> (ktasks demo_kernel)) demo_kernel) demo_sched)
    demo_sched.
Proof.
  apply (sys_waitpid_no_child 0 demo_sched (-1) (Cpu t1 0 0 0 1) (demo_task 1 TASK_RUNNING) []); [done|done|done| |by left].
  demo_dlist.
Defined.
