(* ===== verification/Devices.v ===== *)
(** * Devices and PCI (kernel/dev/pci.c, include/{pci,ata,ahci}.h, include/x86-64/asm.h)

    The state the drivers keep, access to device registers through ports and
    through memory, and the PCI configuration space.  What a device answers is
    not code: [Bus] extends the byte-wide ports of Console.v with wider
    accesses and with registers in memory.  A device behind such a register
    may also write physical memory, which is how a disk controller delivers
    what it was asked for. *)

From S2P Require Import Prelude LinkedList Paging Spinlock Buddy RbTree Kernel PageWalk AddrSpace PageTable Slab Vma Console Task.

Local Open Scope Z_scope.

(** Accesses of [w] bytes. *)
Class Bus `{Ports} := {
  in_wide : Z → Z → dev → Z * dev;
  out_wide : Z → Z → Z → dev → dev;
  mmio_in : Z → Z → dev → physmem → Z * dev * physmem;
  mmio_out : Z → Z → Z → dev → physmem → dev * physmem;
}.

(** ** State *)

(** [struct pci_dev]: [pd_data] is the union of [data] and [io_addr]; the two
    values of [ops]. *)
Inductive pci_ops := io_ops | mmio_ops.
Record pci_dev := PciDev { pd_data : Z; pd_ops : pci_ops }.

(** [struct ata_chan], with one field for each union. *)
Record ata_chan := AtaChan {
  ch_data : Z;
  ch_err : Z;
  sector_count : Z;
  lba_lo : Z;
  lba_mid : Z;
  lba_hi : Z;
  ch_drive : Z;
  ch_cmd : Z;  (** also [status] *)
  ch_ctrl : Z;  (** also [alt_status] *)
}.
Definition chan0 : ata_chan := AtaChan 0 0 0 0 0 0 0 0 0.

Inductive ata_state := ATA_IDLE | ATA_READ | ATA_WRITE.
#[global] Instance ata_state_eq_dec : EqDecision ata_state.
Proof. solve_decision. Defined.

(** [struct ata_disk]; [chan] is an index into [channels]. *)
Record ata_disk := AtaDisk {
  chan : nat;
  drive : Z;
  ata_st : ata_state;
  ata_nsectors : Z;
  ata_sect_size : Z;
}.

Inductive ahci_state := AHCI_IDLE | AHCI_READ | AHCI_WRITE.
#[global] Instance ahci_state_eq_dec : EqDecision ahci_state.
Proof. solve_decision. Defined.

(** [struct ahci_disk] *)
Record ahci_disk := AhciDisk {
  port : Z;
  ahci_st : ahci_state;
  ahci_nsectors : Z;
  ahci_sect_size : Z;
  slot : Z;
}.

(** An object with an embedded [struct disk], by the operations it has. *)
Inductive disk_obj :=
| ata_ops (d : ata_disk)
| ahci_ops (d : ahci_disk).

Definition MAX_DISKS : Z := 32.

(** The scheduler's state and the static variables of the drivers. *)
Record devices `{Ports} := Devices {
  ds : sched;
  pci_devs : gmap Z pci_dev;
  disk_objs : gmap Z disk_obj;
  disks : list Z;
  ndisks : Z;
  channels : list ata_chan;
  free_disk_addr : Z;
}.

Section setters.
Context `{Ports}.
Definition set_ds (x : sched) (s : devices) : devices :=
  Devices _ x (pci_devs s) (disk_objs s) (disks s) (ndisks s) (channels s) (free_disk_addr s).
Definition set_pci_devs (x : gmap Z pci_dev) (s : devices) : devices :=
  Devices _ (ds s) x (disk_objs s) (disks s) (ndisks s) (channels s) (free_disk_addr s).
Definition set_disk_objs (x : gmap Z disk_obj) (s : devices) : devices :=
  Devices _ (ds s) (pci_devs s) x (disks s) (ndisks s) (channels s) (free_disk_addr s).
Definition set_disks (x : list Z) (s : devices) : devices :=
  Devices _ (ds s) (pci_devs s) (disk_objs s) x (ndisks s) (channels s) (free_disk_addr s).
Definition set_ndisks (x : Z) (s : devices) : devices :=
  Devices _ (ds s) (pci_devs s) (disk_objs s) (disks s) x (channels s) (free_disk_addr s).
Definition set_channels (x : list ata_chan) (s : devices) : devices :=
  Devices _ (ds s) (pci_devs s) (disk_objs s) (disks s) (ndisks s) x (free_disk_addr s).
Definition set_free_disk_addr (x : Z) (s : devices) : devices :=
  Devices _ (ds s) (pci_devs s) (disk_objs s) (disks s) (ndisks s) (channels s) x.
End setters.

(** ** Little-endian memory *)

Fixpoint load_le (w : nat) (va : Z) : M kernel Z :=
  match w with
  | O => mret 0
  | S w => b ← load_byte va; r ← load_le w (va + 1); mret (b + 256 * r)
  end.
Fixpoint store_le (w : nat) (va v : Z) : M kernel unit :=
  match w with
  | O => mret tt
  | S w => store_byte va (u8 v);; store_le w (va + 1) (v `div` 256)
  end.

(** Storing [v] in the [n] bits from bit [lo] on of a [w]-byte unit. *)
Definition store_bits (w : nat) (va lo n v : Z) : M kernel unit :=
  x ← load_le w va;
  store_le w va (x + (v `mod` 2 ^ n - Z.shiftr x lo `mod` 2 ^ n) * 2 ^ lo).

Section access.
Context `{Layout} `{VmaNames} `{Bus} `{SchedLayout}.

Definition on_sched {A} (c : M sched A) : M devices A := zoom ds set_ds c.
Definition dkern {A} (c : M kernel A) : M devices A := on_sched (kern c).
Definition dmem {A} (c : M mem A) : M devices A := dkern (on_km c).
Definition dcons {A} (c : M console A) : M devices A := on_sched (zoom scons set_scons c).

(** ** Ports *)

Definition in8 (p : Z) : M devices Z := dcons (inb p).
Definition out8 (p v : Z) : M devices unit := dcons (outb p v).
Definition in_w (w p : Z) : M devices Z := dcons (λ c,
  let '(v, d) := in_wide w p (device c) in OK (v `mod` 2 ^ (8 * w)) (set_device d c)).
Definition out_w (w p v : Z) : M devices unit :=
  dcons (modify (λ c, set_device (out_wide w p (v `mod` 2 ^ (8 * w)) (device c)) c)).
Definition inw (p : Z) : M devices Z := in_w 2 p.
Definition inl (p : Z) : M devices Z := in_w 4 p.
Definition outw (p v : Z) : M devices unit := out_w 2 p v.
Definition outl (p v : Z) : M devices unit := out_w 4 p v.

(** [rep insl] and [rep outsl] with the direction flag clear. *)
Fixpoint insl (p addr : Z) (n : nat) : M devices unit :=
  match n with
  | O => mret tt
  | S n => v ← inl p; dkern (store_le 4 addr v);; insl p (addr + 4) n
  end.
Fixpoint outsl (p addr : Z) (n : nat) : M devices unit :=
  match n with
  | O => mret tt
  | S n => v ← dkern (load_le 4 addr); outl p v;; outsl p (addr + 4) n
  end.

(** ** Registers in memory *)

Definition set_mem (ph : physmem) (s : sched) : sched :=
  set_sk (set_km (set_phys ph (km (sk s))) (sk s)) s.
Definition mmio_load (w a : Z) : M devices Z := on_sched (λ s,
  let '(v, d, ph) := mmio_in w a (device (scons s)) (phys (km (sk s))) in
  OK (v `mod` 2 ^ (8 * w)) (set_mem ph (set_scons (set_device d (scons s)) s))).
Definition mmio_store (w a v : Z) : M devices unit := on_sched (modify (λ s,
  let '(d, ph) := mmio_out w a (v `mod` 2 ^ (8 * w)) (device (scons s)) (phys (km (sk s))) in
  set_mem ph (set_scons (set_device d (scons s)) s))).

(** ** The PCI configuration space *)

Definition PCI_CONF_ADDR : Z := 0xcf8.
Definition PCI_CONF_DATA : Z := 0xcfc.
Definition PCI_ANY_ID : Z := 0xffff.

(** Offsets in [struct pci_regs]. *)
Definition off_vendor_id : Z := 0.
Definition off_device_id : Z := 2.
Definition off_subclass : Z := 10.
Definition off_class : Z := 11.
Definition off_bar : Z := 16.

Definition io_addr (d : pci_dev) : Z := u32 (pd_data d).
(** [offset &= ~0x1] and [offset &= ~0x3]. *)
Definition align_down (n offset : Z) : Z := Z.land offset (Z.lnot (n - 1)).

Definition pci_io_read8 (d : pci_dev) (offset : Z) : M devices Z :=
  outl PCI_CONF_ADDR (io_addr d + offset);; in8 PCI_CONF_DATA.
Definition pci_io_read16 (d : pci_dev) (offset : Z) : M devices Z :=
  let offset := align_down 2 offset in
  outl PCI_CONF_ADDR (io_addr d + offset);; inw PCI_CONF_DATA.
Definition pci_io_read32 (d : pci_dev) (offset : Z) : M devices Z :=
  let offset := align_down 4 offset in
  outl PCI_CONF_ADDR (io_addr d + offset);; inl PCI_CONF_DATA.
Definition pci_io_write8 (d : pci_dev) (offset v : Z) : M devices unit :=
  outl PCI_CONF_ADDR (io_addr d + offset);; out8 PCI_CONF_DATA v.
Definition pci_io_write16 (d : pci_dev) (offset v : Z) : M devices unit :=
  let offset := align_down 2 offset in
  outl PCI_CONF_ADDR (io_addr d + offset);; outw PCI_CONF_DATA v.
Definition pci_io_write32 (d : pci_dev) (offset v : Z) : M devices unit :=
  let offset := align_down 4 offset in
  outl PCI_CONF_ADDR (io_addr d + offset);; outl PCI_CONF_DATA v.

Definition pci_mmio_read8 (d : pci_dev) (offset : Z) : M devices Z := mmio_load 1 (pd_data d + offset).
Definition pci_mmio_read16 (d : pci_dev) (offset : Z) : M devices Z :=
  mmio_load 2 (pd_data d + align_down 2 offset).
Definition pci_mmio_read32 (d : pci_dev) (offset : Z) : M devices Z :=
  mmio_load 4 (pd_data d + align_down 4 offset).
Definition pci_mmio_write8 (d : pci_dev) (offset v : Z) : M devices unit := mmio_store 1 (pd_data d + offset) v.
Definition pci_mmio_write16 (d : pci_dev) (offset v : Z) : M devices unit :=
  mmio_store 2 (pd_data d + align_down 2 offset) v.
Definition pci_mmio_write32 (d : pci_dev) (offset v : Z) : M devices unit :=
  mmio_store 4 (pd_data d + align_down 4 offset) v.

Definition pci_get (p : Z) : M devices pci_dev := deref (λ s, pci_devs s !! p).

Definition pci_read8 (p offset : Z) : M devices Z :=
  d ← pci_get p;
  match pd_ops d with io_ops => pci_io_read8 d offset | mmio_ops => pci_mmio_read8 d offset end.
Definition pci_read16 (p offset : Z) : M devices Z :=
  d ← pci_get p;
  match pd_ops d with io_ops => pci_io_read16 d offset | mmio_ops => pci_mmio_read16 d offset end.
Definition pci_read32 (p offset : Z) : M devices Z :=
  d ← pci_get p;
  match pd_ops d with io_ops => pci_io_read32 d offset | mmio_ops => pci_mmio_read32 d offset end.
Definition pci_write8 (p offset v : Z) : M devices unit :=
  d ← pci_get p;
  match pd_ops d with io_ops => pci_io_write8 d offset v | mmio_ops => pci_mmio_write8 d offset v end.
Definition pci_write16 (p offset v : Z) : M devices unit :=
  d ← pci_get p;
  match pd_ops d with io_ops => pci_io_write16 d offset v | mmio_ops => pci_mmio_write16 d offset v end.
Definition pci_write32 (p offset v : Z) : M devices unit :=
  d ← pci_get p;
  match pd_ops d with io_ops => pci_io_write32 d offset v | mmio_ops => pci_mmio_write32 d offset v end.

(** [*base] and, when [size] is not NULL, [*size]. *)
Definition pci_read_bar (want_size : bool) (p index : Z) : M devices (Z * option Z) :=
  let offset := off_bar + index * 4 in
  bar ← pci_read32 p offset;
  if want_size then
    pci_write32 p offset 0xffffffff;;
    r ← pci_read32 p offset;
    pci_write32 p offset bar;;
    mret (bar, Some (u32 (Z.lor (u32 (Z.lnot r)) 0xf + 1)))
  else mret (bar, None).

(** The bit fields of [pci_addr_mmio_t] and [pci_addr_io_t]. *)
Definition set_field (lo n v x : Z) : Z := x + (v `mod` 2 ^ n - Z.shiftr x lo `mod` 2 ^ n) * 2 ^ lo.
Definition pci_addr_mmio (base_addr bus slot func : Z) : Z :=
  set_field 20 8 bus (set_field 15 5 slot (set_field 12 3 func base_addr)).
(** [addr] is what the uninitialised variable holds. *)
Definition pci_addr_io (addr bus slot func : Z) : Z :=
  set_field 31 1 1 (set_field 16 8 bus (set_field 11 5 slot (set_field 8 3 func addr))).

Definition sizeof_pci_dev : Z := 16.

Definition new_pci_dev (p : Z) (d : pci_dev) : M devices unit :=
  modify (λ s, set_pci_devs (<[p := d]> (pci_devs s)) s).

Definition alloc_mmio_dev (base_addr bus slot func : Z) : M devices Z :=
  let addr := pci_addr_mmio base_addr bus slot func in
  dev ← dkern (kmalloc sizeof_pci_dev);
  if dev =? NULL then mret NULL
  else
    data ← dkern (mmio_map_region addr PAGE_SIZE);
    if data =? NULL then dkern (kfree dev);; mret NULL
    else new_pci_dev dev (PciDev data mmio_ops);; mret dev.

Definition alloc_io_dev (addr bus slot func : Z) : M devices Z :=
  let addr := pci_addr_io addr bus slot func in
  dev ← dkern (kmalloc sizeof_pci_dev);
  if dev =? NULL then mret NULL
  else new_pci_dev dev (PciDev addr io_ops);; mret dev.
End access.
