(* ===== verification/Ata.v ===== *)
(** * ATA disks (kernel/dev/ata.c)

    The driver for disks behind the two legacy channels.  A transfer takes two
    calls: the first one issues the command and asks to be called again, a
    later one moves the data.  [fuel] bounds how often a loop polls the device
    before the model gives up. *)

From S2P Require Import Prelude LinkedList Paging Spinlock Buddy RbTree Kernel PageWalk AddrSpace PageTable Slab Vma Console Task Devices.

Local Open Scope Z_scope.

Definition EAGAIN : Z := 1.

Definition ATA_STAT_ERR : Z := Z.shiftl 1 0.
Definition ATA_STAT_DRQ : Z := Z.shiftl 1 3.
Definition ATA_STAT_DF : Z := Z.shiftl 1 5.
Definition ATA_STAT_READY : Z := Z.shiftl 1 6.
Definition ATA_STAT_BUSY : Z := Z.shiftl 1 7.
Definition ATA_CMD_READ : Z := 0x20.
Definition ATA_CMD_READ_DMA_EX : Z := 0x25.
Definition ATA_CMD_WRITE : Z := 0x30.
Definition ATA_CMD_WRITE_DMA_EX : Z := 0x35.
Definition ATA_CMD_IDENT_PCKT : Z := 0xa1.
Definition ATA_CMD_FLUSH : Z := 0xe7.
Definition ATA_CMD_IDENT : Z := 0xec.

(** [(status & (ATA_STAT_BUSY | ATA_STAT_READY)) == ATA_STAT_READY] *)
Definition ata_ready (status : Z) : bool :=
  Z.land status (Z.lor ATA_STAT_BUSY ATA_STAT_READY) =? ATA_STAT_READY.

Definition set_ata_st (x : ata_state) (d : ata_disk) : ata_disk :=
  AtaDisk (chan d) (drive d) x (ata_nsectors d) (ata_sect_size d).

(** [struct disk_stat] *)
Record disk_stat := DiskStat { nsectors : Z; sect_size : Z }.

Section ata.
Context `{Layout} `{VmaNames} `{Bus} `{SchedLayout}.

(** [container_of(disk, struct ata_disk, disk)]: [disk] is the first member. *)
Definition ata_get (p : Z) : M devices ata_disk := deref (λ s,
  match disk_objs s !! p with Some (ata_ops d) => Some d | _ => None end).
Definition ata_set_st (p : Z) (st : ata_state) : M devices unit :=
  d ← ata_get p; modify (λ s, set_disk_objs (<[p := ata_ops (set_ata_st st d)]> (disk_objs s)) s).
Definition chan_get (i : nat) : M devices ata_chan := deref (λ s, channels s !! i).

Definition ata_wait_400ns (c : ata_chan) : M devices unit :=
  in8 (ch_ctrl c);; in8 (ch_ctrl c);; in8 (ch_ctrl c);; in8 (ch_ctrl c);; mret tt.

Definition ata_reset (c : ata_chan) : M devices unit :=
  out8 (ch_ctrl c) 4;;
  ata_wait_400ns c;;
  out8 (ch_ctrl c) 0.

Definition ATA_PRIMARY : nat := 0.
Definition ATA_SECONDARY : nat := 1.

Definition ata_disable_irq : M devices unit :=
  c ← chan_get ATA_PRIMARY; out8 (ch_ctrl c) (Z.shiftl 1 1);;
  c ← chan_get ATA_SECONDARY; out8 (ch_ctrl c) (Z.shiftl 1 1).

Definition ata_poll (disk : Z) : M devices bool :=
  d ← ata_get disk;
  c ← chan_get (chan d);
  status ← in8 (ch_cmd c);
  mret (ata_ready status).

(** The result and [*stat]; [stat] is the address the caller passes. *)
Definition ata_stat (disk stat : Z) : M devices (Z * option disk_stat) :=
  d ← ata_get disk;
  if stat =? NULL then mret (-1, None)
  else mret (0, Some (DiskStat (ata_nsectors d) (ata_sect_size d))).

Fixpoint ata_wait_ready (fuel : nat) (c : ata_chan) (check_err : bool) : M devices Z :=
  match fuel with
  | O => halt NoFuel
  | S fuel =>
      status ← in8 (ch_cmd c);
      if negb (ata_ready status) then ata_wait_ready fuel c check_err
      else if check_err && has status (Z.lor ATA_STAT_DF ATA_STAT_ERR) then mret (-1)
      else mret 0
  end.

Definition select_drive (c : ata_chan) (d : ata_disk) : M devices unit :=
  out8 (ch_drive c) (Z.lor 0xa0 (Z.shiftl (drive d) 4)).

(** The registers of a request, as both functions write them. *)
Definition ata_request (c : ata_chan) (d : ata_disk) (count addr cmd : Z) : M devices unit :=
  out8 (sector_count c) count;;
  out8 (lba_lo c) (Z.land addr 0xff);;
  out8 (lba_mid c) (Z.land (Z.shiftr addr 8) 0xff);;
  out8 (lba_hi c) (Z.land (Z.shiftr addr 16) 0xff);;
  out8 (ch_drive c) (Z.lor (Z.lor 0xe0 (Z.shiftl (drive d) 4)) (Z.land (Z.shiftr addr 24) 0xf));;
  out8 (ch_cmd c) cmd.

Definition ata_read (fuel : nat) (disk buf count addr : Z) : M devices Z :=
  d ← ata_get disk;
  c ← chan_get (chan d);
  select_drive c d;;
  if decide (ata_st d = ATA_IDLE) then
    ata_wait_ready fuel c false;;
    ata_request c d count addr ATA_CMD_READ;;
    ata_set_st disk ATA_READ;;
    mret (- EAGAIN)
  else if negb (bool_decide (ata_st d = ATA_READ)) then mret (- EAGAIN)
  else
    ok ← ata_poll disk;
    if negb ok then mret (- EAGAIN)
    else
      insl (ch_data c) buf (Z.to_nat (ata_sect_size d / 4));;
      ata_set_st disk ATA_IDLE;;
      mret (s64 (count * ata_sect_size d)).

Definition ata_write (fuel : nat) (disk buf count addr : Z) : M devices Z :=
  d ← ata_get disk;
  c ← chan_get (chan d);
  select_drive c d;;
  if decide (ata_st d = ATA_IDLE) then
    ata_wait_ready fuel c false;;
    ata_request c d count addr ATA_CMD_WRITE;;
    ata_set_st disk ATA_WRITE;;
    mret (- EAGAIN)
  else if negb (bool_decide (ata_st d = ATA_WRITE)) then mret (- EAGAIN)
  else
    ok ← ata_poll disk;
    if negb ok then mret (- EAGAIN)
    else
      select_drive c d;;
      ata_wait_ready fuel c false;;
      outsl (ch_data c) buf (Z.to_nat (u64 (count * ata_sect_size d) / 4));;
      ata_set_st disk ATA_IDLE;;
      ata_wait_ready fuel c false;;
      out8 (ch_cmd c) ATA_CMD_FLUSH;;
      ata_wait_ready fuel c false;;
      mret (s64 (count * ata_sect_size d)).

(** ** Finding disks *)

(** [while (!drq && !err)]: the error bit it stops with. *)
Fixpoint poll_ident (fuel : nat) (c : ata_chan) : M devices bool :=
  match fuel with
  | O => halt NoFuel
  | S fuel =>
      drq ← in8 (ch_cmd c);
      err ← in8 (ch_cmd c);
      if negb (has drq ATA_STAT_DRQ) && negb (has err ATA_STAT_ERR) then poll_ident fuel c
      else mret (has err ATA_STAT_ERR)
  end.

(** [insl] into the array [buf] of [ata_enum_device]. *)
Fixpoint read_words (p : Z) (n : nat) : M devices (list Z) :=
  match n with
  | O => mret []
  | S n => v ← inl p; vs ← read_words p n; mret (v :: vs)
  end.

(** [ident->max_lba] is word 30 of the buffer. *)
Definition max_lba (buf : list Z) : Z := buf !!! 30%nat.

Definition sizeof_ata_disk : Z := 48.

(** [disks[ndisks++] = disk] *)
Definition add_disk (p : Z) : M devices unit :=
  n ← gets ndisks;
  modify (λ s, set_disks (<[Z.to_nat n := p]> (disks s)) s);;
  modify (set_ndisks (n + 1)).

(** The device type and the name of the model, whose bytes are swapped in
    [buf], are never read. *)
Definition ata_enum_device (fuel : nat) (ci : nat) (drv : Z) : M devices unit :=
  c ← chan_get ci;
  ata_reset c;;
  ata_wait_400ns c;;
  out8 (ch_drive c) (Z.lor 0xa0 (Z.shiftl drv 4));;
  out8 (sector_count c) 0;;
  out8 (lba_lo c) 0;;
  out8 (lba_mid c) 0;;
  out8 (lba_hi c) 0;;
  out8 (ch_cmd c) ATA_CMD_IDENT;;
  status ← in8 (ch_cmd c);
  if status =? 0 then mret tt
  else
    lo ← in8 (lba_lo c);
    hi ← in8 (lba_hi c);
    let lba := u16 (Z.lor lo (Z.shiftl hi 8)) in
    err ← poll_ident fuel c;
    let atapi := (lba =? 0xeb14) || (lba =? 0x9669) in
    if err && negb atapi then mret tt
    else
      (if (err : bool) then out8 (ch_cmd c) ATA_CMD_IDENT_PCKT;; ata_wait_400ns c else mret tt);;
      buf ← read_words (ch_data c) 128;
      n ← gets ndisks;
      if MAX_DISKS <=? n then mret tt
      else
        p ← dkern (kmalloc sizeof_ata_disk);
        if p =? NULL then mret tt
        else
          modify (λ s, set_disk_objs (<[p := ata_ops (AtaDisk ci drv ATA_IDLE (max_lba buf) 512)]> (disk_objs s)) s);;
          add_disk p.

Definition ata_enum_devices (fuel : nat) : M devices unit :=
  ata_enum_device fuel 0 0;;
  ata_enum_device fuel 0 1;;
  ata_enum_device fuel 1 0;;
  ata_enum_device fuel 1 1.

Definition ata_setup_chan (i : nat) (base ctrl : Z) : M devices unit :=
  let base := u16 base in
  modify (λ s, set_channels (<[i := AtaChan base (u16 (base + 1)) (u16 (base + 2)) (u16 (base + 3)) (u16 (base + 4))
    (u16 (base + 5)) (u16 (base + 6)) (u16 (base + 7)) (u16 ctrl)]> (channels s)) s).

(** [(bar & 0xfffffffc) + legacy * !bar] *)
Definition io_base (bar legacy : Z) : Z :=
  u32 (Z.land bar 0xfffffffc + legacy * (if bar =? 0 then 1 else 0)).

Definition ata_probe (fuel : nat) (pdev : Z) : M devices Z :=
  '(bar, _) ← pci_read_bar false pdev 0;
  let base := io_base bar 0x1f0 in
  '(bar, _) ← pci_read_bar false pdev 1;
  let ctrl := io_base bar 0x3f6 in
  ata_setup_chan ATA_PRIMARY base ctrl;;
  '(bar, _) ← pci_read_bar false pdev 2;
  let base := io_base bar 0x170 in
  '(bar, _) ← pci_read_bar false pdev 3;
  let ctrl := io_base bar 0x376 in
  ata_setup_chan ATA_SECONDARY base ctrl;;
  ata_disable_irq;;
  ata_enum_devices fuel;;
  mret 0.
End ata.
