(* ===== verification/Ahci.v ===== *)
(** * AHCI disks (kernel/dev/ahci.c, include/ahci.h) and the disk layer (kernel/dev/disk.c)

    The driver keeps its command list and command tables in memory, where the
    controller reads them; the registers of the controller are reached with
    [mmio_load] and [mmio_store].  The file also has what dispatches to the two
    drivers: the operations of [struct disk], the table of PCI drivers and the
    enumeration of the bus. *)

From S2P Require Import Prelude LinkedList Paging Spinlock Buddy RbTree Kernel PageWalk AddrSpace PageTable Slab Vma Console Task Devices Ata.

Local Open Scope Z_scope.

(** Offsets in [struct hba_mem], [struct hba_port], [struct hba_cmd_hdr],
    [struct hba_cmd_tbl], [struct hba_prdt] and [struct fis_reg_h2d]. *)
Definition off_cap : Z := 0x00.
Definition off_pts_impl : Z := 0x0c.
Definition off_ports : Z := 0x100.
Definition sizeof_hba_port : Z := 0x80.
Definition off_cmd_base : Z := 0x00.
Definition off_fis_base : Z := 0x08.
Definition off_int_stat : Z := 0x10.
Definition off_cmd : Z := 0x18.
Definition off_task_file_data : Z := 0x20.
Definition off_sig : Z := 0x24.
Definition off_sata_stat : Z := 0x28.
Definition off_sata_act : Z := 0x34.
Definition off_cmd_issue : Z := 0x38.
Definition sizeof_hba_cmd_hdr : Z := 32.
Definition off_prdt_len : Z := 2.
Definition off_hdr_cmd_base : Z := 8.
Definition sizeof_hba_cmd_tbl : Z := 144.
Definition off_prdts : Z := 128.
Definition sizeof_hba_prdt : Z := 16.
Definition sizeof_fis_reg_h2d : Z := 20.

Definition HBA_PxCMD_ST : Z := Z.shiftl 1 0.
Definition HBA_PxCMD_FRE : Z := Z.shiftl 1 4.
Definition HBA_PxCMD_FR : Z := Z.shiftl 1 14.
Definition HBA_PxCMD_CR : Z := Z.shiftl 1 15.
Definition HBA_PxIS_TFES : Z := Z.shiftl 1 30.
Definition HBA_PORT_IPM_ACTIVE : Z := 1.
Definition HBA_PORT_DET_PRESENT : Z := 3.
Definition SATA_SIG_ATAPI : Z := 0xeb140101.
Definition SATA_SIG_SEMB : Z := 0xc33c0101.
Definition SATA_SIG_PM : Z := 0x96690101.
Definition FIS_TYPE_REG_H2D : Z := 0x27.

Inductive ahci_type := AHCI_DEV_NULL | AHCI_DEV_SATA | AHCI_DEV_SEMB | AHCI_DEV_PM | AHCI_DEV_SATAPI.

Definition set_ahci_st (x : ahci_state) (d : ahci_disk) : ahci_disk :=
  AhciDisk (port d) x (ahci_nsectors d) (ahci_sect_size d) (slot d).
Definition set_ahci_nsectors (x : Z) (d : ahci_disk) : ahci_disk :=
  AhciDisk (port d) (ahci_st d) x (ahci_sect_size d) (slot d).
Definition set_slot (x : Z) (d : ahci_disk) : ahci_disk :=
  AhciDisk (port d) (ahci_st d) (ahci_nsectors d) (ahci_sect_size d) x.

(** The loop of [find_cmdslot] from round [i] on. *)
Fixpoint first_clear (n : nat) (i slots : Z) : Z :=
  match n with
  | O => -1
  | S n => if negb (has slots 1) then i else first_clear n (i + 1) (Z.shiftr slots 1)
  end.

(** [1 << slot]: the processor shifts a 32-bit operand by the count modulo 32. *)
Definition bit_of (slot : Z) : Z := Z.shiftl 1 (slot `mod` 32).

Section ahci.
Context `{Layout} `{VmaNames} `{Bus} `{SchedLayout}.

(** [port->reg & mask] is waited to become zero. *)
Fixpoint wait_clear (fuel : nat) (reg mask : Z) : M devices unit :=
  match fuel with
  | O => halt NoFuel
  | S fuel => v ← mmio_load 4 reg; if has v mask then wait_clear fuel reg mask else mret tt
  end.

Definition start_cmd (fuel : nat) (port : Z) : M devices unit :=
  wait_clear fuel (port + off_cmd) HBA_PxCMD_CR;;
  v ← mmio_load 4 (port + off_cmd); mmio_store 4 (port + off_cmd) (Z.lor v HBA_PxCMD_ST);;
  v ← mmio_load 4 (port + off_cmd); mmio_store 4 (port + off_cmd) (Z.lor v HBA_PxCMD_FRE).

Definition stop_cmd (fuel : nat) (port : Z) : M devices unit :=
  v ← mmio_load 4 (port + off_cmd); mmio_store 4 (port + off_cmd) (Z.land v (Z.lnot HBA_PxCMD_ST));;
  v ← mmio_load 4 (port + off_cmd); mmio_store 4 (port + off_cmd) (Z.land v (Z.lnot HBA_PxCMD_FRE));;
  wait_clear fuel (port + off_cmd) (Z.lor HBA_PxCMD_FR HBA_PxCMD_CR).

(** The loop of [port_rebase], which leaves [hdr] where it is. *)
Fixpoint rebase_hdrs (n : nat) (hdr p : Z) : M devices unit :=
  match n with
  | O => mret tt
  | S n =>
      dkern (store_le 2 (hdr + off_prdt_len) 8);;
      pa ← dmem (PADDR p);
      dkern (store_le 8 (hdr + off_hdr_cmd_base) pa);;
      rebase_hdrs n hdr (p + 256)
  end.

Definition port_rebase (fuel : nat) (port : Z) : M devices unit :=
  page ← dmem (page_alloc (Z.lor ALLOC_HUGE ALLOC_ZERO));
  p ← dmem (page2kva page);
  mmio_store 4 (port + off_int_stat) 0;;
  stop_cmd fuel port;;
  pa ← dmem (PADDR p);
  mmio_store 8 (port + off_cmd_base) pa;;
  let p := p + 1024 in
  pa ← dmem (PADDR p);
  mmio_store 8 (port + off_fis_base) pa;;
  let p := p + 256 in
  base ← mmio_load 8 (port + off_cmd_base);
  hdr ← dmem (KADDR base);
  rebase_hdrs 32 hdr p;;
  start_cmd fuel port.

Definition find_cmdslot (port : Z) : M devices Z :=
  act ← mmio_load 4 (port + off_sata_act);
  issue ← mmio_load 4 (port + off_cmd_issue);
  mret (first_clear 32 0 (Z.lor act issue)).

Definition ahci_get (p : Z) : M devices ahci_disk := deref (λ s,
  match disk_objs s !! p with Some (ahci_ops d) => Some d | _ => None end).
Definition ahci_upd (p : Z) (f : ahci_disk → ahci_disk) : M devices unit :=
  d ← ahci_get p; modify (λ s, set_disk_objs (<[p := ahci_ops (f d)]> (disk_objs s)) s).

(** [||] does not read [int_stat] when the command is done. *)
Definition ahci_poll (disk : Z) : M devices bool :=
  d ← ahci_get disk;
  issue ← mmio_load 4 (port d + off_cmd_issue);
  if negb (has issue (bit_of (slot d))) then mret true
  else st ← mmio_load 4 (port d + off_int_stat); mret (has st HBA_PxIS_TFES).

(** ** Commands *)

(** Writing the header of slot [i]: the header and its table. *)
Definition setup_header (port i write prdt_len : Z) : M devices (Z * Z) :=
  base ← mmio_load 8 (port + off_cmd_base);
  hdr ← dmem (KADDR base);
  let hdr := hdr + i * sizeof_hba_cmd_hdr in
  dkern (store_bits 1 hdr 0 5 (sizeof_fis_reg_h2d / 4));;
  dkern (store_bits 1 hdr 6 1 write);;
  dkern (store_bits 1 hdr 7 1 1);;
  dkern (store_bits 1 (hdr + 1) 2 1 1);;
  dkern (store_le 2 (hdr + off_prdt_len) prdt_len);;
  tb ← dkern (load_le 8 (hdr + off_hdr_cmd_base));
  tbl ← dmem (KADDR tb);
  dkern (fill_bytes (Z.to_nat sizeof_hba_cmd_tbl) tbl 0);;
  mret (hdr, tbl).

Definition setup_prdt (prdt data size : Z) : M devices unit :=
  pa ← dmem (PADDR data);
  dkern (store_le 8 prdt pa);;
  dkern (store_bits 4 (prdt + 12) 0 22 size);;
  dkern (store_bits 4 (prdt + 12) 31 1 0).

(** [cmd_fis] is at the start of the table. *)
Definition setup_fis (tbl cmd : Z) : M devices unit :=
  dkern (store_byte tbl FIS_TYPE_REG_H2D);;
  dkern (store_bits 1 (tbl + 1) 7 1 1);;
  dkern (store_byte (tbl + 2) cmd).

Fixpoint ident_wait (fuel : nat) (disk : Z) : M devices unit :=
  match fuel with
  | O => halt NoFuel
  | S fuel => ok ← ahci_poll disk; if negb ok then ident_wait fuel disk else mret tt
  end.

Definition ahci_ident (fuel : nat) (disk ident : Z) : M devices Z :=
  d ← ahci_get disk;
  let port := port d in
  i ← find_cmdslot port;
  if i <? 0 then mret (- ENOMEM)
  else
    '(_, tbl) ← setup_header port i 0 1;
    setup_prdt (tbl + off_prdts) ident (512 - 1);;
    setup_fis tbl ATA_CMD_IDENT;;
    wait_clear fuel (port + off_task_file_data) (Z.lor ATA_STAT_BUSY ATA_STAT_DRQ);;
    mmio_store 4 (port + off_cmd_issue) (bit_of i);;
    ident_wait fuel disk;;
    st ← mmio_load 4 (port + off_int_stat);
    if has st HBA_PxIS_TFES then mret (-1) else mret 0.

Definition ahci_stat (disk stat : Z) : M devices (Z * option disk_stat) :=
  d ← ahci_get disk;
  if stat =? NULL then mret (-1, None)
  else mret (0, Some (DiskStat (ahci_nsectors d) (ahci_sect_size d))).

(** The loop that fills all regions but the last, 16 sectors each: the next
    [prdt], [data] and [left]. *)
Fixpoint setup_prdts (fuel : nat) (hdr i prdt data left : Z) : M devices (Z * Z * Z) :=
  match fuel with
  | O => halt NoFuel
  | S fuel =>
      len ← dkern (load_le 2 (hdr + off_prdt_len));
      if i <? u64 (len - 1) then
        setup_prdt prdt data (8 * 1024 - 1);;
        setup_prdts fuel hdr (i + 1) (prdt + sizeof_hba_prdt) (data + 4 * (2 * 1024)) (u64 (left - 16))
      else mret (prdt, data, left)
  end.

(** The first half of [ahci_read] and [ahci_write], which differ in the
    direction, the command and the state they leave. *)
Definition ahci_issue (fuel : nat) (disk buf count addr write cmd : Z) (st : ahci_state) : M devices Z :=
  d ← ahci_get disk;
  let port := port d in
  i ← find_cmdslot port;
  ahci_upd disk (set_slot i);;
  if i <? 0 then mret (- ENOMEM)
  else if count =? 0 then mret 0
  else
    '(hdr, tbl) ← setup_header port i write ((count - 1) / 16 + 1);
    '(prdt, data, left) ← setup_prdts fuel hdr 0 (tbl + off_prdts) buf count;
    setup_prdt prdt data (u64 (left / ahci_sect_size d - 1));;
    setup_fis tbl cmd;;
    dkern (store_byte (tbl + 4) (Z.land addr 0xff));;
    dkern (store_byte (tbl + 5) (Z.land (Z.shiftr addr 8) 0xff));;
    dkern (store_byte (tbl + 6) (Z.land (Z.shiftr addr 16) 0xff));;
    dkern (store_byte (tbl + 7) (Z.shiftl 1 6));;
    dkern (store_byte (tbl + 8) (Z.land (Z.shiftr addr 24) 0xff));;
    dkern (store_byte (tbl + 9) (Z.land (Z.shiftr addr 32) 0xff));;
    dkern (store_byte (tbl + 10) (Z.land (Z.shiftr addr 40) 0xff));;
    dkern (store_le 2 (tbl + 12) count);;
    wait_clear fuel (port + off_task_file_data) (Z.lor ATA_STAT_BUSY ATA_STAT_DRQ);;
    mmio_store 4 (port + off_cmd_issue) (bit_of i);;
    ahci_upd disk (set_ahci_st st);;
    mret (- EAGAIN).

(** The second half: the state becomes idle whether the transfer failed or not. *)
Definition ahci_finish (disk count : Z) : M devices Z :=
  ok ← ahci_poll disk;
  if negb ok then mret (- EAGAIN)
  else
    ahci_upd disk (set_ahci_st AHCI_IDLE);;
    d ← ahci_get disk;
    st ← mmio_load 4 (port d + off_int_stat);
    if has st HBA_PxIS_TFES then mret 0 else mret (s64 (count * ahci_sect_size d)).

Definition ahci_read (fuel : nat) (disk buf count addr : Z) : M devices Z :=
  d ← ahci_get disk;
  if decide (ahci_st d = AHCI_IDLE) then ahci_issue fuel disk buf count addr 0 ATA_CMD_READ_DMA_EX AHCI_READ
  else if negb (bool_decide (ahci_st d = AHCI_READ)) then mret (- EAGAIN)
  else ahci_finish disk count.

Definition ahci_write (fuel : nat) (disk buf count addr : Z) : M devices Z :=
  d ← ahci_get disk;
  if decide (ahci_st d = AHCI_IDLE) then ahci_issue fuel disk buf count addr 1 ATA_CMD_WRITE_DMA_EX AHCI_WRITE
  else if negb (bool_decide (ahci_st d = AHCI_WRITE)) then mret (- EAGAIN)
  else ahci_finish disk count.

(** ** Finding disks *)

Definition check_type (port : Z) : M devices ahci_type :=
  ssts ← mmio_load 4 (port + off_sata_stat);
  let ipm := Z.land (Z.shiftr ssts 8) 0x0F in
  let det := Z.land ssts 0x0F in
  if negb (det =? HBA_PORT_DET_PRESENT) then mret AHCI_DEV_NULL
  else if negb (ipm =? HBA_PORT_IPM_ACTIVE) then mret AHCI_DEV_NULL
  else
    sig ← mmio_load 4 (port + off_sig);
    mret (if sig =? SATA_SIG_ATAPI then AHCI_DEV_SATAPI
          else if sig =? SATA_SIG_SEMB then AHCI_DEV_SEMB
          else if sig =? SATA_SIG_PM then AHCI_DEV_PM
          else AHCI_DEV_SATA).

Definition sizeof_ahci_disk : Z := 48.
Definition off_max_lba : Z := 120.

Definition ahci_enum_device (fuel : nat) (abar port drv : Z) : M devices unit :=
  impl ← mmio_load 4 (abar + off_pts_impl);
  if negb (has impl (bit_of drv)) then mret tt
  else
    dev_type ← check_type port;
    match dev_type with
    | AHCI_DEV_NULL => mret tt
    | _ =>
        port_rebase fuel port;;
        n ← gets ndisks;
        if MAX_DISKS <=? n then mret tt
        else
          p ← dkern (kmalloc sizeof_ahci_disk);
          if p =? NULL then mret tt
          else
            modify (λ s, set_disk_objs (<[p := ahci_ops (AhciDisk port AHCI_IDLE 0 512 (-1))]> (disk_objs s)) s);;
            page ← dmem (page_alloc ALLOC_ZERO);
            ident ← dmem (page2kva page);
            ahci_ident fuel p ident;;
            lba ← dkern (load_le 4 (ident + off_max_lba));
            ahci_upd p (set_ahci_nsectors lba);;
            dmem (page_free page);;
            add_disk p
    end.

Fixpoint ahci_enum_ports (fuel : nat) (n : nat) (abar i : Z) : M devices unit :=
  match n with
  | O => mret tt
  | S n =>
      ahci_enum_device fuel abar (abar + off_ports + i * sizeof_hba_port) i;;
      ahci_enum_ports fuel n abar (i + 1)
  end.

Definition ahci_probe (fuel : nat) (pdev : Z) : M devices Z :=
  '(base, size) ← pci_read_bar true pdev 5;
  abar ← dkern (mmio_map_region base (default 0 size));
  if abar =? NULL then mret (-1)
  else
    cap ← mmio_load 4 (abar + off_cap);
    ahci_enum_ports fuel 32 abar 0;;
    mret 0.

(** ** kernel/dev/disk.c *)

Definition disk_get (p : Z) : M devices disk_obj := deref (λ s, disk_objs s !! p).

Definition disk_poll (disk : Z) : M devices bool :=
  o ← disk_get disk;
  match o with ata_ops _ => ata_poll disk | ahci_ops _ => ahci_poll disk end.
Definition disk_stat_ (disk stat : Z) : M devices (Z * option disk_stat) :=
  o ← disk_get disk;
  match o with ata_ops _ => ata_stat disk stat | ahci_ops _ => ahci_stat disk stat end.
Definition disk_read (fuel : nat) (disk buf count addr : Z) : M devices Z :=
  o ← disk_get disk;
  match o with ata_ops _ => ata_read fuel disk buf count addr | ahci_ops _ => ahci_read fuel disk buf count addr end.
Definition disk_write (fuel : nat) (disk buf count addr : Z) : M devices Z :=
  o ← disk_get disk;
  match o with ata_ops _ => ata_write fuel disk buf count addr | ahci_ops _ => ahci_write fuel disk buf count addr end.

(** ** Drivers and enumeration (kernel/dev/pci.c) *)

(** [struct pci_device_id] *)
Record pci_device_id := PciDeviceId { vendor_id : Z; device_id : Z; pclass : Z; psubclass : Z }.
Definition PCI_MATCH_CLASS (class subclass : Z) : pci_device_id := PciDeviceId PCI_ANY_ID PCI_ANY_ID class subclass.
(** The last entry of a table. *)
Definition no_id : pci_device_id := PciDeviceId 0 0 0 0.

Inductive pci_driver := ahci_driver | ata_driver.
Definition compat (d : pci_driver) : list pci_device_id :=
  match d with
  | ahci_driver => [PCI_MATCH_CLASS 1 6; no_id]
  | ata_driver => [PCI_MATCH_CLASS 1 1; no_id]
  end.
Definition pci_drivers : list pci_driver := [ahci_driver; ata_driver].
Definition probe (fuel : nat) (d : pci_driver) (pdev : Z) : M devices Z :=
  match d with ahci_driver => ahci_probe fuel pdev | ata_driver => ata_probe fuel pdev end.

(** The inner loop: whether the table [ids] has a match. *)
Fixpoint ids_match (ids : list pci_device_id) (device vendor class subclass : Z) : bool :=
  match ids with
  | [] => false
  | c :: ids =>
      if vendor_id c =? 0 then false
      else if (device_id c =? device) && (vendor_id c =? vendor) then true
      else if negb (device_id c =? PCI_ANY_ID) || negb (vendor_id c =? PCI_ANY_ID) then ids_match ids device vendor class subclass
      else if (pclass c =? class) && (psubclass c =? subclass) then true
      else ids_match ids device vendor class subclass
  end.
Fixpoint find_driver (drivers : list pci_driver) (device vendor class subclass : Z) : option pci_driver :=
  match drivers with
  | [] => None
  | d :: drivers =>
      if ids_match (compat d) device vendor class subclass then Some d
      else find_driver drivers device vendor class subclass
  end.
Definition pci_find_driver (device vendor class subclass : Z) : option pci_driver :=
  find_driver pci_drivers device vendor class subclass.

(** [junk] is what the uninitialised address of [alloc_io_dev] holds. *)
Definition pci_enum_device (fuel : nat) (junk base_addr bus slot func : Z) : M devices Z :=
  pdev ← (if negb (base_addr =? 0) then alloc_mmio_dev base_addr bus slot func else alloc_io_dev junk bus slot func);
  if pdev =? NULL then mret (-1)
  else
    device ← pci_read16 pdev off_device_id;
    vendor ← pci_read16 pdev off_vendor_id;
    if (device =? PCI_ANY_ID) && (vendor =? PCI_ANY_ID) then dkern (kfree pdev);; mret (-1)
    else
      class ← pci_read8 pdev off_class;
      subclass ← pci_read8 pdev off_subclass;
      match pci_find_driver device vendor class subclass with
      | None => dkern (kfree pdev);; mret 0
      | Some driver =>
          r ← probe fuel driver pdev;
          if r <? 0 then dkern (kfree pdev);; mret 0 else mret 0
      end.

(** The innermost loop of [pci_enum_devices] stops at the first function that
    does not exist. *)
Fixpoint enum_funcs (fuel : nat) (n : nat) (junk base_addr bus slot func : Z) : M devices unit :=
  match n with
  | O => mret tt
  | S n =>
      r ← pci_enum_device fuel junk base_addr bus slot func;
      if negb (r =? 0) then mret tt else enum_funcs fuel n junk base_addr bus slot (func + 1)
  end.
Fixpoint enum_slots (fuel : nat) (n : nat) (junk base_addr bus slot : Z) : M devices unit :=
  match n with
  | O => mret tt
  | S n => enum_funcs fuel 8 junk base_addr bus slot 0;; enum_slots fuel n junk base_addr bus (slot + 1)
  end.
Fixpoint enum_buses (fuel : nat) (n : nat) (junk base_addr bus : Z) : M devices unit :=
  match n with
  | O => mret tt
  | S n => enum_slots fuel 32 junk base_addr bus 0;; enum_buses fuel n junk base_addr (bus + 1)
  end.
Definition pci_enum_devices (fuel : nat) (junk base_addr bus_start bus_end : Z) : M devices unit :=
  enum_buses fuel (Z.to_nat (bus_end - bus_start)) junk base_addr bus_start.
End ahci.
