(* ===== verification/ByteMem.v ===== *)
(** * Bytes of virtual memory

    What the byte accesses of Vma.v and the little-endian accesses of
    Devices.v do to a buffer that lies inside one page: the page is mapped
    writable by the current page table and its frame holds no table of that
    page table.  Used where drivers move data between devices and memory. *)

From S2P Require Import Prelude LinkedList Paging CString Spinlock Buddy RbTree Kernel PageWalk AddrSpace PageTable Vma Console Task Devices.

Local Open Scope Z_scope.

(** ** Bytes of words *)

Definition mem_byte (ph : physmem) (f off : Z) : Z :=
  Z.shiftr (entry ph f (off / 8)) (8 * (off `mod` 8)) `mod` 256.

Definition put_byte (f off v : Z) (ph : physmem) : physmem :=
  let w := entry ph f (off / 8) in
  let sh := 8 * (off `mod` 8) in
  set_entry f (off / 8) (w + (u8 v - Z.shiftr w sh `mod` 256) * 2 ^ sh) ph.

(** Replacing the byte at bit [s] leaves the bytes at other positions. *)
Lemma byte_same w v s : 0 ≤ s → 0 ≤ v < 256 →
  Z.shiftr (w + (v - Z.shiftr w s `mod` 256) * 2 ^ s) s `mod` 256 = v.
Proof.
  intros Hs Hv. rewrite !Z.shiftr_div_pow2 by done. rewrite Z.div_add by lia.
  set (q := w `div` 2 ^ s). replace (q + (v - q `mod` 256)) with (v + (q `div` 256) * 256) by mlia.
  rewrite Z.mod_add by lia. by apply Z.mod_small.
Qed.

Lemma byte_lower w v s t : 0 ≤ t → t + 8 ≤ s →
  Z.shiftr (w + (v - Z.shiftr w s `mod` 256) * 2 ^ s) t `mod` 256 = Z.shiftr w t `mod` 256.
Proof.
  intros Ht Hs. set (x := v - _). rewrite !Z.shiftr_div_pow2 by done.
  replace (2 ^ s) with (2 ^ (s - t - 8) * 256 * 2 ^ t)
    by (change 256 with (2 ^ 8); rewrite <-!Z.pow_add_r by lia; f_equal; lia).
  rewrite !Z.mul_assoc, Z.div_add by lia. by rewrite Z.mod_add by lia.
Qed.

Lemma byte_upper w v s t : 0 ≤ s → s + 8 ≤ t → 0 ≤ v < 256 →
  Z.shiftr (w + (v - Z.shiftr w s `mod` 256) * 2 ^ s) t `mod` 256 = Z.shiftr w t `mod` 256.
Proof.
  intros Hs Ht Hv. rewrite !Z.shiftr_div_pow2 by lia.
  assert (∀ x, x `div` 2 ^ t = x `div` 2 ^ s `div` 256 `div` 2 ^ (t - s - 8)) as Hd.
  { intros x. rewrite !Z.div_div by lia. change 256 with (2 ^ 8). rewrite <-!Z.pow_add_r by lia. do 2 f_equal. lia. }
  rewrite (Hd w), Hd, Z.div_add by lia. set (q := w `div` 2 ^ s).
  replace ((q + (v - q `mod` 256)) `div` 256) with (q `div` 256) by mlia. done.
Qed.

Lemma mem_byte_put ph f off v f' off' : 0 ≤ off → 0 ≤ off' →
  mem_byte (put_byte f off v ph) f' off' = if decide (f = f' ∧ off = off') then u8 v else mem_byte ph f' off'.
Proof.
  intros Ho Ho'. unfold mem_byte, put_byte. rewrite entry_set.
  assert (0 ≤ u8 v < 256) as Hv by (apply Z.mod_pos_bound; lia).
  destruct (decide (f = f' ∧ off / 8 = off' / 8)) as [[-> E]|Hne].
  - rewrite E. destruct (decide (off = off')) as [->|Hd].
    + rewrite decide_True by done. apply byte_same; [mlia|done].
    + rewrite decide_False by tauto. destruct (decide (off' < off)).
      * apply byte_lower; mlia.
      * apply byte_upper; [mlia|mlia|done].
  - rewrite decide_False; [done|]. intros [-> ->]. tauto.
Qed.

(** ** Buffers *)

(** Physical memory becomes [ph]. *)
Definition with_phys (ph : physmem) (k : kernel) : kernel := set_km (set_phys ph (km k)) k.

Record page_buf (T : tmap) (k : kernel) (va n f : Z) : Prop := {
  pb_pt : pt_ok (npages (km k)) T (phys (km k)) (PAGE_INDEX (cr3 k));
  pb_range : 0 ≤ va ∧ va `mod` PAGE_SIZE + n ≤ PAGE_SIZE;
  pb_map : ∃ e, translate (phys (km k)) (PAGE_INDEX (cr3 k)) (PAGE_INDEX va) = Some e ∧
    has e PAGE_WRITE = true ∧ frame_of e = f;
  pb_data p g : T !! p = Some g → g ≠ f;
}.

(** The place of byte [i] of a buffer in its frame. *)
Abbreviation place va i := (va `mod` PAGE_SIZE + i).

Lemma same_page va i n : 0 ≤ va → va `mod` PAGE_SIZE + n ≤ PAGE_SIZE → 0 ≤ i < n →
  PAGE_INDEX (va + i) = PAGE_INDEX va ∧ (va + i) `mod` PAGE_SIZE = place va i.
Proof.
  intros Hv Hn Hi. rewrite !PAGE_INDEX_div. change PAGE_SIZE with 4096 in *. mlia.
Qed.

Section bytes.
Context (T : tmap).

Lemma buf_phys_byte k va n f i b : page_buf T k va n f → 0 ≤ i < n → phys_byte b k (va + i) = Some (f, place va i).
Proof.
  intros [_ [Hv Hn] (e & He & Hw & Hf) _] Hi. destruct (same_page va i n Hv Hn Hi) as [Ep Eo].
  unfold phys_byte. rewrite Ep, He. simpl. rewrite Hw, andb_false_r, Eo, Hf. done.
Qed.

Lemma translate_put k va n f f' i v j : page_buf T k va n f → (∀ p g, T !! p = Some g → g ≠ f') →
  translate (put_byte f' i v (phys (km k))) (PAGE_INDEX (cr3 k)) j = translate (phys (km k)) (PAGE_INDEX (cr3 k)) j.
Proof.
  intros [Hpt _ _ _] Hf.
  assert (∀ p g, T !! p = Some g → put_byte f' i v (phys (km k)) !! g = phys (km k) !! g) as Hs.
  { intros p g Hg. unfold put_byte, set_entry. apply lookup_insert_ne. intros ->. by apply (Hf p g). }
  rewrite (translate_view _ _ _ _ _ Hpt), (translate_view _ _ _ _ _ (pt_ok_ext _ _ _ _ _ Hpt Hs)). by apply view_ext.
Qed.

Lemma page_buf_put k va n f f' i v : page_buf T k va n f → (∀ p g, T !! p = Some g → g ≠ f') →
  page_buf T (with_phys (put_byte f' i v (phys (km k))) k) va n f.
Proof.
  intros Hb Hf. pose proof (translate_put k va n f f' i v (PAGE_INDEX va) Hb Hf) as Et. destruct Hb as [Hpt Hr Hm Hd].
  split; try done.
  - eapply pt_ok_ext; [exact Hpt|]. intros p g Hg. simpl. unfold put_byte, set_entry. apply lookup_insert_ne.
    intros ->. by apply (Hf p g).
  - simpl. rewrite Et. exact Hm.
Qed.

Lemma page_buf_sub k va n f i m : page_buf T k va n f → 0 ≤ i → i < n → i + m ≤ n → page_buf T k (va + i) m f.
Proof.
  intros [Hpt [Hv Hn] Hm Hd] Hi Hin Hl. destruct (same_page va i n Hv Hn ltac:(lia)) as [Ep Eo].
  split; try done.
  - rewrite Eo. lia.
  - by rewrite Ep.
Qed.

(** [k'] is [k] with the bytes [bs] from place [o] of frame [f] on. *)
Record wrote (k : kernel) (f o : Z) (bs : list Z) (k' : kernel) : Prop := {
  wr_state : k' = with_phys (phys (km k')) k;
  wr_bytes f' o' : 0 ≤ o' → mem_byte (phys (km k')) f' o' =
    if decide (f' = f ∧ o ≤ o' < o + Z.of_nat (length bs)) then bs !!! Z.to_nat (o' - o) else mem_byte (phys (km k)) f' o';
  wr_frames g : g ≠ f → phys (km k') !! g = phys (km k) !! g;
}.

Lemma wrote_nil k f o : wrote k f o [] k.
Proof.
  split; [by destruct k as [[] ? ? ? ? ? ? ? ? ? ? ? ? ?]| |done]. intros f' o' _. rewrite decide_False; [done|]. simpl. lia.
Qed.

Lemma wrote_app k f o bs1 k1 bs2 k2 : wrote k f o bs1 k1 → wrote k1 f (o + Z.of_nat (length bs1)) bs2 k2 →
  wrote k f o (bs1 ++ bs2) k2.
Proof.
  intros [S1 B1 F1] [S2 B2 F2]. split.
  - rewrite S2, S1. by destruct k.
  - intros f' o' Ho. rewrite B2, B1 by done. rewrite length_app. repeat case_decide; try lia; try done.
    + rewrite lookup_total_app_r by lia. f_equal. lia.
    + rewrite lookup_total_app_l by lia. done.
  - intros g Hg. by rewrite F2, F1.
Qed.

(** Writing outside the tables keeps every buffer. *)
Lemma page_buf_wrote k va n f f' o bs k' : page_buf T k va n f → wrote k f' o bs k' →
  (∀ p g, T !! p = Some g → g ≠ f') → page_buf T k' va n f.
Proof.
  intros [Hpt Hr (e & He & Hw) Hd] [Hs _ Hf] Hf'.
  assert (∀ p g, T !! p = Some g → phys (km k') !! g = phys (km k) !! g) as Hg.
  { intros p g Hg. apply Hf. by eapply Hf'. }
  assert (pt_ok (npages (km k)) T (phys (km k')) (PAGE_INDEX (cr3 k))) as Hpt' by (by eapply pt_ok_ext).
  assert (npages (km k') = npages (km k) ∧ cr3 k' = cr3 k) as [En Ec] by (by rewrite Hs).
  split; try done.
  - by rewrite En, Ec.
  - exists e. rewrite Ec. split; [|done]. rewrite (translate_view _ _ _ _ _ Hpt'), (view_ext T _ (phys (km k'))  _ Hg).
    by rewrite <-(translate_view _ _ _ _ _ Hpt).
Qed.

Lemma store_byte_spec k va n f i v : page_buf T k va n f → 0 ≤ i < n → 0 ≤ v < 256 →
  wp (store_byte (va + i) v) (λ _ k', wrote k f (place va i) [v] k' ∧ page_buf T k' va n f) k.
Proof.
  intros Hb Hi Hv. assert (0 ≤ va `mod` PAGE_SIZE) as Hm by (by apply Z.mod_pos_bound).
  unfold store_byte. wp_step. eapply wp_deref; [by eapply buf_phys_byte|]. cbv beta iota zeta.
  apply wp_modify. split; [split|].
  - by destruct k.
  - intros f' o' Ho. simpl. fold (put_byte f (place va i) v (phys (km k))). rewrite mem_byte_put by lia. unfold u8.
    rewrite (Z.mod_small v (2 ^ 8)) by done. cbn [length]. destruct (decide (f = f' ∧ _)) as [[-> <-]|Hne].
    + rewrite decide_True by lia. by rewrite Z.sub_diag.
    + by rewrite decide_False by lia.
  - intros g Hg. simpl. by apply lookup_insert_ne.
  - apply (page_buf_put k va n f f (place va i) v Hb). apply Hb.
Qed.

Lemma u8_le_bytes w v : Forall (λ b, 0 ≤ b < 256) (le_bytes w v).
Proof. revert v. induction w as [|w IH]; intros v; constructor; [apply Z.mod_pos_bound; lia|apply IH]. Qed.
Lemma length_le_bytes w v : length (le_bytes w v) = w.
Proof. revert v. induction w as [|w IH]; intros v; simpl; [done|]. by rewrite IH. Qed.

Lemma store_le_spec w k va n f i v : page_buf T k va n f → 0 ≤ i → i + Z.of_nat w ≤ n →
  wp (store_le w (va + i) v) (λ _ k', wrote k f (place va i) (le_bytes w v) k' ∧ page_buf T k' va n f) k.
Proof.
  revert k i v. induction w as [|w IH]; intros k i v Hb Hi Hw; cbn [store_le].
  - wp_step. split; [apply wrote_nil|done].
  - wp_step. assert (0 ≤ u8 v < 256) as Hv by (apply Z.mod_pos_bound; lia).
    eapply wp_mono; [apply (store_byte_spec k va n f i (u8 v)); [done|lia|done]|]. cbv beta. intros [] k1 [W1 B1].
    replace (va + i + 1) with (va + (i + 1)) by lia.
    eapply wp_mono; [apply (IH k1 (i + 1) (v `div` 256)); [done|lia|lia]|]. cbv beta. intros [] k2 [W2 B2].
    split; [|done]. cbn [le_bytes]. rewrite Z.shiftr_div_pow2 by done. change (2 ^ 8) with 256.
    change (u8 v :: le_bytes w (v `div` 256)) with ([u8 v] ++ le_bytes w (v `div` 256)).
    eapply wrote_app; [exact W1|]. cbn [length]. by replace (place va i + Z.of_nat 1) with (place va (i + 1)) by lia.
Qed.

Lemma load_byte_spec k va n f i : page_buf T k va n f → 0 ≤ i < n →
  wp (load_byte (va + i)) (λ b k', b = mem_byte (phys (km k)) f (place va i) ∧ k' = k) k.
Proof.
  intros Hb Hi. unfold load_byte. wp_step. eapply wp_deref; [by eapply buf_phys_byte|]. done.
Qed.

(** The [w] bytes of a frame from place [o] on, as a number. *)
Fixpoint le_value (ph : physmem) (f o : Z) (w : nat) : Z :=
  match w with
  | O => 0
  | S w => mem_byte ph f o + 256 * le_value ph f (o + 1) w
  end.

Lemma load_le_spec w k va n f i : page_buf T k va n f → 0 ≤ i → i + Z.of_nat w ≤ n →
  wp (load_le w (va + i)) (λ v k', v = le_value (phys (km k)) f (place va i) w ∧ k' = k) k.
Proof.
  revert i. induction w as [|w IH]; intros i Hb Hi Hw; cbn [load_le le_value].
  - by wp_step.
  - wp_step. eapply wp_mono; [apply (load_byte_spec k va n f i); [done|lia]|]. cbv beta. intros b k1 [-> ->].
    replace (va + i + 1) with (va + (i + 1)) by lia.
    wp_step. eapply wp_mono; [apply (IH (i + 1)); [done|lia|lia]|]. cbv beta. intros v k1 [-> ->]. wp_step.
    by replace (place va (i + 1)) with (place va i + 1) by lia.
Qed.

Lemma mem_byte_range ph f o : 0 ≤ mem_byte ph f o < 256.
Proof. apply Z.mod_pos_bound. lia. Qed.

(** The bytes of the value that was loaded are those in memory. *)
Lemma le_bytes_value ph f o w i : (i < w)%nat → le_bytes w (le_value ph f o w) !!! i = mem_byte ph f (o + Z.of_nat i).
Proof.
  revert o i. induction w as [|w IH]; intros o i Hi; [lia|]. cbn [le_bytes le_value].
  pose proof (mem_byte_range ph f o) as Hm. destruct i as [|i]; cbn [lookup_total list_lookup_total].
  - unfold u8. rewrite Z.add_0_r. mlia.
  - rewrite Z.shiftr_div_pow2 by done. change (2 ^ 8) with 256.
    replace ((mem_byte ph f o + 256 * le_value ph f (o + 1) w) `div` 256) with (le_value ph f (o + 1) w) by mlia.
    rewrite IH by lia. f_equal. lia.
Qed.

Lemma le_value_range ph f o w : 0 ≤ le_value ph f o w < 2 ^ (8 * Z.of_nat w).
Proof.
  revert o. induction w as [|w IH]; intros o; [done|]. cbn [le_value]. pose proof (mem_byte_range ph f o).
  specialize (IH (o + 1)). replace (8 * Z.of_nat (S w)) with (8 * Z.of_nat w + 8) by lia.
  rewrite Z.pow_add_r by lia. lia.
Qed.
End bytes.
