(* ===== verification/AtaProofs.v ===== *)
(** * The ATA driver against a disk

    [ide] is what the ATA standard promises of one drive on a channel: its
    task file, the transfer in progress and the sectors.  [Drive] says that the
    devices behind the ports of a channel contain such a drive; the theorems
    hold for all devices with this interface, however long the drive takes to
    become ready. *)

From S2P Require Import Prelude LinkedList Paging CString Spinlock Buddy RbTree Kernel PageWalk AddrSpace PageTable Slab Vma Console Task Devices Ata ByteMem.

Local Open Scope Z_scope.

(** ** A drive *)

(** A read delivers [ws]; a write still takes [n] sectors from [lba] on and
    has [ws] of the current one. *)
Inductive transfer := NoTransfer | Reading (ws : list Z) | Writing (lba : Z) (n : nat) (ws : list Z).

Record ide := Ide {
  unit_no : Z;  (** 0 or 1: the drive's number on its channel *)
  latency : nat;  (** status reads a command keeps the drive busy for *)
  r_count : Z;
  r_lo : Z;
  r_mid : Z;
  r_hi : Z;
  r_dev : Z;
  busy : nat;
  xfer : transfer;
  platter : gmap Z (list Z);
}.

Definition sector (i : ide) (lba : Z) : list Z := default (replicate 128 0) (platter i !! lba).

Definition set_regs (c l m h d : Z) (i : ide) : ide :=
  Ide (unit_no i) (latency i) c l m h d (busy i) (xfer i) (platter i).
Definition set_busy (b : nat) (i : ide) : ide :=
  Ide (unit_no i) (latency i) (r_count i) (r_lo i) (r_mid i) (r_hi i) (r_dev i) b (xfer i) (platter i).
Definition set_xfer (x : transfer) (i : ide) : ide :=
  Ide (unit_no i) (latency i) (r_count i) (r_lo i) (r_mid i) (r_hi i) (r_dev i) (busy i) x (platter i).
Definition set_platter (p : gmap Z (list Z)) (i : ide) : ide :=
  Ide (unit_no i) (latency i) (r_count i) (r_lo i) (r_mid i) (r_hi i) (r_dev i) (busy i) (xfer i) p.

(** The drive is selected by bit 4 of the device register. *)
Definition selected (i : ide) : bool := Z.shiftr (r_dev i) 4 `mod` 2 =? unit_no i.
(** The 28-bit address in the task file. *)
Definition lba_of (i : ide) : Z :=
  r_lo i + 2 ^ 8 * r_mid i + 2 ^ 16 * r_hi i + 2 ^ 24 * (r_dev i `mod` 16).
Definition nsects (i : ide) : nat := if r_count i =? 0 then 256 else Z.to_nat (r_count i).
Fixpoint words_from (i : ide) (lba : Z) (n : nat) : list Z :=
  match n with O => [] | S n => sector i lba ++ words_from i (lba + 1) n end.

(** A command starts when the drive is selected, ready and in LBA mode. *)
Definition command (v : Z) (i : ide) : ide :=
  if selected i && Nat.eqb (busy i) 0 then
    let i' := set_busy (latency i) i in
    if (v =? ATA_CMD_READ) && Z.testbit (r_dev i) 6 then set_xfer (Reading (words_from i (lba_of i) (nsects i))) i'
    else if (v =? ATA_CMD_WRITE) && Z.testbit (r_dev i) 6 then set_xfer (Writing (lba_of i) (nsects i) []) i'
    else i'
  else i.

Definition status (i : ide) : Z * ide :=
  if selected i then
    match busy i with
    | O => (Z.lor ATA_STAT_READY (match xfer i with NoTransfer => 0 | _ => ATA_STAT_DRQ end), i)
    | S b => (ATA_STAT_BUSY, set_busy b i)
    end
  else (0, i).

Definition data_in (i : ide) : Z * ide :=
  match xfer i with
  | Reading (w :: ws) => (w, set_xfer (match ws with [] => NoTransfer | _ => Reading ws end) i)
  | _ => (0, i)
  end.

Definition data_out (v : Z) (i : ide) : ide :=
  match xfer i with
  | Writing lba n ws =>
      let ws := ws ++ [v] in
      if Nat.eqb (length ws) 128 then
        set_xfer (match n with S (S n) => Writing (lba + 1) (S n) [] | _ => NoTransfer end)
          (set_platter (<[lba := ws]> (platter i)) i)
      else set_xfer (Writing lba n ws) i
  | _ => i
  end.

(** Writing a byte to a port of the channel. *)
Definition ide_out (c : ata_chan) (p v : Z) (i : ide) : ide :=
  if p =? sector_count c then set_regs v (r_lo i) (r_mid i) (r_hi i) (r_dev i) i
  else if p =? lba_lo c then set_regs (r_count i) v (r_mid i) (r_hi i) (r_dev i) i
  else if p =? lba_mid c then set_regs (r_count i) (r_lo i) v (r_hi i) (r_dev i) i
  else if p =? lba_hi c then set_regs (r_count i) (r_lo i) (r_mid i) v (r_dev i) i
  else if p =? ch_drive c then set_regs (r_count i) (r_lo i) (r_mid i) (r_hi i) v i
  else if p =? ch_cmd c then command v i
  else i.

Class Drive `{Bus} (c : ata_chan) := {
  ide_of : dev → ide;
  drive_out p v d : 0 ≤ v < 256 → ide_of (out_port p v d) = ide_out c p v (ide_of d);
  drive_status d : u8 (in_port (ch_cmd c) d).1 = (status (ide_of d)).1 ∧
    ide_of (in_port (ch_cmd c) d).2 = (status (ide_of d)).2;
  drive_data_in d : u32 (in_wide 4 (ch_data c) d).1 = u32 (data_in (ide_of d)).1 ∧
    ide_of (in_wide 4 (ch_data c) d).2 = (data_in (ide_of d)).2;
  drive_data_out v d : 0 ≤ v < 2 ^ 32 → ide_of (out_wide 4 (ch_data c) v d) = data_out v (ide_of d);
  ports_differ : NoDup [sector_count c; lba_lo c; lba_mid c; lba_hi c; ch_drive c; ch_cmd c];
}.

(** ** The state of the driver *)

Section driver.
Context `{Layout} `{VmaNames} `{Bus} `{SchedLayout}.

(** The state with the devices, the kernel and the disks replaced. *)
Definition upd (s : devices) (d : dev) (k : kernel) (o : gmap Z disk_obj) : devices :=
  set_disk_objs o (set_ds (set_sk k (set_scons (set_device d (scons (ds s))) (ds s))) s).
Definition dv (s : devices) : dev := device (scons (ds s)).
Definition kn (s : devices) : kernel := sk (ds s).

Lemma upd_self s : s = upd s (dv s) (kn s) (disk_objs s).
Proof. by destruct s as [[? [] ? ? ? ? ? ? ? ?] ? ? ? ? ? ?]. Qed.

Lemma upd_upd s d k o d' k' o' : upd (upd s d k o) d' k' o' = upd s d' k' o'.
Proof. done. Qed.

Lemma wp_dkern {A} (c : M kernel A) Q s d k o : wp c (λ a k', Q a (upd s d k' o)) k → wp (dkern c) Q (upd s d k o).
Proof. intros Hc. unfold dkern, on_sched, kern. do 2 apply wp_zoom. exact Hc. Qed.

Lemma wp_ata_get p ad Q s d k o : o !! p = Some (ata_ops ad) → Q ad (upd s d k o) → wp (ata_get p) Q (upd s d k o).
Proof. intros Ho HQ. eapply wp_deref; [|done]. simpl. by rewrite Ho. Qed.

Lemma wp_chan_get i c Q s d k o : channels s !! i = Some c → Q c (upd s d k o) → wp (chan_get i) Q (upd s d k o).
Proof. intros Hc HQ. eapply wp_deref; [|done]. done. Qed.

Lemma wp_set_st p ad st Q s d k o : o !! p = Some (ata_ops ad) →
  Q tt (upd s d k (<[p := ata_ops (set_ata_st st ad)]> o)) → wp (ata_set_st p st) Q (upd s d k o).
Proof. intros Ho HQ. unfold ata_set_st. wp_step. eapply wp_ata_get; [done|]. exact HQ. Qed.

Context (c : ata_chan) `{!Drive c}.

Lemma wp_out8 p v Q s d k o : (∀ d', ide_of d' = ide_out c p (u8 v) (ide_of d) → Q tt (upd s d' k o)) →
  wp (out8 p v) Q (upd s d k o).
Proof. intros HQ. apply HQ. apply drive_out, Z.mod_pos_bound. lia. Qed.

Lemma wp_status Q s d k o : (∀ d', ide_of d' = (status (ide_of d)).2 → Q (status (ide_of d)).1 (upd s d' k o)) →
  wp (in8 (ch_cmd c)) Q (upd s d k o).
Proof.
  intros HQ. destruct (drive_status d) as [E1 E2]. unfold wp, in8, dcons, on_sched, zoom, inb. simpl.
  destruct (in_port (ch_cmd c) d) as [v d'] eqn:E. simpl in *. rewrite E1. by apply HQ.
Qed.

(** The six registers. *)
Lemma ide_out_regs v i :
  ide_out c (sector_count c) v i = set_regs v (r_lo i) (r_mid i) (r_hi i) (r_dev i) i ∧
  ide_out c (lba_lo c) v i = set_regs (r_count i) v (r_mid i) (r_hi i) (r_dev i) i ∧
  ide_out c (lba_mid c) v i = set_regs (r_count i) (r_lo i) v (r_hi i) (r_dev i) i ∧
  ide_out c (lba_hi c) v i = set_regs (r_count i) (r_lo i) (r_mid i) v (r_dev i) i ∧
  ide_out c (ch_drive c) v i = set_regs (r_count i) (r_lo i) (r_mid i) (r_hi i) v i ∧
  ide_out c (ch_cmd c) v i = command v i.
Proof.
  pose proof ports_differ as Hd. rewrite !NoDup_cons, !not_elem_of_cons in Hd.
  destruct Hd as ((?&?&?&?&?&_) & (?&?&?&?&_) & (?&?&?&_) & (?&?&_) & (?&_) & _).
  unfold ide_out. by rewrite !Z.eqb_refl, !(proj2 (Z.eqb_neq _ _)) by done.
Qed.

(** ** Selecting and waiting *)

Definition sel (drv : Z) (i : ide) : ide := set_regs (r_count i) (r_lo i) (r_mid i) (r_hi i) (0xa0 + 16 * drv) i.

Lemma drive_value b drv : drv = 0 ∨ drv = 1 → b = 0xa0 ∨ b = 0xe0 → Z.lor b (Z.shiftl drv 4) = b + 16 * drv.
Proof. by intros [-> | ->] [-> | ->]. Qed.

Lemma sel_selected drv i : drv = 0 ∨ drv = 1 → unit_no i = drv → selected (sel drv i) = true.
Proof. intros [-> | ->] Hu; unfold selected; simpl; by rewrite Hu. Qed.

Lemma select_spec ad Q s d k o : drive ad = 0 ∨ drive ad = 1 →
  (∀ d', ide_of d' = sel (drive ad) (ide_of d) → Q tt (upd s d' k o)) → wp (select_drive c ad) Q (upd s d k o).
Proof.
  intros Hd HQ. apply wp_out8. intros d' Hd'. apply HQ. rewrite Hd'. rewrite drive_value by auto.
  destruct (ide_out_regs (u8 (0xa0 + 16 * drive ad)) (ide_of d)) as (_&_&_&_&->&_). unfold u8, sel.
  rewrite Z.mod_small by lia. done.
Qed.

Lemma ready_status i : selected i = true → ata_ready (status i).1 = Nat.eqb (busy i) 0.
Proof. intros Hs. unfold status. rewrite Hs. by destruct (busy i), (xfer i). Qed.

Lemma ata_ready_spec fuel Q s d k o : selected (ide_of d) = true → (busy (ide_of d) < fuel)%nat →
  (∀ d', ide_of d' = set_busy 0 (ide_of d) → Q 0 (upd s d' k o)) → wp (ata_wait_ready fuel c false) Q (upd s d k o).
Proof.
  revert d. induction fuel as [|fuel IH]; intros d Hs Hb HQ; [lia|]. cbn [ata_wait_ready]. wp_step.
  apply wp_status. intros d' Hd'. rewrite ready_status by done. revert Hd'. unfold status. rewrite Hs.
  destruct (busy (ide_of d)) as [|b] eqn:Eb; intros Hd'; cbn [Nat.eqb negb andb].
  - wp_step. apply HQ. rewrite Hd'. simpl. rewrite <-Eb. by destruct (ide_of d).
  - apply IH.
    + rewrite Hd'. exact Hs.
    + rewrite Hd'. simpl. lia.
    + intros d2 Hd2. apply HQ. rewrite Hd2, Hd'. done.
Qed.

(** ** Issuing a request *)

Definition task_file (count addr drv : Z) (i : ide) : ide :=
  set_regs (u8 count) (u8 (Z.land addr 0xff)) (u8 (Z.land (Z.shiftr addr 8) 0xff)) (u8 (Z.land (Z.shiftr addr 16) 0xff))
    (u8 (Z.lor (Z.lor 0xe0 (Z.shiftl drv 4)) (Z.land (Z.shiftr addr 24) 0xf))) i.

Lemma request_spec ad count addr cmd Q s d k o :
  (∀ d', ide_of d' = command (u8 cmd) (task_file count addr (drive ad) (ide_of d)) → Q tt (upd s d' k o)) →
  wp (ata_request c ad count addr cmd) Q (upd s d k o).
Proof.
  intros HQ. unfold ata_request. wp_step. apply wp_out8. intros d1 E1. wp_step. apply wp_out8. intros d2 E2.
  wp_step. apply wp_out8. intros d3 E3. wp_step. apply wp_out8. intros d4 E4. wp_step. apply wp_out8. intros d5 E5.
  apply wp_out8. intros d6 E6. apply HQ.
  rewrite E6, E5, E4, E3, E2, E1.
  destruct (ide_out_regs (u8 count) (ide_of d)) as (->&_).
  set (i1 := set_regs _ _ _ _ _ (ide_of d)). destruct (ide_out_regs (u8 (Z.land addr 0xff)) i1) as (_&->&_).
  set (i2 := set_regs _ _ _ _ _ i1). destruct (ide_out_regs (u8 (Z.land (Z.shiftr addr 8) 0xff)) i2) as (_&_&->&_).
  set (i3 := set_regs _ _ _ _ _ i2). destruct (ide_out_regs (u8 (Z.land (Z.shiftr addr 16) 0xff)) i3) as (_&_&_&->&_).
  set (i4 := set_regs _ _ _ _ _ i3).
  destruct (ide_out_regs (u8 (Z.lor (Z.lor 0xe0 (Z.shiftl (drive ad) 4)) (Z.land (Z.shiftr addr 24) 0xf))) i4) as (_&_&_&_&->&_).
  set (i5 := set_regs _ _ _ _ _ i4). destruct (ide_out_regs (u8 cmd) i5) as (_&_&_&_&_&->). done.
Qed.

(** The device register: LBA mode, the drive and four bits of the address. *)
Lemma dev_register drv a : drv = 0 ∨ drv = 1 →
  let r := u8 (Z.lor (Z.lor 0xe0 (Z.shiftl drv 4)) (Z.land a 0xf)) in
  Z.testbit r 6 = true ∧ Z.shiftr r 4 `mod` 2 = drv ∧ r `mod` 16 = a `mod` 16.
Proof.
  intros Hd. simpl. change 0xf with (2 ^ 4 - 1). rewrite land_ones_mod by done. change (2 ^ 4) with 16.
  assert (0 ≤ a `mod` 16 < 16) as Hr by (apply Z.mod_pos_bound; lia). set (x := a `mod` 16) in *.
  assert (x ∈ seqZ 0 16) as Hx by (apply elem_of_seqZ; lia).
  assert (Forall (λ x, Forall (λ drv, Z.testbit (u8 (Z.lor (Z.lor 0xe0 (Z.shiftl drv 4)) x)) 6 = true ∧
    Z.shiftr (u8 (Z.lor (Z.lor 0xe0 (Z.shiftl drv 4)) x)) 4 `mod` 2 = drv ∧
    u8 (Z.lor (Z.lor 0xe0 (Z.shiftl drv 4)) x) `mod` 16 = x) [0; 1]) (seqZ 0 16)) as Hall
    by (apply (bool_decide_unpack _); by vm_compute).
  rewrite Forall_forall in Hall. specialize (Hall x Hx). rewrite Forall_forall in Hall. apply (Hall drv). set_solver.
Qed.

Lemma task_file_lba count addr drv i : drv = 0 ∨ drv = 1 → 0 ≤ addr →
  lba_of (task_file count addr drv i) = addr `mod` 2 ^ 28.
Proof.
  intros Hd Ha. unfold lba_of, task_file. cbn [r_lo r_mid r_hi r_dev set_regs].
  destruct (dev_register drv (Z.shiftr addr 24) Hd) as (_ & _ & ->). change 0xff with (2 ^ 8 - 1).
  rewrite !land_ones_mod by done. unfold u8. rewrite !Z.mod_mod by lia. rewrite !Z.shiftr_div_pow2 by done.
  change (2 ^ 8) with 256. change (2 ^ 16) with 65536. change (2 ^ 24) with 16777216. change (2 ^ 28) with 268435456. mlia.
Qed.

Lemma task_file_selected count addr drv i : drv = 0 ∨ drv = 1 → unit_no i = drv →
  selected (task_file count addr drv i) = true ∧ Z.testbit (r_dev (task_file count addr drv i)) 6 = true.
Proof.
  intros Hd Hu. destruct (dev_register drv (Z.shiftr addr 24) Hd) as (E6 & E4 & _). split; [|done].
  unfold selected. cbn [r_dev set_regs task_file unit_no]. rewrite E4, Hu. apply Z.eqb_refl.
Qed.

(** ** Moving data *)

(** What is left of a read. *)
Definition rest (ws : list Z) : transfer := match ws with [] => NoTransfer | _ => Reading ws end.

Lemma wp_inl Q s d k o : (∀ d', ide_of d' = (data_in (ide_of d)).2 → Q (u32 (data_in (ide_of d)).1) (upd s d' k o)) →
  wp (inl (ch_data c)) Q (upd s d k o).
Proof.
  intros HQ. destruct (drive_data_in d) as [E1 E2]. unfold wp, inl, in_w, dcons, on_sched, zoom. simpl.
  destruct (in_wide 4 (ch_data c) d) as [v d'] eqn:E. simpl in *. change (2 ^ (8 * 4)) with (2 ^ 32).
  unfold u32 in E1. rewrite E1. by apply HQ.
Qed.

Lemma wp_outl v Q s d k o : (∀ d', ide_of d' = data_out (u32 v) (ide_of d) → Q tt (upd s d' k o)) →
  wp (outl (ch_data c) v) Q (upd s d k o).
Proof. intros HQ. apply HQ. apply drive_data_out, Z.mod_pos_bound. lia. Qed.

(** The bytes of words, as [insl] stores them. *)
Definition bytes_of (ws : list Z) : list Z := ws ≫= (λ w, le_bytes 4 (u32 w)).
Lemma length_bytes_of ws : length (bytes_of ws) = (4 * length ws)%nat.
Proof. induction ws as [|w ws IH]; [done|]. unfold bytes_of in *. cbn [mbind list_bind]. rewrite length_app, IH. simpl. lia. Qed.

Lemma insl_spec T (n : nat) va len f i ws s d k o : page_buf T k va len f → 0 ≤ i → i + 4 * Z.of_nat n ≤ len →
  xfer (ide_of d) = rest ws → (n ≤ length ws)%nat →
  wp (insl (ch_data c) (va + i) n) (λ _ s', ∃ d' k', s' = upd s d' k' o ∧
    ide_of d' = set_xfer (rest (drop n ws)) (ide_of d) ∧
    wrote k f (place va i) (bytes_of (take n ws)) k' ∧ page_buf T k' va len f) (upd s d k o).
Proof.
  revert i ws d k. induction n as [|n IH]; intros i ws d k Hb Hi Hl Hx Hn; cbn [insl].
  - wp_step. exists d, k. split; [done|]. rewrite drop_0, <-Hx. split; [by destruct (ide_of d)|].
    split; [apply wrote_nil|done].
  - destruct ws as [|w ws]; [simpl in Hn; lia|]. wp_step. apply wp_inl. intros d1 Hd1.
    unfold data_in in *. rewrite Hx in *. cbn [rest fst snd] in *. wp_step. apply wp_dkern.
    eapply wp_mono; [apply (store_le_spec T 4 k va len f i (u32 w)); [done|lia|lia]|]. cbv beta. intros [] k1 [W1 B1].
    replace (va + i + 4) with (va + (i + 4)) by lia.
    eapply wp_mono; [apply (IH (i + 4) ws d1 k1); [done|lia|lia| |simpl in Hn; lia]|].
    + rewrite Hd1. done.
    + cbv beta. intros [] s2 (d2 & k2 & -> & Hd2 & W2 & B2). exists d2, k2. split; [done|].
      rewrite Hd2, Hd1. split; [done|]. split; [|done]. cbn [take]. unfold bytes_of. cbn [mbind list_bind].
      eapply wrote_app; [exact W1|]. rewrite length_le_bytes.
      by replace (place va i + Z.of_nat 4) with (place va (i + 4)) by lia.
Qed.

(** The words of a frame from place [o] on. *)
Fixpoint mem_words (ph : physmem) (f o : Z) (n : nat) : list Z :=
  match n with O => [] | S n => le_value ph f o 4 :: mem_words ph f (o + 4) n end.

Lemma length_mem_words ph f o n : length (mem_words ph f o n) = n.
Proof. revert o. induction n as [|n IH]; intros o; simpl; [done|]. by rewrite IH. Qed.

Lemma outsl_spec T (n : nat) va len f i lba ws s d k o : page_buf T k va len f → 0 ≤ i → i + 4 * Z.of_nat n ≤ len →
  xfer (ide_of d) = Writing lba 1 ws → (0 < n)%nat → (length ws + n = 128)%nat →
  wp (outsl (ch_data c) (va + i) n) (λ _ s', ∃ d', s' = upd s d' k o ∧
    ide_of d' = set_xfer NoTransfer (set_platter
      (<[lba := ws ++ mem_words (phys (km k)) f (place va i) n]> (platter (ide_of d))) (ide_of d))) (upd s d k o).
Proof.
  revert i ws d. induction n as [|n IH]; intros i ws d Hb Hi Hl Hx Hn Hw; [lia|]. cbn [outsl mem_words].
  wp_step. apply wp_dkern. eapply wp_mono; [apply (load_le_spec T 4 k va len f i); [done|lia|lia]|]. cbv beta.
  intros v k1 [-> ->]. pose proof (le_value_range (phys (km k)) f (place va i) 4) as Hr.
  set (v := le_value _ _ _ 4) in *. wp_step. apply wp_outl. intros d1. unfold u32. rewrite Z.mod_small by done.
  unfold data_out. rewrite Hx. rewrite length_app. cbn [length]. intros Hd1.
  replace (va + i + 4) with (va + (i + 4)) by lia.
  destruct n as [|n]; [cbn [outsl mem_words]|].
  - replace (length ws + 1)%nat with 128%nat in Hd1 by lia. wp_step. exists d1. split; [done|]. exact Hd1.
  - rewrite (proj2 (Nat.eqb_neq (length ws + 1) 128)) in Hd1 by lia.
    eapply wp_mono; [apply (IH (i + 4) (ws ++ [v]) d1); [done|lia|lia| |lia|rewrite length_app; simpl; lia]|].
    + by rewrite Hd1.
    + cbv beta. intros [] s2 (d2 & -> & Hd2). exists d2. split; [done|]. rewrite Hd2, Hd1.
      rewrite <-app_assoc. replace (place va (i + 4)) with (place va i + 4) by lia. done.
Qed.

Lemma bytes_of_mem ph f o n j : (j < 4 * n)%nat → bytes_of (mem_words ph f o n) !!! j = mem_byte ph f (o + Z.of_nat j).
Proof.
  revert o j. induction n as [|n IH]; intros o j Hj; [lia|]. cbn [mem_words]. unfold bytes_of. cbn [mbind list_bind].
  pose proof (le_value_range ph f o 4) as Hr. unfold u32 at 1. rewrite Z.mod_small by done.
  destruct (decide (j < 4)%nat).
  - rewrite lookup_total_app_l by (rewrite length_le_bytes; lia). by rewrite le_bytes_value.
  - rewrite lookup_total_app_r by (rewrite length_le_bytes; lia). rewrite length_le_bytes.
    fold (bytes_of (mem_words ph f (o + 4) n)). rewrite IH by lia. f_equal. lia.
Qed.

(** ** Calls *)

(** Disk [p] is the drive behind channel [c]. *)
Record attached (s : devices) (d : dev) (o : gmap Z disk_obj) (p : Z) (ad : ata_disk) : Prop := {
  at_obj : o !! p = Some (ata_ops ad);
  at_chan : channels s !! chan ad = Some c;
  at_drive : drive ad = 0 ∨ drive ad = 1;
  at_unit : unit_no (ide_of d) = drive ad;
  at_size : ata_sect_size ad = 512;
}.

(** The drive [i'] is [i] in the middle of transfer [x]. *)
Record in_transfer (i : ide) (x : transfer) (b : nat) (i' : ide) : Prop := {
  tr_unit : unit_no i' = unit_no i;
  tr_latency : latency i' = latency i;
  tr_platter : platter i' = platter i;
  tr_xfer : xfer i' = x;
  tr_busy : busy i' = b;
}.

Lemma words_from_ext i i' lba n : platter i' = platter i → words_from i' lba n = words_from i lba n.
Proof. intros E. revert lba. induction n as [|n IH]; intros lba; simpl; [done|]. unfold sector. by rewrite E, IH. Qed.

Lemma attached_st s d o p ad st d' : attached s d o p ad → unit_no (ide_of d') = unit_no (ide_of d) →
  attached s d' (<[p := ata_ops (set_ata_st st ad)]> o) p (set_ata_st st ad).
Proof. intros [Ho Hc Hd Hu Hs] E. split; simpl; try done; [apply lookup_insert_eq|congruence]. Qed.

(** The number of sectors the drive understands. *)
Definition sectors (count : Z) : nat := if u8 count =? 0 then 256 else Z.to_nat (u8 count).

(** The common start of both calls on an idle disk. *)
Lemma issue_spec fuel p ad count addr cmd st s d k o : attached s d o p ad → (busy (ide_of d) < fuel)%nat → 0 ≤ addr →
  cmd = ATA_CMD_READ ∧ st = ATA_READ ∨ cmd = ATA_CMD_WRITE ∧ st = ATA_WRITE →
  wp (select_drive c ad;; ata_wait_ready fuel c false;; ata_request c ad count addr cmd;; ata_set_st p st;; mret (- EAGAIN))
    (λ r s', r = - EAGAIN ∧ ∃ d', s' = upd s d' k (<[p := ata_ops (set_ata_st st ad)]> o) ∧
      in_transfer (ide_of d) (if cmd =? ATA_CMD_READ then Reading (words_from (ide_of d) (addr `mod` 2 ^ 28) (sectors count))
        else Writing (addr `mod` 2 ^ 28) (sectors count) []) (latency (ide_of d)) (ide_of d')) (upd s d k o).
Proof.
  intros [Ho Hc Hd Hu Hs] Hb Ha Hcmd. wp_step. apply select_spec; [done|]. intros d1 E1.
  wp_step. apply ata_ready_spec; [by rewrite E1; apply sel_selected|by rewrite E1|]. intros d2 E2.
  wp_step. apply request_spec. intros d3 E3.
  destruct (task_file_selected count addr (drive ad) (ide_of d2)) as [S1 S2]; [done|by rewrite E2, E1|].
  pose proof (task_file_lba count addr (drive ad) (ide_of d2) Hd Ha) as El.
  wp_step. eapply wp_set_st; [done|]. wp_step. split; [done|]. exists d3. split; [done|].
  rewrite E3. unfold command. rewrite S1. replace (busy (task_file count addr (drive ad) (ide_of d2))) with 0%nat by (by rewrite E2).
  rewrite S2, El. cbn [Nat.eqb andb].
  destruct Hcmd as [[-> ->] | [-> ->]].
  - change (u8 ATA_CMD_READ =? ATA_CMD_READ) with true. split; cbn; try (by rewrite E2, E1).
    f_equal. apply words_from_ext. by rewrite E2, E1.
  - change (u8 ATA_CMD_WRITE =? ATA_CMD_READ) with false. change (u8 ATA_CMD_WRITE =? ATA_CMD_WRITE) with true.
    split; cbn; try (by rewrite E2, E1).
Qed.

Lemma ata_poll_spec p ad Q s d k o : attached s d o p ad → selected (ide_of d) = true →
  (∀ d', ide_of d' = set_busy (pred (busy (ide_of d))) (ide_of d) → Q (Nat.eqb (busy (ide_of d)) 0) (upd s d' k o)) →
  wp (ata_poll p) Q (upd s d k o).
Proof.
  intros [Ho Hc Hd Hu Hs] Hsel HQ. unfold ata_poll. wp_step. eapply wp_ata_get; [done|]. wp_step.
  eapply wp_chan_get; [done|]. wp_step. apply wp_status. intros d' E. wp_step. rewrite ready_status by done.
  apply HQ. rewrite E. unfold status. rewrite Hsel. destruct (busy (ide_of d)) eqn:Eb; [|done].
  simpl. rewrite <-Eb. by destruct (ide_of d).
Qed.

(** A call on a disk that is reading: it transfers one sector once the drive
    is ready. *)
Lemma read_again T fuel p ad buf len f count addr ws s d k o : attached s d o p ad → ata_st ad = ATA_READ →
  page_buf T k buf len f → 512 ≤ len → xfer (ide_of d) = rest ws → (128 ≤ length ws)%nat →
  wp (ata_read fuel p buf count addr) (λ r s', ∃ d', unit_no (ide_of d') = unit_no (ide_of d) ∧
    latency (ide_of d') = latency (ide_of d) ∧ platter (ide_of d') = platter (ide_of d) ∧
    match busy (ide_of d) with
    | S b => r = - EAGAIN ∧ s' = upd s d' k o ∧ busy (ide_of d') = b ∧ xfer (ide_of d') = rest ws
    | O => r = s64 (count * 512) ∧ busy (ide_of d') = 0%nat ∧ xfer (ide_of d') = rest (drop 128 ws) ∧
        ∃ k', s' = upd s d' k' (<[p := ata_ops (set_ata_st ATA_IDLE ad)]> o) ∧
          wrote k f (place buf 0) (bytes_of (take 128 ws)) k' ∧ page_buf T k' buf len f
    end) (upd s d k o).
Proof.
  intros Hat Hst Hb Hl Hx Hw. pose proof Hat as [Ho Hc Hd Hu Hs]. unfold ata_read.
  wp_step. eapply wp_ata_get; [done|]. wp_step. eapply wp_chan_get; [done|]. wp_step. apply select_spec; [done|].
  intros d1 E1. rewrite Hst. cbn [decide]. rewrite decide_False by done. rewrite bool_decide_true by done. cbn [negb].
  wp_step. eapply (ata_poll_spec p ad).
  - split; try done. by rewrite E1.
  - rewrite E1. by apply sel_selected.
  - intros d2 E2. replace (busy (ide_of d1)) with (busy (ide_of d)) in * by (by rewrite E1).
    destruct (busy (ide_of d)) as [|b] eqn:Eb; cbn [Nat.eqb negb].
    + wp_step. rewrite Hs. change (Z.to_nat (512 / 4)) with 128%nat. replace buf with (buf + 0) at 1 by lia.
      eapply wp_mono; [apply (insl_spec T 128 buf len f 0 ws); [done|lia|lia| |lia]|].
      * by rewrite E2, E1.
      * cbv beta. intros [] s3 (d3 & k3 & -> & E3 & W3 & B3). wp_step. eapply wp_set_st; [done|]. wp_step.
        exists d3. rewrite E3, E2, E1. repeat split; try done. exists k3. done.
    + wp_step. exists d2. by rewrite E2, E1.
Qed.

(** A call on a disk that is writing one sector. *)
Lemma write_again T fuel p ad buf len f addr lba s d k o : attached s d o p ad → ata_st ad = ATA_WRITE →
  page_buf T k buf len f → 512 ≤ len → xfer (ide_of d) = Writing lba 1 [] → (0 < fuel)%nat → (latency (ide_of d) < fuel)%nat →
  wp (ata_write fuel p buf 1 addr) (λ r s', ∃ d', unit_no (ide_of d') = unit_no (ide_of d) ∧
    latency (ide_of d') = latency (ide_of d) ∧
    match busy (ide_of d) with
    | S b => r = - EAGAIN ∧ s' = upd s d' k o ∧ busy (ide_of d') = b ∧ xfer (ide_of d') = Writing lba 1 [] ∧
        platter (ide_of d') = platter (ide_of d)
    | O => r = 512 ∧ busy (ide_of d') = 0%nat ∧ xfer (ide_of d') = NoTransfer ∧
        s' = upd s d' k (<[p := ata_ops (set_ata_st ATA_IDLE ad)]> o) ∧
        platter (ide_of d') = <[lba := mem_words (phys (km k)) f (place buf 0) 128]> (platter (ide_of d))
    end) (upd s d k o).
Proof.
  intros Hat Hst Hb Hl Hx Hf Hlat. pose proof Hat as [Ho Hc Hd Hu Hs]. unfold ata_write.
  wp_step. eapply wp_ata_get; [done|]. wp_step. eapply wp_chan_get; [done|]. wp_step. apply select_spec; [done|].
  intros d1 E1. rewrite Hst. rewrite decide_False by done. rewrite bool_decide_true by done. cbn [negb].
  wp_step. eapply (ata_poll_spec p ad).
  - split; try done. by rewrite E1.
  - rewrite E1. by apply sel_selected.
  - intros d2 E2. replace (busy (ide_of d1)) with (busy (ide_of d)) in * by (by rewrite E1).
    destruct (busy (ide_of d)) as [|b] eqn:Eb; cbn [Nat.eqb negb].
    + wp_step. apply select_spec; [done|]. intros d3 E3.
      assert (selected (ide_of d3) = true ∧ busy (ide_of d3) = 0%nat) as [S3 B3].
      { rewrite E3, E2, E1. split; [by apply sel_selected|done]. }
      wp_step. apply ata_ready_spec; [done|lia|]. intros d4 E4. wp_step. rewrite Hs.
      change (Z.to_nat (u64 (1 * 512) / 4)) with 128%nat. replace buf with (buf + 0) at 1 by lia.
      eapply wp_mono; [apply (outsl_spec T 128 buf len f 0 lba []); [done|lia|lia| |lia|done]|].
      * by rewrite E4, E3, E2, E1.
      * cbv beta. intros [] s5 (d5 & -> & E5). wp_step. eapply wp_set_st; [done|].
        wp_step. apply ata_ready_spec; [rewrite E5, E4; apply S3|rewrite E5, E4; simpl; lia|]. intros d6 E6.
        wp_step. apply wp_out8. intros d7 E7. destruct (ide_out_regs (u8 ATA_CMD_FLUSH) (ide_of d6)) as (_&_&_&_&_&Ec).
        rewrite Ec in E7. unfold command in E7. cbn in E7.
        assert (selected (ide_of d6) = true ∧ busy (ide_of d6) = 0%nat) as [S6 B6] by (rewrite E6, E5, E4; split; [apply S3|done]).
        rewrite S6, B6 in E7. cbn in E7.
        wp_step. apply ata_ready_spec; [rewrite E7; apply S6|rewrite E7, E6, E5, E4, E3, E2, E1; simpl; lia|]. intros d8 E8.
        wp_step. exists d8. rewrite E8, E7, E6, E5, E4, E3, E2, E1.
        cbn [set_busy set_xfer set_platter sel set_regs unit_no latency busy xfer platter]. by rewrite app_nil_l.
    + wp_step. exists d2. by rewrite E2, E1.
Qed.
End driver.
