(* ===== verification/AtaSpec.v ===== *)
(** * Transfers to and from an ATA disk

    A caller repeats a transfer until the driver stops answering [-EAGAIN].
    The theorems relate what ends up in memory and on the disk to what was
    there before. *)

From S2P Require Import Prelude LinkedList Paging CString Spinlock Buddy BuddySpec RbTree Kernel PageWalk AddrSpace PageTable PageTableProofs PageMap PageTableSpec Slab Vma Console Task Devices Ata ByteMem AtaProofs.

Local Open Scope Z_scope.

Section transfers.
Context `{Layout} `{VmaNames} `{Bus} `{SchedLayout}.

(** Repeat a call while it asks to be called again. *)
Fixpoint until_done (n : nat) (call : M devices Z) : M devices Z :=
  match n with
  | O => halt NoFuel
  | S n => r ← call; if r =? - EAGAIN then until_done n call else mret r
  end.

Context (c : ata_chan) `{!Drive c}.

(** The disk is idle and its drive gets ready while the driver waits. *)
Record idle_disk (fuel : nat) (s : devices) (p : Z) (ad : ata_disk) : Prop := {
  id_attached : attached c s (dv s) (disk_objs s) p ad;
  id_state : ata_st ad = ATA_IDLE;
  id_busy : (busy (ide_of (dv s)) < fuel)%nat;
  id_latency : (latency (ide_of (dv s)) < fuel)%nat;
}.

Lemma idle_upd fuel s p ad d k st : (latency (ide_of (dv s)) < fuel)%nat →
  attached c s (dv s) (disk_objs s) p ad → unit_no (ide_of d) = unit_no (ide_of (dv s)) →
  latency (ide_of d) = latency (ide_of (dv s)) → busy (ide_of d) = 0%nat →
  idle_disk fuel (upd s d k (<[p := ata_ops (set_ata_st ATA_IDLE (set_ata_st st ad))]>
    (<[p := ata_ops (set_ata_st st ad)]> (disk_objs s)))) p (set_ata_st ATA_IDLE ad).
Proof.
  intros Hl [Ho Hc Hd Hu Hs] Eu El Eb. split; [split|..]; try done; simpl.
  - apply lookup_insert_eq.
  - by rewrite <-Hu.
  - change (dv (upd s d k _)) with d. rewrite Eb. lia.
  - change (dv (upd s d k _)) with d. by rewrite El.
Qed.

(** Reading, from the second call on. *)
Lemma read_rest T fuel n p ad buf len f count addr ws s d k o :
  attached c s d o p ad → ata_st ad = ATA_READ → page_buf T k buf len f → 512 ≤ len → xfer (ide_of d) = rest ws →
  (128 ≤ length ws)%nat → (busy (ide_of d) < n)%nat → 0 ≤ count < 2 ^ 32 →
  wp (until_done n (ata_read fuel p buf count addr)) (λ r s', r = count * 512 ∧ ∃ d' k',
    s' = upd s d' k' (<[p := ata_ops (set_ata_st ATA_IDLE ad)]> o) ∧ unit_no (ide_of d') = unit_no (ide_of d) ∧
    latency (ide_of d') = latency (ide_of d) ∧ platter (ide_of d') = platter (ide_of d) ∧ busy (ide_of d') = 0%nat ∧
    xfer (ide_of d') = rest (drop 128 ws) ∧ wrote k f (place buf 0) (bytes_of (take 128 ws)) k' ∧ page_buf T k' buf len f)
    (upd s d k o).
Proof.
  revert d. induction n as [|n IH]; intros d Hat Hst Hb Hl Hx Hw Hn Hc; [lia|]. cbn [until_done]. wp_step.
  eapply wp_mono; [by eapply (read_again c T fuel p ad buf len f count addr ws)|]. cbv beta.
  intros r s1 (d1 & E1 & E2 & E3 & Hm). destruct (busy (ide_of d)) as [|b] eqn:Eb.
  - destruct Hm as (-> & E4 & E5 & k1 & -> & W & B). unfold s64. rewrite Z.mod_small by lia.
    rewrite (proj2 (Z.eqb_neq _ _)) by (unfold EAGAIN; lia). wp_step. split; [lia|]. exists d1, k1. done.
  - destruct Hm as (-> & -> & E4 & E5). rewrite Z.eqb_refl.
    eapply wp_mono; [apply (IH d1); [|done..|lia|done]|].
    + destruct Hat as [Ho Hch Hd Hu Hs]. split; try done. congruence.
    + cbv beta. rewrite E1, E2, E3. intros r s2 Hp. exact Hp.
Qed.

Lemma write_rest T fuel n p ad buf len f addr lba s d k o :
  attached c s d o p ad → ata_st ad = ATA_WRITE → page_buf T k buf len f → 512 ≤ len → xfer (ide_of d) = Writing lba 1 [] →
  (latency (ide_of d) < fuel)%nat → (busy (ide_of d) < n)%nat →
  wp (until_done n (ata_write fuel p buf 1 addr)) (λ r s', r = 512 ∧ ∃ d',
    s' = upd s d' k (<[p := ata_ops (set_ata_st ATA_IDLE ad)]> o) ∧ unit_no (ide_of d') = unit_no (ide_of d) ∧
    latency (ide_of d') = latency (ide_of d) ∧ busy (ide_of d') = 0%nat ∧
    platter (ide_of d') = <[lba := mem_words (phys (km k)) f (place buf 0) 128]> (platter (ide_of d)))
    (upd s d k o).
Proof.
  revert d. induction n as [|n IH]; intros d Hat Hst Hb Hl Hx Hf Hn; [lia|]. cbn [until_done]. wp_step.
  eapply wp_mono; [eapply (write_again c T fuel p ad buf len f addr lba); eauto with lia|]. cbv beta.
  intros r s1 (d1 & E1 & E2 & Hm). destruct (busy (ide_of d)) as [|b] eqn:Eb.
  - destruct Hm as (-> & E4 & E5 & -> & E6). rewrite (proj2 (Z.eqb_neq _ _)) by (unfold EAGAIN; lia).
    wp_step. split; [done|]. exists d1. done.
  - destruct Hm as (-> & -> & E4 & E5 & E6). rewrite Z.eqb_refl.
    eapply wp_mono; [apply (IH d1); [|done..|by rewrite E2|lia]|].
    + destruct Hat as [Ho Hch Hd Hu Hs]. split; try done. congruence.
    + cbv beta. rewrite E1, E2, E6. intros r s2 Hp. exact Hp.
Qed.

(** Whole transfers. *)
Lemma read_spec T fuel n s p ad buf len f count addr :
  idle_disk fuel s p ad → page_buf T (kn s) buf len f → 512 ≤ len → 0 ≤ addr → 0 ≤ count < 2 ^ 32 →
  (∀ l, length (sector (ide_of (dv s)) l) = 128%nat) → (S (latency (ide_of (dv s))) < n)%nat →
  wp (until_done n (ata_read fuel p buf count addr)) (λ r s', r = count * 512 ∧
    idle_disk fuel s' p (set_ata_st ATA_IDLE ad) ∧ platter (ide_of (dv s')) = platter (ide_of (dv s)) ∧
    xfer (ide_of (dv s')) = rest (words_from (ide_of (dv s)) (addr `mod` 2 ^ 28 + 1) (pred (sectors count))) ∧
    wrote (kn s) f (place buf 0) (bytes_of (sector (ide_of (dv s)) (addr `mod` 2 ^ 28))) (kn s') ∧
    page_buf T (kn s') buf len f) s.
Proof.
  intros [Hat Hst Hb Hl] Hbuf Hlen Ha Hc Hsec Hn. destruct n as [|n]; [lia|]. cbn [until_done]. wp_step.
  rewrite (upd_self s) at 1. unfold ata_read at 1. wp_step. eapply wp_ata_get; [apply Hat|].
  wp_step. eapply wp_chan_get; [apply Hat|]. rewrite Hst. rewrite decide_True by done.
  eapply wp_mono; [apply (issue_spec c fuel p ad count addr ATA_CMD_READ ATA_READ); auto|]. cbv beta.
  intros r s1 (-> & d1 & -> & [Tu Tl Tp Tx Tb]). rewrite Z.eqb_refl.
  destruct (sectors count) as [|m] eqn:Em.
  { unfold sectors in Em. destruct (u8 count =? 0) eqn:E0; [done|]. apply Z.eqb_neq in E0.
    assert (0 ≤ u8 count) by (apply Z.mod_pos_bound; lia). lia. }
  cbn in Tx. set (ws := sector (ide_of (dv s)) (addr `mod` 2 ^ 28)) in *.
  assert (length ws = 128%nat) as Hws by apply Hsec.
  eapply wp_mono; [eapply (read_rest T fuel n p (set_ata_st ATA_READ ad) buf len f count addr
    (ws ++ words_from (ide_of (dv s)) (addr `mod` 2 ^ 28 + 1) m)); try done|].
  - by apply (attached_st c s (dv s)).
  - rewrite Tx. destruct ws; [done|]. done.
  - rewrite length_app. lia.
  - rewrite Tb. lia.
  - cbv beta. intros r s2 (-> & d2 & k2 & -> & E1 & E2 & E3 & E4 & E5 & W & B). split; [done|]. split.
    { apply idle_upd; [done..|congruence|congruence|done]. }
    change (dv (upd s d2 k2 _)) with d2. change (kn (upd s d2 k2 _)) with k2.
    split; [congruence|]. rewrite drop_app_ge, take_app_le, take_ge in * by lia. rewrite Hws, Nat.sub_diag in E5. done.
Qed.

Lemma write_spec T fuel n s p ad buf len f addr :
  idle_disk fuel s p ad → page_buf T (kn s) buf len f → 512 ≤ len → 0 ≤ addr → (S (latency (ide_of (dv s))) < n)%nat →
  wp (until_done n (ata_write fuel p buf 1 addr)) (λ r s', r = 512 ∧ idle_disk fuel s' p (set_ata_st ATA_IDLE ad) ∧
    kn s' = kn s ∧ latency (ide_of (dv s')) = latency (ide_of (dv s)) ∧
    platter (ide_of (dv s')) = <[addr `mod` 2 ^ 28 := mem_words (phys (km (kn s))) f (place buf 0) 128]>
      (platter (ide_of (dv s)))) s.
Proof.
  intros [Hat Hst Hb Hl] Hbuf Hlen Ha Hn. destruct n as [|n]; [lia|]. cbn [until_done]. wp_step.
  rewrite (upd_self s) at 1. unfold ata_write at 1. wp_step. eapply wp_ata_get; [apply Hat|].
  wp_step. eapply wp_chan_get; [apply Hat|]. rewrite Hst. rewrite decide_True by done.
  eapply wp_mono; [apply (issue_spec c fuel p ad 1 addr ATA_CMD_WRITE ATA_WRITE); auto|]. cbv beta.
  intros r s1 (-> & d1 & -> & [Tu Tl Tp Tx Tb]). rewrite Z.eqb_refl. change (sectors 1) with 1%nat in Tx.
  eapply wp_mono; [eapply (write_rest T fuel n p (set_ata_st ATA_WRITE ad) buf len f addr (addr `mod` 2 ^ 28)); try done|].
  - by apply (attached_st c s (dv s)).
  - by rewrite Tl.
  - rewrite Tb. lia.
  - cbv beta. intros r s2 (-> & d2 & -> & E1 & E2 & E3 & E4). split; [done|]. split.
    { apply idle_upd; [done..|congruence|congruence|done]. }
    change (dv (upd s d2 _ _)) with d2. split; [done|]. rewrite E2, E4, Tp. done.
Qed.

(** C28 (roundtrip).  A sector that is written and read back, through the same
    or another buffer, has the bytes that were in the first buffer; both calls
    report 512 bytes, no other sector changes, and the disk is idle again.
    This holds for every drive that implements the task file and transfers
    words as the ATA standard says, however long it stays busy. *)
Theorem ata_write_read_roundtrip T fuel n s p ad buf f buf' f' addr :
  idle_disk fuel s p ad → page_buf T (kn s) buf 512 f → page_buf T (kn s) buf' 512 f' → 0 ≤ addr →
  (∀ l, length (sector (ide_of (dv s)) l) = 128%nat) → (S (latency (ide_of (dv s))) < n)%nat →
  wp (w ← until_done n (ata_write fuel p buf 1 addr); r ← until_done n (ata_read fuel p buf' 1 addr); mret (w, r))
    (λ wr s', wr = (512, 512) ∧ idle_disk fuel s' p ad ∧
      (∀ j, 0 ≤ j < 512 → mem_byte (phys (km (kn s'))) f' (place buf' j) = mem_byte (phys (km (kn s))) f (place buf j)) ∧
      (∀ l, l ≠ addr `mod` 2 ^ 28 → sector (ide_of (dv s')) l = sector (ide_of (dv s)) l)) s.
Proof.
  intros Hi Hb Hb' Ha Hs Hn. assert (set_ata_st ATA_IDLE ad = ad) as Ead.
  { destruct Hi as [_ E _ _]. rewrite <-E. by destruct ad. }
  wp_step. eapply wp_mono; [apply (write_spec T fuel n s p ad buf 512 f addr); auto with lia|]. cbv beta.
  rewrite Ead. intros w s1 (-> & Hi1 & Ek & El & Ep).
  assert (∀ l, length (sector (ide_of (dv s1)) l) = 128%nat) as Hs1.
  { intros l. unfold sector. rewrite Ep. destruct (decide (l = addr `mod` 2 ^ 28)) as [->|Hl].
    - rewrite lookup_insert_eq. apply length_mem_words.
    - rewrite lookup_insert_ne by done. apply Hs. }
  wp_step. eapply wp_mono; [apply (read_spec T fuel n s1 p ad buf' 512 f' 1 addr); rewrite ?Ek, ?El; auto with lia|].
  - cbv beta. rewrite Ead. intros r s2 (-> & Hi2 & Ep2 & _ & W & _). wp_step.
    assert (sector (ide_of (dv s1)) (addr `mod` 2 ^ 28) = mem_words (phys (km (kn s))) f (place buf 0) 128) as Esec
      by (unfold sector; by rewrite Ep, lookup_insert_eq).
    rewrite Esec in W. destruct W as [_ W _]. split; [done|]. split; [done|]. split.
    + intros j Hj. assert (0 ≤ buf' `mod` PAGE_SIZE) by (by apply Z.mod_pos_bound).
      rewrite W by lia. rewrite decide_True by (rewrite length_bytes_of, length_mem_words; lia).
      rewrite bytes_of_mem by lia. f_equal. lia.
    + intros l Hl. unfold sector. rewrite Ep2, Ep. by rewrite lookup_insert_ne.
Qed.

(** A read of two or more sectors reports the bytes of all of them
    ([count * 512]) but stores only the first sector in the buffer: the driver
    considers the disk idle while the drive still holds the other sectors. *)
Theorem ata_read_loses_sectors T fuel n s p ad buf f count addr :
  idle_disk fuel s p ad → page_buf T (kn s) buf 4096 f → 0 ≤ addr → 2 ≤ count < 256 →
  (∀ l, length (sector (ide_of (dv s)) l) = 128%nat) → (S (latency (ide_of (dv s))) < n)%nat →
  wp (until_done n (ata_read fuel p buf count addr)) (λ r s', r = count * 512 ∧ idle_disk fuel s' p ad ∧
      (∀ j, 512 ≤ j < 4096 → mem_byte (phys (km (kn s'))) f (place buf j) = mem_byte (phys (km (kn s))) f (place buf j)) ∧
      xfer (ide_of (dv s')) =
        Reading (words_from (ide_of (dv s)) (addr `mod` 2 ^ 28 + 1) (Z.to_nat count - 1))) s.
Proof.
  intros Hi Hb Ha Hc Hs Hn. assert (set_ata_st ATA_IDLE ad = ad) as Ead.
  { destruct Hi as [_ E _ _]. rewrite <-E. by destruct ad. }
  eapply wp_mono; [apply (read_spec T fuel n s p ad buf 4096 f count addr); auto with lia|]. cbv beta.
  rewrite Ead. intros r s1 (-> & Hi1 & Ep & Ex & [_ W _] & _). split; [done|]. split; [done|]. split.
  - intros j Hj. assert (0 ≤ buf `mod` PAGE_SIZE) by (by apply Z.mod_pos_bound).
    rewrite W by lia. by rewrite decide_False by (rewrite length_bytes_of, Hs; lia).
  - rewrite Ex. unfold sectors, u8. rewrite (Z.mod_small count) by lia. rewrite (proj2 (Z.eqb_neq _ _)) by lia.
    rewrite Nat.sub_1_r. destruct (Z.to_nat count) as [|[|m]] eqn:Em; [lia|lia|]. cbn [pred words_from].
    specialize (Hs (addr `mod` 2 ^ 28 + 1)). by destruct (sector _ _).
Qed.
End transfers.

(** ** A concrete machine: the primary channel with an empty disk, and the
    address space of PageTableSpec.v *)

#[local] Existing Instance demo_layout.
#[local] Instance ata_demo_names : VmaNames := {|
  str_rmap := 1; str_user := 2; file_insert := 3; file_populate := 4; file_pfault := 5; file_rmap := 6 |}.
#[local] Instance ata_demo_sched : SchedLayout := {|
  runq := 0x500; str_text := 7; str_data := 8; str_rodata := 9; str_stack := 10; str_runq_lock := 11;
  str_debug_lock := 12; file_sched := 13; file_task_util := 14; file_fork := 15 |}.

Definition primary : ata_chan := AtaChan 0x1f0 0x1f1 0x1f2 0x1f3 0x1f4 0x1f5 0x1f6 0x1f7 0x3f6.

#[local] Instance ata_demo_ports : Ports := {|
  dev := ide;
  in_port p i := if p =? ch_cmd primary then status i else (0, i);
  out_port p v i := ide_out primary p v i;
  open_bus := 0xFFFF |}.
#[local] Instance ata_demo_bus : Bus := {|
  in_wide w p i := if p =? ch_data primary then data_in i else (0, i);
  out_wide w p v i := if p =? ch_data primary then data_out v i else i;
  mmio_in _ _ i ph := (0, i, ph);
  mmio_out _ _ _ i ph := (i, ph) |}.

#[local] Instance ata_demo_drive : Drive primary.
Proof.
  refine {| ide_of := id |}.
  - done.
  - intros d. split; [|done]. cbn. unfold status. destruct (selected d), (busy d), (xfer d); by vm_compute.
  - done.
  - done.
  - apply (bool_decide_unpack _). by vm_compute.
Defined.

Definition demo_ide : ide := Ide 0 2 0 0 0 0 0 0 NoTransfer ∅.
Definition demo_devices : devices :=
  Devices _ (Sched _
      (Kernel (Mem ∅ ∅ 0 demo_n (SpinLock 0 0 0 0 0) demo_phys 0) (Rbs ∅ ∅) ∅ ∅ ∅ ∅ ∅ ∅ ∅ (SpinLock 0 0 0 0 0)
        (16 * PAGE_SIZE) ∅ 0 0)
      (Console _ demo_ide ∅ true CGA_BASE 0xB8000 0 0 [] 0 0 []) ∅ 0 0 1 (SpinLock 0 0 0 0 0) (SpinLock 0 0 0 0 0) 0 0)
    ∅ {[ 0x9000 := ata_ops (AtaDisk 0 0 ATA_IDLE 1024 512) ]} [0x9000] 1 [primary; chan0] 0.

Lemma demo_idle : idle_disk primary 4 demo_devices 0x9000 (AtaDisk 0 0 ATA_IDLE 1024 512).
Proof. split; [split|..]; try done; [by left|cbn; lia..]. Qed.

Lemma demo_buf i n : 0 ≤ i → 0 < n → i + n ≤ 4096 → page_buf demo_tables (kn demo_devices) (1024 * PAGE_SIZE + i) n 20.
Proof.
  intros Hi Hp Hn. split.
  - exact demo_pt_ok.
  - change PAGE_SIZE with 4096. rewrite Z.add_comm, Z.mod_add by lia. rewrite Z.mod_small by lia. lia.
  - exists (make_entry 20 7). replace (PAGE_INDEX (1024 * PAGE_SIZE + i)) with 1024 by
      (rewrite PAGE_INDEX_div; change PAGE_SIZE with 4096; mlia). done.
  - intros q g Hg%demo_tables_lookup. lia.
Qed.

Lemma demo_sectors l : length (sector (ide_of (Drive := ata_demo_drive) (dv demo_devices)) l) = 128%nat.
Proof. done. Qed.

Lemma ata_write_read_roundtrip_witness :
  wp (w ← until_done 5 (ata_write 4 0x9000 (1024 * PAGE_SIZE + 0) 1 77);
      r ← until_done 5 (ata_read 4 0x9000 (1024 * PAGE_SIZE + 512) 1 77); mret (w, r))
    (λ wr s', wr = (512, 512) ∧ idle_disk primary 4 s' 0x9000 (AtaDisk 0 0 ATA_IDLE 1024 512)) demo_devices.
Proof.
  eapply wp_mono; [apply (ata_write_read_roundtrip primary demo_tables 4 5 demo_devices 0x9000
    (AtaDisk 0 0 ATA_IDLE 1024 512) (1024 * PAGE_SIZE + 0) 20 (1024 * PAGE_SIZE + 512) 20 77)|].
  - exact demo_idle.
  - apply demo_buf; lia.
  - apply demo_buf; lia.
  - lia.
  - exact demo_sectors.
  - cbn. lia.
  - cbv beta. intros wr s' (-> & Hi & _). done.
Defined.

Lemma ata_read_loses_sectors_witness :
  wp (until_done 5 (ata_read 4 0x9000 (1024 * PAGE_SIZE + 0) 8 77)) (λ r s', r = 4096 ∧
    xfer (ide_of (Drive := ata_demo_drive) (dv s')) = Reading (words_from demo_ide 78 7)) demo_devices.
Proof.
  eapply wp_mono; [apply (ata_read_loses_sectors primary demo_tables 4 5 demo_devices 0x9000
    (AtaDisk 0 0 ATA_IDLE 1024 512) (1024 * PAGE_SIZE + 0) 20 8 77)|].
  - exact demo_idle.
  - apply demo_buf; lia.
  - lia.
  - lia.
  - exact demo_sectors.
  - cbn. lia.
  - cbv beta. intros r s' (-> & _ & _ & Hx). done.
Defined.
