(* ===== verification/Oom.v ===== *)
(** * The out-of-memory killer (kernel/dev/oom.c)

    A kernel thread that destroys the task with the most memory when little is
    left.  [console_lock] only keeps its messages together. *)

From S2P Require Import Prelude LinkedList Paging Spinlock Buddy RbTree Kernel PageWalk PageTable Slab Vma Console Task Sched.

Local Open Scope Z_scope.

Definition MEMORY_THRESHOLD : Z := 30000 * PAGE_SIZE.

Section oom.
Context `{Layout} `{VmaNames} `{Ports} `{SchedLayout}.

(** ** Scores: [udata] is [oom_score] of [struct oom_info] *)

Definition read_all_pte (entry base end_ : Z) : M (kernel * Z) Z :=
  e ← mcall (read_word entry);
  (if has e PAGE_PRESENT then n ← udata; set_udata (s32 (n + 1)) else mret tt);;
  mret 0.

Definition oom_walker : page_walker Z :=
  Walker (Some read_all_pte) None None None None None None None None.

Definition get_oom_score (task : Z) : M kernel Z :=
  t ← task_get task;
  '(ret, oom_score) ← with_udata 0 (walk_all_pages (task_pml4 t) oom_walker);
  if ret <? 0 then mret (-1) else mret oom_score.

(** ** Choosing a victim: the loop of [oom_kill] over the PIDs from [pid] on *)

Fixpoint oom_select (n : nat) (pid victim highest : Z) : M sched Z :=
  match n with
  | O => mret victim
  | S n =>
      task ← pid2task pid false;
      if task =? NULL then oom_select n (pid + 1) victim highest
      else
        t ← kern (task_get task);
        if task_type t =? TASK_TYPE_KERNEL then oom_select n (pid + 1) victim highest
        else
          score ← kern (get_oom_score task);
          if score <? 0 then oom_select n (pid + 1) victim highest
          else if highest <? score then oom_select n (pid + 1) task score
          else oom_select n (pid + 1) victim highest
  end.

Definition oom_kill (fuel : nat) : M sched unit :=
  task_to_delete ← oom_select (Z.to_nat (pid_max - 1)) 1 NULL 0;
  assert (negb (task_to_delete =? NULL));;
  task_destroy (sched_yield fuel) task_to_delete.

(** ** Free memory: [cnt_per_order] counts the nodes of a list, the product is
    one of [int]; [pa_max] is never read *)

Fixpoint free_memory_from (n : nat) (order free_memory total : Z) : M mem Z :=
  match n with
  | O => mret free_memory
  | S n =>
      l ← on_heap (list_foreach (free_list order));
      let free_memory := u64 (s32 (Z.shiftl 1 order * Z.of_nat (length l) * PAGE_SIZE)) in
      free_memory_from n (order + 1) free_memory (u64 (total + free_memory))
  end.
(** [junk] is what [free_memory] holds before the loop. *)
Definition get_total_free_memory (junk : Z) : M mem Z :=
  free_memory_from (Z.to_nat BUDDY_MAX_ORDER) 0 junk 0.

(** Whether one of the tasks from [pid] on is dying: the loop of [oom_thread]
    and [swap_thread], which then yield and, as [sched_yield] does not return,
    go no further. *)
Fixpoint dying_from (yield : M sched unit) (n : nat) (pid : Z) : M sched unit :=
  match n with
  | O => mret tt
  | S n =>
      task ← pid2task pid false;
      (if task =? NULL then mret tt
       else
         t ← kern (task_get task);
         if task_status t =? TASK_DYING then yield else mret tt);;
      dying_from yield n (pid + 1)
  end.

(** [self] is the address of [oom_thread]. *)
Definition oom_thread (fuel : nat) (junk self : Z) : M sched unit :=
  dying_from (sched_yield fuel) (Z.to_nat (pid_max - 1)) 1;;
  free_memory ← kern (on_km (get_total_free_memory junk));
  (if free_memory <? MEMORY_THRESHOLD then oom_kill fuel else mret tt);;
  cur ← kern cur_task;
  kern (task_upd cur (λ t, set_task_frame (set_rsp KERNEL_STACK_TOP (set_rip self (task_frame t))) t));;
  sched_yield fuel.
End oom.
