(* ===== verification/OomSpec.v ===== *)
(** * What the out-of-memory killer does

    Scores count mapped pages, the victim is a user task with the highest
    score, and the amount of free memory is that of the largest blocks only. *)

From S2P Require Import Prelude LinkedList Paging Spinlock Buddy BuddyProofs MemInit BuddySpec RbTree Kernel PageWalk PageWalkProofs PageWalkAll AddrSpace PageTable PageTableProofs PageMap PageRead PageTableSpec Slab Vma Console Task Sched Oom.

Local Open Scope Z_scope.

(** [l] lists the pages that the table rooted in frame [root] maps. *)
Definition mapped_pages (ph : physmem) (root : Z) (l : list Z) : Prop :=
  NoDup l ∧ ∀ j, j ∈ l ↔ canonical j ∧ is_Some (translate ph root j).

Section score.
Context (n root : Z) (T : tmap) (k : kernel).
Context (Hpt : pt_ok n T (phys (km k)) root) (Hn : npages (km k) = n) (Hsmall : n < 2 ^ 31).

(** The score after the pages before [j]. *)
Definition counted (j : Z) (s : kernel * Z) : Prop :=
  s.1 = k ∧ ∃ l, NoDup l ∧ s.2 = s32 (Z.of_nat (length l)) ∧
    ∀ i, i ∈ l ↔ canonical i ∧ i < j ∧ is_Some (view T (phys (km k)) i).

Lemma counted_skip j j' s : counted j s → j ≤ j' →
  (∀ i, j ≤ i < j' → canonical i → view T (phys (km k)) i = None) → counted j' s.
Proof.
  intros (E & l & Hnd & Es & Hl) Hj Hv. split; [done|]. exists l. split; [done|]. split; [done|]. intros i. rewrite Hl.
  split; [naive_solver lia|]. intros (Hc & Hi & Hs). destruct (decide (i < j)) as [|Hge]; [done|].
  rewrite Hv in Hs by (done || lia). by destruct Hs.
Qed.

Lemma counted_page j u : counted j (k, u) → canonical j → is_Some (view T (phys (km k)) j) → counted (j + 1) (k, s32 (u + 1)).
Proof.
  intros (_ & l & Hnd & Es & Hl) Hc Hv. simpl in Es. split; [done|]. exists (j :: l).
  split; [constructor; [rewrite Hl; lia|done]|]. split.
  - simpl. rewrite Es, s32_succ. f_equal. lia.
  - intros i. rewrite elem_of_cons, Hl. destruct (decide (i = j)) as [->|]; [|naive_solver lia]. split; [|by left].
    intros _. split; [done|]. split; [lia|done].
Qed.

Lemma oom_reader p q : one_half p q →
  reader_ok oom_walker n root T counted (λ _, True) (λ _ _, False) p q.
Proof.
  intros Hh. split; try done.
  - intros j [k' u] [Ek _]. simpl in *. by subst k'.
  - intros j [k' u] f next Hj [Ek HJ] _ Hf. simpl in Ek. subst k'. assert (counted j (k, u)) as HC by done.
    pose proof (view_entry T (phys (km k)) j f Hf) as Hv. assert (canonical j) as Hcan by (by eapply one_half_in).
    assert (0 ≤ f < npages (km k)) as Hfn by (rewrite Hn; by eapply pt_range).
    unfold ptbl_visit. rewrite PT_index. cbv zeta. apply wp_try. simpl call. unfold read_all_pte.
    wp_step. apply wp_mcall, wp_read_entry; [done|apply index_bounds|]. rewrite set_km_id. wp_step.
    assert (∀ u', counted (j + 1) (k, u') → wp (e ← mcall (read_word (entry_ptr (kva f) (i0 j)));
      if has e PAGE_PRESENT then try_ (call (pte_unmap oom_walker) (entry_ptr (kva f) (i0 j)) (4096 * j) (u64 (next - 1))) (mret 0)
      else try_ (call_hole oom_walker (4096 * j) (u64 (next - 1))) (mret 0))
      (λ r t, if r <? 0 then False else counted (j + 1) t) (k, u')) as Hrest.
    { intros u' Hu'. wp_step. apply wp_mcall, wp_read_entry; [done|apply index_bounds|]. rewrite set_km_id.
      case_match; apply wp_try; simpl; apply wp_ret; simpl; by apply wp_ret. }
    destruct (has (entry (phys (km k)) f (i0 j)) PAGE_PRESENT) eqn:Ep.
    + wp_step. apply wp_gets. apply wp_modify, wp_ret. simpl. apply Hrest. apply counted_page; [done..|by rewrite Hv].
    + apply wp_ret, wp_ret. simpl. apply Hrest. eapply counted_skip; [done|lia|].
      intros i Hi _. by replace i with j by lia.
  - intros j j' [k' u] e Hj Hj' HC Hhole. apply wp_ret. simpl. eapply counted_skip; [done|lia|].
    intros i Hi _. unfold view. by rewrite Hhole.
Qed.

Lemma score_walk : wp (walk_all_pages (kva root) oom_walker) (λ r t, r = 0 ∧ counted (2 ^ 52) t) (k, 0).
Proof.
  assert (T !! [] = Some root) as Hr by apply Hpt.
  apply (walk_all_rule oom_walker ltac:(done) _ counted).
  - eapply (read_visit3 _ n root T _ (λ _, True) (λ _ _, False) 0 low_pages); [apply oom_reader; unfold one_half; by left|..];
      try done. unfold one_half. by left.
  - eapply (read_visit3 _ n root T _ (λ _, True) (λ _ _, False) high_page (2 ^ 52)); [apply oom_reader; unfold one_half; by right|..];
      try done. unfold one_half. by right.
  - intros t Ht. eapply counted_skip; [done|done|]. unfold canonical, low_pages, high_page. lia.
  - done.
  - split; [done|]. exists []. split; [constructor|]. split; [done|]. intros i. rewrite elem_of_nil. unfold canonical. lia.
Qed.

Lemma score_spec task t : ktasks k !! task = Some t → task_pml4 t = kva root →
  ∃ l, mapped_pages (phys (km k)) root l ∧ get_oom_score task k = OK (s32 (Z.of_nat (length l))) k.
Proof.
  intros Ht Hp. destruct (wp_elim _ _ _ score_walk) as (r & [k' u] & E & -> & Ek & l & Hnd & Es & Hl). simpl in *. subst k' u.
  exists l. split.
  - split; [done|]. intros j. rewrite Hl, (translate_view _ _ _ _ _ Hpt). unfold canonical. naive_solver lia.
  - unfold get_oom_score, task_get, mbind, M_bind, deref, with_udata. rewrite Ht, Hp, E. done.
Qed.
End score.

(** ** The victim *)

Section victim.
Context `{Layout} `{VmaNames} `{Ports} `{SchedLayout} (s : sched).

(** [task] has PID [pid], is a user task, and its score is [sc].  Its status
    does not matter, as in the code; the comment of the source lists kinds of
    tasks to leave out. *)
Definition candidate (pid task sc : Z) : Prop :=
  1 ≤ pid < pid_max ∧ tasks s !! pid = Some task ∧ task ≠ NULL ∧
  (∃ t, ktasks (sk s) !! task = Some t ∧ task_type t ≠ TASK_TYPE_KERNEL) ∧
  get_oom_score task (sk s) = OK sc (sk s).

(** The PID map is in memory, and what it refers to are tasks; the score of
    every user task can be computed. *)
Definition scorable : Prop := ∀ pid, 1 ≤ pid < pid_max → ∃ task, tasks s !! pid = Some task ∧
  (task ≠ NULL → ∃ t, ktasks (sk s) !! task = Some t ∧
    (task_type t ≠ TASK_TYPE_KERNEL → ∃ sc, get_oom_score task (sk s) = OK sc (sk s))).

(** The best candidate among the PIDs before [pid]: the first one with the
    highest score, if a score is positive. *)
Definition best (pid victim highest : Z) : Prop :=
  (∀ q task sc, candidate q task sc → q < pid → sc ≤ highest) ∧
  (victim = NULL ∧ highest = 0 ∨ 0 < highest ∧
    ∃ q, q < pid ∧ candidate q victim highest ∧ ∀ q' task sc, candidate q' task sc → q' < q → sc < highest).

Lemma kern_pure {A} (c : M kernel A) a : c (sk s) = OK a (sk s) → kern c s = OK a s.
Proof. intros E. unfold kern, zoom. rewrite E. by destruct s. Qed.

Lemma pid2task_run pid task : 1 ≤ pid < pid_max → tasks s !! pid = Some task → pid2task pid false s = OK task s.
Proof.
  intros Hp Ht. unfold pid2task. rewrite (proj2 (Z.eqb_neq pid 0)), (proj2 (Z.leb_gt pid_max pid)) by lia.
  unfold tasks_get, mbind, M_bind, deref. rewrite Ht. by destruct (task =? NULL) eqn:E; [apply Z.eqb_eq in E; subst|].
Qed.

(** Nobody, or nobody better, has PID [pid]. *)
Lemma best_skip pid victim highest : best pid victim highest → (∀ task sc, candidate pid task sc → sc ≤ highest) →
  best (pid + 1) victim highest.
Proof.
  intros [Hb Hv] Hs. split.
  - intros q task sc Hc Hq. destruct (decide (q = pid)) as [->|]; [by eapply Hs|]. eapply Hb; [done|lia].
  - destruct Hv as [|(Hp & q & Hq & ?)]; [by left|right]. split; [done|]. exists q. split; [lia|done].
Qed.

Lemma best_take pid task sc victim highest : best pid victim highest → candidate pid task sc → highest < sc → best (pid + 1) task sc.
Proof.
  intros [Hb Hv] Hc Hlt. assert (0 ≤ highest) by (destruct Hv as [[_ ->]|[? _]]; lia). split.
  - intros q task' sc' Hc' Hq. destruct (decide (q = pid)) as [->|].
    + destruct Hc as (_ & E1 & _ & _ & E2), Hc' as (_ & E1' & _ & _ & E2'). assert (task' = task) as -> by congruence.
      assert (sc' = sc) by congruence. lia.
    + assert (sc' ≤ highest); [|lia]. eapply Hb; [done|lia].
  - right. split; [lia|]. exists pid. split; [lia|]. split; [done|]. intros q' task' sc' Hc' Hq'.
    assert (sc' ≤ highest); [|lia]. by eapply Hb.
Qed.

Lemma oom_select_spec m pid victim highest : scorable → 1 ≤ pid → pid + Z.of_nat m = pid_max → best pid victim highest →
  ∃ v h, oom_select m pid victim highest s = OK v s ∧ best pid_max v h.
Proof.
  intros Hs. revert pid victim highest. induction m as [|m IH]; intros pid victim highest Hp Hm Hb.
  { exists victim, highest. replace pid_max with pid by (simpl in Hm; lia). done. }
  cbn [oom_select]. destruct (Hs pid ltac:(lia)) as (task & Ht & Hk). unfold mbind, M_bind.
  rewrite (pid2task_run pid task) by (done || lia).
  assert (∀ best', best (pid + 1) best'.1 best'.2 → ∃ v h, oom_select m (pid + 1) best'.1 best'.2 s = OK v s ∧ best pid_max v h) as Hgo.
  { intros [v h] Hb'. apply IH; [lia|lia|done]. }
  destruct (task =? NULL) eqn:En.
  { apply Z.eqb_eq in En. subst. apply (Hgo (victim, highest)). eapply best_skip; [done|].
    intros task sc (_ & E & Hnn & _). exfalso. congruence. }
  apply Z.eqb_neq in En. destruct (Hk En) as (t & Et & Hsc).
  rewrite (kern_pure (task_get task) t) by (unfold task_get, deref; by rewrite Et).
  destruct (task_type t =? TASK_TYPE_KERNEL) eqn:Ety.
  { apply Z.eqb_eq in Ety. apply (Hgo (victim, highest)). eapply best_skip; [done|].
    intros task' sc (_ & E & _ & (t' & E' & Hty) & _). exfalso. assert (task' = task) as -> by congruence.
    assert (t' = t) as -> by congruence. done. }
  apply Z.eqb_neq in Ety. destruct (Hsc Ety) as (sc & Esc). rewrite (kern_pure _ _ Esc).
  assert (candidate pid task sc) as Hc by (split_and!; [lia|lia|done|done|eauto|done]).
  assert (∀ task' sc', candidate pid task' sc' → sc' = sc) as Huniq.
  { intros task' sc' (_ & E1 & _ & _ & E2). assert (task' = task) as -> by congruence. congruence. }
  assert (0 ≤ highest) as Hh by (destruct Hb as [_ [[_ ->]|[? _]]]; lia).
  destruct (sc <? 0) eqn:Elt.
  { apply Z.ltb_lt in Elt. apply (Hgo (victim, highest)). eapply best_skip; [done|].
    intros task' sc' Hc'%Huniq. simpl. lia. }
  destruct (highest <? sc) eqn:Ehi.
  - apply Z.ltb_lt in Ehi. apply (Hgo (task, sc)). by eapply best_take.
  - apply Z.ltb_ge in Ehi. apply (Hgo (victim, highest)). eapply best_skip; [done|]. intros task' sc' Hc'%Huniq. simpl. lia.
Qed.

Lemma best_start : best 1 NULL 0.
Proof. split; [|by left]. intros q task sc ((? & _) & _) Hq. lia. Qed.

Lemma oom_victim : scorable → ∃ v h, oom_select (Z.to_nat (pid_max - 1)) 1 NULL 0 s = OK v s ∧ best pid_max v h.
Proof. intros Hs. apply oom_select_spec; [done|lia|by rewrite Z2Nat.id|apply best_start]. Qed.
End victim.

(** ** Free memory *)

Section free_memory.
Context `{Layout} (base n : Z).

Lemma free_memory_step c o fm total m xs : list_foreach (free_list o) (heap m) = OK xs (heap m) →
  let fm' := u64 (s32 (Z.shiftl 1 o * Z.of_nat (length xs) * PAGE_SIZE)) in
  free_memory_from (S c) o fm total m = free_memory_from c (o + 1) fm' (u64 (total + fm')) m.
Proof.
  intros E. cbn [free_memory_from]. unfold on_heap, zoom, mbind, M_bind. rewrite E.
  by replace (set_heap (heap m) m) with m by (by destruct m).
Qed.

(** What the loop leaves in [free_memory] is the value of its last round. *)
Lemma free_memory_last m fl g c o fm total : lists_by base n fl (heap m) g ∅ → 0 ≤ o → o + Z.of_nat (S c) = BUDDY_MAX_ORDER →
  free_memory_from (S c) o fm total m = OK (u64 (s32 (2 ^ 9 * Z.of_nat (length (fl 9)) * PAGE_SIZE))) m.
Proof.
  intros Hl. revert o fm total. induction c as [|c IH]; intros o fm total Ho Hc;
    rewrite (free_memory_step _ _ _ _ _ _ (list_foreach_spec _ _ _ (proj1 Hl o ltac:(lia)))); rewrite length_fmap.
  - replace o with 9 by (unfold BUDDY_MAX_ORDER, BUDDY_2M_PAGE in *; lia). done.
  - apply IH; lia.
Qed.
End free_memory.

Section properties.
Context `{Layout} `{VmaNames} `{Ports} `{SchedLayout}.

Lemma mapped_pages_length ph root l l' : mapped_pages ph root l → mapped_pages ph root l' → length l = length l'.
Proof.
  intros [Hnd Hl] [Hnd' Hl']. apply Permutation_length, NoDup_Permutation; [done|done|]. intros j. by rewrite Hl, Hl'.
Qed.

(** C29 (equivalence).  The score that the out-of-memory killer computes by
    walking the whole page table, both halves of the address space, is the
    number of pages the processor would find mapped in it; the walk changes
    nothing.  The status of the task makes no difference, and nothing keeps the
    score below any bound but that of [int]: the comment at the top of the file
    plans a score from -1000 to 1000 that takes the status into account. *)
Theorem get_oom_score_correct n T root k task t :
  pt_ok n T (phys (km k)) root → npages (km k) = n → n < 2 ^ 31 → ktasks k !! task = Some t → task_pml4 t = kva root →
  ∃ l, mapped_pages (phys (km k)) root l ∧ get_oom_score task k = OK (s32 (Z.of_nat (length l))) k ∧
    ∀ status, let k' := set_ktasks (<[task := set_task_status status t]> (ktasks k)) k in
      get_oom_score task k' = OK (s32 (Z.of_nat (length l))) k'.
Proof.
  intros Hpt Hn Hs Ht Hp. destruct (score_spec n root T k Hpt Hn Hs task t Ht Hp) as (l & Hl & E).
  exists l. split; [done|]. split; [done|]. intros status k'.
  destruct (score_spec n root T k' Hpt Hn Hs task (set_task_status status t)) as (l' & Hl' & E');
    [apply lookup_insert_eq|done|]. by rewrite (mapped_pages_length _ _ _ _ Hl Hl').
Qed.

(** C30 (functional).  When some user task has a positive score, the killer
    destroys the user task with the highest score, the one with the lowest PID
    among equals, and never a kernel thread; when none has, the assertion
    fails and the kernel panics.  User tasks of any status are considered: the
    exceptions the comment at the top of the file lists (tasks that cannot be
    killed, that have been reaped, that are in a fork) are not in the code. *)
Theorem oom_kill_victim fuel s : scorable s →
  (∃ pid task sc, candidate s pid task sc ∧ 0 < sc ∧
    (∀ q task' sc', candidate s q task' sc' → sc' ≤ sc ∧ (q < pid → sc' < sc)) ∧
    oom_kill fuel s = task_destroy (sched_yield fuel) task s) ∨
  (∀ pid task sc, candidate s pid task sc → sc ≤ 0) ∧ oom_kill fuel s = Stop Panic s.
Proof.
  intros Hs. destruct (oom_victim s Hs) as (v & h & E & Hb & Hv). unfold oom_kill, mbind, M_bind, assert. rewrite E.
  assert (∀ q task sc, candidate s q task sc → q < pid_max) as Hlt by (intros q task sc ((_ & ?) & _); done).
  destruct Hv as [[-> ->]|(Hh & q & Hq & Hc & Hfirst)]; [right|left].
  - split; [|done]. intros pid task sc Hc. eapply Hb; [done|by eapply Hlt].
  - exists q, v, h. split; [done|]. split; [done|]. split.
    + intros q' task' sc' Hc'. split; [by eapply Hb, Hlt|]. by eapply Hfirst.
    + destruct Hc as (_ & _ & Hnn & _). by rewrite (proj2 (Z.eqb_neq _ _) Hnn).
Qed.

(** [get_total_free_memory] does not return the free memory: it
    returns that of the free blocks of the highest order only, so smaller
    blocks do not count and it is 0 when no 2 MiB block is free.  (The sum the
    loop computes is never used; the product is one of [int].) *)
Theorem get_total_free_memory_last_order base n m g (B : gset Z) junk : layout_ok base n → buddy_inv base n m g →
  (∀ i, i ∈ B ↔ g !! i = Some BUDDY_2M_PAGE) →
  get_total_free_memory junk m = OK (u64 (s32 (Z.of_nat (size B) * 2 ^ 21))) m.
Proof.
  intros L Hinv HB. destruct (core_lists _ _ _ _ _ (inv_core _ _ _ _ Hinv)) as [fl Hfl].
  unfold get_total_free_memory. rewrite (free_memory_last base n m fl g 9); [|done|lia|done].
  do 3 f_equal. replace (size B) with (length (fl 9)).
  - change PAGE_SIZE with 4096. lia.
  - assert (B = list_to_set (fl 9)) as ->.
    { apply set_eq. intros i. rewrite elem_of_list_to_set, HB, (proj1 (proj2 Hfl)) by done. set_solver. }
    symmetry. apply size_list_to_set. eapply (lists_NoDup base n); [done|done].
Qed.
End properties.

(** ** A concrete machine: one user task, whose table maps the page 1024 *)

#[local] Existing Instance demo_layout.
#[local] Existing Instance demo_end.
#[local] Instance oom_demo_names : VmaNames := {|
  str_rmap := 1; str_user := 2; file_insert := 3; file_populate := 4; file_pfault := 5; file_rmap := 6 |}.
#[local] Instance oom_demo_ports : Ports := {|
  dev := unit; in_port _ d := (0, d); out_port _ _ d := d; open_bus := 0xFFFF |}.
#[local] Instance oom_demo_sched : SchedLayout := {|
  runq := 0x500; str_text := 7; str_data := 8; str_rodata := 9; str_stack := 10; str_runq_lock := 11;
  str_debug_lock := 12; file_sched := 13; file_task_util := 14; file_fork := 15 |}.

Definition oom_task : task := set_task_pid 1 (set_task_pml4 (kva 16) task0).
Definition oom_kernel : kernel :=
  Kernel (Mem ∅ ∅ 0 demo_n (SpinLock 0 0 0 0 0) demo_phys 0) (Rbs ∅ ∅) ∅ {[ 0x6000 := oom_task ]} ∅ ∅ ∅ ∅ ∅
    (SpinLock 0 0 0 0 0) (16 * PAGE_SIZE) ∅ 0 0.
Definition oom_machine : sched :=
  Sched _ oom_kernel (Console _ tt ∅ true CGA_BASE 0xB8000 0 0 [] 0 0 [])
    (<[1 := 0x6000]> (gset_to_gmap NULL (list_to_set (seqZ 0 pid_max)))) 1 0 1 (SpinLock 0 0 0 0 0) (SpinLock 0 0 0 0 0) 0 0.

Lemma oom_pids pid : 1 ≤ pid < pid_max → tasks oom_machine !! pid = Some (if decide (pid = 1) then 0x6000 else NULL).
Proof.
  intros Hp. unfold oom_machine. cbn [tasks]. case_decide as E; [subst; apply lookup_insert_eq|].
  rewrite lookup_insert_ne by done. apply lookup_gset_to_gmap_Some. split; [|done].
  apply elem_of_list_to_set, elem_of_seqZ. lia.
Qed.

Lemma oom_score : get_oom_score 0x6000 oom_kernel = OK 1 oom_kernel.
Proof. vm_compute. reflexivity. Qed.

Lemma oom_scorable : scorable oom_machine.
Proof.
  intros pid Hp. rewrite oom_pids by done. eexists. split; [done|]. case_decide; [|done]. intros _.
  exists oom_task. split; [done|]. intros _. exists 1. exact oom_score.
Qed.

Lemma get_oom_score_correct_witness :
  ∃ l, mapped_pages demo_phys 16 l ∧ get_oom_score 0x6000 oom_kernel = OK (s32 (Z.of_nat (length l))) oom_kernel.
Proof.
  destruct (get_oom_score_correct demo_n demo_tables 16 oom_kernel 0x6000 oom_task) as (l & Hl & E & _); [exact demo_pt_ok|done..|].
  exists l. split; [exact Hl|exact E].
Defined.

Lemma oom_kill_victim_witness : oom_kill 5 oom_machine = task_destroy (sched_yield 5) 0x6000 oom_machine.
Proof.
  destruct (oom_kill_victim 5 oom_machine oom_scorable) as [(pid & task & sc & (Hp & Ht & Hn & _) & _ & _ & E)|[Hn _]].
  - rewrite oom_pids in Ht by done. apply (inj Some) in Ht. destruct (decide (pid = 1)); [by rewrite <-Ht in E|by destruct Hn].
  - exfalso. assert (1 ≤ 0); [|lia]. apply (Hn 1 0x6000). split; [done|]. split; [by apply oom_pids|].
    split; [done|]. split; [by exists oom_task|exact oom_score].
Defined.

Lemma get_total_free_memory_last_order_witness : ∃ s' g, page_init demo_info demo_boot = OK tt s' ∧ free_frame g 8 ∧
  get_total_free_memory 0 (bmem s') = OK 0 (bmem s').
Proof.
  destruct demo_booted as (s' & g & E & Hinv & _ & _ & _ & HF). exists s', g. split; [exact E|].
  split; [apply HF; lia|]. rewrite (get_total_free_memory_last_order demo_base demo_n (bmem s') g ∅ 0 demo_layout_ok Hinv); [done|].
  intros i. split; [intros Hi; exfalso; exact (not_elem_of_empty i Hi)|]. intros Hi. exfalso.
  assert (free_frame g i ∧ free_frame g (i + 511)) as [H1 H2].
  { unfold BUDDY_2M_PAGE in Hi. split; exists i, 9; (split; [exact Hi|lia]). }
  apply HF in H1. apply HF in H2. lia.
Defined.
