(* ===== verification/Swap.v ===== *)
(** * Swapping (kernel/dev/swap.c)

    Choosing a page to swap out, writing it to the second disk and marking the
    entries that map it.  The list [swap.pages] and its operations are in
    Buddy.v, the reverse mappings in Vma.v, the disks in Ahci.v.  [fuel] bounds
    the loops that wait for a disk or for a page. *)

From S2P Require Import Prelude LinkedList Paging Spinlock Buddy RbTree Kernel PageWalk AddrSpace PageTable Slab Vma Console Task Sched Oom Devices Ata Ahci.

Local Open Scope Z_scope.

(** The strings ["kernel/dev/swap.c"] and ["swap_lock"], and the address of
    [swap_thread]. *)
Class SwapLayout := { file_swap : Z; str_swap_lock : Z; swap_thread_addr : Z }.

Definition SWAP_BLOCK : nat := 1000.

(** [struct clock_info] *)
Record clock_info := ClockInfo { accessed : Z; ci_pa : Z }.
(** [struct rmap_info] *)
Record rmap_info := RmapInfo { ri_page : Z; ri_disk_addr : Z; ri_pa : Z }.

Definition check_access_flag (entry base end_ : Z) : M (kernel * clock_info) Z :=
  info ← udata;
  e ← mcall (read_word entry);
  (if has e PAGE_PRESENT && (PAGE_ADDR e =? ci_pa info) && has e PAGE_ACCESSED then
     set_udata (ClockInfo 1 (ci_pa info));;
     mcall (write_word entry (Z.land e (Z.lnot PAGE_ACCESSED)))
   else mret tt);;
  mret 0.

Definition clock_walker : page_walker clock_info :=
  Walker (Some check_access_flag) None None None None None None None None.

Section swap.
Context `{Layout} `{VmaNames} `{Bus} `{SchedLayout} `{SwapLayout}.

(** ** Choosing a page *)

(** [container_of] of a NULL node is not NULL. *)
Definition check_clock : M kernel Z :=
  node ← on_list (list_pop_tail swap_pages);
  let page := container_of node off_swap_node in
  if page =? NULL then mret NULL
  else
    pa ← on_km (page2pa page);
    '(_, info) ← with_udata (ClockInfo 0 pa) (rmap_walk page clock_walker);
    if negb (accessed info =? 0) then on_km (mru_swap_page page);; mret NULL
    else mret page.

Fixpoint clock_loop (fuel : nat) : M kernel Z :=
  match fuel with
  | O => halt NoFuel
  | S fuel => page ← check_clock; if page =? NULL then clock_loop fuel else mret page
  end.

Definition get_page (fuel : nat) : M kernel Z :=
  lock_swap file_swap 99;;
  empty ← on_list (list_is_empty swap_pages);
  if (empty : bool) then unlock_swap;; mret NULL
  else
    page ← clock_loop fuel;
    unlock_swap;;
    mret page.

(** ** Swapping in *)

Definition update_pte_swap_in (entry base end_ : Z) : M (kernel * rmap_info) Z :=
  info ← udata;
  e ← mcall (read_word entry);
  pa ← mcall (page2pa (ri_page info));
  (if PAGE_ADDR e =? pa then
     kcall (assert (has e PAGE_PRESENT));;
     mcall (write_word entry (e + PAGE_PRESENT));;
     e ← mcall (read_word entry);
     mcall (write_word entry (Z.land e PAGE_MASK));;
     e ← mcall (read_word entry);
     mcall (write_word entry (e + ri_pa info));;
     mcall (page_upd (ri_page info) (λ p, set_ref (pp_ref p - 1) p))
   else mret tt);;
  mret 0.

Definition update_rmap_ptes_swap_in (page pa : Z) : M kernel unit :=
  with_udata (RmapInfo page 0 pa)
    (rmap_walk page (Walker (Some update_pte_swap_in) None None None None None None None None));;
  mret tt.

(** [entry] points to the entry of the page; the result of [stat] is not used.
    The [return] after the test of [ret] is not part of the [if]. *)
Definition swap_in (fuel : nat) (entry : Z) : M devices Z :=
  disk ← deref (λ s, disks s !! 1%nat);
  disk_stat_ disk 1;;
  dkern (lock_swap file_swap 185);;
  swap_page ← dmem (page_alloc ALLOC_ZERO);
  if swap_page =? NULL then dkern unlock_swap;; mret (-1)
  else
    ok ← disk_poll disk;
    if negb ok then dkern unlock_swap;; mret (- EAGAIN)
    else
      e ← dmem (read_word entry);
      let disk_addr := PAGE_ADDR e in
      buf ← dmem (page2kva swap_page);
      ret ← disk_read fuel disk buf PAGE_SIZE disk_addr;
      (if s32 ret <? 0 then dkern unlock_swap else mret tt);;
      mret (-1).

(** ** Swapping out *)

Definition get_free_disk_addr : M devices Z :=
  addr ← gets free_disk_addr;
  modify (set_free_disk_addr (u64 (addr + PAGE_SIZE)));;
  mret addr.

Definition update_pte_swap_out (entry base end_ : Z) : M (kernel * rmap_info) Z :=
  info ← udata;
  e ← mcall (read_word entry);
  pa ← mcall (page2pa (ri_page info));
  (if PAGE_ADDR e =? pa then
     kcall (assert (has e PAGE_PRESENT));;
     mcall (write_word entry (Z.land e (Z.lnot PAGE_PRESENT)));;
     e ← mcall (read_word entry);
     mcall (write_word entry (Z.land e PAGE_MASK));;
     e ← mcall (read_word entry);
     mcall (write_word entry (e + ri_disk_addr info));;
     mcall (page_upd (ri_page info) (λ p, set_ref (pp_ref p - 1) p))
   else mret tt);;
  mret 0.

Definition update_rmap_ptes_swap_out (page disk_addr : Z) : M kernel unit :=
  with_udata (RmapInfo page disk_addr 0)
    (rmap_walk page (Walker (Some update_pte_swap_out) None None None None None None None None));;
  mret tt.

Definition swap_out (fuel : nat) : M devices Z :=
  disk ← deref (λ s, disks s !! 1%nat);
  ok ← disk_poll disk;
  if negb ok then mret (-1)
  else
    swap_page ← dkern (get_page fuel);
    if swap_page =? NULL then mret (-1)
    else
      disk_addr ← get_free_disk_addr;
      buf ← dmem (page2kva swap_page);
      ret ← disk_write fuel disk buf PAGE_SIZE disk_addr;
      if s32 ret <? 0 then mret (-1)
      else
        dkern (update_rmap_ptes_swap_out swap_page disk_addr);;
        dmem (page_free swap_page);;
        mret 0.

(** ** The thread *)

Definition initialize_swap_list : M kernel unit :=
  on_list (list_init swap_pages);;
  modify (λ k, set_swap_lock (spin_init str_swap_lock (swap_lock k)) k).

Definition yield_swap (fuel : nat) : M sched unit :=
  cur ← kern cur_task;
  kern (task_upd cur (λ t, set_task_frame (set_rsp KERNEL_STACK_TOP (set_rip swap_thread_addr (task_frame t))) t));;
  sched_yield fuel.

Fixpoint swap_block (n fuel : nat) : M devices unit :=
  match n with
  | O => mret tt
  | S n =>
      r ← swap_out fuel;
      (if r <? 0 then on_sched (yield_swap fuel) else mret tt);;
      swap_block n fuel
  end.

Definition swap_thread (fuel : nat) (junk : Z) : M devices unit :=
  on_sched (dying_from (yield_swap fuel) (Z.to_nat (pid_max - 1)) 1);;
  free_memory ← dmem (get_total_free_memory junk);
  (if free_memory <? MEMORY_THRESHOLD then swap_block SWAP_BLOCK fuel else mret tt);;
  on_sched (yield_swap fuel).
End swap.
