(* ===== verification/SwapSpec.v ===== *)
(** * Which page is swapped out

    [check_clock] takes a page from the front of [swap.pages], where pages are
    also added.  A page that was accessed goes back to the front and its
    access bits are cleared, so the next round takes it again: [get_page]
    returns the page that was added last, after at most two rounds.  The
    argument is about running the same walk twice: the second run meets the
    entries the first one has cleared. *)

From S2P Require Import Prelude LinkedList Paging Spinlock Buddy BuddyProofs MemInit BuddySpec RbTree Kernel PageWalk PageWalkProofs AddrSpace PageTable PageTableProofs PageMap PageTableSpec Slab Vma Console Task Sched Oom Devices Ata Ahci ByteMem AtaProofs AtaSpec Swap.

Local Open Scope Z_scope.

(** ** Entries up to the access bit *)

(** The bits of an entry but the access bit. *)
Definition rest_mask : Z := 2 ^ 64 - 1 - PAGE_ACCESSED.
Definition eq_entry (e e' : Z) : Prop := Z.land e rest_mask = Z.land e' rest_mask.

Lemma eq_entry_land e e' m : Z.land rest_mask m = m → eq_entry e e' → Z.land e m = Z.land e' m.
Proof. intros <- E. by rewrite !Z.land_assoc, E. Qed.
Lemma eq_entry_has e e' m : Z.land rest_mask m = m → eq_entry e e' → has e m = has e' m.
Proof. intros Hm E. unfold has. by rewrite (eq_entry_land e e' m). Qed.
Lemma eq_entry_addr e e' : eq_entry e e' → PAGE_ADDR e = PAGE_ADDR e'.
Proof. by apply eq_entry_land. Qed.

(** The entry with the bit cleared, as it is stored. *)
Definition clear_accessed (e : Z) : Z := u64 (Z.land e (Z.lnot PAGE_ACCESSED)).

Lemma clear_accessed_land e : clear_accessed e = Z.land e rest_mask.
Proof.
  unfold clear_accessed, u64. rewrite <-(land_ones_mod _ 64) by done. by rewrite <-Z.land_assoc.
Qed.
Lemma eq_entry_clear e : eq_entry e (clear_accessed e).
Proof. unfold eq_entry. by rewrite clear_accessed_land, <-Z.land_assoc, Z.land_diag. Qed.

(** The entry would be reported as accessed. *)
Definition hit (pa e : Z) : bool := has e PAGE_PRESENT && (PAGE_ADDR e =? pa) && has e PAGE_ACCESSED.

Lemma hit_clear pa e : hit pa (clear_accessed e) = false.
Proof.
  unfold hit. assert (has (clear_accessed e) PAGE_ACCESSED = false) as ->; [|by rewrite andb_false_r].
  unfold has. rewrite clear_accessed_land, <-Z.land_assoc. change (Z.land rest_mask PAGE_ACCESSED) with 0. by rewrite Z.land_0_r.
Qed.

(** ** States up to access bits

    [later pa k k']: [k'] differs from [k] in access bits of entries at most,
    and entries for [pa] that were not marked stay unmarked. *)
Record later (pa : Z) (k k' : kernel) : Prop := {
  lt_npages : npages (km k') = npages (km k);
  lt_vmas : kvmas k' = kvmas k;
  lt_tasks : ktasks k' = ktasks k;
  lt_words f i : eq_entry (entry (phys (km k)) f i) (entry (phys (km k')) f i);
  lt_hits f i : hit pa (entry (phys (km k)) f i) = false → hit pa (entry (phys (km k')) f i) = false;
}.

Lemma later_refl pa k : later pa k k.
Proof. by split. Qed.
Lemma later_trans pa k1 k2 k3 : later pa k1 k2 → later pa k2 k3 → later pa k1 k3.
Proof.
  intros [N V T W G] [N' V' T' W' G']. split; [congruence..| |auto].
  intros f i. unfold eq_entry. etrans; [apply W|apply W'].
Qed.

(** [m] changes access bits only; what it returns does not depend on them, and
    run again in a later state it finds no entry marked. *)
Definition replays {A} (m : M (kernel * clock_info) A) : Prop := ∀ k u a k' u', m (k, u) = OK a (k', u') →
  ci_pa u' = ci_pa u ∧ (∃ ph, k' = set_km (set_phys ph (km k)) k) ∧ later (ci_pa u) k k' ∧
  ∀ K u0, later (ci_pa u) k' K → u0 = ClockInfo 0 (ci_pa u) → m (K, u0) = OK a (K, u0).

Lemma same_state k : k = set_km (set_phys (phys (km k)) (km k)) k.
Proof. by destruct k as [[] ? ? ? ? ? ? ? ? ? ? ? ? ?]. Qed.

Lemma replays_ret {A} (a : A) : replays (mret a).
Proof.
  intros k u a' k' u' [= <- <- <-]. split; [done|]. split; [eexists; apply same_state|]. split; [apply later_refl|done].
Qed.

Lemma replays_bind {A B} (m : M (kernel * clock_info) A) (f : A → M (kernel * clock_info) B) :
  replays m → (∀ a, replays (f a)) → replays (m ≫= f).
Proof.
  intros Hm Hf k u b k' u'. unfold mbind, M_bind. destruct (m (k, u)) as [a [k1 u1]|] eqn:E1; [|done]. intros E2.
  destruct (Hm _ _ _ _ _ E1) as (P1 & (ph1 & S1) & L1 & R1). destruct (Hf a _ _ _ _ _ E2) as (P2 & (ph2 & S2) & L2 & R2).
  rewrite P1 in *. split; [congruence|]. split; [exists ph2; by rewrite S2, S1|]. split; [by eapply later_trans|].
  intros K u0 HK Hu. rewrite (R1 K u0); [by apply R2|by eapply later_trans|done].
Qed.

Lemma replays_try m c : replays m → replays c → replays (try_ m c).
Proof. intros Hm Hc. apply replays_bind; [done|]. intros r. destruct (r <? 0); [apply replays_ret|done]. Qed.

(** A computation that only looks at the parts that stay the same. *)
Lemma replays_read {A} (m : M kernel A) :
  (∀ k a k', m k = OK a k' → k' = k ∧ ∀ K, npages (km K) = npages (km k) → kvmas K = kvmas k → ktasks K = ktasks k → m K = OK a K) →
  replays (kcall (U:=clock_info) m).
Proof.
  intros Hm k u a k' u'. unfold kcall, zoom. simpl. destruct (m k) as [b k1|] eqn:E; [|done]. intros [= <- <- <-].
  destruct (Hm _ _ _ E) as [-> HK]. split; [done|]. split; [eexists; apply same_state|]. split; [apply later_refl|].
  intros K u0 [N V T _ _] ->. simpl. by rewrite (HK K).
Qed.

(** Reading an entry and going on in a way that ignores the access bit. *)
Lemma replays_word {A} a (f : Z → M (kernel * clock_info) A) :
  (∀ e e', eq_entry e e' → f e = f e') → (∀ e, replays (f e)) → replays (e ← mcall (read_word a); f e).
Proof.
  intros He Hf k u r k' u'. unfold mbind, M_bind, mcall, kcall, on_km, zoom, read_word, mbind, M_bind, gets.
  cbn [fst snd]. destruct (backed (km k) a) eqn:Eb; [|done]. rewrite set_km_id. intros Er.
  destruct (Hf _ _ _ _ _ _ Er) as (P & S & L & R). split; [done|]. split; [done|]. split; [done|].
  intros K u0 HK Hu. assert (later (ci_pa u) k K) as [N V T W G] by (by eapply later_trans).
  unfold backed in *. rewrite N, Eb. rewrite set_km_id.
  replace (f (word_at (phys (km K)) (a - KERNEL_VMA) (word_of a))) with (f (word_at (phys (km k)) (a - KERNEL_VMA) (word_of a)))
    by (apply He, W). by apply R.
Qed.

(** The callback. *)
Lemma replays_flag x b e : replays (check_access_flag x b e).
Proof.
  intros k u r k' u'. unfold check_access_flag, mbind, M_bind, udata, gets, mcall, kcall, on_km, zoom, read_word, write_word,
    set_udata, modify, mbind, M_bind, gets, mret, M_ret. cbn [fst snd].
  destruct (backed (km k) x) eqn:Eb; [|done]. rewrite set_km_id. cbn [fst snd].
  set (f := PAGE_INDEX (x - KERNEL_VMA)) in *. set (i := word_of x).
  assert (∀ k, word_at (phys (km k)) (x - KERNEL_VMA) i = entry (phys (km k)) f i) as Ew by done. rewrite !Ew.
  set (w := entry (phys (km k)) f i) in *. fold (hit (ci_pa u) w). destruct (hit (ci_pa u) w) eqn:Eh.
  - cbn [fst snd]. rewrite Eb. intros [= <- <- <-]. split; [done|].
    fold (clear_accessed w). set (k' := set_km _ k).
    assert (∀ f' i', entry (phys (km k')) f' i' = if decide (f = f' ∧ i = i') then clear_accessed w else entry (phys (km k)) f' i') as Ep
      by (intros f' i'; apply entry_set).
    split; [by eexists|]. split; [split; try done|].
    + intros f' i'. rewrite Ep. case_decide as E; [destruct E as [<- <-]; apply eq_entry_clear|done].
    + intros f' i'. rewrite Ep. case_decide; [by rewrite hit_clear|done].
    + intros K u0 [N V T W G] ->. cbn [fst snd]. unfold backed in *. replace (npages (km K)) with (npages (km k)) by (by rewrite N).
      rewrite Eb, set_km_id. cbn [fst snd].
      rewrite !Ew. cbn [ci_pa]. fold (hit (ci_pa u) (entry (phys (km K)) f i)). rewrite (G f i); [done|].
      rewrite Ep, decide_True by done. apply hit_clear.
  - intros [= <- <- <-]. split; [done|]. split; [eexists; apply same_state|]. split; [apply later_refl|].
    intros K u0 [N V T W G] ->. cbn [fst snd]. unfold backed in *. rewrite N, Eb. rewrite set_km_id. cbn [fst snd].
    rewrite !Ew. cbn [ci_pa]. fold (hit (ci_pa u) (entry (phys (km K)) f i)). rewrite (G f i) by done. done.
Qed.

(** ** Walks *)

Lemma replays_loop fuel bound visit e a n : (∀ x y, replays (visit x y)) → replays (walk_loop fuel bound visit e a n).
Proof.
  intros Hv. revert a n. induction fuel as [|fuel IH]; intros a n; cbn [walk_loop]; [by intros ?????|].
  destruct (n <? e); [|apply replays_ret]. apply replays_try; [apply Hv|apply IH].
Qed.

Lemma replays_KADDR pa : replays (mcall (KADDR pa)).
Proof.
  apply replays_read. intros k a k'. unfold on_km, zoom, KADDR, gets, mbind, M_bind.
  destruct (npages (km k) <=? PAGE_INDEX pa) eqn:E; [done|]. intros [= <- <-]. split; [apply set_km_id|].
  intros K -> _ _. rewrite E. unfold mret, M_ret. by rewrite set_km_id.
Qed.

(** Entries are tested for bits other than the access bit. *)
Ltac same_entry E := rewrite ?(eq_entry_has _ _ PAGE_PRESENT ltac:(done) E), ?(eq_entry_has _ _ PAGE_HUGE ltac:(done) E),
  ?(eq_entry_addr _ _ E).

Lemma replays_ptbl ptbl b e : replays (ptbl_walk_range ptbl b e clock_walker).
Proof.
  apply replays_loop. intros x y. unfold ptbl_visit. apply replays_try; [apply replays_flag|].
  apply replays_word; [intros w w' E; by same_entry E|]. intros w. destruct (has w _); apply replays_try; apply replays_ret.
Qed.

Lemma replays_pdir pdir b e : replays (pdir_walk_range pdir b e clock_walker).
Proof.
  apply replays_loop. intros x y. unfold pdir_visit. apply replays_try; [apply replays_ret|].
  apply replays_word; [intros w w' E; by same_entry E|]. intros w.
  destruct (has w PAGE_PRESENT); [|apply replays_try; apply replays_ret]. destruct (negb _); [|apply replays_ret].
  apply replays_try; [apply replays_bind; [apply replays_KADDR|intros t; apply replays_ptbl]|].
  apply replays_try; apply replays_ret.
Qed.

Lemma replays_pdpt pdpt b e : replays (pdpt_walk_range pdpt b e clock_walker).
Proof.
  apply replays_loop. intros x y. unfold pdpt_visit. apply replays_try; [apply replays_ret|].
  apply replays_word; [intros w w' E; by same_entry E|]. intros w.
  destruct (has w PAGE_PRESENT); [|apply replays_try; apply replays_ret]. destruct (negb _); [|apply replays_ret].
  apply replays_try; [apply replays_bind; [apply replays_KADDR|intros t; apply replays_pdir]|].
  apply replays_try; apply replays_ret.
Qed.

Lemma replays_pml4 pml4 b e : replays (walk_page_range pml4 b e clock_walker).
Proof.
  apply replays_loop. intros x y. unfold pml4_visit. apply replays_try; [apply replays_ret|].
  apply replays_word; [intros w w' E; by same_entry E|]. intros w.
  destruct (has w PAGE_PRESENT); [|apply replays_try; apply replays_ret].
  apply replays_try; [apply replays_bind; [apply replays_KADDR|intros t; apply replays_pdpt]|].
  apply replays_try; apply replays_ret.
Qed.

Lemma replays_assert b : replays (kcall (assert b)).
Proof. apply replays_read. intros k a k'. unfold assert. destruct b; [|done]. by intros [= <- <-]. Qed.

Lemma replays_vmas nodes : replays (rmap_vmas nodes clock_walker).
Proof.
  induction nodes as [|n nodes IH]; cbn [rmap_vmas]; [apply replays_ret|].
  apply replays_bind; [apply replays_assert|intros _]. apply replays_bind.
  { apply replays_read. intros k a k'. unfold vma_get, deref. destruct (kvmas k !! _) eqn:E; [|done]. intros [= <- <-].
    split; [done|]. intros K _ -> _. by rewrite E. }
  intros v. apply replays_bind; [apply replays_assert|intros _]. apply replays_bind.
  { apply replays_read. intros k a k'. unfold task_get, deref. destruct (ktasks k !! _) eqn:E; [|done]. intros [= <- <-].
    split; [done|]. intros K _ _ ->. by rewrite E. }
  intros t. apply replays_bind; [apply replays_pml4|intros _; exact IH].
Qed.

(** ** The reverse mapping *)

Section rmap.
Context `{VmaNames}.

(** The state while [lock] is the lock of the mapping [r]. *)
Definition with_lock (r : Z) (lock : spinlock) (k : kernel) : kernel := set_krmaps (<[r := lock]> (krmaps k)) k.

(** What a walk over the reverse mapping of [page] consists of. *)
Definition rmap_run (page : Z) (k : kernel) (u : clock_info) (k' : kernel) (u' : clock_info) : Prop :=
  ∃ p l nodes k2, let r := rmap p in let me := this_cpu (km k) in
    infos (km k) !! page = Some p ∧ r ≠ NULL ∧ krmaps k !! r = Some l ∧ locked l = 0 ∧
    list_is_empty r (heap (km k)) = OK false (heap (km k)) ∧ list_foreach r (heap (km k)) = OK nodes (heap (km k)) ∧
    rmap_vmas nodes clock_walker (with_lock r (SpinLock 1 (lock_name l) me file_rmap 36) k, u) = OK tt (k2, u') ∧
    k' = with_lock r (SpinLock 0 (lock_name l) NULL NULL 0) k2.

Lemma is_empty_state h head b h' : list_is_empty head h = OK b h' → h' = h.
Proof. unfold list_is_empty, get_next, load, deref, mbind, M_bind. destruct (h !! head); [|done]. by intros [= _ <-]. Qed.
Lemma foreach_from_state fuel head x h xs h' : foreach_from fuel head x h = OK xs h' → h' = h.
Proof.
  revert x xs. induction fuel as [|fuel IH]; intros x xs; cbn [foreach_from]; [done|]. destruct (x =? head); [by intros [= _ <-]|].
  unfold get_next, load, deref, mbind, M_bind. destruct (h !! x) as [n|]; [|done].
  destruct (foreach_from fuel head (next n) h) eqn:E; cbn; rewrite ?E; [|done]. intros [= _ <-]. by eapply IH.
Qed.
Lemma foreach_state h head xs h' : list_foreach head h = OK xs h' → h' = h.
Proof.
  unfold list_foreach, get_next, load, deref, gets, mbind, M_bind. destruct (h !! head); [|done]. apply foreach_from_state.
Qed.

Lemma set_heap_id k : set_km (set_heap (heap (km k)) (km k)) k = k.
Proof. by destruct k as [[] ? ? ? ? ? ? ? ? ? ? ? ? ?]. Qed.

Lemma rmap_walk_inv page k u k' u' : rmap_walk page clock_walker (k, u) = OK tt (k', u') → rmap_run page k u k' u'.
Proof.
  unfold rmap_walk, mcall, kcall, on_km, page_get, mbind, M_bind, zoom, deref. cbn [fst snd].
  destruct (infos (km k) !! page) as [p|] eqn:Ep; [|done]. rewrite set_km_id.
  unfold assert. destruct (negb (rmap p =? NULL)) eqn:En; [|done]. cbn [fst snd mret M_ret].
  apply negb_true_iff, Z.eqb_neq in En. unfold gets. cbn [fst snd]. unfold rmap_lock, mbind, M_bind, deref, zoom.
  destruct (krmaps k !! rmap p) as [l|] eqn:El; [|done]. rewrite spin_lock_eq.
  destruct (holding l (this_cpu (km k))); [done|]. destruct (locked l =? 0) eqn:E0; [|done].
  apply Z.eqb_eq in E0. cbn [fst snd].
  set (k1 := with_lock (rmap p) (SpinLock 1 (lock_name l) (this_cpu (km k)) file_rmap 36) k).
  match goal with |- context [set_krmaps ?x k] => change (set_krmaps x k) with k1 end.
  unfold on_list, on_heap, on_km, zoom. change (heap (km k1)) with (heap (km k)).
  destruct (list_is_empty (rmap p) (heap (km k))) as [b h|] eqn:Ee; [|done]. pose proof (is_empty_state _ _ _ _ Ee); subst h.
  cbn [fst snd]. replace (set_km (set_heap (heap (km k)) (km k1)) k1) with k1 by (symmetry; apply (set_heap_id k1)).
  destruct b; cbn [negb]; [done|]. cbn [fst snd mret M_ret]. change (heap (km k1)) with (heap (km k)).
  destruct (list_foreach (rmap p) (heap (km k))) as [nodes h|] eqn:Ef; [|done]. pose proof (foreach_state _ _ _ _ Ef); subst h.
  cbn [fst snd]. replace (set_km (set_heap (heap (km k)) (km k1)) k1) with k1 by (symmetry; apply (set_heap_id k1)).
  destruct (rmap_vmas nodes clock_walker (k1, u)) as [[] [k2 u2]|] eqn:Ev; [|done]. cbn [fst snd].
  destruct (replays_vmas nodes _ _ _ _ _ Ev) as (_ & (ph & Ek2) & _ & _).
  assert (krmaps k2 !! rmap p = Some (SpinLock 1 (lock_name l) (this_cpu (km k)) file_rmap 36)) as E2
    by (rewrite Ek2; apply lookup_insert_eq).
  rewrite E2, spin_unlock_eq, holding_held by done. cbn. intros [= <- <-].
  exists p, l, nodes, k2. done.
Qed.

(** Such a walk can be repeated in a state where nothing else has changed. *)
Lemma rmap_walk_again page k u k1 u1 K : rmap_run page k u k1 u1 → infos (km K) = infos (km k) → krmaps K = krmaps k1 →
  heap (km K) = heap (km k) → later (ci_pa u) k1 K →
  ∃ ls, rmap_walk page clock_walker (K, ClockInfo 0 (ci_pa u)) = OK tt (set_krmaps ls K, ClockInfo 0 (ci_pa u)).
Proof.
  intros (p & l & nodes & k2 & Ep & En & El & E0 & Ee & Ef & Ev & ->) Ei Er Eh HL.
  destruct (replays_vmas nodes _ _ _ _ _ Ev) as (_ & _ & _ & Hagain).
  assert (krmaps K !! rmap p = Some (SpinLock 0 (lock_name l) NULL NULL 0)) as ElK by (rewrite Er; apply lookup_insert_eq).
  unfold rmap_walk, mcall, kcall, on_km, page_get, mbind, M_bind, zoom, deref. cbn [fst snd].
  rewrite Ei, Ep, set_km_id. unfold assert. rewrite (proj2 (Z.eqb_neq _ _) En). cbn [negb fst snd mret M_ret].
  unfold gets. cbn [fst snd]. unfold rmap_lock, mbind, M_bind, deref, zoom. rewrite ElK.
  rewrite spin_lock_eq. cbn [fst snd holding locked lock_name Z.eqb negb andb].
  set (K1 := with_lock (rmap p) (SpinLock 1 (lock_name l) (this_cpu (km K)) file_rmap 36) K).
  match goal with |- context [set_krmaps ?x K] => change (set_krmaps x K) with K1 end.
  unfold on_list, on_heap, on_km, zoom. change (heap (km K1)) with (heap (km K)). rewrite Eh, Ee. cbn [fst snd].
  assert (set_km (set_heap (heap (km k)) (km K1)) K1 = K1) as EK1 by (rewrite <-Eh; apply (set_heap_id K1)). rewrite EK1.
  cbn [negb fst snd mret M_ret]. change (heap (km K1)) with (heap (km K)). rewrite Eh, Ef. cbn [fst snd]. rewrite EK1.
  rewrite (Hagain K1 (ClockInfo 0 (ci_pa u))); [|by destruct HL; split|done]. cbn [fst snd].
  assert (krmaps K1 !! rmap p = Some (SpinLock 1 (lock_name l) (this_cpu (km K)) file_rmap 36)) as E2 by apply lookup_insert_eq.
  rewrite E2, spin_unlock_eq, holding_held by done. by eexists.
Qed.
End rmap.

(** ** Rounds of the clock *)

(** The members of a list have the same pointers in every store with that list. *)
Lemma dlist_ring_node h h' head xs a : dlist h head xs → dlist h' head xs → a ∈ head :: xs → h' !! a = h !! a.
Proof.
  assert (∀ head xs, dlist h head xs → dlist h' head xs → h' !! head = h !! head) as Hhead.
  { clear. intros head xs Hl Hl'. destruct (dlist_ends _ _ _ Hl) as [Hn Hp], (dlist_ends _ _ _ Hl') as [Hn' Hp'].
    unfold nx, pv in *. destruct (h !! head) as [[]|], (h' !! head) as [[]|]; simpl in *; congruence. }
  intros Hl Hl' [->|Ha]%elem_of_cons; [by eapply Hhead|]. apply list_elem_of_split in Ha as (ys & zs & ->).
  eapply Hhead; by apply dlist_rotate.
Qed.

(** Adding a node to the front and taking it off again changes nothing. *)
Lemma add_pop_id h head x xs : dlist h head xs → detached h x → x ∉ head :: xs →
  ∃ h2, list_add head x h = OK tt h2 ∧ list_pop_tail head h2 = OK x h.
Proof.
  intros Hl Hx Hn. assert (x ∈ dom h) as Hd by (eapply dlist_dom; [exact Hx|set_solver]).
  assert (x ≠ NULL) as Hnn by (destruct Hx as [_ Hz _]; set_solver).
  destruct (wp_elim _ _ _ (list_add_spec h head xs x Hl Hd Hnn Hn)) as ([] & h2 & E2 & Hl2 & [_ F2]).
  destruct (wp_elim _ _ _ (list_pop_tail_spec h2 head x xs Hl2)) as (r & h3 & E3 & -> & Hl3 & Hx3 & [_ F3]).
  exists h2. split; [done|]. rewrite E3. f_equal. apply map_eq. intros a.
  destruct (decide (a = x)) as [->|Ha]; [eapply dlist_ring_node; [exact Hx|done|set_solver]|].
  destruct (decide (a ∈ head :: xs)) as [Hin|Hout]; [exact (dlist_ring_node h h3 head xs a Hl Hl3 Hin)|].
  assert (a ∉ [x; head; after head xs]) as Hd'.
  { rewrite !not_elem_of_cons. split; [done|]. split; [set_solver|]. split; [|apply not_elem_of_nil].
    intros ->. apply Hout. destruct xs; simpl; set_solver. }
  by rewrite F3, F2.
Qed.

Section clock.
Context `{Layout} `{VmaNames} `{SwapLayout}.

Definition with_heap (h : lheap) (k : kernel) : kernel := set_km (set_heap h (km k)) k.
Abbreviation page_of x := (container_of x off_swap_node).

(** The walk only changes access bits and the lock of the mapping. *)
Lemma rmap_run_state page k u k' u' : rmap_run page k u k' u' →
  infos (km k') = infos (km k) ∧ heap (km k') = heap (km k) ∧ pages (km k') = pages (km k) ∧ this_cpu (km k') = this_cpu (km k) ∧
  swap_lock k' = swap_lock k.
Proof.
  intros (p & l & nodes & k2 & _ & _ & _ & _ & _ & _ & Ev & ->).
  destruct (replays_vmas nodes _ _ _ _ _ Ev) as (_ & (ph & ->) & _ & _). done.
Qed.

Lemma check_clock_round k x xs p k' : dlist (heap (km k)) swap_pages (x :: xs) → page_of x ≠ NULL → check_clock k = OK p k' →
  ∃ h1 pa k2 u, list_pop_tail swap_pages (heap (km k)) = OK x h1 ∧ dlist h1 swap_pages xs ∧ detached h1 x ∧
    page2pa (page_of x) (km k) = OK pa (km k) ∧ rmap_run (page_of x) (with_heap h1 k) (ClockInfo 0 pa) k2 u ∧
    (accessed u = 0 ∧ p = page_of x ∧ k' = k2 ∨
     accessed u ≠ 0 ∧ p = NULL ∧ ∃ h2, list_add swap_pages x h1 = OK tt h2 ∧ k' = with_heap h2 k2).
Proof.
  intros Hl Hp. destruct (wp_elim _ _ _ (list_pop_tail_spec _ _ _ _ Hl)) as (r & h1 & E1 & -> & Hl1 & Hx1 & _).
  unfold check_clock, on_list, on_km, on_heap, mbind, M_bind, zoom. rewrite E1. fold (with_heap h1 k).
  rewrite (proj2 (Z.eqb_neq _ _) Hp). set (pa := u64 (Z.shiftl ((page_of x - pages (km k)) `div` sizeof_page_info) PAGE_TABLE_SHIFT)).
  change (page2pa (page_of x) (km (with_heap h1 k))) with (OK (S := mem) pa (km (with_heap h1 k))).
  cbn iota beta. rewrite set_km_id. unfold with_udata.
  destruct (rmap_walk (page_of x) clock_walker (with_heap h1 k, ClockInfo 0 pa)) as [[] [k2 u]|r [k2 u]] eqn:Ew; [|done].
  apply rmap_walk_inv in Ew. pose proof (rmap_run_state _ _ _ _ _ Ew) as (_ & Eh & _).
  change (heap (km (with_heap h1 k))) with h1 in Eh.
  intros Hr. exists h1, pa, k2, u. split; [done|]. split; [done|]. split; [done|]. split; [done|]. split; [done|].
  revert Hr. destruct (accessed u =? 0) eqn:Ea; cbn [negb].
  - intros [= <- <-]. apply Z.eqb_eq in Ea. by left.
  - apply Z.eqb_neq in Ea. intros Hr. right. split; [done|].
    revert Hr. unfold mru_swap_page. rewrite (proj2 (Z.eqb_neq _ _) Hp). unfold remove_swap_page, add_swap_page, on_heap, mbind, M_bind, zoom.
    replace (page_of x + off_swap_node) with x by (unfold container_of; lia). rewrite Eh, (list_is_empty_spec _ _ _ Hx1).
    rewrite bool_decide_true by done. cbn [negb]. unfold mret, M_ret. cbn [heap set_heap]. rewrite (list_is_empty_spec _ _ _ Hx1).
    rewrite bool_decide_true by done. cbn [negb heap set_heap].
    destruct (list_add swap_pages x h1) as [[] h2|] eqn:E2; [|done]. intros [= <- <-]. split; [done|]. exists h2. done.
Qed.

(** After a round that found the page accessed, the next one takes it. *)
Lemma check_clock_again k x xs k' : dlist (heap (km k)) swap_pages (x :: xs) → page_of x ≠ NULL → check_clock k = OK NULL k' →
  ∃ k2, check_clock k' = OK (page_of x) k2 ∧ dlist (heap (km k2)) swap_pages xs ∧ swap_lock k2 = swap_lock k ∧
    this_cpu (km k2) = this_cpu (km k).
Proof.
  intros Hl Hp Hr. destruct (check_clock_round k x xs NULL k' Hl Hp Hr) as (h1 & pa & k2 & u & E1 & Hl1 & Hx1 & Epa & Hrun & Hcase).
  destruct Hcase as [(_ & E & _)|(_ & _ & h2 & E2 & ->)]; [congruence|].
  pose proof (rmap_run_state _ _ _ _ _ Hrun) as (Ei & Eh & Epg & Ecpu & Esl).
  cbn [with_heap km set_km infos set_heap heap pages swap_lock this_cpu] in Ei, Eh, Epg, Ecpu, Esl.
  assert (x ∉ swap_pages :: xs) as Hnx.
  { pose proof (dlist_nodup _ _ _ Hl) as Hnd. rewrite !NoDup_cons in Hnd. set_solver. }
  destruct (add_pop_id h1 swap_pages x xs Hl1 Hx1 Hnx) as (h2' & E2' & Epop). assert (h2' = h2) as -> by congruence.
  destruct (rmap_walk_again (page_of x) _ _ k2 u k2 Hrun) as (ls & Ew); [done|done|done|apply later_refl|].
  cbn [ci_pa] in Ew. exists (set_krmaps ls k2). split; [|by rewrite <-Eh in Hl1].
  unfold check_clock, on_list, on_km, on_heap, mbind, M_bind, zoom. cbn [with_heap km set_km set_heap heap]. rewrite Epop.
  rewrite (proj2 (Z.eqb_neq _ _) Hp).
  match goal with |- context [set_km (set_heap h1 ?m) ?k] => replace (set_km (set_heap h1 m) k) with k2
    by (rewrite <-Eh; symmetry; apply (set_heap_id k2)) end.
  unfold page2pa, gets, mbind, M_bind, mret, M_ret in *. rewrite Epg. injection Epa as Epa. rewrite Epa.
  rewrite set_km_id. unfold with_udata. rewrite Ew. done.
Qed.

Lemma get_page_spec k x xs p k1 : dlist (heap (km k)) swap_pages (x :: xs) → is_free (swap_lock k) → page_of x ≠ NULL →
  (lock_swap file_swap 99;; check_clock) k = OK p k1 →
  ∃ k', get_page 2 k = OK (page_of x) k' ∧ dlist (heap (km k')) swap_pages xs ∧ is_free (swap_lock k').
Proof.
  intros Hl Hf Hp. unfold get_page. cbn [clock_loop].
  unfold lock_swap, unlock_swap, gets, zoom, mbind, M_bind. unfold is_free in Hf.
  rewrite spin_lock_eq, holding_free by done. rewrite Hf. cbn [Z.eqb].
  set (kL := set_swap_lock _ k). assert (heap (km kL) = heap (km k)) as EhL by done. intros Hr.
  unfold on_list, on_km, on_heap, zoom. rewrite EhL, (list_is_empty_spec _ _ _ Hl). rewrite bool_decide_false by done.
  replace (set_km (set_heap (heap (km k)) (km kL)) kL) with kL by (symmetry; apply (set_heap_id kL)).
  assert (∀ k2 : kernel, swap_lock k2 = swap_lock kL → this_cpu (km k2) = this_cpu (km kL) →
    ∃ l, spin_unlock (this_cpu (km k2)) (swap_lock k2) = OK tt l ∧ locked l = 0) as Hun.
  { intros k2 -> ->. rewrite spin_unlock_eq, holding_held by done. by eexists. }
  rewrite Hr. destruct (check_clock_round kL x xs p k1) as (h1 & pa & k2 & u & E1 & Hl1 & Hx1 & Epa & Hrun & Hcase); [by rewrite EhL|done|done|].
  pose proof (rmap_run_state _ _ _ _ _ Hrun) as (_ & Eh & _ & Ecpu & Esl).
  destruct Hcase as [(_ & -> & ->)|(_ & -> & h2 & _ & ->)].
  - rewrite (proj2 (Z.eqb_neq _ _) Hp). unfold mret, M_ret. destruct (Hun k2 Esl Ecpu) as (l & -> & El). eexists. split; [done|]. cbn. by rewrite Eh.
  - cbn [Z.eqb NULL]. destruct (check_clock_again kL x xs (with_heap h2 k2)) as (k3 & E3 & Hl3 & Es3 & Ec3); [by rewrite EhL|done|done|].
    rewrite E3. rewrite (proj2 (Z.eqb_neq _ _) Hp). unfold mret, M_ret. destruct (Hun k3 Es3 Ec3) as (l & -> & El). by eexists.
Qed.
End clock.

Section properties.
Context `{Layout} `{VmaNames} `{Bus} `{SchedLayout} `{SwapLayout}.

(** When the first round of the clock does not fail,
    [get_page] returns after at most two rounds, and the page it returns is
    the first of the list: the one that was added last, whether it has been
    accessed or not.  It is off the list and the lock is free again.  (The
    comments describe a clock that moves accessed pages to the other end.) *)
Theorem get_page_takes_newest k x xs p k1 : dlist (heap (km k)) swap_pages (x :: xs) → is_free (swap_lock k) →
  container_of x off_swap_node ≠ NULL → (lock_swap file_swap 99;; check_clock) k = OK p k1 →
  ∃ k', get_page 2 k = OK (container_of x off_swap_node) k' ∧ dlist (heap (km k')) swap_pages xs ∧ is_free (swap_lock k').
Proof. apply get_page_spec. Qed.

(** [swap_in] never succeeds: whatever the disk answers, a call
    that returns reports an error, because the [return] behind the test of the
    result of [read] is unconditional. *)
Theorem swap_in_always_fails fuel entry s r s' : swap_in fuel entry s = OK r s' → r = -1 ∨ r = - EAGAIN.
Proof.
  unfold swap_in, mbind, M_bind. intros E. repeat (case_match; try done); unfold mret, M_ret in *; simplify_eq; auto.
Qed.

(** With an ATA disk that is idle and ready, [swap_out] takes a
    page off the list and a place on the disk, but then fails: the driver
    answers the first call with [-EAGAIN], which counts as a failure.  No entry
    is changed and no data has been written; the disk is left waiting for the
    data of this request, which the next call supplies from another page. *)
Theorem swap_out_first_call_fails c `{!Drive c} fuel s p ad page k' buf : disks s !! 1%nat = Some p →
  idle_disk c fuel s p ad → busy (ide_of (dv s)) = 0%nat → selected (ide_of (dv s)) = true →
  get_page fuel (kn s) = OK page k' → page ≠ NULL → page2kva page (km k') = OK buf (km k') → 0 ≤ free_disk_addr s →
  wp (swap_out fuel) (λ r s', r = -1 ∧ kn s' = k' ∧
    disk_objs s' !! p = Some (ata_ops (set_ata_st ATA_WRITE ad)) ∧
    platter (ide_of (dv s')) = platter (ide_of (dv s)) ∧ free_disk_addr s' = u64 (free_disk_addr s + PAGE_SIZE)) s.
Proof.
  intros Hd [Hat Hst _ Hl] Hb Hsel Hg Hp Hkva Ha. rewrite (upd_self s) at 1. unfold swap_out. wp_step.
  eapply wp_deref; [exact Hd|]. wp_step. unfold disk_poll. wp_step.
  eapply wp_deref; [apply Hat|]. eapply (ata_poll_spec c p ad); [exact Hat|done|]. intros d1 E1. rewrite Hb. cbn [Nat.eqb negb].
  wp_step. apply wp_dkern. eapply wp_OK; [exact Hg|]. rewrite (proj2 (Z.eqb_neq _ _) Hp). wp_step.
  unfold get_free_disk_addr. wp_step. wp_step. wp_step. wp_step. wp_step.
  change (set_free_disk_addr _ (upd s d1 k' (disk_objs s))) with
    (upd (set_free_disk_addr (u64 (free_disk_addr s + PAGE_SIZE)) s) d1 k' (disk_objs s)).
  set (s1 := set_free_disk_addr _ s). wp_step. unfold dmem. apply wp_dkern. unfold on_km. wp_step. eapply wp_OK; [exact Hkva|].
  rewrite set_km_id. wp_step. unfold disk_write. wp_step. eapply wp_deref; [apply Hat|].
  unfold ata_write. wp_step. eapply wp_ata_get; [apply Hat|]. wp_step. eapply wp_chan_get; [apply Hat|]. rewrite Hst.
  rewrite decide_True by done.
  eapply wp_mono; [eapply (issue_spec c fuel p ad PAGE_SIZE (free_disk_addr s) ATA_CMD_WRITE ATA_WRITE s1 d1 k' (disk_objs s))|].
  - destruct Hat as [Ho Hc Hdr Hu Hs]. split; try done. by rewrite E1.
  - rewrite E1. simpl. lia.
  - done.
  - by right.
  - cbv beta. intros r s2 (-> & d2 & -> & [Tu Tl Tp _ _]). change (s32 (- EAGAIN) <? 0) with true. cbv iota. wp_step.
    split; [done|]. split; [done|]. split; [apply lookup_insert_eq|]. split; [|done].
    change (dv (upd s1 d2 k' _)) with d2. rewrite Tp, E1. done.
Qed.
End properties.

(** ** A concrete machine: a task that has accessed its page, which is one of
    two on the swap list *)

#[local] Existing Instance demo_layout.
#[local] Existing Instance ata_demo_names.
#[local] Existing Instance ata_demo_sched.
#[local] Existing Instance ata_demo_ports.
#[local] Existing Instance ata_demo_bus.
#[local] Existing Instance ata_demo_drive.
#[local] Instance swap_demo : SwapLayout := {| file_swap := 16; str_swap_lock := 17; swap_thread_addr := 18 |}.

Definition swap_node (i : Z) : Z := 0x100000 + sizeof_page_info * i + off_swap_node.
Definition swap_heap : lheap := {[
  swap_pages := Node (swap_node 20) (swap_node 21);
  swap_node 20 := Node (swap_node 21) swap_pages;
  swap_node 21 := Node swap_pages (swap_node 20);
  0x8000 := Node (0x7000 + off_rmap_node) (0x7000 + off_rmap_node);
  0x7000 + off_rmap_node := Node 0x8000 0x8000 ]}.
Definition swap_phys : physmem := <[162 := {[ 0 := make_entry 20 39 ]}]> demo_phys.
Definition swap_kernel : kernel :=
  Kernel (Mem swap_heap {[ 0x100000 + sizeof_page_info * 20 := PageInfo 1 0 0 0 0x8000 ]} 0x100000 demo_n
      (SpinLock 0 0 0 0 0) swap_phys 0)
    (Rbs ∅ ∅) {[ 0x7000 := Vma 0 0x6000 0x8000 0x400000 0x401000 NULL 0 7 ]}
    {[ 0x6000 := set_task_pid 1 (set_task_pml4 (kva 16) task0) ]} {[ 0x8000 := SpinLock 0 0 0 0 0 ]} ∅ ∅ ∅ ∅
    (SpinLock 0 0 0 0 0) (16 * PAGE_SIZE) ∅ 0 0.

Lemma swap_demo_list : dlist (heap (km swap_kernel)) swap_pages [swap_node 20; swap_node 21].
Proof. split; [apply (bool_decide_unpack _); by vm_compute|apply (bool_decide_unpack _); by vm_compute|by repeat split]. Qed.

Definition swap_round : kernel := match (lock_swap file_swap 99;; check_clock) swap_kernel with OK _ k => k | Stop _ k => k end.

Lemma get_page_takes_newest_witness :
  ∃ k', get_page 2 swap_kernel = OK (0x100000 + sizeof_page_info * 20) k' ∧ dlist (heap (km k')) swap_pages [swap_node 21] ∧
    is_free (swap_lock k').
Proof.
  apply (get_page_takes_newest swap_kernel (swap_node 20) [swap_node 21] NULL swap_round swap_demo_list); [done|done|].
  vm_compute. reflexivity.
Defined.

(** The disk of AtaSpec.v as the second disk. *)
Definition swap_devices (k : kernel) : devices :=
  set_disks [NULL; 0x9000] (upd demo_devices demo_ide k (disk_objs demo_devices)).

Lemma swap_demo_idle k : idle_disk primary 4 (swap_devices k) 0x9000 (AtaDisk 0 0 ATA_IDLE 1024 512).
Proof. split; [split|..]; try done; [by left|cbn; lia..]. Qed.

Definition swap_taken : kernel := match get_page 4 swap_kernel with OK _ k => k | Stop _ k => k end.

Lemma swap_out_first_call_fails_witness :
  wp (swap_out 4) (λ r s', r = -1 ∧ free_disk_addr s' = PAGE_SIZE) (swap_devices swap_kernel).
Proof.
  eapply wp_mono; [apply (swap_out_first_call_fails primary 4 (swap_devices swap_kernel) 0x9000 (AtaDisk 0 0 ATA_IDLE 1024 512)
    (0x100000 + sizeof_page_info * 20) swap_taken (kva 20))|].
  - done.
  - apply swap_demo_idle.
  - done.
  - done.
  - vm_compute. reflexivity.
  - done.
  - vm_compute. reflexivity.
  - done.
  - cbv beta. intros r s' (-> & _ & _ & _ & ->). done.
Defined.

(** One free frame, for [page_alloc]. *)
Definition swap_free : kernel :=
  Kernel (Mem (<[free_list 0 := Node (0x100000 + sizeof_page_info * 30) (0x100000 + sizeof_page_info * 30)]>
      (<[0x100000 + sizeof_page_info * 30 := Node (free_list 0) (free_list 0)]>
        (list_to_map ((λ o, (free_list o, Node (free_list o) (free_list o))) <$> seqZ 0 10))))
      {[ 0x100000 + sizeof_page_info * 30 := PageInfo 0 0 1 0 0 ]} 0x100000 demo_n (SpinLock 0 0 0 0 0) demo_phys 0)
    (Rbs ∅ ∅) ∅ ∅ ∅ ∅ ∅ ∅ ∅ (SpinLock 0 0 0 0 0) (16 * PAGE_SIZE) ∅ 0 0.

Definition returns {S A} (o : outcome S A) : bool := match o with OK _ _ => true | Stop _ _ => false end.
Lemma returns_run {S A} (o : outcome S A) : returns o = true → ∃ a s, o = OK a s.
Proof. destruct o; [eauto|done]. Qed.

Lemma swap_in_always_fails_witness :
  ∃ r s', swap_in 4 (entry_ptr (kva 162) 0) (swap_devices swap_free) = OK r s' ∧ (r = -1 ∨ r = - EAGAIN).
Proof.
  destruct (returns_run (swap_in 4 (entry_ptr (kva 162) 0) (swap_devices swap_free))) as (r & s' & Er);
    [vm_compute; reflexivity|].
  exists r, s'. split; [exact Er|]. exact (swap_in_always_fails 4 _ _ r s' Er).
Defined.
