(* ===== verification/Segments.v ===== *)
(** * Descriptor tables (include/x86-64/gdt.h, idt.h, kernel/sched/gdt.c, idt.c)

    The tables the kernel builds for the processor: segments, the task state
    segment of each CPU, and the interrupt gates.  The model has two sides.
    The kernel's side fills the packed C structs.  The processor's side reads
    the same bits by the layout of the AMD64 manual: it loads segment and task
    registers, finds the gate of a vector and checks privileges.  The theorems
    say what the processor makes of what the kernel wrote. *)

From S2P Require Import Prelude Paging Task Sched.

Local Open Scope Z_scope.

(** ** Constants *)

Definition GDT_RW : Z := Z.shiftl 1 1.
Definition GDT_EXEC : Z := Z.shiftl 1 3.
Definition GDT_DEFAULT : Z := Z.shiftl 1 4.
Definition GDT_PRIVL (x : Z) : Z := Z.shiftl (Z.land x 0x3) 5.
Definition GDT_PRESENT : Z := Z.shiftl 1 7.
Definition GDT_LIMIT (x : Z) : Z := Z.shiftl (Z.land x 0xF) 8.
Definition GDT_LONG_MODE : Z := Z.shiftl 1 13.
Definition GDT_TSS64 : Z := 9.
Definition GDT_KCODE_FLAGS : Z := Z.lor GDT_RW (Z.lor GDT_EXEC (Z.lor GDT_DEFAULT GDT_PRESENT)).
Definition GDT_KDATA_FLAGS : Z := Z.lor GDT_RW (Z.lor GDT_DEFAULT GDT_PRESENT).
Definition GDT_UCODE_FLAGS : Z := Z.lor GDT_KCODE_FLAGS (GDT_PRIVL 3).
Definition GDT_UDATA_FLAGS : Z := Z.lor GDT_KDATA_FLAGS (GDT_PRIVL 3).
Definition GDT_TSS_FLAGS : Z := Z.lor GDT_PRESENT GDT_TSS64.
Definition GDT_TSS0 : Z := 0x28.

Definition IDT_GATE (x : Z) : Z := Z.shiftl (Z.land x 0xF) 8.
Definition IDT_PRIVL (x : Z) : Z := Z.shiftl (Z.land x 0x3) 13.
Definition IDT_PRESENT : Z := Z.shiftl 1 15.
Definition IDT_INT_GATE32 : Z := IDT_GATE 0xE.

Definition INT_DIVIDE : Z := 0.
Definition INT_DEBUG : Z := 1.
Definition INT_NMI : Z := 2.
Definition INT_OVERFLOW : Z := 4.
Definition INT_BOUND : Z := 5.
Definition INT_INVALID_OP : Z := 6.
Definition INT_DEVICE : Z := 7.
Definition INT_DOUBLE_FAULT : Z := 8.
Definition INT_TSS : Z := 10.
Definition INT_NO_SEG_PRESENT : Z := 11.
Definition INT_SS : Z := 12.
Definition INT_GPF : Z := 13.
Definition INT_FPU : Z := 16.
Definition INT_ALIGNMENT : Z := 17.
Definition INT_MCE : Z := 18.
Definition INT_SIMD : Z := 19.
Definition INT_SECURITY : Z := 30.

(** ** The C structs *)

Record gdt_entry := GdtEntry { limit_low : Z; base_low : Z; base_middle : Z; gflags : Z; base_high : Z }.
Record tss := Tss { tss_rsp : list Z; tss_ist : list Z; iomap_base : Z }.
Record idt_entry := IdtEntry { offset_lo : Z; isel : Z; iflags : Z; offset_hi : Z; always0 : Z }.

(** The packed structs as little-endian numbers. *)
Definition gdt_word (e : gdt_entry) : Z :=
  limit_low e + base_low e * 2 ^ 16 + base_middle e * 2 ^ 32 + gflags e * 2 ^ 40 + base_high e * 2 ^ 56.
Definition idt_word (e : idt_entry) : Z :=
  offset_lo e + isel e * 2 ^ 16 + iflags e * 2 ^ 32 + offset_hi e * 2 ^ 48 + always0 e * 2 ^ 112.
Definition le64 (l : list Z) : Z := foldr (λ x v, x + v * 2 ^ 64) 0 l.
Definition tss_word (t : tss) : Z :=
  le64 (tss_rsp t) * 2 ^ 32 + le64 (tss_ist t) * 2 ^ 288 + iomap_base t * 2 ^ 816.

Definition sizeof_tss : Z := 104.
Definition off_cpu_tss : Z := 16.

(** ** What the kernel writes *)

Definition set_gdt_entry (base limit flags : Z) : gdt_entry :=
  GdtEntry (Z.land limit 0xFFFF) (Z.land base 0xFFFF) (Z.land (Z.shiftr base 16) 0xFF)
    (u16 (Z.lor flags (GDT_LIMIT (Z.shiftr limit 16)))) (Z.land (Z.shiftr base 24) 0xFF).

(** [set_tss_entry]: the two words of the entry; [old] is the second one
    before, whose upper half, [always0], is kept. *)
Definition set_tss_entry (tss old : Z) : Z * Z :=
  (gdt_word (set_gdt_entry tss sizeof_tss GDT_TSS_FLAGS),
   Z.land (Z.shiftr tss 32) 0xFFFFFFFF + old / 2 ^ 32 * 2 ^ 32).

Definition set_idt_entry (e : idt_entry) (offset flags sel : Z) : idt_entry :=
  IdtEntry (Z.land offset 0xFFFF) (u16 sel) (u16 (u32 flags)) (Z.land (Z.shiftr offset 16) 0xFFFFFFFFFFFF) (always0 e).

(** ** What the processor reads (AMD64 manual, volume 2, chapters 4, 8 and 12) *)

Definition field (lo n v : Z) : Z := (v / 2 ^ lo) `mod` 2 ^ n.

Definition seg_type (w : Z) : Z := field 40 4 w.
Definition seg_user (w : Z) : bool := field 44 1 w =? 1.  (** code or data, not a system segment *)
Definition seg_dpl (w : Z) : Z := field 45 2 w.
Definition seg_present (w : Z) : bool := field 47 1 w =? 1.
Definition seg_long (w : Z) : bool := field 53 1 w =? 1.
Definition seg_limit (w : Z) : Z := field 0 16 w + field 48 4 w * 2 ^ 16.
Definition sys_base (w w' : Z) : Z := field 16 24 w + field 56 8 w * 2 ^ 24 + field 0 32 w' * 2 ^ 32.

Record gate := Gate { g_target : Z; g_sel : Z; g_type : Z; g_dpl : Z }.
(** The gate of a descriptor, if it is present. *)
Definition decode_gate (w : Z) : option gate :=
  if field 47 1 w =? 1 then
    Some (Gate (field 0 16 w + field 48 16 w * 2 ^ 16 + field 64 32 w * 2 ^ 32) (field 16 16 w) (field 40 4 w) (field 45 2 w))
  else None.

(** The registers of one CPU.  [tr_base] and [tr_limit] are the hidden part of
    the task register, loaded by [ltr] and used from then on. *)
Record seg_regs := SegRegs {
  r_gdt : option (Z * Z);  (** base and limit *)
  r_idt : option (Z * Z);
  r_cs : Z; r_ds : Z; r_es : Z; r_ss : Z;
  r_tr : Z; tr_base : Z; tr_limit : Z;
}.
Definition regs0 : seg_regs := SegRegs None None 0 0 0 0 0 0 0.

Definition set_r_gdt (x : option (Z * Z)) (r : seg_regs) : seg_regs :=
  SegRegs x (r_idt r) (r_cs r) (r_ds r) (r_es r) (r_ss r) (r_tr r) (tr_base r) (tr_limit r).
Definition set_r_idt (x : option (Z * Z)) (r : seg_regs) : seg_regs :=
  SegRegs (r_gdt r) x (r_cs r) (r_ds r) (r_es r) (r_ss r) (r_tr r) (tr_base r) (tr_limit r).
Definition set_r_segs (c d : Z) (r : seg_regs) : seg_regs :=
  SegRegs (r_gdt r) (r_idt r) c d d d (r_tr r) (tr_base r) (tr_limit r).
Definition set_r_tr (sel base limit : Z) (r : seg_regs) : seg_regs :=
  SegRegs (r_gdt r) (r_idt r) (r_cs r) (r_ds r) (r_es r) (r_ss r) sel base limit.

(** ** State: the two tables, the TSS of each CPU, the registers of each CPU *)

Record segs := Segs {
  gdt_entries : list Z;
  entries : list idt_entry;
  cpu_tss : gmap Z tss;
  regs : gmap Z seg_regs;
}.
Definition set_gdt (x : list Z) (s : segs) : segs := Segs x (entries s) (cpu_tss s) (regs s).
Definition set_entries (x : list idt_entry) (s : segs) : segs := Segs (gdt_entries s) x (cpu_tss s) (regs s).
Definition set_cpu_tss (x : gmap Z tss) (s : segs) : segs := Segs (gdt_entries s) (entries s) x (regs s).
Definition set_regs (x : gmap Z seg_regs) (s : segs) : segs := Segs (gdt_entries s) (entries s) (cpu_tss s) x.

(** The initialisers of [gdt_entries] and [entries], and the zeroed [cpus]. *)
Definition entry_flags (f : Z) : Z := gdt_word (GdtEntry 0 0 0 f 0).
Definition gdt_entries0 : list Z :=
  [0; entry_flags (Z.lor GDT_KCODE_FLAGS GDT_LONG_MODE); entry_flags GDT_KDATA_FLAGS;
   entry_flags GDT_UDATA_FLAGS; entry_flags (Z.lor GDT_UCODE_FLAGS GDT_LONG_MODE); 0; 0].
Definition entries0 : list idt_entry := replicate 256 (IdtEntry 0 0 0 0 0).
Definition tss0 : tss := Tss [0; 0; 0] (replicate 7 0) 0.

(** Addresses the linker chooses: the tables and the handlers of isr.S. *)
Class SegLayout := { gdt_addr : Z; idt_addr : Z; isr : Z → Z }.

Section segments.
Context `{SegLayout}.

Definition upd_regs (cpu : Z) (f : seg_regs → seg_regs) : M segs unit :=
  r ← deref (λ s, regs s !! cpu);
  modify (λ s, set_regs (<[cpu := f r]> (regs s)) s).

Definition gdt_at (sel : Z) : M segs Z := deref (λ s, gdt_entries s !! Z.to_nat (sel / 8)).

(** [lgdt], then loads of the data segments, and [iretq], which loads [%cs] and
    [%ss].  A null, absent or unsuitable descriptor is a fault. *)
Definition load_gdt (cpu code_sel data_sel : Z) : M segs unit :=
  n ← gets (λ s, Z.of_nat (length (gdt_entries s)));
  upd_regs cpu (set_r_gdt (Some (gdt_addr, n * 8 - 1)));;
  c ← gdt_at code_sel;
  d ← gdt_at data_sel;
  (if seg_present c && seg_user c && has (seg_type c) 8 && seg_long c &&
      (seg_present d && seg_user d && negb (has (seg_type d) 8))
   then mret tt else halt Fault);;
  upd_regs cpu (set_r_segs code_sel data_sel).

(** [ltr]: the descriptor must be an available TSS; it becomes busy. *)
Definition load_task_sel (cpu sel : Z) : M segs unit :=
  w ← gdt_at sel;
  w' ← gdt_at (sel + 8);
  (if seg_present w && negb (seg_user w) && (seg_type w =? GDT_TSS64) then mret tt else halt Fault);;
  modify (λ s, set_gdt (<[Z.to_nat (sel / 8) := Z.lor w (2 ^ 41)]> (gdt_entries s)) s);;
  upd_regs cpu (set_r_tr sel (sys_base w w') (seg_limit w)).

Definition load_idt (cpu : Z) : M segs unit :=
  n ← gets (λ s, Z.of_nat (length (entries s)));
  upd_regs cpu (set_r_idt (Some (idt_addr, n * 16 - 1))).

(** ** kernel/sched/gdt.c; [cpu] is [this_cpu] *)

Definition write_tss_entry (tss : Z) : M segs unit :=
  old ← gdt_at (GDT_TSS0 + 8);
  let (w, w') := set_tss_entry tss old in
  modify (λ s, set_gdt (<[Z.to_nat (GDT_TSS0 / 8) := w]> (<[Z.to_nat (GDT_TSS0 / 8 + 1) := w']> (gdt_entries s))) s).

Definition gdt_init_mp (cpu : Z) : M segs unit :=
  write_tss_entry (cpu + off_cpu_tss);;
  load_gdt cpu GDT_KCODE GDT_KDATA;;
  load_task_sel cpu GDT_TSS0.

Definition set_rsp0 (cpu v : Z) : M segs unit :=
  t ← deref (λ s, cpu_tss s !! cpu);
  modify (λ s, set_cpu_tss (<[cpu := Tss (<[0%nat := v]> (tss_rsp t)) (tss_ist t) (iomap_base t)]> (cpu_tss s)) s).

Definition gdt_init (cpu : Z) : M segs unit :=
  set_rsp0 cpu KSTACK_TOP;;
  write_tss_entry (cpu + off_cpu_tss);;
  load_gdt cpu GDT_KCODE GDT_KDATA;;
  load_task_sel cpu GDT_TSS0.

(** ** kernel/sched/idt.c *)

(** [set_idt_entry(&entries[v], handler, flags, GDT_KCODE)] *)
Definition set_entry (v handler flags : Z) : M segs unit :=
  e ← deref (λ s, entries s !! Z.to_nat v);
  modify (λ s, set_entries (<[Z.to_nat v := set_idt_entry e handler flags GDT_KCODE]> (entries s)) s).

Definition idt_init (cpu : Z) : M segs unit :=
  let flags := Z.lor IDT_PRESENT (Z.lor (IDT_PRIVL 0) IDT_INT_GATE32) in
  let flags_brk_and_sys := Z.lor IDT_PRESENT (Z.lor (IDT_PRIVL 3) IDT_INT_GATE32) in
  set_entry INT_DIVIDE (isr 0) flags;;
  set_entry INT_DEBUG (isr 1) flags;;
  set_entry INT_NMI (isr 2) flags;;
  set_entry INT_BREAK (isr 3) flags_brk_and_sys;;
  set_entry INT_OVERFLOW (isr 4) flags;;
  set_entry INT_BOUND (isr 5) flags;;
  set_entry INT_INVALID_OP (isr 6) flags;;
  set_entry INT_DEVICE (isr 7) flags;;
  set_entry INT_DOUBLE_FAULT (isr 8) flags;;
  set_entry INT_TSS (isr 10) flags;;
  set_entry INT_NO_SEG_PRESENT (isr 11) flags;;
  set_entry INT_SS (isr 12) flags;;
  set_entry INT_GPF (isr 13) flags;;
  set_entry INT_PAGE_FAULT (isr 14) flags;;
  set_entry INT_FPU (isr 16) flags;;
  set_entry INT_ALIGNMENT (isr 17) flags;;
  set_entry INT_MCE (isr 18) flags;;
  set_entry INT_SIMD (isr 19) flags;;
  set_entry INT_SECURITY (isr 30) flags;;
  set_entry IRQ_TIMER (isr 32) flags;;
  set_entry INT_SYSCALL (isr 128) flags_brk_and_sys;;
  load_idt cpu.

Definition idt_init_mp (cpu : Z) : M segs unit := load_idt cpu.
End segments.

(** ** What the processor does with the tables *)

(** The gate that the instruction [int v] enters at privilege level [cpl]; a
    missing gate or one of a higher privilege is a protection fault. *)
Definition soft_int (s : segs) (cpl v : Z) : option gate :=
  e ← entries s !! Z.to_nat v;
  g ← decode_gate (idt_word e);
  if cpl <=? g_dpl g then Some g else None.

(** Whether an I/O instruction on the byte [port] is permitted outside the
    kernel ([CPL > IOPL]): both bytes of the permission bitmap that the
    processor reads lie within the TSS, and the port's bit is clear. *)
Definition io_permitted (r : seg_regs) (t : tss) (port : Z) : bool :=
  let byte := iomap_base t + port / 8 in
  (byte + 1 <=? tr_limit r) && (field (byte * 8 + port `mod` 8) 1 (tss_word t) =? 0).
