(* ===== verification/SegmentsSpec.v ===== *)
(** * Properties of the descriptor tables

    What the processor finds in the tables after [idt_init], [gdt_init] and
    [gdt_init_mp]: the gate of every vector, the task state segment of every
    CPU, and the I/O ports that user code may use. *)

From S2P Require Import Prelude Paging Task Sched Segments.

Local Open Scope Z_scope.

(** ** Fields of packed words *)

Lemma land_ones_div x k n : 0 ≤ k → 0 ≤ n → Z.land (Z.shiftr x k) (2 ^ n - 1) = (x / 2 ^ k) `mod` 2 ^ n.
Proof. intros Hk Hn. by rewrite land_ones_mod, Z.shiftr_div_pow2 by lia. Qed.

(** The address of a handler, cut in the three pieces of a gate, put together. *)
Lemma gate_of_entry e off flags sel : 0 ≤ off < 2 ^ 64 → 0 ≤ sel < 2 ^ 16 → 0 ≤ flags < 2 ^ 16 →
  0 ≤ always0 e < 2 ^ 16 →
  decode_gate (idt_word (set_idt_entry e off flags sel)) =
    (if field 15 1 flags =? 1 then Some (Gate off sel (field 8 4 flags) (field 13 2 flags)) else None).
Proof.
  intros Ho Hs Hf Ha. unfold decode_gate, idt_word, set_idt_entry, u16, u32, offset_lo, isel, iflags, offset_hi.
  change 0xFFFF with (2 ^ 16 - 1). change 0xFFFFFFFFFFFF with (2 ^ 48 - 1).
  rewrite land_ones_mod, land_ones_div, (Z.mod_small sel), (Z.mod_small flags (2 ^ 32)), (Z.mod_small flags) by lia.
  unfold field. destruct e as [a b c d z]. cbn [always0] in *.
  set (lo := off `mod` 2 ^ 16). set (hi := (off / 2 ^ 16) `mod` 2 ^ 48).
  assert (0 ≤ lo < 2 ^ 16) by (by apply Z.mod_pos_bound). assert (0 ≤ hi < 2 ^ 48) by (by apply Z.mod_pos_bound).
  assert (off = lo + hi * 2 ^ 16) as Eo.
  { subst lo hi. rewrite (Z.mod_small (off / 2 ^ 16)) by mlia. mlia. }
  clearbody lo hi. set (w := lo + sel * 2 ^ 16 + flags * 2 ^ 32 + hi * 2 ^ 48 + z * 2 ^ 112).
  assert ((w / 2 ^ 47) `mod` 2 ^ 1 = (flags / 2 ^ 15) `mod` 2 ^ 1) as -> by (subst w; mlia).
  destruct (_ =? 1); [|done]. f_equal. f_equal; subst w; mlia.
Qed.

(** ** The interrupt descriptor table *)

Section idt.
Context `{SegLayout}.

(** The vectors that have a handler, and those of them that user code may call. *)
Definition handled : list Z := [0; 1; 2; 3; 4; 5; 6; 7; 8; 10; 11; 12; 13; 14; 16; 17; 18; 19; 30; 32; 128].
Definition from_user : list Z := [INT_BREAK; INT_SYSCALL].

(** The gate the kernel means a vector to have. *)
Definition meant_gate (v : Z) : option gate :=
  if decide (v ∈ handled) then Some (Gate (isr v) GDT_KCODE 0xE (if decide (v ∈ from_user) then 3 else 0)) else None.

(** The table has the gates [m]. *)
Definition has_gates (m : gmap Z gate) (s : segs) : Prop :=
  length (entries s) = 256%nat ∧
  ∀ v, 0 ≤ v < 256 → ∃ e, entries s !! Z.to_nat v = Some e ∧ 0 ≤ always0 e < 2 ^ 16 ∧ decode_gate (idt_word e) = m !! v.

Lemma has_gates_start s : entries s = entries0 → has_gates ∅ s.
Proof.
  intros E. split; [by rewrite E|]. intros v Hv. exists (IdtEntry 0 0 0 0 0). rewrite E.
  split; [|done]. apply lookup_replicate_2. lia.
Qed.

Lemma set_entry_spec (Q : unit → segs → Prop) m v p s : (∀ v, 0 ≤ isr v < 2 ^ 64) → 0 ≤ v < 256 → 0 ≤ p < 4 →
  has_gates m s →
  (∀ es, has_gates (<[v := Gate (isr v) GDT_KCODE 0xE p]> m) (set_entries es s) → Q tt (set_entries es s)) →
  wp (set_entry v (isr v) (Z.lor IDT_PRESENT (Z.lor (IDT_PRIVL p) IDT_INT_GATE32))) Q s.
Proof.
  intros Hisr Hv Hp [Hl Hg] HQ. destruct (Hg v Hv) as (e & Ee & Ha & _). unfold set_entry. wp_step.
  eapply wp_deref; [exact Ee|]. wp_step. apply HQ. split; [cbn [entries set_entries]; by rewrite length_insert|]. intros u Hu. cbn [entries set_entries].
  destruct (decide (u = v)) as [->|Hne].
  - eexists. rewrite list_lookup_insert_eq by lia. split; [done|]. split; [done|]. rewrite lookup_insert_eq.
    assert (p = 0 ∨ p = 1 ∨ p = 2 ∨ p = 3) as [-> | [-> | [-> | ->]]] by lia; rewrite gate_of_entry by done; done.
  - destruct (Hg u Hu) as (e' & Ee' & Ha' & Ed'). exists e'. rewrite list_lookup_insert_ne by lia.
    split; [done|]. split; [done|]. by rewrite lookup_insert_ne.
Qed.

(** All gates of [idt_init], and the register. *)
Lemma idt_init_spec cpu s r : (∀ v, 0 ≤ isr v < 2 ^ 64) → entries s = entries0 → regs s !! cpu = Some r →
  wp (idt_init cpu) (λ _ s', gdt_entries s' = gdt_entries s ∧ cpu_tss s' = cpu_tss s ∧
    regs s' = <[cpu := set_r_idt (Some (idt_addr, 4095)) r]> (regs s) ∧
    ∀ v, 0 ≤ v < 256 → ∃ e, entries s' !! Z.to_nat v = Some e ∧ decode_gate (idt_word e) = meant_gate v) s.
Proof.
  intros Hisr E0 Hr. apply has_gates_start in E0 as Hg. clear E0. unfold idt_init.
  do 21 (wp_step; eapply set_entry_spec; [exact Hisr|done|done|exact Hg|]; clear Hg; intros ? Hg).
  unfold load_idt. wp_step. wp_step. destruct Hg as [Hl Hg]. rewrite Hl. unfold upd_regs. wp_step.
  eapply wp_deref; [exact Hr|]. wp_step. split; [done|]. split; [done|]. split; [done|].
  intros v Hv. destruct (Hg v Hv) as (e & Ee & _ & Ed). exists e. split; [exact Ee|]. rewrite Ed.
  clear. rewrite !lookup_insert, lookup_empty. unfold meant_gate.
  do 21 (match goal with |- context [decide (?a = v)] => destruct (decide (a = v)) as [<-|?]; [by vm_compute|] end).
  rewrite decide_False; [done|]. unfold handled. rewrite !elem_of_cons, elem_of_nil. intros Hin.
  destruct_or! Hin; [subst v; match goal with E : _ ≠ _ |- _ => exact (E eq_refl) end..|done].
Qed.

(** C31 (safety).  After [idt_init] the processor finds for each of the 256
    vectors the gate that is meant for it: the handler of that vector, in the
    kernel's code segment, with interrupts off, or no gate at all.  So user
    code ([CPL] 3) can enter the kernel by [int 3] and [int 128] only. *)
Theorem idt_init_correct cpu s r : (∀ v, 0 ≤ isr v < 2 ^ 64) → entries s = entries0 → regs s !! cpu = Some r →
  wp (idt_init cpu) (λ _ s', (r_idt <$> regs s' !! cpu) = Some (Some (idt_addr, 4095)) ∧
    ∀ v, 0 ≤ v < 256 →
      soft_int s' 0 v = meant_gate v ∧
      soft_int s' 3 v = (if decide (v ∈ from_user) then Some (Gate (isr v) GDT_KCODE 0xE 3) else None)) s.
Proof.
  intros Hisr E0 Hr. eapply wp_mono; [by eapply idt_init_spec|]. cbv beta. intros _ s' (_ & _ & Er & Hg).
  split; [by rewrite Er, lookup_insert_eq|]. intros v Hv. destruct (Hg v Hv) as (e & Ee & Ed).
  unfold soft_int. rewrite Ee. cbn. rewrite Ed. unfold meant_gate. destruct (decide (v ∈ from_user)) as [Hu|Hu].
  - rewrite decide_True; [done|]. unfold from_user in Hu. rewrite !elem_of_cons, elem_of_nil in Hu.
    destruct Hu as [-> | [-> | []]]; by apply (bool_decide_unpack _).
  - by destruct (decide _).
Qed.
End idt.

(** ** Segments and task state segments *)

Lemma tss_entry_decodes tss old : 0 ≤ tss < 2 ^ 64 → 0 ≤ old →
  let (w, w') := set_tss_entry tss old in
  sys_base w w' = tss ∧ seg_limit w = sizeof_tss ∧ seg_present w = true ∧ seg_user w = false ∧ seg_type w = GDT_TSS64 ∧ 0 ≤ w'.
Proof.
  intros Ht Ho. unfold set_tss_entry, set_gdt_entry, gdt_word. cbn [limit_low base_low base_middle gflags base_high].
  change (u16 _) with 0x89. change (Z.land sizeof_tss 0xFFFF) with 104. change 0xFFFF with (2 ^ 16 - 1). change 0xFF with (2 ^ 8 - 1).
  change 0xFFFFFFFF with (2 ^ 32 - 1). rewrite land_ones_mod, !land_ones_div by lia.
  unfold sys_base, seg_limit, seg_present, seg_user, seg_type, field, sizeof_tss, GDT_TSS64.
  assert (0 ≤ old / 2 ^ 32) by (apply Z.div_pos; lia). assert (0 ≤ tss / 2 ^ 32 < 2 ^ 32) as Hh by mlia.
  rewrite (Z.mod_small (tss / 2 ^ 32)) by done. set (w := _ + _ + _ + _ + _). set (q := old / 2 ^ 32) in *. clearbody q.
  change (2 ^ 0) with 1. rewrite !Z.div_1_r, Z_mod_plus_full, (Z.mod_small (tss / 2 ^ 32)) by done.
  rewrite !Z.eqb_eq, Z.eqb_neq. subst w. repeat split; mlia.
Qed.

Section gdt.
Context `{SegLayout}.

(** The code and data segments are as initialised; the last two words are for
    the task state segment. *)
Definition gdt_ok (s : segs) : Prop := ∃ w w', gdt_entries s = take 5 gdt_entries0 ++ [w; w'] ∧ 0 ≤ w'.

(** The registers of a CPU that has been through the set-up. *)
Definition kernel_regs (cpu : Z) (r : seg_regs) : seg_regs :=
  set_r_tr GDT_TSS0 (cpu + off_cpu_tss) sizeof_tss
    (set_r_segs GDT_KCODE GDT_KDATA (set_r_gdt (Some (gdt_addr, 55)) r)).

Lemma gdt_init_mp_spec cpu s r : gdt_ok s → regs s !! cpu = Some r → 0 ≤ cpu + off_cpu_tss < 2 ^ 64 →
  wp (gdt_init_mp cpu) (λ _ s', gdt_ok s' ∧ entries s' = entries s ∧ cpu_tss s' = cpu_tss s ∧
    regs s' = <[cpu := kernel_regs cpu r]> (regs s)) s.
Proof.
  intros (w & w' & Eg & Hw') Hr Hc. unfold gdt_init_mp, write_tss_entry, gdt_at. wp_step. wp_step.
  eapply wp_deref; [by rewrite Eg|]. cbv beta.
  pose proof (tss_entry_decodes (cpu + off_cpu_tss) w' Hc Hw') as Hd. destruct (set_tss_entry _ _) as [v v'].
  destruct Hd as (Eb & El & Ep & Eu & Et & Hv'). wp_step. rewrite Eg. unfold load_gdt. do 4 wp_step.
  unfold upd_regs at 1. wp_step. eapply wp_deref; [exact Hr|]. wp_step. unfold gdt_at. wp_step.
  eapply wp_deref; [reflexivity|]. wp_step. eapply wp_deref; [reflexivity|]. wp_step.
  match goal with |- wp (if ?b then _ else _) _ _ => change b with true end. cbv iota. wp_step.
  unfold upd_regs at 1. wp_step. eapply wp_deref; [cbn; apply lookup_insert_eq|]. wp_step.
  unfold load_task_sel, gdt_at. wp_step. eapply wp_deref; [reflexivity|]. wp_step. eapply wp_deref; [reflexivity|].
  rewrite Ep, Eu, Et. cbn [negb andb]. rewrite Z.eqb_refl. wp_step. wp_step. wp_step. wp_step.
  unfold upd_regs. wp_step. eapply wp_deref; [cbn; apply lookup_insert_eq|]. wp_step. rewrite Eb, El.
  split; [by exists (Z.lor v (2 ^ 41)), v'|]. split; [done|]. split; [done|]. cbn. by rewrite !insert_insert_eq.
Qed.

(** The other CPUs set up their segments one after the other ([boot_cpus]
    waits for each). *)
Fixpoint gdt_init_aps (cpus : list Z) : M segs unit :=
  match cpus with
  | [] => mret tt
  | cpu :: cpus => gdt_init_mp cpu;; gdt_init_aps cpus
  end.

Definition in_kernel (s s' : segs) (cpu : Z) : Prop := ∃ r, regs s !! cpu = Some r ∧ regs s' !! cpu = Some (kernel_regs cpu r).

Lemma gdt_init_aps_spec cpus : ∀ s, gdt_ok s → NoDup cpus →
  (∀ c, c ∈ cpus → is_Some (regs s !! c) ∧ 0 ≤ c + off_cpu_tss < 2 ^ 64) →
  wp (gdt_init_aps cpus) (λ _ s', cpu_tss s' = cpu_tss s ∧ (∀ c, c ∈ cpus → in_kernel s s' c) ∧
    ∀ c, c ∉ cpus → regs s' !! c = regs s !! c) s.
Proof.
  induction cpus as [|c cpus IH]; intros s Hs Hnd Hc; cbn [gdt_init_aps]; wp_step; [set_solver|].
  apply NoDup_cons in Hnd as [Hn Hnd]. destruct (Hc c) as [[r Hr] Ha]; [set_solver|].
  eapply wp_mono; [by apply (gdt_init_mp_spec c s r)|]. cbv beta. intros _ s1 (Hs1 & _ & Et & Er).
  eapply wp_mono; [apply IH; [done|done|]|cbv beta].
  - intros c' Hc'. rewrite Er, lookup_insert_ne by set_solver. apply Hc. set_solver.
  - intros _ s2 (Et2 & Hin & Hout). split; [congruence|]. split.
    + intros c' [->|Hc']%elem_of_cons.
      * exists r. split; [done|]. by rewrite Hout, Er, lookup_insert_eq.
      * destruct (Hin c' Hc') as (r' & Hr' & E'). exists r'. split; [|done]. by rewrite Er, lookup_insert_ne in Hr' by set_solver.
    + intros c' Hc'. rewrite Hout, Er by set_solver. apply lookup_insert_ne. set_solver.
Qed.

Lemma gdt_init_spec cpu s r t : gdt_ok s → regs s !! cpu = Some r → cpu_tss s !! cpu = Some t → 0 ≤ cpu + off_cpu_tss < 2 ^ 64 →
  wp (gdt_init cpu) (λ _ s', gdt_ok s' ∧
    cpu_tss s' = <[cpu := Tss (<[0%nat := KSTACK_TOP]> (tss_rsp t)) (tss_ist t) (iomap_base t)]> (cpu_tss s) ∧
    regs s' = <[cpu := kernel_regs cpu r]> (regs s)) s.
Proof.
  intros Hs Hr Ht Hc. unfold gdt_init. wp_step. unfold set_rsp0. wp_step. eapply wp_deref; [exact Ht|]. wp_step.
  set (s1 := set_cpu_tss _ s). eapply wp_mono; [apply (gdt_init_mp_spec cpu s1 r); done|].
  cbv beta. intros _ s' (? & _ & ? & ?). done.
Qed.

(** All CPUs share one entry of the global descriptor table
    for their task state segments, yet each ends up with its own: when the
    boot CPU and then the others have set up their segments, every CPU runs
    in the 64-bit kernel code segment and its task register refers to its own
    TSS; the boot CPU enters the kernel on the stack at [KSTACK_TOP]. *)
Theorem gdt_init_per_cpu boot aps s t : gdt_ok s → NoDup (boot :: aps) → cpu_tss s !! boot = Some t → length (tss_rsp t) = 3%nat →
  (∀ c, c ∈ boot :: aps → is_Some (regs s !! c) ∧ 0 ≤ c + off_cpu_tss < 2 ^ 64) →
  wp (gdt_init boot;; gdt_init_aps aps) (λ _ s',
    (∀ c, c ∈ boot :: aps → in_kernel s s' c) ∧
    (∃ t', cpu_tss s' !! boot = Some t' ∧ tss_rsp t' !! 0%nat = Some KSTACK_TOP)) s.
Proof.
  intros Hs [Hn Hnd]%NoDup_cons Ht Hl Hc. destruct (Hc boot) as [[r Hr] Ha]; [set_solver|]. wp_step.
  eapply wp_mono; [by apply (gdt_init_spec boot s r t)|]. cbv beta. intros _ s1 (Hs1 & Et & Er).
  eapply wp_mono; [apply gdt_init_aps_spec; [done|done|]|cbv beta].
  - intros c' Hc'. rewrite Er, lookup_insert_ne by set_solver. apply Hc. set_solver.
  - intros _ s2 (Et2 & Hin & Hout). split.
    + intros c [->|Hcs]%elem_of_cons; [exists r; split; [done|]; by rewrite Hout, Er, lookup_insert_eq|].
      destruct (Hin c Hcs) as (r' & Hr' & E'). exists r'. split; [|done]. by rewrite Er, lookup_insert_ne in Hr' by set_solver.
    + eexists. split; [by rewrite Et2, Et, lookup_insert_eq|]. cbn. apply list_lookup_insert_eq. lia.
Qed.

(** The bits of a TSS with nothing but a kernel stack in it. *)
Lemma fresh_tss_bit v p : 0 ≤ v < 2 ^ 64 → 0 ≤ p < 32 ∨ 96 ≤ p < 832 → field p 1 (tss_word (Tss [v; 0; 0] (replicate 7 0) 0)) = 0.
Proof.
  intros Hv Hp. assert (tss_word (Tss [v; 0; 0] (replicate 7 0) 0) = v * 2 ^ 32) as ->.
  { unfold tss_word, le64. cbn [tss_rsp tss_ist iomap_base foldr replicate]. lia. }
  unfold field. destruct Hp as [Hp|Hp].
  - replace (v * 2 ^ 32) with (v * 2 ^ (31 - p) * 2 * 2 ^ p).
    + rewrite Z.div_mul by (apply Z.pow_nonzero; lia). by rewrite Z.mod_mul.
    + rewrite <-(Z.pow_1_r 2) at 2. rewrite <-!Z.mul_assoc, <-!Z.pow_add_r by lia. do 2 f_equal. lia.
  - rewrite Z.div_small; [done|]. split; [lia|]. apply Z.lt_le_trans with (2 ^ 96); [lia|]. apply Z.pow_le_mono_r; lia.
Qed.

(** C34 (error).  The field [iomap_base] of a TSS is never set.  As it is zero,
    the processor takes the TSS itself for the map of the I/O ports that user
    code may use, and finds ports permitted that should not be: after
    [gdt_init] on the zeroed [cpus], user code can use the ports 0 to 31 and
    96 to 831, among them the keyboard controller (0x60), the CMOS (0x70), the
    second interrupt controller (0xA0) and the disk (0x1F0 to 0x1F7). *)
Theorem gdt_init_opens_ports cpu s r : gdt_ok s → regs s !! cpu = Some r → cpu_tss s !! cpu = Some tss0 →
  0 ≤ cpu + off_cpu_tss < 2 ^ 64 →
  wp (gdt_init cpu) (λ _ s', ∃ r' t', regs s' !! cpu = Some r' ∧ cpu_tss s' !! cpu = Some t' ∧ tr_base r' = cpu + off_cpu_tss ∧
    ∀ port, 0 ≤ port < 32 ∨ 96 ≤ port < 832 → io_permitted r' t' port = true) s.
Proof.
  intros Hs Hr Ht Hc. eapply wp_mono; [by apply (gdt_init_spec cpu s r tss0)|]. cbv beta. intros _ s' (_ & Et & Er).
  eexists _, _. split; [by rewrite Er, lookup_insert_eq|]. split; [by rewrite Et, lookup_insert_eq|]. split; [done|].
  intros port Hp. unfold io_permitted. cbn [iomap_base tss0 tr_limit kernel_regs set_r_tr tss_rsp tss_ist].
  rewrite (proj2 (Z.leb_le _ _)) by (unfold sizeof_tss; mlia). rewrite Z.add_0_l.
  replace (port / 8 * 8 + port `mod` 8) with port by mlia. apply Z.eqb_eq.
  apply (fresh_tss_bit KSTACK_TOP); [done|lia].
Qed.
End gdt.

(** ** A machine with three CPUs *)

Definition demo_segs : SegLayout :=
  {| gdt_addr := 0xFFFF800000110000; idt_addr := 0xFFFF800000111000; isr v := 0xFFFF800000100000 + v `mod` 256 * 16 |}.
Definition seg_cpus : list Z := [0xFFFF800000120000; 0xFFFF800000121000; 0xFFFF800000122000].
Definition segs_start : segs :=
  Segs gdt_entries0 entries0 (list_to_map ((., tss0) <$> seg_cpus)) (list_to_map ((., regs0) <$> seg_cpus)).

Lemma demo_isr v : 0 ≤ @isr demo_segs v < 2 ^ 64.
Proof. cbn [isr demo_segs]. pose proof (Z.mod_pos_bound v 256). lia. Qed.

Lemma segs_start_ok : gdt_ok segs_start.
Proof. by exists 0, 0. Qed.

Lemma idt_init_correct_witness :
  wp (@idt_init demo_segs 0xFFFF800000120000) (λ _ s', ∀ v, 0 ≤ v < 256 →
    @soft_int s' 3 v = (if decide (v ∈ from_user) then Some (Gate (@isr demo_segs v) GDT_KCODE 0xE 3) else None)) segs_start.
Proof.
  eapply wp_mono; [apply (@idt_init_correct demo_segs _ _ regs0 demo_isr); reflexivity|].
  cbv beta. intros _ s' [_ Hs'] v Hv. apply (Hs' v Hv).
Defined.

Lemma gdt_init_per_cpu_witness :
  wp (@gdt_init demo_segs 0xFFFF800000120000;; @gdt_init_aps demo_segs [0xFFFF800000121000; 0xFFFF800000122000])
    (λ _ s', ∀ c, c ∈ seg_cpus → @in_kernel demo_segs segs_start s' c) segs_start.
Proof.
  eapply wp_mono; [apply (@gdt_init_per_cpu demo_segs _ _ _ tss0 segs_start_ok); [|reflexivity|reflexivity|]|].
  - apply (bool_decide_unpack _). reflexivity.
  - intros c Hc. rewrite !elem_of_cons, elem_of_nil in Hc. destruct Hc as [-> | [-> | [-> | []]]]; (split; [by eexists|done]).
  - cbv beta. intros _ s' [Hs' _]. exact Hs'.
Defined.

Lemma gdt_init_opens_ports_witness :
  wp (@gdt_init demo_segs 0xFFFF800000120000) (λ _ s', ∃ r t, regs s' !! 0xFFFF800000120000 = Some r ∧
    cpu_tss s' !! 0xFFFF800000120000 = Some t ∧ io_permitted r t 0x1F0 = true) segs_start.
Proof.
  eapply wp_mono; [apply (@gdt_init_opens_ports demo_segs _ _ regs0 segs_start_ok); [reflexivity|reflexivity|done]|].
  cbv beta. intros _ s' (r & t & Hr & Ht & _ & Hp). exists r, t. split; [exact Hr|]. split; [exact Ht|]. apply Hp. lia.
Defined.
