(* ===== verification/BootLoader.v ===== *)
(** * The boot loader (boot/main.c)

    [bootmain] reads the kernel's ELF image from the disk, sector by sector,
    through a buffer below 1 MiB that the BIOS can reach, and jumps to its
    entry.  It runs in 32-bit mode without paging: addresses are physical and
    32 bits wide.  The BIOS call behind [read_sector32] and the size of the
    second stage of the loader are parameters ([BootDisk]). *)

From S2P Require Import Prelude CString.

Local Open Scope Z_scope.

Definition SECTSIZE : Z := 512.
Definition ELFHDR : Z := 0x10000.
Definition ELF_MAGIC : Z := 0x464C457F.
Definition BOUNCE : Z := 0x1000.

(** The 512 bytes of each sector, and [stage2_end - stage2]. *)
Class BootDisk := { sector_data : Z → list Z; stage2_size : Z }.

(** Little-endian fields; the offsets are those of include/elf.h, boot.h. *)
Fixpoint load_word (w : nat) (a : Z) : M cmem Z :=
  match w with
  | O => mret 0
  | S w => b ← load a; v ← load_word w (a + 1); mret (b + 2 ^ 8 * v)
  end.

Definition off_e_entry : Z := 24.
Definition off_e_phoff : Z := 32.
Definition off_e_phnum : Z := 56.
Definition sizeof_proghdr : Z := 56.
Definition off_p_offset : Z := 8.
Definition off_p_pa : Z := 24.
Definition off_p_memsz : Z := 40.
Definition off_elf_hdr : Z := 8.

Section loader.
Context `{BootDisk}.

Definition read_sector32 (dst lba : Z) : M cmem unit := store_n dst (sector_data lba).

Fixpoint boot_memcpy_loop (n : nat) (d s : Z) : M cmem unit :=
  match n with
  | O => mret tt
  | S n => c ← load s; store d c;; boot_memcpy_loop n (d + 1) (s + 1)
  end.
Definition boot_memcpy (dst src n : Z) : M cmem Z := boot_memcpy_loop (Z.to_nat n) dst src;; mret dst.

Definition readsect (dst offset : Z) : M cmem unit :=
  read_sector32 BOUNCE offset;;
  _ ← boot_memcpy dst BOUNCE SECTSIZE;
  mret tt.

(** The loop of [readseg]; it ends within [fuel] rounds unless [pa] wraps
    around. *)
Fixpoint readseg_loop (fuel : nat) (pa end_pa offset : Z) : M cmem unit :=
  match fuel with
  | O => halt NoFuel
  | S fuel =>
      if pa <? end_pa then
        readsect pa offset;;
        readseg_loop fuel (u32 (pa + SECTSIZE)) end_pa (u32 (offset + 1))
      else mret tt
  end.

Definition readseg (pa count offset : Z) : M cmem unit :=
  let end_pa := u32 (pa + count) in
  let pa := Z.land pa (Z.lnot (SECTSIZE - 1)) in
  let offset := offset / SECTSIZE in
  let offset := u32 (offset + 1) in
  let offset := u32 (offset + (stage2_size + SECTSIZE - 1) / SECTSIZE) in
  readseg_loop (S (S (Z.to_nat ((end_pa - pa) / SECTSIZE)))) pa end_pa offset.

(** The loop over the program headers. *)
Fixpoint load_segments (fuel : nat) (ph eph : Z) : M cmem unit :=
  match fuel with
  | O => halt NoFuel
  | S fuel =>
      if ph <? eph then
        pa ← load_word 8 (ph + off_p_pa);
        memsz ← load_word 8 (ph + off_p_memsz);
        offset ← load_word 8 (ph + off_p_offset);
        readseg (u32 pa) (u32 memsz) (u32 offset);;
        load_segments fuel (u32 (ph + sizeof_proghdr)) eph
      else mret tt
  end.

(** [Some entry]: the jump to the kernel; [None]: the endless loop after the
    message "bad ELF". *)
Definition bootmain (boot_info : Z) : M cmem (option Z) :=
  store_n (boot_info + off_elf_hdr) [u8 ELFHDR; u8 (ELFHDR / 2 ^ 8); u8 (ELFHDR / 2 ^ 16); u8 (ELFHDR / 2 ^ 24)];;
  readseg ELFHDR (SECTSIZE * 8) 0;;
  e_magic ← load_word 4 ELFHDR;
  if negb (e_magic =? ELF_MAGIC) then mret None
  else
    e_phoff ← load_word 8 (ELFHDR + off_e_phoff);
    let ph := u32 (ELFHDR + e_phoff) in
    e_phnum ← load_word 2 (ELFHDR + off_e_phnum);
    let eph := u32 (ph + e_phnum * sizeof_proghdr) in
    load_segments (S (Z.to_nat e_phnum)) ph eph;;
    e_entry ← load_word 8 (ELFHDR + off_e_entry);
    mret (Some (u32 e_entry)).

(** ** Reading sectors *)

(** The kernel image: the bytes of the disk behind the loader's two stages. *)
Definition image_start : Z := 1 + (stage2_size + SECTSIZE - 1) / SECTSIZE.
Definition image (off : Z) : Z := sector_data (image_start + off / SECTSIZE) !!! Z.to_nat (off `mod` SECTSIZE).

Definition disk_ok : Prop :=
  0 ≤ stage2_size < 2 ^ 24 ∧ ∀ l, length (sector_data l) = 512%nat ∧ Forall (λ b, 0 ≤ b < 256) (sector_data l).

(** [m'] has the bytes of the image from [off] on at [pa]. *)
Definition holds_image (m : cmem) (pa n off : Z) : Prop := ∀ k, 0 ≤ k < n → m !! (pa + k) = Some (image (off + k)).

(** Only bytes of [R] may differ, and none is lost. *)
Definition changes (R : Z → Prop) (m m' : cmem) : Prop :=
  (∀ a, is_Some (m !! a) → is_Some (m' !! a)) ∧ ∀ a, ¬ R a → m' !! a = m !! a.

Definition in_bounce (a : Z) : Prop := BOUNCE ≤ a < BOUNCE + SECTSIZE.

Lemma changes_block R m m' a n : changes R m m' → block m a n → block m' a n.
Proof. intros [Hd _] Hb x Hx. auto. Qed.

Lemma changes_trans (R R' S : Z → Prop) m1 m2 m3 : changes R m1 m2 → changes R' m2 m3 → (∀ a, R a ∨ R' a → S a) → changes S m1 m3.
Proof. intros [Hd Ho] [Hd' Ho'] HS. split; [auto|]. intros a Ha. rewrite Ho', Ho; naive_solver. Qed.

Lemma boot_memcpy_spec n : ∀ m d s (f : Z → Z), block m d (Z.of_nat n) →
  (∀ i, 0 ≤ i < Z.of_nat n → m !! (s + i) = Some (f i) ∧ 0 ≤ f i < 256) →
  (∀ x, d ≤ x < d + Z.of_nat n → ¬ s ≤ x < s + Z.of_nat n) →
  wp (boot_memcpy_loop n d s) (λ _ m', overwritten m d (Z.of_nat n) (λ x, Some (f (x - d))) m') m.
Proof.
  induction n as [|n IH]; intros m d s f Hd Hs Hdis; cbn [boot_memcpy_loop].
  { wp_step. intros x. by rewrite decide_False by lia. }
  destruct (Hs 0) as [Eb Hb]; [lia|]. rewrite Z.add_0_r in Eb. wp_step. eapply wp_load; [exact Eb|]. wp_step.
  apply wp_store; [apply Hd; lia|]. assert (u8 (f 0) = f 0) as -> by (by apply Z.mod_small).
  eapply wp_mono; [apply (IH _ _ _ (λ i, f (i + 1)))|cbv beta].
  - intros x Hx. rewrite lookup_insert_ne by lia. apply Hd. lia.
  - intros i Hi. rewrite lookup_insert_ne by (intros E; apply (Hdis d); lia).
    replace (s + 1 + i) with (s + (i + 1)) by lia. apply Hs. lia.
  - intros x Hx. specialize (Hdis x). lia.
  - intros _ m' Hm' x. rewrite Hm'. destruct (decide (x = d)) as [->|Hne].
    + rewrite decide_False, decide_True, lookup_insert_eq by lia. do 2 f_equal. lia.
    + repeat case_decide; try lia; [do 2 f_equal; lia|by rewrite lookup_insert_ne by lia].
Qed.

Lemma image_byte off : disk_ok → 0 ≤ image off < 256.
Proof.
  intros [_ Hd]. unfold image. destruct (Hd (image_start + off / SECTSIZE)) as [Hl Hb]. rewrite Forall_forall in Hb. apply Hb.
  apply list_elem_of_lookup_total_2. rewrite Hl. unfold SECTSIZE. mlia.
Qed.

Lemma readsect_spec m dst o : disk_ok → block m BOUNCE SECTSIZE → block m dst SECTSIZE →
  (∀ x, dst ≤ x < dst + SECTSIZE → ¬ in_bounce x) →
  wp (readsect dst (image_start + o)) (λ _ m', holds_image m' dst SECTSIZE (o * SECTSIZE) ∧
    changes (λ a, in_bounce a ∨ dst ≤ a < dst + SECTSIZE) m m') m.
Proof.
  intros Hd Hb Hdst Hdis. destruct Hd as [Hst Hd']. destruct (Hd' (image_start + o)) as [Hl Hby]. unfold readsect, read_sector32. wp_step.
  eapply wp_mono; [apply store_n_spec; by rewrite Hl|cbv beta]. intros _ m1 Hm1. rewrite Hl in Hm1.
  change (Z.of_nat 512) with SECTSIZE in Hm1. wp_step. unfold boot_memcpy. wp_step.
  assert (∀ k, 0 ≤ k < SECTSIZE → sector_data (image_start + o) !! Z.to_nat k = Some (image (o * SECTSIZE + k))) as Him.
  { intros k Hk. unfold image. rewrite (Z.add_comm (o * SECTSIZE)), Z_div_plus_full, Z_mod_plus_full by done.
    rewrite (Z.div_small k), (Z.mod_small k), Z.add_0_l by done. apply list_lookup_lookup_total_lt. rewrite Hl. unfold SECTSIZE in Hk. lia. }
  assert (block m1 dst SECTSIZE) as Hdst1.
  { intros x Hx. rewrite Hm1, decide_False by (by apply Hdis). by apply Hdst. }
  eapply wp_mono; [apply (boot_memcpy_spec _ _ _ _ (λ k, image (o * SECTSIZE + k)))|cbv beta].
  - done.
  - intros k Hk. change (Z.of_nat (Z.to_nat SECTSIZE)) with SECTSIZE in Hk. split; [|by apply image_byte].
    rewrite Hm1, decide_True by lia. replace (BOUNCE + k - BOUNCE) with k by lia. rewrite Him by done. cbn [fmap option_fmap option_map].
    f_equal. apply Z.mod_small, image_byte. done.
  - done.
  - intros _ m2 Hm2. change (Z.of_nat (Z.to_nat SECTSIZE)) with SECTSIZE in Hm2. wp_step. wp_step. split.
    + intros k Hk. rewrite Hm2, decide_True by lia. do 2 f_equal. lia.
    + split.
      * intros a Ha. rewrite Hm2. case_decide; [done|]. rewrite Hm1. case_decide; [|done].
        rewrite Him by lia. done.
      * intros a Ha. rewrite Hm2, decide_False by tauto. rewrite Hm1, decide_False; [done|]. unfold in_bounce in Ha. tauto.
Qed.

Lemma readseg_loop_spec end_pa n : ∀ fuel m pa o, disk_ok → (n < fuel)%nat → 0 ≤ pa → 0 ≤ image_start + o →
  (0 < Z.of_nat n → pa + (Z.of_nat n - 1) * SECTSIZE < end_pa) → end_pa ≤ pa + Z.of_nat n * SECTSIZE →
  pa + Z.of_nat n * SECTSIZE < 2 ^ 32 → image_start + o + Z.of_nat n < 2 ^ 32 →
  block m BOUNCE SECTSIZE → block m pa (Z.of_nat n * SECTSIZE) →
  (∀ x, pa ≤ x < pa + Z.of_nat n * SECTSIZE → ¬ in_bounce x) →
  wp (readseg_loop fuel pa end_pa (image_start + o)) (λ _ m', holds_image m' pa (Z.of_nat n * SECTSIZE) (o * SECTSIZE) ∧
    changes (λ a, in_bounce a ∨ pa ≤ a < pa + Z.of_nat n * SECTSIZE) m m') m.
Proof.
  induction n as [|n IH]; intros fuel m pa o Hd Hf Hpa Ho Hlo Hhi Hw Hwo Hb Hblk Hdis; (destruct fuel as [|fuel]; [lia|]); cbn [readseg_loop].
  { rewrite (proj2 (Z.ltb_ge _ _)) by lia. wp_step. split; [intros k Hk; lia|]. split; [done|done]. }
  unfold SECTSIZE in *. rewrite (proj2 (Z.ltb_lt _ _)) by lia. wp_step.
  eapply wp_mono; [apply readsect_spec; [done|done|intros x Hx; unfold SECTSIZE in Hx; apply Hblk; lia|intros x Hx; unfold SECTSIZE in Hx; apply Hdis; lia]|cbv beta].
  unfold SECTSIZE. intros _ m1 [Him Hch]. unfold u32. rewrite !Z.mod_small by lia.
  rewrite <-Z.add_assoc.
  eapply wp_mono; [apply (IH fuel m1 (pa + 512) (o + 1)); try done; try lia|cbv beta].
  - by apply (changes_block _ _ _ _ _ Hch).
  - apply (changes_block _ _ _ _ _ Hch). intros x Hx. apply Hblk. lia.
  - intros x Hx. apply Hdis. lia.
  - intros _ m2 [Him2 Hch2]. split.
    + intros k Hk. destruct (decide (k < 512)).
      * destruct Hch2 as [_ E]. rewrite E; [apply Him; lia|]. intros [?|?]; [eapply (Hdis (pa + k)); [lia|done]|lia].
      * specialize (Him2 (k - 512)). replace (pa + 512 + (k - 512)) with (pa + k) in Him2 by lia. rewrite Him2 by lia.
        do 2 f_equal. lia.
    + eapply changes_trans; [done|done|]. cbv beta. intros a Ha. destruct Ha as [[?|?]|[?|?]]; [by left|right; lia|by left|right; lia].
Qed.

(** The sectors that [readseg] overwrites: the range asked for, rounded. *)
Definition sectors_of (pa count a : Z) : Prop :=
  pa / SECTSIZE * SECTSIZE ≤ a < (pa + count + SECTSIZE - 1) / SECTSIZE * SECTSIZE.

Lemma sector_bounds pa count : 0 ≤ count →
  let lo := pa / SECTSIZE in let hi := (pa + count + SECTSIZE - 1) / SECTSIZE in
  lo ≤ hi ∧ hi * SECTSIZE < pa + count + SECTSIZE ∧ pa + count ≤ hi * SECTSIZE ∧ lo * SECTSIZE ≤ pa < (lo + 1) * SECTSIZE.
Proof. unfold SECTSIZE. cbv zeta. mlia. Qed.

Lemma same_offset pa off : pa `mod` SECTSIZE = off `mod` SECTSIZE → off = off / SECTSIZE * SECTSIZE + (pa - pa / SECTSIZE * SECTSIZE).
Proof. unfold SECTSIZE. mlia. Qed.

Lemma readseg_spec m pa count off : disk_ok → 0 ≤ pa → 0 ≤ count → 0 ≤ off < 2 ^ 32 → pa + count < 2 ^ 32 - SECTSIZE →
  pa `mod` SECTSIZE = off `mod` SECTSIZE → block m BOUNCE SECTSIZE →
  (∀ a, sectors_of pa count a → is_Some (m !! a) ∧ ¬ in_bounce a) →
  wp (readseg pa count off) (λ _ m', holds_image m' pa count off ∧
    changes (λ a, in_bounce a ∨ sectors_of pa count a) m m') m.
Proof.
  intros Hd Hpa Hc Hoff Hw Hal Hb Hs. assert (0 ≤ image_start < 2 ^ 31) as Hist.
  { destruct Hd as [Hst _]. unfold image_start, SECTSIZE. mlia. }
  unfold readseg. assert (u32 (pa + count) = pa + count) as -> by (apply Z.mod_small; unfold SECTSIZE in *; lia).
  assert (Z.land pa (Z.lnot (SECTSIZE - 1)) = pa / SECTSIZE * SECTSIZE) as ->.
  { change (SECTSIZE - 1) with (Z.ones 9). rewrite <-Z.ldiff_land, Z.ldiff_ones_r, Z.shiftl_mul_pow2, Z.shiftr_div_pow2 by done. done. }
  assert (u32 (u32 (off / SECTSIZE + 1) + (stage2_size + SECTSIZE - 1) / SECTSIZE) = image_start + off / SECTSIZE) as ->.
  { unfold u32, image_start, SECTSIZE in *. rewrite (Z.mod_small (off / 512 + 1)) by mlia. rewrite Z.mod_small by mlia. lia. }
  unfold sectors_of in *. apply same_offset in Hal as Eo. destruct (sector_bounds pa count Hc) as (E1 & E2 & E3 & E4).
  assert (off / SECTSIZE < 2 ^ 23 ∧ 0 ≤ off / SECTSIZE) as [E5 E6] by (unfold SECTSIZE; clear -Hoff; mlia).
  assert ((pa + count + SECTSIZE - 1) / SECTSIZE - pa / SECTSIZE ≤ (pa + count - pa / SECTSIZE * SECTSIZE) / SECTSIZE + 1) as E7
    by (unfold SECTSIZE; clear -Hc; mlia).
  set (lo := pa / SECTSIZE) in *. set (hi := (pa + count + SECTSIZE - 1) / SECTSIZE) in *. clearbody lo hi.
  set (o := off / SECTSIZE) in *. clearbody o. set (q := (pa + count - lo * SECTSIZE) / SECTSIZE) in *. clearbody q.
  assert (hi < 2 ^ 23) by (unfold SECTSIZE in *; lia).
  assert (Z.of_nat (Z.to_nat (hi - lo)) * SECTSIZE = hi * SECTSIZE - lo * SECTSIZE) as En by (unfold SECTSIZE; lia).
  eapply wp_mono; [apply (readseg_loop_spec (pa + count) (Z.to_nat (hi - lo))); rewrite ?En; unfold SECTSIZE in *; try done; try lia|cbv beta].
  - intros a Ha. apply Hs. lia.
  - intros a Ha. apply Hs. lia.
  - rewrite En. intros _ m' [Him Hch]. split.
    + intros k Hk. specialize (Him (pa - lo * SECTSIZE + k)). replace (pa + k) with (lo * SECTSIZE + (pa - lo * SECTSIZE + k)) by lia.
      rewrite Him by lia. do 2 f_equal. lia.
    + destruct Hch as [Hdom Hout]. split; [done|]. intros a Ha. apply Hout. intros [?|?]; apply Ha; [by left|right; lia].
Qed.

(** ** The ELF image *)

(** A little-endian number in the image. *)
Fixpoint fetch (w : nat) (off : Z) : Z :=
  match w with
  | O => 0
  | S w => image off + 2 ^ 8 * fetch w (off + 1)
  end.

Lemma load_word_spec w : ∀ m pa n off k, holds_image m pa n off → 0 ≤ k → k + Z.of_nat w ≤ n →
  load_word w (pa + k) m = OK (fetch w (off + k)) m.
Proof.
  intros m pa n off k Him. revert k. induction w as [|w IH]; intros k Hk Hn; [done|]. apply wp_run. cbn [load_word]. wp_step.
  eapply wp_load; [apply Him; lia|]. wp_step. eapply wp_OK; [replace (pa + k + 1) with (pa + (k + 1)) by lia; apply IH; lia|].
  wp_step. split; [|done]. cbn [fetch]. by rewrite Z.add_assoc.
Qed.

(** The fields of the header and of the [i]-th program header. *)
Definition img_phoff : Z := fetch 8 off_e_phoff.
Definition img_phnum : Z := fetch 2 off_e_phnum.
Definition img_entry : Z := fetch 8 off_e_entry.
Definition hdr_off (i : Z) : Z := img_phoff + i * sizeof_proghdr.
Definition seg_pa (i : Z) : Z := u32 (fetch 8 (hdr_off i + off_p_pa)).
Definition seg_memsz (i : Z) : Z := u32 (fetch 8 (hdr_off i + off_p_memsz)).
Definition seg_offset (i : Z) : Z := u32 (fetch 8 (hdr_off i + off_p_offset)).

Definition in_header (a : Z) : Prop := ELFHDR ≤ a < ELFHDR + 4096.
Definition in_boot_info (bi a : Z) : Prop := bi + off_elf_hdr ≤ a < bi + off_elf_hdr + 4.

(** What the loader expects of the image and of the memory: the program headers
    are in the first page of the image, segments are placed at the same offset
    within a sector as in the image, and the sectors of a segment overlap
    neither the loader's data nor the segments loaded before. *)
Record bootable (m : cmem) (bi : Z) : Prop := {
  boot_headers : 0 ≤ img_phoff ∧ img_phoff + img_phnum * sizeof_proghdr ≤ 4096;
  boot_memory : block m BOUNCE SECTSIZE ∧ block m ELFHDR 4096 ∧ block m (bi + off_elf_hdr) 4;
  boot_info_apart : ∀ a, in_boot_info bi a → ¬ in_bounce a ∧ ¬ in_header a;
  boot_align : ∀ i, 0 ≤ i < img_phnum →
    seg_pa i + seg_memsz i < 2 ^ 32 - SECTSIZE ∧ seg_pa i `mod` SECTSIZE = seg_offset i `mod` SECTSIZE;
  boot_apart : ∀ i a, 0 ≤ i < img_phnum → sectors_of (seg_pa i) (seg_memsz i) a →
    is_Some (m !! a) ∧ ¬ in_bounce a ∧ ¬ in_header a ∧ ¬ in_boot_info bi a;
  boot_disjoint : ∀ i j k, 0 ≤ i < j → j < img_phnum → 0 ≤ k < seg_memsz i →
    ¬ sectors_of (seg_pa j) (seg_memsz j) (seg_pa i + k);
}.

Definition segment_loaded (m : cmem) (i : Z) : Prop := holds_image m (seg_pa i) (seg_memsz i) (seg_offset i).

(** A change elsewhere keeps the image's bytes. *)
Lemma holds_image_frame R m m' pa n off : changes R m m' → (∀ k, 0 ≤ k < n → ¬ R (pa + k)) → holds_image m pa n off → holds_image m' pa n off.
Proof. intros [_ Ho] HR Hm k Hk. rewrite Ho by auto. auto. Qed.

Lemma fetch_nonneg w : disk_ok → ∀ off, 0 ≤ fetch w off < 2 ^ (8 * Z.of_nat w).
Proof.
  intros Hd. induction w as [|w IH]; intros off; cbn [fetch]; [lia|]. specialize (IH (off + 1)). pose proof (image_byte off Hd).
  replace (8 * Z.of_nat (S w)) with (8 + 8 * Z.of_nat w) by lia. rewrite Z.pow_add_r by lia. lia.
Qed.

Lemma seg_in_sectors i k : 0 ≤ k < seg_memsz i → sectors_of (seg_pa i) (seg_memsz i) (seg_pa i + k).
Proof.
  intros Hk. unfold sectors_of. destruct (sector_bounds (seg_pa i) (seg_memsz i)) as (_ & _ & E3 & E4); [lia|]. lia.
Qed.

Definition at_hdr (i : Z) : Z := ELFHDR + hdr_off i.

Lemma load_segments_spec m bi c : disk_ok → bootable m bi → ∀ fuel m1 i, (c < fuel)%nat → 0 ≤ i → i + Z.of_nat c = img_phnum →
  (∀ a, is_Some (m !! a) → is_Some (m1 !! a)) → holds_image m1 ELFHDR 4096 0 → (∀ j, 0 ≤ j < i → segment_loaded m1 j) →
  wp (load_segments fuel (at_hdr i) (at_hdr img_phnum)) (λ _ m2, holds_image m2 ELFHDR 4096 0 ∧
    (∀ j, 0 ≤ j < img_phnum → segment_loaded m2 j) ∧ ∀ a, in_boot_info bi a → m2 !! a = m1 !! a) m1.
Proof.
  intros Hd [[Hp0 Hp1] (Hbb & Hbh & _) Hbi Hal Hap Hdj]. induction c as [|c IH]; intros fuel m1 i Hf Hi Hc Hdom Hh Hl;
    (destruct fuel as [|fuel]; [lia|]); cbn [load_segments]; unfold at_hdr, hdr_off, sizeof_proghdr in *.
  { rewrite (proj2 (Z.ltb_ge _ _)) by lia. wp_step. split; [done|]. split; [intros j Hj; apply Hl; lia|done]. }
  rewrite (proj2 (Z.ltb_lt _ _)) by lia. unfold off_p_pa, off_p_memsz, off_p_offset in *.
  do 3 (wp_step; rewrite <-Z.add_assoc; eapply wp_OK; [apply (load_word_spec _ _ _ 4096 0); [exact Hh|lia|lia]|]). rewrite !Z.add_0_l.
  destruct (Hal i) as [Hov Hmod]; [lia|]. change (u32 (fetch 8 (img_phoff + i * 56 + 24))) with (seg_pa i).
  change (u32 (fetch 8 (img_phoff + i * 56 + 40))) with (seg_memsz i). change (u32 (fetch 8 (img_phoff + i * 56 + 8))) with (seg_offset i).
  assert (0 ≤ seg_pa i ∧ 0 ≤ seg_memsz i ∧ 0 ≤ seg_offset i < 2 ^ 32) as (R1 & R2 & R3) by (repeat split; by apply Z.mod_pos_bound).
  wp_step. eapply wp_mono; [apply readseg_spec; try done|cbv beta].
  - intros x Hx. by apply Hdom, Hbb.
  - intros a Ha. destruct (Hap i a) as (? & ? & _); [lia|done|]. auto.
  - intros _ m2 [Him Hch]. assert (u32 (ELFHDR + (img_phoff + i * 56) + 56) = ELFHDR + (img_phoff + (i + 1) * 56)) as ->.
    { unfold u32. rewrite Z.mod_small; unfold ELFHDR in *; lia. }
    eapply wp_mono; [apply (IH fuel m2 (i + 1)); try lia|cbv beta].
    + intros a Ha. apply Hch. auto.
    + eapply holds_image_frame; [exact Hch| |exact Hh]. intros k Hk [?|Hs]; [unfold in_bounce, BOUNCE, SECTSIZE, ELFHDR in *; lia|].
      destruct (Hap i (ELFHDR + k)) as (_ & _ & Hn & _); [lia|done|]. apply Hn. unfold in_header. lia.
    + intros j Hj. destruct (decide (j = i)) as [->|Hne]; [done|]. eapply holds_image_frame; [exact Hch| |apply Hl; lia].
      intros k Hk [Hb|Hs]; [|eapply (Hdj j i k); [lia|lia|done|done]].
      destruct (Hap j (seg_pa j + k)) as (_ & Hn & _); [lia|by apply seg_in_sectors|]. done.
    + intros _ m3 (Hh3 & Hl3 & Hb3). split; [done|]. split; [done|]. intros a Ha. rewrite Hb3 by done. apply Hch.
      intros [Hb|Hs]; [by destruct (Hbi a Ha)|]. destruct (Hap i a) as (_ & _ & _ & Hn); [lia|done|done].
Qed.

(** The field [elf_hdr] of the [struct boot_info] holds the address of the header. *)
Definition elf_hdr_set (m : cmem) (bi : Z) : Prop := ∀ k, 0 ≤ k < 4 → m !! (bi + off_elf_hdr + k) = Some ((ELFHDR / 2 ^ (8 * k)) `mod` 256).

(** The state in which [bootmain] looks at the header. *)
Lemma read_header_spec {A} m bi (c : M cmem A) (Q : A → cmem → Prop) : disk_ok → bootable m bi →
  (∀ m1, holds_image m1 ELFHDR 4096 0 → (∀ a, is_Some (m !! a) → is_Some (m1 !! a)) → elf_hdr_set m1 bi → wp c Q m1) →
  wp (store_n (bi + off_elf_hdr) [u8 ELFHDR; u8 (ELFHDR / 2 ^ 8); u8 (ELFHDR / 2 ^ 16); u8 (ELFHDR / 2 ^ 24)];;
      readseg ELFHDR (SECTSIZE * 8) 0;; c) Q m.
Proof.
  intros Hd [_ (Hbb & Hbh & Hbf) Hbi _ _ _] HQ. wp_step. eapply wp_mono; [by apply store_n_spec|cbv beta]. intros _ m1 Hm1.
  change (Z.of_nat (length _)) with 4 in Hm1.
  assert (∀ a, is_Some (m !! a) → is_Some (m1 !! a)) as Hdom.
  { intros a Ha. rewrite Hm1. case_decide; [|done]. apply fmap_is_Some, lookup_lt_is_Some. cbn. lia. }
  assert (∀ a, sectors_of ELFHDR (SECTSIZE * 8) a → in_header a) as Hsec.
  { intros a Ha. unfold sectors_of in Ha. change (ELFHDR / SECTSIZE * SECTSIZE) with ELFHDR in Ha.
    change (_ / SECTSIZE * SECTSIZE) with (ELFHDR + 4096) in Ha. done. }
  wp_step. eapply wp_mono; [apply readseg_spec; try done|cbv beta].
  - intros x Hx. by apply Hdom, Hbb.
  - intros a Ha%Hsec. split; [by apply Hdom, Hbh|]. unfold in_bounce, in_header, BOUNCE, SECTSIZE, ELFHDR in *. lia.
  - intros [] m2 [Him Hch]. apply HQ; [done| |].
    + intros a Ha. apply Hch. auto.
    + intros k Hk. destruct (Hbi (bi + off_elf_hdr + k)) as [N1 N2]; [unfold in_boot_info; lia|].
      rewrite (proj2 Hch) by (intros [?|?%Hsec]; done). rewrite Hm1, decide_True by lia.
      replace (bi + off_elf_hdr + k - (bi + off_elf_hdr)) with k by lia.
      assert (k = 0 ∨ k = 1 ∨ k = 2 ∨ k = 3) as [-> | [-> | [-> | ->]]] by lia; done.
Qed.

(** C32 (functional).  From a disk with a bootable image [bootmain] terminates,
    jumps to the entry point of the image, and leaves every segment in memory
    byte for byte where its program header says, the header page at [ELFHDR]
    and its address in the boot information.  Without the magic number it
    stops. *)
Theorem bootmain_correct m bi : disk_ok → bootable m bi →
  wp (bootmain bi) (λ r m', elf_hdr_set m' bi ∧ holds_image m' ELFHDR 4096 0 ∧
    if fetch 4 0 =? ELF_MAGIC then r = Some (u32 img_entry) ∧ ∀ i, 0 ≤ i < img_phnum → segment_loaded m' i
    else r = None) m.
Proof.
  intros Hd Hbt. destruct (boot_headers _ _ Hbt) as [Hp0 Hp1]. pose proof (fetch_nonneg 2 Hd off_e_phnum) as Hpn.
  change (fetch 2 off_e_phnum) with img_phnum in Hpn. unfold sizeof_proghdr in Hp1.
  unfold bootmain. apply (read_header_spec m); [done|done|]. intros m1 Hh Hdom He. wp_step.
  rewrite <-(Z.add_0_r ELFHDR) at 1. eapply wp_OK; [apply (load_word_spec 4 _ _ 4096 0); [exact Hh|lia|lia]|]. rewrite Z.add_0_r.
  destruct (_ =? ELF_MAGIC); cbn [negb]; [|by wp_step]. wp_step.
  eapply wp_OK; [apply (load_word_spec 8 _ _ 4096 0); [exact Hh|done|done]|]. wp_step.
  eapply wp_OK; [apply (load_word_spec 2 _ _ 4096 0); [exact Hh|done|done]|]. rewrite !Z.add_0_l. wp_step.
  change (fetch 8 off_e_phoff) with img_phoff. change (fetch 2 off_e_phnum) with img_phnum.
  assert (u32 (ELFHDR + img_phoff) = at_hdr 0) as -> by (unfold u32; rewrite Z.mod_small; unfold at_hdr, hdr_off, ELFHDR in *; lia).
  assert (u32 (at_hdr 0 + img_phnum * sizeof_proghdr) = at_hdr img_phnum) as ->.
  { unfold u32. rewrite Z.mod_small; unfold at_hdr, hdr_off, ELFHDR, sizeof_proghdr in *; lia. }
  eapply wp_mono; [apply (load_segments_spec m bi (Z.to_nat img_phnum)); try done; try lia|cbv beta].
  intros _ m2 (Hh2 & Hl2 & Hb2). wp_step. eapply wp_OK; [apply (load_word_spec 8 _ _ 4096 0); [exact Hh2|done|done]|]. wp_step.
  split; [|done]. intros k Hk. rewrite Hb2 by (unfold in_boot_info; lia). by apply He.
Qed.
End loader.

(** ** A disk with a small kernel: one segment of 600 bytes for 0x100000 *)

Definition le_list (w : nat) (v : Z) : list Z := (λ i, (v / 2 ^ (8 * Z.of_nat i)) `mod` 256) <$> seq 0 w.
Definition demo_elf : list Z :=
  le_list 4 ELF_MAGIC ++ replicate 20 0 ++ le_list 8 0x100010 ++ le_list 8 64 ++ replicate 16 0 ++ le_list 2 1 ++ replicate 6 0 ++
  le_list 4 1 ++ le_list 4 5 ++ le_list 8 0x1000 ++ le_list 8 0xFFFF800000100000 ++ le_list 8 0x100000 ++ le_list 8 600 ++ le_list 8 600 ++ le_list 8 4096.
Definition demo_disk : BootDisk :=
  {| sector_data l := if l =? 3 then take 512 (demo_elf ++ replicate 512 0) else (λ i, (l + Z.of_nat i) `mod` 256) <$> seq 0 512;
     stage2_size := 1000 |}.
Definition region (a n : Z) : cmem := list_to_map ((., 0) <$> seqZ a n).
Definition demo_ram : cmem := region BOUNCE 512 ∪ (region 0x8008 4 ∪ (region ELFHDR 4096 ∪ region 0x100000 1024)).

Lemma region_block a n : block (region a n) a n.
Proof.
  intros x Hx. destruct (region a n !! x) eqn:E; [done|]. apply not_elem_of_list_to_map in E. exfalso. apply E.
  rewrite <-list_fmap_compose. cbn. rewrite list_fmap_id. apply elem_of_seqZ. lia.
Qed.

Lemma block_union_l (m m' : cmem) a n : block m a n → block (m ∪ m') a n.
Proof. intros Hb x Hx. apply lookup_union_is_Some. auto. Qed.
Lemma block_union_r (m m' : cmem) a n : block m' a n → block (m ∪ m') a n.
Proof. intros Hb x Hx. apply lookup_union_is_Some. auto. Qed.

Lemma demo_ram_blocks : block demo_ram BOUNCE 512 ∧ block demo_ram 0x8008 4 ∧ block demo_ram ELFHDR 4096 ∧ block demo_ram 0x100000 1024.
Proof.
  unfold demo_ram. repeat split; [apply block_union_l|apply block_union_r, block_union_l
    |apply block_union_r, block_union_r, block_union_l|apply block_union_r, block_union_r, block_union_r]; exact (region_block _ _).
Qed.

Lemma demo_disk_ok : @disk_ok demo_disk.
Proof.
  split; [done|]. intros l. cbn [sector_data demo_disk]. destruct (l =? 3).
  - split; [done|]. apply (bool_decide_unpack _). by vm_compute.
  - split; [by rewrite length_fmap, length_seq|]. apply Forall_fmap, Forall_forall. intros i _. cbn. by apply Z.mod_pos_bound.
Qed.

Lemma demo_fields : @img_phoff demo_disk = 64 ∧ @img_phnum demo_disk = 1 ∧ @img_entry demo_disk = 0x100010 ∧
  @seg_pa demo_disk 0 = 0x100000 ∧ @seg_memsz demo_disk 0 = 600 ∧ @seg_offset demo_disk 0 = 0x1000 ∧ @fetch demo_disk 4 0 = ELF_MAGIC.
Proof. by vm_compute. Qed.

Lemma demo_bootable : @bootable demo_disk demo_ram 0x8000.
Proof.
  destruct demo_fields as (E1 & E2 & _ & E4 & E5 & E6 & _).
  assert (∀ a, sectors_of 0x100000 600 a → 0x100000 ≤ a < 0x100000 + 1024) as Hs.
  { intros a Ha. unfold sectors_of in Ha. change (0x100000 / SECTSIZE * SECTSIZE) with 0x100000 in Ha.
    change (_ / SECTSIZE * SECTSIZE) with (0x100000 + 1024) in Ha. done. }
  split; rewrite ?E1, ?E2; unfold sizeof_proghdr, in_boot_info, in_bounce, in_header, off_elf_hdr.
  - lia.
  - exact (conj (proj1 demo_ram_blocks) (conj (proj1 (proj2 (proj2 demo_ram_blocks))) (proj1 (proj2 demo_ram_blocks)))).
  - unfold BOUNCE, SECTSIZE, ELFHDR. lia.
  - intros i Hi. assert (i = 0) as -> by lia. rewrite E4, E5, E6. exact (conj eq_refl eq_refl).
  - intros i a Hi. assert (i = 0) as -> by lia. rewrite E4, E5. intros Ha%Hs. split.
    + exact (proj2 (proj2 (proj2 demo_ram_blocks)) a Ha).
    + unfold BOUNCE, SECTSIZE, ELFHDR. lia.
  - intros i j k Hi Hj. lia.
Qed.

Lemma bootmain_correct_witness : wp (@bootmain demo_disk 0x8000) (λ r m', r = Some 0x100010 ∧ m' !! 0x100000 = Some 11) demo_ram.
Proof.
  destruct demo_fields as (_ & E2 & E3 & E4 & E5 & E6 & E7).
  eapply wp_mono; [exact (@bootmain_correct demo_disk _ _ demo_disk_ok demo_bootable)|]. cbv beta. rewrite E7, E3, E2, Z.eqb_refl.
  intros r m' (_ & _ & -> & Hl). split; [reflexivity|]. specialize (Hl 0 ltac:(lia) 0). rewrite E4, E5, E6 in Hl. rewrite !Z.add_0_r in Hl.
  rewrite (Hl ltac:(lia)). by vm_compute.
Defined.
