(* ===== verification/Acpi.v ===== *)
(** * Platform discovery (kernel/acpi/*.c, include/{acpi,lapic,hpet}.h, pci_init)

    Finding the ACPI tables in memory, and what the kernel takes from them: the
    CPUs (MADT), the PCI segments (MCFG), the timer (HPET); and the registers
    of the local APIC.  The tables are read through the kernel's page table,
    registers through [Bus]. *)

From S2P Require Import Prelude LinkedList Paging CString Spinlock Buddy RbTree Kernel PageWalk AddrSpace PageTable Slab Vma Console Task Devices Ata Ahci.

Local Open Scope Z_scope.

(** ** Layouts (include/acpi.h) *)

Definition sizeof_acpi_hdr : Z := 36.
Definition off_hdr_len : Z := 4.
Definition off_revision : Z := 15.
Definition off_rsdt_base : Z := 16.
Definition off_xsdt_base : Z := 24.
Definition off_madt_lapic_base : Z := 36.
Definition off_madt_flags : Z := 40.
Definition sizeof_madt : Z := 44.
Definition off_mcfg_entries : Z := 44.
Definition sizeof_mcfg_entry : Z := 16.
Definition off_bus_start : Z := 10.
Definition off_bus_end : Z := 11.
Definition off_hpet_addr : Z := 44.
Definition MADT_LAPIC : Z := 0.
Definition NCPUS : Z := 64.
Definition CPU_STARTED : Z := 1.

(** Signatures, as bytes. *)
Definition sig_rsdp : list Z := [82; 83; 68; 32; 80; 84; 82; 32].
Definition sig_XSDT : list Z := [88; 83; 68; 84].
Definition sig_RSDT : list Z := [82; 83; 68; 84].
Definition sig_APIC : list Z := [65; 80; 73; 67].
Definition sig_MCFG : list Z := [77; 67; 70; 71].
Definition sig_HPET : list Z := [72; 80; 69; 84].

(** ** kernel/acpi/acpi.c *)

(** [memcmp(p, s, n) == 0], [n] being the length of the constant [s]. *)
Fixpoint mem_equal (p : Z) (s : list Z) : M kernel bool :=
  match s with
  | [] => mret true
  | c :: s => b ← load_byte p; if negb (b =? c) then mret false else mem_equal (p + 1) s
  end.

Fixpoint memsum_loop (len : nat) (p sum : Z) : M kernel Z :=
  match len with
  | O => mret sum
  | S len => b ← load_byte p; memsum_loop len (p + 1) (u8 (sum + schar b))
  end.
Definition memsum (s len : Z) : M kernel Z := memsum_loop (Z.to_nat len) s 0.

Definition acpi_check (hdr : Z) (signature : list Z) : M kernel bool :=
  eq ← mem_equal hdr signature;
  if negb eq then mret false
  else
    len ← load_le 4 (hdr + off_hdr_len);
    sum ← memsum hdr len;
    mret (sum =? 0).

Fixpoint rsdp_find_range (fuel : nat) (p end_ : Z) : M kernel Z :=
  match fuel with
  | O => halt NoFuel
  | S fuel =>
      if p <? end_ then
        eq ← mem_equal p sig_rsdp;
        if eq : bool then mret p else rsdp_find_range fuel (p + 16) end_
      else mret NULL
  end.
Definition rsdp_find : M kernel Z := rsdp_find_range (S (Z.to_nat 0x2000)) (KERNEL_VMA + 0xe0000) (KERNEL_VMA + 0xfffff).

(** The loop of [xsdt_find_table] and [rsdt_find_table], whose entries have [w]
    bytes. *)
Fixpoint sdt_loop (w : nat) (count : nat) (sdtp : Z) (signature : list Z) : M kernel Z :=
  match count with
  | O => mret NULL
  | S count =>
      e ← load_le w sdtp;
      let hdr := u64 (KERNEL_VMA + e) in
      ok ← acpi_check hdr signature;
      if negb ok then sdt_loop w count (sdtp + Z.of_nat w) signature else mret hdr
  end.

Definition xsdt_find_table (hdr : Z) (signature : list Z) : M kernel Z :=
  len ← load_le 4 (hdr + off_hdr_len);
  sdt_loop 8 (Z.to_nat (len / 8)) (hdr + sizeof_acpi_hdr) signature.
Definition rsdt_find_table (hdr : Z) (signature : list Z) : M kernel Z :=
  len ← load_le 4 (hdr + off_hdr_len);
  sdt_loop 4 (Z.to_nat (len / 4)) (hdr + sizeof_acpi_hdr) signature.

Definition acpi_find_table (rsdp : Z) (signature : list Z) : M kernel Z :=
  revision ← load_byte (rsdp + off_revision);
  x ← (if 0 <? revision then
         base ← load_le 8 (rsdp + off_xsdt_base);
         let hdr := u64 (KERNEL_VMA + base) in
         ok ← acpi_check hdr sig_XSDT;
         mret (if ok : bool then Some hdr else None)
       else mret None);
  match x with
  | Some hdr => xsdt_find_table hdr signature
  | None =>
      base ← load_le 4 (rsdp + off_rsdt_base);
      let hdr := u64 (KERNEL_VMA + base) in
      ok ← acpi_check hdr sig_RSDT;
      if ok : bool then rsdt_find_table hdr signature else mret NULL
  end.

(** ** State: the devices and the variables of kernel/acpi *)

Record platform `{Ports} := Platform {
  pf : devices;
  lapic_addr : Z;
  lapic_base : Z;
  hpet_regs : Z;
  hpet_freq : Z;
  boot_cpu : Z;
  cpu_status : gmap Z Z;  (** of each [struct cpuinfo], by address *)
}.

Section setters.
Context `{Ports}.
Definition set_pf (x : devices) (s : platform) : platform :=
  Platform _ x (lapic_addr s) (lapic_base s) (hpet_regs s) (hpet_freq s) (boot_cpu s) (cpu_status s).
Definition set_lapic_addr (x : Z) (s : platform) : platform :=
  Platform _ (pf s) x (lapic_base s) (hpet_regs s) (hpet_freq s) (boot_cpu s) (cpu_status s).
Definition set_lapic_base (x : Z) (s : platform) : platform :=
  Platform _ (pf s) (lapic_addr s) x (hpet_regs s) (hpet_freq s) (boot_cpu s) (cpu_status s).
Definition set_hpet_regs (x : Z) (s : platform) : platform :=
  Platform _ (pf s) (lapic_addr s) (lapic_base s) x (hpet_freq s) (boot_cpu s) (cpu_status s).
Definition set_hpet_freq (x : Z) (s : platform) : platform :=
  Platform _ (pf s) (lapic_addr s) (lapic_base s) (hpet_regs s) x (boot_cpu s) (cpu_status s).
Definition set_boot_cpu (x : Z) (s : platform) : platform :=
  Platform _ (pf s) (lapic_addr s) (lapic_base s) (hpet_regs s) (hpet_freq s) x (cpu_status s).
Definition set_cpu_status (x : gmap Z Z) (s : platform) : platform :=
  Platform _ (pf s) (lapic_addr s) (lapic_base s) (hpet_regs s) (hpet_freq s) (boot_cpu s) x.
End setters.

(** The array [cpus] and the size of its elements. *)
Class CpuLayout := { cpus : Z; sizeof_cpuinfo : Z }.

Section acpi.
Context `{Layout} `{VmaNames} `{Bus} `{SchedLayout} `{CpuLayout}.

Definition on_pf {A} (c : M devices A) : M platform A := zoom pf set_pf c.
Definition pkern {A} (c : M kernel A) : M platform A := on_pf (dkern c).

(** ** The local APIC (kernel/acpi/lapic.c, include/lapic.h) *)

Definition LAPIC_ID : Z := 0x0020.
Definition LAPIC_VERSION : Z := 0x0030.
Definition LAPIC_TPR : Z := 0x0080.
Definition LAPIC_EOI : Z := 0x00b0.
Definition LAPIC_SIVR : Z := 0x00f0.
Definition LAPIC_ESR : Z := 0x0280.
Definition LAPIC_ICR_LO : Z := 0x0300.
Definition LAPIC_ICR_HI : Z := 0x0310.
Definition LAPIC_TIMER : Z := 0x0320.
Definition LAPIC_PMCR : Z := 0x0340.
Definition LAPIC_LINT0 : Z := 0x0350.
Definition LAPIC_LINT1 : Z := 0x0360.
Definition LAPIC_ERROR : Z := 0x0370.
Definition LAPIC_TICR : Z := 0x0380.
Definition LAPIC_TDCR : Z := 0x03e0.
Definition LAPIC_ENABLE : Z := 0x00000100.
Definition LAPIC_INIT : Z := 0x00000500.
Definition LAPIC_STARTUP : Z := 0x00000600.
Definition LAPIC_DELIVERY : Z := 0x00001000.
Definition LAPIC_ASSERT : Z := 0x00004000.
Definition LAPIC_LEVEL : Z := 0x00008000.
Definition LAPIC_BROADCAST : Z := 0x00080000.
Definition LAPIC_OTHERS : Z := 0x000c0000.
Definition LAPIC_FIXED : Z := 0x00000000.
Definition LAPIC_X1 : Z := 0x0000000b.
Definition LAPIC_PERIODIC : Z := 0x00020000.
Definition LAPIC_MASKED : Z := 0x00010000.
Definition IRQ_TIMER_VECTOR : Z := 32.
Definition IRQ_SPURIOUS : Z := 39.
Definition IRQ_ERROR : Z := 51.

Definition lapic_read (addr : Z) : M platform Z := base ← gets lapic_base; on_pf (mmio_load 4 (base + addr)).
Definition lapic_write (addr value : Z) : M platform unit :=
  base ← gets lapic_base;
  on_pf (mmio_store 4 (base + addr) value);;
  _ ← lapic_read LAPIC_ID;
  mret tt.

Fixpoint lapic_wait (fuel : nat) : M platform unit :=
  match fuel with
  | O => halt NoFuel
  | S fuel => v ← lapic_read LAPIC_ICR_LO; if has v LAPIC_DELIVERY then lapic_wait fuel else mret tt
  end.

Definition lapic_cpunum : M platform Z :=
  base ← gets lapic_base;
  if base =? NULL then mret 0 else id ← lapic_read LAPIC_ID; mret (Z.shiftr id 24).

Definition lapic_init (fuel : nat) : M platform unit :=
  addr ← gets lapic_addr;
  if addr =? 0 then mret tt
  else
    base ← gets lapic_base;
    (if base =? NULL then b ← pkern (mmio_map_region addr PAGE_SIZE); modify (set_lapic_base b) else mret tt);;
    lapic_write LAPIC_SIVR (Z.lor LAPIC_ENABLE IRQ_SPURIOUS);;
    lapic_write LAPIC_TDCR LAPIC_X1;;
    lapic_write LAPIC_TIMER (Z.lor LAPIC_PERIODIC IRQ_TIMER_VECTOR);;
    lapic_write LAPIC_TICR 10000000;;
    n ← lapic_cpunum;
    boot ← gets boot_cpu;
    (if negb (cpus + n * sizeof_cpuinfo =? boot) then lapic_write LAPIC_LINT0 LAPIC_MASKED else mret tt);;
    lapic_write LAPIC_LINT1 LAPIC_MASKED;;
    v ← lapic_read LAPIC_VERSION;
    (if 4 <=? Z.land (Z.shiftr v 16) 0xff then lapic_write LAPIC_PMCR LAPIC_MASKED else mret tt);;
    lapic_write LAPIC_ERROR IRQ_ERROR;;
    lapic_write LAPIC_ESR 0;;
    lapic_write LAPIC_ESR 0;;
    lapic_write LAPIC_EOI 0;;
    lapic_write LAPIC_ICR_HI 0;;
    lapic_write LAPIC_ICR_LO (Z.lor LAPIC_BROADCAST (Z.lor LAPIC_INIT LAPIC_LEVEL));;
    lapic_wait fuel;;
    lapic_write LAPIC_TPR 0.

Definition lapic_eoi : M platform unit :=
  base ← gets lapic_base;
  if base =? NULL then mret tt else lapic_write LAPIC_EOI 0.

Definition lapic_ipi (fuel : nat) (vector : Z) : M platform unit :=
  lapic_write LAPIC_ICR_LO (Z.lor LAPIC_OTHERS (Z.lor LAPIC_FIXED vector));;
  lapic_wait fuel.

Definition send_startup (apic_id addr : Z) : M platform unit :=
  lapic_write LAPIC_ICR_HI (Z.shiftl apic_id 24);;
  lapic_write LAPIC_ICR_LO (Z.lor LAPIC_STARTUP (Z.shiftr addr 12)).

Definition lapic_startup (apic_id addr : Z) : M platform unit :=
  on_pf (out8 0x70 0xf);;
  on_pf (out8 (0x71 + 1) 0x8a);;
  wrv ← pkern (on_km (KADDR (Z.lor (Z.shiftl 0x40 4) 0x67)));
  pkern (store_le 2 wrv 0);;
  pkern (store_le 2 (wrv + 2) (Z.shiftr addr 4));;
  lapic_write LAPIC_ICR_HI (Z.shiftl apic_id 24);;
  lapic_write LAPIC_ICR_LO (Z.lor LAPIC_INIT (Z.lor LAPIC_LEVEL LAPIC_ASSERT));;
  lapic_write LAPIC_ICR_LO (Z.lor LAPIC_INIT LAPIC_LEVEL);;
  send_startup apic_id addr;;
  send_startup apic_id addr.

(** ** CPUs (kernel/acpi/madt.c) *)

Definition set_cpu_id (x : Z) (c : cpuinfo) : cpuinfo := Cpu (cpu_task c) (kmem_slabs c) (kmem_nslabs c) x (runq_len c).

Definition set_ncpus (f : Z → Z) : M platform unit :=
  on_pf (on_sched (modify (λ s,
    Sched _ (sk s) (scons s) (tasks s) (nuser_tasks s) (nkernel_tasks s) (u64 (f (ncpus s))) (runq_lock s) (debug_lock s) (start s) (time_elapsed s)))).

(** [lapic] is the address of the entry's [struct madt_lapic]. *)
Definition madt_parse_lapic (lapic : Z) : M platform unit :=
  apic_id ← pkern (load_byte (lapic + 1));
  if apic_id <? NCPUS then
    id ← pkern (load_byte lapic);
    let cpu := cpus + apic_id * sizeof_cpuinfo in
    pkern (c ← deref (λ k, kcpus k !! cpu); modify (λ k, set_kcpus (<[cpu := set_cpu_id id c]> (kcpus k)) k));;
    set_ncpus (λ n, n + 1)
  else mret tt.

(** The loop over the entries; the other entry types are only reported.  An
    entry of length 0 makes it endless. *)
Fixpoint madt_loop (fuel : nat) (i len p : Z) : M platform unit :=
  match fuel with
  | O => halt NoFuel
  | S fuel =>
      if i <? len then
        type ← pkern (load_byte p);
        (if type =? MADT_LAPIC then madt_parse_lapic (p + 2) else mret tt);;
        elen ← pkern (load_byte (p + 1));
        madt_loop fuel (u64 (i + elen)) len (p + elen)
      else mret tt
  end.

Definition madt_init (rsdp : Z) : M platform Z :=
  madt ← pkern (acpi_find_table rsdp sig_APIC);
  if madt =? NULL then mret (-1)
  else
    base ← pkern (load_le 4 (madt + off_madt_lapic_base));
    modify (set_lapic_addr base);;
    hlen ← pkern (load_le 4 (madt + off_hdr_len));
    let len := u64 (hlen - sizeof_madt) in
    set_ncpus (λ _, 0);;
    madt_loop (S (Z.to_nat len)) 0 len (madt + sizeof_madt);;
    n ← lapic_cpunum;
    let boot := cpus + n * sizeof_cpuinfo in
    modify (set_boot_cpu boot);;
    modify (λ s, set_cpu_status (<[boot := CPU_STARTED]> (cpu_status s)) s);;
    flags ← pkern (load_le 4 (madt + off_madt_flags));
    (if negb (flags =? 0) then
       on_pf (out8 0x22 0x70);;
       v ← on_pf (in8 0x23);
       on_pf (out8 0x23 (Z.lor v 1))
     else mret tt);;
    mret 0.

(** ** PCI segments (kernel/acpi/mcfg.c, [pci_init] of kernel/dev/pci.c)

    [junk] is what the uninitialised address of [alloc_io_dev] holds. *)
Fixpoint mcfg_loop (fuel : nat) (count : nat) (junk entry : Z) : M platform unit :=
  match count with
  | O => mret tt
  | S count =>
      base_addr ← pkern (load_le 8 entry);
      bus_start ← pkern (load_byte (entry + off_bus_start));
      bus_end ← pkern (load_byte (entry + off_bus_end));
      on_pf (pci_enum_devices fuel junk (u32 base_addr) bus_start bus_end);;
      mcfg_loop fuel count junk (entry + sizeof_mcfg_entry)
  end.

Definition mcfg_init (fuel : nat) (junk rsdp : Z) : M platform Z :=
  mcfg ← pkern (acpi_find_table rsdp sig_MCFG);
  if mcfg =? NULL then mret (-1)
  else
    hlen ← pkern (load_le 4 (mcfg + off_hdr_len));
    let len := u64 (hlen - off_mcfg_entries) in
    mcfg_loop fuel (Z.to_nat (len / sizeof_mcfg_entry)) junk (mcfg + off_mcfg_entries);;
    mret 0.

Definition pci_init (fuel : nat) (junk rsdp : Z) : M platform Z :=
  r ← mcfg_init fuel junk rsdp;
  if r =? 0 then mret 0 else on_pf (pci_enum_devices fuel junk 0 0 256);; mret 0.

(** ** The timer (kernel/acpi/hpet.c, include/hpet.h); a bit field of a
    register is accessed as the 64-bit register it is in *)

Definition off_hpet_cfg : Z := 16.
Definition off_main_cnt_val : Z := 240.

Definition set_enable_cnf (regs v : Z) : M platform unit :=
  x ← on_pf (mmio_load 8 (regs + off_hpet_cfg));
  on_pf (mmio_store 8 (regs + off_hpet_cfg) (x - x `mod` 2 + v)).

Definition hpet_init (rsdp : Z) : M platform Z :=
  hpet ← pkern (acpi_find_table rsdp sig_HPET);
  if hpet =? NULL then mret (-1)
  else
    regs ← gets hpet_regs;
    (if regs =? NULL then
       addr ← pkern (load_le 8 (hpet + off_hpet_addr));
       r ← pkern (mmio_map_region addr PAGE_SIZE);
       modify (set_hpet_regs r)
     else mret tt);;
    regs ← gets hpet_regs;
    if regs =? NULL then mret (-1)
    else
      set_enable_cnf regs 0;;
      on_pf (mmio_store 8 (regs + off_main_cnt_val) 0);;
      set_enable_cnf regs 1;;
      caps ← on_pf (mmio_load 8 regs);
      let period := Z.shiftr caps 32 in
      if period =? 0 then halt Fault
      else
        modify (set_hpet_freq (1000000000000000 / period));;
        mret 0.

(** [tv_sec] and [tv_nsec]. *)
Definition hpet_get_time : M platform (Z * Z) :=
  regs ← gets hpet_regs;
  cnt ← on_pf (mmio_load 8 (regs + off_main_cnt_val));
  freq ← gets hpet_freq;
  if freq =? 0 then halt Fault else mret (cnt / freq, cnt `mod` freq).
End acpi.
