(* ===== verification/AcpiSpec.v ===== *)
(** * Properties of the table search

    [acpi_find_table] against a reference search over the tables that the root
    table lists. *)

From S2P Require Import Prelude LinkedList Paging CString Spinlock Buddy RbTree Kernel PageWalk AddrSpace PageTable Slab Vma Console Task Devices Ata Ahci Acpi.

Local Open Scope Z_scope.

(** ** The memory the firmware has left *)

(** [b] has the bytes that the kernel [k] reads. *)
Section tables.
Context (k : kernel) (b : Z → Z).

Definition readable (a n : Z) : Prop := ∀ x, a ≤ x < a + n → load_byte x k = OK (b x) k ∧ 0 ≤ b x < 256.

Fixpoint le_at (w : nat) (p : Z) : Z :=
  match w with
  | O => 0
  | S w => b p + 256 * le_at w (p + 1)
  end.
Fixpoint sum_at (n : nat) (p : Z) : Z :=
  match n with
  | O => 0
  | S n => b p + sum_at n (p + 1)
  end.
Fixpoint starts_with (s : list Z) (p : Z) : bool :=
  match s with
  | [] => true
  | c :: s => (b p =? c) && starts_with s (p + 1)
  end.

(** A table: its length, and whether it has the signature and a good sum. *)
Definition table_len (hdr : Z) : Z := le_at 4 (hdr + off_hdr_len).
Definition is_table (sig : list Z) (hdr : Z) : bool :=
  starts_with sig hdr && (sum_at (Z.to_nat (table_len hdr)) hdr `mod` 256 =? 0).
Definition table_readable (hdr : Z) : Prop := readable hdr sizeof_acpi_hdr ∧ readable hdr (table_len hdr).

(** The tables a root table with entries of [w] bytes lists. *)
Definition listed (w : nat) (hdr : Z) : list Z :=
  (λ i, u64 (KERNEL_VMA + le_at w (hdr + sizeof_acpi_hdr + Z.of_nat w * i))) <$>
    seqZ 0 ((table_len hdr - sizeof_acpi_hdr) / Z.of_nat w).

(** The first table of a list with the signature. *)
Definition first_table (sig : list Z) (l : list Z) : option Z := head (filter (λ hdr, is_table sig hdr = true) l).

(** The root table and the width of its entries: the XSDT if there is a good
    one, otherwise the RSDT. *)
Definition xsdt_of (rsdp : Z) : Z := u64 (KERNEL_VMA + le_at 8 (rsdp + off_xsdt_base)).
Definition rsdt_of (rsdp : Z) : Z := u64 (KERNEL_VMA + le_at 4 (rsdp + off_rsdt_base)).
Definition root_of (rsdp : Z) : option (Z * nat) :=
  if (0 <? b (rsdp + off_revision)) && is_table sig_XSDT (xsdt_of rsdp) then Some (xsdt_of rsdp, 8%nat)
  else if is_table sig_RSDT (rsdt_of rsdp) then Some (rsdt_of rsdp, 4%nat)
  else None.

(** ** The accesses *)

Lemma readable_sub a n a' n' : readable a n → a ≤ a' → a' + n' ≤ a + n → readable a' n'.
Proof. intros Hr Ha Hn x Hx. apply Hr. lia. Qed.

Lemma load_le_at w : ∀ p, readable p (Z.of_nat w) → load_le w p k = OK (le_at w p) k.
Proof.
  induction w as [|w IH]; intros p Hr; [done|]. cbn [load_le]. unfold mbind, M_bind. rewrite (proj1 (Hr p ltac:(lia))).
  rewrite IH by (eapply readable_sub; [exact Hr|lia|lia]). done.
Qed.

Lemma mem_equal_spec s : ∀ p, readable p (Z.of_nat (length s)) → mem_equal p s k = OK (starts_with s p) k.
Proof.
  induction s as [|c s IH]; intros p Hr; [done|]. cbn [mem_equal starts_with length] in *. unfold mbind, M_bind.
  rewrite (proj1 (Hr p ltac:(lia))). destruct (b p =? c); cbn [negb andb]; [|done].
  apply IH. eapply readable_sub; [exact Hr|lia|lia].
Qed.

Lemma u8_schar v x : 0 ≤ x < 256 → u8 (u8 v + schar x) = u8 (v + x).
Proof. intros Hx. unfold u8, schar. destruct (x <? 128); mlia. Qed.

Lemma memsum_loop_spec n : ∀ p v, readable p (Z.of_nat n) → memsum_loop n p (u8 v) k = OK (u8 (v + sum_at n p)) k.
Proof.
  induction n as [|n IH]; intros p v Hr; cbn [memsum_loop sum_at]; [by rewrite Z.add_0_r|].
  destruct (Hr p) as [E Hb]; [lia|]. unfold mbind, M_bind. rewrite E, u8_schar by done.
  rewrite IH by (eapply readable_sub; [exact Hr|lia|lia]). do 2 f_equal. lia.
Qed.

Lemma table_len_nonneg hdr : readable hdr sizeof_acpi_hdr → 0 ≤ table_len hdr.
Proof.
  intros Hr. unfold table_len. assert (∀ w p, readable p (Z.of_nat w) → 0 ≤ le_at w p) as Hl.
  { induction w as [|w IH]; intros p Hp; cbn [le_at]; [done|]. destruct (Hp p) as [_ ?]; [lia|].
    assert (0 ≤ le_at w (p + 1)) by (apply IH; eapply readable_sub; [exact Hp|lia|lia]). lia. }
  apply Hl. eapply readable_sub; [exact Hr|unfold off_hdr_len; lia|unfold off_hdr_len, sizeof_acpi_hdr; lia].
Qed.

Lemma acpi_check_spec sig hdr : length sig = 4%nat → table_readable hdr → acpi_check hdr sig k = OK (is_table sig hdr) k.
Proof.
  intros Hs [Hh Ht]. pose proof (table_len_nonneg hdr Hh) as Hl. unfold acpi_check, mbind, M_bind.
  rewrite mem_equal_spec by (rewrite Hs; eapply readable_sub; [exact Hh|lia|unfold sizeof_acpi_hdr; lia]).
  unfold is_table. destruct (starts_with sig hdr); cbn [negb andb]; [|done].
  rewrite load_le_at by (eapply readable_sub; [exact Hh|unfold off_hdr_len; lia|unfold off_hdr_len, sizeof_acpi_hdr; lia]).
  unfold memsum. fold (table_len hdr). change 0 with (u8 0) at 1. rewrite memsum_loop_spec by (by rewrite Z2Nat.id).
  done.
Qed.

(** ** The search *)

Lemma first_table_cons sig hdr l : first_table sig (hdr :: l) = if is_table sig hdr then Some hdr else first_table sig l.
Proof. unfold first_table. rewrite filter_cons. destruct (is_table sig hdr) eqn:E; by case_decide. Qed.

(** The pointers the loop reads, one per round. *)
Fixpoint pointers (w n : nat) (p : Z) : list Z :=
  match n with
  | O => []
  | S n => u64 (KERNEL_VMA + le_at w p) :: pointers w n (p + Z.of_nat w)
  end.

Lemma sdt_loop_spec w sig t : length sig = 4%nat → ∀ n m p, (n ≤ m)%nat → readable p (Z.of_nat w * Z.of_nat n) →
  (∀ hdr, hdr ∈ pointers w n p → table_readable hdr) → first_table sig (pointers w n p) = Some t →
  sdt_loop w m p sig k = OK t k.
Proof.
  intros Hs. induction n as [|n IH]; intros m p Hm Hr Hall Hf; [done|]. destruct m as [|m]; [lia|].
  cbn [sdt_loop pointers] in *. rewrite first_table_cons in Hf. unfold mbind, M_bind.
  rewrite load_le_at by (eapply readable_sub; [exact Hr|lia|lia]).
  rewrite acpi_check_spec by (try done; apply Hall; set_solver).
  destruct (is_table sig _); cbn [negb]; [by simplify_eq|]. apply IH; [lia| |set_solver|done].
  eapply readable_sub; [exact Hr|lia|lia].
Qed.

Lemma listed_pointers w hdr : listed w hdr = pointers w (Z.to_nat ((table_len hdr - sizeof_acpi_hdr) / Z.of_nat w)) (hdr + sizeof_acpi_hdr).
Proof.
  unfold listed. set (n := _ / _). clearbody n. set (p := hdr + sizeof_acpi_hdr). clearbody p.
  assert (∀ c p s, (λ i, u64 (KERNEL_VMA + le_at w (p + Z.of_nat w * (i - s)))) <$> seqZ s (Z.of_nat c) = pointers w c p) as Hc.
  { induction c as [|c IH]; intros q s; [done|]. rewrite seqZ_cons by lia. cbn [pointers fmap list_fmap]. f_equal; [do 3 f_equal; lia|].
    rewrite <-(IH (q + Z.of_nat w) (Z.succ s)). replace (Z.pred (Z.of_nat (S c))) with (Z.of_nat c) by lia.
    apply list_fmap_ext. intros i x _. do 3 f_equal. lia. }
  rewrite <-(Hc _ p 0). destruct (decide (0 ≤ n)).
  - rewrite Z2Nat.id by done. apply list_fmap_ext. intros i x _. do 3 f_equal. lia.
  - by rewrite !seqZ_nil by lia.
Qed.

(** The memory that a search may look at: the RSDP, the root tables and the
    tables they list. *)
Record tables_readable (rsdp : Z) : Prop := {
  rd_rsdp : readable rsdp 36;
  rd_xsdt : 0 < b (rsdp + off_revision) → table_readable (xsdt_of rsdp);
  rd_rsdt : table_readable (rsdt_of rsdp);
  rd_tables hdr w t : root_of rsdp = Some (hdr, w) → t ∈ listed w hdr → table_readable t;
}.

Lemma hdr_len hdr : table_readable hdr → load_le 4 (hdr + off_hdr_len) k = OK (table_len hdr) k.
Proof.
  intros [Hh _]. apply load_le_at. eapply readable_sub; [exact Hh|unfold off_hdr_len; lia|unfold off_hdr_len, sizeof_acpi_hdr; lia].
Qed.

Lemma sdt_find w hdr sig t : (0 < w)%nat → length sig = 4%nat → table_readable hdr → (∀ t, t ∈ listed w hdr → table_readable t) →
  first_table sig (listed w hdr) = Some t →
  sdt_loop w (Z.to_nat (table_len hdr / Z.of_nat w)) (hdr + sizeof_acpi_hdr) sig k = OK t k.
Proof.
  intros Hw Hs [Hh Ht] Hall Hf. rewrite listed_pointers in Hall, Hf. set (n := (table_len hdr - sizeof_acpi_hdr) / Z.of_nat w) in *.
  assert (n * Z.of_nat w ≤ table_len hdr - sizeof_acpi_hdr) as Hn.
  { subst n. rewrite Z.mul_comm. apply Z.mul_div_le. lia. }
  apply (sdt_loop_spec w sig t Hs (Z.to_nat n)); [|..|done|done].
  - assert (n ≤ table_len hdr / Z.of_nat w) by (subst n; apply Z.div_le_mono; unfold sizeof_acpi_hdr; lia). lia.
  - destruct (decide (0 ≤ n)).
    + rewrite Z2Nat.id by done. eapply readable_sub; [exact Ht|unfold sizeof_acpi_hdr; lia|lia].
    + intros x Hx. lia.
Qed.

(** The search agrees with the reference: it takes the first
    table with the signature and a checksum of zero that the root table lists,
    the root table being the XSDT if the firmware has a valid one and the RSDT
    otherwise; without a valid root table there is none.  Nothing is changed. *)
Theorem acpi_find_table_correct rsdp sig : length sig = 4%nat → tables_readable rsdp →
  match root_of rsdp with
  | Some (hdr, w) => ∀ t, first_table sig (listed w hdr) = Some t → acpi_find_table rsdp sig k = OK t k
  | None => acpi_find_table rsdp sig k = OK NULL k
  end.
Proof.
  intros Hs [Hr Hx Ht Hall]. unfold acpi_find_table, mbind, M_bind. rewrite (proj1 (Hr (rsdp + off_revision) ltac:(unfold off_revision; lia))).
  assert (load_le 4 (rsdp + off_rsdt_base) k = OK (le_at 4 (rsdp + off_rsdt_base)) k) as El.
  { apply load_le_at. eapply readable_sub; [exact Hr|unfold off_rsdt_base; lia..]. }
  unfold root_of in *. destruct (0 <? b (rsdp + off_revision)) eqn:Erev; cbn [andb] in *.
  - rewrite load_le_at by (eapply readable_sub; [exact Hr|unfold off_xsdt_base; lia..]).
    fold (xsdt_of rsdp). apply Z.ltb_lt, Hx in Erev. rewrite acpi_check_spec by done. unfold mret, M_ret.
    destruct (is_table sig_XSDT (xsdt_of rsdp)).
    + intros t Hf. unfold xsdt_find_table, mbind, M_bind. rewrite hdr_len by done. apply (sdt_find 8); [lia|done|done|by eauto|done].
    + rewrite El. fold (rsdt_of rsdp). rewrite acpi_check_spec by done. destruct (is_table sig_RSDT _); [|done].
      intros t Hf. unfold rsdt_find_table, mbind, M_bind. rewrite hdr_len by done. apply (sdt_find 4); [lia|done|done|by eauto|done].
  - unfold mret, M_ret. rewrite El. fold (rsdt_of rsdp). rewrite acpi_check_spec by done. destruct (is_table sig_RSDT _); [|done].
    intros t Hf. unfold rsdt_find_table, mbind, M_bind. rewrite hdr_len by done. apply (sdt_find 4); [lia|done|done|by eauto|done].
Qed.
End tables.

(** ** A machine with an XSDT that lists two tables *)

Definition le_bytes_of (w : nat) (v : Z) : list Z := (λ i, (v / 2 ^ (8 * Z.of_nat i)) `mod` 256) <$> seq 0 w.
Definition pad (n : nat) (l : list Z) : list Z := take n (l ++ replicate n 0).
(** A table with its checksum. *)
Definition make_table (sig body : list Z) : list Z :=
  let l := sig ++ le_bytes_of 4 (36 + Z.of_nat (length body)) in
  let sum := foldr Z.add 0 (l ++ body) in
  l ++ [0; (- sum) `mod` 256] ++ replicate 26 0 ++ body.
Definition acpi_page : list Z :=
  pad 64 (sig_rsdp ++ [0; 0; 0; 0; 0; 0; 0; 2] ++ le_bytes_of 4 0 ++ le_bytes_of 4 36 ++ le_bytes_of 8 0x5040) ++
  pad 64 (make_table sig_XSDT (le_bytes_of 8 0x5080 ++ le_bytes_of 8 0x50C0)) ++
  pad 64 (make_table sig_HPET []) ++
  pad 64 (make_table sig_APIC (le_bytes_of 4 0xFEE00000 ++ le_bytes_of 4 0)).

Fixpoint words_of (l : list Z) (i : Z) (n : nat) : frame_words :=
  match n with
  | O => ∅
  | S n => <[i := foldr (λ x v, x + 256 * v) 0 (take 8 l)]> (words_of (drop 8 l) (i + 1) n)
  end.
Definition acpi_phys : physmem :=
  list_to_map [(16, {[ 256 := 17 * 4096 + 3 ]}); (17, {[ 0 := 18 * 4096 + 3 ]}); (18, {[ 0 := 19 * 4096 + 3 ]});
    (19, list_to_map [(0, 3); (5, 5 * 4096 + 3)]); (5, words_of acpi_page 0 32)].
Definition acpi_kernel : kernel :=
  Kernel (Mem ∅ ∅ 0 32 (SpinLock 0 0 0 0 0) acpi_phys 0) (Rbs ∅ ∅) ∅ ∅ ∅ ∅ ∅ ∅ ∅ (SpinLock 0 0 0 0 0) (16 * PAGE_SIZE) ∅ 0 0.
Definition acpi_bytes (x : Z) : Z := match load_byte x acpi_kernel with OK v _ => v | Stop _ _ => 0 end.
Definition demo_rsdp : Z := KERNEL_VMA + 0x5000.

(** The page of the tables and the page that address 0 of an absent RSDT
    refers to can be read. *)
Lemma acpi_load x : KERNEL_VMA + 0x5000 ≤ x < KERNEL_VMA + 0x6000 ∨ KERNEL_VMA ≤ x < KERNEL_VMA + 0x1000 →
  load_byte x acpi_kernel = OK (acpi_bytes x) acpi_kernel ∧ 0 ≤ acpi_bytes x < 256.
Proof.
  intros Hx. assert (∃ f off, phys_byte false acpi_kernel x = Some (f, off)) as (f & off & E).
  { unfold phys_byte. assert (PAGE_INDEX x = PAGE_INDEX (KERNEL_VMA + 0x5000) ∨ PAGE_INDEX x = PAGE_INDEX KERNEL_VMA) as [-> | ->].
    { rewrite !PAGE_INDEX_div. unfold KERNEL_VMA, PAGE_SIZE in *. destruct Hx; [left|right]; mlia. }
    all: eexists _, _; reflexivity. }
  unfold acpi_bytes, load_byte, mbind, M_bind, deref. rewrite E. split; [reflexivity|]. apply Z.mod_pos_bound. lia.
Qed.

Lemma acpi_readable a n : KERNEL_VMA + 0x5000 ≤ a → a + n ≤ KERNEL_VMA + 0x6000 → readable acpi_kernel acpi_bytes a n.
Proof. intros Ha Hn x Hx. apply acpi_load. lia. Qed.

Lemma acpi_values : xsdt_of acpi_bytes demo_rsdp = KERNEL_VMA + 0x5040 ∧ rsdt_of acpi_bytes demo_rsdp = KERNEL_VMA ∧
  table_len acpi_bytes KERNEL_VMA = 0 ∧ root_of acpi_bytes demo_rsdp = Some (KERNEL_VMA + 0x5040, 8%nat) ∧
  listed acpi_bytes 8 (KERNEL_VMA + 0x5040) = [KERNEL_VMA + 0x5080; KERNEL_VMA + 0x50C0] ∧
  table_len acpi_bytes (KERNEL_VMA + 0x5040) = 52 ∧
  table_len acpi_bytes (KERNEL_VMA + 0x5080) = 36 ∧ table_len acpi_bytes (KERNEL_VMA + 0x50C0) = 44 ∧
  first_table acpi_bytes sig_APIC [KERNEL_VMA + 0x5080; KERNEL_VMA + 0x50C0] = Some (KERNEL_VMA + 0x50C0).
Proof. vm_compute. repeat split; reflexivity. Qed.

Lemma acpi_tables_readable : tables_readable acpi_kernel acpi_bytes demo_rsdp.
Proof.
  destruct acpi_values as (E1 & E2 & E3 & E4 & E5 & E6 & E7 & E8 & _). split.
  - apply acpi_readable; unfold demo_rsdp; lia.
  - intros _. rewrite E1. split; [|rewrite E6]; apply acpi_readable; unfold sizeof_acpi_hdr; lia.
  - rewrite E2. split; [|rewrite E3; intros x Hx; lia]. intros x Hx. apply acpi_load. right. unfold sizeof_acpi_hdr in Hx. lia.
  - intros hdr w t Er Ht. rewrite E4 in Er. injection Er as <- <-. rewrite E5 in Ht. rewrite !elem_of_cons, elem_of_nil in Ht.
    destruct Ht as [-> | [-> | []]]; (split; [|rewrite ?E7, ?E8]; apply acpi_readable; unfold sizeof_acpi_hdr; lia).
Qed.

Lemma acpi_find_table_correct_witness : acpi_find_table demo_rsdp sig_APIC acpi_kernel = OK (KERNEL_VMA + 0x50C0) acpi_kernel.
Proof.
  destruct acpi_values as (_ & _ & _ & E4 & E5 & _ & _ & _ & E9).
  pose proof (acpi_find_table_correct acpi_kernel acpi_bytes demo_rsdp sig_APIC eq_refl acpi_tables_readable) as E.
  rewrite E4 in E. apply E. rewrite E5. exact E9.
Defined.
