(* ===== verification/Monitor.v ===== *)
(** * The kernel monitor (kernel/monitor.c, kernel/mem/dump.c, kernel/vma/show.c)

    The command interpreter, its commands, and the reports they print.  What a
    command prints is a list of [report]s, one per line or group of lines, with
    the values that are printed; the text around them is left out.  The line
    buffer and the string constants are in a byte memory, as in CString.v. *)

From S2P Require Import Prelude LinkedList Paging CString Spinlock Buddy RbTree Kernel PageWalk PageTable Slab Vma Console Task Sched Devices.

Local Open Scope Z_scope.

Inductive command := mon_help_cmd | mon_kerninfo_cmd | mon_backtrace_cmd | mon_buddyinfo_cmd | mon_pageinfo_cmd | mon_ptdump_cmd | mon_vmainfo_cmd.

Inductive report :=
  | Help (c : command)
  | Symbols
  | StackFrame (rip rbp : Z) (args : list Z)
  | FreeList (order count : Z) (nodes : list Z)
  | FreeMemory (kib : Z)
  | NoAllocator
  | Usage (argv0 : Z)
  | OutOfRange (addr : Z)
  | PageReport (idx pa : Z) (free : bool) (ref order : Z)
  | NoSuchPid
  | Region (base end_ flags : Z)
  | VmasOf (pid : Z)
  | VmaReport (v : vma)
  | TooManyArguments
  | UnknownCommand (argv0 : Z).

(** ** kernel/mem/dump.c; [udata] is the [struct dump_info] and what has been
    printed *)

Record dump_info := DumpInfo { d_base : Z; d_end : Z; d_flags : Z; d_mask : Z }.

Section dump.
Context `{Layout}.

Definition dump_state : Type := dump_info * list report.

Definition dump_hole (base end_ : Z) : M (kernel * dump_state) Z :=
  '(i, out) ← udata;
  let out := if has (d_flags i) PAGE_PRESENT then out ++ [Region (d_base i) (d_end i) (d_flags i)] else out in
  set_udata (DumpInfo (d_base i) (d_end i) 0 (d_mask i), out);;
  mret 0.

(** The common end of [dump_pte] and [dump_pde]. *)
Definition dump_entry (e base end_ : Z) : M (kernel * dump_state) Z :=
  '(i, out) ← udata;
  let flags := Z.land e (d_mask i) in
  if flags =? d_flags i then
    set_udata (DumpInfo (d_base i) end_ (d_flags i) (d_mask i), out);;
    mret 0
  else
    _ ← dump_hole base end_;
    '(i, out) ← udata;
    set_udata (DumpInfo base end_ flags (d_mask i), out);;
    mret 0.

Definition dump_pte (entry base end_ : Z) : M (kernel * dump_state) Z :=
  e ← mcall (read_word entry);
  dump_entry e base end_.

Definition dump_pde (entry base end_ : Z) : M (kernel * dump_state) Z :=
  e ← mcall (read_word entry);
  if negb (has e PAGE_HUGE) then mret 0 else dump_entry e base end_.

Definition dump_walker : page_walker dump_state :=
  Walker (Some dump_pte) (Some dump_pde) None None None None None None (Some dump_hole).

(** [end_] is what the field [end], which is not initialised by name, holds: 0. *)
Definition dump_page_tables (pml4 mask : Z) : M kernel (Z * list report) :=
  let mask := Z.lor mask (Z.lor PAGE_PRESENT (Z.lor PAGE_WRITE (Z.lor PAGE_NO_EXEC PAGE_USER))) in
  '(r, (_, out)) ← with_udata (DumpInfo 0 0 0 mask, []) (
    r ← walk_all_pages pml4 dump_walker;
    if r <? 0 then mret (-1) else _ ← dump_hole 0 0; mret 0);
  mret (r, out).
End dump.

(** ** State *)

Record monitor_state `{Ports} := MonitorState { mon_mem : cmem; mon_sched : sched; mon_out : list report }.

(** Addresses: the buffer of [readline], the constants, [read_rbp]. *)
Class MonitorLayout := {
  line_addr : Z;
  str_whitespace : Z;
  str_idx : Z;
  str_pa : Z;
  command_name : command → Z;
  entry_rbp : Z;
}.

Definition commands : list command :=
  [mon_help_cmd; mon_kerninfo_cmd; mon_backtrace_cmd; mon_buddyinfo_cmd; mon_pageinfo_cmd; mon_ptdump_cmd; mon_vmainfo_cmd].
Definition WHITESPACE : list Z := [9; 13; 10; 32].
Definition MAXARGS : Z := 16.

Section monitor.
Context `{Layout} `{VmaNames} `{Ports} `{SchedLayout} `{MonitorLayout}.

Definition mon_bytes {A} (c : M cmem A) : M monitor_state A := zoom mon_mem (λ x s, MonitorState _ x (mon_sched s) (mon_out s)) c.
Definition mon_kernel {A} (c : M sched A) : M monitor_state A := zoom mon_sched (λ x s, MonitorState _ (mon_mem s) x (mon_out s)) c.
Definition print (l : list report) : M monitor_state unit := modify (λ s, MonitorState _ (mon_mem s) (mon_sched s) (mon_out s ++ l)).

(** ** The commands *)

Definition mon_help (argv : list Z) : M monitor_state Z := print (Help <$> commands);; mret 0.
Definition mon_kerninfo (argv : list Z) : M monitor_state Z := print [Symbols];; mret 0.

(** Six words above the return address, whatever they are. *)
Fixpoint load_words (n : nat) (p : Z) : M kernel (list Z) :=
  match n with
  | O => mret []
  | S n => v ← load_le 8 p; vs ← load_words n (p + 8); mret (v :: vs)
  end.
Fixpoint backtrace_loop (fuel : nat) (rbp : Z) : M monitor_state unit :=
  match fuel with
  | O => halt NoFuel
  | S fuel =>
      if rbp =? NULL then mret tt
      else
        rip ← mon_kernel (kern (load_le 8 (rbp + 8)));
        args ← mon_kernel (kern (load_words 6 (rbp + 16)));
        print [StackFrame rip rbp args];;
        next ← mon_kernel (kern (load_le 8 rbp));
        backtrace_loop fuel next
  end.
Definition mon_backtrace (fuel : nat) (argv : list Z) : M monitor_state Z := backtrace_loop fuel entry_rbp;; mret 0.

Fixpoint buddy_orders (n : nat) (order nfree : Z) : M monitor_state Z :=
  match n with
  | O => mret nfree
  | S n =>
      c ← mon_kernel (kern (on_km (count_free_pages order)));
      nodes ← mon_kernel (kern (on_km (on_heap (list_foreach (free_list order)))));
      print [FreeList order c nodes];;
      buddy_orders n (order + 1) (u64 (nfree + c * s32 (Z.shiftl 1 (order + 12))))
  end.
Definition show_buddy_info : M monitor_state unit :=
  nfree ← buddy_orders (Z.to_nat BUDDY_MAX_ORDER) 0 0;
  print [FreeMemory (nfree / 1024)].
Definition mon_buddyinfo (argv : list Z) : M monitor_state Z := show_buddy_info;; mret 0.

Definition arg (argv : list Z) (i : nat) : M monitor_state Z := deref (λ _, argv !! i).

Definition mon_pageinfo (argv : list Z) : M monitor_state Z :=
  '(p, n) ← mon_kernel (kern (gets (λ k, (pages (km k), npages (km k)))));
  if (p =? NULL) || (n =? 0) then print [NoAllocator];; mret 0
  else
    a0 ← arg argv 0;
    if (length argv <? 3)%nat then print [Usage a0];; mret 0
    else
      a1 ← arg argv 1;
      a2 ← arg argv 2;
      '(v, _) ← mon_bytes (strtol a2 0);
      let addr := u64 v in
      i ← mon_bytes (strcmp a1 str_idx);
      r ← (if i =? 0 then
             if n <=? addr then mret (Datatypes.inl (OutOfRange addr))
             else pg ← mon_kernel (kern (on_km (page_at addr))); mret (Datatypes.inr (addr, pg))
           else
             j ← mon_bytes (strcmp a1 str_pa);
             if j =? 0 then pg ← mon_kernel (kern (on_km (pa2page addr))); mret (Datatypes.inr (PAGE_INDEX addr, pg))
             else mret (Datatypes.inl (Usage a0)));
      match r with
      | Datatypes.inl complaint => print [complaint];; mret 0
      | Datatypes.inr (idx, pg) =>
          pa ← mon_kernel (kern (on_km (page2pa pg)));
          info ← mon_kernel (kern (on_km (page_get pg)));
          print [PageReport idx pa (negb (pp_free info =? 0)) (pp_ref info) (pp_order info)];;
          mret 0
      end.

(** [NULL] when there is no task with the PID of the first argument. *)
Definition task_argument (argv : list Z) : M monitor_state Z :=
  a1 ← arg argv 1;
  '(v, _) ← mon_bytes (strtol a1 10);
  mon_kernel (pid2task (s32 v) false).

Definition dump_tables (pml4 : Z) : M monitor_state Z :=
  '(r, out) ← mon_kernel (kern (dump_page_tables pml4 PAGE_HUGE));
  print out;;
  mret r.

Definition mon_ptdump (argv : list Z) : M monitor_state Z :=
  if (length argv <? 2)%nat then pml4 ← mon_kernel (kern (gets kernel_pml4)); dump_tables pml4
  else
    task ← task_argument argv;
    if task =? NULL then print [NoSuchPid];; mret 0
    else t ← mon_kernel (kern (task_get task)); dump_tables (task_pml4 t).

(** kernel/vma/show.c *)
Fixpoint show_nodes (nodes : list Z) : M monitor_state unit :=
  match nodes with
  | [] => mret tt
  | node :: nodes => v ← mon_kernel (kern (vma_get (container_of node off_vm_mmap))); print [VmaReport v];; show_nodes nodes
  end.
Definition show_vmas (task : Z) : M monitor_state unit :=
  t ← mon_kernel (kern (task_get task));
  print [VmasOf (task_pid t)];;
  nodes ← mon_kernel (kern (on_list (list_foreach (task + off_task_mmap))));
  show_nodes nodes.

Definition mon_vmainfo (argv : list Z) : M monitor_state Z :=
  if (length argv <? 2)%nat then cur ← mon_kernel (kern cur_task); show_vmas cur;; mret 0
  else
    task ← task_argument argv;
    if task =? NULL then print [NoSuchPid];; mret 0 else show_vmas task;; mret 0.

Definition func (fuel : nat) (c : command) (argv : list Z) : M monitor_state Z :=
  match c with
  | mon_help_cmd => mon_help argv
  | mon_kerninfo_cmd => mon_kerninfo argv
  | mon_backtrace_cmd => mon_backtrace fuel argv
  | mon_buddyinfo_cmd => mon_buddyinfo argv
  | mon_pageinfo_cmd => mon_pageinfo argv
  | mon_ptdump_cmd => mon_ptdump argv
  | mon_vmainfo_cmd => mon_vmainfo argv
  end.

(** ** The interpreter *)

(** "gobble whitespace" *)
Fixpoint gobble (fuel : nat) (buf : Z) : M cmem Z :=
  match fuel with
  | O => halt NoFuel
  | S fuel =>
      c ← load buf;
      if c =? 0 then mret buf
      else
        p ← strchr str_whitespace (schar c);
        if p =? NULL then mret buf else store buf 0;; gobble fuel (buf + 1)
  end.
(** "scan past next arg" *)
Fixpoint scan (fuel : nat) (buf : Z) : M cmem Z :=
  match fuel with
  | O => halt NoFuel
  | S fuel =>
      c ← load buf;
      if c =? 0 then mret buf
      else
        p ← strchr str_whitespace (schar c);
        if p =? NULL then scan fuel (buf + 1) else mret buf
  end.
(** The [while (1)] loop: the arguments, or [None] when there are too many. *)
Fixpoint parse_args (fuel : nat) (buf : Z) (argv : list Z) : M cmem (option (list Z)) :=
  match fuel with
  | O => halt NoFuel
  | S n =>
      buf ← gobble fuel buf;
      c ← load buf;
      if c =? 0 then mret (Some argv)
      else if Z.of_nat (length argv) =? MAXARGS - 1 then mret None
      else
        end_ ← scan fuel buf;
        parse_args n end_ (argv ++ [buf])
  end.

Fixpoint find_command (l : list command) (argv0 : Z) : M cmem (option command) :=
  match l with
  | [] => mret None
  | c :: l => r ← strcmp argv0 (command_name c); if r =? 0 then mret (Some c) else find_command l argv0
  end.

Definition runcmd (fuel : nat) (buf : Z) : M monitor_state Z :=
  args ← mon_bytes (parse_args fuel buf []);
  match args with
  | None => print [TooManyArguments];; mret 0
  | Some [] => mret 0
  | Some ((argv0 :: _) as argv) =>
      c ← mon_bytes (find_command commands argv0);
      match c with
      | Some c => func fuel c argv
      | None => print [UnknownCommand argv0];; mret 0
      end
  end.

(** [readline] leaves the line in the console's buffer, which is the memory at
    [line_addr]. *)
Fixpoint monitor (fuel : nat) : M monitor_state unit :=
  match fuel with
  | O => halt NoFuel
  | S n =>
      line ← mon_kernel (zoom scons set_scons (readline fuel));
      match line with
      | None => monitor n
      | Some _ =>
          bytes ← mon_kernel (zoom scons set_scons (gets linebuf));
          mon_bytes (store_n line_addr bytes);;
          r ← runcmd fuel line_addr;
          if r <? 0 then mret tt else monitor n
      end
  end.
End monitor.
