(* ===== verification/MonitorSpec.v ===== *)
(** * Properties of the monitor's command interpreter

    The arguments that [runcmd] cuts a line into are the words of the line, as
    a reference function splits it. *)

From S2P Require Import Prelude LinkedList Paging CString Spinlock Buddy RbTree Kernel PageWalk PageTable Slab Vma Console Task Sched Devices Monitor.

Local Open Scope Z_scope.

(** ** The reference: splitting at whitespace *)

Definition white (b : Z) : bool := bool_decide (b ∈ WHITESPACE).

Definition flush (w : list Z) : list (list Z) := match w with [] => [] | _ => [w] end.
(** [w] is the word under way. *)
Fixpoint words_from (w bs : list Z) : list (list Z) :=
  match bs with
  | [] => flush w
  | b :: bs => if white b then flush w ++ words_from [] bs else words_from (w ++ [b]) bs
  end.
Definition words (bs : list Z) : list (list Z) := words_from [] bs.

Definition starts_white (bs : list Z) : Prop := match bs with [] => True | b :: _ => white b = true end.
Definition starts_word (bs : list Z) : Prop := match bs with [] => True | b :: _ => white b = false end.

Lemma words_skip sp rest : Forall (λ b, white b = true) sp → words (sp ++ rest) = words rest.
Proof. induction 1 as [|b sp E _ IH]; [done|]. unfold words in *. cbn [app words_from]. by rewrite E. Qed.

Lemma words_from_app w rest : ∀ u, Forall (λ b, white b = false) w → words_from u (w ++ rest) = words_from (u ++ w) rest.
Proof.
  induction w as [|b w IH]; intros u Hw; cbn [app words_from]; [by rewrite app_nil_r|].
  inversion Hw as [|? ? E Hw']; subst. rewrite E, IH by done. by rewrite <-app_assoc.
Qed.

Lemma words_cons w rest : w ≠ [] → Forall (λ b, white b = false) w → starts_white rest → words (w ++ rest) = w :: words rest.
Proof.
  intros Hne Hw Hr. unfold words. rewrite words_from_app by done. destruct w as [|b w]; [done|]. destruct rest as [|c rest]; [done|].
  cbn in Hr |- *. by rewrite Hr.
Qed.

Lemma split_white bs : ∃ sp rest, bs = sp ++ rest ∧ Forall (λ b, white b = true) sp ∧ starts_word rest.
Proof.
  induction bs as [|b bs (sp & rest & -> & Hs & Hr)]; [by exists [], []|]. destruct (white b) eqn:E.
  - exists (b :: sp), rest. auto.
  - exists [], (b :: sp ++ rest). auto.
Qed.
Lemma split_word bs : ∃ w rest, bs = w ++ rest ∧ Forall (λ b, white b = false) w ∧ starts_white rest.
Proof.
  induction bs as [|b bs (w & rest & -> & Hs & Hr)]; [by exists [], []|]. destruct (white b) eqn:E.
  - exists [], (b :: w ++ rest). auto.
  - exists (b :: w), rest. auto.
Qed.

(** ** Strings in memory *)

Lemma cstr_app m a xs ys : cstr m a (xs ++ ys) → cstr m (a + Z.of_nat (length xs)) ys.
Proof.
  revert a. induction xs as [|x xs IH]; intros a Hs; cbn in *; [by rewrite Z.add_0_r|]. destruct Hs as (_ & _ & Hs).
  apply IH in Hs. by replace (a + Z.of_nat (S (length xs))) with (a + 1 + Z.of_nat (length xs)) by lia.
Qed.

Lemma cstr_ext m m' bs : ∀ a, (∀ x, a ≤ x ≤ a + Z.of_nat (length bs) → m' !! x = m !! x) → cstr m a bs → cstr m' a bs.
Proof.
  induction bs as [|b bs IH]; intros a He; cbn in *; [intros; rewrite He; [done|lia]|].
  intros (Eb & Hb & Hs). split; [rewrite He; [done|lia]|]. split; [done|]. apply IH; [|done]. intros x Hx. apply He. lia.
Qed.

(** A prefix of a string becomes a string when the byte behind it is cleared. *)
Lemma cstr_cut m m' w rest : ∀ a, cstr m a (w ++ rest) → (∀ x, a ≤ x < a + Z.of_nat (length w) → m' !! x = m !! x) →
  m' !! (a + Z.of_nat (length w)) = Some 0 → cstr m' a w.
Proof.
  induction w as [|b w IH]; intros a Hs He Hz; cbn in *; [by rewrite Z.add_0_r in Hz|].
  destruct Hs as (Eb & Hb & Hs). split; [rewrite He; [done|lia]|]. split; [done|]. apply IH; [done|intros x Hx; apply He; lia|].
  by replace (a + 1 + Z.of_nat (length w)) with (a + Z.of_nat (S (length w))) by lia.
Qed.

Section parse.
Context `{Layout} `{VmaNames} `{Ports} `{SchedLayout} `{MonitorLayout}.

(** The constant [WHITESPACE] is in memory, apart from the line. *)
Definition blanks_ok (m : cmem) (lo hi : Z) : Prop :=
  0 < str_whitespace ∧ cstr m str_whitespace WHITESPACE ∧ (hi < str_whitespace ∨ str_whitespace + 4 < lo).

Lemma strchr_white m lo hi c : blanks_ok m lo hi → 0 ≤ c < 256 → c ≠ 0 →
  ∃ p, strchr str_whitespace (schar c) m = OK p m ∧ (p =? NULL) = negb (white c).
Proof.
  intros (Hp & Hs & _) Hc Hn. pose proof (cstr_size _ _ _ Hs) as Hsz. unfold strchr, rounds, mbind, M_bind, gets.
  cbn [length WHITESPACE] in Hsz. destruct (base.size m) as [|[|[|[|n]]]]; [lia..|]. cbn in Hs.
  destruct Hs as (E1 & _ & E2 & _ & E3 & _ & E4 & _ & E5).
  assert (∀ v, 0 < v < 128 → (schar v =? schar c) = bool_decide (c = v)) as Hv.
  { intros v Hv. unfold schar. rewrite (proj2 (Z.ltb_lt v 128)) by lia. destruct (c <? 128) eqn:E; case_bool_decide; lia. }
  unfold white, WHITESPACE. rewrite (bool_decide_ext (c ∈ _) (c = 9 ∨ c = 13 ∨ c = 10 ∨ c = 32)) by set_solver.
  assert (∀ v n a, 0 < v < 128 → m !! a = Some v → strchr_loop (S n) a (schar c) m =
    if bool_decide (c = v) then OK a m else strchr_loop n (a + 1) (schar c) m) as Hstep.
  { intros v n' a Hv' E. cbn [strchr_loop]. unfold mbind, M_bind, load, deref. rewrite E, Hv by done.
    rewrite (proj2 (Z.eqb_neq v 0)) by lia. by case_bool_decide. }
  rewrite (Hstep 9), (Hstep 13), (Hstep 10), (Hstep 32) by done.
  assert (strchr_loop (S n) (str_whitespace + 1 + 1 + 1 + 1) (schar c) m = OK NULL m) as -> by
    (cbn [strchr_loop]; unfold mbind, M_bind, load, deref; by rewrite E5).
  repeat (case_bool_decide; try lia); (eexists; split; [reflexivity|]); unfold NULL; lia.
Qed.

(** A line of input at [buf], from which bytes were taken before. *)
Record line_at (m : cmem) (buf : Z) (bs : list Z) : Prop := {
  ln_str : cstr m buf bs;
  ln_bytes : bytes_ok m;
  ln_blanks : blanks_ok m buf (buf + Z.of_nat (length bs));
}.

Lemma line_head m buf b bs : line_at m buf (b :: bs) → m !! buf = Some b ∧ 0 ≤ b < 256 ∧ b ≠ 0.
Proof. intros [(E & Hn & _) Hb _]. eauto. Qed.

Lemma line_tail m buf xs ys : line_at m buf (xs ++ ys) → line_at m (buf + Z.of_nat (length xs)) ys.
Proof.
  intros [Hs Hb (Hp & Hw & Hd)]. split; [by apply cstr_app|done|]. split; [done|]. split; [done|]. rewrite length_app in Hd. lia.
Qed.

(** Clearing a byte in front of the line. *)
Lemma line_clear m buf b bs : line_at m buf (b :: bs) → line_at (<[buf := 0]> m) (buf + 1) bs.
Proof.
  intros Hl. apply (line_tail m buf [b] bs) in Hl as Hl'. destruct Hl as [_ _ (_ & _ & Hd)]. destruct Hl' as [Hs Hb (Hp & Hw & Hd')].
  cbn [length] in *. split.
  - eapply cstr_ext; [|exact Hs]. intros x Hx. apply lookup_insert_ne. lia.
  - intros x v [[<- <-]|[_ E]]%lookup_insert_Some; [done|]. by apply (Hb x).
  - split; [done|]. split; [|done]. eapply cstr_ext; [|exact Hw]. intros x Hx. apply lookup_insert_ne. cbn [length WHITESPACE] in Hx. lia.
Qed.

Lemma gobble_spec sp : ∀ fuel m buf rest, line_at m buf (sp ++ rest) → Forall (λ b, white b = true) sp → starts_word rest →
  (length sp < fuel)%nat →
  wp (gobble fuel buf) (λ r m', r = buf + Z.of_nat (length sp) ∧ overwritten m buf (Z.of_nat (length sp)) (λ _, Some 0) m' ∧
    line_at m' r rest) m.
Proof.
  induction sp as [|b sp IH]; intros fuel m buf rest Hl Hw Hr Hf; (destruct fuel as [|fuel]; [cbn in Hf; lia|]); cbn [gobble app length] in *.
  - assert (overwritten m buf (Z.of_nat 0) (λ _, Some 0) m) as Ho by (intros x; by rewrite decide_False by lia).
    destruct rest as [|b rest].
    + wp_step. eapply wp_load; [apply (ln_str _ _ _ Hl)|]. change (0 =? 0) with true. cbv iota. wp_step. rewrite Z.add_0_r. done.
    + destruct (line_head _ _ _ _ Hl) as (E & Hb & Hn). wp_step. eapply wp_load; [exact E|]. rewrite (proj2 (Z.eqb_neq b 0)) by done.
      destruct (strchr_white _ _ _ b (ln_blanks _ _ _ Hl) Hb Hn) as (p & Ep & Ew). wp_step. eapply wp_OK; [exact Ep|].
      rewrite Ew. cbn in Hr. rewrite Hr. cbn [negb]. wp_step. rewrite Z.add_0_r. done.
  - inversion Hw as [|? ? E1 Hw']; subst. destruct (line_head _ _ _ _ Hl) as (E & Hb & Hn). wp_step. eapply wp_load; [exact E|].
    rewrite (proj2 (Z.eqb_neq b 0)) by done. destruct (strchr_white _ _ _ b (ln_blanks _ _ _ Hl) Hb Hn) as (p & Ep & Ew).
    wp_step. eapply wp_OK; [exact Ep|]. rewrite Ew, E1. cbn [negb]. wp_step. apply wp_store; [by eexists|]. change (u8 0) with 0.
    eapply wp_mono; [apply IH; [by apply line_clear in Hl|done|done|lia]|cbv beta].
    intros r m' (-> & Ho & Hl'). split; [lia|]. split; [|by replace (buf + Z.of_nat (S (length sp))) with (buf + 1 + Z.of_nat (length sp)) by lia].
    intros x. rewrite Ho. destruct (decide (x = buf)) as [->|Hx].
    + by rewrite decide_False, decide_True, lookup_insert_eq by lia.
    + repeat case_decide; try lia; [done|by rewrite lookup_insert_ne].
Qed.

Lemma scan_spec w : ∀ fuel m buf rest, line_at m buf (w ++ rest) → Forall (λ b, white b = false) w → starts_white rest →
  (length w < fuel)%nat → scan fuel buf m = OK (buf + Z.of_nat (length w)) m.
Proof.
  induction w as [|b w IH]; intros fuel m buf rest Hl Hw Hr Hf; (destruct fuel as [|fuel]; [cbn in Hf; lia|]); apply wp_run; cbn [scan app length] in *.
  - destruct rest as [|b rest].
    + wp_step. eapply wp_load; [apply (ln_str _ _ _ Hl)|]. change (0 =? 0) with true. cbv iota. wp_step. by rewrite Z.add_0_r.
    + destruct (line_head _ _ _ _ Hl) as (E & Hb & Hn). wp_step. eapply wp_load; [exact E|]. rewrite (proj2 (Z.eqb_neq b 0)) by done.
      destruct (strchr_white _ _ _ b (ln_blanks _ _ _ Hl) Hb Hn) as (p & Ep & Ew). wp_step. eapply wp_OK; [exact Ep|].
      rewrite Ew. cbn in Hr. rewrite Hr. cbn [negb]. wp_step. by rewrite Z.add_0_r.
  - inversion Hw as [|? ? E1 Hw']; subst. destruct (line_head _ _ _ _ Hl) as (E & Hb & Hn). wp_step. eapply wp_load; [exact E|].
    rewrite (proj2 (Z.eqb_neq b 0)) by done. destruct (strchr_white _ _ _ b (ln_blanks _ _ _ Hl) Hb Hn) as (p & Ep & Ew).
    wp_step. eapply wp_OK; [exact Ep|]. rewrite Ew, E1. cbn [negb].
    eapply wp_OK; [eapply IH; [by apply (line_tail m buf [b]) in Hl|done|done|lia]|]. split; [lia|done].
Qed.

(** What the parser has made of the line at [buf]: at most the line changed, a
    leading blank is cleared, and the arguments are the words. *)
Definition parsed (m : cmem) (buf : Z) (bs : list Z) (argv : list Z) (r : option (list Z)) (m' : cmem) : Prop :=
  (∀ x, ¬ buf ≤ x < buf + Z.of_nat (length bs) → m' !! x = m !! x) ∧
  (starts_white bs → m' !! buf = Some 0) ∧ bytes_ok m' ∧
  if decide (length argv + length (words bs) ≤ 15)%nat then ∃ ps, r = Some (argv ++ ps) ∧ Forall2 (cstr m') ps (words bs)
  else r = None.

Lemma gobbled_zero m buf bs sp rest m' : line_at m buf bs → bs = sp ++ rest → starts_word rest →
  overwritten m buf (Z.of_nat (length sp)) (λ _, Some 0) m' → starts_white bs → m' !! buf = Some 0.
Proof.
  intros Hl -> Hr Ho Hw. rewrite Ho. destruct sp as [|b sp]; [|by rewrite decide_True by (cbn; lia)].
  rewrite decide_False by (cbn; lia). destruct rest as [|c rest]; [apply (ln_str _ _ _ Hl)|]. cbn in *. congruence.
Qed.

Lemma parse_args_spec fuel : ∀ m buf bs argv, line_at m buf bs → (length bs < fuel)%nat → (length argv ≤ 15)%nat →
  wp (parse_args fuel buf argv) (parsed m buf bs argv) m.
Proof.
  induction fuel as [|fuel IH]; intros m buf bs argv Hl Hf Ha; [lia|]. cbn [parse_args].
  destruct (split_white bs) as (sp & rest & Ebs & Hsp & Hr). pose proof Hl as Hl0. rewrite Ebs in Hl0.
  assert (length bs = length sp + length rest)%nat as Elen by (by rewrite Ebs, length_app).
  wp_step. eapply wp_mono; [apply gobble_spec; [exact Hl0|done|done|lia]|cbv beta]. intros p m1 (-> & Ho & Hl1).
  pose proof (gobbled_zero m buf bs sp rest m1 Hl Ebs Hr Ho) as Hz. wp_step.
  assert (words bs = words rest) as Ew by (by rewrite Ebs, words_skip). destruct rest as [|b rest0].
  { eapply wp_load; [apply (ln_str _ _ _ Hl1)|]. change (0 =? 0) with true. cbv iota. wp_step. split; [|split; [done|split; [by apply (ln_bytes _ _ _ Hl1)|]]].
    - intros x Hx. rewrite Ho, decide_False; [done|]. cbn in Elen. lia.
    - rewrite Ew. cbn. rewrite Nat.add_0_r, decide_True by done. exists []. by rewrite app_nil_r. }
  destruct (line_head _ _ _ _ Hl1) as (E & Hb & Hn). eapply wp_load; [exact E|]. rewrite (proj2 (Z.eqb_neq b 0)) by done.
  destruct (split_word (b :: rest0)) as (w & rest & Er & Hw & Hr2). rewrite Er in *.
  assert (w ≠ []) as Hwne by (intros ->; cbn in *; subst rest; cbn in Hr, Hr2; congruence).
  assert (words bs = w :: words rest) as Ew2 by (rewrite Ew; by apply words_cons).
  set (p := buf + Z.of_nat (length sp)) in *. rewrite length_app in Elen. change (MAXARGS - 1) with 15.
  destruct (Z.of_nat (length argv) =? 15) eqn:E15.
  { wp_step. split; [|split; [done|split; [by apply (ln_bytes _ _ _ Hl1)|]]]. { intros x Hx. rewrite Ho, decide_False; [done|]. lia. }
    rewrite Ew2, decide_False; [done|]. cbn. lia. }
  assert (0 < length w)%nat by (destruct w; [done|cbn; lia]). wp_step.
  eapply wp_OK; [eapply scan_spec; [exact Hl1|done|done|lia]|].
  eapply wp_mono; [apply IH; [exact (line_tail _ _ _ _ Hl1)|lia|rewrite length_app; cbn; lia]|cbv beta].
  intros r m2 (Hout & Hz2 & Hok2 & Hres). split; [|split; [|split; [done|]]].
  - intros x Hx. rewrite Hout, Ho, decide_False; [done|subst p; lia|subst p; lia].
  - intros Hb'. rewrite Hout; [auto|subst p; lia].
  - rewrite Ew2. cbn [length]. rewrite length_app in Hres. cbn [length] in Hres.
    destruct (decide (length argv + 1 + length (words rest) ≤ 15)%nat); [rewrite decide_True by lia|by rewrite decide_False by lia].
    destruct Hres as (ps & -> & Hps). exists (p :: ps). split; [by rewrite <-app_assoc|]. constructor; [|done].
    eapply cstr_cut; [apply (ln_str _ _ _ Hl1)|intros x Hx; apply Hout; lia|auto].
Qed.

(** ** Running a command *)

(** The names of the commands, in the order of [commands]. *)
Definition name_of (c : command) : list Z :=
  match c with
  | mon_help_cmd => [104; 101; 108; 112]
  | mon_kerninfo_cmd => [107; 101; 114; 110; 105; 110; 102; 111]
  | mon_backtrace_cmd => [98; 97; 99; 107; 116; 114; 97; 99; 101]
  | mon_buddyinfo_cmd => [98; 117; 100; 100; 121; 105; 110; 102; 111]
  | mon_pageinfo_cmd => [112; 97; 103; 101; 105; 110; 102; 111]
  | mon_ptdump_cmd => [112; 116; 100; 117; 109; 112]
  | mon_vmainfo_cmd => [118; 109; 97; 105; 110; 102; 111]
  end.
Definition command_of (w : list Z) : option command := head (filter (λ c, w = name_of c) commands).

Definition names_ok (m : cmem) (lo hi : Z) : Prop := ∀ c,
  cstr m (command_name c) (name_of c) ∧ (hi ≤ command_name c ∨ command_name c + Z.of_nat (length (name_of c)) < lo).

Lemma find_command_spec m l p w : bytes_ok m → cstr m p w → (∀ c, cstr m (command_name c) (name_of c)) →
  find_command l p m = OK (head (filter (λ c, w = name_of c) l)) m.
Proof.
  intros Hok Hw Hn. induction l as [|c l IH]; [done|]. cbn [find_command]. unfold mbind, M_bind.
  destruct (strcmp_correct m p (command_name c) w (name_of c) Hok Hw (Hn c)) as (r & -> & _ & Hr).
  rewrite filter_cons. destruct (r =? 0) eqn:E.
  - apply Z.eqb_eq, Hr in E. by rewrite decide_True.
  - rewrite decide_False; [done|]. intros Ew%Hr. by rewrite Ew in E.
Qed.

(** The state with another memory. *)
Definition with_mem (m : cmem) (s : monitor_state) : monitor_state := MonitorState _ m (mon_sched s) (mon_out s).
Definition reported (r : report) (s : monitor_state) : monitor_state := MonitorState _ (mon_mem s) (mon_sched s) (mon_out s ++ [r]).

(** What [runcmd] does with a line of the words [ws], once the memory is [m']:
    more than 15 words are refused, an empty line is ignored, and otherwise the
    command that the first word names runs with the words as its arguments. *)
Definition command_run (fuel : nat) (ws : list (list Z)) (m' : cmem) (s : monitor_state) (o : outcome monitor_state Z) : Prop :=
  if decide (15 < length ws)%nat then o = OK 0 (reported TooManyArguments (with_mem m' s))
  else ∃ argv, Forall2 (cstr m') argv ws ∧
    match ws, argv with
    | w :: _, argv0 :: _ =>
        match command_of w with
        | Some c => o = func fuel c argv (with_mem m' s)
        | None => o = OK 0 (reported (UnknownCommand argv0) (with_mem m' s))
        end
    | _, _ => o = OK 0 (with_mem m' s)
    end.

(** C33 (equivalence).  [runcmd] cuts the line into exactly the words that the
    reference [words] finds, each a string of its own in the buffer, changes
    nothing outside the line, and runs the command that the first word names
    with all words as arguments. *)
Theorem runcmd_correct fuel s buf bs : line_at (mon_mem s) buf bs → names_ok (mon_mem s) buf (buf + Z.of_nat (length bs)) →
  (length bs < fuel)%nat →
  ∃ m', (∀ x, ¬ buf ≤ x < buf + Z.of_nat (length bs) → m' !! x = mon_mem s !! x) ∧
    command_run fuel (words bs) m' s (runcmd fuel buf s).
Proof.
  intros Hl Hn Hf. destruct (wp_elim _ _ _ (parse_args_spec fuel _ _ _ [] Hl Hf ltac:(cbn; lia))) as (r & m' & E & Hout & _ & Hok & Hr).
  exists m'. split; [done|]. unfold command_run, runcmd, mbind, M_bind, mon_bytes, zoom. rewrite E. fold (with_mem m' s).
  cbn [length Nat.add app] in Hr. destruct (decide (15 < _)%nat).
  - rewrite decide_False in Hr by lia. by subst r.
  - rewrite decide_True in Hr by lia. destruct Hr as (argv & -> & Hargv). exists argv. split; [done|].
    destruct (words bs) as [|w ws]; inversion Hargv as [|argv0 ? argv' ? Hw]; subst; [done|].
    cbn [mon_mem with_mem]. rewrite (find_command_spec m' commands argv0 w Hok Hw); [|].
    + fold (command_of w). destruct (command_of w); done.
    + intros c. destruct (Hn c) as [Hc Hd]. eapply cstr_ext; [|exact Hc]. intros x Hx. apply Hout. lia.
Qed.
End parse.

(** ** A line with two words *)

#[local] Instance mon_demo_layout : Layout := {| buddy_free_list := 0x100; zero_list := 0x200; swap_pages := 0x300; buddy_c := 0x400 |}.
#[local] Instance mon_demo_names : VmaNames := {|
  str_rmap := 1; str_user := 2; file_insert := 3; file_populate := 4; file_pfault := 5; file_rmap := 6 |}.
#[local] Instance mon_demo_ports : Ports := {| dev := unit; in_port _ d := (0, d); out_port _ _ d := d; open_bus := 0xFFFF |}.
#[local] Instance mon_demo_sched : SchedLayout := {|
  runq := 0x500; str_text := 7; str_data := 8; str_rodata := 9; str_stack := 10; str_runq_lock := 11;
  str_debug_lock := 12; file_sched := 13; file_task_util := 14; file_fork := 15 |}.
#[local] Instance mon_demo_strings : MonitorLayout := {|
  line_addr := 0x1000; str_whitespace := 0x1009; str_idx := 0x1048; str_pa := 0x104C; entry_rbp := 0;
  command_name c := match c with
    | mon_help_cmd => 0x100E | mon_kerninfo_cmd => 0x1013 | mon_backtrace_cmd => 0x101C | mon_buddyinfo_cmd => 0x1026
    | mon_pageinfo_cmd => 0x1030 | mon_ptdump_cmd => 0x1039 | mon_vmainfo_cmd => 0x1040 end |}.

(** " help me" *)
Definition demo_line : list Z := [32; 104; 101; 108; 112; 32; 109; 101].
Definition demo_mon_bytes : list Z :=
  demo_line ++ [0] ++ WHITESPACE ++ [0] ++ concat ((λ c, name_of c ++ [0]) <$> commands).
Definition demo_mon_mem : cmem := list_to_map (zip (seqZ 0x1000 (Z.of_nat (length demo_mon_bytes))) demo_mon_bytes).
Definition demo_monitor : monitor_state :=
  MonitorState _ demo_mon_mem
    (Sched _ (Kernel (Mem ∅ ∅ 0 0 (SpinLock 0 0 0 0 0) ∅ 0) (Rbs ∅ ∅) ∅ ∅ ∅ ∅ ∅ ∅ ∅ (SpinLock 0 0 0 0 0) 0 ∅ 0 0)
      (Console _ tt ∅ true 0x3D4 0xB8000 0 0 [] 0 0 []) ∅ 0 0 1 (SpinLock 0 0 0 0 0) (SpinLock 0 0 0 0 0) 0 0) [].

Lemma demo_line_at : line_at demo_mon_mem 0x1000 demo_line.
Proof.
  split.
  - vm_compute. repeat split; discriminate.
  - apply demo_bytes. apply (bool_decide_unpack _). by vm_compute.
  - split; [done|]. split; [vm_compute; repeat split; discriminate|]. left. done.
Qed.

Lemma demo_names_ok : names_ok demo_mon_mem 0x1000 0x1008.
Proof. intros c. split; [destruct c; vm_compute; repeat split; discriminate|]. left. by destruct c. Qed.

Lemma runcmd_correct_witness : ∃ s', runcmd 20 0x1000 demo_monitor = OK 0 s' ∧ mon_out s' = Help <$> commands.
Proof.
  pose proof (runcmd_correct 20 demo_monitor 0x1000 demo_line demo_line_at demo_names_ok (proj1 (Nat.ltb_lt 8 20) eq_refl)) as Hrun.
  destruct Hrun as (m' & _ & Hr).
  unfold command_run in Hr. change (words demo_line) with [[104; 101; 108; 112]; [109; 101]] in Hr. rewrite decide_False in Hr by (cbn; lia).
  destruct Hr as (argv & Hargv & Hr). destruct argv as [|argv0 argv]; [by inversion Hargv|].
  change (command_of [104; 101; 108; 112]) with (Some mon_help_cmd) in Hr. rewrite Hr.
  exists (MonitorState _ m' (mon_sched demo_monitor) (Help <$> commands)). split; reflexivity.
Defined.
