(* ===== verification/MemInitExt.v ===== *)
(** * Memory above the boot mapping (kernel/mem/init.c, kernel/mem/buddy.c)

    [page_init_ext] gives the frames above [BOOT_MAP_LIM] to the buddy
    allocator.  Their [struct page_info]s lie behind the existing ones;
    [buddy_map_chunk] maps memory for 512 of them at a time.  [mem_init_mp]
    maps the kernel stacks of the other CPUs. *)

From S2P Require Import Prelude LinkedList Paging Spinlock Buddy MemInit RbTree Kernel PageWalk PageTable Slab Vma Console Task Devices Ata Ahci Acpi.

Local Open Scope Z_scope.

Section init_ext.
Context `{Layout} `{VmaNames} `{KernelEnd} `{CpuLayout}.

Definition kernel_flags : Z := Z.lor PAGE_PRESENT (Z.lor PAGE_WRITE PAGE_NO_EXEC).

(** ** [buddy_map_chunk] *)

Definition nblocks : Z := Z.shiftl 1 (12 + BUDDY_MAX_ORDER - 1) / PAGE_SIZE.
Definition nalloc : Z := ROUNDUP (nblocks * sizeof_page_info) PAGE_SIZE / PAGE_SIZE.

(** First loop: memory for the structs, from page [i] of the chunk on. *)
Fixpoint map_infos (n : nat) (pml4 base i : Z) : M kernel Z :=
  match n with
  | O => mret 0
  | S n =>
      page ← on_km (page_alloc ALLOC_ZERO);
      if page =? NULL then mret (-1)
      else
        r ← page_insert file_insert pml4 page (base + i * PAGE_SIZE) kernel_flags;
        if r <? 0 then mret (-1) else map_infos n pml4 base (i + 1)
  end.

(** The zeroed memory of a struct, seen as a struct. *)
Definition zeroed_info (p : Z) : M mem unit :=
  modify (λ m, set_infos (<[p := PageInfo 0 0 0 0 NULL]> (infos m)) m);;
  on_heap (modify (insert p (Node NULL NULL)));;
  on_heap (modify (insert (p + off_swap_node) (Node NULL NULL)));;
  on_heap (modify (insert (p + off_pp_zero_node) (Node NULL NULL))).

(** Second loop, over the [n] structs from [page] on. *)
Fixpoint init_infos (n : nat) (page : Z) : M mem unit :=
  match n with
  | O => mret tt
  | S n =>
      zeroed_info page;;
      on_heap (list_init page);;
      on_heap (list_init (page + off_swap_node));;
      init_infos n (page + sizeof_page_info)
  end.

Definition buddy_map_chunk (pml4 index : Z) : M kernel Z :=
  let index := ROUNDDOWN index nblocks in
  base ← on_km (page_at index);
  r ← map_infos (Z.to_nat nalloc) pml4 base 0;
  if r <? 0 then mret (-1)
  else
    on_km (init_infos (Z.to_nat nblocks) base);;
    on_km (modify (set_npages (index + nblocks)));;
    mret 0.

(** ** [page_init_ext]: the loop over the pages of a region makes one step per
    page unless [j] wraps around *)

Definition add_page (j : Z) : M kernel unit :=
  let index := PAGE_INDEX j in
  page ← on_km (page_at index);
  n ← gets (λ k, npages (km k));
  (if n <=? index then
     pml4 ← gets kernel_pml4;
     r ← buddy_map_chunk pml4 index;
     if r <? 0 then halt Panic
     else boot_map_region pml4 (u64 (KERNEL_VMA + j)) (512 * PAGE_SIZE) j kernel_flags
   else mret tt);;
  on_km (page_free page).

Fixpoint add_region (n : nat) (j p_end : Z) : M kernel unit :=
  match n with
  | O => if j <? p_end then halt NoFuel else mret tt
  | S n =>
      if j <? p_end then
        (if j <? BOOT_MAP_LIM then mret tt else add_page j);;
        add_region n (u64 (j + PAGE_SIZE)) p_end
      else mret tt
  end.

Fixpoint add_regions (es : list mmap_entry) : M kernel unit :=
  match es with
  | [] => mret tt
  | e :: es =>
      (if type e =? MMAP_FREE then
         let p_start := addr e in
         let p_end := u64 (p_start + len e) in
         add_region (Z.to_nat ((p_end - p_start) `div` PAGE_SIZE + 1)) p_start p_end
       else mret tt);;
      add_regions es
  end.

(** The state: the kernel and the static variable of [boot_alloc], whose
    result is not used. *)
Definition page_init_ext (b : boot_info) : M (kernel * Z) unit :=
  _ ← zoom fst (λ k s, (k, s.2)) (on_km (KADDR (mmap_addr b)));
  zoom (λ s, Boot (km s.1) s.2) (λ x s, (set_km (bmem x) s.1, next_free x)) (a ← boot_alloc 0; _ ← on_mem (PADDR a); mret tt);;
  zoom fst (λ k s, (k, s.2)) (add_regions (mmap b)).

(** ** [mem_init_mp]; the second part of the state is [cpu_tss.rsp[0]] of each
    CPU, by the address of its [struct cpuinfo] *)

Definition init_stack (i cpu : Z) : M (kernel * gmap Z Z) unit :=
  let kernel_va := KSTACK_TOP - i * (KSTACK_SIZE + KSTACK_GAP) in
  zoom fst (λ k s, (k, s.2)) (
    pml4 ← gets kernel_pml4;
    populate_region file_populate pml4 (kernel_va - KSTACK_SIZE) KSTACK_SIZE kernel_flags);;
  _ ← deref (λ s, s.2 !! cpu);
  modify (λ s, (s.1, <[cpu := kernel_va]> s.2)).

Fixpoint init_stacks (n : nat) (i cpu boot_cpu : Z) : M (kernel * gmap Z Z) unit :=
  match n with
  | O => mret tt
  | S n =>
      let cpu := cpu + i * sizeof_cpuinfo in
      (if cpu =? boot_cpu then mret tt else init_stack i cpu);;
      init_stacks n (i + 1) cpu boot_cpu
  end.
Definition mem_init_mp (ncpus boot_cpu : Z) : M (kernel * gmap Z Z) unit := init_stacks (Z.to_nat (ncpus - 1)) 1 cpus boot_cpu.

Lemma zoom_fst_snd {K T A} (c : M K A) (s s' : K * T) a : zoom fst (λ k s, (k, s.2)) c s = OK a s' → s'.2 = s.2.
Proof. unfold zoom. destruct (c s.1); [|done]. by intros [= <- <-]. Qed.

Lemma stack_writes {K} (c : M K unit) cpu v (s s' : K * gmap Z Z) x :
  (zoom fst (λ k s, (k, s.2)) c;; _ ← deref (λ s, s.2 !! cpu); modify (λ s, (s.1, <[cpu := v]> s.2))) s = OK tt s' →
  x ≠ cpu → s'.2 !! x = s.2 !! x.
Proof.
  intros E Hx. unfold mbind, M_bind, deref, modify in E. destruct (zoom fst _ c s) as [[] s1|] eqn:Ez; [|done].
  apply zoom_fst_snd in Ez. destruct (s1.2 !! cpu); [|done]. injection E as <-. cbn [snd]. rewrite lookup_insert_ne by done. by rewrite Ez.
Qed.

Lemma init_stack_writes i cpu s s' x : init_stack i cpu s = OK tt s' → x ≠ cpu → s'.2 !! x = s.2 !! x.
Proof. apply stack_writes. Qed.

(** The pointer advances by [i] in round [i], so the stacks go to the CPUs
    number 1, 3, 6, ...: CPU number 2 never gets one. *)
Lemma init_stacks_index n : ∀ i q b k t k' t', 0 < sizeof_cpuinfo → 1 ≤ i → 2 * q = (i - 1) * i →
  init_stacks n i (cpus + q * sizeof_cpuinfo) b (k, t) = OK tt (k', t') →
  t' !! (cpus + 2 * sizeof_cpuinfo) = t !! (cpus + 2 * sizeof_cpuinfo).
Proof.
  induction n as [|n IH]; intros i q b k t k' t' Hsz Hi Hq E; cbn [init_stacks] in E; [unfold mret, M_ret in E; by simplify_eq|].
  replace (cpus + q * sizeof_cpuinfo + i * sizeof_cpuinfo) with (cpus + (q + i) * sizeof_cpuinfo) in E by lia.
  assert (q + i ≠ 2) as Hne by nia. specialize (IH (i + 1) (q + i)). unfold mbind, M_bind in E.
  destruct (cpus + (q + i) * sizeof_cpuinfo =? b).
  - unfold mret, M_ret in E. eapply IH; [done|lia|lia|exact E].
  - destruct (init_stack _ _ (k, t)) as [[] [k1 t1]|] eqn:Es; [|done].
    apply (init_stack_writes _ _ _ _ (cpus + 2 * sizeof_cpuinfo)) in Es; [|nia]. cbn [snd] in Es. rewrite <-Es. eapply IH; [done|lia|lia|exact E].
Qed.

Lemma mem_init_mp_skips_cpu n b k t k' t' : 0 < sizeof_cpuinfo → mem_init_mp n b (k, t) = OK tt (k', t') →
  t' !! (cpus + 2 * sizeof_cpuinfo) = t !! (cpus + 2 * sizeof_cpuinfo).
Proof.
  intros Hsz E. eapply (init_stacks_index _ 1 0); [done|lia|lia|]. by rewrite Z.mul_0_l, Z.add_0_r.
Qed.
End init_ext.
