(* ===== verification/SyscallEntry.v ===== *)
(** * Entering and leaving the kernel (kernel/sched/stubs.S, lib/stubs.S)

    The assembly around a system call, instruction by instruction: [do_syscall]
    of the user library, the entry stub of interrupt 128, which builds a
    [struct int_frame] on the kernel stack, and [iret64], which goes back to
    user mode.  The theorem follows a system call through all of it and through
    [int_handler] in between. *)

From S2P Require Import Prelude LinkedList Paging Spinlock Buddy RbTree Kernel PageWalk PageTable PageTableProofs Slab SlabProofs Vma Console Task Sched SchedProofs SchedSpec.

Local Open Scope Z_scope.

(** ** The processor *)

Inductive reg := RAX | RCX | RDX | RBX | RBP | RSI | RDI | R8 | R9 | R10 | R11 | R12 | R13 | R14 | R15
  | RSP | RIP | CS | SS | RFLAGS | DS | ES.

#[global] Instance reg_eq_dec : EqDecision reg.
Proof. solve_decision. Defined.

(** The registers, and memory as words of 64 bits. *)
Record machine := Machine { rg : reg → Z; wd : Z → Z }.

Definition upd_reg (r : reg) (v : Z) (m : machine) : machine := Machine (λ x, if decide (x = r) then v else rg m x) (wd m).
Definition upd_word (a v : Z) (m : machine) : machine := Machine (rg m) (λ x, if x =? a then v else wd m x).

Definition push (v : Z) (m : machine) : machine := upd_word (rg m RSP - 8) v (upd_reg RSP (rg m RSP - 8) m).
Definition pop (r : reg) (m : machine) : machine := upd_reg r (wd m (rg m RSP)) (upd_reg RSP (rg m RSP + 8) m).

Inductive instr :=
  | PUSH (r : reg) | PUSHI (v : Z) | POP (r : reg)
  | MOV (src dst : reg)
  | MOVSEG (src dst : reg)          (** a segment register takes 16 bits *)
  | MOVW (v : Z) (dst : reg)        (** the low 16 bits of [dst] *)
  | LOAD (off : Z) (base dst : reg)
  | XOR (r : reg)                   (** with itself *)
  | ADDI (v : Z) (r : reg)
  | RETQ | IRETQ.

Definition exec (i : instr) (m : machine) : machine :=
  match i with
  | PUSH r => push (rg m r) m
  | PUSHI v => push v m
  | POP r => pop r m
  | MOV src dst => upd_reg dst (rg m src) m
  | MOVSEG src dst => upd_reg dst (u16 (rg m src)) m
  | MOVW v dst => upd_reg dst (rg m dst - u16 (rg m dst) + v) m
  | LOAD off base dst => upd_reg dst (wd m (rg m base + off)) m
  | XOR r => upd_reg r 0 m
  | ADDI v r => upd_reg r (u64 (rg m r + v)) m
  | RETQ => pop RIP m
  | IRETQ =>
      let a := rg m RSP in
      upd_reg SS (wd m (a + 32)) (upd_reg RSP (wd m (a + 24)) (upd_reg RFLAGS (wd m (a + 16))
        (upd_reg CS (wd m (a + 8)) (upd_reg RIP (wd m a) m))))
  end.

Definition run_code (code : list instr) (m : machine) : machine := foldl (λ m i, exec i m) m code.

(** What the processor does at an interrupt in user mode: it takes the stack
    of the task state segment and saves where it was. *)
Definition interrupt (rsp0 : Z) (kstack : Z → Z) (m : machine) : machine :=
  let u := rg m in
  push (u RIP) (push (u CS) (push (u RFLAGS) (push (u RSP) (push (u SS) (Machine (rg (upd_reg RSP rsp0 m)) kstack))))).

(** ** kernel/sched/stubs.S *)

Definition pushrev : list instr :=
  PUSH <$> [RAX; RCX; RDX; RBX; RBP; RSI; RDI; R8; R9; R10; R11; R12; R13; R14; R15].
Definition popaq : list instr :=
  POP <$> [R15; R14; R13; R12; R11; R10; R9; R8; RDI; RSI; RBP; RBX; RDX; RCX; RAX].

Definition ISR_NOERRCODE (int_no : Z) : list instr := [PUSHI 0; PUSHI int_no].
Definition ISR_ERRCODE (int_no : Z) : list instr := [PUSHI int_no].

Definition isr_common_stub : list instr :=
  pushrev ++ [MOV DS RAX; PUSH RAX; MOVW GDT_KDATA R15; MOVSEG R15 DS; MOVSEG R15 ES; MOV RSP RDI].

Definition iret64 : list instr :=
  [MOV RDI RSP; XOR RAX; POP RAX; MOVSEG RAX DS; MOVSEG RAX ES] ++ popaq ++ [ADDI 16 RSP; IRETQ].

(** The [struct int_frame] at [a]. *)
Definition frame_at (w : Z → Z) (a : Z) : int_frame :=
  IntFrame (w a) (w (a + 8)) (w (a + 16)) (w (a + 24)) (w (a + 32)) (w (a + 40)) (w (a + 48)) (w (a + 56)) (w (a + 64))
    (w (a + 72)) (w (a + 80)) (w (a + 88)) (w (a + 96)) (w (a + 104)) (w (a + 112)) (w (a + 120))
    (w (a + 128)) (w (a + 136)) (w (a + 144)) (w (a + 152)) (w (a + 160)) (w (a + 168)) (w (a + 176)).

(** ** lib/stubs.S: [do_syscall] around its [int] instruction *)

Definition do_syscall_enter : list instr := [PUSH RBP; LOAD 16 RSP RBP].
Definition do_syscall_leave : list instr := [POP RBP; RETQ].

(** ** The frame an interrupt builds *)

(** The registers of [m] as an interrupt frame. *)
Definition saved (m : machine) (no err : Z) : int_frame :=
  let u := rg m in
  IntFrame (u DS) (u R15) (u R14) (u R13) (u R12) (u R11) (u R10) (u R9) (u R8) (u RDI) (u RSI) (u RBP) (u RBX) (u RDX) (u RCX)
    (u RAX) no err (u RIP) (u CS) (u RFLAGS) (u RSP) (u SS).

Definition enter (rsp0 : Z) (kstack : Z → Z) (int_no : Z) (m : machine) : machine :=
  run_code (ISR_NOERRCODE int_no ++ isr_common_stub) (interrupt rsp0 kstack m).

Lemma wd_push v m a : wd (push v m) a = if a =? rg m RSP - 8 then v else wd m a.
Proof. done. Qed.
Lemma rg_push v m r : rg (push v m) r = if decide (r = RSP) then rg m RSP - 8 else rg m r.
Proof. done. Qed.

(** Pushing a list of words: they are found in memory in reverse. *)
Definition pushes (vs : list Z) (m : machine) : machine := foldl (λ m v, push v m) m vs.

Lemma rg_pushes vs : ∀ m r, rg (pushes vs m) r = if decide (r = RSP) then rg m RSP - 8 * Z.of_nat (length vs) else rg m r.
Proof.
  induction vs as [|v vs IH]; intros m r; simpl; [case_decide; subst; lia|].
  rewrite IH, !rg_push. case_decide; [|done]. rewrite decide_True by done. lia.
Qed.

Lemma wd_pushes_above vs : ∀ m a, rg m RSP ≤ a → wd (pushes vs m) a = wd m a.
Proof.
  induction vs as [|v vs IH]; intros m a Ha; simpl; [done|].
  rewrite IH by (rewrite rg_push, decide_True by done; lia). rewrite wd_push, (proj2 (Z.eqb_neq _ _)) by lia. done.
Qed.

Lemma wd_pushes vs : ∀ m i v, vs !! i = Some v → wd (pushes vs m) (rg m RSP - 8 * (Z.of_nat i + 1)) = v.
Proof.
  induction vs as [|v vs IH]; intros m i x Hi; [done|]. destruct i as [|i]; simpl in *.
  - injection Hi as ->. rewrite wd_pushes_above by (rewrite rg_push, decide_True by done; lia).
    rewrite wd_push, (proj2 (Z.eqb_eq _ _)) by lia. done.
  - specialize (IH (push v m) i x Hi). rewrite rg_push, decide_True in IH by done. rewrite <-IH. f_equal. lia.
Qed.

Lemma run_code_app c c' m : run_code (c ++ c') m = run_code c' (run_code c m).
Proof. apply foldl_app. Qed.
Lemma pushes_app vs ws m : pushes (vs ++ ws) m = pushes ws (pushes vs m).
Proof. apply foldl_app. Qed.

Lemma fmap_regs m m' (rs : list reg) : (∀ r, r ≠ RSP → rg m r = rg m' r) → RSP ∉ rs → rg m <$> rs = rg m' <$> rs.
Proof. intros Hr Hrs. apply list_fmap_ext. intros i x Hx. apply Hr. intros ->. by apply Hrs, (list_elem_of_lookup_2 _ i). Qed.
Lemma run_pushes rs : ∀ m, RSP ∉ rs → run_code (PUSH <$> rs) m = pushes (rg m <$> rs) m.
Proof.
  induction rs as [|r rs IH]; intros m Hr; [done|]. apply not_elem_of_cons in Hr as [Hr Hrs].
  transitivity (run_code (PUSH <$> rs) (push (rg m r) m)); [done|]. rewrite IH by done.
  transitivity (pushes (rg m <$> rs) (push (rg m r) m)); [|done]. f_equal. apply fmap_regs; [|done].
  intros x Hx. by rewrite rg_push, decide_False.
Qed.

(** The words on the kernel stack, the first one pushed first. *)
Definition general : list reg := [RAX; RCX; RDX; RBX; RBP; RSI; RDI; R8; R9; R10; R11; R12; R13; R14; R15].
Lemma no_rsp : RSP ∉ general.
Proof. apply (bool_decide_unpack _). by vm_compute. Qed.
Definition entry_words (m : machine) (no : Z) : list Z :=
  (rg m <$> [SS; RSP; RFLAGS; CS; RIP]) ++ [0; no] ++ (rg m <$> general) ++ [rg m DS].
Definition on_kstack (rsp0 : Z) (kstack : Z → Z) (m : machine) : machine := Machine (rg (upd_reg RSP rsp0 m)) kstack.

Definition stub_tail : list instr := [MOV DS RAX; PUSH RAX; MOVW GDT_KDATA R15; MOVSEG R15 DS; MOVSEG R15 ES; MOV RSP RDI].

Lemma stub_tail_spec m : wd (run_code stub_tail m) = wd (push (rg m DS) m) ∧ rg (run_code stub_tail m) RDI = rg (push (rg m DS) m) RSP.
Proof. done. Qed.

Lemma interrupt_pushes rsp0 ks m : interrupt rsp0 ks m = pushes (rg m <$> [SS; RSP; RFLAGS; CS; RIP]) (on_kstack rsp0 ks m).
Proof. reflexivity. Qed.
Lemma isr_pushes no m : run_code (ISR_NOERRCODE no) m = pushes [0; no] m.
Proof. reflexivity. Qed.

Lemma pushes_regs vs rsp0 ks m r : r ≠ RSP → rg (pushes vs (on_kstack rsp0 ks m)) r = rg m r.
Proof. intros Hr. rewrite rg_pushes, decide_False by done. unfold on_kstack, upd_reg. simpl. by rewrite decide_False. Qed.

Lemma enter_tail rsp0 ks no m : ∃ m1, enter rsp0 ks no m = run_code stub_tail m1 ∧ rg m1 DS = rg m DS ∧
  push (rg m DS) m1 = pushes (entry_words m no) (on_kstack rsp0 ks m).
Proof.
  exists (pushes ((rg m <$> [SS; RSP; RFLAGS; CS; RIP]) ++ [0; no] ++ (rg m <$> general)) (on_kstack rsp0 ks m)). split_and!.
  - unfold enter. rewrite run_code_app, isr_pushes, interrupt_pushes, <-pushes_app. unfold isr_common_stub, pushrev.
    fold general stub_tail. rewrite run_code_app, run_pushes by exact no_rsp.
    rewrite (fmap_regs _ m general (pushes_regs _ rsp0 ks m) no_rsp), <-pushes_app, <-app_assoc. reflexivity.
  - by apply pushes_regs.
  - unfold entry_words. rewrite !pushes_app. reflexivity.
Qed.

Lemma enter_pushes rsp0 ks no m : ∃ m', m' = pushes (entry_words m no) (on_kstack rsp0 ks m) ∧
  wd (enter rsp0 ks no m) = wd m' ∧ rg (enter rsp0 ks no m) RDI = rg m' RSP.
Proof.
  destruct (enter_tail rsp0 ks no m) as (m1 & -> & Ed & <-). exists (push (rg m DS) m1). rewrite <-Ed. split; [done|apply stub_tail_spec].
Qed.

Lemma enter_rdi rsp0 ks no m : rg (enter rsp0 ks no m) RDI = rsp0 - 184.
Proof.
  destruct (enter_pushes rsp0 ks no m) as (m' & -> & _ & ->). rewrite rg_pushes, decide_True by done. done.
Qed.

(** The entry stub passes a frame with the registers of the interrupted code. *)
Lemma enter_frame rsp0 ks no m : frame_at (wd (enter rsp0 ks no m)) (rg (enter rsp0 ks no m) RDI) = saved m no 0.
Proof.
  rewrite enter_rdi. destruct (enter_pushes rsp0 ks no m) as (m' & -> & -> & _). 
  pose proof (wd_pushes (entry_words m no) (on_kstack rsp0 ks m)) as Hw.
  change (rg (on_kstack rsp0 ks m) RSP) with rsp0 in Hw. revert Hw. generalize (wd (pushes (entry_words m no) (on_kstack rsp0 ks m))).
  intros w Hw.
  assert (∀ i x, entry_words m no !! (22 - i)%nat = Some x → (i ≤ 22)%nat → w (rsp0 - 184 + 8 * Z.of_nat i) = x) as Hj.
  { intros i x Hx Hi. rewrite <-(Hw _ _ Hx). f_equal. lia. }
  unfold frame_at, saved. f_equal;
    [rewrite <-(Z.add_0_r (rsp0 - 184)); apply (Hj 0%nat)|apply (Hj 1%nat)|apply (Hj 2%nat)|apply (Hj 3%nat)|apply (Hj 4%nat)
    |apply (Hj 5%nat)|apply (Hj 6%nat)|apply (Hj 7%nat)|apply (Hj 8%nat)|apply (Hj 9%nat)|apply (Hj 10%nat)|apply (Hj 11%nat)
    |apply (Hj 12%nat)|apply (Hj 13%nat)|apply (Hj 14%nat)|apply (Hj 15%nat)|apply (Hj 16%nat)|apply (Hj 17%nat)
    |apply (Hj 18%nat)|apply (Hj 19%nat)|apply (Hj 20%nat)|apply (Hj 21%nat)|apply (Hj 22%nat)]; (done || lia).
Qed.

(** ** Going back *)

Lemma rg_pop r m x : rg (pop r m) x =
  if decide (x = r) then wd m (rg m RSP) else if decide (x = RSP) then rg m RSP + 8 else rg m x.
Proof. done. Qed.

Lemma run_pops rs : ∀ m, NoDup rs → RSP ∉ rs → let m' := run_code (POP <$> rs) m in
  wd m' = wd m ∧ rg m' RSP = rg m RSP + 8 * Z.of_nat (length rs) ∧
  (∀ i r, rs !! i = Some r → rg m' r = wd m (rg m RSP + 8 * Z.of_nat i)) ∧
  ∀ r, r ∉ rs → r ≠ RSP → rg m' r = rg m r.
Proof.
  induction rs as [|r rs IH]; intros m Hd Hr; cbv zeta; [cbn; split_and!; [done|lia|done|done]|].
  apply NoDup_cons in Hd as [Hn Hd]. apply not_elem_of_cons in Hr as [Hr Hrs].
  destruct (IH (pop r m) Hd Hrs) as (Ew & Es & Ei & Eo).
  change (run_code (POP <$> r :: rs) m) with (run_code (POP <$> rs) (pop r m)).
  assert (rg (pop r m) RSP = rg m RSP + 8) as Ep by (by rewrite rg_pop, decide_False, decide_True).
  rewrite Ep in Es, Ei. change (wd (pop r m)) with (wd m) in *.
  split_and!; [done|rewrite Es; simpl; lia| |].
  - intros [|i] x Hx; simpl in Hx.
    + injection Hx as <-. rewrite Eo by done. rewrite rg_pop, decide_True by done. f_equal. lia.
    + rewrite (Ei _ _ Hx). f_equal. lia.
  - intros x Hx Hxs. apply not_elem_of_cons in Hx as [Hx Hx']. rewrite Eo, rg_pop, !decide_False by done. done.
Qed.

Definition popped : list reg := [R15; R14; R13; R12; R11; R10; R9; R8; RDI; RSI; RBP; RBX; RDX; RCX; RAX].
Lemma popped_ok : NoDup popped ∧ RSP ∉ popped ∧ DS ∉ popped ∧ ES ∉ popped.
Proof. apply (bool_decide_unpack _). by vm_compute. Qed.

Lemma popped_low r : r ∈ popped → r ∉ [DS; RIP; CS; RFLAGS; RSP; SS].
Proof. unfold popped. set_solver. Qed.

Definition iret_head : list instr := [MOV RDI RSP; XOR RAX; POP RAX; MOVSEG RAX DS; MOVSEG RAX ES].

Lemma iret_head_spec m : let m' := run_code iret_head m in
  wd m' = wd m ∧ rg m' RSP = rg m RDI + 8 ∧ rg m' DS = u16 (wd m (rg m RDI)) ∧ rg m' ES = u16 (wd m (rg m RDI)).
Proof. done. Qed.

Lemma iret_tail_spec m : let m' := run_code [ADDI 16 RSP; IRETQ] m in let a := u64 (rg m RSP + 16) in
  wd m' = wd m ∧ rg m' RIP = wd m a ∧ rg m' CS = wd m (a + 8) ∧ rg m' RFLAGS = wd m (a + 16) ∧ rg m' RSP = wd m (a + 24) ∧
  rg m' SS = wd m (a + 32) ∧ ∀ r, r ∉ [RIP; CS; RFLAGS; RSP; SS] → rg m' r = rg m r.
Proof.
  cbv zeta. split_and!; try done. intros r Hr. simpl. rewrite !not_elem_of_cons in Hr. by rewrite !decide_False by naive_solver.
Qed.

(** [iret64] loads the registers from the frame it is given. *)
Lemma iret64_frame m : let f := frame_at (wd m) (rg m RDI) in 0 ≤ rg m RDI < 2 ^ 64 - 184 → 0 ≤ ds f < 2 ^ 16 →
  saved (run_code iret64 m) (int_no f) (err_code f) = f ∧ rg (run_code iret64 m) ES = ds f.
Proof.
  intros f Ha Hds. assert (u16 (ds f) = ds f) as Eds by (unfold u16; apply Z.mod_small; lia). unfold iret64, popaq. fold popped iret_head. rewrite !run_code_app.
  destruct (iret_head_spec m) as (W1 & S1 & D1 & E1). set (m1 := run_code iret_head m) in *. clearbody m1.
  destruct popped_ok as (Hnd & Hsp & Hd & He).
  destruct (run_pops popped m1 Hnd Hsp) as (W2 & S2 & P2 & O2). set (m2 := run_code (POP <$> popped) m1) in *. clearbody m2.
  destruct (iret_tail_spec m2) as (W3 & I3 & C3 & F3 & S3 & SS3 & O3). set (m3 := run_code [ADDI 16 RSP; IRETQ] m2) in *. clearbody m3.
  assert (u64 (rg m2 RSP + 16) = rg m RDI + 144) as Ea.
  { rewrite S2, S1. change (Z.of_nat (length popped)) with 15. unfold u64.
    rewrite Z.mod_small; lia. }
  rewrite Ea, W2, W1, <-!Z.add_assoc in *. simpl in *.
  assert (∀ i r, popped !! i = Some r → rg m3 r = wd m (rg m RDI + 8 * Z.of_nat (S i))) as Hi.
  { intros i r Hr. rewrite O3.
    - rewrite (P2 _ _ Hr), S1. f_equal. lia.
    - apply list_elem_of_lookup_2 in Hr. intros Hr'. apply (popped_low r); [done|]. by right. }
  assert (rg m3 DS = ds f ∧ rg m3 ES = ds f) as [Hds3 Hes3].
  { rewrite !O3, !O2, D1, E1 by (done || by apply (bool_decide_unpack _)). done. }
  split; [|done]. unfold saved, f, frame_at. cbn [int_no err_code]. f_equal;
    [done|apply (Hi 0%nat)|apply (Hi 1%nat)|apply (Hi 2%nat)|apply (Hi 3%nat)|apply (Hi 4%nat)|apply (Hi 5%nat)|apply (Hi 6%nat)
    |apply (Hi 7%nat)|apply (Hi 8%nat)|apply (Hi 9%nat)|apply (Hi 10%nat)|apply (Hi 11%nat)|apply (Hi 12%nat)|apply (Hi 13%nat)
    |apply (Hi 14%nat)|done..]; reflexivity.
Qed.

(** ** A system call as seen by the user *)

Section trap.
Context `{Layout} `{VmaNames} `{Ports} `{SchedLayout}.
Implicit Types (s : sched) (f : int_frame).

(** The task [cur] runs on this CPU, its saved frame is [f]. *)
Definition running s (cur : Z) (f : int_frame) : Prop :=
  cur ≠ NULL ∧ (∃ c, kcpus (sk s) !! cpu_of s = Some c ∧ cpu_task c = cur) ∧
  runnable (ktasks (sk s)) cur ∧ task_frame <$> ktasks (sk s) !! cur = Some f.

(** [s] after the interrupt handler has saved the frame. *)
Definition save_frame (cur : Z) (f : int_frame) s : sched :=
  set_sk (set_ktasks (alter (set_task_frame f) cur (ktasks (sk s))) (sk s)) s.

Lemma alter_insert {A} (g : A → A) i x (m : gmap Z A) : m !! i = Some x → alter g i m = <[i := g x]> m.
Proof. intros Hx. apply map_eq. intros j. rewrite lookup_alter, lookup_insert. case_decide; [subst; by rewrite Hx|done]. Qed.

Lemma wp_cur_task s cur f (P : Z → sched → Prop) : running s cur f → P cur s → wp (kern cur_task) P s.
Proof.
  intros (_ & (c & Hc & Ec) & _) HP. apply wp_kern. unfold cur_task, cpu_get. wp_step. eapply wp_deref; [exact Hc|]. wp_step.
  rewrite Ec. by replace (set_sk (sk s) s) with s by (by destruct s).
Qed.

Lemma running_frame s cur f f' : running s cur f → running (save_frame cur f' s) cur f'.
Proof.
  intros (Hn & Hc & (tk & Ht & Hs & Hp & Hm) & _). split; [done|]. split; [exact Hc|]. simpl. unfold runnable.
  rewrite lookup_alter_eq, Ht. split; [|done]. exists (set_task_frame f' tk). done.
Qed.

(** Going back to the task that runs: only its status and the number of its
    runs change. *)
Lemma task_run_self yield s cur f : running s cur f →
  leaves (task_run yield cur) (λ s', running s' cur f ∧ ∃ k', s' = set_sk k' s ∧ kcpus k' = kcpus (sk s)) s.
Proof.
  intros (Hn & (c & Hc & Ec) & Hr & Hf).
  pose proof (task_run_spec yield (sk s) (heap (km (sk s))) c cur s) as Hl. rewrite Ec in Hl. rewrite st_id in Hl by done.
  replace (set_sk (sk s) s) with s in Hl by (by destruct s). eapply leaves_mono; [apply Hl; done|]. cbv beta. intros s' ->.
  assert (switched cur cur (sk s) (heap (km (sk s))) c = set_tlb ∅ (set_cr3 (default 0 (task_pml4 <$> ktasks (sk s) !! cur) - KERNEL_VMA)
    (set_ktasks (resume cur (preempt cur (ktasks (sk s)))) (sk s)))) as ->.
  { unfold switched. replace (set_cpu_task cur c) with c by (destruct c; simpl in *; by subst). by rewrite st_id. }
  split; [|eexists; split; [reflexivity|reflexivity]]. split; [done|]. split; [by exists c|]. split; [by apply runnable_resume, runnable_preempt|].
  cbn [sk ktasks set_sk set_tlb set_cr3 set_ktasks]. unfold resume. rewrite lookup_alter_eq.
  destruct (ktasks (sk s) !! cur) as [tk|] eqn:Ht; [|done]. destruct (preempt_lookup cur _ _ _ Ht) as (tk' & -> & _ & _ & Ef & _).
  simpl in *. congruence.
Qed.

(** An interrupt 128 from user mode runs the system call that the frame asks
    for and goes back with the result in [rax], if the call returns to the
    same task and leaves its frame alone. *)
Lemma int_syscall_spec fuel env f f0 s cur (Q : Z → sched → Prop) :
  int_no f = INT_SYSCALL → Z.land (cs f) 3 = 3 → has (env_rflags env) FLAGS_IF = false → running s cur f0 →
  wp (syscall fuel (env_entry env) (env_page_flags env) (rdi f) (rsi f) (rdx f) (rcx f) (r8 f))
    (λ r s', running s' cur f ∧ Q r s') (save_frame cur f s) →
  leaves (int_handler fuel env f) (λ s2, ∃ r s1, Q r s1 ∧ running s2 cur (set_rax (u64 r) f) ∧
    ∃ k', s2 = set_sk k' s1 ∧ kcpus k' = kcpus (sk s1)) s.
Proof.
  intros Hno Hcs Hif Hrun Hw. unfold int_handler. apply leaves_after. apply wp_assert; [by rewrite Hif|].
  rewrite Hcs. cbn [Z.eqb Pos.eqb]. apply leaves_after. wp_step. eapply wp_cur_task; [exact Hrun|]. wp_step.
  pose proof Hrun as (Hn & _ & (tk & Htk & _) & _).
  apply wp_assert; [by rewrite (proj2 (Z.eqb_neq _ _))|]. wp_step. apply wp_kern. eapply wp_task_upd; [exact Htk|]. wp_step.
  change (leaves (int_dispatch fuel env (InTask cur);; cur0 ← kern cur_task; task_run (sched_yield fuel) cur0)
    (λ s2, ∃ r s1, Q r s1 ∧ running s2 cur (set_rax (u64 r) f) ∧ ∃ k', s2 = set_sk k' s1 ∧ kcpus k' = kcpus (sk s1))
    (set_sk (set_ktasks (<[cur := set_task_frame f tk]> (ktasks (sk s))) (sk s)) s)).
  rewrite <-(alter_insert (set_task_frame f) cur tk) by done. fold (save_frame cur f s).
  pose proof (running_frame s cur f0 f Hrun) as Hrun1. apply leaves_after. unfold int_dispatch, frame_get. wp_step.
  pose proof Hrun1 as (_ & _ & (tk1 & Htk1 & _) & Hf1). rewrite Htk1 in Hf1. simpl in Hf1. injection Hf1 as Hf1.
  wp_step. apply wp_kern. unfold task_get. eapply wp_deref; [exact Htk1|]. wp_step. rewrite Hf1, Hno.
  cbn [Z.eqb Pos.eqb INT_PAGE_FAULT INT_BREAK INT_SYSCALL].
  replace (set_sk (sk (save_frame cur f s)) (save_frame cur f s)) with (save_frame cur f s) by (by destruct s).
  wp_step. eapply wp_mono; [exact Hw|]. cbv beta. intros r s1 [Hrun2 HQ].
  pose proof Hrun2 as (_ & _ & (tk2 & Htk2 & _) & Hf2). rewrite Htk2 in Hf2. simpl in Hf2. injection Hf2 as Hf2.
  unfold frame_set_rax. apply wp_kern. eapply wp_task_upd; [exact Htk2|]. rewrite Hf2.
  rewrite <-(alter_insert (set_task_frame (set_rax (u64 r) f)) cur tk2) by done. fold (save_frame cur (set_rax (u64 r) f) s1).
  pose proof (running_frame s1 cur f (set_rax (u64 r) f) Hrun2) as Hrun3.
  apply leaves_after. eapply wp_cur_task; [exact Hrun3|]. eapply leaves_mono; [by apply task_run_self|]. cbv beta.
  intros s2 (Hr2 & k' & -> & Ek). exists r, s1. split; [done|]. split; [exact Hr2|]. exists k'. split; [done|exact Ek].
Qed.

(** The user's registers and memory when [do_syscall] executes [int], and the
    frame the kernel then works on. *)
Definition at_int (m : machine) : machine := run_code do_syscall_enter m.
Definition syscall_frame (rsp0 : Z) (kstack : Z → Z) (m : machine) : int_frame :=
  let e := enter rsp0 kstack INT_SYSCALL (at_int m) in frame_at (wd e) (rg e RDI).

(** From the frame the kernel returns with to the end of [do_syscall]: [mk] is
    the processor at [iret64]; the user's memory is the one at the [int]. *)
Definition back (mk m : machine) : machine := run_code do_syscall_leave (Machine (rg (run_code iret64 mk)) (wd (at_int m))).

(** What the C calling convention promises the caller: [r] is returned, the
    stack pointer and the callee-saved registers are as before, and so is the
    caller's part of the stack. *)
Definition returned (m m' : machine) (r : Z) : Prop :=
  rg m' RAX = u64 r ∧ rg m' RIP = wd m (rg m RSP) ∧ rg m' RSP = rg m RSP + 8 ∧
  Forall (λ x, rg m' x = rg m x) [RBP; RBX; R12; R13; R14; R15; DS; CS; SS; RFLAGS] ∧
  ∀ a, rg m RSP ≤ a → wd m' a = wd m a.

Lemma syscall_frame_eq rsp0 ks m : syscall_frame rsp0 ks m = saved (at_int m) INT_SYSCALL 0.
Proof. apply enter_frame. Qed.

Lemma leave_spec m : let m' := run_code do_syscall_leave m in
  wd m' = wd m ∧ rg m' RBP = wd m (rg m RSP) ∧ rg m' RIP = wd m (rg m RSP + 8) ∧ rg m' RSP = rg m RSP + 16 ∧
  ∀ r, r ∉ [RBP; RIP; RSP] → rg m' r = rg m r.
Proof.
  cbv zeta. split_and!; [done..| |].
  - change (rg m RSP + 8 + 8 = rg m RSP + 16). lia.
  - intros r Hr. rewrite !not_elem_of_cons in Hr. cbn. by rewrite !decide_False by naive_solver.
Qed.

Lemma back_from mi m r : saved mi INT_SYSCALL 0 = set_rax (u64 r) (saved (at_int m) INT_SYSCALL 0) →
  returned m (run_code do_syscall_leave (Machine (rg mi) (wd (at_int m)))) r.
Proof.
  intros Es. unfold saved, set_rax in Es. cbn [int_no err_code] in Es.
  injection Es as.
  destruct (leave_spec (Machine (rg mi) (wd (at_int m)))) as (Ew & Ebp & Eip & Esp & Eo). cbn [rg wd] in *.
  set (m' := run_code do_syscall_leave _) in *. clearbody m'.
  assert (rg mi RSP = rg m RSP - 8) as Er by done. rewrite Er in *.
  assert (∀ a, rg m RSP ≤ a → wd (at_int m) a = wd m a) as Hup.
  { intros a Ha. cbn. by rewrite (proj2 (Z.eqb_neq _ _)) by lia. }
  split_and!.
  - rewrite Eo by (by apply (bool_decide_unpack _)). done.
  - rewrite Eip, Hup by lia. f_equal. lia.
  - lia.
  - repeat constructor; first [rewrite Eo by (by apply (bool_decide_unpack _)); done|idtac].
    rewrite Ebp. cbn. by rewrite Z.eqb_refl.
  - intros a Ha. rewrite Ew. by apply Hup.
Qed.

Lemma back_spec mk m r : 0 ≤ rg m DS < 2 ^ 16 → 0 ≤ rg mk RDI < 2 ^ 64 - 184 →
  frame_at (wd mk) (rg mk RDI) = set_rax (u64 r) (saved (at_int m) INT_SYSCALL 0) → returned m (back mk m) r.
Proof.
  intros Hds Hdi Ef. apply back_from. rewrite <-Ef. pose proof (iret64_frame mk Hdi) as Hi. cbv zeta in Hi. rewrite Ef in Hi. rewrite Ef.
  apply Hi. exact Hds.
Qed.
End trap.

(** C8 (roundtrip).  A call of [do_syscall] with the number and the arguments in
    the registers and on the stack, as the C calling convention has them: the
    frame that [int] and the entry stub build makes [int_handler] run the system
    call with exactly these arguments, and if that returns [r] to the same task,
    the kernel leaves for this task, and [iret64] and the rest of [do_syscall]
    return [r] to the caller, with its stack and the registers it relies on as
    they were. *)
Theorem do_syscall_roundtrip `{Layout} `{VmaNames} `{Ports} `{SchedLayout} fuel env (s : sched) cur f0 rsp0 kstack m
    (Q : Z → sched → Prop) :
  Z.land (rg m CS) 3 = 3 → 0 ≤ rg m DS < 2 ^ 16 → has (env_rflags env) FLAGS_IF = false → running s cur f0 →
  let f := syscall_frame rsp0 kstack m in
  wp (syscall fuel (env_entry env) (env_page_flags env) (rg m RDI) (rg m RSI) (rg m RDX) (rg m RCX) (rg m R8))
    (λ r s', running s' cur f ∧ Q r s') (save_frame cur f s) →
  r9 f = rg m R9 ∧ rbp f = wd m (rg m RSP + 8) ∧
  leaves (int_handler fuel env f) (λ s2, ∃ r s1 f2, Q r s1 ∧ running s2 cur f2 ∧
    (∃ k', s2 = set_sk k' s1 ∧ kcpus k' = kcpus (sk s1)) ∧
    ∀ mk, 0 ≤ rg mk RDI < 2 ^ 64 - 184 → frame_at (wd mk) (rg mk RDI) = f2 → returned m (back mk m) r) s.
Proof.
  intros Hcs Hds Hif Hrun f Hw. unfold f in *. rewrite syscall_frame_eq in *. split; [done|]. split.
  { transitivity (if rg m RSP - 8 + 16 =? rg m RSP - 8 then rg m RBP else wd m (rg m RSP - 8 + 16)); [reflexivity|].
    rewrite (proj2 (Z.eqb_neq _ _)) by lia. f_equal. lia. }
  eapply leaves_mono; [apply (int_syscall_spec fuel env _ f0 s cur Q); done|]. cbv beta.
  intros s2 (r & s1 & HQ & Hr & Hk). exists r, s1, (set_rax (u64 r) (saved (at_int m) INT_SYSCALL 0)). split; [done|]. split; [done|].
  split; [done|]. intros mk Hdi Ef. by apply back_spec.
Qed.

#[local] Existing Instance sched_demo_layout.
#[local] Existing Instance sched_demo_names.
#[local] Existing Instance sched_demo_ports.
#[local] Existing Instance sched_demo_sched.

(** A call of [getpid]: the first task gets its PID. *)
Definition demo_user : machine :=
  Machine (λ r, match r with RDI => SYS_getpid | RSP => 0x7fff0000 | CS => Z.lor GDT_UCODE 3 | DS => 0x1b | RIP => 0x400000 | _ => 7 end)
    (λ a, if a =? 0x7fff0000 then 0x400abc else 0).

Lemma do_syscall_roundtrip_witness : leaves (int_handler 0 demo_event.1 (syscall_frame 0xffff900000010000 (λ _, 0) demo_user))
  (λ s2, ∃ f2, running s2 t1 f2 ∧ ∀ mk, 0 ≤ rg mk RDI < 2 ^ 64 - 184 → frame_at (wd mk) (rg mk RDI) = f2 →
    rg (back mk demo_user) RAX = 1 ∧ rg (back mk demo_user) RIP = 0x400abc ∧ rg (back mk demo_user) RBP = 7) demo_sched.
Proof.
  refine (leaves_mono _ _ _ _ (proj2 (proj2 (do_syscall_roundtrip 0 demo_event.1 demo_sched t1 frame0 0xffff900000010000 (λ _, 0) demo_user
    (λ r _, r = 1) _ _ _ _ _))) _).
  - reflexivity.
  - cbn. lia.
  - reflexivity.
  - split; [done|]. split; [by exists (Cpu t1 0 0 0 1)|]. split; [by apply demo_runnable; left|reflexivity].
  - cbv zeta. rewrite syscall_frame_eq. unfold wp. cbn [demo_user rg]. split; [|reflexivity].
    refine (running_frame demo_sched _ frame0 _ _). split; [done|]. split; [by exists (Cpu t1 0 0 0 1)|]. split; [by apply demo_runnable; left|reflexivity].
  - cbv beta. intros s2 (r & s1 & f2 & -> & Hr & _ & Hb). exists f2. split; [exact Hr|]. intros mk Hdi Ef.
    destruct (Hb mk Hdi Ef) as (E1 & E2 & _ & E3 & _). split; [exact E1|]. split; [exact E2|]. by inversion E3.
Defined.
