(* ===== verification/UserLib.v ===== *)
(** * The user library (lib/syscall.c, lib/exit.c, lib/libmain.c, lib/panic.c, lib/vma.c)

    A user program is a tree of system calls: it ends, or asks the kernel for
    something and goes on with the answer.  The stubs of lib/syscall.c are such
    trees, and [run_user] runs one on the kernel of Sched.v.  The theorems say
    what [puts] shows on the console and what [print_vmas] prints. *)

From Stdlib Require Import Sorted.
From S2P Require Import Prelude LinkedList Paging CString Spinlock Buddy RbTree RbTreeProofs Kernel PageWalk PageTable PageTableProofs Slab SlabProofs Vma VmaProofs Console ConsoleProofs Task Sched SchedProofs SchedSpec.

Local Open Scope Z_scope.

(** ** User computations *)

(** [Call] has the number and the six arguments; the answer is the result and,
    for [SYS_mquery], the struct that the kernel wrote.  [Break] is the
    breakpoint that [_panic] ends with. *)
Inductive user (A : Type) : Type :=
  | Ret (a : A)
  | Call (num a1 a2 a3 a4 a5 a6 : Z) (k : Z → option vma_info → user A)
  | Break
  | Endless.
Arguments Ret {A}.
Arguments Call {A}.
Arguments Break {A}.
Arguments Endless {A}.

Fixpoint user_bind_ {A B} (f : A → user B) (u : user A) : user B :=
  match u with
  | Ret a => f a
  | Call num a1 a2 a3 a4 a5 a6 k => Call num a1 a2 a3 a4 a5 a6 (λ r i, user_bind_ f (k r i))
  | Break => Break
  | Endless => Endless
  end.
#[global] Instance user_ret : MRet user := λ A a, Ret a.
#[global] Instance user_bind : MBind user := @user_bind_.

(** ** lib/syscall.c *)

(** The kernel's 64-bit result comes back as an [unsigned long]. *)
Definition do_syscall (num a1 a2 a3 a4 a5 a6 : Z) : user (Z * option vma_info) :=
  Call num a1 a2 a3 a4 a5 a6 (λ r i, Ret (u64 r, i)).

(** lib/panic.c: the messages are left out; the loop around [int3] is not left,
    since the kernel stays in its monitor. *)
Definition _panic {A} : user A := do_syscall SYS_getpid 0 0 0 0 0 0;; Break.

Definition syscall_ (num : Z) (check : bool) (a1 a2 a3 a4 a5 a6 : Z) : user (Z * option vma_info) :=
  '(ret, info) ← do_syscall (u64 num) a1 a2 a3 a4 a5 a6;
  if check && (ret <? 0) then _panic else mret (ret, info).

(** The result of a call as an [int] and as an [unsigned long]. *)
Definition int_result (c : user (Z * option vma_info)) : user Z := '(ret, _) ← c; mret (s32 ret).
Definition long_result (c : user (Z * option vma_info)) : user Z := '(ret, _) ← c; mret ret.

Definition puts (s len : Z) : user unit := syscall_ SYS_cputs false s len 0 0 0 0;; mret tt.
Definition getc : user Z := int_result (syscall_ SYS_cgetc false 0 0 0 0 0 0).
Definition kill (pid : Z) : user Z := int_result (syscall_ SYS_kill true (u64 pid) 0 0 0 0 0).
Definition getpid : user Z := int_result (syscall_ SYS_getpid false 0 0 0 0 0 0).
Definition mquery (info addr : Z) : user (Z * option vma_info) :=
  '(ret, i) ← syscall_ SYS_mquery false info addr 0 0 0 0; mret (s32 ret, i).
Definition mmap (addr len prot flags fd offset : Z) : user Z :=
  long_result (syscall_ SYS_mmap false addr len (u64 prot) (u64 flags) (u64 fd) offset).
Definition munmap (addr len : Z) : user unit := syscall_ SYS_munmap false addr len 0 0 0 0;; mret tt.
Definition mprotect (addr len prot : Z) : user Z := int_result (syscall_ SYS_mprotect false addr len (u64 prot) 0 0 0).
Definition madvise (addr len advice : Z) : user Z := int_result (syscall_ SYS_madvise false addr len (u64 advice) 0 0 0).
Definition user_sched_yield : user unit := syscall_ SYS_yield false 0 0 0 0 0 0;; mret tt.
Definition wait (rstatus : Z) : user Z := int_result (syscall_ SYS_wait false rstatus 0 0 0 0 0).
Definition waitpid (pid rstatus opts : Z) : user Z :=
  int_result (syscall_ SYS_waitpid false (u64 pid) rstatus (u64 opts) 0 0 0).
Definition fork : user Z := int_result (syscall_ SYS_fork false 0 0 0 0 0 0).
Definition getcpuid : user Z := '(ret, _) ← syscall_ SYS_getcpuid false 0 0 0 0 0 0; mret (u32 ret).

(** ** lib/exit.c, lib/libmain.c *)

Definition exit : user unit := kill 0;; mret tt.

(** [argv0] is [argv[0]]; the result is [binary_name]. *)
Definition libmain (main : Z → Z → user Z) (binary_name argc argv argv0 : Z) : user Z :=
  let binary_name := if 0 <? argc then argv0 else binary_name in
  main argc argv;;
  exit;;
  mret binary_name.

(** ** lib/vma.c *)

(** A line of [print_vmas]: the bounds, and after them nothing, "free", or the
    permissions and the name. *)
Inductive vma_line :=
  | LineFree (b e : Z)
  | LineUsed (b e : Z) (r w x : bool) (name : Z)
  | LineOther (b e : Z).

Definition line_of (i : vma_info) : vma_line :=
  if vi_type i =? VMA_FREE then LineFree (vi_base i) (vi_end i)
  else if (vi_type i =? VMA_ANONYMOUS) || (vi_type i =? VMA_EXECUTABLE) then
    LineUsed (vi_base i) (vi_end i) (has (vi_prot i) PROT_READ) (has (vi_prot i) PROT_WRITE) (has (vi_prot i) PROT_EXEC) (vi_name i)
  else LineOther (vi_base i) (vi_end i).

(** [p] is the address of the variable [info], [info] what it holds. *)
Fixpoint print_vmas_loop (fuel : nat) (p addr : Z) (info : vma_info) : user (list vma_line) :=
  match fuel with
  | O => Endless
  | S fuel =>
      if addr <? USER_LIM then
        '(r, i) ← mquery p addr;
        let info := default info i in
        if r <? 0 then mret []
        else
          ls ← print_vmas_loop fuel p (vi_end info) info;
          mret (line_of info :: ls)
      else mret []
  end.
Definition print_vmas (fuel : nat) (p : Z) (info : vma_info) : user (list vma_line) := print_vmas_loop fuel p NULL info.

(** ** Running a program on the kernel *)

Section run.
Context `{Layout} `{VmaNames} `{Ports} `{SchedLayout}.
(** What uninitialised variables of the kernel hold in the [n]th call. *)
Context (fuel : nat) (envs : nat → int_env).

(** The kernel's dispatcher. *)
Definition kernel_call (env : int_env) (num a1 a2 a3 a4 : Z) : M sched (Z * option vma_info) :=
  syscall_info fuel (env_entry env) (env_page_flags env) num a1 a2 a3 a4.

Fixpoint run_user {A} (n : nat) (u : user A) : M sched A :=
  match u with
  | Ret a => mret a
  | Call num a1 a2 a3 a4 a5 a6 k =>
      '(r, i) ← kernel_call (envs n) num a1 a2 a3 a4;
      run_user (S n) (k r i)
  | Break => halt Monitor
  | Endless => halt NoFuel
  end.
End run.

(** ** The stubs *)

Lemma s32_u64 x : s32 (u64 x) = s32 x.
Proof.
  unfold s32, u64. f_equal. change (2 ^ 64) with (2 ^ 32 * 2 ^ 32).
  rewrite Z.rem_mul_r by lia. rewrite <-Zplus_mod_idemp_l.
  replace (x `mod` 2 ^ 32 + 2 ^ 32 * ((x `div` 2 ^ 32) `mod` 2 ^ 32)) with
    (x `mod` 2 ^ 32 + (x `div` 2 ^ 32) `mod` 2 ^ 32 * 2 ^ 32) by lia.
  rewrite Z.mod_add, Zmod_mod by lia. by rewrite Zplus_mod_idemp_l.
Qed.
Lemma u64_nonneg x : (u64 x <? 0) = false.
Proof. apply Z.ltb_ge. unfold u64. apply Z.mod_pos_bound. lia. Qed.
Lemma u32_u64 x : u32 (u64 x) = u32 x.
Proof.
  unfold u32, u64. change (2 ^ 64) with (2 ^ 32 * 2 ^ 32). rewrite Z.rem_mul_r by lia.
  replace (x `mod` 2 ^ 32 + 2 ^ 32 * ((x `div` 2 ^ 32) `mod` 2 ^ 32)) with
    (x `mod` 2 ^ 32 + (x `div` 2 ^ 32) `mod` 2 ^ 32 * 2 ^ 32) by lia.
  by rewrite Z.mod_add, Zmod_mod by lia.
Qed.

Section stubs.
Context `{Layout} `{VmaNames} `{Ports} `{SchedLayout}.
Context (fuel : nat) (envs : nat → int_env).
Abbreviation run := (run_user fuel envs).

(** A call with a number and no panic: what is left is the kernel's part and
    the conversion of the result. *)
Lemma run_syscall {A} n num check a1 a2 a3 a4 a5 a6 (k : Z * option vma_info → user A) s :
  u64 num = num → run n (syscall_ num check a1 a2 a3 a4 a5 a6 ≫= k) s =
  ('(r, i) ← kernel_call fuel (envs n) num a1 a2 a3 a4; run (S n) (k (u64 r, i))) s.
Proof.
  intros En. unfold syscall_, do_syscall. rewrite En. cbn [mbind user_bind user_bind_ run_user].
  unfold mbind, M_bind. destruct (kernel_call _ _ _ _ _ _ _ s) as [[r i] s'|]; [|done].
  rewrite u64_nonneg, andb_false_r. done.
Qed.
End stubs.

Lemma M_bind_ext {S A B} (m : M S A) (f g : A → M S B) s : (∀ a s', f a s' = g a s') → (m ≫= f) s = (m ≫= g) s.
Proof. intros Hf. unfold mbind, M_bind. destruct (m s); [apply Hf|done]. Qed.
Lemma M_bind_assoc {S A B C} (m : M S A) (f : A → M S B) (g : B → M S C) s :
  ((m ≫= f) ≫= g) s = (m ≫= λ a, f a ≫= g) s.
Proof. unfold mbind, M_bind. by destruct (m s). Qed.

(** ** [puts] *)

(** What [%.*s] shows of the bytes of a buffer: those in front of a NUL. *)
Fixpoint visible (bs : list Z) : list Z :=
  match bs with
  | [] => []
  | b :: bs => if b =? 0 then [] else b :: visible bs
  end.

(** The screen after the characters [bs]. *)
Definition print_bytes (bs : list Z) (scr : list Z * Z) : list Z * Z := foldl (λ scr b, put_char (schar b) scr) scr bs.

(** The kernel reads the bytes [bs] at [p]. *)
Definition reads_bytes (k : kernel) (p : Z) (bs : list Z) : Prop :=
  ∀ i b, bs !! i = Some b → load_byte (p + Z.of_nat i) k = OK b k.

Lemma load_byte_range a k b k' : load_byte a k = OK b k' → 0 ≤ b < 256.
Proof.
  unfold load_byte, mbind, M_bind, deref, gets. destruct (phys_byte false k a) as [[f off]|]; [|done].
  intros [= <- _]. by apply Z.mod_pos_bound.
Qed.
Lemma load_byte_stop a k e k' : load_byte a k = Stop e k' → e = Fault ∧ k' = k.
Proof.
  unfold load_byte, mbind, M_bind, deref, gets. destruct (phys_byte false k a) as [[f off]|]; [done|]. by intros [= <- <-].
Qed.
Lemma load_byte_state a k b k' : load_byte a k = OK b k' → k' = k.
Proof.
  unfold load_byte, mbind, M_bind, deref, gets. destruct (phys_byte false k a) as [[f off]|]; [|done]. by intros [= _ <-].
Qed.
Lemma schar_zero b : 0 ≤ b < 256 → (schar b =? 0) = (b =? 0).
Proof. intros Hb. unfold schar. destruct (b <? 128) eqn:E; [done|]. apply Z.ltb_ge in E. lia. Qed.

Section puts.
Context `{Layout} `{VmaNames} `{Ports} `{SchedLayout}.
Implicit Types (s : sched).

(** How a call ends that has printed a buffer without a NUL: it has looked at
    the byte behind it. *)
Definition beyond (p : Z) (bs : list Z) (s s' : sched) : outcome sched unit :=
  if bool_decide (0 ∈ bs) then OK tt s'
  else match load_byte (p + Z.of_nat (length bs)) (sk s) with OK _ _ => OK tt s' | Stop e _ => Stop e s' end.

Lemma kern_read_OK {A} (op : M kernel A) s a : op (sk s) = OK a (sk s) → kern op s = OK a s.
Proof. intros E. unfold kern, zoom. rewrite E. by destruct s. Qed.

Lemma put_user_string_spec bs : ∀ p fuel s scr, Z.of_nat (length bs) < 2 ^ 31 → reads_bytes (sk s) p bs →
  (length bs < fuel)%nat → shows (scons s) scr →
  ∃ c', redrawn (scons s) c' ∧ shows c' (print_bytes (visible bs) scr) ∧
    put_user_string fuel p (Z.of_nat (length bs)) s = beyond p bs s (set_scons c' s).
Proof.
  induction bs as [|b bs IH]; intros p fuel s scr Hlen Hr Hf Hsh; (destruct fuel as [|fuel]; [simpl in Hf; lia|]).
  - exists (scons s). split; [apply redrawn_refl|]. split; [done|]. unfold beyond. rewrite bool_decide_false by apply not_elem_of_nil.
    cbn [put_user_string length Z.of_nat]. rewrite Z.add_0_r. replace (set_scons (scons s) s) with s by (by destruct s).
    unfold mbind, M_bind. destruct (load_byte p (sk s)) as [b k|e k] eqn:E.
    + pose proof (load_byte_state _ _ _ _ E) as ->. rewrite (kern_read_OK _ s b E). by destruct (schar b =? 0).
    + apply load_byte_stop in E as Ek. destruct Ek as [-> ->]. unfold kern, zoom. rewrite E. by destruct s.
  - pose proof (Hr 0%nat b eq_refl) as Hb. rewrite Z.add_0_r in Hb. pose proof (load_byte_range _ _ _ _ Hb) as Hb256.
    cbn [put_user_string visible]. unfold mbind at 1, M_bind at 1. rewrite (kern_read_OK _ s b Hb), (schar_zero b Hb256).
    destruct (b =? 0) eqn:Eb.
    { apply Z.eqb_eq in Eb. subst b. exists (scons s). split; [apply redrawn_refl|]. split; [done|].
      unfold beyond. rewrite bool_decide_true by left. by destruct s. }
    apply Z.eqb_neq in Eb. cbn [length] in Hlen, Hf |- *.
    assert (s32 (Z.of_nat (S (length bs)) - 1) = Z.of_nat (length bs)) as Es.
    { unfold s32. rewrite Z.mod_small; lia. }
    rewrite Es, (proj2 (Z.ltb_ge _ 0)), (proj2 (Z.leb_le 0 _)) by lia. cbn [orb negb].
    destruct (wp_elim _ _ _ (cons_putc_spec (schar b) (scons s) scr Hsh)) as ([] & c1 & E1 & Hr1 & Hs1).
    unfold mbind, M_bind, cputch, zoom, cputchar. rewrite E1.
    destruct (IH (p + 1) fuel (set_scons c1 s) (put_char (schar b) scr)) as (c' & Hr' & Hs' & E'); [lia| |lia|exact Hs1|].
    { intros i x Hx. replace (p + 1 + Z.of_nat i) with (p + Z.of_nat (S i)) by lia. exact (Hr (S i) x Hx). }
    exists c'. split; [by eapply redrawn_trans|]. split; [exact Hs'|]. rewrite E'. unfold beyond.
    replace (p + 1 + Z.of_nat (length bs)) with (p + Z.of_nat (length (b :: bs))) by (simpl; lia).
    rewrite (bool_decide_ext (0 ∈ b :: bs) (0 ∈ bs)) by (rewrite elem_of_cons; naive_solver). done.
Qed.
End puts.

(** C37 (functional).  [puts] of the user library, run on the kernel by a task
    that may read the buffer: the system call passes the kernel's check and the
    dispatcher, and the bytes of the buffer up to the first NUL appear on the
    screen, in order; nothing but the console changes.  The call then returns,
    if the buffer holds a NUL or the byte behind it can be read; otherwise the
    kernel itself faults: the formatter reads the byte behind the buffer, which
    [assert_user_mem] has not checked, before it looks at the count. *)
Theorem puts_correct `{Layout} `{VmaNames} `{Ports} `{SchedLayout} fuel envs n (s : sched) c tk p bs scr :
  kcpus (sk s) !! cpu_of s = Some c → ktasks (sk s) !! cpu_task c = Some tk → p ≠ NULL → Z.of_nat (length bs) < 2 ^ 31 →
  (∃ fault, check_user_mem (task_pml4 tk) p (Z.of_nat (length bs)) PAGE_USER (sk s) = OK (0, fault) (sk s)) →
  reads_bytes (sk s) p bs → shows (scons s) scr →
  ∃ c', redrawn (scons s) c' ∧ shows c' (print_bytes (visible bs) scr) ∧
    let r := run_user fuel envs n (puts p (Z.of_nat (length bs))) s in
    (0 ∈ bs ∨ (∃ b, load_byte (p + Z.of_nat (length bs)) (sk s) = OK b (sk s)) → r = OK tt (set_scons c' s)) ∧
    (0 ∉ bs → phys_byte false (sk s) (p + Z.of_nat (length bs)) = None → r = Stop Fault (set_scons c' s)).
Proof.
  intros Hc Ht Hp Hlen (fault & Hchk) Hr Hsh.
  destruct (put_user_string_spec bs p (fuel + S (length bs)) s scr Hlen Hr ltac:(lia) Hsh) as (c' & Hrd & Hs' & E).
  assert (run_user fuel envs n (puts p (Z.of_nat (length bs))) s = beyond p bs s (set_scons c' s)) as Erun.
  { unfold puts. rewrite run_syscall by reflexivity. unfold kernel_call, syscall_info. cbn [Z.eqb SYS_cputs].
    assert (kern cur_task s = OK (cpu_task c) s) as E1.
    { apply kern_read_OK. unfold cpu_of in Hc. unfold cur_task, cpu_get, mbind, M_bind, deref. by rewrite Hc. }
    assert (kern (task_get (cpu_task c)) s = OK tk s) as E2 by (apply kern_read_OK; unfold task_get, deref; by rewrite Ht).
    apply (kern_read_OK _ s) in Hchk as E3.
    unfold sys_cputs, assert_user_mem, mbind, M_bind. rewrite E1, E2. change (Z.lor 0 PAGE_USER) with PAGE_USER. rewrite E3.
    cbn [Z.ltb Z.compare mret M_ret].
    rewrite (proj2 (Z.eqb_neq _ _) Hp).
    assert (s32 (Z.of_nat (length bs)) = Z.of_nat (length bs)) as -> by (unfold s32; rewrite Z.mod_small; lia).
    rewrite Nat2Z.id, E. by destruct (beyond p bs s (set_scons c' s)) as [[] ?|]. }
  exists c'. split; [done|]. split; [done|]. cbv zeta. rewrite Erun. unfold beyond. split.
  - intros [Hz|[b Hb]]; [by rewrite bool_decide_true|]. rewrite Hb. by case_bool_decide.
  - intros Hz Hn. rewrite bool_decide_false by done. unfold load_byte, mbind, M_bind, deref. by rewrite Hn.
Qed.

(** A task that prints "Hi" and a newline from a page of its own. *)
Section puts_demo.
#[local] Existing Instance sched_demo_layout.
#[local] Existing Instance sched_demo_names.
#[local] Existing Instance demo_ports.
#[local] Existing Instance sched_demo_sched.

Definition puts_kernel : kernel :=
  Kernel (Mem ∅ ∅ 0 64 demo_lock {[
      16 := {[ 0 := make_entry 17 7 ]}; 17 := {[ 0 := make_entry 18 7 ]}; 18 := {[ 0 := make_entry 19 7 ]};
      19 := {[ 1 := make_entry 20 7 ]}; 20 := {[ 0 := 0x0a6948 ]} ]} 0) (Rbs ∅ ∅) ∅
    {[ 0x7000 := set_task_pml4 (kva 16) (set_task_pid 1 task0) ]} ∅ {[ 0 := Cpu 0x7000 0 0 0 1 ]} ∅ ∅ ∅ demo_lock
    (16 * PAGE_SIZE) ∅ KERNEL_VMA 0.
Definition puts_sched : sched :=
  Sched _ puts_kernel (demo_console []) {[ 1 := 0x7000 ]} 1 0 1 demo_lock demo_lock 0 0.

Lemma puts_correct_witness : ∃ c', shows c' (print_bytes [72; 105; 10] (demo_cells, 1999)) ∧
  run_user 0 (λ _, IntEnv 0 0 0 0 8 0) 0 (puts 0x1000 3) puts_sched = OK tt (set_scons c' puts_sched).
Proof.
  destruct (puts_correct 0 (λ _, IntEnv 0 0 0 0 8 0) 0 puts_sched (Cpu 0x7000 0 0 0 1) (set_task_pml4 (kva 16) (set_task_pid 1 task0))
    0x1000 [72; 105; 10] (demo_cells, 1999)) as (c' & _ & Hs & Hr & _).
  - reflexivity.
  - reflexivity.
  - discriminate.
  - reflexivity.
  - eexists. vm_compute. reflexivity.
  - intros i b Hi. destruct i as [|[|[|i]]]; [injection Hi as <-; reflexivity..|discriminate Hi].
  - split; [apply demo_cells_at|]. split; [reflexivity|]. split; [discriminate|reflexivity].
  - exists c'. split; [exact Hs|]. apply Hr. right. exists 0. reflexivity.
Defined.
End puts_demo.

(** ** [sys_mquery] and [print_vmas] *)

(** The end of the last area, where a gap starts. *)
Definition bound (vs : list area) : Z := default 0 ((λ a, vm_end a.2) <$> last vs).

(** What is printed for the areas [vs] when everything below [start] is done. *)
Definition area_line (a : area) : vma_line :=
  LineUsed (vm_base a.2) (vm_end a.2) (has (vm_flags a.2) PROT_READ) (has (vm_flags a.2) PROT_WRITE) (has (vm_flags a.2) PROT_EXEC)
    (vm_name a.2).
Definition gap_line (b e : Z) : list vma_line := if b <? e then [LineFree b e] else [].
Fixpoint vma_lines (start : Z) (vs : list area) : list vma_line :=
  match vs with
  | [] => gap_line start USER_LIM
  | a :: vs => gap_line start (vm_base a.2) ++ area_line a :: vma_lines (vm_end a.2) vs
  end.

Section mquery.
Context `{Layout} `{VmaNames} `{Ports} `{SchedLayout}.
Implicit Types (s : sched) (vs vl vr : list area).

(** The task [cur] runs, has the areas [vs] in user space, and may write the
    [struct vma_info] at [p]. *)
Record query_state s (cur p : Z) (tk : task) (vs : list area) : Prop := {
  qs_cpu : ∃ c, kcpus (sk s) !! cpu_of s = Some c ∧ cpu_task c = cur;
  qs_task : ktasks (sk s) !! cur = Some tk;
  qs_tree : ∃ t, vma_tree (sk s) cur t vs;
  qs_user : Forall (λ a, 0 ≤ vm_base a.2 ∧ vm_end a.2 ≤ USER_LIM) vs;
  qs_info : ∃ fault, check_user_mem (task_pml4 tk) p sizeof_vma_info (Z.lor (Z.lor PAGE_USER PAGE_WRITE) PAGE_USER) (sk s) = OK (0, fault) (sk s);
}.

(** [page_lookup] answers at the address, and the entry it reports, if any,
    can be read. *)
Definition lookup_ok s (tk : task) (entry addr : Z) : Prop :=
  ∃ page e, page_lookup (task_pml4 tk) addr (Some entry) (sk s) = OK (page, e) (sk s) ∧
    (page ≠ NULL → ∃ w, read_word (default entry e) (km (sk s)) = OK w (km (sk s))).

Lemma set_sk_id s : set_sk (sk s) s = s.
Proof. by destruct s. Qed.

(** An operation on the kernel that only reads. *)
Lemma wp_kern_read {A} (op : M kernel A) (P : A → sched → Prop) s :
  wp op (λ a k', k' = sk s ∧ P a s) (sk s) → wp (kern op) P s.
Proof.
  intros Hw. apply wp_kern. eapply wp_mono; [exact Hw|]. cbv beta. intros a k' [-> HP]. by rewrite set_sk_id.
Qed.
Lemma wp_kern_list {A} (op : M lheap A) (P : A → sched → Prop) s a :
  op (heap (km (sk s))) = OK a (heap (km (sk s))) → P a s → wp (kern (on_list op)) P s.
Proof.
  intros E HP. apply wp_kern_read. apply wp_on_list_read. eapply wp_OK; [exact E|]. done.
Qed.

Lemma bound_snoc vs a : bound (vs ++ [a]) = vm_end a.2.
Proof. unfold bound. by rewrite last_snoc. Qed.

Lemma above_split addr vl vr : Forall (λ a, vm_end a.2 ≤ addr) vl → above addr (vl ++ vr) = above addr vr.
Proof.
  intros Hl. unfold above. rewrite find_app_list, find_none_all; [done|]. eapply Forall_impl; [exact Hl|].
  cbv beta. intros a Ha. by apply Z.ltb_ge.
Qed.

(** No area of a sorted list reaches beyond the last one. *)
Lemma bound_max s cur p tk vl vr : query_state s cur p tk (vl ++ vr) →
  Forall (λ b, vm_end b.2 ≤ bound vl) vl ∧ Forall (λ b, bound vl ≤ vm_base b.2) vr ∧ 0 ≤ bound vl ≤ USER_LIM.
Proof.
  intros [_ _ [t [_ _ _ Hok Hs]] Hu _]. destruct vl as [|a vl _] using rev_ind.
  { split; [done|]. split; [|done]. eapply Forall_impl; [exact Hu|]. cbv beta. intros b Hb. unfold bound. simpl. lia. }
  rewrite bound_snoc. rewrite <-app_assoc in Hs, Hu, Hok. simpl in Hs, Hu, Hok. apply sorted_middle in Hs as (_ & _ & Hl & Hr).
  apply Forall_app in Hu as [_ [Ha _]%Forall_cons]. apply Forall_app in Hok as [_ [(_ & _ & Hne) _]%Forall_cons].
  split_and!; [|exact Hr|lia|lia]. apply Forall_app. split; [|by constructor].
  eapply Forall_impl; [exact Hl|]. cbv beta. unfold precedes. intros b Hb. lia.
Qed.

(** [list_prev] of the element behind [xs], or of the head. *)
Lemma list_prev_at h head xs ys : dlist h head (xs ++ ys) → list_prev head (after head ys) h = OK (default NULL (last xs)) h.
Proof.
  intros Hl. pose proof Hl as (Hnd & _ & _ & [_ Hp] & _)%dlist_ring.
  assert (wp (list_prev head (after head ys)) (λ r h', r = default NULL (last xs) ∧ h' = h) h) as
    (? & ? & -> & -> & ->)%wp_elim; [|done].
  unfold list_prev. wp_step. eapply wp_get_prev; [exact Hp|]. wp_step. split; [|done].
  destruct xs as [|x xs _] using rev_ind; [unfold before; simpl; by rewrite Z.eqb_refl|].
  rewrite before_snoc, last_snoc. simpl. rewrite (proj2 (Z.eqb_neq x head)); [done|]. intros ->. apply NoDup_cons in Hnd. set_solver.
Qed.

(** The VMA at the last of the nodes, where a gap starts. *)
Lemma wp_gap s cur t vl vr e (P : Z * option vma_info → sched → Prop) : vma_tree (sk s) cur t (vl ++ vr) →
  P (0, Some (VmaInfo NULL (bound vl) e 0 VMA_FREE 0)) s →
  wp (node ← kern (on_list (list_prev (cur + off_task_mmap) (after (cur + off_task_mmap) (mmap_of <$> vr))));
      if node =? NULL then mret (0, Some (VmaInfo NULL 0 e 0 VMA_FREE 0))
      else w ← kern (vma_get (container_of node off_vm_mmap)); mret (0, Some (VmaInfo NULL (vm_end w) e 0 VMA_FREE 0))) P s.
Proof.
  intros [_ _ Hl Hok _] HP. rewrite fmap_app in Hl. wp_step. eapply wp_kern_list; [by apply list_prev_at|].
  destruct vl as [|a vl _] using rev_ind; [change (default NULL _) with NULL; rewrite Z.eqb_refl; by wp_step|].
  assert (default NULL (last (mmap_of <$> vl ++ [a])) = mmap_of a) as -> by (rewrite fmap_app; by apply (f_equal (default NULL) (last_snoc (mmap_of a) (mmap_of <$> vl)))).
  rewrite bound_snoc in HP.
  assert (mmap_of a ≠ NULL) as Hn.
  { intros E. apply (dlist_nonnull _ _ _ Hl). rewrite <-E, fmap_app. simpl. set_solver. }
  rewrite (proj2 (Z.eqb_neq _ _)) by done. rewrite <-app_assoc in Hok. apply Forall_app in Hok as [_ [(Ha & _) _]%Forall_cons].
  wp_step. apply wp_kern_read. eapply wp_vma_get; [|split; [done|by wp_step]].
  unfold container_of, mmap_of. by replace (a.1 + off_vm_mmap - off_vm_mmap) with a.1 by lia.
Qed.

(** [info] for an area. *)
Definition area_info (a : area) (mapped : Z) : vma_info :=
  VmaInfo (vm_name a.2) (vm_base a.2) (vm_end a.2) (vm_flags a.2)
    (if negb (vm_src a.2 =? NULL) then VMA_EXECUTABLE else VMA_ANONYMOUS) mapped.

(** [sys_mquery] below [USER_LIM], when the areas [vl] end at or before [addr]. *)
Lemma sys_mquery_spec fuel entry s cur p tk vl vr addr (P : Z * option vma_info → sched → Prop) :
  query_state s cur p tk (vl ++ vr) → addr < USER_LIM → Forall (λ a, vm_end a.2 ≤ addr) vl →
  match vr with
  | [] => P (0, Some (VmaInfo NULL (bound vl) USER_LIM 0 VMA_FREE 0)) s
  | a :: _ => addr < vm_end a.2 ∧
      if addr <? vm_base a.2 then P (0, Some (VmaInfo NULL (bound vl) (vm_base a.2) 0 VMA_FREE 0)) s
      else lookup_ok s tk entry addr ∧ ∀ mapped, P (0, Some (area_info a mapped)) s
  end →
  wp (sys_mquery fuel entry p addr) P s.
Proof.
  intros [(c & Hc & Ec) Ht [t Hvt] Hu (fault & Hi)] Hlim Hl HP. unfold sys_mquery.
  wp_step. apply wp_kern_read. unfold cur_task, cpu_get. wp_step. eapply wp_deref; [exact Hc|]. wp_step. split; [done|].
  rewrite Ec. wp_step. unfold assert_user_mem. wp_step. apply wp_kern_read. unfold task_get. eapply wp_deref; [exact Ht|]. split; [done|].
  wp_step. apply wp_kern_read. eapply wp_OK; [exact Hi|]. split; [done|]. cbn [Z.ltb Z.compare]. wp_step.
  rewrite (proj2 (Z.leb_gt _ _)) by done. wp_step. apply wp_kern_read.
  pose proof (find_vma_spec (sk s) cur t (vl ++ vr) addr Hvt) as Hf. eapply wp_mono; [exact Hf|]. cbv beta.
  intros [[vma par] dir] k' [Ev ->]. split; [done|]. cbn [fst] in Ev. rewrite above_split in Ev by done.
  destruct vr as [|a vr]; [|destruct HP as [Hae HP]].
  - simpl in Ev. subst vma. rewrite Z.eqb_refl. exact (wp_gap s cur t vl [] USER_LIM P Hvt HP).
  - unfold above in Ev. simpl in Ev. rewrite (proj2 (Z.ltb_lt _ _)) in Ev by done. simpl in Ev. subst vma.
    pose proof Hvt as [_ _ _ Hok _]. apply Forall_app in Hok as [_ [(Ha & Hn & _) _]%Forall_cons].
    rewrite (proj2 (Z.eqb_neq _ _)) by done. wp_step. apply wp_kern_read. eapply wp_vma_get; [exact Ha|]. split; [done|].
    destruct (addr <? vm_base a.2); [exact (wp_gap s cur t vl (a :: vr) (vm_base a.2) P Hvt HP)|].
    destruct HP as [(page & e & El & Hr) HP]. wp_step. apply wp_kern_read. unfold task_get. eapply wp_deref; [exact Ht|]. split; [done|].
    wp_step. apply wp_kern_read. eapply wp_OK; [exact El|]. split; [done|].
    destruct (page =? NULL) eqn:Ep; cbn [negb]; [wp_step; wp_step; wp_step; apply HP|].
    apply Z.eqb_neq in Ep. destruct (Hr Ep) as [w Hw]. wp_step. wp_step. apply wp_kern_read.
    apply wp_on_km. eapply wp_OK; [exact Hw|]. split; [by destruct (sk s)|]. wp_step. wp_step. apply HP.
Qed.

Lemma wp_same {S A} (c c' : M S A) (P : A → S → Prop) (s : S) : c s = c' s → wp c' P s → wp c P s.
Proof. unfold wp. by intros ->. Qed.

(** Running a program and mapping its result. *)
Lemma run_map {A B} fuel envs (g : A → B) (u : user A) : ∀ n s,
  run_user fuel envs n (u ≫= λ a, mret (g a)) s = (a ← run_user fuel envs n u; mret (g a)) s.
Proof.
  induction u as [a|num a1 a2 a3 a4 a5 a6 k IH| |]; intros n s; [done| |done|done].
  cbn [run_user mbind user_bind user_bind_]. rewrite M_bind_assoc. apply M_bind_ext. intros [r i] s'. apply IH.
Qed.

Lemma line_of_area a mapped : line_of (area_info a mapped) = area_line a.
Proof. unfold line_of, area_info, area_line. cbn. by destruct (vm_src a.2 =? NULL). Qed.

(** One round of the loop: the line for the region at [addr], then the rest. *)
Lemma print_round fuel fuel' envs n p addr info s (P : list vma_line → sched → Prop) : addr < USER_LIM →
  wp (sys_mquery fuel (env_entry (envs n)) p addr) (λ '(r, i) s', r = 0 ∧ ∃ info', i = Some info' ∧
    wp (run_user fuel envs (S n) (print_vmas_loop fuel' p (vi_end info') info')) (λ ls, P (line_of info' :: ls)) s') s →
  wp (run_user fuel envs n (print_vmas_loop (S fuel') p addr info)) P s.
Proof.
  intros Hlim Hw. cbn [print_vmas_loop]. rewrite (proj2 (Z.ltb_lt _ _)) by done. unfold wp. unfold mquery.
  unfold syscall_, do_syscall. cbn [mbind user_bind user_bind_ run_user].
  change (wp ('(r, i) ← kernel_call fuel (envs n) (u64 SYS_mquery) p addr 0 0;
    run_user fuel envs (S n) (if s32 (u64 r) <? 0 then mret []
      else ls ← print_vmas_loop fuel' p (vi_end (default info i)) (default info i); mret (line_of (default info i) :: ls))) P s).
  wp_step. eapply wp_mono; [exact Hw|]. cbv beta. intros [r i] s' (-> & info' & -> & Hr). cbn [default from_option].
  change (s32 (u64 0) <? 0) with false. cbv iota.
  apply (wp_same _ _ _ _ (run_map _ _ _ _ _ _)).
  wp_step. eapply wp_mono; [exact Hr|]. cbv beta. intros ls s2 HP. by wp_step.
Qed.

Lemma print_end fuel fuel' envs n p addr info s (P : list vma_line → sched → Prop) : USER_LIM ≤ addr → P [] s →
  wp (run_user fuel envs n (print_vmas_loop (S fuel') p addr info)) P s.
Proof. intros Ha HP. cbn [print_vmas_loop]. by rewrite (proj2 (Z.ltb_ge _ _)). Qed.

Lemma print_vmas_spec fuel envs s cur p tk : ∀ vr vl fuel' n info, query_state s cur p tk (vl ++ vr) →
  (∀ n a, a ∈ vr → lookup_ok s tk (env_entry (envs n)) (vm_base a.2)) → (2 * length vr + 2 ≤ fuel')%nat →
  wp (run_user fuel envs n (print_vmas_loop fuel' p (bound vl) info)) (λ ls s', ls = vma_lines (bound vl) vr ∧ s' = s) s.
Proof.
  induction vr as [|a vr IH]; intros vl fuel' n info Hq Hlook Hf;
    destruct (bound_max _ _ _ _ _ _ Hq) as (Hl & Hr & Hb).
  - destruct fuel' as [|[|fuel']]; [simpl in Hf; lia..|]. cbn [vma_lines]. unfold gap_line.
    destruct (bound vl <? USER_LIM) eqn:E; [apply Z.ltb_lt in E|apply Z.ltb_ge in E; by apply print_end].
    apply print_round; [done|]. eapply sys_mquery_spec; [exact Hq|done|done|]. split; [done|]. eexists. split; [done|].
    by apply print_end.
  - simpl in Hf. destruct fuel' as [|[|fuel']]; [lia..|]. apply Forall_cons in Hr as [Hab _].
    pose proof Hq as [_ _ [t [_ _ _ Hok _]] Hu _]. apply Forall_app in Hok as [_ [(_ & _ & Hne) _]%Forall_cons].
    apply Forall_app in Hu as [_ [Hau _]%Forall_cons].
    assert (∀ fuel' n info, (2 * length vr + 3 ≤ fuel')%nat →
      wp (run_user fuel envs n (print_vmas_loop fuel' p (vm_base a.2) info))
        (λ ls s', ls = area_line a :: vma_lines (vm_end a.2) vr ∧ s' = s) s) as Harea.
    { clear fuel' n info Hf. intros fuel' n info Hf. destruct fuel' as [|fuel']; [lia|]. apply print_round; [lia|].
      eapply sys_mquery_spec; [exact Hq|lia| |].
      { eapply Forall_impl; [exact Hl|]. cbv beta. intros b Hb'. lia. }
      split; [done|]. rewrite Z.ltb_irrefl. split; [apply Hlook; left|]. intros mapped. split; [done|]. eexists. split; [done|].
      rewrite line_of_area. cbn [area_info vi_end]. rewrite <-(bound_snoc vl a).
      eapply wp_mono; [apply IH; [by rewrite <-app_assoc|intros m b Hb'; apply Hlook; by right|lia]|].
      cbv beta. intros ls s' [-> ->]. done. }
    cbn [vma_lines]. unfold gap_line. destruct (bound vl <? vm_base a.2) eqn:E.
    + apply Z.ltb_lt in E. apply print_round; [lia|]. eapply sys_mquery_spec; [exact Hq|lia|done|].
      split; [lia|]. rewrite (proj2 (Z.ltb_lt _ _)) by done. split; [done|]. eexists. split; [done|]. cbn [vi_end].
      eapply wp_mono; [apply Harea; lia|]. cbv beta. intros ls s' [-> ->]. done.
    + apply Z.ltb_ge in E. replace (bound vl) with (vm_base a.2) by lia. apply Harea. lia.
Qed.
End mquery.

(** Lines that follow each other without a gap from [b] to [e]. *)
Definition line_bounds (l : vma_line) : Z * Z :=
  match l with LineFree b e | LineUsed b e _ _ _ _ | LineOther b e => (b, e) end.
Fixpoint tiles (b e : Z) (ls : list vma_line) : Prop :=
  match ls with
  | [] => b = e
  | l :: ls => (line_bounds l).1 = b ∧ b < (line_bounds l).2 ∧ tiles (line_bounds l).2 e ls
  end.

Lemma vma_lines_tiles vs : ∀ b, StronglySorted precedes vs → Forall (λ a, b ≤ vm_base a.2 < vm_end a.2 ∧ vm_end a.2 ≤ USER_LIM) vs →
  b ≤ USER_LIM → tiles b USER_LIM (vma_lines b vs).
Proof.
  induction vs as [|a vs IH]; intros b Hs Hu Hb; cbn [vma_lines]; unfold gap_line.
  - destruct (b <? USER_LIM) eqn:E; [apply Z.ltb_lt in E; done|apply Z.ltb_ge in E; simpl; lia].
  - apply StronglySorted_inv in Hs as [Hs Ha]. apply Forall_cons in Hu as [Hau Hu].
    assert (tiles (vm_base a.2) USER_LIM (area_line a :: vma_lines (vm_end a.2) vs)) as Hrest.
    { split; [done|]. split; [simpl; lia|]. apply IH; [done| |lia].
      rewrite Forall_forall in *. intros c Hc. specialize (Ha c Hc). specialize (Hu c Hc). unfold precedes in Ha. cbv beta in Hu. lia. }
    destruct (b <? vm_base a.2) eqn:E; [apply Z.ltb_lt in E; done|]. apply Z.ltb_ge in E. replace b with (vm_base a.2) by lia. done.
Qed.

(** C38 (termination).  [print_vmas], run on the kernel by a task whose areas are
    [vs], ends after at most two system calls per area and one more, leaves the
    kernel as it was, and prints in address order one line for each area, with
    its permissions and its name, and one for each gap; the lines cover the
    user's address space from 0 to [USER_LIM] without overlap. *)
Theorem print_vmas_correct `{Layout} `{VmaNames} `{Ports} `{SchedLayout} fuel envs n (s : sched) cur p tk vs info fuel' :
  query_state s cur p tk vs → (∀ n a, a ∈ vs → lookup_ok s tk (env_entry (envs n)) (vm_base a.2)) →
  (2 * length vs + 2 ≤ fuel')%nat →
  run_user fuel envs n (print_vmas fuel' p info) s = OK (vma_lines 0 vs) s ∧ tiles 0 USER_LIM (vma_lines 0 vs).
Proof.
  intros Hq Hl Hf. split.
  - destruct (wp_elim _ _ _ (print_vmas_spec fuel envs s cur p tk vs [] fuel' n info Hq Hl Hf)) as (? & ? & E & -> & ->). exact E.
  - destruct Hq as [_ _ [t [_ _ _ Hok Hs]] Hu _]. apply vma_lines_tiles; [done| |done].
    rewrite Forall_forall in *. intros a Ha. specialize (Hu a Ha). destruct (Hok a Ha) as (_ & _ & ?). cbv beta in Hu. lia.
Qed.

(** A task with two areas; the first page of the first one is mapped. *)
#[local] Existing Instance sched_demo_layout.
#[local] Existing Instance sched_demo_names.
#[local] Existing Instance sched_demo_ports.
#[local] Existing Instance sched_demo_sched.

Definition query_kernel : kernel :=
  let k := demo_vmas 0 0 in
  let m := set_npages 64 (set_phys {[
    16 := {[ 0 := make_entry 17 7 ]}; 17 := {[ 0 := make_entry 18 7 ]}; 18 := {[ 0 := make_entry 19 7 ]};
    19 := {[ 1 := make_entry 20 7 ]} ]} (km k)) in
  Kernel m (krb k) (kvmas k) {[ 0x7000 := set_task_pml4 (kva 16) (set_task_pid 1 task0) ]} (krmaps k) {[ 0 := Cpu 0x7000 0 0 0 1 ]}
    (kslabs k) (kslab_infos k) (kslab_objs k) (swap_lock k) (cr3 k) (tlb k) (kernel_pml4 k) (mmio_base k).
Definition query_sched : sched :=
  Sched _ query_kernel (Console _ tt ∅ true CGA_BASE 0xB8000 0 0 [] 0 0 []) {[ 1 := 0x7000 ]} 1 0 1 demo_lock demo_lock 0 0.

Lemma print_vmas_correct_witness :
  run_user 0 (λ _, IntEnv 0 0 0 0 8 0) 0 (print_vmas 6 0x1800 vma_info0) query_sched = OK
    [LineFree 0 0x1000; LineUsed 0x1000 0x3000 true false false NULL; LineFree 0x3000 0x5000;
     LineUsed 0x5000 0x6000 true false false NULL; LineFree 0x6000 USER_LIM] query_sched ∧
  tiles 0 USER_LIM (vma_lines 0 demo_areas).
Proof.
  apply (print_vmas_correct 0 (λ _, IntEnv 0 0 0 0 8 0) 0 query_sched 0x7000 0x1800 (set_task_pml4 (kva 16) (set_task_pid 1 task0)) demo_areas).
  - split.
    + exists (Cpu 0x7000 0 0 0 1). split; reflexivity.
    + reflexivity.
    + exists demo_vma_tree. pose proof (demo_vmas_tree 0 0) as [H1 H2 H3 H4 H5]. split; [exact H1|exact H2|exact H3|exact H4|exact H5].
    + repeat constructor; by vm_compute.
    + eexists. vm_compute. reflexivity.
  - intros _ a Ha. unfold demo_areas in Ha. repeat (apply elem_of_cons in Ha as [->|Ha]); [| |by apply not_elem_of_nil in Ha].
    + unfold lookup_ok. do 2 eexists. split; [vm_compute; reflexivity|]. intros _. eexists. vm_compute. reflexivity.
    + unfold lookup_ok. do 2 eexists. split; [vm_compute; reflexivity|]. intros Hn. by destruct Hn.
  - simpl. lia.
Defined.
