(* ===== verification/Smp.v ===== *)
(** * Starting the other CPUs (kernel/mp.c)

    The boot CPU runs [boot_cpus] while the CPUs it wakes run [mp_main]; they
    share [mpentry_kstack], the status words and the segment tables of
    Segments.v.  A system state has the point of each CPU in its code, and a
    step is a step of any one of them.  The theorems hold for every
    interleaving: each CPU takes its own stack and its own task state segment,
    and the start-up ends. *)

From S2P Require Import Prelude LinkedList Paging CString Spinlock Buddy RbTree Kernel PageWalk PageTable Slab Vma Console Task Devices Ata Ahci Segments SegmentsSpec Acpi.

Local Open Scope Z_scope.

(** ** State *)

(** Where the boot CPU is in the round of CPU number [i] of [boot_cpus]: at the
    head of the loop, before the store to [mpentry_kstack], before
    [lapic_startup], in the waiting loop; behind the loop. *)
Inductive bpc := BLoop (i : Z) | BStack (i : Z) | BStartup (i : Z) | BWait (i : Z) | BEnd.

(** Where another CPU is: not started, in boot_ap.S on the boot stack, before
    the calls of [mp_main] in their order, scheduling.  [gdt_init_mp] is three
    steps. *)
Inductive apc := AOff | AReset | AStack | ALapic | AGdt | AGdtLoad | AGdtSel | AIdt | AKmem | ASched | ANotify | ARun.

#[global] Instance apc_eq_dec : EqDecision apc.
Proof. solve_decision. Defined.

(** CPUs are numbered by their place in [cpus], which is the APIC ID. *)
Record smp := SmpState {
  mpentry_kstack : Z;
  status : Z → Z;
  sg : segs;
  stack : Z → option Z;  (** the stack pointer that [mp_main] has loaded *)
  boot_pc : bpc;
  ap_pc : Z → apc;
}.

Definition upd {A} (c : Z) (x : A) (f : Z → A) : Z → A := λ d, if decide (d = c) then x else f d.

Definition goto (c : Z) (p : apc) (s : smp) : smp :=
  SmpState (mpentry_kstack s) (status s) (sg s) (stack s) (boot_pc s) (upd c p (ap_pc s)).
Definition boot_goto (p : bpc) (s : smp) : smp :=
  SmpState (mpentry_kstack s) (status s) (sg s) (stack s) p (ap_pc s).
Definition set_sg (g : segs) (s : smp) : smp :=
  SmpState (mpentry_kstack s) (status s) g (stack s) (boot_pc s) (ap_pc s).

Section smp.
Context `{SegLayout} `{CpuLayout}.
(** [ncpus], the number of the boot CPU, and [cpu_id] of each CPU. *)
Context (ncpus boot : Z) (cpu_id : Z → Z).

Definition cpu_at (c : Z) : Z := cpus + c * sizeof_cpuinfo.

(** [cpu->cpu_tss.rsp[0]] *)
Definition rsp0_of (T : gmap Z tss) (c : Z) : option Z := t ← T !! cpu_at c; tss_rsp t !! 0%nat.

(** A step of [boot_cpus].  [lapic_startup] resets the CPU with the given APIC
    ID and makes it run boot_ap.S, whatever it did before. *)
Definition boot_step (s : smp) : option smp :=
  match boot_pc s with
  | BLoop i =>
      Some (boot_goto (if negb (i <? ncpus) then BEnd else if i =? boot then BLoop (i + 1) else BStack i) s)
  | BStack i =>
      v ← rsp0_of (cpu_tss (sg s)) i;
      Some (SmpState v (status s) (sg s) (stack s) (BStartup i) (ap_pc s))
  | BStartup i => Some (boot_goto (BWait i) (goto (cpu_id i) AReset s))
  | BWait i => if status s i =? CPU_STARTED then Some (boot_goto (BLoop (i + 1)) s) else Some s
  | BEnd => None
  end.

(** A call on the segment tables; a fault stops the CPU. *)
Definition seg_call (c : Z) (op : M segs unit) (next : apc) (s : smp) : option smp :=
  match op (sg s) with
  | OK _ g => Some (goto c next (set_sg g s))
  | Stop _ _ => None
  end.

(** A step of CPU [c]; [sched_yield] at the end is not part of the start-up. *)
Definition ap_step (c : Z) (s : smp) : option smp :=
  match ap_pc s c with
  | AOff => None
  | AReset => Some (goto c AStack s)
  | AStack => Some (goto c ALapic
      (SmpState (mpentry_kstack s) (status s) (sg s) (upd c (Some (mpentry_kstack s)) (stack s)) (boot_pc s) (ap_pc s)))
  | ALapic => Some (goto c AGdt s)
  | AGdt => seg_call c (write_tss_entry (cpu_at c + off_cpu_tss)) AGdtLoad s
  | AGdtLoad => seg_call c (load_gdt (cpu_at c) GDT_KCODE GDT_KDATA) AGdtSel s
  | AGdtSel => seg_call c (load_task_sel (cpu_at c) GDT_TSS0) AIdt s
  | AIdt => seg_call c (idt_init_mp (cpu_at c)) AKmem s
  | AKmem => Some (goto c ASched s)
  | ASched => Some (goto c ANotify s)
  | ANotify => Some (goto c ARun
      (SmpState (mpentry_kstack s) (upd c CPU_STARTED (status s)) (sg s) (stack s) (boot_pc s) (ap_pc s)))
  | ARun => None
  end.

Inductive smp_step : smp → smp → Prop :=
  | boot_moves s s' : boot_step s = Some s' → smp_step s s'
  | ap_moves c s s' : ap_step c s = Some s' → smp_step s s'.

(** The three steps of [AGdt] are [gdt_init_mp]. *)
Lemma gdt_init_mp_steps c g : gdt_init_mp (cpu_at c) g =
  (write_tss_entry (cpu_at c + off_cpu_tss);; load_gdt (cpu_at c) GDT_KCODE GDT_KDATA;; load_task_sel (cpu_at c) GDT_TSS0) g.
Proof. done. Qed.

(** ** What each call on the segment tables does *)

(** The descriptor of the TSS in the table is the one of [c], and available. *)
Definition gdt_for (c : Z) (g : segs) : Prop := ∃ w w', gdt_entries g = take 5 gdt_entries0 ++ [w; w'] ∧ 0 ≤ w' ∧
  sys_base w w' = cpu_at c + off_cpu_tss ∧ seg_limit w = sizeof_tss ∧ seg_present w = true ∧ seg_user w = false ∧ seg_type w = GDT_TSS64.

Lemma write_tss_spec c g : gdt_ok g → 0 ≤ cpu_at c + off_cpu_tss < 2 ^ 64 →
  wp (write_tss_entry (cpu_at c + off_cpu_tss)) (λ _ g', gdt_for c g' ∧ cpu_tss g' = cpu_tss g ∧ regs g' = regs g) g.
Proof.
  intros (w & w' & Eg & Hw') Hc. unfold write_tss_entry, gdt_at. wp_step. eapply wp_deref; [by rewrite Eg|]. cbv beta.
  pose proof (tss_entry_decodes (cpu_at c + off_cpu_tss) w' Hc Hw') as Hd. destruct (set_tss_entry _ _) as [v v'].
  destruct Hd as (Eb & El & Ep & Eu & Et & Hv'). wp_step. rewrite Eg. split; [|done]. by exists v, v'.
Qed.

Lemma load_gdt_spec c g r : gdt_for c g → regs g !! cpu_at c = Some r →
  wp (load_gdt (cpu_at c) GDT_KCODE GDT_KDATA) (λ _ g', gdt_for c g' ∧ cpu_tss g' = cpu_tss g ∧
    ∃ r', regs g' = <[cpu_at c := r']> (regs g)) g.
Proof.
  intros (w & w' & Eg & Hd) Hr. unfold load_gdt. wp_step. wp_step. wp_step.
  unfold upd_regs at 1. wp_step. eapply wp_deref; [exact Hr|]. wp_step. unfold gdt_at. wp_step.
  eapply wp_deref; [cbn; by rewrite Eg|]. wp_step. eapply wp_deref; [cbn; by rewrite Eg|]. wp_step.
  match goal with |- wp (if ?b then _ else _) _ _ => change b with true end. cbv iota. wp_step.
  unfold upd_regs at 1. wp_step. eapply wp_deref; [cbn; apply lookup_insert_eq|]. wp_step.
  split; [by exists w, w'|]. split; [done|]. eexists. cbn. by rewrite insert_insert_eq.
Qed.

Lemma load_sel_spec c g r : gdt_for c g → regs g !! cpu_at c = Some r →
  wp (load_task_sel (cpu_at c) GDT_TSS0) (λ _ g', gdt_ok g' ∧ cpu_tss g' = cpu_tss g ∧
    ∃ r', regs g' = <[cpu_at c := r']> (regs g) ∧ tr_base r' = cpu_at c + off_cpu_tss) g.
Proof.
  intros (w & w' & Eg & Hw' & Eb & El & Ep & Eu & Et) Hr. unfold load_task_sel, gdt_at. wp_step.
  eapply wp_deref; [by rewrite Eg|]. wp_step. eapply wp_deref; [by rewrite Eg|].
  rewrite Ep, Eu, Et. cbn [negb andb]. rewrite Z.eqb_refl. wp_step. wp_step. wp_step. wp_step. rewrite Eg.
  unfold upd_regs. wp_step. eapply wp_deref; [exact Hr|]. wp_step. rewrite Eb, El.
  split; [by exists (Z.lor w (2 ^ 41)), w'|]. split; [done|]. by eexists.
Qed.

Lemma idt_init_mp_spec c g r : gdt_ok g → regs g !! cpu_at c = Some r →
  wp (idt_init_mp (cpu_at c)) (λ _ g', gdt_ok g' ∧ cpu_tss g' = cpu_tss g ∧
    ∃ r', regs g' = <[cpu_at c := r']> (regs g) ∧ tr_base r' = tr_base r) g.
Proof.
  intros Hg Hr. unfold idt_init_mp, load_idt, upd_regs. wp_step. wp_step. wp_step. eapply wp_deref; [exact Hr|]. wp_step.
  split; [done|]. split; [done|]. by eexists.
Qed.

(** ** The invariant *)

(** The machine: the CPUs are numbered from 0, the ACPI number of each is its
    APIC ID, each has a TSS with a stack, and the array [cpus] lies in memory. *)
Record smp_ok (T : gmap Z tss) : Prop := {
  so_ncpus : 0 ≤ ncpus;
  so_ids c : 0 ≤ c < ncpus → cpu_id c = c;
  so_stack c : 0 ≤ c < ncpus → is_Some (rsp0_of T c);
  so_size : 0 < sizeof_cpuinfo;
  so_addr c : 0 ≤ c < ncpus → 0 ≤ cpu_at c + off_cpu_tss < 2 ^ 64;
}.

(** CPU [c] uses its own TSS. *)
Definition own_tss (g : segs) (c : Z) : Prop := ∃ r, regs g !! cpu_at c = Some r ∧ tr_base r = cpu_at c + off_cpu_tss.

(** CPU [c] at [p]: it has notified the boot CPU at the end only; it has its
    own stack, the table has its TSS between [AGdt] and [AGdtSel], and from then
    on it uses that. *)
Definition ap_ok (T : gmap Z tss) (s : smp) (c : Z) (p : apc) : Prop :=
  (status s c = CPU_STARTED ↔ p = ARun) ∧
  match p with
  | AOff => False
  | AReset | AStack => gdt_ok (sg s)
  | ALapic | AGdt => gdt_ok (sg s) ∧ stack s c = rsp0_of T c
  | AGdtLoad | AGdtSel => gdt_for c (sg s) ∧ stack s c = rsp0_of T c
  | AIdt | AKmem | ASched | ANotify | ARun => gdt_ok (sg s) ∧ stack s c = rsp0_of T c ∧ own_tss (sg s) c
  end.

(** The CPU that is being started, if there is one. *)
Definition turn (p : bpc) : option Z := match p with BWait i => Some i | _ => None end.
(** The CPUs before this one are done. *)
Definition upto (p : bpc) : Z := match p with BLoop i | BStack i | BStartup i | BWait i => i | BEnd => ncpus end.

Record smp_inv (T : gmap Z tss) (s : smp) : Prop := {
  sm_tss : cpu_tss (sg s) = T;
  sm_regs c : 0 ≤ c < ncpus → is_Some (regs (sg s) !! cpu_at c);
  sm_upto : 0 ≤ upto (boot_pc s) ≤ ncpus;
  sm_done c : 0 ≤ c < upto (boot_pc s) → c < ncpus → c ≠ boot → ap_pc s c = ARun ∧ stack s c = rsp0_of T c ∧ own_tss (sg s) c;
  sm_off c : turn (boot_pc s) ≠ Some c → c < 0 ∨ upto (boot_pc s) ≤ c ∨ ncpus ≤ c ∨ c = boot → ap_pc s c = AOff;
  sm_status c : upto (boot_pc s) ≤ c → turn (boot_pc s) ≠ Some c → c ≠ boot → status s c ≠ CPU_STARTED;
  sm_boot : match boot_pc s with
    | BLoop i => gdt_ok (sg s)
    | BStack i => gdt_ok (sg s) ∧ i < ncpus ∧ i ≠ boot
    | BStartup i => gdt_ok (sg s) ∧ i < ncpus ∧ i ≠ boot ∧ Some (mpentry_kstack s) = rsp0_of T i
    | BWait i => i < ncpus ∧ i ≠ boot ∧ Some (mpentry_kstack s) = rsp0_of T i ∧ ap_ok T s i (ap_pc s i)
    | BEnd => gdt_ok (sg s)
    end;
}.

Definition smp_initial (T : gmap Z tss) (s : smp) : Prop :=
  boot_pc s = BLoop 0 ∧ (∀ c, ap_pc s c = AOff) ∧ (∀ c, c ≠ boot → status s c ≠ CPU_STARTED) ∧
  gdt_ok (sg s) ∧ cpu_tss (sg s) = T ∧ ∀ c, 0 ≤ c < ncpus → is_Some (regs (sg s) !! cpu_at c).

Section proofs.
Context (T : gmap Z tss) (Hok : smp_ok T).

Lemma cpu_at_inj c d : cpu_at c = cpu_at d → c = d.
Proof. unfold cpu_at. pose proof (so_size _ Hok). nia. Qed.

Lemma smp_inv_start s : smp_initial T s → smp_inv T s.
Proof.
  intros (Eb & Ha & Hs & Hg & Et & Hr). split; rewrite ?Eb; cbn [turn upto]; try done; auto; pose proof (so_ncpus _ Hok); lia.
Qed.

Lemma upd_eq {A} c (x : A) f : upd c x f c = x.
Proof. unfold upd. by rewrite decide_True. Qed.
Lemma upd_ne {A} c d (x : A) f : d ≠ c → upd c x f d = f d.
Proof. intros. unfold upd. by rewrite decide_False. Qed.

(** A CPU that is neither off nor scheduling is the one being started. *)
Lemma active_turn s c : smp_inv T s → ap_pc s c ≠ AOff → ap_pc s c ≠ ARun → boot_pc s = BWait c.
Proof.
  intros Hi H1 H2. destruct (decide (turn (boot_pc s) = Some c)) as [E|E].
  - destruct (boot_pc s); simpl in E; congruence.
  - exfalso. destruct (decide (c < 0 ∨ upto (boot_pc s) ≤ c ∨ ncpus ≤ c ∨ c = boot)) as [Hc|Hc].
    + apply H1. by eapply sm_off.
    + apply H2. eapply sm_done; [done|lia..].
Qed.

Lemma boot_step_inv s s' : smp_inv T s → boot_step s = Some s' → smp_inv T s'.
Proof.
  intros [Et Hr Hu Hd Ho Hst Hb] E. unfold boot_step in E. destruct (boot_pc s) as [i|i|i|i|] eqn:Ep; cbn [turn upto] in *.
  - injection E as <-. destruct (i <? ncpus) eqn:El; [apply Z.ltb_lt in El|apply Z.ltb_ge in El]; cbn [negb].
    + destruct (i =? boot) eqn:Eb; [apply Z.eqb_eq in Eb|apply Z.eqb_neq in Eb].
      * split; cbn; try done; try lia; intros c ?; [intros; apply Hd; lia|intros ?; apply Ho; [done|lia]|intros ??; apply Hst; [lia|done|done]].
      * by split.
    + split; cbn; try done; try lia; intros c ?; [intros; apply Hd; lia|intros ?; apply Ho; [done|lia]|intros ??; apply Hst; [lia|done|done]].
  - destruct Hb as (Hg & Hi & Hib). rewrite Et in E. destruct (rsp0_of T i) as [v|] eqn:Ev; [|done]. injection E as <-.
    by split.
  - destruct Hb as (Hg & Hi & Hib & Hk). injection E as <-. rewrite (so_ids _ Hok i) by lia.
    split; cbn; try done.
    + intros c Hc ? ?. rewrite upd_ne by lia. by apply Hd.
    + intros c Hc Hc'. rewrite upd_ne by congruence. by apply Ho.
    + intros c Hc Hc' ?. by apply Hst.
    + split_and!; [done..|]. rewrite upd_eq. split; [|done]. split; [|done]. intros Hs. by destruct (Hst i).
  - destruct Hb as (Hi & Hib & Hk & Ha). destruct (status s i =? CPU_STARTED) eqn:Es; [|injection E as <-; by split; rewrite ?Ep].
    apply Z.eqb_eq in Es. injection E as <-. destruct Ha as [[Hrun _] Ha]. rewrite (Hrun Es) in Ha.
    split; cbn; try done; [lia|..|by apply Ha].
    + intros c Hc ? ?. destruct (decide (c = i)) as [->|]; [split; [by apply Hrun|apply Ha]|apply Hd; lia].
    + intros c _ Hc. apply Ho; [intros [= ->]; lia|lia].
    + intros c Hc _ ?. apply Hst; [lia|intros [= ->]; lia|done].
  - done.
Qed.

(** A step of the CPU that is being started changes nothing of the others. *)
Lemma ap_change s s' c p : smp_inv T s → boot_pc s = BWait c →
  boot_pc s' = boot_pc s → mpentry_kstack s' = mpentry_kstack s → ap_pc s' = upd c p (ap_pc s) →
  (∀ d, d ≠ c → status s' d = status s d ∧ stack s' d = stack s d) → cpu_tss (sg s') = cpu_tss (sg s) →
  (∃ r, regs (sg s') = <[cpu_at c := r]> (regs (sg s))) → ap_ok T s' c p → smp_inv T s'.
Proof.
  intros [Et Hr Hu Hd Ho Hst Hb] Ep Eb Ek Ea Hs Ett [r Er] Hp. rewrite Ep in *. cbn [turn upto] in *. destruct Hb as (Hi & Hib & Hk & _).
  split; rewrite ?Eb, ?Ea, ?Er; cbn [turn upto]; [congruence| |done|..].
  - intros d Hd'. destruct (decide (d = c)) as [->|Hne]; [rewrite lookup_insert_eq; by eexists|].
    rewrite lookup_insert_ne; [by apply Hr|]. intros E%cpu_at_inj. done.
  - intros d H1 H2 H3. assert (d ≠ c) as Hne by lia. rewrite upd_ne by done. destruct (Hs d Hne) as [_ ->].
    destruct (Hd d H1 H2 H3) as (Hrun & Est & (x & Hx & Ex)). split_and!; [done|done|]. exists x. split; [|done].
    rewrite Er. rewrite lookup_insert_ne; [done|]. intros E%cpu_at_inj. done.
  - intros d H1 H2. rewrite upd_ne by congruence. by apply Ho.
  - intros d H1 H2 H3. assert (d ≠ c) as Hne by congruence. destruct (Hs d Hne) as [-> _]. by apply Hst.
  - rewrite upd_eq, Ek. done.
Qed.

(** [seg_call] when the call is known to return. *)
Lemma seg_call_spec c op next s s' (Q : segs → Prop) : wp op (λ _, Q) (sg s) → seg_call c op next s = Some s' →
  ∃ g, s' = goto c next (set_sg g s) ∧ Q g.
Proof. unfold seg_call, wp. destruct (op (sg s)) as [[] g|]; [|done]. intros HQ [= <-]. by exists g. Qed.

Lemma ap_step_inv c s s' : smp_inv T s → ap_step c s = Some s' → smp_inv T s'.
Proof.
  intros Hi E. assert (ap_pc s c ≠ AOff ∧ ap_pc s c ≠ ARun) as [H1 H2] by (split; intros Ea; unfold ap_step in E; by rewrite Ea in E).
  pose proof (active_turn s c Hi H1 H2) as Ep. pose proof (sm_boot _ _ Hi) as Hb. rewrite Ep in Hb.
  destruct Hb as (Hlt & Hcb & Hk & [Hst Ha]). pose proof (sm_upto _ _ Hi) as Hu. rewrite Ep in Hu. cbn [upto] in Hu.
  destruct (sm_regs _ _ Hi c) as [r Hr]; [lia|]. pose proof (so_addr _ Hok c ltac:(lia)) as Haddr.
  assert (∃ r, regs (sg s) = <[cpu_at c := r]> (regs (sg s))) as Hsame by (exists r; by rewrite insert_id).
  unfold ap_step in E. destruct (ap_pc s c) eqn:Ea; try done.
  - injection E as <-. eapply (ap_change s _ c); try done. split; [|done]. naive_solver.
  - injection E as <-. eapply (ap_change s _ c); try done; [intros d Hd; split; [done|by apply upd_ne]|].
    split; [naive_solver|]. split; [done|]. cbn. by rewrite upd_eq.
  - injection E as <-. eapply (ap_change s _ c); try done. split; [naive_solver|done].
  - destruct Ha as [Hg Hs]. apply (seg_call_spec _ _ _ _ _ _ (write_tss_spec c (sg s) Hg Haddr)) in E as (g & -> & Hg' & Et & Er).
    eapply (ap_change s _ c); try done; [by cbn; rewrite Er|]. split; [naive_solver|done].
  - destruct Ha as [Hg Hs]. apply (seg_call_spec _ _ _ _ _ _ (load_gdt_spec c (sg s) r Hg Hr)) in E as (g & -> & Hg' & Et & Er).
    eapply (ap_change s _ c); try done. split; [naive_solver|done].
  - destruct Ha as [Hg Hs]. apply (seg_call_spec _ _ _ _ _ _ (load_sel_spec c (sg s) r Hg Hr)) in E as (g & -> & Hg' & Et & r' & Er & Eb).
    eapply (ap_change s _ c); try done; [by exists r'|]. split; [naive_solver|]. split_and!; [done|done|].
    exists r'. cbn. by rewrite Er, lookup_insert_eq.
  - destruct Ha as (Hg & Hs & (x & Hx & Ex)).
    apply (seg_call_spec _ _ _ _ _ _ (idt_init_mp_spec c (sg s) x Hg Hx)) in E as (g & -> & Hg' & Et & r' & Er & Eb).
    eapply (ap_change s _ c); try done; [by exists r'|]. split; [naive_solver|]. split_and!; [done|done|].
    exists r'. cbn. rewrite Er, lookup_insert_eq. split; [done|congruence].
  - injection E as <-. eapply (ap_change s _ c); try done. split; [naive_solver|done].
  - injection E as <-. eapply (ap_change s _ c); try done. split; [naive_solver|done].
  - injection E as <-. eapply (ap_change s _ c); try done; [intros d Hd; split; [by apply upd_ne|done]|].
    split; [cbn; rewrite upd_eq; naive_solver|done].
Qed.

Lemma smp_reachable_inv s s' : smp_inv T s → rtc smp_step s s' → smp_inv T s'.
Proof. intros Hi Hr. revert Hi. induction Hr as [|s1 s2 s3 [] _ IH]; intros Hi; [done|eauto using boot_step_inv|eauto using ap_step_inv]. Qed.

(** ** Progress *)

Definition progress (p : apc) : Z :=
  match p with
  | AOff | AReset => 0 | AStack => 1 | ALapic => 2 | AGdt => 3 | AGdtLoad => 4 | AGdtSel => 5 | AIdt => 6 | AKmem => 7
  | ASched => 8 | ANotify => 9 | ARun => 10
  end.

(** The steps left, at most. *)
Definition rank (s : smp) : Z :=
  match boot_pc s with
  | BLoop i => 20 * (ncpus - i) + 1
  | BStack i => 20 * (ncpus - i)
  | BStartup i => 20 * (ncpus - i) - 1
  | BWait i => 20 * (ncpus - i) - 2 - progress (ap_pc s i)
  | BEnd => 0
  end.

Lemma boot_step_rank s s' : smp_inv T s → boot_step s = Some s' → s' = s ∨ 0 ≤ rank s' < rank s.
Proof.
  intros [Et _ Hu _ _ _ Hb] E. unfold boot_step, rank in *. destruct (boot_pc s) as [i|i|i|i|] eqn:Ep; cbn [upto] in *.
  - injection E as <-. right. cbn. destruct (i <? ncpus) eqn:El; [apply Z.ltb_lt in El|apply Z.ltb_ge in El]; cbn [negb]; [|lia].
    destruct (i =? boot); lia.
  - destruct (rsp0_of _ i); [|done]. injection E as <-. right. cbn. lia.
  - injection E as <-. right. cbn. rewrite (so_ids _ Hok i), upd_eq by lia. cbn. lia.
  - destruct (status s i =? CPU_STARTED) eqn:Es; [|injection E as <-; by left]. injection E as <-. right. cbn.
    destruct Hb as (Hlt & _ & _ & [[Hrun _] _]). apply Z.eqb_eq in Es. rewrite (Hrun Es). cbn. lia.
  - done.
Qed.

Lemma ap_step_next c s s' : ap_step c s = Some s' → boot_pc s' = boot_pc s ∧
  ap_pc s c ≠ AOff ∧ ap_pc s c ≠ ARun ∧ progress (ap_pc s' c) = progress (ap_pc s c) + 1 ∧ progress (ap_pc s c) < 10.
Proof.
  unfold ap_step, seg_call. destruct (ap_pc s c) eqn:Ea; intros E; try done;
    repeat match type of E with (match ?o with _ => _ end) = _ => destruct o; [|done] end;
    injection E as <-; cbn; rewrite upd_eq; done.
Qed.

Lemma ap_step_rank c s s' : smp_inv T s → ap_step c s = Some s' → 0 ≤ rank s' < rank s.
Proof.
  intros Hi E. destruct (ap_step_next c s s' E) as (Eb & H1 & H2 & Epr & Hlt).
  pose proof (active_turn s c Hi H1 H2) as Ep. unfold rank. rewrite Eb, Ep. pose proof (sm_boot _ _ Hi) as Hb. rewrite Ep in Hb. lia.
Qed.

(** The CPU that is being started can always take its next step. *)
Lemma ap_can_move s c : smp_inv T s → boot_pc s = BWait c → ap_pc s c ≠ ARun → is_Some (ap_step c s).
Proof.
  intros Hi Ep Hrun. pose proof (sm_boot _ _ Hi) as Hb. rewrite Ep in Hb. destruct Hb as (Hlt & _ & _ & [_ Ha]).
  pose proof (sm_upto _ _ Hi) as Hu. rewrite Ep in Hu. cbn [upto] in Hu. destruct (sm_regs _ _ Hi c) as [r Hr]; [lia|].
  pose proof (so_addr _ Hok c ltac:(lia)) as Haddr.
  assert (∀ op next Q, wp op Q (sg s) → is_Some (seg_call c op next s)) as Hcall.
  { intros op next Q. unfold seg_call, wp. destruct (op (sg s)); [by eexists|done]. }
  unfold ap_step. destruct (ap_pc s c); try done; try (by eexists).
  - eapply Hcall, write_tss_spec; [apply Ha|done].
  - eapply Hcall, load_gdt_spec; [apply Ha|done].
  - eapply Hcall, load_sel_spec; [apply Ha|done].
  - eapply Hcall, idt_init_mp_spec; [apply Ha|done].
Qed.

Lemma smp_can_move s : smp_inv T s → boot_pc s ≠ BEnd → ∃ s', smp_step s s' ∧ 0 ≤ rank s' < rank s.
Proof.
  intros Hi Hne.
  assert (∀ s', boot_step s = Some s' → s' ≠ s → ∃ s', smp_step s s' ∧ 0 ≤ rank s' < rank s) as Hboot.
  { intros s' E Hs. exists s'. split; [by apply boot_moves|]. by destruct (boot_step_rank s s' Hi E). }
  assert (∀ p s1, boot_pc s1 ≠ boot_pc s → boot_pc s1 = p → s1 ≠ s) as Hdiff by congruence.
  unfold boot_step in Hboot. pose proof (sm_boot _ _ Hi) as Hb. pose proof (sm_upto _ _ Hi) as Hu.
  destruct (boot_pc s) as [i|i|i|i|] eqn:Ep; cbn [upto] in *; [..|done].
  - eapply Hboot; [reflexivity|]. eapply Hdiff; [|reflexivity]. cbn. destruct (i <? ncpus); [|done]. cbn. destruct (i =? boot); [|done]. intros [= ?]. lia.
  - destruct Hb as (_ & Hlt & _). destruct (so_stack _ Hok i) as [v Ev]; [lia|]. eapply Hboot; [rewrite (sm_tss _ _ Hi), Ev; reflexivity|]. eapply Hdiff; [|reflexivity]. done.
  - eapply Hboot; [reflexivity|]. eapply Hdiff; [|reflexivity]. done.
  - destruct (decide (ap_pc s i = ARun)) as [Erun|Erun].
    + destruct Hb as (_ & _ & _ & [[_ Hs] _]). rewrite (Hs Erun) in Hboot. eapply Hboot; [reflexivity|]. eapply Hdiff; [|reflexivity].
      cbn. done.
    + destruct (ap_can_move s i Hi Ep Erun) as [s' E]. exists s'. split; [by eapply ap_moves|by eapply ap_step_rank].
Qed.
End proofs.

(** Nobody wakes CPU [c]: no other CPU has its APIC ID for a number. *)
Definition never_woken (c : Z) : Prop := ∀ j, 0 ≤ j < ncpus → j ≠ boot → cpu_id j ≠ c.

Definition hanging (c : Z) (s : smp) : Prop :=
  ap_pc s c = AOff ∧ status s c ≠ CPU_STARTED ∧ 0 ≤ upto (boot_pc s) ≤ c ∧
  match boot_pc s with BStack i | BStartup i => i ≠ boot | BEnd => False | _ => True end.

Lemma hang_step c s s' : never_woken c → 0 ≤ c < ncpus → c ≠ boot → hanging c s → smp_step s s' → hanging c s'.
Proof.
  intros Hw Hc Hcb (Ha & Hs & Hu & Hb) Hst. unfold hanging. inversion Hst as [? ? E|d ? ? E]; subst; clear Hst.
  - unfold boot_step in E. destruct (boot_pc s) as [i|i|i|i|] eqn:Ep; cbn [upto] in *; [..|done].
    + injection E as <-. cbn. rewrite (proj2 (Z.ltb_lt _ _)) by lia. cbn.
      destruct (i =? boot) eqn:Eb; [apply Z.eqb_eq in Eb|apply Z.eqb_neq in Eb]; cbn; split_and!; (done || lia).
    + destruct (rsp0_of _ i); [|done]. by injection E as <-.
    + injection E as <-. cbn. rewrite upd_ne; [split_and!; (done || lia)|]. intros E. apply (Hw i); (done || lia).
    + destruct (status s i =? CPU_STARTED) eqn:Es; injection E as <-; [|by rewrite Ep].
      apply Z.eqb_eq in Es. cbn. assert (i ≠ c) by congruence. split_and!; (done || lia).
  - assert (d ≠ c) as Hd by (intros ->; unfold ap_step in E; by rewrite Ha in E).
    unfold ap_step, seg_call in E. destruct (ap_pc s d) eqn:Ed; try done;
      repeat match type of E with (match ?o with _ => _ end) = _ => destruct o; [|done] end;
      injection E as <-; cbn; rewrite ?upd_ne by done; done.
Qed.
End smp.

(** ** The theorems *)

(** A CPU between its reset and its notification. *)
Definition setting_up (p : apc) : Prop := p ≠ AOff ∧ p ≠ ARun.
(** The stack is loaded; the task register is loaded. *)
Definition has_stack (p : apc) : Prop := p ∉ [AOff; AReset; AStack].
Definition has_tss (p : apc) : Prop := p ∈ [AIdt; AKmem; ASched; ANotify; ARun].

(** C7 (safety).  Whatever the speed of the CPUs: never is more than one of them
    on the temporary boot stack or at work on the shared descriptor table; a CPU
    that has loaded its stack pointer has taken the stack of its own task state
    segment, and a CPU that has loaded its task register uses its own task state
    segment; when [boot_cpus] is through, all CPUs are scheduling. *)
Theorem smp_startup_safe `{SegLayout} `{CpuLayout} ncpus boot cpu_id T s s' :
  smp_ok ncpus cpu_id T → smp_initial ncpus boot T s → rtc (smp_step ncpus boot cpu_id) s s' →
  (∀ c d, setting_up (ap_pc s' c) → setting_up (ap_pc s' d) → c = d) ∧
  (∀ c, has_stack (ap_pc s' c) → is_Some (stack s' c) ∧ stack s' c = rsp0_of T c) ∧
  (∀ c, has_tss (ap_pc s' c) → own_tss (sg s') c) ∧
  (boot_pc s' = BEnd → ∀ c, 0 ≤ c < ncpus → c ≠ boot → ap_pc s' c = ARun).
Proof.
  intros Hok Hini Hr. pose proof (smp_reachable_inv _ _ _ T Hok s s' (smp_inv_start _ _ _ T Hok s Hini) Hr) as Hi. clear Hini Hr.
  assert (∀ c, ap_pc s' c ≠ AOff → 0 ≤ c < ncpus ∧ (ap_pc s' c = ARun ∧ stack s' c = rsp0_of T c ∧ own_tss (sg s') c ∨
    boot_pc s' = BWait c ∧ ap_ok T s' c (ap_pc s' c))) as Hap.
  { intros c Hc. pose proof (sm_upto _ _ _ _ Hi) as Hu. destruct (decide (turn (boot_pc s') = Some c)) as [E|E].
    - destruct (boot_pc s') as [i|i|i|i|] eqn:Ep; simpl in E; try done. injection E as ->. pose proof (sm_boot _ _ _ _ Hi) as Hb.
      rewrite Ep in Hb. cbn [upto] in Hu. split; [lia|]. right. split; [done|apply Hb].
    - destruct (decide (c < 0 ∨ upto ncpus (boot_pc s') ≤ c ∨ ncpus ≤ c ∨ c = boot)) as [Ho|Ho].
      { destruct Hc. by apply (sm_off _ _ _ _ Hi). }
      split; [lia|]. left. apply (sm_done _ _ _ _ Hi); lia. }
  split_and!.
  - intros c d [Hc Hc'] [Hd Hd']. pose proof (active_turn ncpus boot T s' c Hi Hc Hc'). pose proof (active_turn ncpus boot T s' d Hi Hd Hd'). congruence.
  - intros c Hc. assert (ap_pc s' c ≠ AOff) as Hoff by (intros E; rewrite E in Hc; by apply Hc; left).
    destruct (Hap c Hoff) as [Hlt Hor]. destruct (so_stack _ _ _ Hok c Hlt) as [v Ev].
    assert (stack s' c = rsp0_of T c) as Es; [|split; [rewrite Es, Ev; by eexists|done]].
    destruct Hor as [(_ & Es & _)|(_ & _ & Ha)]; [done|]. unfold has_stack in Hc. destruct (ap_pc s' c); naive_solver set_solver.
  - intros c Hc. assert (ap_pc s' c ≠ AOff) as Hoff by (intros E; rewrite E in Hc; unfold has_tss in Hc; set_solver).
    destruct (Hap c Hoff) as [_ [(_ & _ & Ho)|(_ & _ & Ha)]]; [done|]. unfold has_tss in Hc. destruct (ap_pc s' c); naive_solver set_solver.
  - intros Eb c Hc Hcb. apply (sm_done _ _ _ _ Hi); [rewrite Eb; done|lia|done].
Qed.

(** C36 (termination).  The start-up cannot get stuck or run for ever: as long as
    the boot CPU is in [boot_cpus], some CPU can take a step that brings the end
    nearer, every other step leaves the state as it is (the boot CPU waits), and
    there are at most [20 ncpus + 1] such steps. *)
Theorem smp_startup_ends `{SegLayout} `{CpuLayout} ncpus boot cpu_id T s s' :
  smp_ok ncpus cpu_id T → smp_initial ncpus boot T s → rtc (smp_step ncpus boot cpu_id) s s' →
  rank ncpus s = 20 * ncpus + 1 ∧
  (∀ s2, smp_step ncpus boot cpu_id s' s2 → s2 = s' ∨ 0 ≤ rank ncpus s2 < rank ncpus s') ∧
  (boot_pc s' ≠ BEnd → ∃ s2, smp_step ncpus boot cpu_id s' s2 ∧ 0 ≤ rank ncpus s2 < rank ncpus s').
Proof.
  intros Hok Hini Hr. pose proof (smp_reachable_inv _ _ _ T Hok s s' (smp_inv_start _ _ _ T Hok s Hini) Hr) as Hi. split_and!.
  - destruct Hini as [E _]. unfold rank. rewrite E. lia.
  - intros s2 Hs. inversion Hs as [? ? E|c ? ? E]; subst; [by apply (boot_step_rank ncpus boot cpu_id T)|right; by apply (ap_step_rank ncpus boot T c)].
  - by apply (smp_can_move ncpus boot cpu_id T).
Qed.

(** C40 (error).  [lapic_startup] is given the ACPI number of a CPU where the APIC
    ID is needed: if no CPU has the number that is the APIC ID of CPU [c], as on
    a machine that numbers its CPUs from 1, nobody wakes [c] and the boot CPU
    waits for it for ever.  *)
Theorem smp_startup_hangs `{SegLayout} `{CpuLayout} ncpus boot cpu_id T s s' c :
  smp_initial ncpus boot T s → 0 ≤ c < ncpus → c ≠ boot → never_woken ncpus boot cpu_id c → rtc (smp_step ncpus boot cpu_id) s s' →
  boot_pc s' ≠ BEnd ∧ ap_pc s' c = AOff.
Proof.
  intros (Eb & Ha & Hs & _) Hc Hcb Hw Hr.
  assert (hanging ncpus boot c s) as Hpre.
  { unfold hanging. rewrite Eb. cbn. split_and!; [done|by apply Hs|lia|lia|done]. }
  assert (hanging ncpus boot c s') as (? & _ & _ & Hb).
  { clear Eb Ha Hs. induction Hr as [|s1 s2 s3 H1 _ IH]; [done|]. apply IH. by eapply hang_step. }
  split; [|done]. intros E. by rewrite E in Hb.
Qed.

(** ** A machine with three CPUs *)

Definition smp_cpus : CpuLayout := {| cpus := 0xFFFF800000120000; sizeof_cpuinfo := 0x1000 |}.
Definition smp_tss (c : Z) : tss := Tss [0xFFFF900000000000 - c * 0x10000; 0; 0] (replicate 7 0) 0.
Definition smp_tsss : gmap Z tss := list_to_map ((λ c, (@cpu_at smp_cpus c, smp_tss c)) <$> [0; 1; 2]).
Definition smp_start : smp :=
  SmpState 0 (λ c, if c =? 0 then CPU_STARTED else 0)
    (Segs gdt_entries0 entries0 smp_tsss (list_to_map ((λ c, (@cpu_at smp_cpus c, regs0)) <$> [0; 1; 2]))) (λ _, None) (BLoop 0) (λ _, AOff).

Lemma smp_three c : 0 ≤ c < 3 → c = 0 ∨ c = 1 ∨ c = 2.
Proof. lia. Qed.
Lemma smp_demo_ok : @smp_ok smp_cpus 3 id smp_tsss.
Proof.
  split; [done|done| |done|]; intros c [-> | [-> | ->]]%smp_three; first [by eexists|by vm_compute].
Qed.
Lemma smp_demo_initial : @smp_initial smp_cpus 3 0 smp_tsss smp_start.
Proof.
  split; [done|]. split; [done|]. split; [intros c Hc; cbn; by rewrite (proj2 (Z.eqb_neq _ _))|]. split; [by exists 0, 0|]. split; [done|].
  intros c [-> | [-> | ->]]%smp_three; by eexists.
Qed.

(** Run the boot CPU, or CPU [c], [n] times. *)
Fixpoint smp_run (sched : list (option Z)) (s : smp) : option smp :=
  match sched with
  | [] => Some s
  | o :: sched =>
      s' ← (match o with None => @boot_step smp_cpus 3 0 id s | Some c => @ap_step demo_segs smp_cpus c s end);
      smp_run sched s'
  end.
Lemma smp_run_rtc l : ∀ s s', smp_run l s = Some s' → rtc (@smp_step demo_segs smp_cpus 3 0 id) s s'.
Proof.
  induction l as [|o l IH]; intros s s' E; cbn in E; [injection E as <-; apply rtc_refl|].
  destruct o as [c|]; [destruct (ap_step c s) as [s1|] eqn:E1|destruct (boot_step 3 0 id s) as [s1|] eqn:E1]; try done; cbn in E;
    (eapply rtc_l; [|by apply IH]); [by eapply ap_moves|by apply boot_moves].
Qed.

(** The first CPU has come up and the second one is in [gdt_init_mp]. *)
Definition smp_schedule : list (option Z) :=
  [None; None; None; None; Some 1; Some 1; None] ++ replicate 8 (Some 1) ++ [None; None; None; None; Some 2; Some 2; Some 2; Some 2].
Lemma smp_startup_safe_witness : ∃ s', smp_run smp_schedule smp_start = Some s' ∧
  ap_pc s' 1 = ARun ∧ ap_pc s' 2 = AGdtLoad ∧ stack s' 1 = Some 0xFFFF8FFFFFFF0000 ∧ stack s' 2 = Some 0xFFFF8FFFFFFE0000 ∧
  @own_tss smp_cpus (sg s') 1.
Proof.
  destruct (smp_run smp_schedule smp_start) as [s'|] eqn:E; [|by vm_compute in E]. exists s'.
  destruct (@smp_startup_safe demo_segs smp_cpus 3 0 id smp_tsss smp_start s' smp_demo_ok smp_demo_initial (smp_run_rtc _ _ _ E))
    as (_ & Hs & Ht & _).
  assert (ap_pc s' 1 = ARun ∧ ap_pc s' 2 = AGdtLoad) as [E1 E2] by (vm_compute in E; injection E as <-; by vm_compute).
  split; [reflexivity|]. split; [exact E1|]. split; [exact E2|]. split; [|split].
  - apply (Hs 1). rewrite E1. by apply (bool_decide_unpack _).
  - apply (Hs 2). rewrite E2. by apply (bool_decide_unpack _).
  - apply Ht. rewrite E1. by apply (bool_decide_unpack _).
Defined.

Lemma smp_startup_ends_witness : ∃ s2, @smp_step demo_segs smp_cpus 3 0 id smp_start s2 ∧ rank 3 s2 < 61.
Proof.
  destruct (@smp_startup_ends demo_segs smp_cpus 3 0 id smp_tsss smp_start smp_start smp_demo_ok smp_demo_initial (rtc_refl _ _))
    as (E & _ & Hm). destruct Hm as (s2 & Hs & _ & Hlt); [done|]. exists s2. split; [exact Hs|]. exact Hlt.
Defined.

(** The firmware numbers the CPUs from 1: CPU 1 gets nothing, CPU 2 is woken
    in its place. *)
Definition wrong_start : smp :=
  SmpState 0xFFFF8FFFFFFF0000 (status smp_start) (sg smp_start) (stack smp_start) (BWait 1) (upd 2 AReset (ap_pc smp_start)).
Lemma smp_startup_hangs_witness :
  rtc (@smp_step demo_segs smp_cpus 3 0 Z.succ) smp_start wrong_start ∧
  ∀ s', rtc (@smp_step demo_segs smp_cpus 3 0 Z.succ) smp_start s' → boot_pc s' ≠ BEnd ∧ ap_pc s' 1 = AOff.
Proof.
  split.
  - do 4 (eapply rtc_l; [apply boot_moves; reflexivity|]). apply rtc_refl.
  - intros s' Hr. apply (@smp_startup_hangs demo_segs smp_cpus 3 0 Z.succ smp_tsss smp_start s' 1 smp_demo_initial); [lia|lia| |exact Hr].
    intros j Hj Hj0. lia.
Defined.
