(* ===== verification/Migrate.v ===== *)
(** * Moving the page array (kernel/mem/buddy.c: [buddy_migrate])

    The boot code puts the [struct page_info]s where [boot_alloc] finds room and
    uses them through the direct map.  [pml4_setup] maps them at [KPAGES] as
    well; [buddy_migrate] rewrites the pointers of the free lists for that
    address, still working through the direct map, and from the loading of the
    new page table on the array is used at [KPAGES].  The theorem is that the
    allocator then finds the same free blocks there; a second one shows what the
    migration forgets. *)

From S2P Require Import Prelude LinkedList Paging Spinlock Buddy BuddyProofs MemInit BuddySpec.

Local Open Scope Z_scope.

Section migrate.
Context `{Layout}.

Definition in_page_range (p : Z) : M mem bool :=
  b ← gets pages;
  n ← gets npages;
  mret ((b <=? p) && (p <? u64 (b + n * sizeof_page_info))).

(** The message for one particular address is left out. *)
Definition update_ptr (p : Z) : M mem Z :=
  ok ← in_page_range p;
  if negb ok then mret p
  else b ← gets pages; mret (u64 (p + KPAGES - b)).

(** The body of the two loops. *)
Definition migrate_node (node : Z) : M mem unit :=
  p ← on_heap (get_next node);
  p ← update_ptr p;
  on_heap (set_next node p);;
  p ← on_heap (get_prev node);
  p ← update_ptr p;
  on_heap (set_prev node p).

Fixpoint migrate_loop (k : nat) (i : Z) (node_at : Z → M mem Z) : M mem unit :=
  match k with
  | O => mret tt
  | S k =>
      node ← node_at i;
      migrate_node node;;
      migrate_loop k (i + 1) node_at
  end.

Definition buddy_migrate : M mem unit :=
  n ← gets npages;
  migrate_loop (Z.to_nat n) 0 page_at;;
  migrate_loop (Z.to_nat BUDDY_MAX_ORDER) 0 (λ i, mret (free_list i));;
  modify (set_pages KPAGES).

(** ** The new mapping *)

(** What is found at addresses when the [n] structs at [old] can be used at
    [KPAGES], too.  (The old addresses are another name for the same memory,
    which the code does not use any more; what the new addresses named before
    is gone.) *)
Definition remap {A} (old n : Z) (m : gmap Z A) : gmap Z A :=
  kmap (Z.add (KPAGES - old)) (filter (λ x, old ≤ x.1 < old + n * sizeof_page_info) m) ∪
  filter (λ x, ¬ (KPAGES ≤ x.1 < KPAGES + n * sizeof_page_info)) m.
Definition remapped (old n : Z) (m : mem) : mem :=
  set_heap (remap old n (heap m)) (set_infos (remap old n (infos m)) m).

#[local] Instance add_inj k : Inj (=) (=) (Z.add k).
Proof. intros x y. lia. Qed.

Lemma remap_new {A} old n (m : gmap Z A) a : old ≤ a < old + n * sizeof_page_info →
  remap old n m !! (a + (KPAGES - old)) = m !! a.
Proof.
  intros Ha. unfold remap. rewrite lookup_union, (Z.add_comm a), lookup_kmap by apply _.
  replace (filter _ m !! (KPAGES - old + a)) with (@None A).
  - rewrite (right_id_L None _), map_lookup_filter. destruct (m !! a); simpl; [|done]. case_guard; [done|simpl in *; lia].
  - symmetry. apply map_lookup_filter_None. right. intros x _. simpl. lia.
Qed.

Lemma remap_old {A} old n (m : gmap Z A) a : a < KPAGES ∨ KPAGES + n * sizeof_page_info ≤ a → remap old n m !! a = m !! a.
Proof.
  intros Ha. unfold remap. rewrite lookup_union.
  replace (kmap _ _ !! a) with (@None A).
  { rewrite (left_id_L None _), map_lookup_filter. destruct (m !! a); simpl; [|done]. case_guard; [done|simpl in *; lia]. }
  symmetry.
  replace a with (KPAGES - old + (a - (KPAGES - old))) by lia. rewrite lookup_kmap by apply _. rewrite map_lookup_filter.
  destruct (m !! _); simpl; [|done]. case_guard; [lia|done].
Qed.

(** ** The pointers *)

Section proofs.
Context (base n : Z) (L : layout_ok base n) (L' : layout_ok KPAGES n).
Context (Hfit : base + n * sizeof_page_info ≤ KPAGES).

Definition move (p : Z) : Z := if (base <=? p) && (p <? base + n * sizeof_page_info) then p + (KPAGES - base) else p.
Definition move_node (x : node) : node := Node (move (next x)) (move (prev x)).

Lemma update_ptr_spec m p (Q : Z → mem → Prop) : pages m = base → npages m = n → Q (move p) m → wp (update_ptr p) Q m.
Proof.
  intros Eb En HQ. destruct L as [Hb Hn _ _ _ _ _]. unfold update_ptr, in_page_range. wp_step. wp_step. wp_step. wp_step. wp_step. wp_step.
  rewrite Eb, En. unfold sizeof_page_info in *.
  assert (KPAGES = 2 ^ 64 - 2 ^ 39) as Ek by done.
  unfold u64. rewrite (Z.mod_small (base + _)) by lia. unfold move in HQ. unfold sizeof_page_info in HQ.
  destruct ((base <=? p) && (p <? base + n * 72)) eqn:E; cbn [negb]; [|by wp_step].
  apply andb_true_iff in E as [E1%Z.leb_le E2%Z.ltb_lt]. wp_step. wp_step. rewrite Eb.
  rewrite Z.mod_small by lia. by replace (p + KPAGES - base) with (p + (KPAGES - base)) by lia.
Qed.

Lemma migrate_node_spec m a x (Q : unit → mem → Prop) : pages m = base → npages m = n → heap m !! a = Some x →
  Q tt (set_heap (<[a := move_node x]> (heap m)) m) → wp (migrate_node a) Q m.
Proof.
  intros Eb En Hx HQ. unfold migrate_node.
  assert (∀ h (m : mem), set_heap h (set_heap (heap m) m) = set_heap h m) as Hset by done.
  assert (set_heap (heap m) m = m) as Em by (by destruct m).
  wp_step. unfold on_heap at 1. wp_step. eapply wp_get_next; [unfold nx; by rewrite Hx|]. rewrite Em. wp_step. apply update_ptr_spec; [done..|].
  wp_step. unfold on_heap at 1. wp_step. apply wp_set_next; [by apply elem_of_dom|]. set (h1 := upd_next a _ _).
  assert (h1 !! a = Some (Node (move (next x)) (prev x))) as Hx1 by (unfold h1, upd_next; by rewrite lookup_alter_eq, Hx).
  wp_step. unfold on_heap at 1. wp_step. eapply wp_get_prev; [unfold pv; cbn; by rewrite Hx1|]. wp_step. apply update_ptr_spec; [done..|].
  unfold on_heap. wp_step. apply wp_set_prev; [apply elem_of_dom; by eexists|]. cbn.
  replace (upd_prev a (move (prev x)) h1) with (<[a := move_node x]> (heap m)); [exact HQ|].
  apply map_eq. intros b. unfold upd_prev. rewrite lookup_alter, lookup_insert.
  destruct (decide (a = b)) as [<-|Hne]; [by rewrite Hx1|]. unfold h1. by rewrite upd_next_ne.
Qed.

(** [h'] is [h] with the pointers of the nodes [l] moved. *)
Definition moved (l : list Z) (h h' : lheap) : Prop :=
  ∀ a, h' !! a = if decide (a ∈ l) then move_node <$> h !! a else h !! a.

Lemma moved_nil h : moved [] h h.
Proof. done. Qed.

Lemma migrate_loop_spec node_at (addr : Z → Z) k : ∀ i m (Q : unit → mem → Prop), pages m = base → npages m = n →
  (∀ j m' (P : Z → mem → Prop), pages m' = base → P (addr j) m' → wp (node_at j) P m') → Inj (=) (=) addr →
  (∀ j, i ≤ j < i + Z.of_nat k → is_Some (heap m !! addr j)) →
  (∀ h', moved (addr <$> seqZ i (Z.of_nat k)) (heap m) h' → Q tt (set_heap h' m)) →
  wp (migrate_loop k i node_at) Q m.
Proof.
  induction k as [|k IH]; intros i m Q Eb En Hat Hinj Hdom HQ; cbn [migrate_loop].
  { wp_step. replace m with (set_heap (heap m) m) by (by destruct m). apply HQ. done. }
  destruct (Hdom i) as [x Hx]; [lia|]. wp_step. apply Hat; [done|]. wp_step. eapply migrate_node_spec; [done|done|exact Hx|].
  apply IH; [done|done|done|done| |].
  - intros j Hj. cbn. rewrite lookup_insert_is_Some. destruct (decide (addr i = addr j)) as [E|E]; [by left|right].
    split; [done|apply Hdom; lia].
  - intros h' Hh'. cbn in Hh'. cbn. apply HQ. intros a. rewrite Hh'. rewrite (seqZ_cons i (Z.of_nat (S k))) by lia.
    replace (Z.pred (Z.of_nat (S k))) with (Z.of_nat k) by lia. replace (Z.succ i) with (i + 1) by lia. cbn [fmap list_fmap].
    destruct (decide (a = addr i)) as [->|Hne].
    + rewrite decide_False; [|intros (j & E & Hj%elem_of_seqZ)%list_elem_of_fmap; apply (inj addr) in E; lia].
      rewrite decide_True by (by left). by rewrite lookup_insert_eq, Hx.
    + rewrite lookup_insert_ne by done.
      destruct (decide (a ∈ addr <$> seqZ (i + 1) (Z.of_nat k))); [rewrite decide_True by (by right)|rewrite decide_False by set_solver]; done.
Qed.

(** ** The lists at the new place *)

Lemma move_pg i : 0 ≤ i < n → move (pg base i) = pg KPAGES i.
Proof.
  intros Hi. unfold move, pg, sizeof_page_info. rewrite (proj2 (Z.leb_le _ _)), (proj2 (Z.ltb_lt _ _)) by lia. simpl. lia.
Qed.
Lemma move_head o : 0 ≤ o < BUDDY_MAX_ORDER → move (free_list o) = free_list o.
Proof.
  intros Ho. destruct (layout_heads _ _ L o Ho) as [_ Hout]. unfold move, pg, sizeof_page_info in *.
  destruct Hout; [rewrite (proj2 (Z.leb_gt _ _)) by lia|rewrite (proj2 (Z.ltb_ge _ _)), andb_false_r by lia]; done.
Qed.

(** In [h2] the nodes of [l] are at their new addresses and point to them. *)
Definition at_new (h h2 : lheap) (l : list Z) : Prop := ∀ a, a ∈ l → h2 !! move a = move_node <$> h !! a.

Lemma chain_move h h2 l : at_new h h2 l → chain h l → chain h2 (move <$> l).
Proof.
  induction l as [|x l IH]; intros Hn Hc; [done|]. destruct l as [|y l]; [done|]. destruct Hc as [[Hx Hy] Hc].
  split; [|apply IH; [intros a Ha; apply Hn; by right|done]]. split.
  - rewrite (Hn x) by (by left). destruct (h !! x); [|done]. simpl in *. by injection Hx as <-.
  - rewrite (Hn y) by (right; by left). destruct (h !! y); [|done]. simpl in *. by injection Hy as <-.
Qed.

Lemma dlist_moved h h2 head xs : at_new h h2 (head :: xs) → NoDup (move <$> head :: xs) → NULL ∉ move <$> head :: xs →
  dlist h head xs → dlist h2 (move head) (move <$> xs).
Proof.
  intros Hn Hnd Hnn [_ _ Hc]. split; [exact Hnd|exact Hnn|].
  apply (chain_move _ h2) in Hc; [by rewrite fmap_cons, fmap_app in Hc|]. intros a Ha. apply Hn. set_solver.
Qed.

Definition array_nodes : list Z := pg base <$> seqZ 0 n.
Definition head_nodes : list Z := free_list <$> seqZ 0 BUDDY_MAX_ORDER.

Lemma array_nodes_elem a : a ∈ array_nodes ↔ ∃ i, 0 ≤ i < n ∧ a = pg base i.
Proof.
  unfold array_nodes. rewrite list_elem_of_fmap. setoid_rewrite elem_of_seqZ. split; intros (i & ? & ?); exists i; (split; [|lia]); lia || done.
Qed.
Lemma head_nodes_elem a : a ∈ head_nodes ↔ ∃ o, 0 ≤ o < BUDDY_MAX_ORDER ∧ a = free_list o.
Proof.
  unfold head_nodes. rewrite list_elem_of_fmap. setoid_rewrite elem_of_seqZ. split; intros (i & ? & ?); exists i; (split; [|lia]); lia || done.
Qed.
Lemma free_addr_nodes a : free_addr base n a ↔ a ∈ head_nodes ∨ a ∈ array_nodes.
Proof. rewrite array_nodes_elem, head_nodes_elem. done. Qed.

(** Both loops together move exactly the nodes of the free lists. *)
Lemma moved_both h h1 h' : moved array_nodes h h1 → moved head_nodes h1 h' →
  ∀ a, (free_addr base n a → h' !! a = move_node <$> h !! a) ∧ (¬ free_addr base n a → h' !! a = h !! a).
Proof.
  intros H1 H2 a. rewrite H2, H1, free_addr_nodes. split.
  - intros [Ha|Ha].
    + rewrite decide_True by done. rewrite decide_False; [done|]. intros (i & Hi & ->)%array_nodes_elem.
      apply head_nodes_elem in Ha as (o & Ho & E). by apply (head_not_pg _ _ L o i).
    + rewrite (decide_True (P := a ∈ array_nodes)) by done. rewrite decide_False; [done|]. intros (o & Ho & ->)%head_nodes_elem.
      apply array_nodes_elem in Ha as (i & Hi & E). by apply (head_not_pg _ _ L o i).
  - intros Hn. rewrite !decide_False by tauto. done.
Qed.

Lemma head_outside_new o : 0 ≤ o < BUDDY_MAX_ORDER → free_list o < KPAGES ∨ KPAGES + n * sizeof_page_info ≤ free_list o.
Proof. intros Ho. destruct (layout_heads _ _ L' o Ho) as [_ Hout]. unfold pg in Hout. lia. Qed.

(** The array seen at [KPAGES] after the pointers have been moved. *)
Lemma remap_free (h h' : lheap) : (∀ a, (free_addr base n a → h' !! a = move_node <$> h !! a) ∧ (¬ free_addr base n a → h' !! a = h !! a)) →
  ∀ a, free_addr base n a → remap base n h' !! move a = move_node <$> h !! a.
Proof.
  intros Hm a Ha. rewrite <-(proj1 (Hm a) Ha). destruct Ha as [(o & Ho & ->)|(i & Hi & ->)].
  - rewrite move_head by done. apply remap_old. by apply head_outside_new.
  - rewrite move_pg by done. replace (pg KPAGES i) with (pg base i + (KPAGES - base)) by (unfold pg; lia).
    apply remap_new. unfold pg, sizeof_page_info. lia.
Qed.

Lemma lists_moved h h2 g : shape_ok n g → lists base n h g ∅ → (∀ a, free_addr base n a → h2 !! move a = move_node <$> h !! a) →
  lists KPAGES n h2 g ∅.
Proof.
  intros Hs (fl & Hl & Hmem & Hdet) Hnew. exists fl.
  assert (∀ o i, 0 ≤ o < BUDDY_MAX_ORDER → i ∈ fl o → 0 ≤ i < n) as Hrange.
  { intros o i Ho Hi. apply Hmem in Hi as [Hi _]; [|done]. destruct (shape_range _ _ Hs _ _ Hi). pose proof (Z.pow_pos_nonneg 2 o). lia. }
  assert (∀ l : list Z, (∀ i, i ∈ l → 0 ≤ i < n) → move <$> (pg base <$> l) = pg KPAGES <$> l) as Hpgs.
  { intros l Hi. rewrite <-list_fmap_compose. apply list_fmap_ext. intros k i Hk. apply move_pg, Hi. by apply list_elem_of_lookup_2 in Hk. }
  split_and!; [|done|].
  - intros o Ho. rewrite <-(move_head o Ho), <-(Hpgs (fl o)) by eauto.
    assert (move <$> free_list o :: (pg base <$> fl o) = free_list o :: (pg KPAGES <$> fl o)) as Em.
    { rewrite fmap_cons, (move_head o Ho), Hpgs by eauto. done. }
    apply (dlist_moved h); [| | |by apply Hl].
    + intros a [->|(i & -> & Hi)%list_elem_of_fmap]%elem_of_cons; apply Hnew; [left|right]; eauto.
    + rewrite Em. apply NoDup_cons. split.
      * intros (i & E & Hi)%list_elem_of_fmap. apply (head_not_pg _ _ L' o i); eauto.
      * pose proof (dlist_nodup _ _ _ (Hl o Ho)) as [_ Hnd]%NoDup_cons. apply NoDup_fmap_1 in Hnd.
        apply NoDup_fmap_2; [intros i j; by apply pg_inj|done].
    + rewrite Em. intros [E|(i & E & Hi)%list_elem_of_fmap]%elem_of_cons.
      * destruct (layout_heads _ _ L' o Ho) as [? _]. unfold NULL in *. lia.
      * pose proof (pg_pos _ _ L' i). specialize (Hrange o i Ho Hi). unfold NULL in *. lia.
  - intros i Hi Hg. rewrite <-(move_pg i Hi). change [] with (move <$> []). apply (dlist_moved h); [| | |by apply Hdet].
    + intros a ->%list_elem_of_singleton. apply Hnew. right. eauto.
    + apply NoDup_singleton.
    + intros E%list_elem_of_singleton. rewrite move_pg in E by done. pose proof (pg_pos _ _ L' i). unfold NULL in *. lia.
Qed.

Lemma buddy_migrate_spec m g : core base n m g ∅ →
  wp buddy_migrate (λ _ m', ∃ h', m' = set_pages KPAGES (set_heap h' m) ∧
    (∀ a, ¬ free_addr base n a → h' !! a = heap m !! a) ∧ core KPAGES n (remapped base n m') g ∅ ∧
    ∀ i, 0 ≤ i < n → infos (remapped base n m') !! pg KPAGES i = infos m !! pg base i) m.
Proof.
  intros [Eb En Hs Hrep Hl].
  assert (∀ a, free_addr base n a → is_Some (heap m !! a)) as Hdom.
  { destruct Hl as (fl & Hl & Hmem & Hdet). intros a [(o & Ho & ->)|(i & Hi & ->)].
    - apply elem_of_dom. eapply dlist_dom; [by apply Hl|by left].
    - apply elem_of_dom. destruct (g !! i) as [o|] eqn:Eg.
      + pose proof (shape_order _ _ Hs _ _ Eg) as Ho. eapply dlist_dom; [by apply (Hl o)|]. right. apply list_elem_of_fmap.
        exists i. split; [done|]. by apply Hmem.
      + eapply dlist_dom; [apply Hdet; [done|by left]|by left]. }
  assert (Inj (=) (=) free_list) as Hinj by (intros x y; unfold free_list; lia).
  assert (Inj (=) (=) (pg base)) as Hinj' by (intros x y; apply pg_inj).
  pose proof (layout_npages _ _ L) as Hn.
  unfold buddy_migrate. wp_step. wp_step. rewrite En. wp_step.
  apply (migrate_loop_spec _ (pg base)); [done|done| |done| |].
  { intros j m' P E HP. unfold page_at. wp_step. wp_step. wp_step. by rewrite E. }
  { intros j Hj. apply Hdom. right. exists j. split; [lia|done]. }
  replace (Z.of_nat (Z.to_nat n)) with n by lia. intros h1 Hm1. wp_step.
  apply (migrate_loop_spec _ free_list); [done|done| |done| |].
  { intros j m' P _ HP. by wp_step. }
  { intros j Hj. cbn. rewrite Hm1. destruct (Hdom (free_list j)) as [x Hx]; [left; exists j; split; [lia|done]|].
    destruct (decide _); rewrite Hx; by eexists. }
  change (Z.of_nat (Z.to_nat BUDDY_MAX_ORDER)) with BUDDY_MAX_ORDER. intros h2 Hm2. cbn in Hm2. wp_step.
  pose proof (moved_both (heap m) h1 h2 Hm1 Hm2) as Hboth.
  pose proof (remap_free (heap m) h2 Hboth) as Hnew.
  exists h2. split; [done|]. split; [intros a Ha; by apply Hboth|].
  assert (∀ i, 0 ≤ i < n → remap base n (infos m) !! pg KPAGES i = infos m !! pg base i) as Hinfo.
  { intros i Hi. replace (pg KPAGES i) with (pg base i + (KPAGES - base)) by (unfold pg; lia). apply remap_new.
    unfold pg, sizeof_page_info. lia. }
  split; [|exact Hinfo]. split; [done|done|done| |by eapply lists_moved].
  intros i Hi. destruct (Hrep i Hi) as (p & Hp & Hd). exists p. split; [|done]. cbn. by rewrite Hinfo.
Qed.
End proofs.
End migrate.

(** C35 (refinement).  [buddy_migrate] ends, and seen through the new mapping the
    allocator is in the state it was in: the page structs are found at [KPAGES],
    the free lists hold the same blocks at the new addresses, the pages in use
    are in no list, and no node of any other list has changed. *)
Theorem buddy_migrate_correct `{Layout} base n m g : layout_ok base n → layout_ok KPAGES n →
  base + n * sizeof_page_info ≤ KPAGES → buddy_inv base n m g →
  ∃ m', buddy_migrate m = OK tt m' ∧ core KPAGES n (remapped base n m') g ∅ ∧
    (∀ i, 0 ≤ i < n → infos (remapped base n m') !! pg KPAGES i = infos m !! pg base i) ∧
    (∀ a, ¬ free_addr base n a → heap m' !! a = heap m !! a) ∧ m' = set_pages KPAGES (set_heap (heap m') m).
Proof.
  intros L L' Hfit Hinv. destruct (wp_elim _ _ _ (buddy_migrate_spec base n L L' Hfit m g (inv_core _ _ _ _ Hinv)))
    as ([] & m' & E & h' & -> & Hout & Hcore & Hi). exists (set_pages KPAGES (set_heap h' m)). split_and!; done.
Qed.

(** The nodes of the swap list are not migrated: the node of a page that is in
    no list still points to its old address, so at the new one it looks as if
    it were in a list, and [add_swap_page] leaves the page out of the swap
    list. *)
Lemma migrate_breaks_swap `{Layout} base n m g i : layout_ok base n → layout_ok KPAGES n →
  base + n * sizeof_page_info ≤ KPAGES → buddy_inv base n m g →
  0 ≤ i < n → 0 < n → detached (heap m) (swap_node_of base i) →
  ∃ m', buddy_migrate m = OK tt m' ∧
    add_swap_page (pg KPAGES i) (remapped base n m') = OK tt (remapped base n m').
Proof.
  intros L L' Hfit Hinv Hi Hn Hd.
  destruct (wp_elim _ _ _ (buddy_migrate_spec base n L L' Hfit m g (inv_core _ _ _ _ Hinv)))
    as ([] & m' & E & h' & -> & Hout & _). exists (set_pages KPAGES (set_heap h' m)). split; [done|].
  set (mm := remapped _ _ _). pose proof (dlist_ends _ _ _ Hd) as [Hx _]. unfold after in Hx. simpl in Hx.
  assert (nx (heap mm) (pg KPAGES i + off_swap_node) = Some (swap_node_of base i)) as Hnx.
  { rewrite <-Hx. unfold mm, nx. cbn. replace (pg KPAGES i + off_swap_node) with (swap_node_of base i + (KPAGES - base))
      by (unfold swap_node_of, pg; lia).
    rewrite remap_new; [|unfold swap_node_of, pg, sizeof_page_info, off_swap_node; lia].
    rewrite Hout; [done|]. apply (swap_not_free base n L). right. eauto. }
  assert (wp (add_swap_page (pg KPAGES i)) (λ _ mm', mm' = mm) mm) as ([] & mm' & -> & ->)%wp_elim; [|done].
  unfold add_swap_page. wp_step. unfold on_heap. wp_step. unfold list_is_empty. wp_step. eapply wp_get_next; [exact Hnx|]. wp_step.
  rewrite (proj2 (Z.eqb_neq _ _)); [|unfold swap_node_of, pg, sizeof_page_info in *; lia]. cbn [negb]. wp_step. by destruct mm.
Qed.

(** ** The machine of BuddySpec.v *)

#[local] Existing Instance demo_layout.
#[local] Existing Instance demo_end.

Lemma demo_layout_new : layout_ok KPAGES demo_n.
Proof.
  unfold KPAGES, demo_n. split; try done.
  - intros o Ho. unfold outside, free_list, pg, sizeof_page_info, BUDDY_MAX_ORDER, BUDDY_2M_PAGE in *. simpl. lia.
  - unfold outside, pg, sizeof_page_info. simpl. lia.
  - unfold outside, pg, sizeof_page_info. simpl. lia.
  - split; [done|]. intros o Ho. unfold free_list, BUDDY_MAX_ORDER, BUDDY_2M_PAGE in *. simpl. lia.
Qed.

Lemma buddy_migrate_correct_witness : ∃ s g m', page_init demo_info demo_boot = OK tt s ∧ buddy_migrate (bmem s) = OK tt m' ∧
  free_frame g 8 ∧ ¬ free_frame g 16 ∧ core KPAGES demo_n (remapped demo_base demo_n m') g ∅.
Proof.
  destruct demo_booted as (s & g & E & Hinv & _ & _ & _ & HF).
  destruct (buddy_migrate_correct demo_base demo_n (bmem s) g demo_layout_ok demo_layout_new) as (m' & Em & Hc & _).
  - by vm_compute.
  - exact Hinv.
  - exists s, g, m'. split; [exact E|]. split; [exact Em|]. rewrite !HF. split; [lia|]. split; [lia|exact Hc].
Defined.
