(* ===== verification/MemStart.v ===== *)
(** * Setting up memory (kernel/mem/init.c: [mem_init], [pml4_setup])

    The composition of MemInit.v, Migrate.v and MemInitExt.v.  The first half of
    [mem_init] gives the page array its place behind the kernel and the free
    frames to the allocator; the theorem says that it establishes the
    allocator's invariant from the memory map and the memory the boot loader
    leaves.  The second half builds the kernel's page table.  The self tests
    that [mem_init] calls in between are left out. *)

From S2P Require Import Prelude LinkedList Paging Spinlock Buddy BuddyProofs MemInit BuddySpec Migrate RbTree Kernel PageWalk PageTable Slab Vma Console Task Devices Ata Ahci Acpi MemInitExt.

Local Open Scope Z_scope.

Section mem_init.
Context `{Layout} `{KernelEnd}.

(** The first loop of [mem_init]. *)
Fixpoint init_heads (k : nat) (i : Z) : M mem unit :=
  match k with
  | O => mret tt
  | S k => on_heap (list_init (free_list i));; init_heads k (i + 1)
  end.

(** [mem_init] up to [page_init]; the result is the aligned memory map, which
    the code writes back to [boot_info]. *)
Definition mem_init_boot (b : boot_info) : M boot boot_info :=
  let b := align_boot_info b in
  on_mem (init_heads (Z.to_nat BUDDY_MAX_ORDER) 0);;
  on_mem (modify (set_npages (boot_npages b)));;
  n ← gets (λ s, npages (bmem s));
  p ← boot_alloc (n * sizeof_page_info);
  on_mem (modify (set_pages p));;
  page_init b;;
  mret b.
End mem_init.

(** ** The kernel's page table *)

Section paging.
Context `{Layout} `{VmaNames} `{KernelEnd} `{CpuLayout}.

(** [bootstack] is the linker symbol, [prog_hdrs] the program headers of the
    kernel's ELF image.  [PADDR(pages)] is evaluated a second time for a
    message. *)
Definition pml4_setup (bootstack : Z) (prog_hdrs : list elf_proghdr) : M kernel Z :=
  page ← on_km (page_alloc ALLOC_ZERO);
  (if page =? NULL then halt Panic else mret tt);;
  kva ← on_km (page2kva page);
  modify (set_kernel_pml4 kva);;
  boot_map_kernel kva prog_hdrs;;
  boot_map_region kva (KSTACK_TOP - KSTACK_SIZE) KSTACK_SIZE bootstack kernel_flags;;
  n ← gets (λ k, npages (km k));
  p ← gets (λ k, pages (km k));
  pa ← on_km (PADDR p);
  boot_map_region kva KPAGES (u64 (n * sizeof_page_info)) pa kernel_flags;;
  on_km buddy_migrate;;
  mret 0.

(** The rest of [mem_init]: from the loading of the page table on, the page
    array is found at [KPAGES].  [write_msr] only enables [PAGE_NO_EXEC]. *)
Definition mem_init_paging (bootstack : Z) (prog_hdrs : list elf_proghdr) (b : boot_info) : M (kernel * Z) unit :=
  zoom fst (λ k s, (k, s.2)) (
    old ← gets (λ k, pages (km k));
    _ ← pml4_setup bootstack prog_hdrs;
    pml4 ← gets kernel_pml4;
    pa ← on_km (PADDR pml4);
    load_pml4 pa;;
    modify (λ k, set_km (remapped old (npages (km k)) (km k)) k));;
  page_init_ext b.
End paging.

(** ** [mem_init_boot] *)

Section proofs.
Context `{Layout} `{KernelEnd}.

Lemma init_heads_spec k : ∀ i h (Q : unit → mem → Prop) m, heap m = h →
  (∀ o, i ≤ o < i + Z.of_nat k → free_list o ∈ dom h ∧ free_list o ≠ NULL) →
  (∀ h', (∀ o, i ≤ o < i + Z.of_nat k → dlist h' (free_list o) []) → frame (free_list <$> seqZ i (Z.of_nat k)) h h' → Q tt (set_heap h' m)) →
  wp (init_heads k i) Q m.
Proof.
  induction k as [|k IH]; intros i h Q m Eh Hd HQ; cbn [init_heads].
  { wp_step. replace m with (set_heap h m) by (by destruct m; simpl in *; subst). apply HQ; [lia|]. rewrite seqZ_nil by lia. by split. }
  destruct (Hd i) as [Hi Hin]; [lia|]. wp_step. unfold on_heap. wp_step. rewrite Eh.
  eapply wp_mono; [by apply list_init_spec|]. cbv beta. intros [] h1 [Hl [Ed Hf]].
  eapply (IH (i + 1) h1); [done| |].
  { intros o Ho. rewrite Ed. apply Hd. lia. }
  intros h2 Hl2 [Ed2 Hf2]. cbn. apply HQ.
  - intros o Ho. destruct (decide (o = i)) as [->|Hne]; [|apply Hl2; lia].
    eapply dlist_frame; [by split| |exact Hl]. intros a ->%list_elem_of_singleton.
    intros (j & E & Hj%elem_of_seqZ)%list_elem_of_fmap. unfold free_list in E. lia.
  - rewrite (seqZ_cons i (Z.of_nat (S k))) by lia. replace (Z.pred (Z.of_nat (S k))) with (Z.of_nat k) by lia.
    replace (Z.succ i) with (i + 1) by lia. split; [congruence|]. intros a Ha. rewrite Hf2, Hf; set_solver.
Qed.

(** A free region of the memory map that the boot loader passes holds a page
    boundary. *)
Definition entry_ok (e : mmap_entry) : Prop := 0 ≤ addr e ∧ 0 ≤ len e ∧ addr e + len e < 2 ^ 62 ∧
  (type e = MMAP_FREE → ROUNDUP (addr e) PAGE_SIZE ≤ ROUNDDOWN (addr e + len e) PAGE_SIZE).

Lemma align_region e : entry_ok e → region_ok (align_entry e).
Proof.
  intros (Ha & Hl & Hs & Hr) Et.
  pose proof (rounddown_spec (addr e + len e)) as Hd. pose proof (roundup_spec (addr e)) as Hu.
  unfold align_entry in *. destruct (type e =? MMAP_FREE) eqn:Ee; cbn [addr len type] in *;
    [|apply Z.eqb_neq in Ee; congruence]. apply Z.eqb_eq in Ee. specialize (Hr Ee).
  replace (len e - (ROUNDUP (addr e) PAGE_SIZE - addr e)) with (addr e + len e - ROUNDUP (addr e) PAGE_SIZE) by lia.
  unfold PAGE_SIZE in *. destruct Hd as (Hdm & Hd1 & Hd0); [lia|]. destruct Hu as [Hum Hu1]; [lia|].
  rewrite u64_add_sub by lia. rewrite (u64_small (ROUNDDOWN _ _ - _)) by lia.
  generalize dependent (ROUNDUP (addr e) 4096). generalize dependent (ROUNDDOWN (addr e + len e) 4096). intros. split_and!; [lia..|mlia].
Qed.

(** What the boot loader and the linker leave: the kernel ends at [base], where
    there is memory for [n] page structs; nothing has been allocated. *)
Record mem_raw (base n : Z) (s : boot) (b : boot_info) : Prop := {
  mr_layout : layout_ok base n;
  mr_base : base = next_of s;
  mr_npages : n = boot_npages (align_boot_info b);
  mr_size : 0 < n * sizeof_page_info < 2 ^ 32 - PAGE_SIZE;
  mr_place : KERNEL_VMA ≤ base ∧ base + 2 ^ 32 < 2 ^ 64 - 2 ^ 32;
  mr_raw : raw base n (bmem s);
  mr_heads o : 0 ≤ o < BUDDY_MAX_ORDER → free_list o ∈ dom (heap (bmem s));
  mr_zero : zero_ok base n (heap (bmem s));
  mr_lock : is_free (buddy_lock (bmem s));
  mr_self : KERNEL_VMA ≤ bi_self b;
  mr_mmap : PAGE_INDEX (mmap_addr b) < n;
  mr_entries : Forall entry_ok (mmap b);
}.

(** The end of the kernel and of the page array behind it. *)
Definition boot_end (base n : Z) : Z := base + ROUNDUP (n * sizeof_page_info) PAGE_SIZE - KERNEL_VMA.

Lemma heads_ready base n s b h' : mem_raw base n s b → (∀ o, 0 ≤ o < BUDDY_MAX_ORDER → dlist h' (free_list o) []) →
  frame (free_list <$> seqZ 0 BUDDY_MAX_ORDER) (heap (bmem s)) h' →
  boot_ready base n (Boot (set_pages base (set_npages n (set_heap h' (bmem s)))) (base + ROUNDUP (n * sizeof_page_info) PAGE_SIZE)) (align_boot_info b).
Proof.
  intros [L Eb En Hsz Hpl Hraw Hhd Hz Hlk Hself Hmm He] Hl [Ed Hf].
  assert (∀ a, (∃ o, 0 ≤ o < BUDDY_MAX_ORDER ∧ a = free_list o) ∨ h' !! a = heap (bmem s) !! a) as Hsame.
  { intros a. destruct (decide (a ∈ free_list <$> seqZ 0 BUDDY_MAX_ORDER)) as [Ha|Ha]; [left|right; by apply Hf].
    apply list_elem_of_fmap in Ha as (o & -> & Ho%elem_of_seqZ). exists o. split; [lia|done]. }
  assert (0 ≤ ROUNDUP (n * sizeof_page_info) PAGE_SIZE < 2 ^ 32) as Hru.
  { pose proof (roundup_spec (n * sizeof_page_info)). unfold PAGE_SIZE in *. lia. }
  split; cbn; [done|done| |done| |done|done|done| |].
  - intros j Hj. destruct (Hraw j Hj) as (? & ? & ?). cbn. by rewrite Ed.
  - destruct Hz as [(a & Ha & Haz & Had) Hzn]. split.
    + exists a. rewrite Ed. split; [|done]. unfold nx in *. destruct (Hsame zero_list) as [(o & Ho & E)| ->]; [|done].
      exfalso. destruct (layout_distinct _ _ L) as [_ Hdd]. destruct (Hdd o Ho) as [_ Hne]. congruence.
    + intros i Hi. rewrite Ed. by apply Hzn.
  - apply Forall_fmap. eapply Forall_impl; [exact He|]. intros e. apply align_region.
  - unfold next_of. cbn. rewrite (proj2 (Z.eqb_neq _ _)); [lia|]. unfold NULL, KERNEL_VMA in *. lia.
Qed.

Lemma mem_init_boot_spec base n s b : mem_raw base n s b → let b' := align_boot_info b in
  NoDup (usable_frames b' (boot_end base n)) → (∀ k, k ∈ usable_frames b' (boot_end base n) → k < n) →
  wp (mem_init_boot b) (λ r s', r = b' ∧ pages (bmem s') = base ∧ ∃ g, buddy_inv base n (bmem s') g ∧
    ∀ k, free_frame g k ↔ k ∈ usable_frames b' (boot_end base n)) s.
Proof.
  intros Hr b' Hnd Hlt. pose proof Hr as [L Eb En Hsz Hpl _ Hhd _ _ _ _ _]. unfold mem_init_boot. fold b' in En |- *. rewrite <-En.
  wp_step. unfold on_mem at 1. wp_step. eapply (init_heads_spec _ _ (heap (bmem s))); [done| |].
  { intros o Ho. split; [apply Hhd; lia|]. destruct (layout_heads _ _ L o) as [? _]; [lia|]. unfold NULL. lia. }
  change (Z.of_nat (Z.to_nat BUDDY_MAX_ORDER)) with BUDDY_MAX_ORDER. intros h' Hl Hf.
  pose proof (heads_ready base n s b h' Hr Hl Hf) as Hready. fold b' in Hready.
  wp_step. unfold on_mem at 1. wp_step. wp_step. wp_step. wp_step. cbn [npages bmem set_bmem set_npages]. wp_step.
  eapply wp_OK.
  { apply boot_alloc_run; [lia|]. unfold next_of in *. cbn. destruct (next_free s =? NULL); lia. }
  unfold next_of at 1 2. cbn [next_free set_bmem]. fold (next_of s). rewrite <-Eb.
  wp_step. unfold on_mem at 1. wp_step. wp_step. wp_step.
  eapply wp_mono; [apply (page_init_run base n L _ b' Hready)|cbv beta].
  all: replace (next_of (Boot _ (base + ROUNDUP (n * sizeof_page_info) PAGE_SIZE)) - KERNEL_VMA) with (boot_end base n);
    [|unfold next_of, boot_end; cbn; rewrite (proj2 (Z.eqb_neq _ _)); [done|pose proof (roundup_spec (n * sizeof_page_info)); unfold NULL, KERNEL_VMA, PAGE_SIZE in *; lia]].
  - done.
  - done.
  - intros _ s' (Hp & _ & _ & g & Hinv & _ & HF). wp_step. split; [done|]. split; [done|]. exists g. done.
Qed.
End proofs.

(** C6 (invariant).  The first half of [mem_init] terminates and establishes the
    allocator's invariant: the page array is put right behind the kernel, and
    the free frames are exactly the whole pages of the free regions of the
    memory map that lie in the boot mapping and hold neither the boot
    information, the ELF header, the kernel nor the page array. *)
Theorem mem_init_boot_correct `{Layout} `{KernelEnd} base n s b : mem_raw base n s b →
  NoDup (usable_frames (align_boot_info b) (boot_end base n)) → (∀ k, k ∈ usable_frames (align_boot_info b) (boot_end base n) → k < n) →
  ∃ s' g, mem_init_boot b s = OK (align_boot_info b) s' ∧ pages (bmem s') = next_of s ∧ buddy_inv base n (bmem s') g ∧
    (∀ k, free_frame g k ↔ k ∈ usable_frames (align_boot_info b) (boot_end base n)) ∧
    ∀ k, free_frame g k → k * PAGE_SIZE < KERNEL_LMA ∨ boot_end base n ≤ k * PAGE_SIZE.
Proof.
  intros Hr Hnd Hlt. destruct (wp_elim _ _ _ (mem_init_boot_spec base n s b Hr Hnd Hlt)) as (r & s' & E & -> & Hp & g & Hinv & HF).
  exists s', g. rewrite <-(mr_base _ _ _ _ Hr). split_and!; [done|done|done|exact HF|].
  intros k (e & He & Hk)%HF%list_elem_of_bind. unfold region_frames in He. destruct (type e =? MMAP_FREE); [|by apply not_elem_of_nil in He].
  apply list_elem_of_filter in He as [Hu _]. unfold usable, not_reserved in Hu.
  apply Is_true_true, andb_true_iff in Hu as [_ Hu]. apply andb_true_iff in Hu as [_ Hu]. apply orb_true_iff in Hu as [Hu|Hu]; [left; lia|right; lia].
Qed.

(** The page that [boot_cpus] overwrites with the entry code of the other CPUs
    is not reserved: when it lies in a free region, the allocator owns it. *)
Definition MPENTRY_PADDR : Z := 0x7000.
Lemma entry_page_not_reserved `{Layout} `{KernelEnd} base n s b e : mem_raw base n s b → let b' := align_boot_info b in
  NoDup (usable_frames b' (boot_end base n)) → (∀ k, k ∈ usable_frames b' (boot_end base n) → k < n) →
  e ∈ mmap b' → type e = MMAP_FREE → addr e ≤ MPENTRY_PADDR < addr e + len e → addr e `mod` PAGE_SIZE = 0 → 0 ≤ addr e →
  len e `mod` PAGE_SIZE = 0 →
  PAGE_ADDR (bi_self b - KERNEL_VMA) ≠ MPENTRY_PADDR → elf_hdr b ≠ MPENTRY_PADDR →
  ∃ s' g, mem_init_boot b s = OK b' s' ∧ buddy_inv base n (bmem s') g ∧ free_frame g (PAGE_INDEX MPENTRY_PADDR).
Proof.
  intros Hr b' Hnd Hlt He Et Hin Ha0 Ha Hl0 Hself Helf.
  destruct (wp_elim _ _ _ (mem_init_boot_spec base n s b Hr Hnd Hlt)) as (r & s' & E & -> & Hp & g & Hinv & HF).
  exists s', g. split; [done|]. split; [done|]. apply HF. apply list_elem_of_bind. exists e. split; [|done].
  unfold region_frames. rewrite Et. cbn [Z.eqb Pos.eqb MMAP_FREE]. apply list_elem_of_filter.
  change (PAGE_INDEX MPENTRY_PADDR) with 7. split.
  - unfold usable, in_boot_map, not_reserved. change (7 * PAGE_SIZE) with MPENTRY_PADDR. cbn [bi_self elf_hdr b' align_boot_info].
    rewrite !(proj2 (Z.eqb_neq _ _)) by (done || congruence). done.
  - apply elem_of_seqZ. unfold MPENTRY_PADDR, PAGE_SIZE in *. mlia.
Qed.

(** ** A concrete machine: [n] pages of memory, the kernel ends at 1.5 MB *)

Definition start_layout : Layout := {|
  buddy_free_list := 0x1000; zero_list := 0x2000; swap_pages := 0x3000; buddy_c := 0x4000 |}.
#[local] Existing Instance start_layout.
#[local] Instance start_end : KernelEnd := KERNEL_VMA + 0x17ff80.
Definition start_base : Z := KERNEL_VMA + 0x180000.
Definition start_nodes (n : Z) : list Z :=
  NULL :: zero_list :: swap_pages :: (free_list <$> seqZ 0 10) ++
  (seqZ 0 n ≫= λ i, [pg start_base i; swap_node_of start_base i; zero_node_of start_base i]).
Definition start_boot (n : Z) : boot :=
  Boot (Mem (list_to_map ((λ a, (a, Node 0 0)) <$> start_nodes n))
    (list_to_map ((λ i, (pg start_base i, PageInfo 0 0 0 0 0)) <$> seqZ 0 n)) 0 0 (SpinLock 0 0 0 0 0) ∅ 0x5000) 0.
Definition start_info (n : Z) : boot_info :=
  BootInfo (KERNEL_VMA + 20 * 4096) (20 * 4096)
    [MmapEntry 0x500 0x9f700 1 0; MmapEntry 0x9fc00 0x400 2 0; MmapEntry 0x100000 (n * 4096 - 0x100000) 1 0] (16 * 4096).

Definition small_boot : boot := start_boot 512.
Definition small_info : boot_info := start_info 512.

Lemma raw_dec base n m : bool_decide (Forall (λ j, is_Some (infos m !! pg base j) ∧ is_Some (heap m !! pg base j) ∧
  is_Some (heap m !! swap_node_of base j)) (seqZ 0 n)) = true → raw base n m.
Proof.
  intros Hb%bool_decide_eq_true j Hj. rewrite Forall_forall in Hb. rewrite !elem_of_dom. apply Hb. apply elem_of_seqZ. lia.
Qed.
Lemma zero_dec base n (h : lheap) : nx h zero_list = Some NULL → bool_decide (is_Some (h !! NULL) ∧ Forall (λ j, is_Some (h !! zero_node_of base j)) (seqZ 0 n)) = true →
  zero_ok base n h.
Proof.
  intros Hz [Hn Hb]%bool_decide_eq_true. rewrite Forall_forall in Hb. split.
  - exists NULL. split; [done|]. split; [by right; left|by apply elem_of_dom].
  - intros i Hi. apply elem_of_dom, Hb. apply elem_of_seqZ. lia.
Qed.
Lemma heads_dec (h : lheap) : bool_decide (Forall (λ o, is_Some (h !! free_list o)) (seqZ 0 BUDDY_MAX_ORDER)) = true →
  ∀ o, 0 ≤ o < BUDDY_MAX_ORDER → free_list o ∈ dom h.
Proof. intros Hb%bool_decide_eq_true o Ho. rewrite Forall_forall in Hb. apply elem_of_dom, Hb. apply elem_of_seqZ. lia. Qed.

Lemma start_layout_ok n : 0 ≤ n < 2 ^ 31 → n `mod` 512 = 0 → layout_ok start_base n.
Proof.
  intros Hn Hm. unfold start_base, KERNEL_VMA. split; try done.
  - intros o Ho. unfold outside, free_list, pg, sizeof_page_info, BUDDY_MAX_ORDER, BUDDY_2M_PAGE in *. simpl. lia.
  - unfold outside, pg, sizeof_page_info. simpl. lia.
  - unfold outside, pg, sizeof_page_info. simpl. lia.
  - split; [done|]. intros o Ho. unfold free_list, BUDDY_MAX_ORDER, BUDDY_2M_PAGE in *. simpl. lia.
Qed.

Lemma start_raw : mem_raw start_base 512 small_boot small_info.
Proof.
  split; [by apply start_layout_ok|reflexivity|reflexivity|by vm_compute|by vm_compute| | | |reflexivity|by vm_compute|by vm_compute|].
  - apply raw_dec. vm_compute. reflexivity.
  - apply heads_dec. vm_compute. reflexivity.
  - apply zero_dec; vm_compute; reflexivity.
  - repeat constructor; vm_compute; intros; done.
Qed.

Lemma mem_init_boot_correct_witness : ∃ s' g, mem_init_boot small_info small_boot = OK (align_boot_info small_info) s' ∧
  buddy_inv start_base 512 (bmem s') g ∧ free_frame g 1 ∧ free_frame g 7 ∧ ¬ free_frame g 0 ∧ ¬ free_frame g 0x187 ∧ ¬ free_frame g 0x188 ∧ free_frame g 0x18a.
Proof.
  destruct (mem_init_boot_correct start_base 512 small_boot small_info) as (s' & g & E & _ & Hinv & HF & _).
  - exact start_raw.
  - apply (bool_decide_unpack _). vm_compute. exact I.
  - apply Forall_forall. apply (bool_decide_unpack _). vm_compute. exact I.
  - exists s', g. split; [exact E|]. split; [exact Hinv|]. rewrite !HF. split_and!; apply (bool_decide_unpack _); vm_compute; exact I.
Defined.
