(* ===== verification/Lab1.v ===== *)
(** * The boot-time self checks of the allocator (kernel/tests/lab1.c)

    The checks that [mem_init] runs between [page_init] and the set-up of
    paging: a list of free pages on both sides of the first megabyte, the orders
    on the free lists, the reserved frames, and the agreement of the [pp_free]
    flags with the lists.  Each panics when it finds a violation.  The theorem
    says that none of them does after [mem_init_boot], and that they change
    nothing.  The progress messages and the check that allocates a chunk behind
    the allocator's back ([lab1_check_split_and_merge]) are left out. *)

From S2P Require Import Prelude LinkedList Paging Spinlock Buddy BuddyProofs MemInit BuddySpec MemStart.

Local Open Scope Z_scope.

Definition EXT_PHYS_MEM : Z := 0x100000.

Section checks.
Context `{Layout} `{KernelEnd}.

(** ** [lab1_check_free_list_avail] *)

(** The body of the inner loop; a list node is the first field of its page. *)
Fixpoint avail_nodes (l : list Z) (nfree_basemem nfree_extmem : Z) : M mem (Z * Z) :=
  match l with
  | [] => mret (nfree_basemem, nfree_extmem)
  | page :: l =>
      pa ← page2pa page;
      if pa <? EXT_PHYS_MEM then avail_nodes l (u64 (nfree_basemem + 1)) nfree_extmem
      else avail_nodes l nfree_basemem (u64 (nfree_extmem + 1))
  end.

Fixpoint avail_orders (k : nat) (order nfree_basemem nfree_extmem : Z) : M mem (Z * Z) :=
  match k with
  | O => mret (nfree_basemem, nfree_extmem)
  | S k =>
      l ← on_heap (list_foreach (free_list order));
      r ← avail_nodes l nfree_basemem nfree_extmem;
      avail_orders k (order + 1) r.1 r.2
  end.

Definition lab1_check_free_list_avail : M mem unit :=
  r ← avail_orders (Z.to_nat BUDDY_MAX_ORDER) 0 0 0;
  (if 0 <? r.1 then mret tt else halt Panic);;
  if 0 <? r.2 then mret tt else halt Panic.

(** ** [lab1_check_free_list_order] *)

Fixpoint order_nodes (l : list Z) (order nviolations : Z) : M mem Z :=
  match l with
  | [] => mret nviolations
  | page :: l =>
      p ← page_get page;
      order_nodes l order (if negb (pp_order p =? order) then u64 (nviolations + 1) else nviolations)
  end.

Fixpoint order_orders (k : nat) (order nviolations : Z) : M mem Z :=
  match k with
  | O => mret nviolations
  | S k =>
      l ← on_heap (list_foreach (free_list order));
      v ← order_nodes l order nviolations;
      order_orders k (order + 1) v
  end.

Definition lab1_check_free_list_order : M mem unit :=
  v ← order_orders (Z.to_nat BUDDY_MAX_ORDER) 0 0;
  if negb (v =? 0) then halt Panic else mret tt.

(** ** [lab1_check_memory_layout] *)

(** The condition that the frame must not be free; [PADDR(boot_info)] is only
    evaluated when the first test fails. *)
Definition must_be_used (b : boot_info) (e : mmap_entry) (end_ pa : Z) : M mem bool :=
  if pa =? 0 then mret true
  else
    self_pa ← PADDR (bi_self b);
    mret ((pa =? PAGE_ADDR self_pa) || (pa =? elf_hdr b) || ((KERNEL_LMA <=? pa) && (pa <? end_)) ||
      negb (type e =? MMAP_FREE)).

(** The loop over the pages of one region; [k] bounds its rounds as in
    [free_region]. *)
Fixpoint layout_region (k : nat) (b : boot_info) (e : mmap_entry) (end_ pa : Z) : M mem unit :=
  match k with
  | O => if pa <? u64 (addr e + len e) then halt NoFuel else mret tt
  | S k =>
      if pa <? u64 (addr e + len e) then
        (if BOOT_MAP_LIM <=? pa then mret tt
         else
           page ← pa2page pa;
           used ← must_be_used b e end_ pa;
           if negb used then mret tt
           else p ← page_get page; if negb (pp_free p =? 0) then halt Panic else mret tt);;
        layout_region k b e end_ (u64 (pa + PAGE_SIZE))
      else mret tt
  end.

Fixpoint layout_regions (es : list mmap_entry) (b : boot_info) (end_ : Z) : M mem unit :=
  match es with
  | [] => mret tt
  | e :: es =>
      layout_region (Z.to_nat ((u64 (addr e + len e) - addr e) `div` PAGE_SIZE + 1)) b e end_ (addr e);;
      layout_regions es b end_
  end.

Definition lab1_check_memory_layout (b : boot_info) : M boot unit :=
  _ ← on_mem (KADDR (mmap_addr b));
  a ← boot_alloc 0;
  end_ ← on_mem (PADDR a);
  on_mem (layout_regions (mmap b) b end_).

(** ** [lab1_check_buddy_consistency] *)

(** A page below a page that is already free. *)
Definition below_free (page parent : Z) : M mem bool :=
  p ← page_get page;
  if negb (pp_free p =? 0) then mret true
  else
    e ← on_heap (list_is_empty page);
    if negb e then mret true
    else q ← page_get parent; mret (pp_order p <? pp_order q).

Definition free_and (page : Z) (free empty : bool) : M mem bool :=
  p ← page_get page;
  if negb (Bool.eqb (negb (pp_free p =? 0)) free) then mret false
  else e ← on_heap (list_is_empty page); mret (Bool.eqb e empty).

(** The tests of one page, before the recursive calls; the result is the
    parent that they get. *)
Definition check_page (page parent : Z) : M mem Z :=
  (if negb (parent =? NULL) && negb (parent =? page) then
     bad ← below_free page parent;
     if bad : bool then halt Panic else mret tt
   else mret tt);;
  lost ← free_and page true true;
  (if lost : bool then halt Panic else mret tt);;
  stray ← free_and page false false;
  (if stray : bool then halt Panic else mret tt);;
  is_top ← free_and page true true;
  mret (if is_top : bool then page else parent).

Fixpoint check_buddy_consistency (order : nat) (addr parent : Z) : M mem unit :=
  page ← pa2page addr;
  parent ← check_page page parent;
  match order with
  | O => mret tt
  | S order =>
      check_buddy_consistency order addr parent;;
      check_buddy_consistency order (Z.lor addr (Z.shiftl 1 (Z.of_nat order + 12))) parent
  end.

(** One round per chunk of the largest order. *)
Fixpoint consistency_loop (k : nat) (addr : Z) : M mem unit :=
  match k with
  | O => if addr <? BOOT_MAP_LIM then halt NoFuel else mret tt
  | S k =>
      if addr <? BOOT_MAP_LIM then
        check_buddy_consistency (Z.to_nat (BUDDY_MAX_ORDER - 1)) addr NULL;;
        consistency_loop k (addr + Z.shiftl 1 (BUDDY_MAX_ORDER + 12 - 1))
      else mret tt
  end.

Definition lab1_check_buddy_consistency : M mem unit := consistency_loop 4 0.

(** [lab1_check_mem] but for its last check. *)
Definition lab1_checks (b : boot_info) : M boot unit :=
  on_mem lab1_check_free_list_avail;;
  on_mem lab1_check_free_list_order;;
  lab1_check_memory_layout b;;
  on_mem lab1_check_buddy_consistency.
End checks.

(** ** The checks under the allocator's invariant *)

Section proofs.
Context `{Layout} `{KernelEnd} (base n : Z) (L : layout_ok base n) (m : mem) (g : blocks) (I : buddy_inv base n m g).

Lemma heap_unchanged : set_heap (heap m) m = m.
Proof. by destruct m. Qed.

Lemma block_index i o : g !! i = Some o → 0 ≤ i < n.
Proof. intros Hi. by destruct (core_info base n L m g ∅ i o (inv_core _ _ _ _ I) Hi). Qed.

Lemma read_free_list o (Q : list Z → mem → Prop) : 0 ≤ o < BUDDY_MAX_ORDER →
  (∀ l : list Z, NoDup l → (∀ i, i ∈ l ↔ g !! i = Some o) → Q (pg base <$> l) m) →
  wp (on_heap (list_foreach (free_list o))) Q m.
Proof.
  intros Ho HQ. destruct (core_lists _ _ _ _ _ (inv_core _ _ _ _ I)) as (fl & Hl & Hm & _).
  apply wp_zoom. eapply wp_OK; [by apply list_foreach_spec, Hl|]. rewrite heap_unchanged. apply HQ.
  - pose proof (dlist_nodup _ _ _ (Hl o Ho)) as [_ Hnd]%NoDup_cons. by apply NoDup_fmap_1 in Hnd.
  - intros i. rewrite Hm by done. set_solver.
Qed.

Lemma block_list_length (l : list Z) o : NoDup l → (∀ i, i ∈ l ↔ g !! i = Some o) → Z.of_nat (length l) ≤ n.
Proof.
  intros Hnd Hl. assert (l ⊆+ seqZ 0 n) as Hs%submseteq_length.
  { apply NoDup_submseteq; [done|]. intros i Hi%Hl%block_index. apply elem_of_seqZ. lia. }
  rewrite length_seqZ in Hs. pose proof (layout_npages _ _ L). lia.
Qed.

(** The counters grow by at most one per node, and do grow on each side. *)
Record counted (l : list Z) (c : Z) (nb ne : Z) (r : Z * Z) : Prop := {
  cnt_base : nb ≤ r.1 ≤ nb + c;
  cnt_ext : ne ≤ r.2 ≤ ne + c;
  cnt_low i : i ∈ l → i < 256 → nb < r.1;
  cnt_high i : i ∈ l → 256 ≤ i → ne < r.2;
}.

Lemma avail_nodes_spec (l : list Z) : ∀ nb ne, (∀ i, i ∈ l → 0 ≤ i < n) → 0 ≤ nb → 0 ≤ ne →
  nb + Z.of_nat (length l) < 2 ^ 64 → ne + Z.of_nat (length l) < 2 ^ 64 →
  wp (avail_nodes (pg base <$> l) nb ne) (λ r m', m' = m ∧ counted l (Z.of_nat (length l)) nb ne r) m.
Proof.
  induction l as [|i l IH]; intros nb ne Hl Hnb Hne Hb He; cbn [avail_nodes fmap list_fmap length] in *.
  { wp_step. split; [done|]. split; cbn; [lia|lia|set_solver..]. }
  pose proof (layout_npages _ _ L). destruct (Hl i) as [Hi0 Hi]; [set_solver|].
  wp_step. apply wp_page2pa; [apply I|lia|].
  assert ((i * PAGE_SIZE <? EXT_PHYS_MEM) = (i <? 256)) as ->.
  { unfold PAGE_SIZE, EXT_PHYS_MEM. destruct (i <? 256) eqn:E; [apply Z.ltb_lt in E|apply Z.ltb_ge in E];
      [apply Z.ltb_lt|apply Z.ltb_ge]; lia. }
  destruct (i <? 256) eqn:E; [apply Z.ltb_lt in E|apply Z.ltb_ge in E]; rewrite u64_small by lia.
  all: eapply wp_mono; [apply IH; [set_solver|lia..]|]; cbv beta.
  all: intros r m' [-> [Hr1 Hr2 Hlo Hhi]]; split; [done|]; split; [lia|lia| |].
  all: intros j [->|Hj]%elem_of_cons Hj'; try lia.
  all: first [specialize (Hlo j Hj Hj'); lia|specialize (Hhi j Hj Hj'); lia].
Qed.

Lemma avail_orders_spec k : ∀ o nb ne, 0 ≤ o → o + Z.of_nat k = BUDDY_MAX_ORDER → 0 ≤ nb → 0 ≤ ne →
  nb + Z.of_nat k * n < 2 ^ 64 → ne + Z.of_nat k * n < 2 ^ 64 →
  wp (avail_orders k o nb ne) (λ r m', m' = m ∧ nb ≤ r.1 ∧ ne ≤ r.2 ∧
    ∀ i p, g !! i = Some p → o ≤ p → (i < 256 → nb < r.1) ∧ (256 ≤ i → ne < r.2)) m.
Proof.
  induction k as [|k IH]; intros o nb ne Ho Hk Hnb Hne Hb He; cbn [avail_orders].
  { wp_step. split_and!; [done|cbn; lia..|]. intros i p Hi Hp.
    destruct (core_info base n L m g ∅ i p (inv_core _ _ _ _ I) Hi) as (_ & _ & ? & _). lia. }
  replace (Z.of_nat (S k) * n) with (Z.of_nat k * n + n) in * by lia.
  assert (0 ≤ Z.of_nat k * n) as Hkn by (pose proof (layout_npages _ _ L); nia).
  wp_step. apply read_free_list; [lia|]. intros l Hnd Hl. pose proof (block_list_length l o Hnd Hl).
  wp_step. eapply wp_mono; [apply avail_nodes_spec; [|lia..]|cbv beta].
  { by intros i Hi%Hl%block_index. }
  intros r m' [-> [Hr1 Hr2 Hlo Hhi]]. eapply wp_mono; [apply IH; lia|cbv beta].
  intros r' m' (-> & Hr1' & Hr2' & Hrest). split_and!; [done|lia|lia|]. intros i p Hi Hp.
  destruct (decide (p = o)) as [->|Hpo].
  - apply Hl in Hi. split; intros Hi'; [specialize (Hlo i Hi Hi')|specialize (Hhi i Hi Hi')]; lia.
  - destruct (Hrest i p Hi ltac:(lia)) as [Hlo' Hhi']. split; intros Hi'; [specialize (Hlo' Hi')|specialize (Hhi' Hi')]; lia.
Qed.

(** A free block that reaches beyond the first megabyte starts there, as frame 0
    is not free: no smaller block straddles the border. *)
Lemma high_block k : free_frame g k → 256 ≤ k → ¬ free_frame g 0 → ∃ i o, g !! i = Some o ∧ 256 ≤ i.
Proof.
  intros (i & o & Hi & Hk) Hk' Hz0. exists i, o. split; [done|].
  destruct (core_info base n L m g ∅ i o (inv_core _ _ _ _ I) Hi) as (Hr & _ & Ho & Ha & _ & _).
  destruct (decide (256 ≤ i)) as [|Hlt]; [done|]. exfalso.
  assert (i ≠ 0) as Hi0 by (intros ->; apply Hz0; exists 0, o; split; [done|]; pose proof (pow2_pos o); lia).
  unfold BUDDY_MAX_ORDER, BUDDY_2M_PAGE in Ho.
  assert (o = 0 ∨ o = 1 ∨ o = 2 ∨ o = 3 ∨ o = 4 ∨ o = 5 ∨ o = 6 ∨ o = 7 ∨ o = 8 ∨ o = 9) as Hcase by lia.
  clear -Hcase Ha Hk Hk' Hlt Hr Hi0. repeat destruct Hcase as [->|Hcase]; [..|subst o]; cbn in *; mlia.
Qed.

Lemma check_avail_spec k k' : free_frame g k → k < 256 → free_frame g k' → 256 ≤ k' → ¬ free_frame g 0 →
  lab1_check_free_list_avail m = OK tt m.
Proof.
  intros (i & o & Hi & Hki) Hk Hf' Hk' Hz0. destruct (high_block k' Hf' Hk' Hz0) as (i' & o' & Hi' & Hh).
  pose proof (layout_npages _ _ L). pose proof (inv_core _ _ _ _ I) as Hc.
  destruct (core_info base n L m g ∅ _ _ Hc Hi) as (_ & _ & Ho & _).
  destruct (core_info base n L m g ∅ _ _ Hc Hi') as (_ & _ & Ho' & _).
  apply wp_run. unfold lab1_check_free_list_avail. wp_step.
  eapply wp_mono; [apply avail_orders_spec; unfold BUDDY_MAX_ORDER, BUDDY_2M_PAGE in *; lia|cbv beta].
  intros r m' (-> & _ & _ & Hr). destruct (Hr i o Hi ltac:(lia)) as [Hlo _]. destruct (Hr i' o' Hi' ltac:(lia)) as [_ Hhi].
  rewrite !(proj2 (Z.ltb_lt _ _)) by lia. wp_step. by wp_step.
Qed.

Lemma order_nodes_spec (l : list Z) o v (Q : Z → mem → Prop) : (∀ i, i ∈ l → g !! i = Some o) → Q v m →
  wp (order_nodes (pg base <$> l) o v) Q m.
Proof.
  intros Hl HQ. induction l as [|i l IH]; cbn [order_nodes fmap list_fmap]; [by wp_step|].
  destruct (core_info base n L m g ∅ i o (inv_core _ _ _ _ I)) as (_ & _ & _ & _ & _ & p & Hp & _ & Ep); [set_solver|].
  wp_step. unfold page_get. wp_step. rewrite Ep, Z.eqb_refl. apply IH. set_solver.
Qed.

Lemma check_order_spec : lab1_check_free_list_order m = OK tt m.
Proof.
  apply wp_run. unfold lab1_check_free_list_order. wp_step.
  assert (∀ k o (Q : Z → mem → Prop), 0 ≤ o → o + Z.of_nat k = BUDDY_MAX_ORDER → Q 0 m → wp (order_orders k o 0) Q m) as Hall.
  { induction k as [|k IH]; intros o Q Ho Hk HQ; cbn [order_orders]; [by wp_step|].
    wp_step. apply read_free_list; [lia|]. intros l _ Hl. wp_step. apply order_nodes_spec; [by intros i ?%Hl|].
    apply IH; [lia|lia|done]. }
  apply Hall; [lia|done|]. cbn [Z.eqb negb]. by wp_step.
Qed.

(** ** The flags and the lists *)

Lemma page_flag i : 0 ≤ i < n → ∃ p, infos m !! pg base i = Some p ∧ negb (pp_free p =? 0) = bool_decide (is_Some (g !! i)).
Proof.
  intros Hi. destruct (core_rep _ _ _ _ _ (inv_core _ _ _ _ I) i Hi) as (p & Hp & _ & Hd). exists p. split; [done|].
  destruct (g !! i) as [o|]; [destruct Hd as [-> _]|rewrite Hd]; done.
Qed.

Lemma node_linked i : 0 ≤ i < n → list_is_empty (pg base i) (heap m) = OK (negb (bool_decide (is_Some (g !! i)))) (heap m).
Proof.
  intros Hi. destruct (core_lists _ _ _ _ _ (inv_core _ _ _ _ I)) as (fl & Hl & Hm & Hd).
  destruct (g !! i) as [o|] eqn:Eg.
  - destruct (core_info base n L m g ∅ i o (inv_core _ _ _ _ I) Eg) as (_ & _ & Ho & _).
    assert (i ∈ fl o) as (l1 & l2 & E)%list_elem_of_split by (apply Hm; [done|split; [done|set_solver]]).
    specialize (Hl o Ho). rewrite E, fmap_app, fmap_cons in Hl.
    rewrite (list_is_empty_spec _ _ _ (dlist_rotate _ _ _ _ _ Hl)), bool_decide_eq_false_2 by (by destruct l2). done.
  - rewrite (list_is_empty_spec _ _ _ (Hd i Hi ltac:(by left))). done.
Qed.

Lemma free_and_spec i free empty (Q : bool → mem → Prop) : 0 ≤ i < n →
  Q (Bool.eqb (bool_decide (is_Some (g !! i))) free && Bool.eqb (negb (bool_decide (is_Some (g !! i)))) empty) m →
  wp (free_and (pg base i) free empty) Q m.
Proof.
  intros Hi HQ. destruct (page_flag i Hi) as (p & Hp & Ef). unfold free_and, page_get. wp_step. wp_step. rewrite Ef.
  destruct (Bool.eqb (bool_decide (is_Some (g !! i))) free); cbn [negb andb] in *; [|by wp_step].
  wp_step. apply wp_zoom. eapply wp_OK; [by apply node_linked|]. rewrite heap_unchanged. by wp_step.
Qed.

Lemma check_page_spec i (Q : Z → mem → Prop) : 0 ≤ i < n → Q NULL m → wp (check_page (pg base i) NULL) Q m.
Proof.
  intros Hi HQ. unfold check_page. cbn [Z.eqb NULL negb andb]. wp_step. wp_step.
  destruct (bool_decide (is_Some (g !! i))) eqn:Eb.
  all: do 2 (wp_step; apply free_and_spec; [done|]; rewrite Eb; cbn [Bool.eqb negb andb]; wp_step; wp_step).
  all: wp_step; apply free_and_spec; [done|]; rewrite Eb; cbn [Bool.eqb negb andb]; by wp_step.
Qed.

(** Setting the address bit of the second half adds it. *)
Lemma lor_half i (k : nat) : i `mod` 2 ^ Z.of_nat (S k) = 0 →
  Z.lor (i * PAGE_SIZE) (Z.shiftl 1 (Z.of_nat k + 12)) = (i + 2 ^ Z.of_nat k) * PAGE_SIZE.
Proof.
  intros [q ->]%Z.mod_divide; [|lia]. rewrite Z.shiftl_1_l.
  replace (q * 2 ^ Z.of_nat (S k) * PAGE_SIZE) with (q * 2 ^ (Z.of_nat k + 13))
    by (unfold PAGE_SIZE; rewrite Nat2Z.inj_succ, Z.pow_succ_r, Z.pow_add_r by lia; lia).
  rewrite <-(Z.add_0_r (Z.lor _ _)).
  replace 0 with (Z.land (q * 2 ^ (Z.of_nat k + 13)) (2 ^ (Z.of_nat k + 12))) at 1.
  - rewrite Z.add_lor_land. unfold PAGE_SIZE. rewrite Nat2Z.inj_succ, Z.pow_succ_r, !Z.pow_add_r by lia. lia.
  - apply Z.bits_inj'. intros b Hb. rewrite Z.land_spec, Z.bits_0, Z.pow2_bits_eqb by lia.
    destruct (Z.eqb_spec (Z.of_nat k + 12) b) as [<-|]; [|apply andb_false_r]. by rewrite Z.mul_pow2_bits_low by lia.
Qed.

(** Everything below an aligned address that the page array covers. *)
Lemma consistency_spec k : ∀ i, 0 ≤ i → i `mod` 2 ^ Z.of_nat k = 0 → i + 2 ^ Z.of_nat k ≤ n →
  check_buddy_consistency k (i * PAGE_SIZE) NULL m = OK tt m.
Proof.
  induction k as [|k IH]; intros i Hi Ha Hn; apply wp_run; cbn [check_buddy_consistency]; wp_step; unfold pa2page; wp_step; wp_step.
  all: rewrite page_index_mul, (core_npages _ _ _ _ _ (inv_core _ _ _ _ I)).
  { change (2 ^ Z.of_nat 0) with 1 in Hn. rewrite (proj2 (Z.leb_gt _ _)) by lia.
    apply (wp_page_at base); [apply I|]. wp_step. apply check_page_spec; [lia|]. by wp_step. }
  assert (2 ^ Z.of_nat (S k) = 2 * 2 ^ Z.of_nat k) as E2 by (rewrite Nat2Z.inj_succ, Z.pow_succ_r; lia).
  pose proof (pow2_pos (Z.of_nat k) ltac:(lia)). rewrite (proj2 (Z.leb_gt _ _)) by lia.
  apply (wp_page_at base); [apply I|]. wp_step. apply check_page_spec; [lia|].
  rewrite lor_half by done. rewrite E2 in Ha. destruct (align_halves i (2 ^ Z.of_nat k) ltac:(lia) Ha) as [Hlo Hhi].
  wp_step. eapply wp_OK; [apply IH; [lia|done|lia]|]. eapply wp_OK; [apply IH; [lia|done|lia]|]. done.
Qed.

Lemma check_consistency_spec : n = BOOT_MAP_LIM / PAGE_SIZE → lab1_check_buddy_consistency m = OK tt m.
Proof.
  intros Hn. change (BOOT_MAP_LIM / PAGE_SIZE) with 2048 in Hn.
  assert (∀ c, 0 ≤ c < 4 → check_buddy_consistency 9 (c * 0x200000) NULL m = OK tt m) as Hc.
  { intros c Hcc. replace (c * 0x200000) with (c * 512 * PAGE_SIZE) by (unfold PAGE_SIZE; lia).
    apply consistency_spec; [lia|change (2 ^ Z.of_nat 9) with 512; by rewrite Z.mod_mul|change (2 ^ Z.of_nat 9) with 512; lia]. }
  assert (∀ k c, 0 ≤ c → c + Z.of_nat k = 4 → consistency_loop k (c * 0x200000) m = OK tt m) as Hall; [|by apply (Hall 4%nat 0)].
  induction k as [|k IH]; intros c Hc0 Hk; cbn [consistency_loop].
  - rewrite (proj2 (Z.ltb_ge _ _)); [done|unfold BOOT_MAP_LIM; lia].
  - rewrite (proj2 (Z.ltb_lt _ _)) by (unfold BOOT_MAP_LIM; lia). unfold mbind, M_bind.
    change (Z.to_nat (BUDDY_MAX_ORDER - 1)) with 9%nat. rewrite Hc by lia.
    change (Z.shiftl 1 (BUDDY_MAX_ORDER + 12 - 1)) with 0x200000. rewrite <-(IH (c + 1)) by lia. f_equal. lia.
Qed.

(** ** The reserved frames *)

(** Frame [k] of region [e] must not be free. *)
Definition reserved (b : boot_info) (e : mmap_entry) (end_ k : Z) : bool :=
  let pa := k * PAGE_SIZE in
  (pa =? 0) || (pa =? PAGE_ADDR (bi_self b - KERNEL_VMA)) || (pa =? elf_hdr b) ||
  ((KERNEL_LMA <=? pa) && (pa <? end_)) || negb (type e =? MMAP_FREE).

Lemma must_be_used_spec b e end_ k (Q : bool → mem → Prop) : KERNEL_VMA ≤ bi_self b → Q (reserved b e end_ k) m →
  wp (must_be_used b e end_ (k * PAGE_SIZE)) Q m.
Proof.
  intros Hself HQ. unfold must_be_used, reserved in *. destruct (k * PAGE_SIZE =? 0); [by wp_step|].
  wp_step. unfold PADDR. rewrite (proj2 (Z.ltb_ge _ _)) by done. wp_step. by wp_step.
Qed.

Lemma layout_region_spec b e end_ (c : nat) : KERNEL_VMA ≤ bi_self b → n = BOOT_MAP_LIM / PAGE_SIZE → ∀ k f, (c < k)%nat → 0 ≤ f →
  f + Z.of_nat c < 2 ^ 51 → u64 (addr e + len e) = (f + Z.of_nat c) * PAGE_SIZE →
  (∀ j, f ≤ j < f + Z.of_nat c → j < n → reserved b e end_ j = true → g !! j = None) →
  wp (layout_region k b e end_ (f * PAGE_SIZE)) (λ _ m', m' = m) m.
Proof.
  intros Hself Hn. induction c as [|c IH]; intros k f Hk Hf Hf50 Eend Hres; (destruct k as [|k]; [lia|]); cbn [layout_region]; rewrite Eend.
  { rewrite Z.add_0_r, Z.ltb_irrefl. by wp_step. }
  rewrite (proj2 (Z.ltb_lt _ _)) by (unfold PAGE_SIZE; lia). wp_step.
  apply wp_mono with (P := λ _ m', m' = m).
  2:{ intros _ ? ->. replace (u64 (f * PAGE_SIZE + PAGE_SIZE)) with ((f + 1) * PAGE_SIZE)
        by (rewrite u64_small; unfold PAGE_SIZE; lia).
      apply IH; [lia|lia|lia| |intros; apply Hres; [lia|done..]]. rewrite Eend. f_equal. lia. }
  destruct (Z.leb_spec BOOT_MAP_LIM (f * PAGE_SIZE)) as [|Hlim]; [by wp_step|].
  assert (f < n) as Hfn by (rewrite Hn; change (BOOT_MAP_LIM / PAGE_SIZE) with 2048; unfold BOOT_MAP_LIM, PAGE_SIZE in *; lia).
  wp_step. unfold pa2page. wp_step. wp_step. rewrite page_index_mul, (core_npages _ _ _ _ _ (inv_core _ _ _ _ I)), (proj2 (Z.leb_gt _ _)) by lia.
  apply (wp_page_at base); [apply I|]. wp_step. apply must_be_used_spec; [done|].
  destruct (reserved b e end_ f) eqn:Er; cbn [negb]; [|by wp_step].
  destruct (page_flag f ltac:(lia)) as (p & Hp & Ef). wp_step. unfold page_get. wp_step.
  rewrite Ef, (Hres f) by (done || lia). rewrite bool_decide_eq_false_2 by (by intros [? [=]]). by wp_step.
Qed.

Definition aligned_region (e : mmap_entry) : Prop :=
  0 ≤ addr e ∧ 0 ≤ len e ∧ addr e + len e < 2 ^ 63 ∧ addr e `mod` PAGE_SIZE = 0 ∧ len e `mod` PAGE_SIZE = 0.

Definition region_frame (e : mmap_entry) (k : Z) : Prop := addr e ≤ k * PAGE_SIZE < addr e + len e.

Lemma layout_regions_spec b end_ es : KERNEL_VMA ≤ bi_self b → n = BOOT_MAP_LIM / PAGE_SIZE → Forall aligned_region es →
  (∀ e k, e ∈ es → region_frame e k → k < n → reserved b e end_ k = true → g !! k = None) →
  wp (layout_regions es b end_) (λ _ m', m' = m) m.
Proof.
  intros Hself Hn Hes Hres. induction Hes as [|e es (Ha & Hl & Hs & Hma & Hml) _ IH]; cbn [layout_regions]; [by wp_step|].
  set (f := addr e `div` PAGE_SIZE). set (c := len e `div` PAGE_SIZE).
  assert (addr e = f * PAGE_SIZE ∧ len e = c * PAGE_SIZE) as [Ea El] by (unfold f, c, PAGE_SIZE in *; clear -Hma Hml; mlia).
  assert (0 ≤ f ∧ 0 ≤ c ∧ f + c < 2 ^ 51) as (? & ? & ?) by (unfold PAGE_SIZE in *; lia).
  wp_step. apply wp_mono with (P := λ _ m', m' = m); [|intros _ ? ->; apply IH; intros; eapply Hres; [by right|done..]].
  rewrite Ea at 3. apply (layout_region_spec b e end_ (Z.to_nat c)); [done|done| |done|lia| |].
  - rewrite u64_small by lia. replace (addr e + len e - addr e) with (c * PAGE_SIZE) by lia. rewrite Z.div_mul by done. lia.
  - rewrite u64_small by lia. unfold PAGE_SIZE in *. lia.
  - intros j Hj. apply Hres; [by left|]. unfold region_frame, PAGE_SIZE in *. lia.
Qed.
End proofs.

(** ** The checks after [mem_init_boot] *)

Section boot.
Context `{Layout} `{KernelEnd}.

Lemma on_mem_next {A} (c : M mem A) s a s' : on_mem c s = OK a s' → next_free s' = next_free s.
Proof. unfold on_mem, zoom. destruct (c (bmem s)); [|done]. by intros [= <- <-]. Qed.

Lemma page_init_next b s a s' : KERNEL_VMA ≤ next_of s < 2 ^ 64 - 2 ^ 32 → page_init b s = OK a s' → next_free s' = next_of s.
Proof.
  intros Hnx E. unfold page_init, gets, mbind, M_bind in E.
  destruct (on_mem (page_init_infos _ 0) s) as [? s1|] eqn:E1; [|done]. apply on_mem_next in E1.
  destruct (on_mem (KADDR _) s1) as [? s2|] eqn:E2; [|done]. apply on_mem_next in E2.
  assert (next_of s2 = next_of s) as En by (unfold next_of; by rewrite E2, E1).
  rewrite boot_alloc_run in E; [|unfold PAGE_SIZE; lia|by rewrite En].
  destruct (on_mem (PADDR _) _) as [? s3|] eqn:E3; [|done]. apply on_mem_next in E3. apply on_mem_next in E.
  rewrite E, E3. cbn. change (ROUNDUP 0 PAGE_SIZE) with 0. lia.
Qed.

Lemma mem_init_boot_next base n s b a s' : mem_raw base n s b → mem_init_boot b s = OK a s' →
  next_free s' = base + ROUNDUP (n * sizeof_page_info) PAGE_SIZE.
Proof.
  intros [_ Eb En Hsz Hpl _ _ _ _ _ _ _] E. unfold mem_init_boot, gets, mbind, M_bind in E.
  destruct (on_mem (init_heads _ 0) s) as [? s1|] eqn:E1; [|done]. apply on_mem_next in E1.
  destruct (on_mem (modify _) s1) as [? s2|] eqn:E2; [|done].
  assert (npages (bmem s2) = n) as E2n by (unfold on_mem, zoom, modify in E2; injection E2 as <- <-; by rewrite En).
  apply on_mem_next in E2. rewrite E2n in E.
  assert (next_of s2 = base) as En2 by (rewrite Eb; unfold next_of; by rewrite E2, E1).
  rewrite boot_alloc_run in E; [|lia|rewrite En2; lia]. rewrite En2 in E.
  destruct (on_mem (modify (set_pages base)) _) as [? s3|] eqn:E3; [|done]. apply on_mem_next in E3. cbn in E3.
  destruct (page_init _ s3) as [? s4|] eqn:E4; [|done]. unfold mret, M_ret in E. injection E as _ <-.
  pose proof (roundup_spec (n * sizeof_page_info)) as Hru.
  assert (next_of s3 = base + ROUNDUP (n * sizeof_page_info) PAGE_SIZE) as En3.
  { unfold next_of. rewrite E3, (proj2 (Z.eqb_neq _ _)); [done|]. unfold NULL, KERNEL_VMA, PAGE_SIZE in *. lia. }
  rewrite (page_init_next _ _ _ _ ltac:(rewrite En3; unfold PAGE_SIZE in *; lia) E4). done.
Qed.

Lemma align_aligned e : entry_ok e → aligned_region (align_entry e).
Proof.
  intros He. pose proof (align_region e He) as Hr. destruct He as (Ha & Hl & Hs & _).
  destruct (decide (type e = MMAP_FREE)) as [Et|Et].
  { destruct Hr as (? & ? & ? & ? & ?); [unfold align_entry; by destruct (type e =? MMAP_FREE)|]. split_and!; [done|done|lia|done|done]. }
  clear Hr. unfold align_entry. rewrite (proj2 (Z.eqb_neq _ _)) by done. unfold aligned_region. cbn [addr len].
  pose proof (rounddown_spec (addr e)) as (Hdm & Hd1 & Hd0); [lia|].
  rewrite (u64_small (len e + _)) by lia.
  replace (ROUNDDOWN (addr e) PAGE_SIZE + (len e + (addr e - ROUNDDOWN (addr e) PAGE_SIZE))) with (addr e + len e) by lia.
  rewrite (u64_small (addr e + len e)) by lia.
  pose proof (roundup_spec (addr e + len e)) as [Hum Hu1]; [unfold PAGE_SIZE; lia|].
  unfold PAGE_SIZE in *. rewrite u64_small by lia.
  generalize dependent (ROUNDDOWN (addr e) 4096). generalize dependent (ROUNDUP (addr e + len e) 4096). intros.
  split_and!; [lia..|mlia].
Qed.

(** A frame that must not be free is not one that [page_init] handed out. *)
Lemma reserved_not_usable b e end_ k : (type e ≠ MMAP_FREE → region_frame e k → k ∉ usable_frames b end_) →
  region_frame e k → reserved b e end_ k = true → k ∉ usable_frames b end_.
Proof.
  intros Hother Hk Hr Hin. destruct (decide (type e = MMAP_FREE)) as [Et|Et]; [|by apply Hother].
  apply list_elem_of_bind in Hin as (e' & He' & _). unfold region_frames in He'.
  destruct (type e' =? MMAP_FREE); [|by apply not_elem_of_nil in He'].
  apply list_elem_of_filter in He' as [Hu _]. apply Is_true_true in Hu. revert Hr Hu.
  unfold usable, in_boot_map, not_reserved, reserved. rewrite Et. cbn [MMAP_FREE Z.eqb Pos.eqb negb].
  rewrite !Z.leb_antisym. repeat match goal with |- context [?x =? ?y] => destruct (x =? y) end; cbn; try done.
  all: rewrite ?andb_false_r; try done.
  all: destruct (k * PAGE_SIZE <? KERNEL_LMA), (k * PAGE_SIZE <? end_), (k * PAGE_SIZE <? BOOT_MAP_LIM); done.
Qed.

Lemma on_mem_same (c : M mem unit) s : c (bmem s) = OK tt (bmem s) → on_mem c s = OK tt s.
Proof. intros E. unfold on_mem, zoom. rewrite E. by destruct s. Qed.

Lemma check_layout_spec base n s b g : layout_ok base n → buddy_inv base n (bmem s) g → n = BOOT_MAP_LIM / PAGE_SIZE →
  PAGE_INDEX (mmap_addr b) < n → KERNEL_VMA ≤ next_free s < 2 ^ 64 - 2 ^ 32 → KERNEL_VMA ≤ bi_self b →
  Forall aligned_region (mmap b) →
  (∀ e k, e ∈ mmap b → region_frame e k → reserved b e (next_free s - KERNEL_VMA) k = true → ¬ free_frame g k) →
  lab1_check_memory_layout b s = OK tt s.
Proof.
  intros L I Hn Hmm Hnx Hself Hal Hres. apply wp_run. unfold lab1_check_memory_layout.
  assert (next_of s = next_free s) as En.
  { unfold next_of. rewrite (proj2 (Z.eqb_neq _ _)); [done|]. unfold NULL, KERNEL_VMA in *. lia. }
  assert (set_bmem (bmem s) s = s) as Eid by (by destruct s).
  wp_step. unfold on_mem at 1. wp_step. unfold KADDR. wp_step. wp_step.
  rewrite (core_npages _ _ _ _ _ (inv_core _ _ _ _ I)), (proj2 (Z.leb_gt _ _)) by lia. wp_step. rewrite Eid.
  wp_step. eapply wp_OK; [apply boot_alloc_run; [unfold PAGE_SIZE; lia|by rewrite En]|].
  change (ROUNDUP 0 PAGE_SIZE) with 0. rewrite En, Z.add_0_r. replace (Boot (bmem s) (next_free s)) with s by (by destruct s).
  wp_step. unfold on_mem at 1. wp_step. unfold PADDR. rewrite (proj2 (Z.ltb_ge _ _)) by lia. wp_step. rewrite Eid.
  unfold on_mem. wp_step. eapply wp_mono; [apply (layout_regions_spec base n (bmem s) g I); [done|done|done|]|].
  - intros e k Hin Hk Hkn Hr. destruct (g !! k) as [o|] eqn:Eg; [|done]. destruct (Hres e k Hin Hk Hr).
    by eapply free_frame_start; [apply I|].
  - intros [] ? ->. done.
Qed.
End boot.

(** C39 (functional).  The checks that [mem_init] runs after [page_init] pass: on a
    machine with memory up to the end of the boot mapping, whose memory map
    offers a usable page below and one above the first megabyte and does not
    call a page both usable and not, [mem_init_boot] is followed by a run of the
    checks that ends without a panic and changes nothing. *)
Theorem lab1_checks_pass `{Layout} `{KernelEnd} base n s b low high : mem_raw base n s b → let b' := align_boot_info b in
  let F := usable_frames b' (boot_end base n) in
  NoDup F → (∀ k, k ∈ F → k < n) → n = BOOT_MAP_LIM / PAGE_SIZE →
  low ∈ F → low < 256 → high ∈ F → 256 ≤ high →
  (∀ e k, e ∈ mmap b' → type e ≠ MMAP_FREE → region_frame e k → k ∉ F) →
  ∃ s', mem_init_boot b s = OK b' s' ∧ lab1_checks b' s' = OK tt s'.
Proof.
  intros Hr b' F Hnd Hlt Hn Hlow Hl256 Hhigh Hh256 Hother.
  destruct (wp_elim _ _ _ (mem_init_boot_spec base n s b Hr Hnd Hlt)) as (r & s' & E & -> & Hp & g & Hinv & HF).
  exists s'. split; [done|]. fold b' in E, HF. fold F in HF.
  pose proof Hr as [L _ _ Hsz Hpl _ _ _ _ Hself Hmm He].
  pose proof (mem_init_boot_next _ _ _ _ _ _ Hr E) as Enx. pose proof (roundup_spec (n * sizeof_page_info)) as Hru.
  assert (¬ free_frame g 0) as Hzero.
  { intros (e & Hin & _)%HF%list_elem_of_bind. unfold region_frames in Hin. destruct (type e =? MMAP_FREE); [|by apply not_elem_of_nil in Hin].
    apply list_elem_of_filter in Hin as [Hu%Is_true_true _]. discriminate Hu. }
  unfold lab1_checks, mbind, M_bind.
  rewrite (on_mem_same lab1_check_free_list_avail), (on_mem_same lab1_check_free_list_order), (check_layout_spec base n _ _ g),
    (on_mem_same lab1_check_buddy_consistency); try done.
  - by apply (check_consistency_spec base n L _ g Hinv).
  - rewrite Enx. unfold PAGE_SIZE in *. lia.
  - apply Forall_fmap. eapply Forall_impl; [exact He|]. intros e. apply align_aligned.
  - intros e k Hin Hk Hres Hfree%HF. rewrite Enx in Hres. revert Hfree. by eapply reserved_not_usable; [intros; by eapply Hother|..].
  - by apply (check_order_spec base n L _ g Hinv).
  - by apply (check_avail_spec base n L _ g Hinv low high); try apply HF.
Qed.

(** ** A concrete machine: 8 MB of memory *)

#[local] Existing Instance start_layout.
#[local] Existing Instance start_end.
Definition full_boot : boot := start_boot 2048.
Definition full_info : boot_info := start_info 2048.

Lemma full_raw : mem_raw start_base 2048 full_boot full_info.
Proof.
  split; [by apply start_layout_ok|reflexivity|reflexivity|by vm_compute|by vm_compute| | | |reflexivity|by vm_compute|by vm_compute|].
  - apply raw_dec. vm_compute. reflexivity.
  - apply heads_dec. vm_compute. reflexivity.
  - apply zero_dec; vm_compute; reflexivity.
  - repeat constructor; vm_compute; intros; done.
Qed.

Lemma regions_NoDup (P : Z → bool) a c b d : 0 ≤ c → a + c ≤ b →
  NoDup (filter P (seqZ a c) ++ [] ++ filter P (seqZ b d) ++ []).
Proof.
  intros Hc Hb. rewrite app_nil_l, app_nil_r. apply NoDup_app. split_and!; [apply NoDup_filter, NoDup_seqZ| |apply NoDup_filter, NoDup_seqZ].
  intros k [_ Hk%elem_of_seqZ]%list_elem_of_filter [_ Hk'%elem_of_seqZ]%list_elem_of_filter. lia.
Qed.

Lemma lab1_checks_pass_witness : ∃ s', mem_init_boot full_info full_boot = OK (align_boot_info full_info) s' ∧
  lab1_checks (align_boot_info full_info) s' = OK tt s'.
Proof.
  apply (lab1_checks_pass start_base 2048 full_boot full_info 1 0x1b0 full_raw).
  - apply (regions_NoDup (usable (align_boot_info full_info) (boot_end start_base 2048)) 1 0x9e 0x100 0x700); lia.
  - apply Forall_forall. apply (bool_decide_unpack _). vm_compute. exact I.
  - reflexivity.
  - apply (bool_decide_unpack _). vm_compute. exact I.
  - lia.
  - apply (bool_decide_unpack _). vm_compute. exact I.
  - lia.
  - intros e k He Ht Hk. cbn in He. repeat (apply elem_of_cons in He as [->|He]; [try (by destruct Ht)|]); [|by apply not_elem_of_nil in He].
    change (0x9f000 ≤ k * 4096 < 0xa0000) in Hk. assert (k = 0x9f) as -> by lia.
    apply (bool_decide_unpack _). vm_compute. exact I.
Defined.
